(* ===== verification/_CoqProject ===== *)
-Q . S2P
Prelude.v
Tlv.v
Block.v
PQueue.v
Enc.v
NameTree.v
Arena.v
FibSpec.v
FibTree.v
FibHash.v
FibEquiv.v
Rib.v
DeadNonce.v
Measurements.v
Packet.v
PitCs.v
PitTree.v
Pit.v
ContentStore.v
PitCsRun.v
Fw.v
FwInv.v
FwRun.v
FwSteady.v
FwProps.v
FwExamples.v
FwExchange.v
Text.v
NetAddr.v
Uri.v
Transport.v
Sockets.v
Stream.v
Receive.v
LinkService.v
LinkProps.v
Reassembly.v
Forwarder.v
ForwarderExamples.v
Faces.v
MgmtBase.v
MgmtTables.v
MgmtFaces.v
Mgmt.v
MgmtProps.v
MgmtEffects.v
MgmtExamples.v
Sha256.v
NdnComponent.v
NdnName.v
NdnCodec.v
NdnMeta.v
NdnData.v
NdnInterest.v
Lpv2.v
NdnMgmt.v
NdnStatus.v
Shutdown.v
Listeners.v
Executor.v
StopModel.v
StopFace.v
Stop.v
Configure.v
