(* ===== verification/Prelude.v ===== *)
(** * YaNFD: a verification library for the forwarder

    YaNFD is an NDN forwarding daemon in Go.  Faces receive link-layer frames
    and hand packets to forwarding threads; a thread looks Interests up in its
    Pending Interest Table and Content Store, asks a strategy for next hops
    found in the FIB, and sends packets out of faces again; management is one
    more application behind an internal face, which changes the tables.  This
    library translates that program, function by function, and proves what the
    parts do.  This first file documents the library and holds the notations,
    tactics, hint databases and lemmas the others share.

    ** How the code is modelled

    A Go function is a Rocq function with the name of the Go function where
    that is free.  A result is an [outcome]: [Ok], a returned error [Err], or
    [Panic], a run-time panic (nil dereference, index or slice bounds, nil map
    write); one goroutine's panic stops the daemon.  State that is shared by
    pointer is a store (a map from pointers, or an arena) that is passed along;
    structures that are never shared are values.  Integers are [Z] with the
    wrap-around of their width written out ([u64], [i64], ...), byte slices and
    strings are [list byte], slices of capacity equal to their length.  A Go map
    is a [gmap]; where the code's result could depend on the order of
    iteration, the order is an argument ([walk], [children_order],
    [face_order]) over which the theorems quantify.  The clock ([now]), random
    draws ([draws]), what a channel or socket delivers, and the answers of the
    operating system are arguments too; the clock is read once per operation.
    A mutex that an operation holds from beginning to end makes it atomic and is
    not modelled otherwise.

    Code that is not in the repository is a class of operations, with what the
    program relies on as a class of laws, and every property that uses laws has
    a witness over a concrete instance:
    - [EncOps], [EncLaws] (Enc.v): names of go-ndn.  The laws say that the
      64-bit hashes do not collide on the names in use ([universe], closed under
      prefixes); nothing is said about other names.
    - [LpCodec], [LpCodecLaws] (LinkService.v): go-ndn's packet codec.
    - [MgmtCodec], [MgmtLaws] (MgmtBase.v, MgmtProps.v): go-ndn's control
      parameters, responses and datasets.
    - [NetEnv] (Uri.v): DNS, the file system, Go's URL parser.
    - [sortSlice] (Fw.v): [sort.Slice], any function that returns a sorted
      permutation.

    ** The parts, and where they are

    Numbers and blocks of the TLV format, src/ndn/tlv: Tlv.v, Block.v.  Names
    and components of package ndn, src/ndn/name.go: Text.v (what is used of
    strconv, hex and strings), NdnComponent.v, NdnName.v.

    Tables, src/table: Enc.v (names of go-ndn), NameTree.v and Arena.v (what the
    three name trees have in common: edges, parents, longest prefix match,
    growth, pruning), FibSpec.v (the interface of the FIB and strategy table, an
    abstract table and the laws), FibTree.v and FibHash.v (the two
    implementations), FibEquiv.v (they cannot be told apart), Rib.v (the RIB, a
    client of any FIB that satisfies the interface), PQueue.v (src/utils: heap
    and priority queue), DeadNonce.v (dead nonce list, network regions),
    Measurements.v (a table of numbers that no code uses), PitCs.v
    (PIT and Content Store: data and operations), PitTree.v, Pit.v,
    ContentStore.v (their invariants and effects), PitCsRun.v (properties over
    runs of operations).

    Forwarding, src/fw: Packet.v (packets in the forwarder), Fw.v (threads,
    pipelines and strategies), FwInv.v (the invariant), FwRun.v (what the
    pipelines do), FwSteady.v (what they leave alone, which the threads that share
    packets rely on), FwProps.v (properties over runs of events), FwExamples.v
    (concrete runs), FwExchange.v (an Interest that is forwarded, and the way back
    of its Data).  Forwarder.v composes link services and threads into the
    forwarding plane, ForwarderExamples.v runs it.

    Faces, src/face: NetAddr.v (addresses), Uri.v (face URIs), Transport.v (the
    interface, the shared state, the internal transport), Sockets.v (the other
    transports), Stream.v (framing on Unix stream sockets), Receive.v (the other
    receive loops), LinkService.v and
    LinkProps.v (NDNLPv2 link service), Reassembly.v (its goroutines over the
    map of partial messages), Faces.v (face table, events, dispatch),
    Shutdown.v (the goroutines of a face that is being closed), Listeners.v (the
    listeners, which make faces of remote endpoints).  Executor.v is start and
    stop of the daemon, src/executor, as far as the face table goes, StopModel.v its
    Stop with the goroutines of listeners, faces and threads, StopFace.v and Stop.v
    what that does to one face and to the daemon, Configure.v the configuration (src/core and the init.go files) and what Start makes of it.

    Management, src/mgmt: MgmtBase.v (data, responses), MgmtTables.v (modules
    for RIB, FIB, strategies, Content Store and status), MgmtFaces.v (module for
    faces), Mgmt.v (the thread), MgmtProps.v, MgmtEffects.v, MgmtExamples.v
    (properties and witnesses).

    Packets of package ndn, src/ndn: NdnCodec.v (what the packet types share:
    decoding field by field, encoding), Sha256.v (the hash of Go's library),
    NdnMeta.v (MetaInfo, SignatureInfo, delegations, signatures), NdnData.v
    (Data, prefix announcements), NdnInterest.v (Interests), Lpv2.v (NDNLPv2
    frames of src/ndn/lpv2), NdnMgmt.v and NdnStatus.v (control parameters,
    filters, responses and status datasets of src/ndn/mgmt).  The forwarder
    itself uses go-ndn's packets and management structures.

    The parts meet in these places.  The RIB writes the FIB through the
    interface [FibStrategy] (Rib.v), so its theorems hold for both FIBs, with one
    exception they state ([fib_nil_clears]: the hash table loses the next hops of
    its root when the RIB clears those of an entry that was never named), and for
    names the FIB can hold ([fib_dom]: every name for the name tree, names without
    a hash collision for the hash table); forwarding threads read the FIB through the same interface (Fw.v).  A link
    service is proved against the class [Transport].  A forwarding thread's
    packets and the faces' queues share a store of packets (Fw.v,
    FwExamples.shared_packet_token_leaks shows why that matters); Forwarder.v is
    where they run together: its state is the link services, the threads and the
    packets, its steps are [frame_in] (a frame that a face received, up to the
    queues of the threads), [thread_runs] (one event of a thread, up to the queues
    of the faces) and [face_sends] (a round of a face's send loop).  The face
    table's [Remove] cleans the RIB (Faces.v), and management works on the face
    table, RIB and FIB at once ([Mgmt], MgmtBase.v).

    ** What the theorems show

    - Tables.  Each FIB refines the abstract longest-prefix-match table; the two
      agree on all lookups; the RIB keeps in the FIB exactly the next hops its
      routes give (for every name not written behind its back, and but for the
      root of the hash table); the PIT finds
      exactly the entry of an Interest, by name, selectors and hint, and a
      Data's entries by its name, or by its token alone; the Content Store evicts
      the record least recently inserted, refreshed or hit exactly (a prefix hit
      does not count); where entries leak or records get lost, that is stated.
    - Forwarding.  The forwarding plane as a whole, with fragmentation and
      reliability off on all faces: in any order of the steps of
      faces and threads, frames with fit packets never stop it and its queues stay
      bounded ([forwarder_safe]; what is not fit, among it a consumer's short PIT
      token, stops it: [short_token_stops_daemon]); Data that brings a thread's
      token back ends at the face that asked, with that face's token
      ([answer_returns]); an Interest that passes the checks goes to the strategy's
      next hops with that token ([interest_forwarded]).
      A thread never panics on well-formed packets; it sends no Data with a
      /localhost name to a non-local face, and a strategy sends no Interest back to
      its face or, without hops left, to a non-local one ([thread_safe]; the scope of
      outgoing Interests is not checked: [scope_and_return]); Data is queued at
      exactly the downstreams of the pending Interests it matches, and it is stated
      which token each copy carries: a downstream's own, or one that leaked from
      another ([data_reaches_downstreams]); the
      strategies use next hops in the documented order; dispatch over threads
      meets (a Data finds the thread that holds the Interest).
    - Closing, listeners, start and stop.  However the goroutines of a closing
      face are scheduled (one whose receive loop ends when a read fails), it is
      removed once and every run ends, but goroutines
      are left that wait for ever, and a failing acknowledgement blocks the face;
      every accepted connection becomes one face, a datagram of a new endpoint can
      be overwritten before its face reads it; [Start] leaves a consistent table,
      [Stop] waits for those faces only that were going down before; of a daemon
      whose faces nothing else closes it returns whatever the schedule, while
      permanent and multicast UDP faces open their connections again
      ([stop_returns]), and the cases
      in which it crashes or hangs are exhibited ([stop_hazards]); settings of a
      wrong type or out of range are ignored, and it is stated which
      configurations the daemon does not come up with.
    - Faces.  Packets cross a link unchanged, reassembly works in any order of
      the fragments and, when each comes once, under any order of the accesses of
      their goroutines, each taken as atomic, passes on whole messages only (though
      they race, and can lose
      one or pass it on twice, or be ended by the runtime: [writers_meet]); the inputs that panic or block a link service are
      characterised; the face
      table, the dispatch map, the event ring and the transports' life cycle.
    - Management.  Which requests panic the thread, what requests from other
      hosts can change, the effect of every command, and how the routes of
      management itself get lost.
    - Formats.  Blocks, names, URIs, Interests, signed Data and link-layer frames
      round-trip (but for the SignatureInfo of Data, which comes back as [read_sig]
      says: a key locator is wrapped once more); which signatures pass validation; the order of names is the
      canonical order; stream framing delivers packets whole, or what happens
      where it does not.

    ** Fuel and bounds

    Recursion that is not structural has fuel, always enough as called: block
    parsing takes the length of the value (a block is two bytes at least),
    [EraseAll] the number of sub-elements, tree searches the length of the name,
    heap sifting the size of the heap, the sending of a packet its size (or the
    theorem states that it does not end: [fragmentation_blocks]), the stream
    loop the bytes of its buffer ([unix_stream_hazards] shows a loop that never
    ends for any fuel), [Table.Add] the number of faces (a free identifier is
    found before).  [generateNewPitToken] ends when a draw is free;
    [pit_insert_returns] says so.  Counters wrap at 64 bits.

    ** Not modelled

    Logging, loading of the configuration file, commands, profiling and the web
    UI (src/core/logger.go, src/cmd, the rest of src/executor: I/O), system calls
    and packet capture (src/face/impl), timers (the code they trigger is an operation; when they fire is an event),
    goroutine scheduling below the granularity of one packet, frame or command
    (a step of Forwarder.v is atomic: that two threads write to one packet at the
    same instant is not modelled) except in Shutdown.v, StopModel.v, Listeners.v, Reassembly.v and Measurements.v,
    the runtime's abort on unsynchronized access to Go maps, and
    running out of memory.  Hash collisions are excluded by [EncLaws].  The slice
    the hash-table FIB returns and [BestRoute] sorts in place is treated as a
    copy: sorting changes the order in which the FIB keeps next hops, on which
    no other code depends.  The event a new face emits is sent to management's
    subscribers after the table update instead of in the middle of it, which the
    face cannot tell.  Management's transport is kept twice, in its face table
    entry and in [mtransport]: the entry is read for its URIs, counters and MTU
    only.  *)
From Stdlib Require Export ZArith Lia Strings.Byte Sorting.Sorted.

From stdpp Require Export base list gmap option numbers.
From stdpp Require Export strings.

Declare Scope go_scope.
Delimit Scope go_scope with go.
Open Scope go_scope.

(** ** Tactics and hint databases *)

(** [tlv]: coherence of blocks.  [tables]: invariants of the forwarding tables. *)
Create HintDb tlv.
Create HintDb tables.

(** Case analysis on the first [if] or [match] of the goal (only). *)
Ltac goal_if E :=
  match goal with |- context [if ?c then _ else _] => destruct c eqn:E end.
Ltac goal_ifs :=
  repeat match goal with
    | |- context [if ?c then _ else _] => let E := fresh "Eif" in destruct c eqn:E
    end.
Ltac goal_match E :=
  match goal with |- context [match ?c with _ => _ end] => destruct c eqn:E end.

(** ** Errors and outcomes *)

(** The error values of ndn/util/errors.go and ndn/tlv/errors.go; [ErrNew] is
    a fresh [errors.New] (or [fmt.Errorf]) value with its message. *)
Inductive go_error :=
| ErrDecodeNameComponent
| ErrNonExistent
| ErrOutOfRange
| ErrTooLong
| ErrTooShort
| ErrBufferTooShort
| ErrMissingLength
| ErrUnexpected
| ErrUnrecognizedCritical
| ErrNew (msg : string).

#[export] Instance go_error_eq_dec : EqDecision go_error.
Proof. solve_decision. Defined.

(** The result of a Go call: a value, a returned error, or a run-time panic
    (nil dereference, slice bounds, index out of range, nil map write). *)
Inductive outcome (A : Type) :=
| Ok (a : A)
| Err (e : go_error)
| Panic.
Arguments Ok {A} a.
Arguments Err {A} e.
Arguments Panic {A}.

#[export] Instance outcome_eq_dec {A} `{EqDecision A} : EqDecision (outcome A).
Proof. solve_decision. Defined.

Definition outcome_bind {A B} (f : A -> outcome B) (x : outcome A) : outcome B :=
  match x with
  | Ok a => f a
  | Err e => Err e
  | Panic => Panic
  end.

Notation "'let*' p := x 'in' k" := (outcome_bind (fun p => k) x)
  (at level 10, p pattern, x at level 100, k at level 200,
   format "'[v' 'let*'  p  :=  x  'in' '/' k ']'") : go_scope.

Lemma outcome_bind_ok {A B} (f : A -> outcome B) x b :
  outcome_bind f x = Ok b -> exists a, x = Ok a /\ f a = Ok b.
Proof. destruct x; simpl; [eauto | discriminate | discriminate]. Qed.

Lemma outcome_bind_assoc {A B C} (f : A -> outcome B) (g : B -> outcome C) x :
  outcome_bind g (outcome_bind f x) = outcome_bind (fun a => outcome_bind g (f a)) x.
Proof. by destruct x. Qed.

Definition is_panic {A} (x : outcome A) : bool :=
  match x with Panic => true | _ => false end.

Definition is_ok {A} (x : outcome A) : bool :=
  match x with Ok _ => true | _ => false end.

(** ** Machine integers *)

(** Unsigned wrap-around at each width. *)
Definition u8 (z : Z) : Z := z mod 2 ^ 8.
Definition u16 (z : Z) : Z := z mod 2 ^ 16.
Definition u32 (z : Z) : Z := z mod 2 ^ 32.
Definition u64 (z : Z) : Z := z mod 2 ^ 64.

(** Conversion of a 64-bit pattern to Go's signed [int] / [int64]. *)
Definition i64 (z : Z) : Z := (z + 2 ^ 63) mod 2 ^ 64 - 2 ^ 63.

Lemma i64_small z : (- 2 ^ 63 <= z < 2 ^ 63)%Z -> i64 z = z.
Proof. intros. unfold i64. rewrite Z.mod_small; lia. Qed.

Lemma u64_small z : (0 <= z < 2 ^ 64)%Z -> u64 z = z.
Proof. apply Z.mod_small. Qed.

Lemma u64_range z : (0 <= u64 z < 2 ^ 64)%Z.
Proof. apply Z.mod_pos_bound. lia. Qed.

(** ** Bytes *)

Definition b2z (b : byte) : Z := Z.of_N (Byte.to_N b).
Definition z2b (z : Z) : byte :=
  match Byte.of_N (Z.to_N (z mod 256)) with
  | Some b => b
  | None => x00
  end.

#[export] Instance byte_eq_dec : EqDecision byte := Byte.byte_eq_dec.

Lemma b2z_range b : (0 <= b2z b < 256)%Z.
Proof. unfold b2z. pose proof (Byte.to_N_bounded b). lia. Qed.

Lemma b2z_z2b z : b2z (z2b z) = (z mod 256)%Z.
Proof.
  unfold b2z, z2b. pose proof (Z.mod_pos_bound z 256 ltac:(lia)).
  destruct (Byte.of_N _) as [b|] eqn:E.
  - apply Byte.to_of_N in E. rewrite E. lia.
  - apply Byte.of_N_None_iff in E. lia.
Qed.

Lemma z2b_b2z b : z2b (b2z b) = b.
Proof.
  unfold b2z, z2b. pose proof (b2z_range b) as Hb. unfold b2z in Hb.
  rewrite Z.mod_small by lia. rewrite N2Z.id. by rewrite Byte.of_to_N.
Qed.

Lemma b2z_inj b1 b2 : b2z b1 = b2z b2 -> b1 = b2.
Proof. intros H. by rewrite <- (z2b_b2z b1), <- (z2b_b2z b2), H. Qed.

#[export] Instance byte_countable : Countable byte.
Proof.
  refine (inj_countable' b2z z2b _). exact z2b_b2z.
Defined.

(** A Go string is a sequence of bytes; [gs "..."] is the literal. *)
Definition gs (s : String.string) : list byte := Stdlib.Strings.String.list_byte_of_string s.

(** ** Big-endian integers (encoding/binary) *)

Fixpoint be_put (n : nat) (v : Z) : list byte :=
  match n with
  | O => []
  | S n' => be_put n' (v / 256) ++ [z2b v]
  end.

Definition be_get (l : list byte) : Z :=
  fold_left (fun acc b => acc * 256 + b2z b)%Z l 0%Z.

Lemma be_get_app l1 l2 :
  be_get (l1 ++ l2) = (be_get l1 * 256 ^ Z.of_nat (length l2) + be_get l2)%Z.
Proof.
  unfold be_get. rewrite fold_left_app. generalize (fold_left (fun acc b => acc * 256 + b2z b)%Z l1 0%Z) as a.
  induction l2 as [|b l2 IH]; intros a; cbn [fold_left length].
  - rewrite Z.pow_0_r. lia.
  - rewrite (IH (a * 256 + b2z b)%Z), (IH (0 * 256 + b2z b)%Z).
    rewrite Nat2Z.inj_succ, Z.pow_succ_r by lia. nia.
Qed.

Lemma be_get_snoc l b : be_get (l ++ [b]) = (be_get l * 256 + b2z b)%Z.
Proof. unfold be_get. by rewrite fold_left_app. Qed.

Lemma length_be_put n v : length (be_put n v) = n.
Proof.
  revert v; induction n as [|n IH]; intros v; [done|].
  cbn [be_put]. rewrite length_app, IH. cbn. lia.
Qed.

Lemma be_get_range l : (0 <= be_get l < 256 ^ Z.of_nat (length l))%Z.
Proof.
  induction l as [|b l IH] using rev_ind; [cbn; lia|].
  rewrite be_get_snoc, length_app. cbn [length].
  rewrite Nat2Z.inj_add, Z.pow_add_r by lia.
  change (256 ^ Z.of_nat 1)%Z with 256%Z. pose proof (b2z_range b). lia.
Qed.

Lemma be_get_put n v : be_get (be_put n v) = (v mod 256 ^ Z.of_nat n)%Z.
Proof.
  revert v; induction n as [|n IH]; intros v; cbn [be_put].
  - cbn. by rewrite Z.mod_1_r.
  - rewrite be_get_snoc, IH, b2z_z2b, Nat2Z.inj_succ, Z.pow_succ_r by lia.
    assert (0 < 256 ^ Z.of_nat n)%Z by (apply Z.pow_pos_nonneg; lia).
    rewrite (Z.rem_mul_r v 256 (256 ^ Z.of_nat n)) by lia. ring.
Qed.

Lemma be_put_get l : be_put (length l) (be_get l) = l.
Proof.
  induction l as [|b l IH] using rev_ind; [done|].
  rewrite length_app. cbn [length]. rewrite Nat.add_1_r. cbn [be_put].
  rewrite be_get_snoc. f_equal.
  - transitivity (be_put (length l) (be_get l)); [|exact IH].
    f_equal. pose proof (b2z_range b).
    rewrite Z.div_add_l by lia. rewrite Z.div_small by lia. lia.
  - f_equal. apply b2z_inj. rewrite b2z_z2b. pose proof (b2z_range b).
    rewrite Z.add_comm, Z.mod_add by lia. apply Z.mod_small. lia.
Qed.

Lemma be_get_put_small n v : (0 <= v < 256 ^ Z.of_nat n)%Z -> be_get (be_put n v) = v.
Proof. intros. rewrite be_get_put. by apply Z.mod_small. Qed.

(** ** Slices *)

(** [l[lo:hi]]: a panic when the bounds are not ordered or exceed the slice. *)
Definition go_slice {A} (l : list A) (lo hi : Z) : outcome (list A) :=
  if bool_decide (0 <= lo /\ lo <= hi /\ hi <= Z.of_nat (length l))%Z
  then Ok (take (Z.to_nat (hi - lo)) (drop (Z.to_nat lo) l))
  else Panic.

(** [l[i]]: a panic when the index is out of range. *)
Definition go_index {A} (l : list A) (i : Z) : outcome A :=
  if bool_decide (0 <= i)%Z then
    match l !! Z.to_nat i with Some x => Ok x | None => Panic end
  else Panic.

Lemma go_slice_ok {A} (l r : list A) lo hi :
  go_slice l lo hi = Ok r ->
  (0 <= lo /\ lo <= hi /\ hi <= Z.of_nat (length l))%Z /\
  r = take (Z.to_nat (hi - lo)) (drop (Z.to_nat lo) l).
Proof. unfold go_slice. case_bool_decide; [by intros [= <-] | done]. Qed.

Lemma go_slice_panic {A} (l : list A) lo hi : (hi < lo)%Z -> go_slice l lo hi = Panic.
Proof. intros H. unfold go_slice. rewrite bool_decide_false; [done|lia]. Qed.

Lemma go_slice_prefix {A} (l1 l2 : list A) :
  go_slice (l1 ++ l2) 0 (Z.of_nat (length l1)) = Ok l1.
Proof.
  unfold go_slice. rewrite length_app, bool_decide_true by lia.
  f_equal. rewrite Z.sub_0_r, Nat2Z.id. change (Z.to_nat 0) with 0%nat. rewrite drop_0. apply take_app_length.
Qed.

(** ** Lists *)

Section filter_lemmas.
Context {A : Type} (P : A -> Prop) `{!forall x, Decision (P x)}.

Lemma filter_all l : Forall P l -> filter P l = l.
Proof. induction 1; [done|]. rewrite filter_cons_True by done. congruence. Qed.

Lemma filter_none l : Forall (fun x => ~ P x) l -> filter P l = [].
Proof. induction 1; [done|]. by rewrite filter_cons_False. Qed.

Lemma Forall_filter (Q : A -> Prop) l : Forall Q l -> Forall Q (filter P l).
Proof. rewrite !Forall_forall. intros HQ x [_ Hx]%list_elem_of_filter. auto. Qed.

Lemma StronglySorted_filter (R : A -> A -> Prop) l :
  StronglySorted R l -> StronglySorted R (filter P l).
Proof.
  induction 1 as [|x l Hs IH Hf]; [constructor|]. destruct (decide (P x)).
  - rewrite filter_cons_True by done. constructor; [done|by apply Forall_filter].
  - by rewrite filter_cons_False.
Qed.
End filter_lemmas.

(** The first match splits the list. *)
Lemma list_find_split {A} (P : A -> Prop) `{!forall x, Decision (P x)} (l : list A) i x :
  list_find P l = Some (i, x) ->
  l = take i l ++ x :: drop (S i) l /\ P x /\ Forall (fun y => ~ P y) (take i l) /\ (i < length l)%nat.
Proof.
  intros (Hi & HP & Hb)%list_find_Some. split_and!; [|done| |by eapply lookup_lt_Some].
  - by rewrite take_drop_middle.
  - apply Forall_lookup. intros j y Hj. apply lookup_take_Some in Hj as [Hj Hlt]. by eapply Hb.
Qed.

Lemma list_find_None_Forall {A} (P : A -> Prop) `{!forall x, Decision (P x)} (l : list A) :
  list_find P l = None -> Forall (fun y => ~ P y) l.
Proof. intros Hn. by apply list_find_None in Hn. Qed.

Lemma StronglySorted_join {A} (R : A -> A -> Prop) l1 l2 :
  (forall x y, x ∈ l1 -> y ∈ l2 -> R x y) -> StronglySorted R l1 -> StronglySorted R l2 ->
  StronglySorted R (l1 ++ l2).
Proof.
  intros Hx H1 H2. induction H1 as [|a l1 H1 IH Hf]; cbn; [done|]. constructor.
  - apply IH. intros x y ??. apply Hx; [by right|done].
  - apply Forall_app. split; [done|]. apply Forall_forall. intros y Hy. apply Hx; [by left|done].
Qed.

Lemma StronglySorted_split {A} (R : A -> A -> Prop) l1 l2 :
  StronglySorted R (l1 ++ l2) -> StronglySorted R l1 /\ StronglySorted R l2 /\
  forall x y, x ∈ l1 -> y ∈ l2 -> R x y.
Proof.
  induction l1 as [|a l1 IH]; cbn; intros H; [split_and!; [constructor|done|]; set_solver|].
  apply StronglySorted_inv in H as [H1 H2]. apply Forall_app in H2 as [H2 H3].
  destruct (IH H1) as (? & ? & ?). rewrite Forall_forall in H3. split_and!; [by constructor|done|].
  intros x y [->|Hx]%elem_of_cons Hy; [by apply H3|eauto].
Qed.
