(* ===== verification/Tlv.v ===== *)
(** * TLV numbers: ndn/tlv/helpers.go and ndn/tlv/types.go

    Variable-length numbers (TLV type and length), non-negative integers (NNI)
    and the type/length peek the stream transports use.  Numbers are [Z] in
    the range of a Go [uint64]; byte slices are [list byte]. *)
From S2P Require Import Prelude.
Local Open Scope Z_scope.

(** ** Operations *)

(** [EncodeVarNum]: the shortest of the 1-, 3-, 5- and 9-byte forms. *)
Definition EncodeVarNum (v : Z) : list byte :=
  if v <=? 0xFC then [z2b v]
  else if v <=? 0xFFFF then xfd :: be_put 2 (u16 v)
  else if v <=? 0xFFFFFFFF then xfe :: be_put 4 (u32 v)
  else xff :: be_put 8 v.

(** [varSize] (block.go): the size [EncodeVarNum] takes. *)
Definition varSize (v : Z) : Z :=
  if v <=? 0xFC then 1 else if v <=? 0xFFFF then 3 else if v <=? 0xFFFFFFFF then 5 else 9.

(** [DecodeVarNum]: the value and the number of bytes read. *)
Definition DecodeVarNum (bs : list byte) : outcome (Z * nat) :=
  match bs with
  | [] => Err ErrTooShort
  | b0 :: _ =>
      if b2z b0 <=? 0xFC then Ok (b2z b0, 1%nat)
      else if b2z b0 =? 0xFD then
        if (length bs <? 3)%nat then Err ErrTooShort
        else Ok (be_get (take 2 (drop 1 bs)), 3%nat)
      else if b2z b0 =? 0xFE then
        if (length bs <? 5)%nat then Err ErrTooShort
        else Ok (be_get (take 4 (drop 1 bs)), 5%nat)
      else
        if (length bs <? 9)%nat then Err ErrTooShort
        else Ok (be_get (take 8 (drop 1 bs)), 9%nat)
  end.

(** [EncodeNNI]: the 8-byte buffer cut to its last 1, 2, 4 or 8 bytes. *)
Definition EncodeNNI (v : Z) : list byte :=
  let value := be_put 8 v in
  if v <=? 0xFF then drop 7 value
  else if v <=? 0xFFFF then drop 6 value
  else if v <=? 0xFFFFFFFF then drop 4 value
  else value.

(** [GetNNIBlockSize]. *)
Definition GetNNIBlockSize (t v : Z) : Z :=
  let typeLen := Z.of_nat (length (EncodeVarNum t)) in
  if v <=? 0xFF then typeLen + 1
  else if v <=? 0xFFFF then typeLen + 2
  else if v <=? 0xFFFFFFFF then typeLen + 4
  else typeLen + 8.

(** [copy(buf[8-len(value):], value)] on a zeroed 8-byte buffer. *)
Definition pad8 (value : list byte) : list byte :=
  replicate (8 - length value) x00 ++ value.

(** [DecodeNNI]. *)
Definition DecodeNNI (value : list byte) : outcome Z :=
  if (8 <? length value)%nat then Err ErrTooLong
  else if (length value =? 0)%nat then Err ErrTooShort
  else Ok (be_get (pad8 value)).

(** [DecodeTypeLength]: type, length and total size of the block at the head
    of a buffer, as Go [int]s. *)
Definition DecodeTypeLength (bs : list byte) : outcome (Z * Z * Z) :=
  let* (tlvType, tlvTypeSize) := DecodeVarNum bs in
  if 0xFFFFFFFF <? tlvType then Err (ErrNew "TLV type out of range"%string)
  else
    let* (tlvLength, tlvLengthSize) := DecodeVarNum (drop tlvTypeSize bs) in
    Ok (u32 tlvType, i64 tlvLength,
        i64 (Z.of_nat tlvTypeSize + Z.of_nat tlvLengthSize + i64 tlvLength)).

(** [IsCritical] (types.go). *)
Definition IsCritical (tlvType : Z) : bool :=
  if tlvType <? 0x20 then true else Z.land tlvType 1 =? 1.

(** TLV type numbers (types.go). *)
Module T.
Definition Interest := 0x05.
Definition Data := 0x06.
Definition Name := 0x07.
Definition ImplicitSha256DigestComponent := 0x01.
Definition ParametersSha256DigestComponent := 0x02.
Definition GenericNameComponent := 0x08.
Definition KeywordNameComponent := 0x20.
Definition SegmentNameComponent := 0x32.
Definition ByteOffsetNameComponent := 0x34.
Definition VersionNameComponent := 0x36.
Definition TimestampNameComponent := 0x38.
Definition SequenceNumNameComponent := 0x3A.
Definition CanBePrefix := 0x21.
Definition MustBeFresh := 0x12.
Definition ForwardingHint := 0x1e.
Definition Nonce := 0x0a.
Definition InterestLifetime := 0x0c.
Definition HopLimit := 0x22.
Definition ApplicationParameters := 0x24.
Definition InterestSignatureInfo := 0x2c.
Definition MetaInfo := 0x14.
Definition Content := 0x15.
Definition SignatureInfo := 0x16.
Definition SignatureValue := 0x17.
Definition ContentType := 0x18.
Definition FreshnessPeriod := 0x19.
Definition FinalBlockID := 0x1a.
Definition SignatureType := 0x1b.
Definition KeyLocator := 0x1c.
Definition SignatureNonce := 0x26.
Definition SignatureTime := 0x28.
Definition SignatureSeqNum := 0x2a.
Definition Delegation := 0x1f.
Definition Preference := 0x1e.
Definition ValidityPeriod := 0xfd.
Definition NotBefore := 0xfe.
Definition NotAfter := 0xff.
Definition ExpirationPeriod := 0x6d.
End T.

(** ** Lemmas *)

Lemma b2z_xfd : b2z xfd = 0xFD. Proof. reflexivity. Qed.
Lemma b2z_xfe : b2z xfe = 0xFE. Proof. reflexivity. Qed.
Lemma b2z_xff : b2z xff = 0xFF. Proof. reflexivity. Qed.

Lemma length_EncodeVarNum v : Z.of_nat (length (EncodeVarNum v)) = varSize v.
Proof.
  unfold EncodeVarNum, varSize.
  repeat case_match; cbn [length]; rewrite ?length_be_put; reflexivity.
Qed.

Lemma take_drop1_app n b (l rest : list byte) :
  length l = n -> take n (drop 1 (b :: l ++ rest)) = l.
Proof. intros <-. cbn [drop]. rewrite drop_0. apply take_app_length. Qed.

(** Reading back the encoding of a number gives the number and exactly the
    bytes it wrote, whatever follows. *)
Lemma DecodeVarNum_encode v rest :
  0 <= v < 2 ^ 64 ->
  DecodeVarNum (EncodeVarNum v ++ rest) = Ok (v, length (EncodeVarNum v)).
Proof.
  intros Hv. unfold EncodeVarNum, u16, u32.
  destruct (Z.leb_spec v 0xFC); [|destruct (Z.leb_spec v 0xFFFF); [|destruct (Z.leb_spec v 0xFFFFFFFF)]];
    unfold DecodeVarNum; cbn [app];
    rewrite ?b2z_z2b, ?b2z_xfd, ?b2z_xfe, ?b2z_xff; cbn [Z.leb Z.eqb Z.compare Pos.compare Pos.compare_cont Pos.eqb];
    cbn [length]; rewrite ?length_app, ?length_be_put.
  1: { rewrite Z.mod_small by lia. rewrite (proj2 (Z.leb_le v 252)) by lia. done. }
  all: cbn [Nat.ltb Nat.leb Nat.add]; rewrite take_drop1_app by apply length_be_put.
  - rewrite be_get_put. do 2 f_equal. change (256 ^ Z.of_nat 2) with (2 ^ 16). rewrite Z.mod_mod by lia. apply Z.mod_small; lia.
  - rewrite be_get_put. do 2 f_equal. change (256 ^ Z.of_nat 4) with (2 ^ 32). rewrite Z.mod_mod by lia. apply Z.mod_small; lia.
  - rewrite be_get_put_small; [done|]. change (256 ^ Z.of_nat 8) with (2 ^ 64). lia.
Qed.

(** What a successful read guarantees: the bytes read were there, the value
    fits a [uint64], and no shorter encoding of the value exists. *)
Lemma DecodeVarNum_sound bs v n :
  DecodeVarNum bs = Ok (v, n) ->
  (1 <= n <= length bs)%nat /\ (n <= 9)%nat /\ 0 <= v < 2 ^ 64 /\
  (length (EncodeVarNum v) <= n)%nat.
Proof.
  destruct bs as [|b0 l]; [discriminate|]. unfold DecodeVarNum. cbn [drop length].
  rewrite drop_0. pose proof (b2z_range b0) as Hb.
  pose proof (length_EncodeVarNum v) as Hlen. unfold varSize in Hlen.
  assert (Hget : forall k, (k <= length l)%nat -> 0 <= be_get (take k l) < 256 ^ Z.of_nat k).
  { intros k Hk. pose proof (be_get_range (take k l)) as H. rewrite length_take, Nat.min_l in H; lia. }
  destruct (Z.leb_spec (b2z b0) 0xFC); [|destruct (Z.eqb_spec (b2z b0) 0xFD); [|destruct (Z.eqb_spec (b2z b0) 0xFE)]].
  1: { intros [= <- <-]. rewrite (proj2 (Z.leb_le (b2z b0) 0xFC)) in Hlen by lia. lia. }
  all: goal_if E; [by intros|]; intros [= <- <-]; apply Nat.ltb_ge in E.
  - specialize (Hget 2%nat ltac:(lia)). change (256 ^ Z.of_nat 2) with (2 ^ 16) in Hget.
    split_and!; try lia. repeat case_match; lia.
  - specialize (Hget 4%nat ltac:(lia)). change (256 ^ Z.of_nat 4) with (2 ^ 32) in Hget.
    split_and!; try lia. repeat case_match; lia.
  - specialize (Hget 8%nat ltac:(lia)). change (256 ^ Z.of_nat 8) with (2 ^ 64) in Hget.
    split_and!; try lia. repeat case_match; lia.
Qed.

(** The outcome of a read on any buffer: success or [ErrTooShort]. *)
Lemma DecodeVarNum_cases bs :
  DecodeVarNum bs = Err ErrTooShort \/ exists v n, DecodeVarNum bs = Ok (v, n).
Proof. destruct bs; unfold DecodeVarNum; repeat case_match; eauto. Qed.

Lemma be_get_zeros k l : be_get (replicate k x00 ++ l) = be_get l.
Proof.
  rewrite be_get_app. replace (be_get (replicate k x00)) with 0; [lia|].
  induction k as [|k IH]; [done|].
  replace (S k) with (k + 1)%nat by lia. rewrite replicate_add, be_get_app, <- IH. reflexivity.
Qed.

Lemma DecodeNNI_value l : (1 <= length l <= 8)%nat -> DecodeNNI l = Ok (be_get l).
Proof.
  intros H. unfold DecodeNNI, pad8.
  rewrite (proj2 (Nat.ltb_ge _ _)) by lia. rewrite (proj2 (Nat.eqb_neq _ _)) by lia.
  by rewrite be_get_zeros.
Qed.

Lemma be_put_drop n k v : (k <= n)%nat -> drop (n - k) (be_put n v) = be_put k v.
Proof.
  revert k v; induction n as [|n IH]; intros k v Hk.
  - by replace k with 0%nat by lia.
  - destruct k as [|k].
    + rewrite Nat.sub_0_r. apply drop_ge. by rewrite length_be_put.
    + cbn [be_put]. rewrite drop_app_le by (rewrite length_be_put; lia).
      replace (S n - S k)%nat with (n - k)%nat by lia. rewrite IH by lia. done.
Qed.

(** The number of value bytes [EncodeNNI] writes. *)
Definition nniSize (v : Z) : nat :=
  if v <=? 0xFF then 1 else if v <=? 0xFFFF then 2 else if v <=? 0xFFFFFFFF then 4 else 8.

Lemma EncodeNNI_be_put v : EncodeNNI v = be_put (nniSize v) v.
Proof.
  unfold EncodeNNI, nniSize.
  repeat case_match; [exact (be_put_drop 8 1 v ltac:(lia))| exact (be_put_drop 8 2 v ltac:(lia))
    | exact (be_put_drop 8 4 v ltac:(lia)) | done].
Qed.

Lemma length_EncodeNNI v : length (EncodeNNI v) = nniSize v.
Proof. by rewrite EncodeNNI_be_put, length_be_put. Qed.

Lemma nniSize_bounds v : (1 <= nniSize v <= 8)%nat.
Proof. unfold nniSize. repeat case_match; lia. Qed.

Lemma be_get_EncodeNNI v : 0 <= v < 2 ^ 64 -> be_get (EncodeNNI v) = v.
Proof.
  intros Hv. rewrite EncodeNNI_be_put. apply be_get_put_small. unfold nniSize.
  destruct (Z.leb_spec v 0xFF); [change (256 ^ Z.of_nat 1) with 256; lia|].
  destruct (Z.leb_spec v 0xFFFF); [change (256 ^ Z.of_nat 2) with (2 ^ 16); lia|].
  destruct (Z.leb_spec v 0xFFFFFFFF); [change (256 ^ Z.of_nat 4) with (2 ^ 32); lia|].
  change (256 ^ Z.of_nat 8) with (2 ^ 64); lia.
Qed.

Lemma DecodeNNI_encode v : 0 <= v < 2 ^ 64 -> DecodeNNI (EncodeNNI v) = Ok v.
Proof.
  intros Hv. rewrite DecodeNNI_value by (rewrite length_EncodeNNI; apply nniSize_bounds).
  by rewrite be_get_EncodeNNI.
Qed.

(** ** Properties *)

(** Variable-length numbers round-trip.  Decoding an encoded [uint64],
    followed by anything, gives the number and consumes exactly its encoding;
    the encoding is the shortest of all byte sequences that decode to the
    number, and its length is the [varSize] that [Block.Wire] reserves. *)
Lemma varnum_roundtrip v rest :
  0 <= v < 2 ^ 64 ->
  DecodeVarNum (EncodeVarNum v ++ rest) = Ok (v, length (EncodeVarNum v)) /\
  Z.of_nat (length (EncodeVarNum v)) = varSize v /\
  (forall bs n, DecodeVarNum bs = Ok (v, n) -> (length (EncodeVarNum v) <= n <= length bs)%nat).
Proof.
  intros Hv. split_and!; [by apply DecodeVarNum_encode | apply length_EncodeVarNum |].
  intros bs n H. apply DecodeVarNum_sound in H. lia.
Qed.

Lemma varnum_roundtrip_witness :
  0 <= 70000 < 2 ^ 64 /\
  DecodeVarNum (EncodeVarNum 70000 ++ [x01]) = Ok (70000, 5%nat).
Proof. split; [lia|]. exact (proj1 (varnum_roundtrip 70000 [x01] ltac:(lia))). Defined.

(** Non-negative integers round-trip through [EncodeNNI] and [DecodeNNI]
    in 1, 2, 4 or 8 bytes; [DecodeNNI] accepts every length from 1 to 8 (also
    the ones NDN does not allow), reads it as a big-endian integer that fits a
    [uint64], and rejects the empty and the longer values with an error. *)
Lemma nni_roundtrip v l :
  0 <= v < 2 ^ 64 ->
  DecodeNNI (EncodeNNI v) = Ok v /\
  In (length (EncodeNNI v)) [1; 2; 4; 8]%nat /\
  match length l with
  | O => DecodeNNI l = Err ErrTooShort
  | S n => if (n <? 8)%nat then DecodeNNI l = Ok (be_get l) /\ 0 <= be_get l < 2 ^ 64
           else DecodeNNI l = Err ErrTooLong
  end.
Proof.
  intros Hv. split_and!.
  - by apply DecodeNNI_encode.
  - rewrite length_EncodeNNI. unfold nniSize. cbn. repeat case_match; auto.
  - destruct (length l) as [|n] eqn:El; [by destruct l|].
    destruct (Nat.ltb_spec n 8) as [Hn|Hn].
    + split; [apply DecodeNNI_value; lia|]. pose proof (be_get_range l) as Hr.
      assert (256 ^ Z.of_nat (length l) <= 2 ^ 64); [|lia].
      change (2 ^ 64) with (256 ^ 8). apply Z.pow_le_mono_r; lia.
    + unfold DecodeNNI. rewrite El. by rewrite (proj2 (Nat.ltb_lt 8 (S n))) by lia.
Qed.

Lemma nni_roundtrip_witness :
  0 <= 65536 < 2 ^ 64 /\ DecodeNNI (EncodeNNI 65536) = Ok 65536 /\
  DecodeNNI [x01; x00; x00] = Ok 65536.
Proof.
  split; [lia|]. destruct (nni_roundtrip 65536 [x01; x00; x00] ltac:(lia)) as (H1 & _ & H2 & _).
  split; [exact H1 | exact H2].
Defined.
