(* ===== verification/Block.v ===== *)
(** * TLV blocks: ndn/tlv/block.go (and the block helpers of helpers.go)

    A [Block] is a value tree: type, value, sub-elements and the cached wire
    encoding.  Go's pointers to blocks are modelled by value, so a method that
    mutates its receiver returns the new receiver; the one cache that code
    shares, [wire], is a field like the others.  The [error] results of [Wire]
    and [Encode] are always nil in the source and are left out. *)
From S2P Require Import Prelude Tlv.
Local Open Scope Z_scope.

(** ** Data *)

Inductive Block := mkBlock {
  tlvType : Z;
  value : list byte;
  subelements : list Block;
  wire : list byte
}.

Definition set_subs (b : Block) (subs : list Block) : Block :=
  mkBlock (tlvType b) (value b) subs [].

(** ** Constructors and setters *)

Definition NewEmptyBlock (t : Z) : Block := mkBlock t [] [] [].
Definition NewBlock (t : Z) (v : list byte) : Block := mkBlock t v [] [].

Definition SetType (b : Block) (t : Z) : Block :=
  if tlvType b =? t then b else mkBlock t (value b) (subelements b) [].

Definition SetValue (b : Block) (v : list byte) : Block :=
  if decide (value b = v) then b else mkBlock (tlvType b) v (subelements b) [].

(** ** Sub-elements *)

Definition Append (b e : Block) : Block := set_subs b (subelements b ++ [e]).

Definition Clear (b : Block) : Block :=
  match subelements b with [] => b | _ :: _ => set_subs b [] end.

Fixpoint DeepCopy (b : Block) : Block :=
  mkBlock (tlvType b) (value b) (map DeepCopy (subelements b)) (wire b).

(** [Erase]: removes the first sub-element of the type; whether it did. *)
Definition Erase (b : Block) (t : Z) : Block * bool :=
  match list_find (fun e => tlvType e = t) (subelements b) with
  | Some (i, _) => (set_subs b (take i (subelements b) ++ drop (S i) (subelements b)), true)
  | None => (b, false)
  end.

(** [EraseAll]: the loop erases until [Erase] reports nothing; each round
    shortens the list, so the length is enough fuel. *)
Fixpoint EraseAll_loop (fuel : nat) (b : Block) (t : Z) (numErased : nat) : Block * nat :=
  match fuel with
  | O => (b, numErased)
  | S fuel' =>
      match Erase b t with
      | (b', true) => EraseAll_loop fuel' b' t (S numErased)
      | (b', false) => (b', numErased)
      end
  end.
Definition EraseAll (b : Block) (t : Z) : Block * nat :=
  EraseAll_loop (S (length (subelements b))) b t 0.

Definition Find (b : Block) (t : Z) : option Block :=
  snd <$> list_find (fun e => tlvType e = t) (subelements b).

(** [Insert]: ascending type order, after the sub-elements of the same type. *)
Definition Insert (b e : Block) : Block :=
  let subs := subelements b in
  set_subs b
    match subs with
    | [] => [e]
    | first :: _ =>
        if tlvType e <? tlvType first then e :: subs
        else if tlvType (List.last subs first) <=? tlvType e then subs ++ [e]
        else
          let precedingElem :=
            match list_find (fun x => tlvType e < tlvType x) subs with
            | Some (i, _) => Z.of_nat i - 1
            | None => 0
            end in
          let k := Z.to_nat (precedingElem + 1) in
          take k subs ++ e :: drop k subs
    end.

Definition Reset (b : Block) : Block := mkBlock (tlvType b) [] [] [].
Definition HasWire (b : Block) : bool := (0 <? length (wire b))%nat.
Definition Size (b : Block) : nat := length (wire b).

(** ** Encoding *)

(** [Wire]: the block with its wire filled in (and its sub-elements' too);
    the bytes returned are its [wire] field. *)
Fixpoint Wire (b : Block) : Block :=
  match wire b with
  | _ :: _ => b
  | [] =>
      let subs := map Wire (subelements b) in
      let body := match subs with [] => value b | _ :: _ => concat (map wire subs) end in
      let l := u64 (Z.of_nat (length body)) in
      mkBlock (tlvType b) (value b) subs (EncodeVarNum (tlvType b) ++ EncodeVarNum l ++ body)
  end.

(** [Encode]: moves the wires of the sub-elements into the value. *)
Definition Encode (b : Block) : Block :=
  match subelements b with
  | [] => b
  | _ :: _ => mkBlock (tlvType b) (concat (map (fun e => wire (Wire e)) (subelements b))) [] (wire b)
  end.

(** ** Decoding *)

(** [DecodeBlock]: the block at the head of the buffer and its size.  The
    size is computed in [uint64]; the two slices are taken with it. *)
Definition DecodeBlock (w : list byte) : outcome (Block * Z) :=
  let* (t, tLen) := DecodeVarNum w in
  if 0xFFFFFFFF <? t then Err ErrOutOfRange
  else if (tLen =? length w)%nat then Err ErrMissingLength
  else
    let* (l, lLen) := DecodeVarNum (drop tLen w) in
    let total := u64 (Z.of_nat tLen + Z.of_nat lLen + l) in
    if Z.of_nat (length w) <? total then Err ErrBufferTooShort
    else
      let* v := go_slice w (Z.of_nat tLen + Z.of_nat lLen) total in
      let* wr := go_slice w 0 total in
      Ok (mkBlock (u32 t) v [] wr, total).

(** [Parse]: splits the value into sub-elements.  On an error the ones parsed
    so far stay.  Every block is at least two bytes long, so the length of the
    value is enough fuel. *)
Fixpoint Parse_loop (fuel : nat) (v : list byte) (startPos : Z) (subs : list Block)
    : outcome (list Block * option go_error) :=
  if startPos <? Z.of_nat (length v) then
    match fuel with
    | O => Ok (subs, None)
    | S fuel' =>
        match DecodeBlock (drop (Z.to_nat startPos) v) with
        | Ok (blk, blockLen) => Parse_loop fuel' v (u64 (startPos + blockLen)) (subs ++ [blk])
        | Err e => Ok (subs, Some e)
        | Panic => Panic
        end
    end
  else Ok (subs, None).
Definition Parse (b : Block) : outcome (Block * option go_error) :=
  let* (subs, err) := Parse_loop (length (value b)) (value b) 0 [] in
  Ok (mkBlock (tlvType b) (value b) subs (wire b), err).

(** ** NNI blocks (helpers.go) *)

Definition EncodeNNIBlock (t v : Z) : Block :=
  let b := SetType (mkBlock 0 [] [] []) t in
  let buf := be_put 8 v in
  if v <=? 0xFF then SetValue b (drop 7 buf)
  else if v <=? 0xFFFF then SetValue b (drop 6 buf)
  else if v <=? 0xFFFFFFFF then SetValue b (drop 4 buf)
  else SetValue b buf.

(** [DecodeNNIBlock]; [None] is the nil block. *)
Definition DecodeNNIBlock (w : option Block) : outcome Z :=
  match w with
  | None => Err ErrNonExistent
  | Some b =>
      if (length (value b) <? 1)%nat then Err ErrBufferTooShort
      else if (8 <? length (value b))%nat then Err ErrTooLong
      else Ok (be_get (pad8 (value b)))
  end.

(** ** Specification of the encoding *)

(** The bytes that go into the value of a block: its sub-elements' encodings
    when it has any, else its value. *)
Fixpoint enc (b : Block) : list byte :=
  let body := match subelements b with [] => value b | _ :: _ => concat (map enc (subelements b)) end in
  EncodeVarNum (tlvType b) ++ EncodeVarNum (u64 (Z.of_nat (length body))) ++ body.

Definition body (b : Block) : list byte :=
  match subelements b with [] => value b | _ :: _ => concat (map enc (subelements b)) end.

(** A cache is coherent when it is empty or holds the encoding. *)
Inductive coherent : Block -> Prop :=
| coherent_intro b :
    (wire b = [] \/ wire b = enc b) -> Forall coherent (subelements b) -> coherent b.

(** Sizes and types a block must have to be decodable. *)
Inductive wf : Block -> Prop :=
| wf_intro b :
    0 <= tlvType b < 2 ^ 32 -> Z.of_nat (length (enc b)) < 2 ^ 64 ->
    Forall wf (subelements b) -> wf b.

(** The decoded form of a block: no sub-elements, the value they encode to,
    and the cached wire. *)
Definition flat (b : Block) : Block := mkBlock (tlvType b) (body b) [] (enc b).

Lemma Block_rect' (P : Block -> Prop) :
  (forall b, Forall P (subelements b) -> P b) -> forall b, P b.
Proof.
  intros H. fix IH 1. intros [t v subs w]. apply H. cbn [subelements].
  induction subs as [|e subs IHs]; constructor; auto.
Qed.

(** ** Lemmas *)

Lemma coherent_inv b :
  coherent b -> (wire b = [] \/ wire b = enc b) /\ Forall coherent (subelements b).
Proof. by inversion 1. Qed.

Lemma wf_inv b :
  wf b -> 0 <= tlvType b < 2 ^ 32 /\ Z.of_nat (length (enc b)) < 2 ^ 64 /\ Forall wf (subelements b).
Proof. by inversion 1. Qed.

Lemma enc_unfold b :
  enc b = EncodeVarNum (tlvType b) ++ EncodeVarNum (u64 (Z.of_nat (length (body b)))) ++ body b.
Proof. by destruct b. Qed.

Lemma EncodeVarNum_nonempty v : (1 <= length (EncodeVarNum v))%nat.
Proof.
  pose proof (length_EncodeVarNum v) as H. unfold varSize in H. repeat case_match; lia.
Qed.

Lemma enc_nonempty b : enc b <> [].
Proof.
  rewrite enc_unfold. intros H. apply (f_equal length) in H. rewrite length_app in H.
  pose proof (EncodeVarNum_nonempty (tlvType b)). cbn in H. lia.
Qed.

Lemma coherent_new t v : coherent (NewBlock t v).
Proof. constructor; [by left | constructor]. Qed.

Lemma map_Forall_ext {A B} (f g : A -> B) l :
  Forall (fun x => f x = g x) l -> map f l = map g l.
Proof. induction 1; cbn; congruence. Qed.

(** [Wire] computes the encoding of a coherent block and caches it. *)
Lemma Wire_coherent b :
  coherent b ->
  wire (Wire b) = enc b /\ enc (Wire b) = enc b /\ coherent (Wire b) /\ tlvType (Wire b) = tlvType b.
Proof.
  induction b as [b IH] using Block_rect'. intros [Hw Hs]%coherent_inv.
  destruct b as [t v subs w]; cbn [wire subelements] in *.
  destruct w as [|x w].
  2: { destruct Hw as [|Hw]; [done|]. cbn [Wire wire].
       split_and!; try done. constructor; cbn [wire subelements]; auto. }
  assert (Hall : Forall (fun e => wire (Wire e) = enc e /\ enc (Wire e) = enc e /\ coherent (Wire e)) subs).
  { rewrite Forall_forall in IH, Hs |- *. intros e He. destruct (IH e He (Hs e He)) as (? & ? & ? & ?). auto. }
  assert (Hwire : map wire (map Wire subs) = map enc subs).
  { rewrite map_map. apply map_Forall_ext. eapply Forall_impl; [exact Hall|]. by intros ? (? & _). }
  assert (Henc : map enc (map Wire subs) = map enc subs).
  { rewrite map_map. apply map_Forall_ext. eapply Forall_impl; [exact Hall|]. by intros ? (_ & ? & _). }
  assert (Hco : Forall coherent (map Wire subs)).
  { apply Forall_map. eapply Forall_impl; [exact Hall|]. by intros ? (_ & _ & ?). }
  cbn [Wire wire subelements tlvType value].
  assert (Hb : match map Wire subs with [] => v | _ :: _ => concat (map wire (map Wire subs)) end
             = body (mkBlock t v subs [])).
  { rewrite Hwire. unfold body. cbn [subelements value]. by destruct subs. }
  assert (Hb' : body (mkBlock t v (map Wire subs)
      (EncodeVarNum t ++ EncodeVarNum (u64 (Z.of_nat (length (body (mkBlock t v subs []))))) ++ body (mkBlock t v subs [])))
      = body (mkBlock t v subs [])).
  { unfold body. cbn [subelements value]. rewrite Henc. by destruct subs. }
  rewrite Hb. split_and!; try done.
  - rewrite !enc_unfold. by rewrite Hb'.
  - constructor; [|done]. right. cbn [wire]. rewrite enc_unfold. by rewrite Hb'.
Qed.

Lemma DecodeBlock_app t l bd rest :
  0 <= t < 2 ^ 32 -> l = Z.of_nat (length bd) ->
  let e := EncodeVarNum t ++ EncodeVarNum l ++ bd in
  Z.of_nat (length e) < 2 ^ 64 ->
  DecodeBlock (e ++ rest) = Ok (mkBlock t bd [] e, Z.of_nat (length e)).
Proof.
  intros Ht Hl e He. unfold DecodeBlock.
  assert (He0 : e ++ rest = EncodeVarNum t ++ (EncodeVarNum l ++ bd ++ rest)) by (unfold e; by rewrite <- !app_assoc).
  assert (H1 : DecodeVarNum (e ++ rest) = Ok (t, length (EncodeVarNum t))).
  { rewrite He0. apply DecodeVarNum_encode. lia. }
  assert (H2 : DecodeVarNum (drop (length (EncodeVarNum t)) (e ++ rest)) = Ok (l, length (EncodeVarNum l))).
  { rewrite He0, drop_app_length. apply DecodeVarNum_encode.
    unfold e in He. rewrite !length_app in He. lia. }
  rewrite H1. cbn [outcome_bind].
  rewrite (proj2 (Z.ltb_ge _ _)) by lia.
  unfold e in He. rewrite !length_app in He.
  pose proof (EncodeVarNum_nonempty t). pose proof (EncodeVarNum_nonempty l).
  rewrite (proj2 (Nat.eqb_neq _ _)) by (unfold e; rewrite !length_app; lia).
  rewrite H2. cbn [outcome_bind].
  assert (Htot : u64 (Z.of_nat (length (EncodeVarNum t)) + Z.of_nat (length (EncodeVarNum l)) + l) = Z.of_nat (length e)).
  { unfold e. rewrite !length_app. rewrite u64_small; lia. }
  rewrite Htot. rewrite (proj2 (Z.ltb_ge _ _)) by (rewrite length_app; lia).
  rewrite go_slice_prefix.
  assert (Hv : go_slice (e ++ rest) (Z.of_nat (length (EncodeVarNum t)) + Z.of_nat (length (EncodeVarNum l)))
                (Z.of_nat (length e)) = Ok bd).
  { unfold go_slice. rewrite bool_decide_true by (unfold e; rewrite !length_app; lia). f_equal.
    rewrite He0, app_assoc, drop_app_length' by (rewrite length_app; lia).
    rewrite take_app_length'; [done|]. unfold e. rewrite !length_app. lia. }
  rewrite Hv. cbn [outcome_bind]. unfold u32. rewrite Z.mod_small by lia. done.
Qed.

(** Decoding the encoding of a well-formed block gives its flat form. *)
Lemma DecodeBlock_enc b rest :
  wf b -> DecodeBlock (enc b ++ rest) = Ok (flat b, Z.of_nat (length (enc b))).
Proof.
  intros (Ht & Hl & _)%wf_inv. unfold flat. rewrite enc_unfold in *.
  assert (Hb : Z.of_nat (length (body b)) < 2 ^ 64) by (rewrite !length_app in Hl; lia).
  rewrite u64_small in * by lia. apply DecodeBlock_app; [done|done|].  exact Hl.
Qed.

(** What a decoded block is: a split of the first [n] bytes into a header and
    the value. *)
Lemma DecodeBlock_sound w b n :
  DecodeBlock w = Ok (b, n) ->
  2 <= n <= Z.of_nat (length w) /\ n < 2 ^ 64 /\ 0 <= tlvType b < 2 ^ 32 /\ subelements b = [] /\
  wire b = take (Z.to_nat n) w /\ exists hdr, (2 <= length hdr)%nat /\ wire b = hdr ++ value b.
Proof.
  unfold DecodeBlock. intros ([t tl] & Ht & H)%outcome_bind_ok.
  pose proof (DecodeVarNum_sound _ _ _ Ht) as (Htl & _ & Htr & _).
  revert H. goal_if E1; [done|]. goal_if E2; [done|]. apply Z.ltb_ge in E1. apply Nat.eqb_neq in E2.
  intros ([l ll] & Hl & H)%outcome_bind_ok.
  pose proof (DecodeVarNum_sound _ _ _ Hl) as (Hll & _ & Hlr & _). rewrite length_drop in Hll.
  revert H. goal_if E3; [done|]. apply Z.ltb_ge in E3.
  set (tot := u64 _) in *. pose proof (u64_range (Z.of_nat tl + Z.of_nat ll + l)) as Htot. fold tot in Htot.
  intros (v & Hv & H)%outcome_bind_ok. apply outcome_bind_ok in H as (wr & Hwr & [= <- <-]).
  apply go_slice_ok in Hv as (Hb & ->). apply go_slice_ok in Hwr as (_ & ->).
  change (Z.to_nat 0) with 0%nat. rewrite drop_0, Z.sub_0_r.
  cbn [tlvType subelements wire value]. split_and!; try lia; try done.
  - unfold u32. apply Z.mod_pos_bound. lia.
  - unfold u32. apply Z.mod_pos_bound. lia.
  - exists (take (tl + ll) w). split; [rewrite length_take; lia|].
    rewrite <- (take_drop (tl + ll) (take (Z.to_nat tot) w)) at 1. rewrite take_take, Nat.min_l by lia.
    f_equal. rewrite skipn_firstn_comm. f_equal; [lia|]. f_equal. lia.
Qed.

(** A read panics exactly when the size wraps around [uint64]. *)
Lemma DecodeBlock_wrap w t tl l ll :
  DecodeVarNum w = Ok (t, tl) -> t <= 0xFFFFFFFF -> tl <> length w ->
  DecodeVarNum (drop tl w) = Ok (l, ll) ->
  2 ^ 64 <= Z.of_nat tl + Z.of_nat ll + l ->
  DecodeBlock w = Panic.
Proof.
  intros Ht Htr Htl Hl Hw.
  pose proof (DecodeVarNum_sound _ _ _ Ht) as (? & ? & _).
  pose proof (DecodeVarNum_sound _ _ _ Hl) as (Hll & Hll9 & Hlr & _). rewrite length_drop in Hll.
  unfold DecodeBlock. rewrite Ht. cbn [outcome_bind]. rewrite (proj2 (Z.ltb_ge _ _)) by lia.
  rewrite (proj2 (Nat.eqb_neq _ _)) by done. rewrite Hl. cbn [outcome_bind].
  assert (Hu : u64 (Z.of_nat tl + Z.of_nat ll + l) = Z.of_nat tl + Z.of_nat ll + l - 2 ^ 64).
  { unfold u64. symmetry. apply Z.mod_unique with 1; lia. }
  rewrite Hu. rewrite (proj2 (Z.ltb_ge _ _)) by lia.
  rewrite (go_slice_panic w (Z.of_nat tl + Z.of_nat ll)) by lia. done.
Qed.

Lemma Parse_loop_encs fuel pre todo acc :
  (length todo <= fuel)%nat -> Forall wf todo ->
  Z.of_nat (length (pre ++ concat (map enc todo))) < 2 ^ 64 ->
  Parse_loop fuel (pre ++ concat (map enc todo)) (Z.of_nat (length pre)) acc
    = Ok (acc ++ map flat todo, None).
Proof.
  revert fuel pre acc; induction todo as [|b todo IH]; intros fuel pre acc Hf Hwf Hlen.
  - cbn [map concat] in *. rewrite !app_nil_r. destruct fuel; cbn [Parse_loop];
      rewrite (proj2 (Z.ltb_ge _ _)) by lia; done.
  - destruct fuel as [|fuel]; [cbn in Hf; lia|]. apply Forall_cons in Hwf as [Hb Hwf].
    cbn [map concat] in *. cbn [Parse_loop].
    assert (Hne : (1 <= length (enc b))%nat).
    { pose proof (enc_nonempty b). destruct (enc b); [done|cbn; lia]. }
    rewrite (proj2 (Z.ltb_lt _ _)) by (rewrite !length_app; lia).
    rewrite Nat2Z.id, drop_app_length, DecodeBlock_enc by done.
    rewrite app_assoc in *. rewrite !length_app in Hlen.
    rewrite u64_small by lia. rewrite <- Nat2Z.inj_add, <- length_app.
    rewrite IH; [|cbn in Hf; lia|done|rewrite !length_app; lia].
    by rewrite <- app_assoc.
Qed.

Lemma length_concat_enc l : (length l <= length (concat (map enc l)))%nat.
Proof.
  induction l as [|b l IH]; [done|]. cbn. rewrite length_app.
  pose proof (enc_nonempty b). destruct (enc b); [done|cbn; lia].
Qed.

(** Parsing the flat form of a block with sub-elements finds them. *)
Lemma Parse_flat b :
  wf b -> subelements b <> [] ->
  Parse (flat b) = Ok (mkBlock (tlvType b) (body b) (map flat (subelements b)) (enc b), None).
Proof.
  intros (_ & Hl & Hs)%wf_inv Hne. 
  assert (Hb : body b = concat (map enc (subelements b))) by (unfold body; by destruct (subelements b)).
  rewrite enc_unfold, !length_app in Hl. rewrite Hb in Hl.
  pose proof (Parse_loop_encs (length (concat (map enc (subelements b)))) [] (subelements b) []
    (length_concat_enc _) Hs) as H. cbn [app length] in H.
  change (Z.of_nat 0) with 0 in H. unfold Parse. change (value (flat b)) with (body b). change (tlvType (flat b)) with (tlvType b).
  change (wire (flat b)) with (enc b).
  rewrite Hb, H by lia. done.
Qed.

(** Parsing loses nothing: the sub-elements' wires are the bytes consumed. *)
Lemma Parse_loop_lossless fuel v s acc subs :
  Z.of_nat (length v) - s <= Z.of_nat fuel -> 0 <= s -> Z.of_nat (length v) < 2 ^ 64 ->
  Parse_loop fuel v s acc = Ok (subs, None) ->
  exists new, subs = acc ++ new /\ concat (map wire new) = drop (Z.to_nat s) v /\
    Forall (fun e => subelements e = [] /\ exists hdr, wire e = hdr ++ value e) new.
Proof.
  revert s acc; induction fuel as [|fuel IH]; intros s acc Hf Hs Hv; cbn [Parse_loop].
  - rewrite (proj2 (Z.ltb_ge _ _)) by lia. intros [= <-]. exists []. rewrite app_nil_r.
    split_and!; [done| |constructor]. symmetry. apply drop_ge. lia.
  - destruct (Z.ltb_spec s (Z.of_nat (length v))) as [Hlt|Hge].
    2: { intros [= <-]. exists []. rewrite app_nil_r. split_and!; [done| |constructor].
         symmetry. apply drop_ge. lia. }
    destruct (DecodeBlock (drop (Z.to_nat s) v)) as [[b n]| |] eqn:E; [|done|done].
    pose proof (DecodeBlock_sound _ _ _ E) as (Hn & _ & _ & Hsub & Hw & hdr & _ & Hhdr).
    rewrite length_drop in Hn. rewrite u64_small by lia.
    intros H. apply IH in H as (new & -> & Hnew & Hall); [|lia..].
    exists (b :: new). rewrite <- app_assoc. split_and!; [done| |constructor; eauto].
    cbn [map concat]. rewrite Hnew, Hw, Z2Nat.inj_add, <- drop_drop by lia. apply take_drop.
Qed.

Definition tle (a b : Block) : Prop := tlvType a <= tlvType b.

(** In a list sorted by type, where to insert. *)
Lemma sorted_split_filter (l : list Block) k t :
  Forall (fun x => tlvType x <= t) (take k l) -> Forall (fun x => t < tlvType x) (drop k l) ->
  filter (fun x => tlvType x <= t) l = take k l /\ filter (fun x => t < tlvType x) l = drop k l.
Proof.
  intros H1 H2. rewrite <- (take_drop k l) at 1 3. rewrite !filter_app. split.
  - rewrite filter_all by done. rewrite filter_none; [by rewrite app_nil_r|].
    eapply Forall_impl; [exact H2|]. cbn. lia.
  - rewrite filter_none, filter_all; [done|done|]. eapply Forall_impl; [exact H1|]. cbn. lia.
Qed.

Lemma Insert_sorted_eq b e :
  StronglySorted tle (subelements b) ->
  subelements (Insert b e) =
    filter (fun x => tlvType x <= tlvType e) (subelements b) ++
    e :: filter (fun x => tlvType e < tlvType x) (subelements b).
Proof.
  unfold Insert. cbn [set_subs subelements]. destruct (subelements b) as [|first subs] eqn:Es; [done|].
  intros Hs. set (l := first :: subs) in *.
  assert (Hk : forall k, Forall (fun x => tlvType x <= tlvType e) (take k l) ->
    Forall (fun x => tlvType e < tlvType x) (drop k l) ->
    take k l ++ e :: drop k l = filter (fun x => tlvType x <= tlvType e) l ++ e :: filter (fun x => tlvType e < tlvType x) l).
  { intros k H1 H2. destruct (sorted_split_filter l k (tlvType e) H1 H2) as [-> ->]. done. }
  destruct (Z.ltb_spec (tlvType e) (tlvType first)) as [Hlt|Hge].
  { apply (Hk 0%nat); [constructor|]. cbn [drop]. unfold l in *. inversion Hs as [|? ? _ Hf]; subst.
    constructor; [done|]. eapply Forall_impl; [exact Hf|]. unfold tle. cbn. lia. }
  destruct (Z.leb_spec (tlvType (List.last l first)) (tlvType e)) as [Hle|Hgt].
  { rewrite <- (Hk (length l)); [by rewrite firstn_all, drop_all| |by rewrite drop_all].
    rewrite firstn_all. destruct (@exists_last _ l) as (l' & z & El); [done|].
    rewrite El in Hle, Hs |- *. rewrite last_last in Hle.
    apply StronglySorted_split in Hs as (_ & _ & Hs). apply Forall_app. split; [|by repeat constructor].
    apply Forall_forall. intros x Hx. specialize (Hs x z Hx ltac:(by left)). unfold tle in Hs. lia. }
  destruct (list_find _ l) as [[i x]|] eqn:Ef.
  2: { apply list_find_None_Forall in Ef. rewrite Forall_forall in Ef. exfalso.
       destruct (@exists_last _ l) as (l' & z & El); [done|]. rewrite El, last_last in Hgt.
       apply (Ef z); [|done]. rewrite El. apply elem_of_app. right. by left. }
  apply list_find_split in Ef as (El & Hx & Hb & Hi).
  rewrite Z.sub_add, Nat2Z.id. apply Hk.
  - eapply Forall_impl; [exact Hb|]. cbn. lia.
  - rewrite El in Hs. apply StronglySorted_split in Hs as (_ & Hs & _). inversion Hs as [|? ? _ Hf]; subst.
    rewrite El at 1. rewrite drop_app_length' by (rewrite length_take; lia).
    constructor; [done|]. eapply Forall_impl; [exact Hf|]. unfold tle. cbn. lia.
Qed.

Lemma EraseAll_loop_spec fuel b t n :
  (length (subelements b) < fuel)%nat ->
  EraseAll_loop fuel b t n =
    (match filter (fun e => tlvType e = t) (subelements b) with
     | [] => b
     | _ :: _ => set_subs b (filter (fun e => tlvType e <> t) (subelements b))
     end, n + length (filter (fun e => tlvType e = t) (subelements b)))%nat.
Proof.
  revert b n; induction fuel as [|fuel IH]; intros b n Hf; [lia|]. cbn [EraseAll_loop]. unfold Erase.
  destruct (list_find _ _) as [[i x]|] eqn:E.
  - apply list_find_split in E as (El & Hx & Hb & Hi).
    rewrite IH by (cbn; rewrite length_app, length_take, length_drop; lia).
    cbn [set_subs subelements tlvType value].
    set (l := subelements b) in *. set (pre := take i l) in *. set (post := drop (S i) l) in *.
    assert (Hp1 : filter (fun e => tlvType e = t) pre = []) by (by apply filter_none).
    assert (Hp2 : filter (fun e => tlvType e <> t) pre = pre) by (by apply filter_all).
    rewrite El, !filter_app, Hp1, Hp2, filter_cons_True, filter_cons_False by (by auto).
    cbn [app length]. f_equal; [|lia]. case_match eqn:Ep; [|done].
    f_equal. rewrite filter_all; [done|].
    apply Forall_forall. intros y Hy Hyt. apply (not_elem_of_nil y).
    rewrite <- Ep. by apply list_elem_of_filter.
  - apply list_find_None_Forall in E. rewrite filter_none by done. cbn. f_equal. lia.
Qed.

Lemma coherent_set_subs b subs : Forall coherent subs -> coherent (set_subs b subs).
Proof. constructor; [by left|done]. Qed.

Lemma coherent_subs b : coherent b -> Forall coherent (subelements b).
Proof. by intros [_ ?]%coherent_inv. Qed.

#[export] Hint Resolve coherent_set_subs coherent_subs coherent_new : tlv.

Lemma DeepCopy_id b : DeepCopy b = b.
Proof.
  induction b as [b IH] using Block_rect'. destruct b as [t v subs w]. cbn in *. f_equal.
  induction IH; cbn; congruence.
Qed.

Lemma Forall_take_drop {A} (P : A -> Prop) (l : list A) x k j :
  Forall P l -> P x -> Forall P (take k l ++ drop j l) /\ Forall P (take k l ++ x :: drop k l).
Proof.
  intros H Hx. split; apply Forall_app; (split; [by apply Forall_take|]);
    [|constructor; [done|]]; by apply Forall_drop.
Qed.

Lemma coherent_Erase b t : coherent b -> coherent (fst (Erase b t)).
Proof.
  intros H. unfold Erase. destruct (list_find _ _) as [[i x]|]; [|done]. cbn. apply coherent_set_subs.
  exact (proj1 (Forall_take_drop coherent _ b _ _ (coherent_subs b H) H)).
Qed.

Lemma coherent_EraseAll b t : coherent b -> coherent (fst (EraseAll b t)).
Proof.
  intros H. unfold EraseAll. rewrite EraseAll_loop_spec by lia. cbn. case_match; [done|].
  apply coherent_set_subs. apply Forall_filter, coherent_subs, H.
Qed.

Lemma coherent_Insert b e : coherent b -> coherent e -> coherent (Insert b e).
Proof.
  intros H%coherent_subs He. unfold Insert. cbv zeta. apply coherent_set_subs.
  destruct (subelements b) as [|f l]; [by apply Forall_singleton|].
  destruct (_ <? _); [by constructor|]. destruct (_ <=? _).
  { apply Forall_app. split; [done|]. by apply Forall_singleton. }
  exact (proj2 (Forall_take_drop coherent (f :: l) e _ 0%nat H He)).
Qed.

Lemma Encode_enc b : coherent b -> enc (Encode b) = enc b.
Proof.
  intros H. unfold Encode. destruct (subelements b) as [|e l] eqn:Es; [done|]. rewrite <- Es.
  rewrite (enc_unfold b), enc_unfold. cbn [tlvType]. unfold body at 1 2. cbn [subelements value].
  replace (map _ (subelements b)) with (map enc (subelements b)).
  - unfold body. by rewrite Es.
  - apply map_Forall_ext. eapply Forall_impl; [by apply coherent_subs|].
    intros x Hx. by destruct (Wire_coherent x Hx) as [-> _].
Qed.

Lemma coherent_Encode b : coherent b -> coherent (Encode b).
Proof.
  intros H. pose proof (Encode_enc b H) as He. unfold Encode in *.
  destruct (subelements b) as [|e l] eqn:Es; [done|]. constructor; [|constructor].
  apply coherent_inv in H as [[Hw|Hw] _]; [by left|]. right. by rewrite He.
Qed.

(** ** Properties *)

(** TLV blocks round-trip.  For a block whose type and size fit the
    format, [DecodeBlock] on the bytes [Wire] produces, followed by anything,
    returns the type, the value and the wire, consumes exactly the block, and
    [Parse] of the decoded block finds the decoded form of every sub-element,
    in order. *)
Lemma block_roundtrip b rest :
  wf b -> coherent b ->
  let w := wire (Wire b) in
  DecodeBlock (w ++ rest) = Ok (mkBlock (tlvType b) (body b) [] w, Z.of_nat (length w)) /\
  (subelements b <> [] ->
   Parse (mkBlock (tlvType b) (body b) [] w)
     = Ok (mkBlock (tlvType b) (body b) (map flat (subelements b)) w, None)).
Proof.
  intros Hwf Hc. destruct (Wire_coherent b Hc) as [-> _]. split.
  - by apply DecodeBlock_enc.
  - by apply Parse_flat.
Qed.

Definition sample_block : Block :=
  Append (Append (NewEmptyBlock 7) (NewBlock 8 [x61])) (NewBlock 8 [x62; x63]).

Lemma block_roundtrip_witness :
  DecodeBlock (wire (Wire sample_block) ++ [xff]) =
    Ok (mkBlock 7 [x08; x01; x61; x08; x02; x62; x63] [] [x07; x07; x08; x01; x61; x08; x02; x62; x63], 9) /\
  Parse (mkBlock 7 [x08; x01; x61; x08; x02; x62; x63] [] (wire (Wire sample_block))) =
    Ok (mkBlock 7 [x08; x01; x61; x08; x02; x62; x63]
          [mkBlock 8 [x61] [] [x08; x01; x61]; mkBlock 8 [x62; x63] [] [x08; x02; x62; x63]]
          (wire (Wire sample_block)), None).
Proof.
  assert (Hwf : wf sample_block) by (repeat constructor; vm_compute; congruence).
  assert (Hc : coherent sample_block) by (repeat constructor).
  destruct (block_roundtrip sample_block [xff] Hwf Hc) as [H1 H2].
  split; [exact H1 | exact (H2 ltac:(discriminate))].
Defined.

(** Every outcome of [DecodeBlock] on untrusted bytes.  A success returns
    a block cut out of the buffer (its wire is the first [n] bytes, its value
    the end of the wire) and at least two bytes long; and a type and length
    whose total wraps around [uint64] make it panic, whatever the buffer: a
    length field of [2^64 - 1] is enough. *)
Lemma decode_block_outcomes w :
  (forall b n, DecodeBlock w = Ok (b, n) ->
     2 <= n <= Z.of_nat (length w) /\ 0 <= tlvType b < 2 ^ 32 /\ wire b = take (Z.to_nat n) w /\
     exists hdr, wire b = hdr ++ value b) /\
  (forall t tl l ll, DecodeVarNum w = Ok (t, tl) -> t <= 0xFFFFFFFF -> tl <> length w ->
     DecodeVarNum (drop tl w) = Ok (l, ll) ->
     (DecodeBlock w = Panic <-> 2 ^ 64 <= Z.of_nat tl + Z.of_nat ll + l)) /\
  DecodeBlock ([x05; xff; xff; xff; xff; xff; xff; xff; xff; xff] ++ w) = Panic.
Proof.
  split_and!.
  - intros b n (? & ? & ? & ? & ? & hdr & ? & ?)%DecodeBlock_sound. eauto 10.
  - intros t tl l ll Ht Htr Htl Hl. split; [|by eapply DecodeBlock_wrap].
    pose proof (DecodeVarNum_sound _ _ _ Ht) as (? & ? & _).
    pose proof (DecodeVarNum_sound _ _ _ Hl) as (Hll & ? & ? & _). rewrite length_drop in Hll.
    unfold DecodeBlock. rewrite Ht. cbn [outcome_bind].
    rewrite (proj2 (Z.ltb_ge _ _)), (proj2 (Nat.eqb_neq _ _)), Hl by (done || lia). cbn [outcome_bind].
    destruct (Z.le_gt_cases (2 ^ 64) (Z.of_nat tl + Z.of_nat ll + l)) as [|Hlt]; [done|].
    rewrite u64_small by lia. goal_if E; [done|]. apply Z.ltb_ge in E.
    unfold go_slice. rewrite !bool_decide_true by lia. done.
  - eapply (DecodeBlock_wrap _ 5 1 (2 ^ 64 - 1) 9); [done|lia|cbn; lia| |lia].
    cbn [app drop]. exact (DecodeVarNum_encode (2 ^ 64 - 1) w ltac:(lia)).
Qed.

(** [Parse] loses nothing and always terminates.  When it reports no
    error the wires of the sub-elements, concatenated, are exactly the value,
    and every sub-element ends with its own value. *)
Lemma parse_lossless b b' :
  Z.of_nat (length (value b)) < 2 ^ 64 -> Parse b = Ok (b', None) ->
  concat (map wire (subelements b')) = value b /\ value b' = value b /\ wire b' = wire b /\
  Forall (fun e => subelements e = [] /\ exists hdr, wire e = hdr ++ value e) (subelements b').
Proof.
  intros Hl H. apply outcome_bind_ok in H as ([subs err] & H & [= <- ->]).
  apply Parse_loop_lossless in H as (new & -> & Hc & Hall); [|lia..].
  cbn [subelements value wire app]. split_and!; [by rewrite Hc|done|done|done].
Qed.

Lemma parse_lossless_witness :
  concat (map wire [mkBlock 8 [x61] [] [x08; x01; x61]; mkBlock 9 [] [] [x09; x00]]) =
  [x08; x01; x61; x09; x00].
Proof.
  refine (proj1 (parse_lossless (NewBlock 7 [x08; x01; x61; x09; x00])
    (mkBlock 7 [x08; x01; x61; x09; x00]
       [mkBlock 8 [x61] [] [x08; x01; x61]; mkBlock 9 [] [] [x09; x00]] []) _ _)).
  - vm_compute. reflexivity.
  - vm_compute. reflexivity.
Defined.

(** No mutator leaves a stale cached wire.  From a block whose caches are
    coherent, every setter and sub-element operation gives a block whose
    [Wire] is the encoding of its current contents; [Encode] (moving the
    sub-elements into the value) does not change the encoding. *)
Lemma mutators_coherent b e t v :
  coherent b -> coherent e ->
  Forall (fun b' => wire (Wire b') = enc b')
    [SetType b t; SetValue b v; Append b e; Clear b; DeepCopy b; fst (Erase b t);
     fst (EraseAll b t); Insert b e; Encode b; Reset b; Wire b] /\
  enc (Encode b) = enc b.
Proof.
  intros Hb He. split; [|by apply Encode_enc].
  assert (H : Forall coherent
    [SetType b t; SetValue b v; Append b e; Clear b; DeepCopy b; fst (Erase b t);
     fst (EraseAll b t); Insert b e; Encode b; Reset b; Wire b]).
  { repeat (apply Forall_cons; split); try apply Forall_nil_2.
    - unfold SetType. goal_if E; [done|]. constructor; [by left|exact (coherent_subs b Hb)].
    - unfold SetValue. case_decide; [done|]. constructor; [by left|exact (coherent_subs b Hb)].
    - apply coherent_set_subs, Forall_app. split; [by apply coherent_subs|by apply Forall_singleton].
    - unfold Clear. case_match; [done|]. by apply coherent_set_subs.
    - by rewrite DeepCopy_id.
    - by apply coherent_Erase.
    - by apply coherent_EraseAll.
    - by apply coherent_Insert.
    - by apply coherent_Encode.
    - constructor; [by left|constructor].
    - by apply Wire_coherent. }
  eapply Forall_impl; [exact H|]. intros x Hx. apply (Wire_coherent x Hx).
Qed.

Lemma mutators_coherent_witness :
  enc (Encode (Wire sample_block)) = enc (Wire sample_block).
Proof.
  apply (mutators_coherent (Wire sample_block) (NewBlock 9 [x01]) 5 [x02]).
  - apply Wire_coherent. repeat constructor.
  - repeat constructor.
Defined.

(** [Insert] keeps a list of sub-elements sorted by type, with the new
    one placed after the others of its type; [EraseAll] removes exactly the
    sub-elements of the type and returns their number, and afterwards [Find]
    reports none. *)
Lemma insert_eraseall_spec b e t :
  StronglySorted tle (subelements b) ->
  (subelements (Insert b e) =
     filter (fun x => tlvType x <= tlvType e) (subelements b) ++
     e :: filter (fun x => tlvType e < tlvType x) (subelements b) /\
   StronglySorted tle (subelements (Insert b e))) /\
  subelements (fst (EraseAll b t)) = filter (fun x => tlvType x <> t) (subelements b) /\
  snd (EraseAll b t) = length (filter (fun x => tlvType x = t) (subelements b)) /\
  Find (fst (EraseAll b t)) t = None.
Proof.
  intros Hs.
  assert (He : subelements (fst (EraseAll b t)) = filter (fun x => tlvType x <> t) (subelements b)).
  { unfold EraseAll. rewrite EraseAll_loop_spec by lia. cbn. case_match eqn:E; [|done].
    symmetry. apply filter_all. apply Forall_forall. intros x Hx Ht.
    apply (not_elem_of_nil x). rewrite <- E. by apply list_elem_of_filter. }
  split_and!; [by apply Insert_sorted_eq| |done| |].
  - rewrite Insert_sorted_eq by done. apply StronglySorted_join.
    + intros x1 x2 [Hx _]%list_elem_of_filter [->|Hy]%elem_of_cons; [done|].
      apply list_elem_of_filter in Hy as [Hy _]. unfold tle. lia.
    + by apply StronglySorted_filter.
    + constructor; [by apply StronglySorted_filter|]. apply Forall_forall.
      intros x [Hx _]%list_elem_of_filter. unfold tle. lia.
  - unfold EraseAll. by rewrite EraseAll_loop_spec by lia.
  - unfold Find. rewrite He. apply fmap_None, list_find_None. apply Forall_forall.
    by intros x [Hx _]%list_elem_of_filter.
Qed.

Lemma insert_eraseall_witness :
  StronglySorted tle [NewBlock 1 []; NewBlock 3 []; NewBlock 5 []] /\
  subelements (Insert (mkBlock 7 [] [NewBlock 1 []; NewBlock 3 []; NewBlock 5 []] []) (NewBlock 3 [x01])) =
    [NewBlock 1 []; NewBlock 3 []; NewBlock 3 [x01]; NewBlock 5 []].
Proof.
  assert (H : StronglySorted tle [NewBlock 1 []; NewBlock 3 []; NewBlock 5 []]).
  { repeat constructor; unfold tle; cbn; lia. }
  split; [exact H|].
  exact (proj1 (proj1 (insert_eraseall_spec (mkBlock 7 [] [NewBlock 1 []; NewBlock 3 []; NewBlock 5 []] [])
    (NewBlock 3 [x01]) 3 H))).
Defined.

(** NNI blocks round-trip, and [GetNNIBlockSize] is one byte short of the
    size the block takes: it leaves out the TLV length octet. *)
Lemma nni_block_roundtrip t v :
  0 <= t < 2 ^ 32 -> 0 <= v < 2 ^ 64 ->
  DecodeNNIBlock (Some (EncodeNNIBlock t v)) = Ok v /\
  tlvType (EncodeNNIBlock t v) = t /\
  Z.of_nat (length (wire (Wire (EncodeNNIBlock t v)))) = GetNNIBlockSize t v + 1.
Proof.
  intros Ht Hv.
  assert (E : EncodeNNIBlock t v = mkBlock t (EncodeNNI v) [] []).
  { assert (Hs : forall x, x <> [] -> SetValue (SetType (mkBlock 0 [] [] []) t) x = mkBlock t x [] []).
    { intros x Hx. unfold SetType, SetValue. cbn [tlvType].
      destruct (Z.eqb_spec 0 t) as [<-|]; cbn [value]; rewrite decide_False by done; done. }
    assert (Hn : EncodeNNI v <> []).
    { intros H. apply (f_equal length) in H. rewrite length_EncodeNNI in H.
      pose proof (nniSize_bounds v). cbn in H. lia. }
    rewrite <- Hs by done. unfold EncodeNNIBlock, EncodeNNI. by goal_ifs. }
  rewrite E. split_and!; [|done|].
  - pose proof (length_EncodeNNI v) as Hl. pose proof (nniSize_bounds v).
    unfold DecodeNNIBlock. cbn [value]. rewrite (proj2 (Nat.ltb_ge _ _)), (proj2 (Nat.ltb_ge _ _)) by lia.
    unfold pad8. rewrite be_get_zeros. by rewrite be_get_EncodeNNI.
  - cbn [Wire wire subelements map value tlvType].
    pose proof (length_EncodeVarNum (u64 (Z.of_nat (length (EncodeNNI v))))) as Hl2.
    rewrite !length_app, !Nat2Z.inj_add, Hl2, length_EncodeNNI.
    unfold GetNNIBlockSize, nniSize. goal_ifs; rewrite u64_small by lia;
      match goal with |- context [varSize ?x] =>
        let y := eval vm_compute in (varSize x) in change (varSize x) with y end; lia.
Qed.

Lemma nni_block_roundtrip_witness :
  DecodeNNIBlock (Some (EncodeNNIBlock 10 300)) = Ok 300 /\
  Z.of_nat (length (wire (Wire (EncodeNNIBlock 10 300)))) = GetNNIBlockSize 10 300 + 1.
Proof.
  destruct (nni_block_roundtrip 10 300 ltac:(lia) ltac:(lia)) as (H1 & _ & H2). split; [exact H1|exact H2].
Defined.
