(* ===== verification/PQueue.v ===== *)
(** * Priority queue: utils/heap/heap.go and utils/priority_queue/priority-queue.go

    The heap routines work on a slice of item pointers; an item knows its own
    position ([index]), which [Swap], [Push] and [Pop] maintain.  Every item
    pointer occurs once in the slice, so the slice is a list of item values.
    Indices are [nat] (heap.go's [j1 < 0] overflow test needs a slice of more
    than 2^62 items).  [None] is the index-out-of-range panic on an empty
    queue. *)
From S2P Require Import Prelude.

(** ** Data *)

Record item (V : Type) := mkItem { object : V; priority : Z; index : Z }.
Arguments mkItem {V} object priority index.
Arguments object {V} i.
Arguments priority {V} i.
Arguments index {V} i.

Section ops.
Context {V : Type}.

Definition set_index (it : item V) (i : nat) : item V :=
  mkItem (object it) (priority it) (Z.of_nat i).

(** ** The sort.Interface of the slice *)

Definition Less (q : list (item V)) (i j : nat) : bool :=
  match q !! i, q !! j with
  | Some a, Some b => (priority a <? priority b)%Z
  | _, _ => false
  end.

Definition Swap (q : list (item V)) (i j : nat) : list (item V) :=
  match q !! i, q !! j with
  | Some a, Some b => <[j := set_index a j]> (<[i := set_index b i]> q)
  | _, _ => q
  end.

Definition wrapper_Push (q : list (item V)) (x : item V) : list (item V) :=
  q ++ [set_index x (length q)].

Definition wrapper_Pop (q : list (item V)) : option (item V * list (item V)) :=
  match q !! (length q - 1) with
  | Some it => Some (mkItem (object it) (priority it) (-1), take (length q - 1) q)
  | None => None
  end.

(** ** heap.go *)

(** [up]: returns the slice and the final position of the element that
    started at [j].  The position at least halves, so [j + 1] rounds do. *)
Fixpoint up (fuel : nat) (q : list (item V)) (j : nat) : list (item V) * nat :=
  match fuel with
  | O => (q, j)
  | S fuel' =>
      let i := (j - 1) / 2 in
      if (i =? j) || negb (Less q j i) then (q, j)
      else up fuel' (Swap q i j) i
  end.

(** The loop of [down]: the slice and the final position of the element that
    started at [i]; at most [n] rounds. *)
Fixpoint down_loop (fuel : nat) (q : list (item V)) (i n : nat) : list (item V) * nat :=
  match fuel with
  | O => (q, i)
  | S fuel' =>
      let j1 := 2 * i + 1 in
      if n <=? j1 then (q, i)
      else
        let j2 := j1 + 1 in
        let j := if (j2 <? n) && Less q j2 j1 then j2 else j1 in
        if negb (Less q j i) then (q, i)
        else down_loop fuel' (Swap q i j) j n
  end.

Definition down (q : list (item V)) (i0 n : nat) : list (item V) * nat * bool :=
  let '(q', i) := down_loop n q i0 n in (q', i, i0 <? i).

Definition heap_Push (q : list (item V)) (x : item V) : list (item V) * nat :=
  let q1 := wrapper_Push q x in up (length q1) q1 (length q1 - 1).

Definition heap_Pop (q : list (item V)) : option (item V * list (item V)) :=
  match q with
  | [] => None
  | _ :: _ =>
      let n := length q - 1 in
      let q1 := Swap q 0 n in
      let '(q2, _, _) := down q1 0 n in
      wrapper_Pop q2
  end.

Definition heap_Fix (q : list (item V)) (i : nat) : list (item V) * nat :=
  let '(q1, k, moved) := down q i (length q) in
  if moved then (q1, k) else up (S i) q1 i.

(** [Init]: the loop from [n/2 - 1] down to 0; [k] rounds are left. *)
Fixpoint Init_loop (k : nat) (q : list (item V)) (n : nat) : list (item V) :=
  match k with
  | O => q
  | S k' => let '(q1, _, _) := down q k' n in Init_loop k' q1 n
  end.

Definition Init (q : list (item V)) : list (item V) := Init_loop (length q / 2) q (length q).

Definition heap_Remove (q : list (item V)) (i : nat) : option (item V * list (item V)) :=
  if length q <=? i then None
  else
    let n := length q - 1 in
    let q3 :=
      if n =? i then q
      else
        let '(q2, _, moved) := down (Swap q i n) i n in
        if moved then q2 else (up (S i) q2 i).1 in
    wrapper_Pop q3.

(** ** priority-queue.go *)

Definition New : list (item V) := [].

Definition Len (q : list (item V)) : nat := length q.

(** [Push]: the queue and the index of the new item. *)
Definition Push (q : list (item V)) (value : V) (prio : Z) : list (item V) * Z :=
  let '(q', j) := heap_Push q (mkItem value prio 0) in
  (q', match q' !! j with Some it => index it | None => (-1)%Z end).

Definition Peek (q : list (item V)) : option V := object <$> q !! 0.
Definition PeekPriority (q : list (item V)) : option Z := priority <$> q !! 0.

Definition Pop (q : list (item V)) : option (V * list (item V)) :=
  match heap_Pop q with
  | Some (it, q') => Some (object it, q')
  | None => None
  end.

(** [Update]: overwrites the item at [idx]; the new index, or -1 when out of
    range. *)
Definition Update (q : list (item V)) (idx : Z) (value : V) (prio : Z) : list (item V) * Z :=
  if ((idx <? 0) || (Z.of_nat (length q) <=? idx))%Z then (q, (-1)%Z)
  else
    match q !! Z.to_nat idx with
    | None => (q, (-1)%Z)
    | Some it =>
        let q1 := <[Z.to_nat idx := mkItem value prio (index it)]> q in
        let '(q2, k) := heap_Fix q1 (Z.to_nat (index it)) in
        (q2, match q2 !! k with Some it' => index it' | None => (-1)%Z end)
    end.

(** ** Invariants *)

Definition prio (q : list (item V)) (i : nat) : Z :=
  match q !! i with Some it => priority it | None => 0%Z end.

Definition parent (k : nat) : nat := (k - 1) / 2.

(** Positions [lo <= parent k] below [n] are in heap order. *)
Definition heap_from (lo n : nat) (q : list (item V)) : Prop :=
  forall k, 0 < k < n -> lo <= parent k -> (prio q (parent k) <= prio q k)%Z.

(** No element has a higher priority value than a child. *)
Definition heap_ok (q : list (item V)) : Prop :=
  forall k, 0 < k < length q -> (prio q (parent k) <= prio q k)%Z.

(** Every item records its position. *)
Definition index_ok (q : list (item V)) : Prop :=
  forall i it, q !! i = Some it -> index it = Z.of_nat i.

(** The objects with their priorities, positions forgotten. *)
Definition payload (it : item V) : V * Z := (object it, priority it).
Definition contents (q : list (item V)) : list (V * Z) := payload <$> q.

(** ** Lemmas: swapping *)

Lemma parent_lt k : 0 < k -> parent k < k.
Proof. intros. unfold parent. apply Nat.Div0.div_lt_upper_bound. lia. Qed.

Lemma parent_spec k i : 0 < k -> parent k = i <-> k = 2 * i + 1 \/ k = 2 * i + 2.
Proof.
  intros Hk. unfold parent. pose proof (Nat.div_mod_eq (k - 1) 2) as H.
  pose proof (Nat.mod_upper_bound (k - 1) 2 ltac:(lia)). lia.
Qed.

Lemma length_Swap q i j : length (Swap q i j) = length q.
Proof. unfold Swap. destruct (q !! i), (q !! j); rewrite ?length_insert; done. Qed.

Lemma prio_Swap q i j k :
  i < length q -> j < length q ->
  prio (Swap q i j) k = if decide (k = j) then prio q i else if decide (k = i) then prio q j else prio q k.
Proof.
  intros Hi Hj. unfold prio, Swap.
  destruct (lookup_lt_is_Some_2 q i Hi) as [a Ha], (lookup_lt_is_Some_2 q j Hj) as [b Hb].
  rewrite Ha, Hb. case_decide; subst.
  - rewrite list_lookup_insert_eq by (by rewrite length_insert). done.
  - rewrite list_lookup_insert_ne by done. case_decide; subst.
    + by rewrite list_lookup_insert_eq.
    + by rewrite list_lookup_insert_ne.
Qed.

Lemma payload_Swap q i j k :
  i < length q -> j < length q ->
  payload <$> Swap q i j !! k =
    payload <$> (if decide (k = j) then q !! i else if decide (k = i) then q !! j else q !! k).
Proof.
  intros Hi Hj. unfold Swap.
  destruct (lookup_lt_is_Some_2 q i Hi) as [a Ha], (lookup_lt_is_Some_2 q j Hj) as [b Hb].
  rewrite Ha, Hb. case_decide; subst.
  - by rewrite list_lookup_insert_eq by (by rewrite length_insert).
  - rewrite list_lookup_insert_ne by done. case_decide; subst.
    + by rewrite list_lookup_insert_eq.
    + by rewrite list_lookup_insert_ne.
Qed.

Lemma contents_Swap q i j :
  i < length q -> j < length q -> contents (Swap q i j) ≡ₚ contents q.
Proof.
  intros Hi Hj. apply Permutation_inj. split.
  - unfold contents. by rewrite !length_fmap, length_Swap.
  - exists (fun k => if decide (k = j) then i else if decide (k = i) then j else k). split.
    + intros x y. repeat case_decide; subst; congruence || lia.
    + intros k. unfold contents. rewrite !list_lookup_fmap, payload_Swap by done.
      by repeat case_decide.
Qed.

Lemma index_ok_Swap q i j : index_ok q -> index_ok (Swap q i j).
Proof.
  intros Hq k it. unfold Swap. destruct (q !! i) as [a|] eqn:Ha; [|apply Hq].
  destruct (q !! j) as [b|] eqn:Hb; [|apply Hq].
  intros [(<- & <- & _)|(Hne & H)]%list_lookup_insert_Some; [done|].
  apply list_lookup_insert_Some in H as [(<- & <- & _)|(_ & H)]; [done|]. by apply Hq.
Qed.

Lemma Less_prio q i j :
  i < length q -> j < length q -> Less q i j = (prio q i <? prio q j)%Z.
Proof.
  intros Hi Hj. unfold Less, prio.
  by destruct (lookup_lt_is_Some_2 q i Hi) as [? ->], (lookup_lt_is_Some_2 q j Hj) as [? ->].
Qed.

(** What any sequence of swaps below position [n] keeps. *)
Record sifted (n : nat) (q q' : list (item V)) : Prop := {
  sifted_length : length q' = length q;
  sifted_contents : contents q' ≡ₚ contents q;
  sifted_index : index_ok q -> index_ok q';
  sifted_frozen : forall k, n <= k -> q' !! k = q !! k }.

Lemma sifted_refl n q : sifted n q q.
Proof. by split. Qed.

Lemma sifted_trans n q1 q2 q3 : sifted n q1 q2 -> sifted n q2 q3 -> sifted n q1 q3.
Proof.
  intros [H1 H2 H3 H4] [H5 H6 H7 H8]. split; [congruence|by rewrite H6|auto|].
  intros k Hk. by rewrite H8, H4.
Qed.

Lemma sifted_Swap n q i j : i < n -> j < n -> n <= length q -> sifted n q (Swap q i j).
Proof.
  intros Hi Hj Hn. split; [apply length_Swap|apply contents_Swap; lia|apply index_ok_Swap|].
  intros k Hk. unfold Swap. destruct (q !! i), (q !! j); try done.
  by rewrite !list_lookup_insert_ne by lia.
Qed.

(** ** Lemmas: sifting up *)

(** In heap order except, possibly, between [j] and its parent. *)
Definition up_inv (q : list (item V)) (j n : nat) : Prop :=
  (forall k, 0 < k < n -> k <> j -> (prio q (parent k) <= prio q k)%Z) /\
  (0 < j -> forall k, 0 < k < n -> parent k = j -> (prio q (parent j) <= prio q k)%Z).

Lemma up_inv_step q j n :
  up_inv q j n -> 0 < j < n -> n <= length q -> (prio q j < prio q (parent j))%Z ->
  up_inv (Swap q (parent j) j) (parent j) n.
Proof.
  intros [H1 H2] Hj Hn Hlt. pose proof (parent_lt j ltac:(lia)).
  split.
  - intros k Hk Hne. pose proof (parent_lt k ltac:(lia)). rewrite !prio_Swap by lia.
    destruct (decide (k = j)) as [->|Hkj].
    { rewrite decide_False, decide_True by lia. lia. }
    rewrite (decide_False (P := k = parent j)) by done.
    destruct (decide (parent k = j)) as [Hpk|Hpk]; [by apply H2; lia|].
    specialize (H1 k Hk Hkj). destruct (decide (parent k = parent j)) as [Hpp|]; [|done].
    rewrite Hpp in H1. lia.
  - intros Hpj k Hk Hpk. pose proof (parent_lt k ltac:(lia)). pose proof (parent_lt (parent j) Hpj).
    pose proof (H1 (parent j) ltac:(lia) ltac:(lia)) as Hpp. rewrite !prio_Swap by lia.
    rewrite !(decide_False (P := parent (parent j) = _)) by lia.
    destruct (decide (k = j)) as [->|Hkj]; [done|]. rewrite decide_False by lia.
    specialize (H1 k Hk Hkj). rewrite Hpk in H1. lia.
Qed.

Lemma up_spec fuel : forall q j n, j < fuel -> j < n -> n <= length q -> up_inv q j n ->
  let '(q', j') := up fuel q j in
  sifted n q q' /\ heap_from 0 n q' /\ j' <= j /\ prio q' j' = prio q j /\
  payload <$> q' !! j' = payload <$> q !! j.
Proof.
  induction fuel as [|fuel IH]; [lia|]. intros q j n Hf Hj Hn Hinv. cbn [up].
  change ((j - 1) / 2) with (parent j).
  destruct (decide (j = 0)) as [->|Hj0].
  { cbn. split_and!; try done. intros k Hk _. apply Hinv; lia. }
  pose proof (parent_lt j ltac:(lia)) as Hp.
  destruct (Nat.eqb_spec (parent j) j) as [|_]; [lia|]. cbn [orb].
  rewrite Less_prio by lia. destruct (Z.ltb_spec (prio q j) (prio q (parent j))) as [Hlt|Hge]; cbn [negb].
  - specialize (IH (Swap q (parent j) j) (parent j) n ltac:(lia) ltac:(lia)
                  ltac:(rewrite length_Swap; lia) (up_inv_step q j n Hinv ltac:(lia) Hn Hlt)).
    destruct (up fuel _ _) as [q' j']. destruct IH as (HS & Hh & Hle & Hpr & Hpay).
    rewrite prio_Swap, payload_Swap in * by lia.
    rewrite decide_False, decide_True in Hpr by lia.
    rewrite decide_False, decide_True in Hpay by lia.
    split_and!; try done; [|lia]. eapply sifted_trans; [|exact HS]. apply sifted_Swap; lia.
  - split_and!; try done. intros k Hk _.
    destruct (decide (k = j)) as [->|]; [done|]. apply Hinv; lia.
Qed.

(** ** Lemmas: sifting down *)

(** In heap order from [lo] on except around [i], whose parent is below all
    of its children. *)
Definition down_inv (lo : nat) (q : list (item V)) (i n : nat) : Prop :=
  (forall k, 0 < k < n -> lo <= parent k -> parent k <> i -> k <> i ->
    (prio q (parent k) <= prio q k)%Z) /\
  (0 < i -> lo <= parent i -> forall k, 0 < k < n -> parent k = i ->
    (prio q (parent i) <= prio q k)%Z).

Definition min_child (q : list (item V)) (i n : nat) : nat :=
  if (2 * i + 1 + 1 <? n) && Less q (2 * i + 1 + 1) (2 * i + 1) then 2 * i + 1 + 1 else 2 * i + 1.

Lemma min_child_spec q i n :
  2 * i + 1 < n -> n <= length q ->
  let j := min_child q i n in
  i < j < n /\ parent j = i /\ (forall k, 0 < k < n -> parent k = i -> (prio q j <= prio q k)%Z).
Proof.
  intros Hi Hn j. unfold j, min_child.
  assert (Hc : forall k, 0 < k < n -> parent k = i -> k = 2 * i + 1 \/ k = 2 * i + 1 + 1).
  { intros k Hk. rewrite parent_spec by lia. lia. }
  destruct (Nat.ltb_spec (2 * i + 1 + 1) n) as [H2|H2]; cbn [andb];
    [rewrite Less_prio by lia; destruct (Z.ltb_spec (prio q (2 * i + 1 + 1)) (prio q (2 * i + 1)))|];
    split_and!; try lia; try (apply parent_spec; lia);
    intros k Hk Hpk; destruct (Hc k Hk Hpk) as [->| ->]; lia.
Qed.

Lemma down_inv_step lo q i n :
  lo <= i -> down_inv lo q i n -> 2 * i + 1 < n -> n <= length q ->
  let j := min_child q i n in (prio q j < prio q i)%Z ->
  down_inv lo (Swap q i j) j n /\ (prio (Swap q i j) i < prio (Swap q i j) j)%Z.
Proof.
  intros Hlo [H1 H2] Hi Hn j Hlt. destruct (min_child_spec q i n Hi Hn) as (Hj & Hpj & Hmin).
  fold j in Hj, Hpj, Hmin. split; [split|].
  - intros k Hk Hlk Hpk Hkj. rewrite !prio_Swap by lia. pose proof (parent_lt k ltac:(lia)).
    rewrite (decide_False (P := parent k = j)), (decide_False (P := k = j)) by done.
    destruct (decide (k = i)) as [->|Hki].
    + rewrite decide_False by lia. apply H2; [lia..|done].
    + case_decide; [by apply Hmin|by apply H1].
  - intros _ _ k Hk Hpk. pose proof (parent_lt k ltac:(lia)). rewrite Hpj, !prio_Swap by lia.
    rewrite decide_False, decide_True, !decide_False by lia.
    rewrite <- Hpk at 1. apply H1; lia.
  - rewrite !prio_Swap by lia. by rewrite decide_False, !decide_True by lia.
Qed.

Lemma down_loop_spec lo fuel : forall q i n, n <= i + fuel -> i < n -> lo <= i -> n <= length q ->
  down_inv lo q i n ->
  let '(q', i') := down_loop fuel q i n in
  sifted n q q' /\ i' < n /\ payload <$> q' !! i' = payload <$> q !! i /\ down_inv lo q' i' n /\
  (forall k, 0 < k < n -> parent k = i' -> (prio q' i' <= prio q' k)%Z) /\
  (i' = i /\ q' = q \/ i < i' /\ lo <= parent i' /\ (prio q' (parent i') <= prio q' i')%Z).
Proof.
  induction fuel as [|fuel IH]; intros q i n Hf Hi Hlo Hn Hinv; [lia|]. cbn [down_loop].
  change (if (2 * i + 1 + 1 <? n) && Less q (2 * i + 1 + 1) (2 * i + 1)
          then 2 * i + 1 + 1 else 2 * i + 1) with (min_child q i n).
  destruct (Nat.leb_spec n (2 * i + 1)) as [Hl|Hl].
  { split_and!; try done; [|by left].
    intros k Hk Hpk. apply parent_spec in Hpk; lia. }
  destruct (min_child_spec q i n Hl Hn) as (Hj & Hpj & Hmin).
  rewrite Less_prio by lia.
  destruct (Z.ltb_spec (prio q (min_child q i n)) (prio q i)) as [Hlt|Hge]; cbn [negb].
  - destruct (down_inv_step lo q i n Hlo Hinv Hl Hn Hlt) as [Hinv' Hpl].
    set (j := min_child q i n) in *.
    specialize (IH (Swap q i j) j n ltac:(lia) ltac:(lia) ltac:(lia)
                  ltac:(rewrite length_Swap; lia) Hinv').
    destruct (down_loop fuel _ _ _) as [q' i'].
    destruct IH as (HS & Hi' & Hpay & Hd & Hch & Hor).
    rewrite payload_Swap, decide_True in Hpay by lia.
    split_and!; try done.
    { eapply sifted_trans; [|exact HS]. apply sifted_Swap; lia. }
    right. destruct Hor as [[-> ->]|(? & ? & ?)]; [|split_and!; lia].
    rewrite Hpj. split_and!; lia.
  - split_and!; try done; [|by left].
    intros k Hk Hpk. specialize (Hmin k Hk Hpk). lia.
Qed.

(** [down] from [i]: heap order from [lo] on is restored, unless the element
    did not move, and then at most its own parent can be above it. *)
Lemma down_spec lo q i n : i < n -> lo <= i -> n <= length q -> down_inv lo q i n ->
  let '(q', i', moved) := down q i n in
  sifted n q q' /\ i' < n /\ payload <$> q' !! i' = payload <$> q !! i /\
  (if moved then heap_from lo n q'
   else q' = q /\ i' = i /\
     (forall k, 0 < k < n -> lo <= parent k -> k <> i -> (prio q (parent k) <= prio q k)%Z)).
Proof.
  intros Hi Hlo Hn Hinv. unfold down.
  pose proof (down_loop_spec lo n q i n ltac:(lia) Hi Hlo Hn Hinv) as H.
  destruct (down_loop n q i n) as [q' i']. destruct H as (HS & Hi' & Hpay & Hd & Hch & Hor).
  split_and!; try done.
  assert (Hrest : forall k, 0 < k < n -> lo <= parent k -> k <> i' -> (prio q' (parent k) <= prio q' k)%Z).
  { intros k Hk Hlk Hne. destruct (decide (parent k = i')) as [<-|Hp]; [by apply Hch|by apply Hd]. }
  destruct (Nat.ltb_spec i i') as [Hm|Hm].
  - destruct Hor as [[? ?]|(_ & ? & ?)]; [lia|]. intros k Hk Hlk.
    destruct (decide (k = i')) as [->|]; [done|by apply Hrest].
  - destruct Hor as [[-> ->]|(? & _)]; [|lia]. by split_and!.
Qed.

Lemma heap_Fix_spec q i : i < length q -> down_inv 0 q i (length q) ->
  let '(q', k) := heap_Fix q i in
  sifted (length q) q q' /\ heap_ok q' /\ payload <$> q' !! k = payload <$> q !! i.
Proof.
  intros Hi Hinv. unfold heap_Fix.
  pose proof (down_spec 0 q i (length q) Hi ltac:(lia) ltac:(lia) Hinv) as H.
  destruct (down q i (length q)) as [[q1 k] moved]. destruct H as (HS & Hk & Hpay & H).
  destruct moved.
  - split_and!; try done. intros k' Hk'. rewrite (sifted_length _ _ _ HS) in Hk'. apply H; lia.
  - destruct H as (-> & -> & H).
    pose proof (up_spec (S i) q i (length q) ltac:(lia) Hi ltac:(lia)) as Hup.
    destruct (up (S i) q i) as [q2 j]. destruct Hup as (HS2 & Hh & _ & _ & Hpay2).
    { split; [intros; apply H; lia|intros ? k' ? ?; apply Hinv; lia]. }
    split_and!; try done. intros k' Hk'. rewrite (sifted_length _ _ _ HS2) in Hk'. apply Hh; lia.
Qed.

(** ** Lemmas: the operations *)

Lemma heap_ok_from q : heap_ok q <-> heap_from 0 (length q) q.
Proof. split; intros H k Hk; [intros _|]; apply H; lia. Qed.

Lemma down_inv_agree lo q q' i n :
  i < n -> (forall k, k < n -> k <> i -> prio q' k = prio q k) -> heap_from lo n q ->
  down_inv lo q' i n.
Proof.
  intros Hin Ha H. split.
  - intros k Hk Hlo Hp Hne. pose proof (parent_lt k ltac:(lia)). rewrite !Ha by lia. by apply H.
  - intros Hi Hlo k Hk Hp. pose proof (parent_lt k ltac:(lia)). pose proof (parent_lt i Hi).
    rewrite !Ha by lia. etrans; [apply (H i); lia|]. rewrite <- Hp. apply H; lia.
Qed.

Lemma heap_min q k : heap_ok q -> k < length q -> (prio q 0 <= prio q k)%Z.
Proof.
  intros H. induction k as [k IH] using lt_wf_ind. intros Hk.
  destruct (decide (k = 0)) as [->|]; [done|]. pose proof (parent_lt k ltac:(lia)).
  etrans; [apply (IH (parent k)); lia|]. apply H. lia.
Qed.

Lemma heap_min_contents q v p :
  heap_ok q -> (v, p) ∈ contents q -> (prio q 0 <= p)%Z.
Proof.
  intros H (it & [= -> ->] & (k & Hk)%list_elem_of_lookup)%list_elem_of_fmap.
  pose proof (heap_min q k H (lookup_lt_Some _ _ _ Hk)) as Hm. unfold prio at 2 in Hm.
  by rewrite Hk in Hm.
Qed.

Lemma index_ok_snoc q x : index_ok q -> index_ok (q ++ [set_index x (length q)]).
Proof.
  intros H i it [Hi|[Hl Hi]]%lookup_app_Some; [by apply H|].
  apply list_lookup_singleton_Some in Hi as [Hi <-]. cbn. f_equal. lia.
Qed.

Lemma index_payload q k v p :
  index_ok q -> payload <$> q !! k = Some (v, p) ->
  exists it, q !! k = Some it /\ index it = Z.of_nat k /\ payload it = (v, p).
Proof.
  intros H. destruct (q !! k) as [it|] eqn:E; [|done]. intros [= ? ?]. exists it.
  split_and!; try done; [by apply H|]. unfold payload. congruence.
Qed.

Lemma wrapper_Pop_spec q x :
  payload <$> q !! (length q - 1) = Some x -> index_ok q ->
  exists it q', wrapper_Pop q = Some (it, q') /\ payload it = x /\ q' = take (length q - 1) q /\
    contents q ≡ₚ x :: contents q' /\ index_ok q'.
Proof.
  intros H Hi. unfold wrapper_Pop. destruct (q !! (length q - 1)) as [it|] eqn:E; [|done].
  injection H as H. eexists _, _. split_and!; try done.
  - assert (Hq : q = take (length q - 1) q ++ [it]).
    { rewrite <- (take_drop (length q - 1) q) at 1. f_equal.
      apply drop_S in E as ->. rewrite drop_ge by lia. done. }
    rewrite Hq at 1. unfold contents. rewrite fmap_app. cbn [fmap list_fmap]. rewrite H.
    by rewrite Permutation_app_comm.
  - intros k it' Hk. apply lookup_take_Some in Hk as [Hk _]. by apply Hi.
Qed.

Lemma heap_from_take lo n q : heap_from lo n q -> n <= length q -> lo = 0 -> heap_ok (take n q).
Proof.
  intros H Hn -> k Hk. rewrite length_take in Hk. pose proof (parent_lt k ltac:(lia)).
  unfold prio. rewrite !lookup_take_lt by lia. apply H; lia.
Qed.

(** *** The operations keep the order and the items *)

Lemma Push_spec q v p :
  heap_ok q -> index_ok q ->
  let '(q', ix) := Push q v p in
  heap_ok q' /\ index_ok q' /\ contents q' ≡ₚ (v, p) :: contents q /\
  exists k it, ix = Z.of_nat k /\ q' !! k = Some it /\ payload it = (v, p).
Proof.
  intros Hh Hi. unfold Push, heap_Push, wrapper_Push. set (q1 := q ++ _).
  assert (Hl : length q1 = S (length q)) by (unfold q1; rewrite length_app; cbn; lia).
  assert (Hlast : q1 !! length q = Some (set_index (mkItem v p 0) (length q)))
    by apply list_lookup_middle, eq_refl.
  assert (Hold : forall k, k < length q -> prio q1 k = prio q k).
  { intros k Hk. unfold prio, q1. by rewrite lookup_app_l by lia. }
  replace (length q1 - 1) with (length q) by lia.
  pose proof (up_spec (length q1) q1 (length q) (length q1) ltac:(lia) ltac:(lia) ltac:(lia)) as H.
  destruct (up _ q1 _) as [q' j]. destruct H as (HS & Hh' & _ & _ & Hpay).
  { split; [|intros ? k Hk Hp; pose proof (parent_lt k ltac:(lia)); lia].
    intros k Hk Hne. pose proof (parent_lt k ltac:(lia)). rewrite !Hold by lia. apply Hh. lia. }
  assert (Hi' : index_ok q') by (apply HS, index_ok_snoc, Hi).
  rewrite Hlast in Hpay. destruct (index_payload q' j v p Hi' Hpay) as (it & Hit & Hix & Hp).
  split_and!; [|done| |].
  - apply heap_ok_from. by rewrite (sifted_length _ _ _ HS).
  - rewrite (sifted_contents _ _ _ HS). unfold contents, q1. rewrite fmap_app. cbn.
    by rewrite Permutation_app_comm.
  - exists j, it. by rewrite Hit.
Qed.

Lemma Pop_spec q :
  heap_ok q -> index_ok q ->
  match Pop q with
  | None => q = []
  | Some (v, q') => exists p,
      Peek q = Some v /\ PeekPriority q = Some p /\ contents q ≡ₚ (v, p) :: contents q' /\
      heap_ok q' /\ index_ok q' /\ (forall v' p', (v', p') ∈ contents q -> (p <= p')%Z)
  end.
Proof.
  intros Hh Hi. unfold Pop, heap_Pop. destruct q as [|it0 q0] eqn:Eq; [done|].
  rewrite <- Eq in *. assert (H0 : q !! 0 = Some it0) by by rewrite Eq.
  assert (Hl : 0 < length q) by (rewrite Eq; cbn; lia). clear Eq q0.
  set (n := length q - 1). set (q1 := Swap q 0 n).
  assert (Hd : exists q2 i b, down q1 0 n = (q2, i, b) /\ sifted n q1 q2 /\ heap_from 0 n q2).
  { destruct (decide (n = 0)) as [Hn|Hn].
    - exists q1, 0, false. rewrite Hn. split_and!; try done. intros k Hk. lia.
    - pose proof (down_spec 0 q1 0 n ltac:(lia) ltac:(lia) ltac:(unfold q1; rewrite length_Swap; lia)) as H.
      destruct (down q1 0 n) as [[q2 i] b]. destruct H as (HS & _ & _ & Hm).
      { split; [|lia]. intros k Hk _ Hp Hk0. unfold q1. rewrite !prio_Swap by lia.
        pose proof (parent_lt k ltac:(lia)). rewrite !decide_False by lia. apply Hh. lia. }
      exists q2, i, b. split_and!; try done. destruct b; [done|]. destruct Hm as (-> & -> & Hm).
      intros k Hk Hlo. apply Hm; lia. }
  destruct Hd as (q2 & i & b & -> & HS & Hh2).
  assert (Hl2 : length q2 = length q) by (rewrite (sifted_length _ _ _ HS); apply length_Swap).
  destruct (wrapper_Pop_spec q2 (payload it0)) as (it & q' & -> & Hp & -> & Hc & Hi').
  { rewrite Hl2, (sifted_frozen _ _ _ HS) by lia. unfold q1. fold n.
    rewrite payload_Swap, decide_True by lia. by rewrite H0. }
  { by apply HS, index_ok_Swap. }
  exists (priority it0). unfold Peek, PeekPriority. rewrite H0. injection Hp as Hp1 Hp2.
  split_and!; try done.
  - by rewrite Hp1.
  - rewrite <- (contents_Swap q 0 n) by lia. fold q1. rewrite <- (sifted_contents _ _ _ HS), Hc.
    by rewrite Hp1.
  - rewrite Hl2. by apply (heap_from_take 0); [|lia|].
  - intros v' p' Hin. apply heap_min_contents in Hin; [|done]. unfold prio in Hin. by rewrite H0 in Hin.
Qed.

Lemma Update_spec q i v p :
  heap_ok q -> index_ok q -> i < length q ->
  let '(q', ix) := Update q (Z.of_nat i) v p in
  heap_ok q' /\ index_ok q' /\ contents q' ≡ₚ <[i := (v, p)]> (contents q) /\
  exists k it, ix = Z.of_nat k /\ q' !! k = Some it /\ payload it = (v, p).
Proof.
  intros Hh Hi Hl. unfold Update. rewrite (proj2 (Z.ltb_ge _ _)), (proj2 (Z.leb_gt _ _)) by lia.
  cbn [orb]. rewrite Nat2Z.id. destruct (lookup_lt_is_Some_2 q i Hl) as [it Hit]. rewrite Hit.
  rewrite (Hi i it Hit), Nat2Z.id. set (q1 := <[i := _]> q).
  assert (Hl1 : length q1 = length q) by apply length_insert.
  assert (Hi1 : index_ok q1).
  { intros k it' [(<- & <- & _)|(_ & Hk)]%list_lookup_insert_Some; [done|by apply Hi]. }
  pose proof (heap_Fix_spec q1 i ltac:(lia)) as H. destruct (heap_Fix q1 i) as [q' k].
  destruct H as (HS & Hh' & Hpay).
  { apply (down_inv_agree 0 q); [lia| |rewrite Hl1; by apply heap_ok_from].
    intros k' _ Hk'. unfold prio, q1. by rewrite list_lookup_insert_ne. }
  assert (Hi' : index_ok q') by by apply HS.
  unfold q1 in Hpay. rewrite list_lookup_insert_eq in Hpay by done.
  destruct (index_payload q' k v p Hi' Hpay) as (it' & Hit' & Hix & Hp).
  split_and!; try done.
  - rewrite (sifted_contents _ _ _ HS). unfold contents, q1. by rewrite list_fmap_insert.
  - exists k, it'. by rewrite Hit'.
Qed.

Lemma Init_loop_spec k : forall q n, k <= n -> n <= length q -> heap_from k n q ->
  sifted n q (Init_loop k q n) /\ heap_from 0 n (Init_loop k q n).
Proof.
  induction k as [|k IH]; intros q n Hk Hn H; [done|]. cbn [Init_loop].
  pose proof (down_spec k q k n ltac:(lia) ltac:(lia) Hn) as Hd.
  destruct (down q k n) as [[q1 i] b]. destruct Hd as (HS & _ & _ & Hm).
  { split; [intros; apply H; lia|]. intros ? Hlo. pose proof (parent_lt k ltac:(lia)). lia. }
  destruct (IH q1 n) as [HS' Hh]; [lia|rewrite (sifted_length _ _ _ HS); lia| |].
  { destruct b; [done|]. destruct Hm as (-> & -> & Hm). intros k' Hk' Hlo.
    destruct (decide (k' = k)) as [->|]; [|by apply Hm].
    pose proof (parent_lt k ltac:(lia)). lia. }
  split; [|done]. by eapply sifted_trans.
Qed.

Lemma Init_spec q : sifted (length q) q (Init q) /\ heap_ok (Init q).
Proof.
  destruct (Init_loop_spec (length q / 2) q (length q)) as [HS Hh].
  - apply Nat.Div0.div_le_upper_bound. lia.
  - lia.
  - intros k Hk Hlo. unfold parent in Hlo.
    pose proof (Nat.div_mod_eq (k - 1) 2). pose proof (Nat.div_mod_eq (length q) 2).
    pose proof (Nat.mod_upper_bound (length q) 2 ltac:(lia)).
    pose proof (Nat.mod_upper_bound (k - 1) 2 ltac:(lia)). lia.
  - split; [done|]. intros k Hk. apply Hh; [|lia]. unfold Init in Hk.
    by rewrite (sifted_length _ _ _ HS) in Hk.
Qed.

(** The sifting of [heap_Remove], after the swap with the last item. *)
Lemma Remove_sift q i n :
  heap_ok q -> n = length q - 1 -> i < n ->
  exists q3, (let '(q2, _, moved) := down (Swap q i n) i n in
              if moved then q2 else (up (S i) q2 i).1) = q3 /\
    sifted n (Swap q i n) q3 /\ heap_from 0 n q3.
Proof.
  intros Hh Hn Hi. set (q1 := Swap q i n).
  assert (Hn1 : n <= length q1) by (unfold q1; rewrite length_Swap; lia).
  assert (Hd : down_inv 0 q1 i n).
  { apply (down_inv_agree 0 q); [lia| |intros k Hk _; apply Hh; lia].
    intros k Hk Hki. unfold q1. by rewrite prio_Swap, !decide_False by lia. }
  pose proof (down_spec 0 q1 i n Hi ltac:(lia) Hn1 Hd) as H.
  destruct (down q1 i n) as [[q2 k] b]. destruct H as (HS & _ & _ & Hm).
  destruct b; [by exists q2|]. destruct Hm as (-> & -> & Hm).
  pose proof (up_spec (S i) q1 i n ltac:(lia) Hi Hn1) as Hup.
  destruct (up (S i) q1 i) as [q3 j]. exists q3. split; [done|].
  destruct Hup as (HS3 & Hh3 & _); [|done].
  split; [intros; apply Hm; lia|intros ? k' ? ?; apply Hd; lia].
Qed.

Lemma heap_Remove_spec q i it :
  heap_ok q -> index_ok q -> q !! i = Some it ->
  exists it' q', heap_Remove q i = Some (it', q') /\ payload it' = payload it /\
    contents q ≡ₚ payload it :: contents q' /\ heap_ok q' /\ index_ok q'.
Proof.
  intros Hh Hi Hit. pose proof (lookup_lt_Some _ _ _ Hit) as Hl. unfold heap_Remove.
  destruct (Nat.leb_spec (length q) i) as [|_]; [lia|]. set (n := length q - 1).
  assert (Hq3 : exists q3, (if n =? i then q else
      let '(q2, _, moved) := down (Swap q i n) i n in
      if moved then q2 else (up (S i) q2 i).1) = q3 /\
    payload <$> q3 !! n = payload <$> q !! i /\ contents q3 ≡ₚ contents q /\ length q3 = length q /\
    index_ok q3 /\ heap_from 0 n q3).
  { destruct (Nat.eqb_spec n i) as [<-|Hne].
    { exists q. split_and!; try done. intros k Hk _. apply Hh. lia. }
    destruct (Remove_sift q i n Hh eq_refl ltac:(lia)) as (q3 & -> & HS & Hh3).
    exists q3. split_and!; try done.
    - rewrite (sifted_frozen _ _ _ HS), payload_Swap, decide_True by lia. done.
    - rewrite (sifted_contents _ _ _ HS). apply contents_Swap; lia.
    - rewrite (sifted_length _ _ _ HS). apply length_Swap.
    - by apply HS, index_ok_Swap. }
  destruct Hq3 as (q3 & -> & Hpay & Hc & Hl3 & Hi3 & Hh3).
  destruct (wrapper_Pop_spec q3 (payload it)) as (it' & q' & -> & Hp & -> & Hc' & Hi').
  { rewrite Hl3. fold n. by rewrite Hpay, Hit. } { done. }
  exists it', (take (length q3 - 1) q3). split_and!; try done; [by rewrite <- Hc|].
  rewrite Hl3. by apply (heap_from_take 0); [|lia|].
Qed.

(** *** Reachable queues *)

Inductive reachable : list (item V) -> Prop :=
| reach_New : reachable New
| reach_Push q v p : reachable q -> reachable (Push q v p).1
| reach_Pop q v q' : reachable q -> Pop q = Some (v, q') -> reachable q'
| reach_Update q i v p : reachable q -> reachable (Update q i v p).1.

Lemma Update_out_of_range q i v p :
  ~ (0 <= i < Z.of_nat (length q))%Z -> Update q i v p = (q, (-1)%Z).
Proof.
  intros H. unfold Update.
  destruct (Z.ltb_spec i 0), (Z.leb_spec (Z.of_nat (length q)) i); done || lia.
Qed.

Lemma reachable_ok q : reachable q -> heap_ok q /\ index_ok q.
Proof.
  induction 1 as [|q v p _ [Hh Hi]|q v q' _ [Hh Hi] Hp|q i v p _ [Hh Hi]].
  - split; [intros k Hk; cbn in Hk; lia|done].
  - pose proof (Push_spec q v p Hh Hi) as H. destruct (Push q v p). by destruct H as (? & ? & _).
  - pose proof (Pop_spec q Hh Hi) as H. rewrite Hp in H. by destruct H as (? & _ & _ & _ & ? & ? & _).
  - destruct (decide (0 <= i < Z.of_nat (length q))%Z) as [Hr|Hr].
    + pose proof (Update_spec q (Z.to_nat i) v p Hh Hi ltac:(lia)) as H.
      rewrite Z2Nat.id in H by lia. destruct (Update q i v p). by destruct H as (? & ? & _).
    + by rewrite Update_out_of_range.
Qed.

End ops.

(** ** Properties *)

(** On any queue built with New, Push, Pop and Update, Push adds exactly
    the new value (the returned index is where it sits); Pop is defined
    exactly on a non-empty queue, returns the value Peek shows, whose priority
    PeekPriority shows and is minimal, and leaves exactly the other values. *)
Lemma queue_push_pop {V : Type} (q : list (item V)) :
  reachable q ->
  (forall v p, let '(q', ix) := Push q v p in
    contents q' ≡ₚ (v, p) :: contents q /\
    exists k it, ix = Z.of_nat k /\ q' !! k = Some it /\ payload it = (v, p)) /\
  match Pop q with
  | None => Len q = 0
  | Some (v, q') => exists p,
      Peek q = Some v /\ PeekPriority q = Some p /\ contents q ≡ₚ (v, p) :: contents q' /\
      (forall v' p', (v', p') ∈ contents q -> (p <= p')%Z)
  end.
Proof.
  intros [Hh Hi]%reachable_ok. split.
  - intros v p. pose proof (Push_spec q v p Hh Hi) as H. destruct (Push q v p). by destruct H as (_ & _ & ?).
  - pose proof (Pop_spec q Hh Hi) as H. destruct (Pop q) as [[v q']|]; [|by subst].
    destruct H as (p & ? & ? & ? & _ & _ & ?). by exists p.
Qed.

Definition queue_ex : list (item nat) := (Push (Push (Push New 10 7).1 20 3).1 30 5).1.

Lemma queue_push_pop_witness :
  reachable queue_ex /\
  match Pop queue_ex with
  | None => Len queue_ex = 0
  | Some (v, q') => exists p,
      Peek queue_ex = Some v /\ PeekPriority queue_ex = Some p /\
      contents queue_ex ≡ₚ (v, p) :: contents q' /\
      (forall v' p', (v', p') ∈ contents queue_ex -> (p <= p')%Z)
  end.
Proof.
  assert (H : reachable queue_ex) by repeat constructor.
  split; [exact H|exact (proj2 (queue_push_pop queue_ex H))].
Defined.

(** Update with an index in range replaces exactly that item's value and
    priority, keeps the queue a heap whose items know their positions, and
    returns the item's new position; out of range it does nothing and returns
    -1.  heap.Init makes a heap of any slice and heap.Remove takes out
    exactly the item at its index. *)
Lemma queue_update_remove {V : Type} (q : list (item V)) :
  reachable q ->
  (forall i v p,
    let '(q', ix) := Update q i v p in
    if decide (0 <= i < Z.of_nat (length q))%Z then
      heap_ok q' /\ index_ok q' /\ contents q' ≡ₚ <[Z.to_nat i := (v, p)]> (contents q) /\
      exists k it, ix = Z.of_nat k /\ q' !! k = Some it /\ payload it = (v, p)
    else q' = q /\ ix = (-1)%Z) /\
  (forall l : list (item V), heap_ok (Init l) /\ contents (Init l) ≡ₚ contents l) /\
  (forall i it, q !! i = Some it ->
    exists it' q', heap_Remove q i = Some (it', q') /\ payload it' = payload it /\
      contents q ≡ₚ payload it :: contents q' /\ heap_ok q' /\ index_ok q').
Proof.
  intros [Hh Hi]%reachable_ok. split_and!.
  - intros i v p. case_decide as Hr.
    + pose proof (Update_spec q (Z.to_nat i) v p Hh Hi ltac:(lia)) as H.
      rewrite Z2Nat.id in H by lia. done.
    + by rewrite Update_out_of_range.
  - intros l. destruct (Init_spec l) as [HS Hl]. split; [done|apply HS].
  - intros i it Hit. by apply heap_Remove_spec.
Qed.

Lemma queue_update_remove_witness :
  reachable queue_ex /\
  (let '(q', ix) := Update queue_ex 0 40 9%Z in
   heap_ok q' /\ index_ok q' /\ contents q' ≡ₚ <[0 := (40, 9%Z)]> (contents queue_ex) /\
   exists k it, ix = Z.of_nat k /\ q' !! k = Some it /\ payload it = (40, 9%Z)).
Proof.
  assert (H : reachable queue_ex) by repeat constructor.
  split; [exact H|exact (proj1 (queue_update_remove queue_ex H) 0%Z 40 9%Z)].
Defined.
