(* ===== verification/Enc.v ===== *)
(** * The names of the forwarding tables (go-ndn's [encoding] package)

    The tables, strategies and forwarding threads use the [enc.Name] and
    [enc.Component] types of the go-ndn module, which is not part of the
    repository.  A component is its type number and value; a name is a slice of
    components, so it may be nil ([goname]).  What the code calls on them
    ([Equal], [Hash], [PrefixHash], [Bytes], [IsPrefix]) is a parameter
    ([EncOps]); what it relies on is [EncLaws]: the documented results of these
    calls, and that the 64-bit hashes do not collide on the names in use
    ([universe], closed under prefixes). *)
From S2P Require Import Prelude.

Record Component := mkComponent { Typ : Z; Val : list byte }.

#[export] Instance Component_eq_dec : EqDecision Component.
Proof. solve_decision. Defined.

#[export] Instance Component_countable : Countable Component.
Proof.
  refine (inj_countable' (fun c => (Typ c, Val c)) (fun p => mkComponent p.1 p.2) _).
  by intros [].
Defined.

(** [enc.Component{}]. *)
Definition zero_component : Component := mkComponent 0 [].

Definition Name := list Component.

(** A Go slice of components: nil or a name; [len(nil) = 0]. *)
Definition goname := option Name.
Definition nm (n : goname) : Name := default [] n.

(** [At] (table/pit-cs-tree.go): the component at an index, the zero component
    out of range; negative indices count from the end. *)
Definition At (n : Name) (index : Z) : Component :=
  let len := Z.of_nat (length n) in
  if ((index <? - len) || (len <=? index))%Z then zero_component
  else if (index <? 0)%Z then default zero_component (n !! Z.to_nat (len + index))
  else default zero_component (n !! Z.to_nat index).

Lemma At_in_range n i c : n !! i = Some c -> At n (Z.of_nat i) = c.
Proof.
  intros H. pose proof (lookup_lt_Some _ _ _ H). unfold At.
  goal_ifs; [lia..|]. by rewrite Nat2Z.id, H.
Qed.

(** The calls into go-ndn. *)
Class EncOps := {
  Component_Equal : Component -> Component -> bool;
  Component_Hash : Component -> Z;
  Name_Equal : Name -> Name -> bool;
  Name_IsPrefix : Name -> Name -> bool;
  Name_Hash : Name -> Z;
  Name_PrefixHash : Name -> list Z;
  Name_Bytes : Name -> list byte }.

Class EncLaws `{EncOps} := {
  universe : Name -> Prop;
  universe_take : forall n k, universe n -> universe (take k n);
  Component_Equal_spec : forall a b, Component_Equal a b = bool_decide (a = b);
  Name_Equal_spec : forall a b, Name_Equal a b = bool_decide (a = b);
  Name_IsPrefix_spec : forall a b, Name_IsPrefix a b = bool_decide (a `prefix_of` b);
  Name_PrefixHash_spec : forall n,
    Name_PrefixHash n = (fun k => Name_Hash (take k n)) <$> seq 0 (S (length n));
  Name_Hash_inj : forall n m, universe n -> universe m -> Name_Hash n = Name_Hash m -> n = m;
  Component_Hash_inj : forall n m a b, universe n -> universe m -> a ∈ n -> b ∈ m ->
    Component_Hash a = Component_Hash b -> a = b;
  Name_Bytes_inj : forall n m, Name_Bytes n = Name_Bytes m -> n = m }.

Lemma PrefixHash_lookup `{EncLaws} n k :
  k <= length n -> Name_PrefixHash n !! k = Some (Name_Hash (take k n)).
Proof.
  intros Hk. rewrite Name_PrefixHash_spec, list_lookup_fmap, lookup_seq_lt by lia. done.
Qed.

Lemma PrefixHash_length `{EncLaws} n : length (Name_PrefixHash n) = S (length n).
Proof. by rewrite Name_PrefixHash_spec, length_fmap, length_seq. Qed.

Lemma universe_app `{EncLaws} n m : universe (n ++ m) -> universe n.
Proof. intros Hu. apply (universe_take _ (length n)) in Hu. by rewrite take_app_length in Hu. Qed.

(** A concrete instance without collisions: the encodings of stdpp's
    [Countable], for the witnesses. *)
Fixpoint pos_bytes (p : positive) : list byte :=
  match p with
  | xI p => x01 :: pos_bytes p
  | xO p => x00 :: pos_bytes p
  | xH => []
  end.

Lemma pos_bytes_inj p q : pos_bytes p = pos_bytes q -> p = q.
Proof.
  revert q. induction p as [p IH|p IH|]; intros [q|q|] H; cbn in H; try discriminate; try done;
    f_equal; apply IH; congruence.
Qed.

Definition ref_ops : EncOps := {|
  Component_Equal a b := bool_decide (a = b);
  Component_Hash c := Z.pos (encode c);
  Name_Equal a b := bool_decide (a = b);
  Name_IsPrefix a b := bool_decide (a `prefix_of` b);
  Name_Hash n := Z.pos (encode n);
  Name_PrefixHash n := (fun k => Z.pos (encode (take k n))) <$> seq 0 (S (length n));
  Name_Bytes n := pos_bytes (encode n) |}.

Definition ref_laws : @EncLaws ref_ops.
Proof.
  refine (@Build_EncLaws ref_ops (fun _ => True) _ _ _ _ _ _ _ _); try done.
  - intros n m _ _ H. injection H as H. by apply (inj encode).
  - intros n m a b _ _ _ _ H. injection H as H. by apply (inj encode).
  - intros n m H%pos_bytes_inj. by apply (inj encode).
Defined.

Lemma ref_universe n : @universe ref_ops ref_laws n.
Proof. exact I. Qed.

(** A generic name component, for examples. *)
Definition gc (s : String.string) : Component := mkComponent 8 (gs s).
