(* ===== verification/NameTree.v ===== *)
(** * Name trees: lookup, longest prefix match, growth and pruning

    The FIB, the RIB and the PIT-CS are trees whose edges are labelled by name
    components and whose nodes point back to their parents.  This file has the
    theory they share, over the edges ([kids i c]: the child of node [i] for
    component [c]) and the parent pointers of any such structure. *)
From S2P Require Import Prelude.
From S2P Require Import Enc.

(** ** Longest prefix match as a specification *)

(** [f] at the longest prefix of length at most [k] where it is defined. *)
Fixpoint lpm_upto {A} (f : Name -> option A) (n : Name) (k : nat) : option A :=
  match f (take k n), k with
  | Some a, _ => Some a
  | None, O => None
  | None, S k' => lpm_upto f n k'
  end.

Definition lpm {A} (f : Name -> option A) (n : Name) : option A := lpm_upto f n (length n).

Lemma lpm_upto_ext {A} (f g : Name -> option A) n k :
  (forall j, j <= k -> f (take j n) = g (take j n)) -> lpm_upto f n k = lpm_upto g n k.
Proof.
  induction k as [|k IH]; intros H; cbn [lpm_upto]; rewrite H by lia; [done|].
  by rewrite IH by (intros; apply H; lia).
Qed.

Lemma lpm_upto_skip {A} (f : Name -> option A) n k k' :
  k <= k' -> (forall j, k < j <= k' -> f (take j n) = None) -> lpm_upto f n k' = lpm_upto f n k.
Proof.
  intros Hk. induction k' as [|k' IH]; intros H; [by replace k with 0 by lia|].
  destruct (decide (k = S k')) as [->|]; [done|]. cbn [lpm_upto]. rewrite H by lia.
  apply IH; [lia|]. intros; apply H; lia.
Qed.

(** Two functions that differ at the root only. *)
Lemma lpm_but_root {A} (f g : Name -> option A) n : (forall m, m <> [] -> f m = g m) ->
  lpm f n = lpm g n \/ (lpm f n = f [] /\ forall m, m <> [] -> m `prefix_of` n -> g m = None).
Proof.
  intros Hfg. unfold lpm.
  assert (Hk : forall k, k <= length n -> lpm_upto f n k = lpm_upto g n k \/
    (lpm_upto f n k = f [] /\ forall j, 0 < j <= k -> g (take j n) = None)).
  { induction k as [|k IH]; intros Hk; cbn [lpm_upto].
    - right. rewrite take_0. split; [by destruct (f [])|lia].
    - assert (Hne : take (S k) n <> []) by (intros E%(f_equal length); rewrite length_take in E; cbn [length] in E; lia).
      rewrite (Hfg _ Hne). destruct (g (take (S k) n)) eqn:Eg; [by left|].
      destruct (IH ltac:(lia)) as [->|[-> Hj]]; [by left|right]. split; [done|]. intros j Hj'.
      destruct (decide (j = S k)) as [->|]; [done|]. apply Hj. lia. }
  destruct (Hk (length n) (Nat.le_refl _)) as [|[E Hj]]; [by left|right]. split; [done|].
  intros m Hm [r ->]. rewrite length_app in Hj. specialize (Hj (length m)). rewrite take_app_length in Hj. apply Hj.
  destruct m; [done|cbn; lia].
Qed.

(** What [lpm] returns: the value at the longest prefix that has one. *)
Lemma lpm_spec {A} (f : Name -> option A) n :
  match lpm f n with
  | Some a => exists p, p `prefix_of` n /\ f p = Some a /\
      forall q, q `prefix_of` n -> is_Some (f q) -> length q <= length p
  | None => forall q, q `prefix_of` n -> f q = None
  end.
Proof.
  unfold lpm. assert (Hq : forall q, q `prefix_of` n -> q = take (length q) n /\ length q <= length n).
  { intros q [r ->]. rewrite take_app_length, length_app. split; [done|lia]. }
  cut (match lpm_upto f n (length n) with
    | Some a => exists p, p `prefix_of` n /\ f p = Some a /\
        forall j, j <= length n -> is_Some (f (take j n)) -> j <= length p
    | None => forall j, j <= length n -> f (take j n) = None
    end).
  { destruct (lpm_upto f n (length n)) as [a|].
    - intros (p & Hp & Hf & Hm). exists p. split_and!; try done. intros q [Eq Hl]%Hq Hs.
      rewrite Eq in Hs. by apply Hm.
    - intros Hm q [Eq Hl]%Hq. rewrite Eq. by apply Hm. }
  assert (Hn : length n <= length n) by lia. revert Hn. generalize (length n) at 1 3 4 5 as k.
  induction k as [|k IH]; intros Hk; cbn [lpm_upto].
  - destruct (f (take 0 n)) as [a|] eqn:E.
    + exists []. split_and!; [apply prefix_nil|exact E|]. intros j Hj _. cbn. lia.
    + intros j Hj. by replace j with 0 by lia.
  - destruct (f (take (S k) n)) as [a|] eqn:E.
    + exists (take (S k) n). split_and!; [apply prefix_take|done|]. intros j Hj _.
      rewrite length_take. lia.
    + specialize (IH ltac:(lia)). destruct (lpm_upto f n k).
      * destruct IH as (p & Hp & Hf & Hm). exists p. split_and!; try done. intros j Hj Hs.
        destruct (decide (j = S k)) as [->|]; [rewrite E in Hs; by destruct Hs|apply Hm; [lia|done]].
      * intros j Hj. destruct (decide (j = S k)) as [->|]; [done|apply IH; lia].
Qed.

(** ** Walking down *)

Definition edges := nat -> Component -> option nat.

(** The node at the end of path [n] from [i]. *)
Fixpoint walk (kids : edges) (i : nat) (n : Name) : option nat :=
  match n with
  | [] => Some i
  | c :: n' => match kids i c with Some j => walk kids j n' | None => None end
  end.

(** As far along [n] as the edges go. *)
Fixpoint walk_far (kids : edges) (i : nat) (n : Name) : nat :=
  match n with
  | [] => i
  | c :: n' => match kids i c with Some j => walk_far kids j n' | None => i end
  end.

Lemma walk_ext (kids kids' : edges) i n :
  (forall i c, kids i c = kids' i c) -> walk kids i n = walk kids' i n.
Proof. intros H. revert i. induction n as [|c n IH]; intros i; cbn; [done|]. by rewrite H; goal_match E. Qed.

Lemma walk_app kids i n m : walk kids i (n ++ m) = walk kids i n ≫= fun j => walk kids j m.
Proof. revert i. induction n as [|c n IH]; intros i; cbn; [done|]. by destruct (kids i c). Qed.

Lemma walk_snoc kids i n c : walk kids i (n ++ [c]) = walk kids i n ≫= fun j => kids j c.
Proof. rewrite walk_app. destruct (walk kids i n) as [j|]; cbn; [|done]. by destruct (kids j c). Qed.

Lemma walk_take_None kids i n k j :
  j <= k -> walk kids i (take j n) = None -> walk kids i (take k n) = None.
Proof.
  intros Hjk H. replace k with (j + (k - j)) by lia. rewrite <- take_take_drop, walk_app, H. done.
Qed.

(** [walk_far] stops at the longest prefix with a node. *)
Lemma walk_far_spec kids i n :
  exists k, k <= length n /\ walk kids i (take k n) = Some (walk_far kids i n) /\
    (forall j, k < j <= length n -> walk kids i (take j n) = None).
Proof.
  revert i. induction n as [|c n IH]; intros i; cbn [walk_far length].
  - exists 0. split_and!; [lia|done|lia].
  - destruct (kids i c) as [j|] eqn:E.
    + destruct (IH j) as (k & Hk & Hw & Hmax). exists (S k). split_and!; [lia|cbn; by rewrite E|].
      intros [|m] Hm; [lia|]. cbn. rewrite E. apply Hmax. lia.
    + exists 0. split_and!; [lia|done|]. intros [|m] Hm; [lia|]. cbn. by rewrite E.
Qed.

(** ** Well-formed trees *)

(** Children know their parent and their component; the root is node 0. *)
Record trie_ok (kids : edges) (par : nat -> option nat) (comp : nat -> Component) : Prop := {
  trie_child : forall i c j, kids i c = Some j -> par j = Some i /\ comp j = c;
  trie_root : par 0 = None }.

Section trie.
Context {kids : edges} {par : nat -> option nat} {comp : nat -> Component}.
Context (Hok : trie_ok kids par comp).

Lemma walk_inj n m i : walk kids 0 n = Some i -> walk kids 0 m = Some i -> n = m.
Proof.
  revert m i. induction n as [|c n IH] using rev_ind; intros m i;
    destruct m as [|c' m _] using rev_ind; [done|..]; rewrite ?walk_snoc; cbn.
  - intros [= <-] (j & _ & [Hp _]%(trie_child _ _ _ Hok))%bind_Some.
    by rewrite (trie_root _ _ _ Hok) in Hp.
  - intros (j & _ & [Hp _]%(trie_child _ _ _ Hok))%bind_Some [= <-].
    by rewrite (trie_root _ _ _ Hok) in Hp.
  - intros (j & Hj & [Hp Hc]%(trie_child _ _ _ Hok))%bind_Some
      (j' & Hj' & [Hp' Hc']%(trie_child _ _ _ Hok))%bind_Some.
    assert (j = j') by congruence. subst. f_equal. by apply (IH m j').
Qed.

Lemma walk_root n : walk kids 0 n = Some 0 -> n = [].
Proof. intros H. by apply (walk_inj n [] 0). Qed.

(** The parent of the node at a path is the node at the path's prefix. *)
Lemma walk_par n c i : walk kids 0 (n ++ [c]) = Some i ->
  walk kids 0 n = par i /\ comp i = c.
Proof.
  rewrite walk_snoc. intros (j & Hj & [Hp Hc]%(trie_child _ _ _ Hok))%bind_Some.
  by rewrite Hj, Hp.
Qed.

Lemma walk_par_take n i : walk kids 0 n = Some i -> n <> [] ->
  walk kids 0 (take (length n - 1) n) = par i.
Proof.
  destruct n as [|c n _] using rev_ind; [done|]. intros H _.
  rewrite length_app, Nat.add_sub, take_app_length. by eapply walk_par.
Qed.

(** Changing the edge [(p, c)], from or to a leaf, changes what is found at
    exactly one path. *)
Lemma walk_update (kids' : edges) p c o n m :
  (forall i d, kids' i d = if decide (i = p /\ d = c) then o else kids i d) ->
  (forall j d, kids p c = Some j -> kids j d = None) ->
  (forall j d, o = Some j -> kids' j d = None) ->
  walk kids 0 n = Some p ->
  walk kids' 0 m = if decide (m = n ++ [c]) then o else walk kids 0 m.
Proof.
  intros Hk Hold Hnew Hp. induction m as [|d x IH] using rev_ind.
  { rewrite decide_False by (by destruct n). done. }
  rewrite !walk_snoc, IH. clear IH. case_decide as Hx; [subst x|].
  - rewrite (decide_False (P := (n ++ [c]) ++ [d] = n ++ [c]))
      by (intros H%(f_equal length); rewrite !length_app in H; cbn [length] in H; lia).
    rewrite walk_snoc, Hp. cbn. transitivity (@None nat).
    + destruct o as [j|]; [by apply (Hnew j)|done].
    + destruct (kids p c) as [j|]; [symmetry; by apply (Hold j)|done].
  - destruct (walk kids 0 x) as [i|] eqn:Ei; cbn.
    + rewrite Hk. destruct (decide (i = p)) as [->|Hi].
      * rewrite (walk_inj x n p Ei Hp). repeat case_decide; naive_solver.
      * rewrite decide_False by naive_solver. rewrite decide_False; [done|].
        intros [-> _]%app_inj_tail. congruence.
    + rewrite decide_False; [done|]. intros [-> _]%app_inj_tail. congruence.
Qed.

(** ** Climbing back to the root *)

(** [for ; cur != nil; cur = cur.parent { if test(cur) { return } }]; a node
    at depth [d] is given fuel [S d]. *)
Fixpoint climb {A} (test : nat -> option A) (fuel : nat) (i : nat) : option A :=
  match test i, fuel with
  | Some a, _ => Some a
  | None, O => None
  | None, S fuel' => match par i with Some p => climb test fuel' p | None => None end
  end.

Lemma climb_upto {A} (test : nat -> option A) n k i :
  k <= length n -> walk kids 0 (take k n) = Some i ->
  climb test k i = lpm_upto (fun m => walk kids 0 m ≫= test) n k.
Proof.
  revert i. induction k as [|k IH]; intros i Hk Hw; cbn [climb lpm_upto]; rewrite Hw; cbn.
  - done.
  - destruct (test i) as [a|]; [done|]. destruct (lookup_lt_is_Some_2 n k ltac:(lia)) as [c Hc].
    rewrite (take_S_r _ _ _ Hc) in Hw. pose proof (walk_par _ _ _ Hw) as [Hp _].
    rewrite <- Hp. rewrite walk_snoc in Hw. apply bind_Some in Hw as (p & Hw & _). rewrite Hw.
    apply IH; [lia|done].
Qed.

(** Descending as far as possible and climbing until [test] succeeds is
    longest prefix match. *)
Lemma climb_lpm {A} (test : nat -> option A) n k :
  k <= length n -> walk kids 0 (take k n) = Some (walk_far kids 0 n) ->
  (forall j, k < j <= length n -> walk kids 0 (take j n) = None) ->
  climb test k (walk_far kids 0 n) = lpm (fun m => walk kids 0 m ≫= test) n.
Proof.
  intros Hk Hw Hmax. unfold lpm. rewrite (climb_upto test n k) by done. symmetry.
  apply lpm_upto_skip; [done|]. intros j Hj. cbn. rewrite Hmax by lia. done.
Qed.

End trie.
Arguments climb par {A} test fuel i.
