(* ===== verification/Arena.v ===== *)
(** * Name trees in memory

    The FIB, the RIB and the PIT-CS are trees of nodes that are shared by
    pointer: a node points to its parent and is listed among its parent's
    children.  Nodes live in an arena keyed by allocation number; the root is
    node 0; an unlinked node stays in the arena, as it stays in memory while
    something points to it.  A node carries a component, its depth and the data
    ([D]) of the table.  The searches are parameterised by the step that picks
    the child to descend to, which each table writes in its own way. *)
From S2P Require Import Prelude.
From S2P Require Import Enc.
From S2P Require Import NameTree.

Record node (D : Type) := mkNode {
  component : Component;
  depth : nat;
  parent : option nat;
  children : list nat;
  data : D }.
Arguments mkNode {D} component depth parent children data.
Arguments component {D} n.
Arguments depth {D} n.
Arguments parent {D} n.
Arguments children {D} n.
Arguments data {D} n.

Record arena (D : Type) := mkArena { nodes : gmap nat (node D); next : nat }.
Arguments mkArena {D} nodes next.
Arguments nodes {D} a.
Arguments next {D} a.

Section ops.
Context {D : Type}.

Definition set_children (l : list nat) (f : node D) : node D :=
  mkNode (component f) (depth f) (parent f) l (data f).
Definition set_data (x : D) (f : node D) : node D :=
  mkNode (component f) (depth f) (parent f) (children f) x.

(** Writing through the pointer [i]. *)
Definition upd (T : arena D) (i : nat) (g : node D -> node D) : arena D :=
  mkArena (alter g i (nodes T)) (next T).
Definition upd_data (T : arena D) (i : nat) (g : D -> D) : arena D :=
  upd T i (fun f => set_data (g (data f)) f).

Definition data_of (T : arena D) (i : nat) : option D := data <$> nodes T !! i.
Definition depth_of (T : arena D) (i : nat) : nat := from_option depth 0 (nodes T !! i).
Definition parent_of (T : arena D) (i : nat) : option nat := nodes T !! i ≫= parent.
Definition children_of (T : arena D) (i : nat) : list nat := from_option children [] (nodes T !! i).

Definition new_arena (c : Component) (x : D) : arena D := mkArena {[0 := mkNode c 0 None [] x]} 1.

(** A new node below [cur], appended to its children. *)
Definition add_child (T : arena D) (cur : nat) (c : Component) (d : nat) (x : D) : arena D :=
  mkArena (alter (fun f => set_children (children f ++ [next T]) f) cur
             (<[next T := mkNode c d (Some cur) [] x]> (nodes T)))
    (S (next T)).

(** The recursive searches; each call goes one level down, so fuel
    [S (length n)] is enough. *)
Section search.
Context (step : arena D -> node D -> Name -> option nat).

Fixpoint search_exact (fuel : nat) (T : arena D) (i : nat) (n : Name) : option nat :=
  match fuel, nodes T !! i with
  | S fuel', Some f =>
      if depth f <? length n then
        match step T f n with
        | Some c => search_exact fuel' T c n
        | None => None
        end
      else if length n =? depth f then Some i
      else None
  | _, _ => None
  end.

Fixpoint search_longest (fuel : nat) (T : arena D) (i : nat) (n : Name) : nat :=
  match fuel, nodes T !! i with
  | S fuel', Some f =>
      if depth f <? length n then
        match step T f n with
        | Some c => search_longest fuel' T c n
        | None => i
        end
      else i
  | _, _ => i
  end.

(** [for depth := cur.depth + 1; depth <= len(name); depth++]. *)
Fixpoint fill_loop (rounds : nat) (T : arena D) (cur d : nat) (n : Name) (x : D) : arena D * nat :=
  match rounds with
  | O => (T, cur)
  | S r => fill_loop r (add_child T cur (At n (Z.of_nat d - 1)) d x) (next T) (S d) n x
  end.

Definition fill (T : arena D) (n : Name) (x : D) : arena D * nat :=
  let curNode := search_longest (S (length n)) T 0 n in
  let d := depth_of T curNode in
  fill_loop (length n - d) T curNode (S d) n x.

End search.

(** Depth-first walk with an explicit queue: the nodes in the order they leave
    its front.  Every node enters it once: fuel [size (nodes T)] is enough. *)
Fixpoint visit (fuel : nat) (T : arena D) (queue : list nat) : list nat :=
  match fuel, queue with
  | S fuel', i :: queue' => i :: visit fuel' T (rev (children_of T i) ++ queue')
  | _, _ => []
  end.

Definition visit_all (T : arena D) : list nat := visit (size (nodes T)) T [0].

(** Climbing from a node towards the root until [test] succeeds. *)
Definition climb_from (T : arena D) {A} (test : D -> option A) (i : nat) : option A :=
  climb (parent_of T) (fun j => data_of T j ≫= test) (depth_of T i) i.

(** Removing the first occurrence of [f] from a list of children. *)
Fixpoint remove_child (f : nat) (l : list nat) : list nat :=
  match l with
  | [] => []
  | c :: l' => if c =? f then l' else c :: remove_child f l'
  end.

End ops.

(** ** Invariant and denotation *)

Section theory.
Context {D : Type}.
Context (used : Component -> Prop).

Definition comp_of (T : arena D) (i : nat) : Component :=
  from_option component zero_component (nodes T !! i).

(** The child of [i] for component [c]. *)
Definition kids (T : arena D) (i : nat) (c : Component) : option nat :=
  match nodes T !! i with
  | None => None
  | Some f => List.find (fun j => bool_decide (component <$> nodes T !! j = Some c)) (children f)
  end.

(** The node at a name, and its data. *)
Definition node_at (T : arena D) (n : Name) : option (node D) :=
  walk (kids T) 0 n ≫= fun i => nodes T !! i.
Definition view (T : arena D) (n : Name) : option D := data <$> node_at T n.

(** The pointer structure: a tree whose edges have distinct labels, all of
    them among the components in use. *)
Record struct_ok (T : arena D) : Prop := {
  ok_root : exists r, nodes T !! 0 = Some r /\ depth r = 0 /\ parent r = None;
  ok_bound : forall i f, nodes T !! i = Some f -> i < next T;
  ok_child : forall i f c, nodes T !! i = Some f -> c ∈ children f ->
    exists ch, nodes T !! c = Some ch /\ parent ch = Some i /\ depth ch = S (depth f);
  ok_distinct : forall i f, nodes T !! i = Some f -> NoDup (comp_of T <$> children f);
  ok_used : forall i f p, nodes T !! i = Some f -> parent f = Some p -> used (component f) }.

(** *** Edges *)

Lemma kids_spec T i c j : struct_ok T ->
  kids T i c = Some j <->
  exists f ch, nodes T !! i = Some f /\ j ∈ children f /\ nodes T !! j = Some ch /\ component ch = c.
Proof.
  intros Hs. unfold kids. destruct (nodes T !! i) as [f|] eqn:Ef; [|naive_solver]. split.
  - intros [Hin Hc]%find_some. apply bool_decide_eq_true in Hc.
    destruct (nodes T !! j) as [ch|] eqn:Ej; [|done]. injection Hc as Hc.
    exists f, ch. split_and!; try done. by apply list_elem_of_In.
  - intros (f' & ch & [= <-] & Hin & Hj & <-). destruct (List.find _ _) as [j'|] eqn:E.
    + f_equal. apply find_some in E as [Hin' Hc]. apply bool_decide_eq_true in Hc.
      destruct (nodes T !! j') as [ch'|] eqn:Ej'; [|done]. injection Hc as Hc.
      apply list_elem_of_In in Hin'. pose proof (ok_distinct T Hs i f Ef) as Hd.
      apply list_elem_of_lookup in Hin as [a Ha], Hin' as [b Hb].
      assert (a = b); [|congruence].
      apply (NoDup_lookup _ _ _ (component ch) Hd); rewrite list_lookup_fmap.
      * rewrite Ha. cbn. unfold comp_of. by rewrite Hj.
      * rewrite Hb. cbn. unfold comp_of. rewrite Ej'. cbn. by rewrite Hc.
    + apply list_elem_of_In in Hin. eapply find_none in E; [|done]. cbn in E.
      apply bool_decide_eq_false in E. by rewrite Hj in E.
Qed.

Lemma tree_trie T : struct_ok T -> trie_ok (kids T) (parent_of T) (comp_of T).
Proof.
  intros Hs. split.
  - intros i c j (f & ch & Hf & Hin & Hj & <-)%kids_spec; [|done].
    destruct (ok_child T Hs i f j Hf Hin) as (ch' & Hj' & Hp & _). simplify_eq.
    unfold parent_of, comp_of. by rewrite Hj.
  - destruct (ok_root T Hs) as (r & Hr & _ & Hp). unfold parent_of. by rewrite Hr.
Qed.

Lemma walk_node T n i : struct_ok T -> walk (kids T) 0 n = Some i ->
  exists f, nodes T !! i = Some f /\ depth f = length n.
Proof.
  intros Hs. revert i. induction n as [|c n IH] using rev_ind; intros i.
  - intros [= <-]. destruct (ok_root T Hs) as (r & Hr & Hd & _). by exists r.
  - rewrite walk_snoc. intros (j & Hj & (f & ch & Hf & Hin & Hi & <-)%kids_spec)%bind_Some; [|done].
    destruct (IH j Hj) as (f' & Hf' & Hd). assert (f' = f) by congruence. subst f'.
    destruct (ok_child T Hs j f i Hf Hin) as (ch' & Hi' & _ & Hd').
    exists ch'. split; [done|]. rewrite Hd', length_app. cbn. lia.
Qed.

Lemma depth_of_walk T n i : struct_ok T -> walk (kids T) 0 n = Some i -> depth_of T i = length n.
Proof. intros Hs (f & Hf & Hd)%walk_node; [|done]. unfold depth_of. by rewrite Hf. Qed.

(** *** The searches *)

(** What the step of a table has to do: find the child for the next component
    of the name. *)
Definition step_ok (step : arena D -> node D -> Name -> option nat) : Prop :=
  forall T i f n c, struct_ok T -> Forall used n -> nodes T !! i = Some f ->
  n !! depth f = Some c -> step T f n = kids T i c.

(** The usual step: the first child whose component tests equal ([same]) to
    the one the name has at the child's depth. *)
Lemma find_child_kids (test : node D -> bool) T i f c : nodes T !! i = Some f ->
  (forall j ch, j ∈ children f -> nodes T !! j = Some ch -> test ch = bool_decide (component ch = c)) ->
  (forall j, j ∈ children f -> is_Some (nodes T !! j)) ->
  List.find (fun j => match nodes T !! j with Some ch => test ch | None => false end) (children f) = kids T i c.
Proof.
  intros Hf Ht Hl. unfold kids. rewrite Hf. revert Ht Hl. generalize (children f) as l.
  induction l as [|j l IH]; intros Ht Hl; [done|]. cbn.
  destruct (Hl j) as [ch Hch]; [by left|]. rewrite Hch. cbn. rewrite (Ht j ch) by (done || by left).
  rewrite (bool_decide_ext (Some (component ch) = Some c) (component ch = c)) by naive_solver.
  rewrite IH; [done|..]; intros; [apply (Ht j0); [by right|done]|apply Hl; by right].
Qed.

Section search_spec.
Context (step : arena D -> node D -> Name -> option nat) (Hstep : step_ok step).

Lemma search_spec T : struct_ok T -> forall fuel i f n, Forall used n ->
  nodes T !! i = Some f -> depth f <= length n -> length n - depth f < fuel ->
  search_exact step fuel T i n = walk (kids T) i (drop (depth f) n) /\
  search_longest step fuel T i n = walk_far (kids T) i (drop (depth f) n).
Proof.
  intros Hs fuel. induction fuel as [|fuel IH]; intros i f n Hu Hf Hd Hfu; [lia|].
  cbn [search_exact search_longest]. rewrite Hf.
  destruct (Nat.ltb_spec (depth f) (length n)) as [Hlt|Hge].
  - destruct (lookup_lt_is_Some_2 n (depth f) Hlt) as [c Hc].
    rewrite (drop_S _ _ _ Hc). cbn [walk walk_far]. rewrite (Hstep T i f n c) by done.
    destruct (kids T i c) as [j|] eqn:E; [|done].
    apply kids_spec in E as (f' & ch & Hf' & Hin & Hj & Hcomp); [|done].
    assert (f' = f) by congruence. subst f'.
    destruct (ok_child T Hs i f j Hf Hin) as (ch' & Hj' & _ & Hd').
    rewrite <- Hd'. apply IH; [done|done|lia..].
  - rewrite drop_ge by lia. destruct (Nat.eqb_spec (length n) (depth f)); [done|lia].
Qed.

Lemma search_exact_spec T n : struct_ok T -> Forall used n ->
  search_exact step (S (length n)) T 0 n = walk (kids T) 0 n.
Proof.
  intros Hs Hu. destruct (ok_root T Hs) as (r & Hr & Hd & _).
  destruct (search_spec T Hs (S (length n)) 0 r n Hu Hr ltac:(lia) ltac:(lia)) as [-> _]. by rewrite Hd.
Qed.

Lemma search_longest_spec T n : struct_ok T -> Forall used n ->
  search_longest step (S (length n)) T 0 n = walk_far (kids T) 0 n.
Proof.
  intros Hs Hu. destruct (ok_root T Hs) as (r & Hr & Hd & _).
  destruct (search_spec T Hs (S (length n)) 0 r n Hu Hr ltac:(lia) ltac:(lia)) as [_ ->]. by rewrite Hd.
Qed.

(** Descending and climbing back is longest prefix match. *)
Lemma climb_from_spec {A} T (test : D -> option A) n : struct_ok T -> Forall used n ->
  climb_from T test (search_longest step (S (length n)) T 0 n) = lpm (fun m => view T m ≫= test) n.
Proof.
  intros Hs Hu. rewrite search_longest_spec by done.
  destruct (walk_far_spec (kids T) 0 n) as (k & Hk & Hw & Hmax). unfold climb_from.
  rewrite (depth_of_walk T (take k n)), length_take, Nat.min_l by done.
  rewrite (climb_lpm (tree_trie T Hs)) by done. apply lpm_upto_ext. intros j _. unfold view, node_at, data_of.
  destruct (walk (kids T) 0 (take j n)) as [i|]; [|done]. cbn. by destruct (nodes T !! i).
Qed.

End search_spec.

(** *** Writing payloads *)

Definition shape (f : node D) := (component f, depth f, parent f, children f).
Definition same_shape (T T' : arena D) : Prop :=
  next T' = next T /\ forall i, shape <$> nodes T' !! i = shape <$> nodes T !! i.

Lemma same_shape_node T T' i f' : same_shape T T' -> nodes T' !! i = Some f' ->
  exists f, nodes T !! i = Some f /\ component f = component f' /\ depth f = depth f' /\
    parent f = parent f' /\ children f = children f'.
Proof.
  intros [_ Hsh] Hf. specialize (Hsh i). rewrite Hf in Hsh. destruct (nodes T !! i) as [f|]; [|done].
  injection Hsh as ? ? ? ?. by exists f.
Qed.

Lemma same_shape_sym T T' : same_shape T T' -> same_shape T' T.
Proof. intros [? Hsh]. split; [done|]. intros i. by rewrite Hsh. Qed.

Lemma same_shape_comp T T' i : same_shape T T' -> comp_of T' i = comp_of T i.
Proof.
  intros [_ Hsh]. specialize (Hsh i). unfold comp_of.
  destruct (nodes T !! i), (nodes T' !! i); try done. by injection Hsh.
Qed.

Lemma same_shape_struct T T' : same_shape T T' -> struct_ok T -> struct_ok T'.
Proof.
  intros Hsh Hs. split.
  - destruct (ok_root T Hs) as (r & Hr & Hd & Hp).
    destruct (same_shape_node T' T 0 r) as (r' & ? & _ & ? & ? & _);
      [by apply same_shape_sym|done|exists r'; split_and!; congruence].
  - intros i f' Hf. destruct (same_shape_node T T' i f' Hsh Hf) as (f & Hf' & _).
    destruct Hsh as [-> _]. by eapply ok_bound.
  - intros i f' c Hf Hin. destruct (same_shape_node T T' i f' Hsh Hf) as (f & Hf' & _ & Hd & _ & Hc).
    rewrite <- Hc in Hin. destruct (ok_child T Hs i f c Hf' Hin) as (ch & Hch & Hp & Hdc).
    destruct (same_shape_node T' T c ch (same_shape_sym _ _ Hsh) Hch) as (ch' & ? & _ & ? & ? & _).
    exists ch'. split_and!; congruence.
  - intros i f' Hf. destruct (same_shape_node T T' i f' Hsh Hf) as (f & Hf' & _ & _ & _ & <-).
    rewrite (list_fmap_ext _ (comp_of T)); [by eapply ok_distinct|].
    intros. by apply same_shape_comp.
  - intros i f' p Hf Hp. destruct (same_shape_node T T' i f' Hsh Hf) as (f & Hf' & <- & _ & Hpp & _).
    eapply ok_used; [done|done|]. by rewrite Hpp.
Qed.

Lemma same_shape_kids T T' i c : same_shape T T' -> struct_ok T -> kids T' i c = kids T i c.
Proof.
  intros Hsh Hs. apply option_eq. intros j. rewrite !kids_spec by eauto using same_shape_struct. split.
  - intros (f' & ch' & Hf & Hin & Hj & Hc).
    destruct (same_shape_node T T' i f' Hsh Hf) as (f & ? & _ & _ & _ & Hch).
    destruct (same_shape_node T T' j ch' Hsh Hj) as (ch & ? & ? & _).
    exists f, ch. split_and!; congruence.
  - intros (f' & ch' & Hf & Hin & Hj & Hc). apply same_shape_sym in Hsh.
    destruct (same_shape_node T' T i f' Hsh Hf) as (f & ? & _ & _ & _ & Hch).
    destruct (same_shape_node T' T j ch' Hsh Hj) as (ch & ? & ? & _).
    exists f, ch. split_and!; congruence.
Qed.

Lemma upd_same_shape T i g : (forall f, shape (g f) = shape f) -> same_shape T (upd T i g).
Proof.
  intros Hg. split; [done|]. intros j. cbn. destruct (decide (i = j)) as [->|].
  - rewrite lookup_alter_eq. destruct (nodes T !! j); [|done]. cbn. by rewrite Hg.
  - by rewrite lookup_alter_ne.
Qed.

Lemma walk_same_shape T T' n : same_shape T T' -> struct_ok T ->
  walk (kids T') 0 n = walk (kids T) 0 n.
Proof. intros. apply walk_ext. intros. by apply same_shape_kids. Qed.

Lemma upd_data_shape T i g : same_shape T (upd_data T i g).
Proof. by apply upd_same_shape. Qed.

(** A data write at the node of [n] changes what is found at [n] only. *)
Lemma upd_data_spec T i g n : struct_ok T -> walk (kids T) 0 n = Some i ->
  let T' := upd_data T i g in
  struct_ok T' /\ (forall m, walk (kids T') 0 m = walk (kids T) 0 m) /\
  (forall m, view T' m = if decide (m = n) then g <$> view T n else view T m).
Proof.
  intros Hs Hw T'. pose proof (upd_data_shape T i g) as Hsh.
  assert (HW : forall m, walk (kids T') 0 m = walk (kids T) 0 m) by (intros; by apply walk_same_shape).
  split_and!; [by eapply same_shape_struct|done|]. intros m. unfold view, node_at. rewrite HW.
  case_decide as Hm.
  - subst m. rewrite Hw. cbn. rewrite lookup_alter_eq. by destruct (nodes T !! i).
  - destruct (walk (kids T) 0 m) as [j|] eqn:Ej; [|done]. cbn. rewrite lookup_alter_ne; [done|].
    intros <-. apply Hm. by eapply (walk_inj (tree_trie T Hs)).
Qed.

Lemma upd_data_of (T : arena D) i g j : data_of (upd_data T i g) j = if decide (j = i) then g <$> data_of T i else data_of T j.
Proof.
  unfold data_of, upd_data. cbn. case_decide; [subst; rewrite lookup_alter_eq; by destruct (nodes T !! i)|].
  by rewrite lookup_alter_ne.
Qed.

Lemma view_walk (T : arena D) n i : walk (kids T) 0 n = Some i -> view T n = data_of T i.
Proof. unfold view, node_at, data_of. by intros ->. Qed.

Lemma view_Some (T : arena D) n x : struct_ok T -> view T n = Some x ->
  exists i, walk (kids T) 0 n = Some i /\ data_of T i = Some x.
Proof.
  unfold view, node_at, data_of. intros Hs (f & (i & Hw & Hf)%bind_Some & Hx)%fmap_Some.
  exists i. rewrite Hf. naive_solver.
Qed.

Lemma view_None (T : arena D) n : struct_ok T -> view T n = None -> walk (kids T) 0 n = None.
Proof.
  unfold view, node_at. intros Hs Hv. destruct (walk (kids T) 0 n) as [i|] eqn:E; [|done].
  destruct (walk_node T n i Hs E) as (f & Hf & _). cbn in Hv. by rewrite Hf in Hv.
Qed.

(** [T'] is [T] with the children of [p] set to [l], which differ from the old
    ones at the leaf [j] only; covers linking a fresh node and unlinking a
    leaf. *)
Record relinks (T T' : arena D) (p : nat) (f : node D) (l : list nat) (j : nat) (leaf : node D) : Prop := {
  rl_p : nodes T !! p = Some f;
  rl_jp : j <> p;
  rl_j : nodes T !! j = None \/ nodes T !! j = Some leaf;
  rl_leaf : children leaf = [] /\ parent leaf = Some p /\ depth leaf = S (depth f) /\ used (component leaf);
  rl_l : forall x, x <> j -> x ∈ l <-> x ∈ children f;
  rl_nodup : NoDup l;
  rl_kids : forall x, kids T p (component leaf) = Some x -> x = j;
  rl_nodes : forall i, nodes T' !! i = if decide (i = p) then Some (set_children l f)
               else if decide (i = j) then Some leaf else nodes T !! i;
  rl_next : next T <= next T' /\ j < next T' }.

Section relink.
Context {T T' : arena D} {p : nat} {f : node D} {l : list nat} {j : nat} {leaf : node D}.
Context (Hs : struct_ok T) (R : relinks T T' p f l j leaf).

Lemma relink_keep i g : nodes T !! i = Some g -> exists g', nodes T' !! i = Some g' /\
  component g' = component g /\ depth g' = depth g /\ parent g' = parent g.
Proof.
  destruct R as [Hp _ Hj _ _ _ _ HL _]. intros Hg. rewrite HL.
  repeat case_decide; subst; eexists; split_and!; try done; naive_solver congruence.
Qed.

Lemma relink_comp i g x : nodes T !! i = Some g -> x ∈ children g -> comp_of T' x = comp_of T x.
Proof.
  intros Hg Hx. destruct (ok_child T Hs i g x Hg Hx) as (ch & Hch & _).
  destruct (relink_keep x ch Hch) as (ch' & Hch' & Hc & _). unfold comp_of. by rewrite Hch, Hch'.
Qed.

Lemma kids_child i g x : nodes T !! i = Some g -> x ∈ children g -> kids T i (comp_of T x) = Some x.
Proof.
  intros Hg Hx. destruct (ok_child T Hs i g x Hg Hx) as (ch & Hch & _).
  apply kids_spec; [done|]. exists g, ch. split_and!; try done. unfold comp_of. by rewrite Hch.
Qed.

Lemma relink_leaf : nodes T' !! j = Some leaf /\ comp_of T' j = component leaf.
Proof.
  destruct R as [_ Hjp _ _ _ _ _ HL _]. unfold comp_of. by rewrite HL, decide_False, decide_True.
Qed.

Lemma relink_distinct : NoDup (comp_of T' <$> l).
Proof.
  destruct R as [Hf Hjp _ _ Hl Hnd Hkj _ _]. destruct relink_leaf as [_ Hcj].
  apply NoDup_fmap_2_strong; [|done]. intros x y Hx Hy Hxy.
  destruct (decide (x = j)) as [->|Hxj], (decide (y = j)) as [->|Hyj]; [done|..].
  - apply Hl in Hy; [|done]. symmetry. apply Hkj. rewrite <- Hcj, Hxy, (relink_comp p f y) by done.
    by apply (kids_child p f).
  - apply Hl in Hx; [|done]. apply Hkj. rewrite <- Hcj, <- Hxy, (relink_comp p f x) by done.
    by apply (kids_child p f).
  - apply Hl in Hx, Hy; [|done..]. rewrite !(relink_comp p f) in Hxy by done.
    pose proof (kids_child p f x Hf Hx). pose proof (kids_child p f y Hf Hy). congruence.
Qed.

Lemma relink_struct : struct_ok T'.
Proof.
  destruct R as [Hf Hjp Hj (Hlc & Hlp & Hld & Hlu) Hl Hnd Hkj HL [Hn1 Hn2]]. split.
  - destruct (ok_root T Hs) as (r & Hr & Hd & Hp). destruct (relink_keep 0 r Hr) as (r' & ? & _ & ? & ?).
    exists r'. split_and!; congruence.
  - intros i g Hg. rewrite HL in Hg. pose proof (ok_bound T Hs p f Hf).
    repeat case_decide; subst; try lia. pose proof (ok_bound T Hs i g Hg). lia.
  - intros i g c Hg Hin. rewrite HL in Hg. case_decide as Hip; [|case_decide as Hij].
    + injection Hg as <-. subst i. cbn in Hin. cbn [depth set_children].
      destruct (decide (c = j)) as [->|Hcj']; [by exists leaf; rewrite (proj1 relink_leaf)|].
      apply Hl in Hin; [|done]. destruct (ok_child T Hs p f c Hf Hin) as (ch & Hch & Hp & Hd).
      destruct (relink_keep c ch Hch) as (ch' & ? & _ & ? & ?). exists ch'. split_and!; congruence.
    + injection Hg as <-. rewrite Hlc in Hin. by apply not_elem_of_nil in Hin.
    + destruct (ok_child T Hs i g c Hg Hin) as (ch & Hch & Hp & Hd).
      destruct (relink_keep c ch Hch) as (ch' & ? & _ & ? & ?). exists ch'. split_and!; congruence.
  - intros i g Hg. rewrite HL in Hg. case_decide as Hip; [|case_decide as Hij].
    + injection Hg as <-. apply relink_distinct.
    + injection Hg as <-. rewrite Hlc. apply NoDup_nil_2.
    + erewrite list_fmap_ext; [by apply (ok_distinct T Hs i g)|].
      intros k x Hx%list_elem_of_lookup_2. by eapply relink_comp.
  - intros i g q Hg Hq. rewrite HL in Hg. repeat case_decide; subst.
    + injection Hg as <-. by apply (ok_used T Hs p f q).
    + by injection Hg as <-.
    + by apply (ok_used T Hs i g q).
Qed.

Lemma relink_kids i e : kids T' i e = if decide (i = p /\ e = component leaf)
  then (if decide (j ∈ l) then Some j else None) else kids T i e.
Proof.
  destruct relink_leaf as [Hj' Hcj].
  destruct R as [Hf Hjp Hj (Hlc & Hlp & Hld & Hlu) Hl Hnd Hkj HL [Hn1 Hn2]].
  apply option_eq. intros x. rewrite (kids_spec T') by apply relink_struct. split.
  - intros (g & ch & Hg & Hin & Hx & <-). rewrite HL in Hg.
    assert (Hch : comp_of T' x = component ch) by (unfold comp_of; by rewrite Hx).
    case_decide as Hip; [|case_decide as Hij].
    + injection Hg as <-. subst i. cbn in Hin. destruct (decide (x = j)) as [->|Hxj].
      * assert (ch = leaf) by congruence. subst ch. by rewrite !decide_True.
      * apply Hl in Hin; [|done]. pose proof (kids_child p f x Hf Hin) as Hk.
        rewrite <- (relink_comp p f x), Hch in Hk by done.
        rewrite decide_False; [done|]. intros [_ Hc]. apply Hxj, Hkj. by rewrite <- Hc.
    + injection Hg as <-. rewrite Hlc in Hin. by apply not_elem_of_nil in Hin.
    + rewrite decide_False by naive_solver. pose proof (kids_child i g x Hg Hin) as Hk.
      by rewrite <- (relink_comp i g x), Hch in Hk.
  - case_decide as Hc.
    + destruct Hc as [-> ->]. case_decide as Hjl; [|done]. intros [= <-].
      exists (set_children l f), leaf. rewrite HL, decide_True by done. by split_and!.
    + intros (g & ch & Hg & Hin & Hx & <-)%kids_spec; [|done].
      destruct (relink_keep x ch Hx) as (ch' & Hx' & Hcc & _).
      destruct (decide (i = p)) as [->|Hip].
      * assert (g = f) by congruence. subst g. exists (set_children l f), ch'.
        rewrite HL, decide_True by done. split_and!; try done. cbn. apply Hl; [|done].
        intros ->. apply Hc. destruct Hj as [Hj|Hj]; [congruence|]. split; [done|congruence].
      * exists g, ch'. rewrite HL, decide_False by done. case_decide as Hij; [|done].
        subst i. destruct Hj as [Hj|Hj]; [congruence|]. assert (g = leaf) by congruence. subst g.
        by rewrite Hlc in Hin; apply not_elem_of_nil in Hin.
Qed.

(** What is found at a name afterwards. *)
Lemma relink_walk n m : walk (kids T) 0 n = Some p ->
  walk (kids T') 0 m = if decide (m = n ++ [component leaf])
    then (if decide (j ∈ l) then Some j else None) else walk (kids T) 0 m.
Proof.
  destruct R as [Hf Hjp Hj (Hlc & Hlp & Hld & Hlu) Hl Hnd Hkj HL [Hn1 Hn2]]. intros Hw.
  apply (walk_update (tree_trie T Hs) (kids T') p).
  - apply relink_kids.
  - intros x d Hx. destruct (kids T x d) as [y|] eqn:E; [|done].
    apply Hkj in Hx. subst x. apply kids_spec in E as (g & ch & Hg & Hin & _); [|done].
    destruct Hj as [Hj|Hj]; [congruence|]. assert (g = leaf) by congruence. subst g.
    rewrite Hlc in Hin. by apply not_elem_of_nil in Hin.
  - intros x d. case_decide; [|done]. intros [= <-].
    destruct (kids T' j d) as [y|] eqn:E; [|done].
    apply kids_spec in E as (g & ch & Hg & Hin & _); [|apply relink_struct].
    rewrite (proj1 relink_leaf) in Hg. injection Hg as <-. rewrite Hlc in Hin.
    by apply not_elem_of_nil in Hin.
  - done.
Qed.

Lemma relink_view n m : walk (kids T) 0 n = Some p ->
  view T' m = if decide (m = n ++ [component leaf])
    then (if decide (j ∈ l) then Some (data leaf) else None) else view T m.
Proof.
  intros Hw. unfold view, node_at. rewrite (relink_walk n m Hw). case_decide as Hm.
  - case_decide; [|done]. cbn. by rewrite (proj1 relink_leaf).
  - destruct (walk (kids T) 0 m) as [i|] eqn:Ei; [|done]. cbn.
    destruct (walk_node T m i Hs Ei) as (g & Hg & _).
    destruct R as [Hf Hjp Hj (Hlc & Hlp & Hld & Hlu) Hl Hnd Hkj HL _]. rewrite HL.
    repeat case_decide; subst; [by rewrite Hf| |done].
    destruct Hj as [Hj|Hj]; [congruence|by rewrite Hj].
Qed.

End relink.

(** *** Growing *)

Lemma add_child_relinks T cur f c x : struct_ok T -> nodes T !! cur = Some f ->
  kids T cur c = None -> used c ->
  relinks T (add_child T cur c (S (depth f)) x) cur f (children f ++ [next T]) (next T)
    (mkNode c (S (depth f)) (Some cur) [] x).
Proof.
  intros Hs Hf Hk Hc. pose proof (ok_bound T Hs) as Hb. pose proof (Hb cur f Hf) as Hcur.
  assert (Hfresh : nodes T !! next T = None).
  { destruct (nodes T !! next T) as [g|] eqn:E; [|done]. pose proof (Hb _ g E). lia. }
  assert (Hnin : next T ∉ children f).
  { intros Hin. destruct (ok_child T Hs cur f _ Hf Hin) as (ch & Hch & _). congruence. }
  split; try done; [lia|by left| | | | |cbn; lia].
  - intros y Hy. rewrite elem_of_app, list_elem_of_singleton. naive_solver.
  - apply NoDup_app. split_and!; [|intros y Hy ->%list_elem_of_singleton; done|apply NoDup_singleton].
    by eapply NoDup_fmap_1, ok_distinct.
  - cbn. rewrite Hk. done.
  - intros i. unfold add_child. cbn [nodes]. case_decide; subst.
    + rewrite lookup_alter_eq, lookup_insert_ne by lia. by rewrite Hf.
    + rewrite lookup_alter_ne by done. case_decide; subst;
        [by rewrite lookup_insert_eq|by rewrite lookup_insert_ne].
Qed.

Lemma add_child_spec T n c cur x : struct_ok T -> walk (kids T) 0 n = Some cur ->
  kids T cur c = None -> used c ->
  let T' := add_child T cur c (S (length n)) x in
  struct_ok T' /\ (forall d, kids T' (next T) d = None) /\
  (forall m, walk (kids T') 0 m = if decide (m = n ++ [c]) then Some (next T) else walk (kids T) 0 m) /\
  (forall m, view T' m = if decide (m = n ++ [c]) then Some x else view T m).
Proof.
  intros Hs Hw Hk Hc T'. destruct (walk_node T n cur Hs Hw) as (f & Hf & Hd).
  pose proof (add_child_relinks T cur f c x Hs Hf Hk Hc) as R. rewrite Hd in R. fold T' in R.
  assert (Hin : next T ∈ children f ++ [next T]) by (apply elem_of_app; right; by left).
  split_and!.
  - apply (relink_struct Hs R).
  - intros d. rewrite (relink_kids Hs R). pose proof (ok_bound T Hs cur f Hf).
    rewrite decide_False by lia. unfold kids. destruct (nodes T !! next T) as [g|] eqn:E; [|done].
    pose proof (ok_bound T Hs _ g E). lia.
  - intros m. rewrite (relink_walk Hs R n) by done. cbn [component]. by rewrite (decide_True (P := next T ∈ _)).
  - intros m. rewrite (relink_view Hs R n) by done. cbn [component data]. by rewrite (decide_True (P := next T ∈ _)).
Qed.

(** The data found after growing the path [n] with data [x]. *)
Definition grown (v : Name -> option D) (n : Name) (x : D) (m : Name) : option D :=
  match v m with
  | Some d => Some d
  | None => if decide (m `prefix_of` n) then Some x else None
  end.

Lemma walk_prefix T n m i : walk (kids T) 0 n = Some i -> m `prefix_of` n -> is_Some (walk (kids T) 0 m).
Proof. intros Hw [r ->]. rewrite walk_app in Hw. apply bind_Some in Hw as (j & ? & _). by exists j. Qed.

Lemma walk_view T n i : struct_ok T -> walk (kids T) 0 n = Some i -> is_Some (view T n).
Proof.
  intros Hs Hw. destruct (walk_node T n i Hs Hw) as (f & Hf & _). unfold view, node_at. rewrite Hw.
  cbn. rewrite Hf. by eexists.
Qed.

Lemma fill_loop_spec r : forall T cur k n x, struct_ok T -> Forall used n -> k + r = length n ->
  walk (kids T) 0 (take k n) = Some cur -> (forall d, n !! k = Some d -> kids T cur d = None) ->
  let '(T', i) := fill_loop r T cur (S k) n x in
  struct_ok T' /\ walk (kids T') 0 n = Some i /\
  (forall m j, walk (kids T) 0 m = Some j -> walk (kids T') 0 m = Some j) /\
  (forall m, view T' m = grown (view T) n x m).
Proof.
  induction r as [|r IH]; intros T cur k n x Hs Hu Hk Hw Hnone; cbn [fill_loop].
  - rewrite take_ge in Hw by lia. split_and!; try done. intros m. unfold grown.
    destruct (view T m) as [d|] eqn:E; [done|]. case_decide as Hm; [|done].
    destruct (walk_prefix T n m cur Hw Hm) as [i Hi]. destruct (walk_view T m i Hs Hi). congruence.
  - destruct (lookup_lt_is_Some_2 n k ltac:(lia)) as [c Hc].
    replace (Z.of_nat (S k) - 1)%Z with (Z.of_nat k) by lia. rewrite (At_in_range n k c Hc).
    assert (Hlen : length (take k n) = k) by (rewrite length_take; lia).
    assert (Huc : used c) by (by eapply Forall_lookup_1).
    pose proof (add_child_spec T (take k n) c cur x Hs Hw (Hnone c Hc) Huc) as (Hs1 & Hl1 & Hw1 & Hv1).
    rewrite Hlen in Hs1, Hl1, Hw1, Hv1. rewrite <- (take_S_r n k c Hc) in Hw1, Hv1.
    assert (Hwn : walk (kids T) 0 (take (S k) n) = None).
    { rewrite (take_S_r n k c Hc), walk_snoc, Hw. cbn. by apply Hnone. }
    specialize (IH (add_child T cur c (S k) x) (next T) (S k) n x Hs1 Hu ltac:(lia)).
    rewrite Hw1, decide_True in IH by done. specialize (IH eq_refl ltac:(done)).
    destruct (fill_loop r _ _ _ _ _) as [T' i]. destruct IH as (? & ? & Hpres & Hv). split_and!; try done.
    + intros m j Hm. apply Hpres. rewrite Hw1, decide_False; [done|]. intros ->. congruence.
    + intros m. rewrite Hv. unfold grown. rewrite Hv1. case_decide as Hm; [|done]. subst m.
      unfold view, node_at. rewrite Hwn. cbn. by rewrite decide_True by apply prefix_take.
Qed.

Lemma fill_spec step T n x : step_ok step -> struct_ok T -> Forall used n ->
  let '(T', i) := fill step T n x in
  struct_ok T' /\ walk (kids T') 0 n = Some i /\
  (forall m j, walk (kids T) 0 m = Some j -> walk (kids T') 0 m = Some j) /\
  (forall m, view T' m = grown (view T) n x m).
Proof.
  intros Hstep Hs Hu. unfold fill. rewrite search_longest_spec by done.
  destruct (walk_far_spec (kids T) 0 n) as (k & Hk & Hw & Hmax).
  rewrite (depth_of_walk T (take k n)), length_take, Nat.min_l by done.
  apply fill_loop_spec; [done|done|lia|done|]. intros d Hd.
  pose proof (lookup_lt_Some _ _ _ Hd). specialize (Hmax (S k) ltac:(lia)).
  rewrite (take_S_r n k d Hd), walk_snoc, Hw in Hmax. done.
Qed.

(** *** Unlinking a leaf *)

Lemma remove_child_elem j l x : NoDup l -> x ∈ remove_child j l <-> x ∈ l /\ x <> j.
Proof.
  induction l as [|c l IH]; cbn; intros Hn; [rewrite elem_of_nil; naive_solver|].
  apply NoDup_cons in Hn as [Hc Hn]. destruct (Nat.eqb_spec c j) as [->|Hne]; rewrite !elem_of_cons.
  - split; [intros Hx; split; [auto|congruence]|naive_solver].
  - rewrite IH by done. naive_solver.
Qed.

Lemma remove_child_NoDup j l : NoDup l -> NoDup (remove_child j l).
Proof.
  induction l as [|c l IH]; cbn; [done|]. intros [Hc Hn]%NoDup_cons.
  destruct (Nat.eqb_spec c j); [done|]. apply NoDup_cons. split; [|by apply IH].
  rewrite remove_child_elem by done. naive_solver.
Qed.

Lemma remove_child_id j l : j ∉ l -> remove_child j l = l.
Proof.
  induction l as [|c l IH]; cbn; [done|]. intros [Hc Hn]%not_elem_of_cons.
  destruct (Nat.eqb_spec c j) as [->|]; [done|]. by rewrite IH.
Qed.

(** Removing a leaf from its parent's children. *)
Section unlink.
Context (T : arena D) (i p : nat).
Context (Hs : struct_ok T) (Ep : parent_of T i = Some p) (Ec : children_of T i = []).

Definition unlinked : arena D := upd T p (fun q => set_children (remove_child i (children q)) q).

Lemma unlinked_node x f' : nodes unlinked !! x = Some f' ->
  exists f, nodes T !! x = Some f /\ component f' = component f /\ depth f' = depth f /\
    parent f' = parent f /\ data f' = data f /\
    children f' = if decide (x = p) then remove_child i (children f) else children f.
Proof using Type.
  unfold unlinked. cbn. destruct (decide (p = x)) as [<-|Hne].
  - rewrite lookup_alter_eq. destruct (nodes T !! p) as [f|]; [|done]. intros [= <-]. exists f.
    by rewrite decide_True.
  - rewrite lookup_alter_ne by done. intros Hf. exists f'. by rewrite decide_False by done.
Qed.

Lemma unlinked_node' x f : nodes T !! x = Some f ->
  exists f', nodes unlinked !! x = Some f' /\ component f' = component f /\ depth f' = depth f /\
    parent f' = parent f.
Proof using Type.
  unfold unlinked. cbn. intros Hf. destruct (decide (p = x)) as [<-|Hne].
  - rewrite lookup_alter_eq, Hf. by eexists.
  - rewrite lookup_alter_ne by done. by eexists.
Qed.

Lemma children_NoDup x f : nodes T !! x = Some f -> NoDup (children f).
Proof. intros Hf. by eapply NoDup_fmap_1, ok_distinct. Qed.

Lemma unlinked_struct : struct_ok unlinked.
Proof.
  split.
  - destruct (ok_root T Hs) as (r & Hr & ? & ?). destruct (unlinked_node' 0 r Hr) as (r' & ? & _ & ? & ?).
    exists r'. split_and!; congruence.
  - intros x f' (f & Hf & _)%unlinked_node. by apply (ok_bound T Hs x f).
  - intros x f' c Hf' Hin. destruct (unlinked_node x f' Hf') as (f & Hf & _ & Hd & _ & _ & Hc).
    assert (Hin' : c ∈ children f).
    { rewrite Hc in Hin. case_decide; [|done]. by apply remove_child_elem in Hin as [? _]; [|eapply children_NoDup]. }
    destruct (ok_child T Hs x f c Hf Hin') as (ch & Hch & Hp & Hdc).
    destruct (unlinked_node' c ch Hch) as (ch' & ? & _ & ? & ?). exists ch'. split_and!; congruence.
  - intros x f' Hf'. destruct (unlinked_node x f' Hf') as (f & Hf & _ & _ & _ & _ & Hc).
    assert (Hext : forall y, y ∈ children f -> comp_of unlinked y = comp_of T y).
    { intros y Hy. destruct (ok_child T Hs x f y Hf Hy) as (ch & Hch & _).
      destruct (unlinked_node' y ch Hch) as (ch' & Hch' & Hcc & _). unfold comp_of. by rewrite Hch, Hch'. }
    assert (Hsub : forall y, y ∈ children f' -> y ∈ children f).
    { intros y. rewrite Hc. case_decide; [|done]. by intros [? _]%remove_child_elem; [|eapply children_NoDup]. }
    apply NoDup_fmap_2_strong.
    + intros y z Hy Hz. rewrite !Hext by auto. intros Hyz.
      pose proof (kids_child Hs x f y Hf (Hsub y Hy)). pose proof (kids_child Hs x f z Hf (Hsub z Hz)). congruence.
    + rewrite Hc. case_decide; [apply remove_child_NoDup|]; by eapply children_NoDup.
  - intros x f' q Hf' Hq. destruct (unlinked_node x f' Hf') as (f & Hf & -> & _ & Hp & _).
    eapply ok_used; [done|done|]. by rewrite <- Hp.
Qed.

Lemma unlinked_kids x d : kids unlinked x d =
  if decide (x = p /\ kids T p d = Some i) then None else kids T x d.
Proof.
  apply option_eq. intros y. rewrite (kids_spec unlinked) by apply unlinked_struct. split.
  - intros (f' & ch' & Hf' & Hin & Hy & <-). destruct (unlinked_node x f' Hf') as (f & Hf & _ & _ & _ & _ & Hc).
    destruct (unlinked_node y ch' Hy) as (ch & Hch & Hcc & _).
    assert (Hin' : y ∈ children f /\ (x = p -> y <> i)).
    { rewrite Hc in Hin. case_decide; [|done]. apply remove_child_elem in Hin; [naive_solver|by eapply children_NoDup]. }
    destruct Hin' as [Hin' Hne]. pose proof (kids_child Hs x f y Hf Hin') as Hk. unfold comp_of in Hk.
    rewrite Hch in Hk. cbn in Hk. rewrite <- Hcc in Hk. clear Hc Hin. case_decide as Hx; [|done].
    destruct Hx as [-> Hx]. exfalso. apply Hne; congruence.
  - case_decide as Hx; [done|]. intros (f & ch & Hf & Hin & Hy & <-)%kids_spec; [|done].
    destruct (unlinked_node' y ch Hy) as (ch' & Hy' & Hcc & _).
    destruct (unlinked_node' x f Hf) as (f' & Hf' & _). exists f', ch'. split_and!; try done.
    destruct (unlinked_node x f' Hf') as (f0 & Hf0 & _ & _ & _ & _ & Hc). assert (f0 = f) by congruence. subst f0.
    rewrite Hc. case_decide; [|done]. apply remove_child_elem; [by eapply children_NoDup|]. split; [done|].
    intros ->. apply Hx. subst x. split; [done|]. pose proof (kids_child Hs p f i Hf Hin) as Hk.
    unfold comp_of in Hk. by rewrite Hy in Hk.
Qed.

Lemma unlinked_walk m : walk (kids unlinked) 0 m =
  if decide (walk (kids T) 0 m = Some i) then None else walk (kids T) 0 m.
Proof.
  induction m as [|d m IH] using rev_ind.
  - rewrite decide_False; [done|]. intros [= <-]. destruct (ok_root T Hs) as (r & Hr & _ & Hp).
    unfold parent_of in Ep. rewrite Hr in Ep. cbn in Ep. congruence.
  - rewrite !walk_snoc, IH. clear IH. destruct (walk (kids T) 0 m) as [y|] eqn:Ey; cbn.
    2:{ by rewrite !decide_False. }
    destruct (decide (y = i)) as [->|Hyi].
    + rewrite (decide_True (P := Some i = Some i)) by done. cbn.
      assert (Hk : kids T i d = None).
      { unfold kids, children_of in *. destruct (nodes T !! i) as [f|]; [|done]. cbn in Ec. by rewrite Ec. }
      rewrite Hk. by rewrite decide_False.
    + rewrite (decide_False (P := Some y = Some i)) by congruence. cbn. rewrite unlinked_kids.
      destruct (decide (kids T y d = Some i)) as [Hk|Hk].
      * rewrite decide_True; [done|]. pose proof (trie_child _ _ _ (tree_trie T Hs) _ _ _ Hk) as [Hp _].
        assert (y = p) by congruence. by subst.
      * rewrite decide_False; [done|]. naive_solver.
Qed.

Lemma unlinked_data x : data_of unlinked x = data_of T x.
Proof using Type.
  unfold data_of, unlinked. cbn. destruct (decide (p = x)) as [<-|]; [|by rewrite lookup_alter_ne].
  rewrite lookup_alter_eq. by destruct (nodes T !! p).
Qed.

Lemma unlinked_parent x : parent_of unlinked x = parent_of T x.
Proof using Type.
  unfold parent_of, unlinked. cbn. destruct (decide (p = x)) as [<-|]; [|by rewrite lookup_alter_ne].
  rewrite lookup_alter_eq. by destruct (nodes T !! p).
Qed.

Lemma unlinked_view m : view unlinked m = if decide (walk (kids T) 0 m = Some i) then None else view T m.
Proof.
  assert (Hv : forall T' : arena D, view T' m = walk (kids T') 0 m ≫= data_of T').
  { intros T'. unfold view, node_at, data_of. by destruct (walk (kids T') 0 m). }
  rewrite !Hv, unlinked_walk. case_decide; [done|]. destruct (walk (kids T) 0 m); [|done]. cbn. apply unlinked_data.
Qed.

Lemma unlinked_gone x f : nodes unlinked !! x = Some f -> i ∉ children f.
Proof.
  intros (g & Hg & _ & _ & _ & _ & Hc)%unlinked_node. rewrite Hc. case_decide as Hx.
  - rewrite remove_child_elem by (by eapply children_NoDup). naive_solver.
  - intros Hin. destruct (ok_child T Hs x g i Hg Hin) as (ch & Hch & Hp & _).
    unfold parent_of in Ep. rewrite Hch in Ep. cbn in Ep. congruence.
Qed.

End unlink.

(** *** Visiting every node *)

Definition reached (T : arena D) (i : nat) : Prop := exists n, walk (kids T) 0 n = Some i.

Lemma child_reached T i c : struct_ok T -> reached T i -> c ∈ children_of T i ->
  reached T c /\ parent_of T c = Some i.
Proof.
  intros Hs [n Hn] Hin. destruct (walk_node T n i Hs Hn) as (f & Hf & _).
  unfold children_of in Hin. rewrite Hf in Hin. pose proof (kids_child Hs i f c Hf Hin) as Hk.
  split; [exists (n ++ [comp_of T c]); by rewrite walk_snoc, Hn|].
  by apply (trie_child _ _ _ (tree_trie T Hs)) in Hk as [? _].
Qed.

Lemma NoDup_reached_length T l : struct_ok T -> NoDup l -> (forall i, i ∈ l -> reached T i) ->
  length l <= size (nodes T).
Proof.
  intros Hs Hn Hr. rewrite <- (size_list_to_set (C := gset nat) l), <- size_dom by done.
  apply subseteq_size. intros i Hi%elem_of_list_to_set. destruct (Hr i Hi) as [n Hw].
  destruct (walk_node T n i Hs Hw) as (f & Hf & _). by apply elem_of_dom.
Qed.

(** The nodes already visited and those waiting are distinct; a child waits or
    was visited exactly if its parent was visited. *)
Record visiting (T : arena D) (vis q : list nat) : Prop := {
  vi_nodup : NoDup (vis ++ q);
  vi_reached : forall i, i ∈ vis ++ q -> reached T i;
  vi_parent : forall i, i ∈ vis ++ q -> i = 0 \/ exists p, parent_of T i = Some p /\ p ∈ vis;
  vi_root : 0 ∈ vis ++ q;
  vi_children : forall i c, i ∈ vis -> c ∈ children_of T i -> c ∈ vis ++ q }.

Lemma visiting_step T vis i q : struct_ok T -> visiting T vis (i :: q) ->
  visiting T (vis ++ [i]) (rev (children_of T i) ++ q).
Proof.
  intros Hs [Hn Hr Hp Hz Hc].
  assert (Hi : reached T i) by (apply Hr; rewrite elem_of_app; right; by left).
  assert (Hiv : i ∉ vis) by (apply NoDup_app in Hn as (_ & Hn & _); intros Hx;
    apply (Hn i Hx); by left).
  assert (Hcs : NoDup (children_of T i)).
  { unfold children_of. destruct (nodes T !! i) as [f|] eqn:E; [|apply NoDup_nil_2].
    cbn. by eapply NoDup_fmap_1, ok_distinct. }
  assert (Hperm : (vis ++ [i]) ++ rev (children_of T i) ++ q ≡ₚ children_of T i ++ vis ++ i :: q).
  { rewrite <- Permutation_rev. rewrite (Permutation_app_comm (vis ++ [i])), <- app_assoc.
    apply Permutation_app_head. rewrite Permutation_app_comm, <- app_assoc. done. }
  assert (Hin : forall x, x ∈ (vis ++ [i]) ++ rev (children_of T i) ++ q <->
    x ∈ children_of T i \/ x ∈ vis ++ i :: q) by (intros; by rewrite Hperm, elem_of_app).
  split.
  - rewrite Hperm. apply NoDup_app. split_and!; [done| |done]. intros c Hci Hcv.
    destruct (child_reached T i c Hs Hi Hci) as [_ Hpc].
    destruct (Hp c Hcv) as [->|(p & Hp' & Hv)]; [|congruence].
    destruct (ok_root T Hs) as (r & Hr0 & _ & Hpr). unfold parent_of in Hpc. rewrite Hr0 in Hpc.
    cbn in Hpc. congruence.
  - intros x [Hx|Hx]%Hin; [by apply (child_reached T i)|by apply Hr].
  - intros x [Hx|Hx]%Hin.
    + right. exists i. split; [by apply child_reached|]. rewrite elem_of_app. right. by left.
    + destruct (Hp x Hx) as [?|(p & ? & ?)]; [by left|right]. exists p. rewrite elem_of_app. auto.
  - apply Hin. by right.
  - intros x c Hx Hcx. apply Hin. rewrite elem_of_app, list_elem_of_singleton in Hx.
    destruct Hx as [Hx| ->]; [right; by eapply Hc|by left].
Qed.

Lemma visit_spec T : struct_ok T -> forall fuel vis q,
  visiting T vis q -> size (nodes T) <= fuel + length vis -> visiting T (vis ++ visit fuel T q) [].
Proof.
  intros Hs fuel. induction fuel as [|fuel IH]; intros vis q Hv Hsz.
  - cbn. destruct Hv as [Hn Hr Hp Hz Hc]. pose proof (NoDup_reached_length T _ Hs Hn Hr) as Hl.
    rewrite length_app in Hl. destruct q; [|cbn in Hl; lia]. rewrite !app_nil_r in *. by split; rewrite ?app_nil_r.
  - destruct q as [|i q]; cbn [visit]; [by rewrite app_nil_r|].
    rewrite cons_middle, app_assoc. apply IH; [by apply visiting_step|].
    rewrite length_app. cbn. lia.
Qed.

Lemma visit_reached T : struct_ok T ->
  NoDup (visit_all T) /\ forall i, i ∈ visit_all T <-> reached T i.
Proof.
  intros Hs. unfold visit_all. destruct (visit_spec T Hs (size (nodes T)) [] [0]) as [Hn Hr Hp Hz Hc].
  - split; cbn.
    + apply NoDup_singleton.
    + intros i ->%list_elem_of_singleton. by exists [].
    + intros i ->%list_elem_of_singleton. by left.
    + by left.
    + intros i c Hi. by apply not_elem_of_nil in Hi.
  - cbn. lia.
  - rewrite app_nil_r in *. cbn in *. split; [done|]. intros i. split; [apply Hr|].
    intros [n Hn']. revert i Hn'. induction n as [|c n IH] using rev_ind; intros i; [by intros [= <-]|].
    rewrite walk_snoc. intros (j & Hj & Hk)%bind_Some. apply (Hc j); [by apply IH|].
    apply kids_spec in Hk as (f & ch & Hf & Hin & _); [|done]. unfold children_of. by rewrite Hf.
Qed.


(** *** A new tree *)

Lemma new_arena_spec c x :
  struct_ok (new_arena c x) /\ forall m, view (new_arena c x) m = if decide (m = []) then Some x else None.
Proof.
  split; [split; cbn|].
  - eexists. by split_and!.
  - intros i f [<- <-]%lookup_singleton_Some. lia.
  - intros i f c' [<- <-]%lookup_singleton_Some Hc. by apply not_elem_of_nil in Hc.
  - intros i f [<- <-]%lookup_singleton_Some. apply NoDup_nil_2.
  - intros i f p [<- <-]%lookup_singleton_Some. done.
  - intros m. unfold view, node_at. destruct m as [|d m]; [done|]. by rewrite decide_False.
Qed.

End theory.
