(* ===== verification/FibSpec.v ===== *)
(** * The FIB-strategy table: interface and specification (table/fib-strategy.go)

    [FibStrategy] is the interface [table.FibStrategy] that the RIB, the
    forwarding threads and management use.  [FibStrategyLaws] is what an
    implementation promises: a table denotes, for every name, a list of next
    hops ([fib_nh]) and at most one strategy ([fib_st]); the updates change
    these at exactly one name, the lookups are longest prefix match over them
    and the listings enumerate them.  The tree (FibTree.v) and the hash table
    (FibHash.v) both satisfy it. *)
From S2P Require Import Prelude.
From S2P Require Import Enc.
From S2P Require Import NameTree.

Record FibNextHopEntry := mkNextHop { Nexthop : Z; Cost : Z }.

#[export] Instance FibNextHopEntry_eq_dec : EqDecision FibNextHopEntry.
Proof. solve_decision. Defined.

(** The loop of [InsertNextHopEnc]: update the first entry for the next hop,
    or append a new one.  The boolean says whether an entry was updated. *)
Fixpoint update_hop (nhs : list FibNextHopEntry) (h c : Z) : list FibNextHopEntry * bool :=
  match nhs with
  | [] => ([], false)
  | e :: nhs' =>
      if (Nexthop e =? h)%Z then (mkNextHop (Nexthop e) c :: nhs', true)
      else let '(r, b) := update_hop nhs' h c in (e :: r, b)
  end.

Definition upsert_hop (nhs : list FibNextHopEntry) (h c : Z) : list FibNextHopEntry :=
  let '(r, updated) := update_hop nhs h c in
  if updated then r else r ++ [mkNextHop h c].

(** ** The interface *)

(** What a [FibStrategyEntry] shows: name, next hops, strategy. *)
Definition fib_entry : Type := goname * list FibNextHopEntry * goname.

Class FibStrategy (F : Type) := {
  FindNextHopsEnc : F -> Name -> list FibNextHopEntry;
  FindStrategyEnc : F -> Name -> goname;
  InsertNextHopEnc : F -> goname -> Z -> Z -> F;
  ClearNextHopsEnc : F -> goname -> F;
  RemoveNextHopEnc : F -> Name -> Z -> F;
  GetAllFIBEntries : F -> list fib_entry;
  SetStrategyEnc : F -> goname -> goname -> F;
  UnSetStrategyEnc : F -> Name -> F;
  GetAllForwardingStrategies : F -> list fib_entry }.

(** ** The specification *)

Definition nonempty {A} (l : list A) : option (list A) :=
  match l with [] => None | _ :: _ => Some l end.

(** One entry per next hop. *)
Definition hops_ok (nhs : list FibNextHopEntry) : Prop := NoDup (Nexthop <$> nhs).

(** [f] with the value at [n] replaced. *)
Definition at_name {A} (n : Name) (v : A) (f : Name -> A) (m : Name) : A :=
  if decide (m = n) then v else f m.

(** [fib_nil_clears]: whether clearing the next hops of the nil name clears
    those of the root (it does in the hash table, not in the tree). *)
Class FibStrategyLaws (F : Type) `{FibStrategy F} := {
  fib_ok : F -> Prop;
  fib_dom : Name -> Prop;
  fib_nh : F -> Name -> list FibNextHopEntry;
  fib_st : F -> Name -> goname;
  fib_nil_clears : bool;
  fib_dom_nil : fib_dom [];
  fib_hops_ok : forall f n, fib_ok f -> hops_ok (fib_nh f n);
  FindNextHops_lpm : forall f n, fib_ok f -> fib_dom n ->
    FindNextHopsEnc f n = default [] (lpm (fun m => nonempty (fib_nh f m)) n);
  FindStrategy_lpm : forall f n, fib_ok f -> fib_dom n ->
    FindStrategyEnc f n = lpm (fib_st f) n;
  InsertNextHop_spec : forall f n h c, fib_ok f -> fib_dom n ->
    let f' := InsertNextHopEnc f (Some n) h c in
    fib_ok f' /\
    (forall m, fib_nh f' m = at_name n (upsert_hop (fib_nh f n) h c) (fib_nh f) m) /\
    (forall m, fib_st f' m = fib_st f m);
  ClearNextHops_spec : forall f n, fib_ok f -> fib_dom (nm n) ->
    let f' := ClearNextHopsEnc f n in
    fib_ok f' /\
    (forall m, fib_nh f' m =
      match n with
      | Some n => at_name n [] (fib_nh f) m
      | None => if fib_nil_clears then at_name [] [] (fib_nh f) m else fib_nh f m
      end) /\
    (forall m, fib_st f' m = fib_st f m);
  RemoveNextHop_spec : forall f n h, fib_ok f -> fib_dom n ->
    let f' := RemoveNextHopEnc f n h in
    fib_ok f' /\
    (forall m, fib_nh f' m ≡ₚ at_name n (filter (fun e => Nexthop e <> h) (fib_nh f n)) (fib_nh f) m) /\
    (forall m, fib_st f' m = fib_st f m);
  SetStrategy_spec : forall f n s, fib_ok f -> fib_dom n ->
    let f' := SetStrategyEnc f (Some n) (Some s) in
    fib_ok f' /\ (forall m, fib_nh f' m = fib_nh f m) /\
    (forall m, fib_st f' m = at_name n (Some s) (fib_st f) m);
  UnSetStrategy_spec : forall f n, fib_ok f -> fib_dom n ->
    let f' := UnSetStrategyEnc f n in
    fib_ok f' /\ (forall m, fib_nh f' m = fib_nh f m) /\
    (forall m, fib_st f' m = at_name n None (fib_st f) m);
  GetAllFIBEntries_spec : forall f, fib_ok f ->
    NoDup (GetAllFIBEntries f).*1.*1 /\
    (forall n nhs s, (n, nhs, s) ∈ GetAllFIBEntries f <->
      exists m, n = Some m /\ nhs = fib_nh f m /\ s = fib_st f m /\ nhs <> []);
  GetAllForwardingStrategies_spec : forall f, fib_ok f ->
    NoDup (GetAllForwardingStrategies f).*1.*1 /\
    (forall n nhs s, (n, nhs, s) ∈ GetAllForwardingStrategies f <->
      exists m, n = Some m /\ nhs = fib_nh f m /\ s = fib_st f m /\ s <> None) }.

(** ** Next-hop lists *)

Lemma update_hop_keys nhs h c : Nexthop <$> (update_hop nhs h c).1 = Nexthop <$> nhs.
Proof.
  induction nhs as [|e nhs IH]; [done|]. cbn. destruct (Nexthop e =? h)%Z; [done|].
  destruct (update_hop nhs h c) as [r b]. cbn in *. by rewrite IH.
Qed.

Lemma update_hop_found nhs h c : (update_hop nhs h c).2 = bool_decide (h ∈ Nexthop <$> nhs).
Proof.
  induction nhs as [|e nhs IH]; [done|]. cbn. destruct (Z.eqb_spec (Nexthop e) h) as [->|Hne].
  - symmetry. apply bool_decide_eq_true. by left.
  - destruct (update_hop nhs h c) as [r b]. cbn in *. rewrite IH. apply bool_decide_ext.
    rewrite elem_of_cons. naive_solver.
Qed.

Lemma update_hop_absent nhs h c : (update_hop nhs h c).2 = false -> (update_hop nhs h c).1 = nhs.
Proof.
  induction nhs as [|e nhs IH]; [done|]. cbn. destruct (Nexthop e =? h)%Z; [done|].
  destruct (update_hop nhs h c) as [r b]. cbn in *. intros ->. by rewrite IH.
Qed.

Lemma upsert_hops_ok nhs h c : hops_ok nhs -> hops_ok (upsert_hop nhs h c).
Proof.
  unfold hops_ok, upsert_hop. pose proof (update_hop_keys nhs h c) as Hk.
  pose proof (update_hop_found nhs h c) as Hf.
  destruct (update_hop nhs h c) as [r b]. cbn in Hk, Hf. intros Hn. destruct b; [by rewrite Hk|].
  symmetry in Hf. apply bool_decide_eq_false in Hf.
  rewrite fmap_app, Hk. apply NoDup_app. split_and!; [done| |apply NoDup_singleton].
  intros x Hx Hin%list_elem_of_singleton. subst. done.
Qed.

(** The costs after an upsert, per next hop. *)
Lemma upsert_hop_elem nhs h c e : hops_ok nhs ->
  e ∈ upsert_hop nhs h c <-> e = mkNextHop h c \/ e ∈ nhs /\ Nexthop e <> h.
Proof.
  unfold upsert_hop, hops_ok. induction nhs as [|a nhs IH]; cbn; intros Hn.
  - rewrite list_elem_of_singleton. split; [auto|intros [?|[Hin _]]; [done|by apply not_elem_of_nil in Hin]].
  - apply NoDup_cons in Hn as [Ha Hn]. specialize (IH Hn).
    destruct (Z.eqb_spec (Nexthop a) h) as [<-|Hne].
    + rewrite !elem_of_cons. split.
      * intros [->|Hin]; [auto|right]. split; [auto|]. intros Heq. apply Ha. rewrite <- Heq.
        by apply list_elem_of_fmap_2.
      * intros [->|[[->|Hin] Hne]]; [auto|done|auto].
    + destruct (update_hop nhs h c) as [r b]. destruct b; cbn; rewrite !elem_of_cons, IH;
        (split; [intros [->|[->|[??]]]|intros [->|[[->|?] ?]]]; auto).
Qed.

Lemma nonempty_Some {A} (l : list A) r : nonempty l = Some r <-> r = l /\ l <> [].
Proof. destruct l; cbn; naive_solver. Qed.

Lemma hops_ok_nil : hops_ok [].
Proof. apply NoDup_nil_2. Qed.

Lemma hops_ok_filter nhs (P : FibNextHopEntry -> Prop) `{!forall x, Decision (P x)} :
  hops_ok nhs -> hops_ok (filter P nhs).
Proof.
  unfold hops_ok. induction nhs as [|e nhs IH]; [done|]. rewrite filter_cons, fmap_cons.
  intros [He Hn]%NoDup_cons. case_decide; [|by apply IH]. rewrite fmap_cons. apply NoDup_cons. split; [|by apply IH].
  intros (e' & Heq & [_ Hin]%list_elem_of_filter)%list_elem_of_fmap. apply He. rewrite Heq.
  by apply list_elem_of_fmap_2.
Qed.

Lemma hops_ok_perm nhs nhs' : nhs ≡ₚ nhs' -> hops_ok nhs -> hops_ok nhs'.
Proof. unfold hops_ok. by intros ->. Qed.

#[export] Hint Resolve upsert_hops_ok hops_ok_nil hops_ok_filter : tables.

(** ** The abstract table and simulation

    An abstract table maps every name to a finite map from next hops to costs
    and to at most one strategy.  [run] and [spec_run] execute the same
    sequence of updates on an implementation and on the abstract table. *)

Inductive fib_op :=
| OpInsert (n : Name) (h c : Z)
| OpClear (n : goname)
| OpRemove (n : Name) (h : Z)
| OpSet (n : Name) (s : Name)
| OpUnSet (n : Name).

Definition op_name (o : fib_op) : Name :=
  match o with OpClear n => nm n | OpInsert n _ _ | OpSet n _ | OpRemove n _ | OpUnSet n => n end.

Definition run_op {F} `{FibStrategy F} (f : F) (o : fib_op) : F :=
  match o with
  | OpInsert n h c => InsertNextHopEnc f (Some n) h c
  | OpClear n => ClearNextHopsEnc f n
  | OpRemove n h => RemoveNextHopEnc f n h
  | OpSet n s => SetStrategyEnc f (Some n) (Some s)
  | OpUnSet n => UnSetStrategyEnc f n
  end.

Definition run {F} `{FibStrategy F} (f : F) (os : list fib_op) : F := fold_left run_op os f.

Record fib_spec := mkSpec { sp_nh : Name -> gmap Z Z; sp_st : Name -> goname }.

Definition spec_op (nil_clears : bool) (s : fib_spec) (o : fib_op) : fib_spec :=
  match o with
  | OpInsert n h c => mkSpec (at_name n (<[h := c]> (sp_nh s n)) (sp_nh s)) (sp_st s)
  | OpClear (Some n) => mkSpec (at_name n ∅ (sp_nh s)) (sp_st s)
  | OpClear None => if nil_clears then mkSpec (at_name [] ∅ (sp_nh s)) (sp_st s) else s
  | OpRemove n h => mkSpec (at_name n (delete h (sp_nh s n)) (sp_nh s)) (sp_st s)
  | OpSet n st => mkSpec (sp_nh s) (at_name n (Some st) (sp_st s))
  | OpUnSet n => mkSpec (sp_nh s) (at_name n None (sp_st s))
  end.

Definition spec_run (nil_clears : bool) (s : fib_spec) (os : list fib_op) : fib_spec :=
  fold_left (spec_op nil_clears) os s.

(** A new table: the default strategy at the root. *)
Definition spec_new (base : goname) : fib_spec := mkSpec (fun _ => ∅) (at_name [] base (fun _ => None)).

Definition nonempty_map (m : gmap Z Z) : option (gmap Z Z) := if decide (m = ∅) then None else Some m.

(** The cost per next hop. *)
Definition hops_map (nhs : list FibNextHopEntry) : gmap Z Z :=
  list_to_map ((fun e => (Nexthop e, Cost e)) <$> nhs).

Lemma hops_map_fst nhs : ((fun e => (Nexthop e, Cost e)) <$> nhs).*1 = Nexthop <$> nhs.
Proof. rewrite <- list_fmap_compose. done. Qed.

Lemma hops_map_elem nhs h c : hops_ok nhs -> hops_map nhs !! h = Some c <-> mkNextHop h c ∈ nhs.
Proof.
  unfold hops_ok, hops_map. intros Hn. rewrite <- elem_of_list_to_map by (by rewrite hops_map_fst).
  rewrite list_elem_of_fmap. split; [by intros ([] & [= -> ->] & ?)|]. intros ?. by exists (mkNextHop h c).
Qed.

Lemma hops_map_eq nhs (m : gmap Z Z) : hops_ok nhs ->
  (forall h c, mkNextHop h c ∈ nhs <-> m !! h = Some c) -> hops_map nhs = m.
Proof.
  intros Hn Hm. apply map_eq. intros h. apply option_eq. intros c. by rewrite hops_map_elem, Hm.
Qed.

Lemma hops_map_upsert nhs h c : hops_ok nhs -> hops_map (upsert_hop nhs h c) = <[h := c]> (hops_map nhs).
Proof.
  intros Hn. apply hops_map_eq; [auto with tables|]. intros h' c'.
  rewrite upsert_hop_elem, lookup_insert_Some by done. rewrite hops_map_elem by done. cbn. naive_solver.
Qed.

Lemma hops_map_filter nhs h : hops_ok nhs ->
  hops_map (filter (fun e => Nexthop e <> h) nhs) = delete h (hops_map nhs).
Proof.
  intros Hn. apply hops_map_eq; [by apply hops_ok_filter|]. intros h' c'.
  rewrite list_elem_of_filter, lookup_delete_Some, hops_map_elem by done. cbn. naive_solver.
Qed.

Lemma hops_map_perm nhs nhs' : hops_ok nhs -> nhs' ≡ₚ nhs -> hops_map nhs' = hops_map nhs.
Proof.
  intros Hn Hp. apply hops_map_eq; [by eapply hops_ok_perm|]. intros h c.
  by rewrite Hp, hops_map_elem.
Qed.

Lemma hops_map_nonempty nhs : hops_map <$> nonempty nhs = nonempty_map (hops_map nhs).
Proof.
  unfold nonempty_map. destruct nhs as [|e nhs]; [by rewrite decide_True|]. cbn.
  rewrite decide_False; [done|]. apply insert_non_empty.
Qed.

Lemma lpm_fmap {A B} (g : A -> B) (f : Name -> option A) n :
  g <$> lpm f n = lpm (fun m => g <$> f m) n.
Proof.
  unfold lpm. generalize (length n) as k. induction k as [|k IH]; cbn [lpm_upto]; by destruct (f _).
Qed.

Lemma lpm_ext {A} (f g : Name -> option A) n : (forall m, f m = g m) -> lpm f n = lpm g n.
Proof. intros Hfg. apply lpm_upto_ext. auto. Qed.

Lemma at_name_ext {A} n v (f g : Name -> A) m : f m = g m -> at_name n v f m = at_name n v g m.
Proof. unfold at_name. by case_decide. Qed.

Lemma at_name_same {A} n (f : Name -> A) m : at_name n (f n) f m = f m.
Proof. unfold at_name. by case_decide; subst. Qed.

Lemma at_name_map {A B} (g : A -> B) n v (f : Name -> A) (f' : Name -> B) m v' :
  g v = v' -> g (f m) = f' m -> g (at_name n v f m) = at_name n v' f' m.
Proof. unfold at_name. intros. by case_decide. Qed.

Section simulation.
Context {F : Type} `{FibStrategyLaws F}.

Definition simulates (f : F) (s : fib_spec) : Prop :=
  fib_ok f /\ (forall n, hops_map (fib_nh f n) = sp_nh s n) /\ (forall n, fib_st f n = sp_st s n).

Lemma simulates_op f s o : simulates f s -> fib_dom (op_name o) ->
  simulates (run_op f o) (spec_op fib_nil_clears s o).
Proof.
  intros (Hok & Hnh & Hst) Hd. destruct o as [n h c|n|n h|n st|n]; cbn in *.
  - destruct (InsertNextHop_spec f n h c Hok Hd) as (? & E1 & E2). split_and!; [done| |]; intros m; cbn.
    + rewrite E1. apply at_name_map; [|done]. rewrite hops_map_upsert by (by apply fib_hops_ok).
      by rewrite Hnh.
    + by rewrite E2.
  - destruct (ClearNextHops_spec f n Hok Hd) as (? & E1 & E2).
    destruct n as [n|]; [|revert E1; destruct fib_nil_clears; intros E1];
      (split_and!; [done| |]; intros m; cbn; [rewrite E1|by rewrite E2]).
    + by apply at_name_map.
    + by apply at_name_map.
    + done.
  - destruct (RemoveNextHop_spec f n h Hok Hd) as (? & E1 & E2). split_and!; [done| |]; intros m; cbn; [|by rewrite E2].
    erewrite hops_map_perm; [|..|apply E1].
    + apply at_name_map; [|done]. rewrite hops_map_filter by (by apply fib_hops_ok). by rewrite Hnh.
    + unfold at_name. case_decide; [apply hops_ok_filter|]; by apply fib_hops_ok.
  - destruct (SetStrategy_spec f n st Hok Hd) as (? & E1 & E2). split_and!; [done| |]; intros m; cbn.
    + by rewrite E1.
    + rewrite E2. by apply at_name_ext.
  - destruct (UnSetStrategy_spec f n Hok Hd) as (? & E1 & E2). split_and!; [done| |]; intros m; cbn.
    + by rewrite E1.
    + rewrite E2. by apply at_name_ext.
Qed.

Lemma simulates_run os : forall f s, simulates f s -> Forall (fun o => fib_dom (op_name o)) os ->
  simulates (run f os) (spec_run fib_nil_clears s os).
Proof.
  unfold run, spec_run. induction os as [|o os IH]; intros f s Hs Hd; [done|]. cbn.
  apply Forall_cons in Hd as [Ho Hd]. apply IH; [|done]. by apply simulates_op.
Qed.

(** What a client sees of a table that simulates an abstract one. *)
Definition observes (f : F) (s : fib_spec) : Prop :=
  (forall n, fib_dom n ->
    hops_map (FindNextHopsEnc f n) = default ∅ (lpm (fun m => nonempty_map (sp_nh s m)) n) /\
    NoDup (Nexthop <$> FindNextHopsEnc f n) /\
    FindStrategyEnc f n = lpm (sp_st s) n) /\
  NoDup (GetAllFIBEntries f).*1.*1 /\
  (forall n m, (exists nhs st, (n, nhs, st) ∈ GetAllFIBEntries f /\ hops_map nhs = m) <->
    exists n', n = Some n' /\ m = sp_nh s n' /\ m <> ∅) /\
  NoDup (GetAllForwardingStrategies f).*1.*1 /\
  (forall n st, (exists nhs, (n, nhs, st) ∈ GetAllForwardingStrategies f) <->
    exists n', n = Some n' /\ st = sp_st s n' /\ st <> None).

Lemma simulates_observes f s : simulates f s -> observes f s.
Proof.
  intros (Hok & Hnh & Hst). unfold observes. split_and!.
  - intros n Hd. rewrite FindNextHops_lpm, FindStrategy_lpm by done. split_and!.
    + rewrite <- (lpm_ext (fun m => hops_map <$> nonempty (fib_nh f m)))
        by (intros; by rewrite hops_map_nonempty, Hnh).
      rewrite <- lpm_fmap. by destruct (lpm _ n).
    + pose proof (lpm_spec (fun m => nonempty (fib_nh f m)) n) as Hl. destruct (lpm _ n) as [l|]; cbn.
      * destruct Hl as (p & _ & [-> _]%nonempty_Some & _). by apply fib_hops_ok.
      * apply NoDup_nil_2.
    + by apply lpm_ext.
  - by apply GetAllFIBEntries_spec.
  - intros n m. split.
    + intros (nhs & st & Hin & <-). apply GetAllFIBEntries_spec in Hin as (n' & -> & -> & -> & Hne); [|done].
      exists n'. rewrite Hnh. split_and!; try done. rewrite <- Hnh. intros E.
      pose proof (hops_map_nonempty (fib_nh f n')) as Hx. unfold nonempty_map in Hx.
      rewrite E, decide_True in Hx by done. by destruct (fib_nh f n').
    + intros (n' & -> & -> & Hne). exists (fib_nh f n'), (fib_st f n'). split; [|by rewrite Hnh].
      apply GetAllFIBEntries_spec; [done|]. exists n'. split_and!; try done. intros E. apply Hne.
      by rewrite <- Hnh, E.
  - by apply GetAllForwardingStrategies_spec.
  - intros n st. split.
    + intros (nhs & Hin). apply GetAllForwardingStrategies_spec in Hin as (n' & -> & _ & -> & Hne); [|done].
      exists n'. by rewrite Hst in *.
    + intros (n' & -> & -> & Hne). exists (fib_nh f n').
      apply GetAllForwardingStrategies_spec; [done|]. exists n'. by rewrite Hst.
Qed.

End simulation.

(** ** An example table *)

Definition best_route : Name := [gc "localhost"; gc "nfd"; gc "strategy"; gc "best-route"; gc "v=1"].

Definition ex_ops : list fib_op :=
  [OpInsert [gc "a"] 1 10; OpInsert [gc "a"; gc "b"; gc "c"] 2 20;
   OpInsert [gc "a"] 3 5; OpSet [gc "a"; gc "b"] [gc "multicast"];
   OpInsert [gc "a"] 1 7; OpRemove [gc "a"; gc "b"; gc "c"] 2].
