(* ===== verification/FibTree.v ===== *)
(** * The name-tree FIB (table/fib-strategy-tree.go)

    A [fibStrategyTreeEntry] is an arena node (its component, depth, parent and
    children) with the data of [baseFibStrategyEntry].  [fibPrefixes] is the map
    that the code maintains next to the tree.  The mutex is not modelled: every
    exported operation holds it from beginning to end.  Next hops are values:
    the slices the lookups return are read before the next update. *)
From S2P Require Import Prelude.
From S2P Require Import Enc.
From S2P Require Import NameTree.
From S2P Require Import Arena.
From S2P Require Import FibSpec.

(** The fields of [baseFibStrategyEntry] besides the component. *)
Record fib_data := mkData {
  name : goname;
  nexthops : list FibNextHopEntry;
  strategy : goname }.

Definition fibStrategyTreeEntry : Type := node fib_data.

Record FibStrategyTree := mkTree {
  tree : arena fib_data;
  fibPrefixes : gmap Z nat }.

Section ops.
Context `{EncOps}.

Definition set_nexthops (l : list FibNextHopEntry) (d : fib_data) : fib_data :=
  mkData (name d) l (strategy d).
Definition set_strategy (s : goname) (d : fib_data) : fib_data :=
  mkData (name d) (nexthops d) s.
Definition set_name (n : goname) (d : fib_data) : fib_data :=
  mkData n (nexthops d) (strategy d).

Definition on_tree (g : arena fib_data -> arena fib_data) (T : FibStrategyTree) : FibStrategyTree :=
  mkTree (g (tree T)) (fibPrefixes T).
Definition on_entry (i : nat) (g : fib_data -> fib_data) : FibStrategyTree -> FibStrategyTree :=
  on_tree (fun A => upd_data A i g).
Definition set_prefixes (p : gmap Z nat) (T : FibStrategyTree) : FibStrategyTree := mkTree (tree T) p.

(** [newFibStrategyTableTree]; [base] is the parsed default strategy name. *)
Definition newFibStrategyTableTree (base : goname) : FibStrategyTree :=
  mkTree (new_arena zero_component (mkData (Some []) [] base)) ∅.

(** The first child whose component equals that of [n] at the child's depth. *)
Definition matching_child (A : arena fib_data) (f : fibStrategyTreeEntry) (n : Name) : option nat :=
  List.find (fun c =>
    match nodes A !! c with
    | Some ch => Component_Equal (At n (Z.of_nat (depth ch) - 1)) (component ch)
    | None => false
    end) (children f).

Definition findExactMatchEntryEnc : nat -> arena fib_data -> nat -> Name -> option nat :=
  search_exact matching_child.
Definition findLongestPrefixEntryEnc : nat -> arena fib_data -> nat -> Name -> nat :=
  search_longest matching_child.

Definition find_exact (T : FibStrategyTree) (n : Name) : option nat :=
  findExactMatchEntryEnc (S (length n)) (tree T) 0 n.
Definition find_longest (T : FibStrategyTree) (n : Name) : nat :=
  findLongestPrefixEntryEnc (S (length n)) (tree T) 0 n.

Definition fillTreeToPrefixEnc (T : FibStrategyTree) (n : Name) : FibStrategyTree * nat :=
  let '(A, i) := fill matching_child (tree T) n (mkData None [] None) in
  (mkTree A (fibPrefixes T), i).

(** [pruneIfEmpty]: the loop walks to the root while nodes are empty, but what
    it removes from the children of each parent is always [f], the node it
    started from. *)
Fixpoint prune_loop (fuel : nat) (A : arena fib_data) (cur f : nat) : arena fib_data :=
  match fuel, nodes A !! cur with
  | S fuel', Some n =>
      match parent n, children n, nexthops (data n), strategy (data n) with
      | Some p, [], [], None =>
          prune_loop fuel' (upd A p (fun q => set_children (remove_child f (children q)) q)) p f
      | _, _, _, _ => A
      end
  | _, _ => A
  end.

Definition pruneIfEmpty (T : FibStrategyTree) (f : nat) : FibStrategyTree :=
  on_tree (fun A => prune_loop (S (depth_of A f)) A f f) T.

(** ** The exported operations *)

Definition FindNextHops (T : FibStrategyTree) (n : Name) : list FibNextHopEntry :=
  default [] (climb_from (tree T) (fun d => nonempty (nexthops d)) (find_longest T n)).

Definition FindStrategy (T : FibStrategyTree) (n : Name) : goname :=
  climb_from (tree T) strategy (find_longest T n).

Definition name_if_nil (n : goname) (d : fib_data) : fib_data :=
  match name d with None => set_name n d | Some _ => d end.

Definition InsertNextHop (T : FibStrategyTree) (n : goname) (nexthop cost : Z) : FibStrategyTree :=
  let '(T1, entry) := fillTreeToPrefixEnc T (nm n) in
  let T2 := on_entry entry (name_if_nil n) T1 in
  match data_of (tree T2) entry with
  | None => T2
  | Some d =>
      let '(nhs, updated) := update_hop (nexthops d) nexthop cost in
      if updated then on_entry entry (set_nexthops nhs) T2
      else
        set_prefixes (<[Name_Hash (nm n) := entry]> (fibPrefixes T2))
          (on_entry entry (set_nexthops (nhs ++ [mkNextHop nexthop cost])) T2)
  end.

Definition ClearNextHops (T : FibStrategyTree) (n : goname) : FibStrategyTree :=
  match n with
  | None => T
  | Some n =>
      match find_exact T n with
      | Some i => on_entry i (set_nexthops []) T
      | None => T
      end
  end.

(** The loop of [RemoveNextHopEnc]: drop the first entry for the next hop. *)
Fixpoint remove_hop (nhs : list FibNextHopEntry) (h : Z) : list FibNextHopEntry :=
  match nhs with
  | [] => []
  | e :: nhs' => if (Nexthop e =? h)%Z then nhs' else e :: remove_hop nhs' h
  end.

Definition RemoveNextHop (T : FibStrategyTree) (n : Name) (nexthop : Z) : FibStrategyTree :=
  match find_exact T n with
  | None => T
  | Some i =>
      let nhs := from_option nexthops [] (data_of (tree T) i) in
      let nhs' := remove_hop nhs nexthop in
      let T1 := on_entry i (set_nexthops nhs') T in
      let T2 := match nhs' with
                | [] => set_prefixes (delete (Name_Hash n) (fibPrefixes T1)) T1
                | _ => T1
                end in
      pruneIfEmpty T2 i
  end.

Definition SetStrategy (T : FibStrategyTree) (n : goname) (s : goname) : FibStrategyTree :=
  let '(T1, entry) := fillTreeToPrefixEnc T (nm n) in
  on_entry entry (set_strategy s) (on_entry entry (name_if_nil n) T1).

Definition UnSetStrategy (T : FibStrategyTree) (n : Name) : FibStrategyTree :=
  match find_exact T n with
  | None => T
  | Some i => pruneIfEmpty (on_entry i (set_strategy None) T) i
  end.

Definition entries (T : FibStrategyTree) (keep : fib_data -> bool) : list fib_entry :=
  omap (fun i => data_of (tree T) i ≫= fun d =>
    if keep d then Some (name d, nexthops d, strategy d) else None)
    (visit_all (tree T)).

Definition AllFIBEntries (T : FibStrategyTree) : list fib_entry :=
  entries T (fun d => negb (length (nexthops d) =? 0)).
Definition AllForwardingStrategies (T : FibStrategyTree) : list fib_entry :=
  entries T (fun d => bool_decide (strategy d <> None)).

End ops.

#[export] Instance FibTree_ops `{EncOps} : FibStrategy FibStrategyTree := {
  FindNextHopsEnc := FindNextHops;
  FindStrategyEnc := FindStrategy;
  InsertNextHopEnc := InsertNextHop;
  ClearNextHopsEnc := ClearNextHops;
  RemoveNextHopEnc := RemoveNextHop;
  GetAllFIBEntries := AllFIBEntries;
  SetStrategyEnc := SetStrategy;
  UnSetStrategyEnc := UnSetStrategy;
  GetAllForwardingStrategies := AllForwardingStrategies }.

(** ** Invariant and denotation *)

Section laws.
Context `{EncLaws}.

Definition used (_ : Component) : Prop := True.

(** What is found at a name. *)
Definition view_at (T : FibStrategyTree) (n : Name) : option fib_data := view (tree T) n.
Definition nh_at (T : FibStrategyTree) (n : Name) : list FibNextHopEntry :=
  from_option nexthops [] (view_at T n).
Definition st_at (T : FibStrategyTree) (n : Name) : goname := view_at T n ≫= strategy.

(** The contents: one entry per next hop, and names in the right place. *)
Definition info_ok (n : Name) (d : fib_data) : Prop :=
  hops_ok (nexthops d) /\ (name d = None \/ name d = Some n) /\
  (nexthops d <> [] \/ strategy d <> None \/ n = [] -> name d = Some n).

Record tree_ok (T : FibStrategyTree) : Prop := {
  ok_struct : struct_ok used (tree T);
  ok_info : forall n d, view_at T n = Some d -> info_ok n d }.

Lemma Forall_used n : Forall used n.
Proof. by apply Forall_forall. Qed.

Lemma matching_child_ok : step_ok used matching_child.
Proof.
  intros A i f n c Hs _ Hf Hn.
  apply (find_child_kids used (fun ch => Component_Equal (At n (Z.of_nat (depth ch) - 1)) (component ch)));
    [done|..].
  - intros j ch Hj Hch. destruct (ok_child used A Hs i f j Hf Hj) as (ch' & Hch' & _ & Hd).
    assert (ch' = ch) by congruence. subst ch'.
    replace (Z.of_nat (depth ch) - 1)%Z with (Z.of_nat (depth f)) by lia.
    rewrite (At_in_range _ _ _ Hn), Component_Equal_spec. apply bool_decide_ext; split; congruence.
  - intros j Hj. destruct (ok_child used A Hs i f j Hf Hj) as (ch & -> & _). by eexists.
Qed.

Lemma find_exact_spec T n : tree_ok T -> find_exact T n = walk (kids (tree T)) 0 n.
Proof. intros [Hs _]. apply (search_exact_spec used); auto using matching_child_ok, Forall_used. Qed.

Lemma find_climb_spec {A} T (test : fib_data -> option A) n : tree_ok T ->
  climb_from (tree T) test (find_longest T n) = lpm (fun m => view_at T m ≫= test) n.
Proof. intros [Hs _]. apply (climb_from_spec used); auto using matching_child_ok, Forall_used. Qed.

(** Tables that show the same next hops and strategies everywhere. *)
Definition same_view (T T' : FibStrategyTree) : Prop :=
  forall m, nh_at T' m = nh_at T m /\ st_at T' m = st_at T m.

Lemma view_nh_st T T' m : view_at T' m = view_at T m -> nh_at T' m = nh_at T m /\ st_at T' m = st_at T m.
Proof. unfold nh_at, st_at. by intros ->. Qed.

Lemma set_prefixes_ok T p : tree_ok T -> tree_ok (set_prefixes p T).
Proof. intros [? ?]. by split. Qed.

(** *** Writing an entry *)

Lemma on_entry_spec T n i d g : tree_ok T -> walk (kids (tree T)) 0 n = Some i ->
  view_at T n = Some d -> info_ok n (g d) ->
  let T' := on_entry i g T in
  tree_ok T' /\ walk (kids (tree T')) 0 n = Some i /\ view_at T' n = Some (g d) /\
  (forall m, nh_at T' m = at_name n (nexthops (g d)) (nh_at T) m) /\
  (forall m, st_at T' m = at_name n (strategy (g d)) (st_at T) m).
Proof.
  intros [Hs Hi] Hw Hd Hg T'. destruct (upd_data_spec used (tree T) i g n Hs Hw) as (Hs' & Hw' & Hv).
  assert (HV : forall m, view_at T' m = if decide (m = n) then Some (g d) else view_at T m).
  { intros m. unfold view_at in *. etrans; [apply Hv|]. by rewrite Hd. }
  split_and!.
  - split; [done|]. intros m x. rewrite HV. case_decide as Hm; [intros [= <-]; by subst|apply Hi].
  - etrans; [apply Hw'|done].
  - rewrite HV. by rewrite decide_True.
  - intros m. unfold nh_at, at_name. rewrite HV. by case_decide.
  - intros m. unfold st_at, at_name. rewrite HV. by case_decide.
Qed.

Lemma view_at_nh_st T n d : view_at T n = Some d -> nh_at T n = nexthops d /\ st_at T n = strategy d.
Proof. unfold nh_at, st_at. by intros ->. Qed.

Lemma walk_view_at T n i : tree_ok T -> walk (kids (tree T)) 0 n = Some i ->
  exists d, view_at T n = Some d /\ data_of (tree T) i = Some d /\ info_ok n d.
Proof.
  intros [Hs Hi] Hw. destruct (walk_view used (tree T) n i Hs Hw) as [d Hd]. exists d.
  split_and!; [done| |by apply Hi]. rewrite <- Hd. symmetry. by apply view_walk.
Qed.

(** *** fillTreeToPrefixEnc and the naming of the entry *)

Lemma fill_ok T n : tree_ok T ->
  let '(T', i) := fillTreeToPrefixEnc T n in
  tree_ok T' /\ walk (kids (tree T')) 0 n = Some i /\ same_view T T'.
Proof.
  intros [Hs Hi]. unfold fillTreeToPrefixEnc.
  pose proof (fill_spec used matching_child (tree T) n (mkData None [] None) matching_child_ok Hs (Forall_used n)) as Hf.
  destruct (fill matching_child (tree T) n (mkData None [] None)) as [A i]. destruct Hf as (Hs' & Hw & _ & Hv).
  split_and!; [|done|].
  - split; [done|]. intros m d. unfold view_at. cbn [tree]. rewrite Hv. unfold grown.
    destruct (view (tree T) m) as [d'|] eqn:E; [intros [= <-]; by apply Hi|]. case_decide; [|done].
    intros [= <-]. split_and!; [apply hops_ok_nil|by left|].
    intros [Hx|[Hx|Hx]]; [done..|]. subst m. exfalso.
    destruct (walk_view used (tree T) [] 0 Hs eq_refl). congruence.
  - intros m. unfold nh_at, st_at, view_at. cbn [tree]. rewrite Hv. unfold grown.
    destruct (view (tree T) m); [done|]. by case_decide.
Qed.

(** [if entry.name == nil { entry.name = name }]: the entry is named after. *)
Lemma name_if_nil_ok n k d : nm k = n -> info_ok n d ->
  name (name_if_nil k d) = Some n /\ info_ok n (name_if_nil k d).
Proof.
  intros <- (Hh & Hn & Hs). assert (Hk : name (name_if_nil k d) = Some (nm k)).
  { unfold name_if_nil. destruct k as [k|]; [destruct Hn as [Hn|Hn]; rewrite Hn; [done|by rewrite Hn]|].
    rewrite Hs by auto. by rewrite Hs by auto. }
  split; [done|]. split_and!; [|by right|done]. unfold name_if_nil. by destruct (name d).
Qed.

Lemma name_if_nil_data k d :
  nexthops (name_if_nil k d) = nexthops d /\ strategy (name_if_nil k d) = strategy d.
Proof. unfold name_if_nil. by destruct (name d). Qed.

Lemma fill_name_spec T n : tree_ok T ->
  let '(T1, i) := fillTreeToPrefixEnc T (nm n) in
  let T2 := on_entry i (name_if_nil n) T1 in
  exists d, data_of (tree T2) i = Some d /\ view_at T2 (nm n) = Some d /\ name d = Some (nm n) /\
    tree_ok T2 /\ walk (kids (tree T2)) 0 (nm n) = Some i /\ same_view T T2.
Proof.
  intros Hok. pose proof (fill_ok T (nm n) Hok) as Hfill.
  destruct (fillTreeToPrefixEnc T (nm n)) as [T1 i]. destruct Hfill as (Hok1 & Hw1 & Hv1).
  destruct (walk_view_at T1 (nm n) i Hok1 Hw1) as (d & Hd & _ & Hi).
  destruct (name_if_nil_ok (nm n) n d eq_refl Hi) as [Hname Hi'].
  destruct (on_entry_spec T1 (nm n) i d (name_if_nil n) Hok1 Hw1 Hd Hi') as (Hok2 & Hw2 & Hd2 & Hnh & Hst).
  destruct (walk_view_at _ _ _ Hok2 Hw2) as (d2 & Hd2' & Hx & _). assert (d2 = name_if_nil n d) by congruence. subst d2.
  destruct (name_if_nil_data n d) as [E1 E2]. destruct (view_at_nh_st T1 (nm n) d Hd) as [E3 E4].
  exists (name_if_nil n d). split_and!; try done. intros m.
  rewrite Hnh, Hst, E1, E2, <- E3, <- E4, !at_name_same. apply Hv1.
Qed.

(** *** pruneIfEmpty *)

(** Once [j] is unlinked the rest of the loop removes nothing. *)
Lemma prune_loop_id fuel (A : arena fib_data) cur j :
  (forall i f, nodes A !! i = Some f -> j ∉ children f) -> prune_loop fuel A cur j = A.
Proof.
  intros Hj. revert cur. induction fuel as [|fuel IH]; intros cur; [done|]. cbn.
  destruct (nodes A !! cur) as [n|]; [|done]. destruct (parent n) as [p|]; [|done].
  destruct (children n); [|done]. destruct (nexthops (data n)); [|done]. destruct (strategy (data n)); [done|].
  replace (upd A p _) with A; [apply IH|]. symmetry. unfold upd. clear IH. destruct A as [N x]. cbn in *. f_equal.
  apply map_eq. intros i. destruct (decide (p = i)) as [->|]; [|by rewrite lookup_alter_ne].
  rewrite lookup_alter_eq. destruct (N !! i) as [f|] eqn:E; [|done]. cbn. f_equal.
  rewrite (remove_child_id j (children f)) by eauto. by destruct f.
Qed.

(** The entry of [n] goes if it is an empty leaf below the root; nothing else
    does. *)
Lemma prune_spec T n i : tree_ok T -> walk (kids (tree T)) 0 n = Some i ->
  let T' := pruneIfEmpty T i in tree_ok T' /\ same_view T T'.
Proof.
  intros Hok Hw. pose proof Hok as [Hs Hi]. unfold pruneIfEmpty, on_tree. cbn [prune_loop].
  destruct (walk_node used (tree T) n i Hs Hw) as (f & Hf & Hd). rewrite Hf.
  assert (Hstay : tree_ok (mkTree (tree T) (fibPrefixes T)) /\ same_view T (mkTree (tree T) (fibPrefixes T)))
    by (by destruct T).
  destruct (parent f) as [p|] eqn:Ep; [|done]. destruct (children f) eqn:Ec; [|done].
  destruct (nexthops (data f)) eqn:En; [|done]. destruct (strategy (data f)) eqn:Est; [done|]. clear Hstay.
  assert (Ep' : parent_of (tree T) i = Some p) by (unfold parent_of; by rewrite Hf).
  assert (Ec' : children_of (tree T) i = []) by (unfold children_of; by rewrite Hf).
  rewrite prune_loop_id by apply (unlinked_gone used _ _ _ Hs Ep').
  assert (Hv : forall m, view (unlinked (tree T) i p) m = if decide (m = n) then None else view (tree T) m).
  { intros m. rewrite (unlinked_view used) by done. repeat case_decide; subst; try done.
    match goal with Hne : m <> n |- _ => destruct Hne end. by apply (walk_inj (tree_trie used (tree T) Hs) m n i). }
  assert (Hn : view_at T n = Some (data f)).
  { unfold view_at. rewrite (view_walk _ _ i Hw). unfold data_of. by rewrite Hf. }
  split.
  - split; [by apply unlinked_struct|]. intros m d. unfold view_at. cbn [tree].
    fold (unlinked (tree T) i p). rewrite Hv. case_decide; [done|apply Hi].
  - intros m. unfold nh_at, st_at, view_at. cbn [tree]. fold (unlinked (tree T) i p). rewrite Hv.
    case_decide as Hm; [|done]. subst m. unfold view_at in Hn. rewrite Hn. cbn. by rewrite En, Est.
Qed.

(** *** The exported operations *)

Lemma InsertNextHop_ok T n h c : tree_ok T ->
  let T' := InsertNextHop T n h c in
  tree_ok T' /\
  (forall m, nh_at T' m = at_name (nm n) (upsert_hop (nh_at T (nm n)) h c) (nh_at T) m) /\
  (forall m, st_at T' m = st_at T m).
Proof.
  intros Hok. unfold InsertNextHop. pose proof (fill_name_spec T n Hok) as Hfill.
  destruct (fillTreeToPrefixEnc T (nm n)) as [T1 i].
  destruct Hfill as (d & Hx & Hd & Hname & Hok2 & Hw & Hv). set (T2 := on_entry i _ T1) in *. rewrite Hx.
  destruct (view_at_nh_st T2 (nm n) d Hd) as [E1 E2].
  assert (Hup : forall l, hops_ok l ->
    let T' := on_entry i (set_nexthops l) T2 in
    tree_ok T' /\ (forall m, nh_at T' m = at_name (nm n) l (nh_at T) m) /\
    (forall m, st_at T' m = st_at T m)).
  { intros l Hl. destruct (on_entry_spec T2 (nm n) i d (set_nexthops l) Hok2 Hw Hd) as (? & _ & _ & Hnh & Hst).
    - split_and!; [done|by right|done].
    - split_and!; [done| |]; intros m.
      + rewrite Hnh. apply at_name_ext, Hv.
      + rewrite Hst. cbn. rewrite <- E2, at_name_same. apply Hv. }
  assert (Hnh : nexthops d = nh_at T (nm n)) by (rewrite <- E1; apply Hv).
  assert (Hl : hops_ok (upsert_hop (nexthops d) h c)) by (apply upsert_hops_ok; by apply (ok_info T2 Hok2 (nm n))).
  specialize (Hup _ Hl). rewrite <- Hnh. unfold upsert_hop in *.
  destruct (update_hop (nexthops d) h c) as [r []]; [exact Hup|].
  split_and!; [apply set_prefixes_ok|..]; apply Hup.
Qed.

Lemma SetStrategy_ok T n s : tree_ok T ->
  let T' := SetStrategy T n (Some s) in
  tree_ok T' /\ (forall m, nh_at T' m = nh_at T m) /\
  (forall m, st_at T' m = at_name (nm n) (Some s) (st_at T) m).
Proof.
  intros Hok. unfold SetStrategy. pose proof (fill_name_spec T n Hok) as Hfill.
  destruct (fillTreeToPrefixEnc T (nm n)) as [T1 i].
  destruct Hfill as (d & Hx & Hd & Hname & Hok2 & Hw & Hv). set (T2 := on_entry i _ T1) in *.
  destruct (view_at_nh_st T2 (nm n) d Hd) as [E1 E2].
  destruct (on_entry_spec T2 (nm n) i d (set_strategy (Some s)) Hok2 Hw Hd) as (? & _ & _ & Hnh & Hst).
  - split_and!; [|by right|done]. by apply (ok_info T2 Hok2 (nm n) d).
  - split_and!; [done| |]; intros m.
    + rewrite Hnh. cbn. rewrite <- E1, at_name_same. apply Hv.
    + rewrite Hst. cbn. apply at_name_ext, Hv.
Qed.

Lemma find_exact_Some T n i : tree_ok T -> find_exact T n = Some i ->
  walk (kids (tree T)) 0 n = Some i /\
  exists d, view_at T n = Some d /\ data_of (tree T) i = Some d /\ info_ok n d /\
    nh_at T n = nexthops d /\ st_at T n = strategy d.
Proof.
  intros Hok Hex. rewrite find_exact_spec in Hex by done. split; [done|].
  destruct (walk_view_at T n i Hok Hex) as (d & Hd & Hx & Hi). exists d.
  destruct (view_at_nh_st T n d Hd). by split_and!.
Qed.

Lemma find_exact_None T n : tree_ok T -> find_exact T n = None -> nh_at T n = [] /\ st_at T n = None.
Proof.
  intros Hok Hw. rewrite find_exact_spec in Hw by done. unfold nh_at, st_at, view_at, view, node_at.
  by rewrite Hw.
Qed.

Lemma ClearNextHops_ok T n : tree_ok T ->
  let T' := ClearNextHops T n in
  tree_ok T' /\
  (forall m, nh_at T' m = match n with Some n => at_name n [] (nh_at T) m | None => nh_at T m end) /\
  (forall m, st_at T' m = st_at T m).
Proof.
  intros Hok. destruct n as [n|]; [|done]. cbn [ClearNextHops]. destruct (find_exact T n) as [i|] eqn:E.
  - destruct (find_exact_Some T n i Hok E) as (Hw & d & Hd & _ & (_ & Hb & Hc) & E1 & E2).
    destruct (on_entry_spec T n i d (set_nexthops []) Hok Hw Hd) as (Hok' & _ & _ & Hnh & Hst).
    { split_and!; [apply hops_ok_nil|done|]. intros [Hx|Hx]; [done|]. apply Hc. by right. }
    split_and!; [done..|]. intros m. rewrite Hst. cbn. by rewrite <- E2, at_name_same.
  - destruct (find_exact_None T n Hok E) as [E1 E2]. split_and!; [done| |done].
    intros m. by rewrite <- E1, at_name_same.
Qed.

Lemma remove_hop_filter l h : hops_ok l -> remove_hop l h = filter (fun e => Nexthop e <> h) l.
Proof.
  unfold hops_ok. induction l as [|e l IH]; [done|]. rewrite fmap_cons. intros [He Hn]%NoDup_cons.
  cbn [remove_hop]. rewrite filter_cons. destruct (Z.eqb_spec (Nexthop e) h) as [<-|Hne].
  - rewrite decide_False by (intros Hx; by apply Hx). symmetry. apply filter_all.
    apply Forall_forall. intros x Hx Hxe. apply He. rewrite <- Hxe. by apply list_elem_of_fmap_2.
  - rewrite decide_True by done. by rewrite IH.
Qed.

Lemma RemoveNextHop_ok T n h : tree_ok T ->
  let T' := RemoveNextHop T n h in
  tree_ok T' /\
  (forall m, nh_at T' m = at_name n (filter (fun e => Nexthop e <> h) (nh_at T n)) (nh_at T) m) /\
  (forall m, st_at T' m = st_at T m).
Proof.
  intros Hok. unfold RemoveNextHop. destruct (find_exact T n) as [i|] eqn:E.
  - destruct (find_exact_Some T n i Hok E) as (Hw & d & Hd & Hx & (Ha & Hb & Hc) & E1 & E2).
    rewrite Hx. cbn [from_option].
    destruct (on_entry_spec T n i d (set_nexthops (remove_hop (nexthops d) h)) Hok Hw Hd)
      as (Hok1 & Hw1 & _ & Hnh & Hst).
    { rewrite remove_hop_filter by done. split_and!; [by apply hops_ok_filter|done|].
      cbn. intros [Hx'|Hx']; apply Hc; [left|by right]. intros Hy. by rewrite Hy in Hx'. }
    set (T1 := on_entry i _ T) in *.
    match goal with |- context [pruneIfEmpty ?T2 i] => set (T2' := T2) end.
    assert (H2 : tree_ok T2' /\ walk (kids (tree T2')) 0 n = Some i /\ same_view T1 T2').
    { unfold T2'. destruct (remove_hop (nexthops d) h); [|done]. split; [by apply set_prefixes_ok|done]. }
    destruct H2 as (Hok2 & Hw2 & Hv2). destruct (prune_spec T2' n i Hok2 Hw2) as [Hok3 Hv3].
    split_and!; [done| |]; intros m; destruct (Hv3 m) as [E3 E4]; destruct (Hv2 m) as [E5 E6].
    + rewrite E3, E5, Hnh. cbn. rewrite remove_hop_filter by done. by rewrite E1.
    + rewrite E4, E6, Hst. cbn. by rewrite <- E2, at_name_same.
  - destruct (find_exact_None T n Hok E) as [E1 E2]. split_and!; [done| |done].
    intros m. rewrite E1. unfold at_name. case_decide; by subst.
Qed.

Lemma UnSetStrategy_ok T n : tree_ok T ->
  let T' := UnSetStrategy T n in
  tree_ok T' /\ (forall m, nh_at T' m = nh_at T m) /\
  (forall m, st_at T' m = at_name n None (st_at T) m).
Proof.
  intros Hok. unfold UnSetStrategy. destruct (find_exact T n) as [i|] eqn:E.
  - destruct (find_exact_Some T n i Hok E) as (Hw & d & Hd & _ & (Ha & Hb & Hc) & E1 & E2).
    destruct (on_entry_spec T n i d (set_strategy None) Hok Hw Hd) as (Hok' & Hw' & _ & Hnh & Hst).
    { split_and!; [done|done|]. intros [Hx|[Hx|Hx]]; apply Hc; [by left|done|by do 2 right]. }
    destruct (prune_spec _ n i Hok' Hw') as [Hok3 Hv3].
    split_and!; [done| |]; intros m; destruct (Hv3 m) as [E3 E4].
    + rewrite E3, Hnh. cbn. by rewrite <- E1, at_name_same.
    + by rewrite E4, Hst.
  - destruct (find_exact_None T n Hok E) as [E1 E2]. split_and!; [done|done|].
    intros m. unfold at_name. case_decide; by subst.
Qed.

(** *** The listings *)

Lemma entries_spec T (keep : fib_data -> bool) : tree_ok T ->
  (forall d n, keep d = true -> info_ok n d -> name d = Some n) ->
  NoDup (entries T keep).*1.*1 /\
  forall e, e ∈ entries T keep <->
    exists n d, view_at T n = Some d /\ keep d = true /\ e = (Some n, nexthops d, strategy d).
Proof.
  intros Hok Hkeep. pose proof (ok_struct T Hok) as Hs. unfold entries.
  destruct (visit_reached used (tree T) Hs) as [Hn Hr].
  assert (Hel : forall i d, i ∈ visit_all (tree T) -> data_of (tree T) i = Some d -> keep d = true ->
    exists n, walk (kids (tree T)) 0 n = Some i /\ view_at T n = Some d /\ name d = Some n).
  { intros i d Hi Hx Hk. apply Hr in Hi as [n Hw]. exists n.
    destruct (walk_view_at T n i Hok Hw) as (d' & ? & ? & ?). assert (d' = d) by congruence. subst. eauto. }
  split.
  - assert (Hsub : forall i, i ∈ visit_all (tree T) -> i ∈ visit_all (tree T)) by done.
    revert Hn Hsub. generalize (visit_all (tree T)) at 1 2 4 as l.
    induction l as [|i l IH]; intros Hnd Hsub; [apply NoDup_nil_2|].
    apply NoDup_cons in Hnd as [Hi Hnd]. specialize (IH Hnd (fun j Hj => Hsub j (list_elem_of_further _ _ _ Hj))).
    cbn [omap list_omap]. destruct (data_of (tree T) i) as [d|] eqn:Ed; cbn; [|done].
    destruct (keep d) eqn:Ek; [|done]. rewrite !fmap_cons. cbn. apply NoDup_cons. split; [|done].
    intros (x & Hx1 & (y & -> & (j & Hj & Hy)%list_elem_of_omap)%list_elem_of_fmap)%list_elem_of_fmap.
    destruct (data_of (tree T) j) as [g|] eqn:Eg; cbn in Hy; [|done]. destruct (keep g) eqn:Ekg; [|done].
    injection Hy as <-. cbn in Hx1.
    destruct (Hel i d) as (n & Hw & _ & Hnm); [apply Hsub; by left|done..|].
    destruct (Hel j g) as (n' & Hw' & _ & Hnm'); [apply Hsub; by right|done..|].
    assert (n = n') by congruence. subst. by replace i with j in Hi by congruence.
  - intros e. rewrite list_elem_of_omap. split.
    + intros (i & Hi & He). destruct (data_of (tree T) i) as [d|] eqn:Ed; cbn in He; [|done].
      destruct (keep d) eqn:Ek; [|done]. injection He as <-.
      destruct (Hel i d Hi Ed Ek) as (n & _ & Hn' & Hnm). exists n, d. by rewrite Hnm.
    + intros (n & d & Hd & Hk & ->). destruct (view_Some used (tree T) n d Hs Hd) as (i & Hw & Hi).
      exists i. split; [apply Hr; by exists n|]. rewrite Hi. cbn. rewrite Hk. f_equal. f_equal. f_equal.
      by apply (Hkeep d n Hk), (ok_info T Hok).
Qed.

Lemma new_ok base : tree_ok (newFibStrategyTableTree base).
Proof.
  destruct (new_arena_spec used zero_component (mkData (Some []) [] base)) as [Hs Hv].
  split; [done|]. intros n d. unfold view_at. cbn [tree newFibStrategyTableTree]. rewrite Hv.
  case_decide as Hn; [|done]. subst n. intros [= <-]. split_and!; [apply hops_ok_nil|by right|done].
Qed.

Lemma new_view base n :
  nh_at (newFibStrategyTableTree base) n = [] /\
  st_at (newFibStrategyTableTree base) n = at_name [] base (fun _ => None) n.
Proof.
  destruct (new_arena_spec used zero_component (mkData (Some []) [] base)) as [Hs Hv].
  unfold nh_at, st_at, view_at, at_name. cbn [tree newFibStrategyTableTree]. rewrite Hv. by repeat case_decide.
Qed.

#[export] Program Instance FibTree_laws : FibStrategyLaws FibStrategyTree := {|
  fib_ok := tree_ok;
  fib_dom := fun _ => True;
  fib_nh := nh_at;
  fib_st := st_at;
  fib_nil_clears := false |}.
Next Obligation. done. Qed.
Next Obligation.
  intros T n Hok. cbn. unfold nh_at. destruct (view_at T n) as [f|] eqn:E; [|apply hops_ok_nil].
  by apply (ok_info T Hok n).
Qed.
Next Obligation.
  intros T n Hok _. cbn. unfold FindNextHops. rewrite find_climb_spec by done. f_equal.
  apply lpm_ext. intros m. unfold nh_at. by destruct (view_at T m).
Qed.
Next Obligation. intros T n Hok _. cbn. unfold FindStrategy. by rewrite find_climb_spec by done. Qed.
Next Obligation. intros T n h c Hok _. by apply (InsertNextHop_ok T (Some n)). Qed.
Next Obligation. intros. by apply ClearNextHops_ok. Qed.
Next Obligation.
  intros T n h Hok _ T'. destruct (RemoveNextHop_ok T n h Hok) as (? & E & ?). split_and!; [done| |done].
  intros m. unfold T'. cbn. by rewrite E.
Qed.
Next Obligation. intros T n s Hok _. by apply (SetStrategy_ok T (Some n)). Qed.
Next Obligation. intros. by apply UnSetStrategy_ok. Qed.
Next Obligation.
  intros T Hok. cbn. destruct (entries_spec T (fun f => negb (length (nexthops f) =? 0)) Hok) as [Hn Hin].
  { intros f n Hk (_ & _ & Hnm). apply Hnm. left. by destruct (nexthops f). }
  split; [done|]. intros n nhs s. unfold AllFIBEntries. rewrite Hin. unfold nh_at, st_at. split.
  - intros (m & f & Hf & Hk & [= -> -> ->]). exists m. rewrite Hf. cbn. split_and!; try done.
    by destruct (nexthops f).
  - intros (m & -> & -> & -> & Hne). destruct (view_at T m) as [f|] eqn:Ef; [|done]. cbn in *.
    exists m, f. split_and!; try done. by destruct (nexthops f).
Qed.
Next Obligation.
  intros T Hok. cbn. destruct (entries_spec T (fun f => bool_decide (strategy f <> None)) Hok) as [Hn Hin].
  { intros f n Hk%bool_decide_eq_true (_ & _ & Hnm). apply Hnm. right. by left. }
  split; [done|]. intros n nhs s. unfold AllForwardingStrategies. rewrite Hin. unfold nh_at, st_at. split.
  - intros (m & f & Hf & Hk%bool_decide_eq_true & [= -> -> ->]). exists m. rewrite Hf. cbn. by split_and!.
  - intros (m & -> & -> & -> & Hne). destruct (view_at T m) as [f|] eqn:Ef; [|done]. cbn in *.
    exists m, f. split_and!; try done. by apply bool_decide_eq_true.
Qed.

End laws.

(** ** Properties *)

Lemma run_observes `{EncLaws} (base : goname) (os : list fib_op) :
  observes (run (newFibStrategyTableTree base) os) (spec_run false (spec_new base) os).
Proof.
  refine (simulates_observes _ _ (simulates_run os (newFibStrategyTableTree base) (spec_new base) _ _)).
  - split_and!; [apply new_ok|..]; intros n; cbn; destruct (new_view base n) as [E1 E2].
    + by rewrite E1.
    + done.
  - by apply Forall_forall.
Qed.

(** C1: The name tree implements the FIB-strategy table: after any sequence of
    insertions, clearings, removals and strategy choices on a new table, every
    lookup is the longest prefix match of the abstract table that executed the
    same sequence, no next hop is listed twice, and the two listings enumerate
    exactly the names with next hops, and with a strategy. *)
Theorem fib_tree_refines `{EncLaws} (base : goname) (os : list fib_op) :
  observes (run (newFibStrategyTableTree base) os) (spec_run false (spec_new base) os).
Proof. apply run_observes. Qed.

Section witness.
#[local] Existing Instance ref_ops.
#[local] Existing Instance ref_laws.

Lemma fib_tree_refines_witness :
  let T := run (newFibStrategyTableTree (Some best_route)) ex_ops in
  FindNextHopsEnc T [gc "a"; gc "b"; gc "c"; gc "d"] = [mkNextHop 1 7; mkNextHop 3 5] /\
  FindStrategyEnc T [gc "a"; gc "b"; gc "c"] = Some [gc "multicast"] /\
  observes T
    (spec_run false (spec_new (Some best_route)) ex_ops).
Proof.
  split; [vm_compute; reflexivity|]. split; [vm_compute; reflexivity|].
  exact (fib_tree_refines (Some best_route) ex_ops).
Defined.

(** [pruneIfEmpty] looks for the node it started from in the children of every
    ancestor, so an ancestor that becomes empty is never unlinked: after the
    only next hop of /a/b/c is removed, the nodes of /a and /a/b remain. *)
Lemma empty_ancestors_remain :
  let T := RemoveNextHop
    (InsertNextHop (newFibStrategyTableTree (Some best_route))
      (Some [gc "a"; gc "b"; gc "c"]) 2 20) [gc "a"; gc "b"; gc "c"] 2 in
  find_exact T [gc "a"; gc "b"; gc "c"] = None /\
  find_exact T [gc "a"; gc "b"] = Some 2 /\ find_exact T [gc "a"] = Some 1 /\
  data_of (tree T) 1 = Some (mkData None [] None) /\ data_of (tree T) 2 = Some (mkData None [] None).
Proof. vm_compute. repeat split. Qed.

End witness.
