(* ===== verification/FibHash.v ===== *)
(** * The hash-table FIB (table/fib-strategy-hashtable.go)

    [realTable] maps the hash of a name to its entry; [virtTable] and
    [virtTableNames] hold, per prefix of length [m], a bound on the length of
    the names below it and the set of those names.  Entries are values: each is
    reachable through one key only.  Ranging over a Go map is a fold whose
    result does not depend on the order. *)
From S2P Require Import Prelude.
From S2P Require Import Enc.
From S2P Require Import NameTree.
From S2P Require Import FibSpec.

Record baseFibStrategyEntry := mkEntry {
  name : goname;
  nexthops : list FibNextHopEntry;
  strategy : goname }.

Record FibStrategyHashTable := mkTable {
  m : nat;
  realTable : gmap Z baseFibStrategyEntry;
  virtTable : gmap Z nat;
  virtTableNames : gmap Z (gmap (list byte) nat) }.

Section ops.
Context `{EncOps}.

Definition set_real (r : gmap Z baseFibStrategyEntry) (f : FibStrategyHashTable) : FibStrategyHashTable :=
  mkTable (m f) r (virtTable f) (virtTableNames f).

(** [prefixHash[k]]. *)
Definition prefix_hash (n : Name) (k : nat) : Z := default 0%Z (Name_PrefixHash n !! k).

Definition newFibStrategyTableHashTable (depth : Z) (defaultStrategy : goname) : FibStrategyHashTable :=
  mkTable (Z.to_nat (u16 depth)) {[Name_Hash [] := mkEntry (Some []) [] defaultStrategy]} ∅ ∅.

(** [for pfx := pfx; ...; pfx--], [rounds] times. *)
Fixpoint scan {A} (test : nat -> option A) (pfx rounds : nat) : option A :=
  match rounds with
  | O => None
  | S r => match test pfx with Some a => Some a | None => scan test (pfx - 1) r end
  end.

Definition findLongestPrefixMatchEnc (f : FibStrategyHashTable) (n : Name) : option baseFibStrategyEntry :=
  let test pfx := realTable f !! prefix_hash n pfx in
  if length n <=? m f then scan test (length n) (S (length n))
  else
    let longer :=
      match virtTable f !! prefix_hash n (m f) with
      | Some md => let pfx := Nat.min md (length n) in scan test pfx (pfx - m f)
      | None => None
      end in
    match longer with
    | Some e => Some e
    | None => scan test (m f) (S (m f))
    end.

(** The virtual tables after a name of length at least [m]. *)
Definition insert_virtual (f : FibStrategyHashTable) (vh : Z) (n : Name) : FibStrategyHashTable :=
  let md := default (length n) (virtTable f !! vh) in
  let names := default ∅ (virtTableNames f !! vh) in
  mkTable (m f) (realTable f) (<[vh := Nat.max md (length n)]> (virtTable f))
    (<[vh := <[Name_Bytes n := length n]> names]> (virtTableNames f)).

Definition insertEntryEnc (f : FibStrategyHashTable) (name : goname) : FibStrategyHashTable * Z :=
  let n := nm name in
  let nameHash := prefix_hash n (length n) in
  let f1 :=
    match realTable f !! nameHash with
    | Some _ => f
    | None => set_real (<[nameHash := mkEntry name [] None]> (realTable f)) f
    end in
  let f2 :=
    if length n =? m f then insert_virtual f1 nameHash n
    else if m f <? length n then insert_virtual f1 (prefix_hash n (m f)) n
    else f1 in
  (f2, nameHash).

(** [pruneTables]; the maximum over the remaining lengths starts from the old
    [md]. *)
Definition pruneTables (f : FibStrategyHashTable) (entry : baseFibStrategyEntry) : FibStrategyHashTable :=
  let n := nm (name entry) in
  let nameHash := prefix_hash n (length n) in
  let nameBytes := Name_Bytes n in
  match nexthops entry, strategy entry with
  | [], None =>
      let f1 := set_real (delete nameHash (realTable f)) f in
      if m f <=? length n then
        let vh := prefix_hash n (m f) in
        let names := virtTableNames f1 !! vh in
        match virtTable f1 !! vh with
        | None => f1
        | Some md =>
            let vtn :=
              match names with
              | Some s =>
                  if decide (is_Some (s !! nameBytes)) then
                    let s' := delete nameBytes s in
                    if decide (s' = ∅) then delete vh (virtTableNames f1)
                    else <[vh := s']> (virtTableNames f1)
                  else virtTableNames f1
              | None => virtTableNames f1
              end in
            let vt :=
              if length n =? md then
                match vtn !! vh with
                | None => delete vh (virtTable f1)
                | Some s => <[vh := map_fold (fun _ l acc => Nat.max acc l) md s]> (virtTable f1)
                end
              else virtTable f1 in
            mkTable (m f1) (realTable f1) vt vtn
        end
      else f1
  | _, _ => f
  end.

Definition back_from (f : FibStrategyHashTable) {A} (test : baseFibStrategyEntry -> option A) (n : Name) : option A :=
  match findLongestPrefixMatchEnc f n with
  | None => None
  | Some entry =>
      let k := length (nm (name entry)) in
      scan (fun pfx => realTable f !! prefix_hash n pfx ≫= test) k (S k)
  end.

Definition FindNextHops (f : FibStrategyHashTable) (n : Name) : list FibNextHopEntry :=
  default [] (back_from f (fun e => nonempty (nexthops e)) n).

Definition FindStrategy (f : FibStrategyHashTable) (n : Name) : goname := back_from f strategy n.

Definition set_nexthops (l : list FibNextHopEntry) (e : baseFibStrategyEntry) : baseFibStrategyEntry :=
  mkEntry (name e) l (strategy e).
Definition set_strategy (s : goname) (e : baseFibStrategyEntry) : baseFibStrategyEntry :=
  mkEntry (name e) (nexthops e) s.

Definition InsertNextHop (f : FibStrategyHashTable) (n : goname) (nexthop cost : Z) : FibStrategyHashTable :=
  let '(f1, h) := insertEntryEnc f n in
  set_real (alter (fun e => set_nexthops (upsert_hop (nexthops e) nexthop cost) e) h (realTable f1)) f1.

Definition ClearNextHops (f : FibStrategyHashTable) (n : goname) : FibStrategyHashTable :=
  let h := Name_Hash (nm n) in
  match realTable f !! h with
  | None => f
  | Some e =>
      let e' := set_nexthops [] e in
      pruneTables (set_real (<[h := e']> (realTable f)) f) e'
  end.

(** Overwrite position [i] with the last element and drop the last. *)
Definition swap_remove {A} (l : list A) (i : nat) : list A :=
  match last l with
  | Some x => take (length l - 1) (<[i := x]> l)
  | None => l
  end.

Definition RemoveNextHop (f : FibStrategyHashTable) (n : Name) (nexthop : Z) : FibStrategyHashTable :=
  let h := Name_Hash n in
  match realTable f !! h with
  | None => f
  | Some e =>
      match list_find (fun nh => Nexthop nh = nexthop) (nexthops e) with
      | None => f
      | Some (i, _) =>
          let e' := set_nexthops (swap_remove (nexthops e) i) e in
          pruneTables (set_real (<[h := e']> (realTable f)) f) e'
      end
  end.

Definition SetStrategy (f : FibStrategyHashTable) (n s : goname) : FibStrategyHashTable :=
  let '(f1, h) := insertEntryEnc f n in
  set_real (alter (set_strategy s) h (realTable f1)) f1.

Definition UnSetStrategy (f : FibStrategyHashTable) (n : Name) : FibStrategyHashTable :=
  let h := Name_Hash n in
  match realTable f !! h with
  | None => f
  | Some e =>
      let e' := set_strategy None e in
      pruneTables (set_real (<[h := e']> (realTable f)) f) e'
  end.

Definition entries (f : FibStrategyHashTable) (keep : baseFibStrategyEntry -> bool) : list fib_entry :=
  omap (fun kv => let e := kv.2 in if keep e then Some (name e, nexthops e, strategy e) else None)
    (map_to_list (realTable f)).

Definition AllFIBEntries (f : FibStrategyHashTable) : list fib_entry :=
  entries f (fun e => negb (length (nexthops e) =? 0)).
Definition AllForwardingStrategies (f : FibStrategyHashTable) : list fib_entry :=
  entries f (fun e => bool_decide (strategy e <> None)).

End ops.

#[export] Instance FibHash_ops `{EncOps} : FibStrategy FibStrategyHashTable := {
  FindNextHopsEnc := FindNextHops;
  FindStrategyEnc := FindStrategy;
  InsertNextHopEnc := InsertNextHop;
  ClearNextHopsEnc := ClearNextHops;
  RemoveNextHopEnc := RemoveNextHop;
  GetAllFIBEntries := AllFIBEntries;
  SetStrategyEnc := SetStrategy;
  UnSetStrategyEnc := UnSetStrategy;
  GetAllForwardingStrategies := AllForwardingStrategies }.

(** ** Invariant and denotation *)

Section laws.
Context `{EncLaws}.

(** A name longer than [m] is registered under its virtual prefix, whose depth
    bounds its length. *)
Definition registered (f : FibStrategyHashTable) (n : Name) : Prop :=
  m f < length n ->
  exists md s, virtTable f !! Name_Hash (take (m f) n) = Some md /\ length n <= md /\
    virtTableNames f !! Name_Hash (take (m f) n) = Some s /\ is_Some (s !! Name_Bytes n).

(** Every entry sits under the hash of its name, which is registered. *)
Record hash_ok (f : FibStrategyHashTable) : Prop := {
  ok_real : forall h e, realTable f !! h = Some e ->
    exists n, name e = Some n /\ universe n /\ h = Name_Hash n /\ hops_ok (nexthops e);
  ok_virt : forall h e, realTable f !! h = Some e -> registered f (nm (name e)) }.

Definition ent_at (f : FibStrategyHashTable) (n : Name) : option baseFibStrategyEntry :=
  e ← realTable f !! Name_Hash n; if decide (name e = Some n) then Some e else None.

Definition nh_at (f : FibStrategyHashTable) (n : Name) : list FibNextHopEntry :=
  from_option nexthops [] (ent_at f n).
Definition st_at (f : FibStrategyHashTable) (n : Name) : goname := ent_at f n ≫= strategy.

Lemma ent_at_Some f n e : ent_at f n = Some e <-> realTable f !! Name_Hash n = Some e /\ name e = Some n.
Proof.
  unfold ent_at. destruct (realTable f !! Name_Hash n) as [e'|]; cbn; [|naive_solver].
  case_decide; naive_solver.
Qed.

Lemma real_ent f n : hash_ok f -> universe n -> realTable f !! Name_Hash n = ent_at f n.
Proof.
  intros Hok Hu. unfold ent_at. destruct (realTable f !! Name_Hash n) as [e|] eqn:E; [|done]. cbn.
  destruct (ok_real f Hok _ _ E) as (n' & Hn' & Hu' & Hh & _).
  apply Name_Hash_inj in Hh; [|done..]. subst. by rewrite decide_True.
Qed.

Lemma prefix_hash_take n k : k <= length n -> prefix_hash n k = Name_Hash (take k n).
Proof. intros Hk. unfold prefix_hash. by rewrite PrefixHash_lookup. Qed.

Lemma prefix_hash_full n : prefix_hash n (length n) = Name_Hash n.
Proof. rewrite prefix_hash_take by lia. by rewrite take_ge by lia. Qed.

(** *** Lookups *)

Lemma scan_lpm {A} (test : nat -> option A) (g : Name -> option A) n hi :
  (forall k, k <= hi -> test k = g (take k n)) -> scan test hi (S hi) = lpm_upto g n hi.
Proof.
  induction hi as [|hi IH]; intros Hg.
  - cbn. rewrite Hg by lia. by destruct (g _).
  - change (scan test (S hi) (S (S hi))) with
      (match test (S hi) with Some a => Some a | None => scan test (S hi - 1) (S hi) end).
    cbn [lpm_upto]. rewrite Hg by lia. destruct (g (take (S hi) n)); [done|].
    replace (S hi - 1) with hi by lia. apply IH. intros; apply Hg; lia.
Qed.

Lemma scan_split {A} (test : nat -> option A) lo hi : lo <= hi ->
  scan test hi (S hi) =
    match scan test hi (hi - lo) with Some a => Some a | None => scan test lo (S lo) end.
Proof.
  induction hi as [|hi IH]; intros Hl; [by replace lo with 0 by lia|].
  destruct (decide (lo = S hi)) as [->|]; [by rewrite Nat.sub_diag|].
  replace (S hi - lo) with (S (hi - lo)) by lia.
  change (scan test (S hi) (S (S hi))) with
    (match test (S hi) with Some a => Some a | None => scan test (S hi - 1) (S hi) end).
  cbn [scan]. destruct (test (S hi)); [done|]. replace (S hi - 1) with hi by lia. apply IH. lia.
Qed.

Lemma no_longer f n k : hash_ok f -> universe n -> m f < k <= length n ->
  (forall d, virtTable f !! Name_Hash (take (m f) n) = Some d -> d < k) ->
  ent_at f (take k n) = None.
Proof.
  intros Hok Hu Hk Hd. destruct (ent_at f (take k n)) as [e|] eqn:E; [|done].
  apply ent_at_Some in E as [E Hn].
  destruct (ok_virt f Hok _ _ E) as (d & s & Hv & Hl & _).
  - rewrite Hn. cbn. rewrite length_take. lia.
  - rewrite Hn in Hv, Hl. cbn in Hv, Hl. rewrite take_take, Nat.min_l in Hv by lia.
    apply Hd in Hv. rewrite length_take in Hl. lia.
Qed.

Lemma findLongest_spec f n : hash_ok f -> universe n ->
  findLongestPrefixMatchEnc f n = lpm (ent_at f) n.
Proof.
  intros Hok Hu. unfold findLongestPrefixMatchEnc. cbn zeta.
  set (test := fun pfx => realTable f !! prefix_hash n pfx).
  assert (Ht : forall k, k <= length n -> test k = ent_at f (take k n)).
  { intros k Hk. unfold test. rewrite prefix_hash_take, real_ent; auto using universe_take. }
  destruct (Nat.leb_spec (length n) (m f)) as [Hle|Hgt]; [by apply scan_lpm|].
  unfold lpm. rewrite prefix_hash_take by lia.
  set (hi := match virtTable f !! Name_Hash (take (m f) n) with
             | Some md => Nat.max (m f) (Nat.min md (length n)) | None => m f end).
  assert (Hhi : m f <= hi <= length n) by (unfold hi; destruct (virtTable f !! _); lia).
  rewrite (lpm_upto_skip (ent_at f) n hi) by first
    [ lia
    | intros j Hj; apply (no_longer f n j); [done..|lia|]; intros d Hd; unfold hi in Hj;
      rewrite Hd in Hj; lia ].
  rewrite <- (scan_lpm test) by (intros; apply Ht; lia).
  rewrite (scan_split test (m f) hi) by lia. unfold hi.
  destruct (virtTable f !! _) as [md|]; [|by rewrite Nat.sub_diag].
  destruct (decide (m f <= Nat.min md (length n))).
  - by rewrite Nat.max_r by lia.
  - rewrite Nat.max_l, Nat.sub_diag by lia. by replace (Nat.min md (length n) - m f) with 0 by lia.
Qed.

Lemma back_from_spec {A} f (test : baseFibStrategyEntry -> option A) n : hash_ok f -> universe n ->
  back_from f test n = lpm (fun p => ent_at f p ≫= test) n.
Proof.
  intros Hok Hu. unfold back_from. rewrite findLongest_spec by done.
  pose proof (lpm_spec (ent_at f) n) as Hl. destruct (lpm (ent_at f) n) as [e|].
  - destruct Hl as (p & Hp & He & Hmax). pose proof (prefix_length _ _ Hp) as Hlen.
    apply ent_at_Some in He as [He Hn]. rewrite Hn. cbn [nm default].
    unfold lpm. rewrite (lpm_upto_skip _ n (length p)); [|done|].
    + apply scan_lpm. intros k Hk. rewrite prefix_hash_take, real_ent by (auto using universe_take; lia). done.
    + intros j Hj. destruct (ent_at f (take j n)) as [e'|] eqn:E; [|done]. exfalso.
      specialize (Hmax (take j n) (prefix_take _ _)). rewrite E, length_take in Hmax.
      specialize (Hmax ltac:(by eexists)). lia.
  - pose proof (lpm_spec (fun p => ent_at f p ≫= test) n) as Hl'.
    destruct (lpm (fun p => ent_at f p ≫= test) n) as [a|]; [|done].
    destruct Hl' as (p & Hp & Ha & _). by rewrite Hl in Ha.
Qed.

(** *** Updates of one entry *)

(** The table with the entry of [n] replaced by [o]; other tables may change
    as long as the registrations of the other names survive. *)
Lemma ent_at_update f f' n o : universe n -> hash_ok f ->
  (forall h, realTable f' !! h = if decide (h = Name_Hash n) then o else realTable f !! h) ->
  (forall e, o = Some e -> name e = Some n) ->
  forall p, ent_at f' p = if decide (p = n) then o else ent_at f p.
Proof.
  intros Hu Hok HL Ho p. unfold ent_at. rewrite HL. destruct (decide (p = n)) as [->|Hp].
  - rewrite !(decide_True (P := _ = _)) by done. destruct o as [e|]; [|done]. cbn.
    by rewrite decide_True by (by apply Ho).
  - case_decide as Hh; [|done]. rewrite Hh. fold (ent_at f p).
    destruct o as [e|]; cbn.
    + rewrite decide_False by (rewrite (Ho e eq_refl); naive_solver).
      destruct (realTable f !! Name_Hash n) as [e'|] eqn:E; [|done]. cbn.
      destruct (ok_real f Hok _ _ E) as (n' & Hn' & Hu' & Hh' & _).
      apply Name_Hash_inj in Hh'; [|done..]. subst n'. by rewrite decide_False by (rewrite Hn'; naive_solver).
    + destruct (realTable f !! Name_Hash n) as [e'|] eqn:E; [|done]. cbn.
      destruct (ok_real f Hok _ _ E) as (n' & Hn' & Hu' & Hh' & _).
      apply Name_Hash_inj in Hh'; [|done..]. subst n'. by rewrite decide_False by (rewrite Hn'; naive_solver).
Qed.

(** Replacing an entry by one of the same name. *)
Lemma set_entry_spec f n e e' : hash_ok f -> universe n -> ent_at f n = Some e ->
  name e' = Some n -> hops_ok (nexthops e') ->
  let f' := set_real (<[Name_Hash n := e']> (realTable f)) f in
  hash_ok f' /\ (forall p, ent_at f' p = if decide (p = n) then Some e' else ent_at f p).
Proof.
  intros Hok Hu He Hn Hh f'. apply ent_at_Some in He as [He Hen]. split.
  - split; intros h x; cbn; intros [(<- & <-)|(Hne & Hx)]%lookup_insert_Some.
    + by exists n.
    + by apply (ok_real f Hok).
    + rewrite Hn, <- Hen. by apply (ok_virt f Hok _ _ He).
    + by apply (ok_virt f Hok _ _ Hx).
  - apply ent_at_update; [done..| |by intros ? [= <-]]. intros h. cbn. case_decide as Hx.
    + subst h. by rewrite lookup_insert_eq.
    + by rewrite lookup_insert_ne.
Qed.

(** *** insertEntryEnc *)

Lemma registered_insert f vh n n' : registered f n' -> registered (insert_virtual f vh n) n'.
Proof.
  intros Hr Hm. destruct (Hr Hm) as (md & s & H1 & H2 & H3 & H4). unfold insert_virtual. cbn.
  destruct (decide (vh = Name_Hash (take (m f) n'))) as [->|Hne].
  - rewrite !lookup_insert_eq, H1, H3. cbn. eexists _, _. split_and!; try done; [lia|].
    destruct (decide (Name_Bytes n = Name_Bytes n')) as [->|]; [by rewrite lookup_insert_eq|].
    by rewrite lookup_insert_ne.
  - rewrite !lookup_insert_ne by done. by exists md, s.
Qed.

Lemma registered_self f n : registered (insert_virtual f (Name_Hash (take (m f) n)) n) n.
Proof.
  intros Hm. unfold insert_virtual. cbn. rewrite !lookup_insert_eq. eexists _, _.
  split_and!; try done; [lia|]. by rewrite lookup_insert_eq.
Qed.

Lemma insertEntry_spec f n : hash_ok f -> universe n ->
  let '(f', h) := insertEntryEnc f (Some n) in
  h = Name_Hash n /\ hash_ok f' /\
  forall p, ent_at f' p =
    if decide (p = n) then Some (default (mkEntry (Some n) [] None) (ent_at f n)) else ent_at f p.
Proof.
  intros Hok Hu. unfold insertEntryEnc. change (nm (Some n)) with n. cbv zeta. rewrite prefix_hash_full, (real_ent f n Hok Hu).
  set (f1 := match ent_at f n with Some _ => f | None => _ end).
  assert (Hreal1 : forall h, realTable f1 !! h = if decide (h = Name_Hash n)
    then Some (default (mkEntry (Some n) [] None) (ent_at f n)) else realTable f !! h).
  { intros h. unfold f1. destruct (ent_at f n) as [e|] eqn:E; cbn.
    - apply ent_at_Some in E as [E _]. case_decide; by subst.
    - case_decide; subst; [by rewrite lookup_insert_eq|by rewrite lookup_insert_ne]. }
  set (f2 := if length n =? m f then _ else _).
  assert (H2 : realTable f2 = realTable f1 /\ m f2 = m f /\
    (forall n', registered f n' -> registered f2 n') /\ registered f2 n).
  { assert (Hm1 : m f1 = m f /\ forall n', registered f n' -> registered f1 n')
      by (unfold f1; by destruct (ent_at f n)). destruct Hm1 as [Hm1 Hr1]. unfold f2.
    destruct (Nat.eqb_spec (length n) (m f)) as [Heq|Hne]; [|destruct (Nat.ltb_spec (m f) (length n))].
    - split_and!; [done|done|intros; by apply registered_insert, Hr1|].
      intros Hlt. cbn in Hlt. rewrite Hm1 in Hlt. lia.
    - split_and!; [done|done|intros; by apply registered_insert, Hr1|].
      rewrite prefix_hash_take, <- Hm1 by lia. apply registered_self.
    - split_and!; [done|done|done|]. intros Hlt. rewrite Hm1 in Hlt. lia. }
  destruct H2 as (HR2 & Hm2 & Hr2 & Hrn).
  assert (Hn : name (default (mkEntry (Some n) [] None) (ent_at f n)) = Some n).
  { destruct (ent_at f n) as [e|] eqn:E; [|done]. by apply ent_at_Some in E as [_ E]. }
  split_and!; [done| |].
  - split; intros h e; rewrite HR2, Hreal1; case_decide as Hh.
    + intros [= <-]. exists n. split_and!; [done..|]. destruct (ent_at f n) as [e|] eqn:E; [|apply hops_ok_nil].
      apply ent_at_Some in E as [E _]. by destruct (ok_real f Hok _ _ E) as (? & _ & _ & _ & ?).
    + apply (ok_real f Hok).
    + intros [= <-]. by rewrite Hn.
    + intros He. by eapply Hr2, ok_virt.
  - apply ent_at_update; [done..| |by intros ? [= <-]]. intros h. by rewrite HR2.
Qed.

(** *** pruneTables *)

Lemma map_fold_max_le (s : gmap (list byte) nat) md : md <= map_fold (fun _ l acc => Nat.max acc l) md s.
Proof.
  apply (map_fold_weak_ind (fun r _ => md <= r) (fun _ l acc => Nat.max acc l)); [done|]. intros; lia.
Qed.

Lemma prune_registered f e n n' : name e = Some n -> nexthops e = [] -> strategy e = None ->
  n' <> n -> registered f n' -> registered (pruneTables f e) n'.
Proof.
  intros Hn Hnh Hst Hne Hr. unfold pruneTables. rewrite Hn, Hnh, Hst. change (nm (Some n)) with n. cbv zeta.
  destruct (Nat.leb_spec (m f) (length n)) as [Hl|Hl]; [|exact Hr].
  rewrite (prefix_hash_take n (m f)) by lia. set (vh := Name_Hash (take (m f) n)). cbn [set_real virtTable virtTableNames m realTable].
  destruct (virtTable f !! vh) as [md|] eqn:Ev; [|exact Hr]. intros Hm. cbn in Hm.
  destruct (Hr Hm) as (md' & s & H1 & H2 & H3 & H4). cbn.
  destruct (decide (Name_Hash (take (m f) n') = vh)) as [Hvh|Hvh].
  - rewrite Hvh in *. assert (md' = md) by congruence. subst md'. rewrite H3.
    set (s' := delete (Name_Bytes n) s).
    assert (Hs' : is_Some (s' !! Name_Bytes n')).
    { unfold s'. rewrite lookup_delete_ne; [done|]. intros Hb%Name_Bytes_inj. congruence. }
    assert (Hne' : s' <> ∅) by (intros E; rewrite E, lookup_empty in Hs'; by destruct Hs').
    set (vtn := if decide (is_Some (s !! Name_Bytes n)) then _ else _).
    assert (Hvtn : exists s'', vtn !! vh = Some s'' /\ is_Some (s'' !! Name_Bytes n')).
    { unfold vtn. case_decide; [|by exists s]. rewrite decide_False by done. exists s'. by rewrite lookup_insert_eq. }
    destruct Hvtn as (s'' & Hvtn & Hin). rewrite Hvtn. destruct (Nat.eqb_spec (length n) md).
    + rewrite lookup_insert_eq. eexists _, s''. split_and!; try done.
      etrans; [exact H2|apply map_fold_max_le].
    + by exists md, s''.
  - assert (Hvtn : forall x, (match virtTableNames f !! vh with
        | Some s => if decide (is_Some (s !! Name_Bytes n))
                    then if decide (delete (Name_Bytes n) s = ∅) then delete vh (virtTableNames f)
                         else <[vh:=delete (Name_Bytes n) s]> (virtTableNames f)
                    else virtTableNames f
        | None => virtTableNames f end) !! Name_Hash (take (m f) n') = x <->
      virtTableNames f !! Name_Hash (take (m f) n') = x).
    { intros x. destruct (virtTableNames f !! vh); [|done]. repeat case_decide; try done.
      - by rewrite lookup_delete_ne by done.
      - by rewrite lookup_insert_ne by done. }
    exists md', s. rewrite Hvtn. split_and!; try done. destruct (length n =? md); [|done].
    goal_match E; [rewrite lookup_insert_ne by done|rewrite lookup_delete_ne by done]; done.
Qed.

Lemma prune_real f e n : name e = Some n -> nexthops e = [] -> strategy e = None ->
  realTable (pruneTables f e) = delete (Name_Hash n) (realTable f).
Proof.
  intros Hn Hnh Hst. unfold pruneTables. rewrite Hn, Hnh, Hst. change (nm (Some n)) with n. cbv zeta.
  rewrite prefix_hash_full. destruct (m f <=? length n); [|done].
  cbn. by destruct (virtTable f !! _).
Qed.

(** [pruneTables] removes the entry exactly when it is empty, and nothing
    else. *)
Lemma hash_prune_spec f n e : hash_ok f -> universe n -> ent_at f n = Some e ->
  let f' := pruneTables f e in
  hash_ok f' /\ (forall p, nh_at f' p = nh_at f p /\ st_at f' p = st_at f p).
Proof.
  intros Hok Hu He. pose proof He as He'. apply ent_at_Some in He' as [Hr Hn].
  destruct (nexthops e) as [|x l] eqn:Enh; [|unfold pruneTables; by rewrite Enh].
  destruct (strategy e) as [st|] eqn:Est; [unfold pruneTables; by rewrite Enh, Est|].
  pose proof (prune_real f e n Hn Enh Est) as HR. cbn zeta. set (f' := pruneTables f e) in *.
  assert (Hv : forall p, ent_at f' p = if decide (p = n) then None else ent_at f p).
  { apply ent_at_update; [done..| |done]. intros h. rewrite HR. case_decide; subst;
      [by rewrite lookup_delete_eq|by rewrite lookup_delete_ne]. }
  split.
  - split; intros h x; rewrite HR; intros [Hne Hx]%lookup_delete_Some.
    + by apply (ok_real f Hok).
    + apply prune_registered with n; try done; [|by apply (ok_virt f Hok _ _ Hx)].
      destruct (ok_real f Hok _ _ Hx) as (n' & Hn' & _ & Hh & _). rewrite Hn'. cbn. congruence.
  - intros p. unfold nh_at, st_at. rewrite Hv. case_decide as Hp; [|done]. subst p. rewrite He. cbn.
    by rewrite Enh, Est.
Qed.

(** *** The exported operations *)

Lemma nh_st_update f f' n e p :
  (forall p, ent_at f' p = if decide (p = n) then Some e else ent_at f p) ->
  nh_at f' p = at_name n (nexthops e) (nh_at f) p /\ st_at f' p = at_name n (strategy e) (st_at f) p.
Proof. intros Hv. unfold nh_at, st_at, at_name. rewrite Hv. by repeat case_decide. Qed.

Lemma ent_hops_ok f n e : hash_ok f -> ent_at f n = Some e -> hops_ok (nexthops e).
Proof.
  intros Hok [He _]%ent_at_Some. by destruct (ok_real f Hok _ _ He) as (? & _ & _ & _ & ?).
Qed.

(** Inserting the entry of [n] and then replacing it. *)
Lemma insert_then_set f n g : hash_ok f -> universe n ->
  (forall e, name (g e) = name e) -> (forall e, hops_ok (nexthops e) -> hops_ok (nexthops (g e))) ->
  let '(f1, h) := insertEntryEnc f (Some n) in
  let f2 := set_real (alter g h (realTable f1)) f1 in
  let e := g (default (mkEntry (Some n) [] None) (ent_at f n)) in
  hash_ok f2 /\ (forall p, nh_at f2 p = at_name n (nexthops e) (nh_at f) p) /\
  (forall p, st_at f2 p = at_name n (strategy e) (st_at f) p).
Proof.
  intros Hok Hu Hg1 Hg2. pose proof (insertEntry_spec f n Hok Hu) as Hins.
  destruct (insertEntryEnc f (Some n)) as [f1 h]. destruct Hins as (-> & Hok1 & Hv1).
  set (e0 := default (mkEntry (Some n) [] None) (ent_at f n)) in *.
  assert (He : ent_at f1 n = Some e0) by (rewrite Hv1; by rewrite decide_True).
  pose proof He as He'. apply ent_at_Some in He' as [Hr Hn].
  replace (alter g (Name_Hash n) (realTable f1)) with (<[Name_Hash n := g e0]> (realTable f1)).
  2:{ apply map_eq. intros k. destruct (decide (Name_Hash n = k)) as [<-|].
      - by rewrite lookup_insert_eq, lookup_alter_eq, Hr.
      - by rewrite lookup_insert_ne, lookup_alter_ne. }
  destruct (set_entry_spec f1 n e0 (g e0) Hok1 Hu He) as [Hok2 Hv2];
    [by rewrite Hg1|apply Hg2; by eapply ent_hops_ok|].
  assert (Hv : forall p, ent_at (set_real (<[Name_Hash n := g e0]> (realTable f1)) f1) p =
    if decide (p = n) then Some (g e0) else ent_at f p).
  { intros p. rewrite Hv2, Hv1. by repeat case_decide. }
  split_and!; [done|..]; intros p; by destruct (nh_st_update f _ n (g e0) p Hv).
Qed.

Lemma hash_InsertNextHop_ok f n h c : hash_ok f -> universe n ->
  let f' := InsertNextHop f (Some n) h c in
  hash_ok f' /\
  (forall p, nh_at f' p = at_name n (upsert_hop (nh_at f n) h c) (nh_at f) p) /\
  (forall p, st_at f' p = st_at f p).
Proof.
  intros Hok Hu. unfold InsertNextHop.
  pose proof (insert_then_set f n (fun e => set_nexthops (upsert_hop (nexthops e) h c) e) Hok Hu) as Hi.
  destruct (insertEntryEnc f (Some n)) as [f1 k]. destruct Hi as (Hok' & Hnh & Hst); [done|intros; by apply upsert_hops_ok|]. cbv zeta.
  split_and!; [done|..]; intros p; rewrite ?Hnh, ?Hst; unfold nh_at, st_at, at_name;
    case_decide; try subst p; try done; by destruct (ent_at f n).
Qed.

Lemma hash_SetStrategy_ok f n s : hash_ok f -> universe n ->
  let f' := SetStrategy f (Some n) s in
  hash_ok f' /\ (forall p, nh_at f' p = nh_at f p) /\
  (forall p, st_at f' p = at_name n s (st_at f) p).
Proof.
  intros Hok Hu. unfold SetStrategy.
  pose proof (insert_then_set f n (set_strategy s) Hok Hu) as Hi.
  destruct (insertEntryEnc f (Some n)) as [f1 k]. destruct Hi as (Hok' & Hnh & Hst); [done..|]. cbv zeta.
  split_and!; [done|..]; intros p; rewrite ?Hnh, ?Hst; unfold nh_at, st_at, at_name;
    case_decide; try subst p; try done; by destruct (ent_at f n).
Qed.

(** Replacing an existing entry and pruning it. *)
Lemma set_then_prune f n e e' : hash_ok f -> universe n -> ent_at f n = Some e ->
  name e' = Some n -> hops_ok (nexthops e') ->
  let f' := pruneTables (set_real (<[Name_Hash n := e']> (realTable f)) f) e' in
  hash_ok f' /\ (forall p, nh_at f' p = at_name n (nexthops e') (nh_at f) p) /\
  (forall p, st_at f' p = at_name n (strategy e') (st_at f) p).
Proof.
  intros Hok Hu He Hn Hh. destruct (set_entry_spec f n e e' Hok Hu He Hn Hh) as [Hok1 Hv1].
  set (f1 := set_real _ f) in *.
  assert (He1 : ent_at f1 n = Some e') by (rewrite Hv1; by rewrite decide_True).
  destruct (hash_prune_spec f1 n e' Hok1 Hu He1) as [Hok2 Hv2].
  split_and!; [done|..]; intros p; destruct (Hv2 p) as [E1 E2];
    destruct (nh_st_update f f1 n e' p Hv1) as [E3 E4]; congruence.
Qed.

Lemma nh_none f n : ent_at f n = None -> nh_at f n = [] /\ st_at f n = None.
Proof. unfold nh_at, st_at. by intros ->. Qed.

Lemma hash_ClearNextHops_ok f n : hash_ok f -> universe (nm n) ->
  let f' := ClearNextHops f n in
  hash_ok f' /\ (forall p, nh_at f' p = at_name (nm n) [] (nh_at f) p) /\
  (forall p, st_at f' p = st_at f p).
Proof.
  intros Hok Hu. unfold ClearNextHops. rewrite (real_ent f (nm n) Hok Hu).
  destruct (ent_at f (nm n)) as [e|] eqn:He.
  - pose proof He as He'. apply ent_at_Some in He' as [_ Hn].
    destruct (set_then_prune f (nm n) e (set_nexthops [] e) Hok Hu He Hn hops_ok_nil) as (? & Hnh & Hst).
    split_and!; [done|done|]. intros p. rewrite Hst. cbn. unfold at_name. case_decide; [|done].
    subst p. unfold st_at. by rewrite He.
  - destruct (nh_none f (nm n) He) as [E1 E2]. split_and!; [done| |done].
    intros p. by rewrite <- E1, at_name_same.
Qed.

Lemma hash_UnSetStrategy_ok f n : hash_ok f -> universe n ->
  let f' := UnSetStrategy f n in
  hash_ok f' /\ (forall p, nh_at f' p = nh_at f p) /\
  (forall p, st_at f' p = at_name n None (st_at f) p).
Proof.
  intros Hok Hu. unfold UnSetStrategy. rewrite (real_ent f n Hok Hu).
  destruct (ent_at f n) as [e|] eqn:He.
  - pose proof He as He'. apply ent_at_Some in He' as [_ Hn].
    destruct (set_then_prune f n e (set_strategy None e) Hok Hu He Hn) as (? & Hnh & Hst);
      [by eapply (ent_hops_ok f n e)|].
    split_and!; [done| |done]. intros p. rewrite Hnh. cbn. unfold at_name. case_decide; [|done].
    subst p. unfold nh_at. by rewrite He.
  - destruct (nh_none f n He) as [E1 E2]. split_and!; [done|done|].
    intros p. unfold at_name. case_decide; by subst.
Qed.

Lemma swap_remove_perm {A} (l1 l2 : list A) x : swap_remove (l1 ++ x :: l2) (length l1) ≡ₚ l1 ++ l2.
Proof.
  unfold swap_remove. destruct l2 as [|y l2 _] using rev_ind.
  - rewrite last_snoc, app_nil_r, list_insert_id by (by apply list_lookup_middle).
    rewrite take_app_length'; [done|]. rewrite length_app. cbn. lia.
  - rewrite app_comm_cons, app_assoc, last_snoc, <- app_assoc.
    rewrite insert_app_r_alt, Nat.sub_diag by done. cbn.
    replace (l1 ++ y :: l2 ++ [y]) with ((l1 ++ y :: l2) ++ [y]) by (by rewrite <- app_assoc).
    rewrite take_app_length'.
    + by rewrite (Permutation_app_comm l2 [y]).
    + rewrite !length_app. cbn [length]. rewrite length_app. cbn [length]. lia.
Qed.

Lemma hash_RemoveNextHop_ok f n h : hash_ok f -> universe n ->
  let f' := RemoveNextHop f n h in
  hash_ok f' /\
  (forall p, nh_at f' p ≡ₚ at_name n (filter (fun e => Nexthop e <> h) (nh_at f n)) (nh_at f) p) /\
  (forall p, st_at f' p = st_at f p).
Proof.
  intros Hok Hu. unfold RemoveNextHop. rewrite (real_ent f n Hok Hu).
  destruct (ent_at f n) as [e|] eqn:He.
  2:{ destruct (nh_none f n He) as [E1 E2]. split_and!; [done| |done]. intros p. rewrite E1.
      unfold at_name. case_decide; [by subst; rewrite E1|done]. }
  assert (E1 : nh_at f n = nexthops e) by (unfold nh_at; by rewrite He).
  assert (E2 : st_at f n = strategy e) by (unfold st_at; by rewrite He).
  pose proof (ent_hops_ok f n e Hok He) as Hh.
  destruct (list_find _ (nexthops e)) as [[i x]|] eqn:Ef.
  - apply list_find_Some in Ef as (Hi & Hx & _). apply list_elem_of_split_length in Hi as (l1 & l2 & Hl & Hi).
    assert (Hp : swap_remove (nexthops e) i ≡ₚ filter (fun e => Nexthop e <> h) (nexthops e)).
    { rewrite Hl, Hi, swap_remove_perm. unfold hops_ok in Hh. rewrite Hl, fmap_app, fmap_cons in Hh.
      apply NoDup_app in Hh as (_ & Hd1 & [Hd2 _]%NoDup_cons).
      rewrite filter_app, filter_cons, decide_False by (intros Hn; by apply Hn).
      rewrite !filter_all; [done|..]; apply Forall_forall; intros y Hy Hyh.
      - apply Hd2. rewrite Hx, <- Hyh. by apply list_elem_of_fmap_2.
      - apply (Hd1 (Nexthop y)); [by apply list_elem_of_fmap_2|]. rewrite Hyh, Hx. by left. }
    pose proof He as He'. apply ent_at_Some in He' as [_ Hn].
    destruct (set_then_prune f n e (set_nexthops (swap_remove (nexthops e) i) e) Hok Hu He Hn) as (? & Hnh & Hst).
    { cbn. apply (hops_ok_perm (filter (fun e => Nexthop e <> h) (nexthops e))); [by symmetry|].
      by apply hops_ok_filter. }
    split_and!; [done| |]; intros p.
    + rewrite Hnh, E1. unfold at_name. by case_decide.
    + rewrite Hst. cbn. by rewrite <- E2, at_name_same.
  - apply list_find_None in Ef. split_and!; [done| |done]. intros p. rewrite E1.
    rewrite filter_all by done. by rewrite <- E1, at_name_same.
Qed.

(** *** Listings and the instance *)

Lemma hash_entries_spec f keep : hash_ok f ->
  NoDup (entries f keep).*1.*1 /\
  (forall n nhs s, (n, nhs, s) ∈ entries f keep <->
    exists p e, n = Some p /\ ent_at f p = Some e /\ keep e = true /\ nhs = nexthops e /\ s = strategy e).
Proof.
  intros Hok. unfold entries.
  assert (Hel : forall h e, (h, e) ∈ map_to_list (realTable f) ->
    exists p, name e = Some p /\ universe p /\ h = Name_Hash p).
  { intros h e Hin%elem_of_map_to_list. destruct (ok_real f Hok _ _ Hin) as (p & ? & ? & ? & _). by exists p. }
  split.
  - pose proof (NoDup_fst_map_to_list (realTable f)) as Hnd.
    revert Hel Hnd. generalize (map_to_list (realTable f)) as l. induction l as [|[h e] l IH]; intros Hel Hnd;
      [apply NoDup_nil_2|]. rewrite fmap_cons in Hnd. apply NoDup_cons in Hnd as [Hh Hnd].
    specialize (IH (fun h' e' Hin => Hel h' e' (list_elem_of_further _ _ _ Hin)) Hnd).
    cbn [omap list_omap snd]. destruct (keep e); [|done]. rewrite !fmap_cons. cbn [fst].
    apply NoDup_cons. split; [|done].
    intros (x & Hx1 & (y & -> & ([h' e'] & Hin & Hy)%list_elem_of_omap)%list_elem_of_fmap)%list_elem_of_fmap.
    cbn in Hy. destruct (keep e'); [|done]. injection Hy as <-. cbn in Hx1.
    destruct (Hel h e) as (p & Hp & _ & ->); [by left|].
    destruct (Hel h' e') as (p' & Hp' & _ & ->); [by right|]. apply Hh.
    assert (p = p') by congruence. subst p'. by apply (list_elem_of_fmap_2 fst l (Name_Hash p, e')).
  - intros n nhs s. rewrite list_elem_of_omap. split.
    + intros ([h e] & Hin & He). cbn in He. destruct (keep e) eqn:Ek; [|done]. injection He as <- <- <-.
      destruct (Hel h e Hin) as (p & Hp & Hu & ->). apply elem_of_map_to_list in Hin.
      exists p, e. split_and!; try done. by apply ent_at_Some.
    + intros (p & e & -> & [He Hn]%ent_at_Some & Hk & -> & ->). exists (Name_Hash p, e).
      split; [by apply elem_of_map_to_list|]. cbn. by rewrite Hk, Hn.
Qed.

Lemma hash_new_ok depth base : universe [] -> hash_ok (newFibStrategyTableHashTable depth base).
Proof.
  intros Hu. split; intros h e; cbn [realTable newFibStrategyTableHashTable];
    intros [<- <-]%lookup_singleton_Some.
  - exists []. split_and!; [done..|apply hops_ok_nil].
  - intros Hm. cbn in Hm. lia.
Qed.

Lemma universe_nil n : universe n -> universe [].
Proof. apply (universe_take n 0). Qed.

Lemma hash_new_view depth base n :
  let f := newFibStrategyTableHashTable depth base in
  nh_at f n = [] /\ st_at f n = at_name [] base (fun _ => None) n.
Proof.
  intros f. unfold nh_at, st_at, at_name, ent_at. cbn [realTable f newFibStrategyTableHashTable].
  destruct (decide (n = [])) as [->|Hn].
  - rewrite lookup_singleton_eq. cbn. by rewrite decide_True.
  - destruct ({[_ := _]} !! Name_Hash n) as [e|] eqn:E; [|done]. cbn.
    apply lookup_singleton_Some in E as [_ <-]. cbn. rewrite decide_False; [done|naive_solver].
Qed.

#[export] Program Instance FibHash_laws (Hnil : universe []) : FibStrategyLaws FibStrategyHashTable := {|
  fib_ok := hash_ok;
  fib_dom := universe;
  fib_nh := nh_at;
  fib_st := st_at;
  fib_nil_clears := true |}.
Next Obligation. done. Qed.
Next Obligation.
  intros _ f n Hok. cbn. unfold nh_at. destruct (ent_at f n) as [e|] eqn:E; [|apply hops_ok_nil].
  by eapply ent_hops_ok.
Qed.
Next Obligation.
  intros _ f n Hok Hu. cbn. unfold FindNextHops. rewrite back_from_spec by done. f_equal.
  apply lpm_ext. intros p. unfold nh_at. by destruct (ent_at f p).
Qed.
Next Obligation. intros _ f n Hok Hu. cbn. unfold FindStrategy. by rewrite back_from_spec. Qed.
Next Obligation. intros. by apply hash_InsertNextHop_ok. Qed.
Next Obligation.
  intros _ f n Hok Hu f'. destruct (hash_ClearNextHops_ok f n Hok Hu) as (? & Hnh & ?). split_and!; [done| |done].
  intros p. cbn in *. rewrite Hnh. by destruct n.
Qed.
Next Obligation. intros. by apply hash_RemoveNextHop_ok. Qed.
Next Obligation. intros. by apply hash_SetStrategy_ok. Qed.
Next Obligation. intros. by apply hash_UnSetStrategy_ok. Qed.
Next Obligation.
  intros _ f Hok. cbn. destruct (hash_entries_spec f (fun e => negb (length (nexthops e) =? 0)) Hok) as [Hn Hin].
  split; [done|]. intros n nhs s. unfold AllFIBEntries. rewrite Hin. unfold nh_at, st_at. split.
  - intros (p & e & -> & He & Hk & -> & ->). exists p. rewrite He. cbn. split_and!; try done.
    by destruct (nexthops e).
  - intros (p & -> & -> & -> & Hne). destruct (ent_at f p) as [e|] eqn:E; [|done]. cbn in *.
    exists p, e. split_and!; try done. by destruct (nexthops e).
Qed.
Next Obligation.
  intros _ f Hok. cbn. destruct (hash_entries_spec f (fun e => bool_decide (strategy e <> None)) Hok) as [Hn Hin].
  split; [done|]. intros n nhs s. unfold AllForwardingStrategies. rewrite Hin. unfold nh_at, st_at. split.
  - intros (p & e & -> & He & Hk%bool_decide_eq_true & -> & ->). exists p. rewrite He. cbn. by split_and!.
  - intros (p & -> & -> & -> & Hne). destruct (ent_at f p) as [e|] eqn:E; [|done]. cbn in *.
    exists p, e. split_and!; try done. by apply bool_decide_eq_true.
Qed.

End laws.

(** ** Properties *)

Lemma hash_run_observes `{EncLaws} (Hnil : universe []) (depth : Z) (base : goname) (os : list fib_op) :
  Forall (fun o => universe (op_name o)) os ->
  @observes _ _ (FibHash_laws Hnil) (run (newFibStrategyTableHashTable depth base) os)
    (spec_run true (spec_new base) os).
Proof.
  intros Hos.
  refine (simulates_observes _ _ (@simulates_run _ _ (FibHash_laws Hnil) os
    (newFibStrategyTableHashTable depth base) (spec_new base) _ Hos)).
  split_and!; [by apply hash_new_ok|..]; intros n; cbn; destruct (hash_new_view depth base n) as [E1 E2]; by rewrite ?E1, ?E2.
Qed.

(** C2: The hash table with virtual names implements the same FIB-strategy
    table as the name tree, for every virtual depth: after any sequence of
    updates on names whose hashes do not collide, its lookups are the longest
    prefix matches of the abstract table and its listings enumerate it.  It
    differs from the tree in one case: clearing the next hops of the nil name
    clears those of the root. *)
Theorem fib_hash_refines `{EncLaws} (Hnil : universe []) (depth : Z) (base : goname) (os : list fib_op) :
  Forall (fun o => universe (op_name o)) os ->
  @observes _ _ (FibHash_laws Hnil) (run (newFibStrategyTableHashTable depth base) os)
    (spec_run true (spec_new base) os).
Proof. apply hash_run_observes. Qed.

Section witness.
#[local] Existing Instance ref_ops.
#[local] Existing Instance ref_laws.

Lemma fib_hash_refines_witness :
  let f := run (newFibStrategyTableHashTable 2 (Some best_route)) ex_ops in
  hops_map (FindNextHopsEnc f [gc "a"; gc "b"; gc "c"; gc "d"]) = {[1 := 7; 3 := 5]}%Z /\
  @observes _ _ (FibHash_laws (ref_universe [])) f
    (spec_run true (spec_new (Some best_route)) ex_ops).
Proof.
  split; [vm_compute; reflexivity|].
  apply (fib_hash_refines (ref_universe []) 2 (Some best_route) ex_ops).
  apply Forall_forall. intros. apply ref_universe.
Defined.

(** Removing the longest name below a virtual prefix does not lower the
    prefix's depth: the maximum is taken starting from the old one. *)
Lemma virtual_depth_not_lowered :
  let f := run (newFibStrategyTableHashTable 1 None)
    [OpInsert [gc "a"; gc "b"] 1 1; OpInsert [gc "a"; gc "b"; gc "c"] 2 1;
     OpRemove [gc "a"; gc "b"; gc "c"] 2] in
  virtTable f !! Name_Hash [gc "a"] = Some 3 /\
  snd <$> map_to_list (default ∅ (virtTableNames f !! Name_Hash [gc "a"])) = [2].
Proof. vm_compute. by split. Qed.

End witness.

