(* ===== verification/FibEquiv.v ===== *)
(** * The two FIB implementations against each other

    The tree and the hash table satisfy the same specification, so the
    configuration choice between them ([CreateFIBTable], table/init.go) is not
    visible to a client, except through the nil name.  [fib_table] is the
    interface value [FibStrategyTable]: one of the two implementations. *)
From S2P Require Import Prelude.
From S2P Require Import Enc.
From S2P Require Import NameTree.
From S2P Require Import FibSpec.
From S2P Require Import FibTree.
From S2P Require Import FibHash.

(** ** The table in use *)

Inductive fib_table :=
| TreeTable (T : FibStrategyTree)
| HashTable (f : FibStrategyHashTable).

(** [CreateFIBTable]; [depth] is the configured [tables.fib.hashtable.m] and
    [base] the parsed default strategy name.  [None]: the fatal error for an
    unknown algorithm. *)
Definition CreateFIBTable `{EncOps} (fibTableAlgorithm : String.string) (depth : Z) (base : goname) : option fib_table :=
  if decide (fibTableAlgorithm = "hashtable"%string) then Some (HashTable (newFibStrategyTableHashTable depth base))
  else if decide (fibTableAlgorithm = "nametree"%string) then Some (TreeTable (newFibStrategyTableTree base))
  else None.

Definition on_table {A} (t : fib_table) (ft : FibStrategyTree -> A) (fh : FibStrategyHashTable -> A) : A :=
  match t with TreeTable T => ft T | HashTable f => fh f end.

#[export] Instance fib_table_ops `{EncOps} : FibStrategy fib_table := {
  FindNextHopsEnc t n := on_table t (fun T => FindNextHopsEnc T n) (fun f => FindNextHopsEnc f n);
  FindStrategyEnc t n := on_table t (fun T => FindStrategyEnc T n) (fun f => FindStrategyEnc f n);
  InsertNextHopEnc t n h c := on_table t (fun T => TreeTable (InsertNextHopEnc T n h c)) (fun f => HashTable (InsertNextHopEnc f n h c));
  ClearNextHopsEnc t n := on_table t (fun T => TreeTable (ClearNextHopsEnc T n)) (fun f => HashTable (ClearNextHopsEnc f n));
  RemoveNextHopEnc t n h := on_table t (fun T => TreeTable (RemoveNextHopEnc T n h)) (fun f => HashTable (RemoveNextHopEnc f n h));
  GetAllFIBEntries t := on_table t GetAllFIBEntries GetAllFIBEntries;
  SetStrategyEnc t n s := on_table t (fun T => TreeTable (SetStrategyEnc T n s)) (fun f => HashTable (SetStrategyEnc f n s));
  UnSetStrategyEnc t n := on_table t (fun T => TreeTable (UnSetStrategyEnc T n)) (fun f => HashTable (UnSetStrategyEnc f n));
  GetAllForwardingStrategies t := on_table t GetAllForwardingStrategies GetAllForwardingStrategies }.

Lemma run_tree `{EncOps} os : forall T, run (TreeTable T) os = TreeTable (run T os).
Proof. unfold run. induction os as [|o os IH]; intros T; [done|]. cbn. rewrite <- IH. by destruct o. Qed.

Lemma run_hash `{EncOps} os : forall f, run (HashTable f) os = HashTable (run f os).
Proof. unfold run. induction os as [|o os IH]; intros f; [done|]. cbn. rewrite <- IH. by destruct o. Qed.

(** C3: The choice of the FIB implementation is not visible to its clients:
    whichever of the two algorithms and whatever virtual depth a table is
    created with, after the same updates (none of which clears the nil name)
    it returns the same costs per next hop and the same strategy for every
    name.  Any other algorithm name creates no table. *)
Theorem fib_algorithm_irrelevant `{EncLaws} (base : goname) (os : list fib_op) (n : Name) :
  universe [] -> universe n -> Forall (fun o => universe (op_name o) /\ o <> OpClear None) os ->
  forall alg alg' depth depth' t t',
  CreateFIBTable alg depth base = Some t -> CreateFIBTable alg' depth' base = Some t' ->
  hops_map (FindNextHopsEnc (run t os) n) = hops_map (FindNextHopsEnc (run t' os) n) /\
  FindStrategyEnc (run t os) n = FindStrategyEnc (run t' os) n.
Proof.
  intros Hnil Hn Hos.
  assert (Hspec : forall s, spec_run true s os = spec_run false s os).
  { unfold spec_run. induction Hos as [|o os [_ Ho] Hos IH]; intros s; [done|]. cbn. rewrite IH.
    f_equal. by destruct o as [| []| | |]. }
  assert (Hone : forall alg depth t, CreateFIBTable alg depth base = Some t ->
    hops_map (FindNextHopsEnc (run t os) n) =
      default ∅ (lpm (fun m => nonempty_map (sp_nh (spec_run false (spec_new base) os) m)) n) /\
    FindStrategyEnc (run t os) n = lpm (sp_st (spec_run false (spec_new base) os)) n).
  { intros alg depth t. unfold CreateFIBTable. case_decide; [|case_decide; [|done]]; intros [= <-].
    - rewrite run_hash. rewrite <- Hspec. destruct (FibHash.hash_run_observes Hnil depth base os) as [Hf _].
      { eapply Forall_impl; [exact Hos|]. by intros o [? _]. }
      by destruct (Hf n Hn) as (? & _ & ?).
    - rewrite run_tree. destruct (FibTree.run_observes base os) as [HT _].
      by destruct (HT n I) as (? & _ & ?). }
  intros alg alg' depth depth' t t' Ht Ht'.
  destruct (Hone _ _ _ Ht) as [-> ->]. by destruct (Hone _ _ _ Ht') as [-> ->].
Qed.

(** Clearing the nil name, which the RIB does for entries without a name,
    clears the root's next hops in the hash table and nothing in the tree. *)
Lemma clear_nil_differs `{EncLaws} (Hnil : universe []) f T : hash_ok f -> FibTree.tree_ok T ->
  FibHash.nh_at (FibHash.ClearNextHops f None) [] = [] /\ FibTree.ClearNextHops T None = T.
Proof.
  intros Hf HT. split; [|done]. destruct (FibHash.hash_ClearNextHops_ok f None Hf Hnil) as (_ & -> & _).
  unfold at_name. by rewrite decide_True.
Qed.

Section witness.
#[local] Existing Instance ref_ops.
#[local] Existing Instance ref_laws.

Lemma fib_algorithm_irrelevant_witness :
  let t := TreeTable (newFibStrategyTableTree (Some best_route)) in
  let t' := HashTable (newFibStrategyTableHashTable 1 (Some best_route)) in
  hops_map (FindNextHopsEnc (run t ex_ops) [gc "a"; gc "x"]) =
    hops_map (FindNextHopsEnc (run t' ex_ops) [gc "a"; gc "x"]) /\
  FindStrategyEnc (run t ex_ops) [gc "a"; gc "x"] = FindStrategyEnc (run t' ex_ops) [gc "a"; gc "x"].
Proof.
  apply (fib_algorithm_irrelevant (Some best_route) ex_ops [gc "a"; gc "x"] (ref_universe _) (ref_universe _))
    with (alg := "nametree"%string) (alg' := "hashtable"%string) (depth := 5%Z) (depth' := 1%Z).
  - repeat (constructor; [split; [apply ref_universe|discriminate]|]). constructor.
  - reflexivity.
  - reflexivity.
Defined.

End witness.
