(* ===== verification/Rib.v ===== *)
(** * The RIB (table/rib.go)

    A [RibEntry] is an arena node with its name and routes; [children], a map
    used as a set of pointers, is the list of the children in the order in
    which ranging over the map yields them (the results do not depend on it).
    Every update of an entry rewrites the next hops of its name in the FIB,
    which is any implementation of the interface of FibSpec.v.  Ranging over
    [minCostRoutes] is [map_to_list]. *)
From S2P Require Import Prelude.
From S2P Require Import Enc.
From S2P Require Import NameTree.
From S2P Require Import Arena.
From S2P Require Import FibSpec.

Record Route := mkRoute {
  FaceID : Z;
  Origin : Z;
  RCost : Z;
  Flags : Z;
  ExpirationPeriod : option Z }.

#[export] Instance Route_eq_dec : EqDecision Route.
Proof. solve_decision. Defined.

Record rib_data := mkRibData { RName : goname; routes : list Route }.

Definition RibEntry : Type := node rib_data.

Section ops.
Context `{EncOps} {F : Type} `{FibStrategy F}.

(** The RIB and the FIB it writes to. *)
Record RibTable := mkRib { rib : arena rib_data; fib : F }.

Definition set_routes (l : list Route) (d : rib_data) : rib_data := mkRibData (RName d) l.

Definition newRib (f : F) : RibTable := mkRib (new_arena zero_component (mkRibData None [])) f.

Definition matching_child (A : arena rib_data) (f : RibEntry) (n : Name) : option nat :=
  List.find (fun c =>
    match nodes A !! c with
    | Some ch => Component_Equal (At n (Z.of_nat (depth ch) - 1)) (component ch)
    | None => false
    end) (children f).

Definition findExactMatchEntryEnc (A : arena rib_data) (n : Name) : option nat :=
  search_exact matching_child (S (length n)) A 0 n.
Definition findLongestPrefixEntryEnc (A : arena rib_data) (n : Name) : nat :=
  search_longest matching_child (S (length n)) A 0 n.

Definition fillTreeToPrefixEnc (A : arena rib_data) (n : Name) : arena rib_data * nat :=
  fill matching_child A n (mkRibData None []).

(** [pruneIfEmpty]: unlinks the entry and then its ancestors while they are
    empty; one round per level. *)
Fixpoint prune_loop (fuel : nat) (A : arena rib_data) (entry : nat) : arena rib_data :=
  match fuel, nodes A !! entry with
  | S fuel', Some n =>
      match parent n, children n, routes (data n) with
      | Some p, [], [] =>
          prune_loop fuel' (upd A p (fun q => set_children (remove_child entry (children q)) q)) p
      | _, _, _ => A
      end
  | _, _ => A
  end.

Definition pruneIfEmpty (A : arena rib_data) (entry : nat) : arena rib_data :=
  prune_loop (S (depth_of A entry)) A entry.

(** The minimum cost per face. *)
Definition min_cost (m : gmap Z Z) (r : Route) : gmap Z Z :=
  match m !! FaceID r with
  | Some cost => if (RCost r <? cost)%Z then <[FaceID r := RCost r]> m else m
  | None => <[FaceID r := RCost r]> m
  end.
Definition minCostRoutes (l : list Route) : gmap Z Z := fold_left min_cost l ∅.

Definition updateNexthopsEnc (f : F) (d : rib_data) : F :=
  fold_left (fun f hc => InsertNextHopEnc f (RName d) hc.1 hc.2)
    (map_to_list (minCostRoutes (routes d))) (ClearNextHopsEnc f (RName d)).

Definition update_entry (R : RibTable) (i : nat) : RibTable :=
  match data_of (rib R) i with
  | Some d => mkRib (rib R) (updateNexthopsEnc (fib R) d)
  | None => R
  end.

Definition same_route (faceID origin : Z) (r : Route) : bool :=
  ((FaceID r =? faceID) && (Origin r =? origin))%Z.

(** The loop of [AddEncRoute]: overwrite the first route with the same face and
    origin, or append. *)
Fixpoint add_route (l : list Route) (new : Route) : list Route :=
  match l with
  | [] => [new]
  | r :: l' => if same_route (FaceID new) (Origin new) r then new :: l' else r :: add_route l' new
  end.

Definition AddEncRoute (R : RibTable) (name : goname) (faceID origin cost flags : Z)
    (expirationPeriod : option Z) : RibTable :=
  let '(A, node) := fillTreeToPrefixEnc (rib R) (nm name) in
  let A1 := upd_data A node (fun d =>
    mkRibData (match RName d with None => name | Some n => Some n end)
      (add_route (routes d) (mkRoute faceID origin cost flags expirationPeriod))) in
  update_entry (mkRib A1 (fib R)) node.

(** Dropping the first route that satisfies a test. *)
Fixpoint remove_first (test : Route -> bool) (l : list Route) : list Route :=
  match l with
  | [] => []
  | r :: l' => if test r then l' else r :: remove_first test l'
  end.

Definition RemoveRouteEnc (R : RibTable) (name : Name) (faceID origin : Z) : RibTable :=
  match findExactMatchEntryEnc (rib R) name with
  | None => R
  | Some i =>
      let A1 := upd_data (rib R) i (fun d => set_routes (remove_first (same_route faceID origin) (routes d)) d) in
      let R2 := update_entry (mkRib A1 (fib R)) i in
      mkRib (pruneIfEmpty (rib R2) i) (fib R2)
  end.

(** The part of [CleanUpFace] after the recursion: only the first route of the
    face is dropped. *)
Definition clean_entry (R : RibTable) (i : nat) (faceId : Z) : RibTable :=
  match data_of (rib R) i with
  | Some d =>
      match RName d with
      | None => R
      | Some _ =>
          let A1 := upd_data (rib R) i (fun d =>
            set_routes (remove_first (fun r => FaceID r =? faceId)%Z (routes d)) d) in
          let R2 := update_entry (mkRib A1 (fib R)) i in
          mkRib (pruneIfEmpty (rib R2) i) (fib R2)
      end
  | None => R
  end.

(** Fuel: the height of the tree. *)
Fixpoint clean (fuel : nat) (R : RibTable) (i : nat) (faceId : Z) : RibTable :=
  match fuel with
  | O => R
  | S fuel' =>
      clean_entry (fold_left (fun R c => clean fuel' R c faceId) (children_of (rib R) i) R) i faceId
  end.

Definition max_depth (A : arena rib_data) : nat := map_fold (fun _ f acc => Nat.max (depth f) acc) 0 (nodes A).

(** [Rib.CleanUpFace(faceID)]. *)
Definition CleanUpFace (R : RibTable) (faceId : Z) : RibTable :=
  clean (S (max_depth (rib R))) R 0 faceId.

Definition GetAllEntries (R : RibTable) : list rib_data :=
  omap (fun i => data_of (rib R) i ≫= fun d => if decide (routes d = []) then None else Some d)
    (visit_all (rib R)).

Definition GetRoutes (d : rib_data) : list Route := routes d.

End ops.
Arguments RibTable F : clear implicits.

(** ** Invariant and denotation *)

Section laws.
Context `{EncLaws} {F : Type} `{FibStrategyLaws F}.
Implicit Types (A : arena rib_data) (R : RibTable F).

Definition used (_ : Component) : Prop := True.

Definition routes_at A (n : Name) : list Route := from_option routes [] (view A n).

(** One route per face and origin. *)
Definition route_key (r : Route) : Z * Z := (FaceID r, Origin r).

Definition info_ok (n : Name) (d : rib_data) : Prop :=
  (RName d = None \/ RName d = Some n) /\ (routes d <> [] -> RName d = Some n) /\
  NoDup (route_key <$> routes d) /\ (RName d <> None -> fib_dom n).

Record rib_ok A : Prop := {
  ok_struct : struct_ok used A;
  ok_info : forall n d, view A n = Some d -> info_ok n d }.

(** The next hops at [n] are the minimum costs per face of the routes [rs].  The
    hash table has lost those of the root once an entry of the RIB without a name
    was updated ([fib_nil_clears]). *)
Definition root_lost (f : F) (n : Name) : Prop := fib_nil_clears = true /\ n = [] /\ hops_map (fib_nh f n) = ∅.
Definition hops_right (f : F) (n : Name) (rs : list Route) : Prop :=
  hops_map (fib_nh f n) = minCostRoutes rs \/ root_lost f n.

(** The FIB holds the minimum cost per face of the routes of every name, but
    for the names [D] whose next hops were written past the RIB. *)
Definition agrees (D : Name -> Prop) A (f : F) : Prop :=
  fib_ok f /\ forall n, ~ D n -> hops_right f n (routes_at A n).
Abbreviation consistent := (agrees (fun _ => False)).

Lemma rib_Forall_used n : Forall used n.
Proof. by apply Forall_forall. Qed.

Lemma rib_matching_child_ok : step_ok used matching_child.
Proof.
  intros A i f n c Hs _ Hf Hn.
  apply (find_child_kids used (fun ch => Component_Equal (At n (Z.of_nat (depth ch) - 1)) (component ch)));
    [done|..].
  - intros j ch Hj Hch. destruct (ok_child used A Hs i f j Hf Hj) as (ch' & Hch' & _ & Hd).
    assert (ch' = ch) by congruence. subst ch'.
    replace (Z.of_nat (depth ch) - 1)%Z with (Z.of_nat (depth f)) by lia.
    rewrite (At_in_range _ _ _ Hn), Component_Equal_spec. apply bool_decide_ext; split; congruence.
  - intros j Hj. destruct (ok_child used A Hs i f j Hf Hj) as (ch & -> & _). by eexists.
Qed.

(** *** Routes *)

Lemma minCostRoutes_snoc l r : minCostRoutes (l ++ [r]) = min_cost (minCostRoutes l) r.
Proof. unfold minCostRoutes. by rewrite fold_left_app. Qed.

(** [minCostRoutes] maps every face with a route to its cheapest cost. *)
Lemma minCostRoutes_spec l h c : minCostRoutes l !! h = Some c <->
  (exists r, r ∈ l /\ FaceID r = h /\ RCost r = c) /\ (forall r, r ∈ l -> FaceID r = h -> (c <= RCost r)%Z).
Proof.
  revert h c. induction l as [|r l IH] using rev_ind; intros h c.
  - unfold minCostRoutes. cbn. rewrite lookup_empty. split; [done|]. intros [(r & Hr & _) _]. by apply elem_of_nil in Hr.
  - rewrite minCostRoutes_snoc. unfold min_cost.
    assert (Hin : forall x, x ∈ l ++ [r] <-> x ∈ l \/ x = r) by (intros; by rewrite elem_of_app, list_elem_of_singleton).
    setoid_rewrite Hin.
    assert (Hnone : minCostRoutes l !! FaceID r = None -> forall x, x ∈ l -> FaceID x <> FaceID r).
    { intros Hn. clear IH Hin. revert Hn. induction l as [|y l IHl] using rev_ind; intros Hn x Hx; [by apply elem_of_nil in Hx|].
      rewrite minCostRoutes_snoc in Hn. unfold min_cost in Hn.
      assert (Hy : FaceID y <> FaceID r /\ minCostRoutes l !! FaceID r = None).
      { destruct (minCostRoutes l !! FaceID y) as [cy|] eqn:Ey; [destruct (RCost y <? cy)%Z|];
          (destruct (decide (FaceID y = FaceID r)) as [E|E];
            [rewrite E, ?lookup_insert_eq in *; congruence|rewrite ?lookup_insert_ne in Hn by done; done]). }
      apply elem_of_app in Hx as [Hx|Hx%list_elem_of_singleton]; [apply IHl; [apply Hy|done]|subst; apply Hy]. }
    destruct (minCostRoutes l !! FaceID r) as [cost|] eqn:E.
    + pose proof (proj1 (IH _ _) E) as [(r0 & Hr0 & Hf0 & Hc0) Hmin].
      destruct (Z.ltb_spec (RCost r) cost) as [Hlt|Hge].
      * rewrite lookup_insert_Some, IH. split.
        -- intros [(<- & <-)|(Hne & (x & ? & ? & ?) & Hx)].
           ++ split; [exists r; auto|]. intros x [Hx| ->] Hfx; [|lia]. specialize (Hmin x Hx Hfx). lia.
           ++ split; [exists x; auto|]. intros y [Hy| ->] Hfy; [by apply Hx|done].
        -- intros [(x & Hx & Hfx & Hcx) Hm]. destruct (decide (FaceID r = h)) as [<-|Hne].
           ++ left. split; [done|]. destruct Hx as [Hx| ->]; [|done].
              specialize (Hm r (or_intror eq_refl) eq_refl). specialize (Hmin x Hx Hfx). lia.
           ++ right. split_and!; [done| |auto]. exists x. destruct Hx as [Hx| ->]; [done|congruence].
      * rewrite IH. split.
        -- intros [(x & ? & ? & ?) Hm]. split; [exists x; auto|]. intros y [Hy| ->] Hfy; [by apply Hm|].
           specialize (Hm r0 Hr0 ltac:(congruence)). lia.
        -- intros [(x & Hx & Hfx & Hcx) Hm]. split; [|auto]. destruct Hx as [Hx| ->]; [by exists x|].
           exists r0. specialize (Hm r0 (or_introl Hr0) ltac:(congruence)). split_and!; [done|congruence|lia].
    + specialize (Hnone eq_refl). rewrite lookup_insert_Some, IH. split.
      * intros [(<- & <-)|(Hne & (x & ? & ? & ?) & Hx)].
        -- split; [exists r; auto|]. intros x [Hx| ->] Hfx; [by destruct (Hnone x Hx)|lia].
        -- split; [exists x; auto|]. intros y [Hy| ->] Hfy; [by apply Hx|done].
      * intros [(x & Hx & Hfx & Hcx) Hm]. destruct Hx as [Hx| ->].
        -- right. split_and!; [|by exists x|auto]. intros <-. by apply (Hnone x Hx).
        -- left. by subst.
Qed.

Lemma fold_left_insert (l : list (Z * Z)) : NoDup l.*1 ->
  fold_left (fun m hc => <[hc.1 := hc.2]> m) l ∅ = (list_to_map l : gmap Z Z).
Proof.
  intros Hn. rewrite <- fold_left_rev_right.
  rewrite <- (list_to_map_proper (M := gmap Z) (rev l) l); [|by rewrite <- Permutation_rev|symmetry; apply Permutation_rev].
  induction (rev l) as [|[h c] l' IH]; [done|]. cbn. by rewrite IH.
Qed.

(** *** The FIB *)

Section fib.

Lemma insert_all_spec n l : fib_dom n -> forall (f : F), fib_ok f ->
  let f' := fold_left (fun f hc => InsertNextHopEnc f (Some n) hc.1 hc.2) l f in
  fib_ok f' /\
  (forall m, hops_map (fib_nh f' m) =
    if decide (m = n) then fold_left (fun m hc => <[hc.1 := hc.2]> m) l (hops_map (fib_nh f n))
    else hops_map (fib_nh f m)) /\
  (forall m, fib_st f' m = fib_st f m).
Proof.
  intros Hdom. induction l as [|[h c] l IH]; intros f Hf; cbn.
  - split_and!; [done| |done]. intros m. by case_decide; subst.
  - destruct (InsertNextHop_spec f n h c Hf Hdom) as (Hf1 & Hnh & Hst).
    destruct (IH _ Hf1) as (Hf2 & Hnh2 & Hst2). split_and!; [done| |].
    + intros m. rewrite Hnh2. case_decide as Hm.
      * rewrite Hnh. unfold at_name. rewrite decide_True by done.
        by rewrite hops_map_upsert by (by apply fib_hops_ok).
      * rewrite Hnh. unfold at_name. by rewrite decide_False.
    + intros m. by rewrite Hst2, Hst.
Qed.

(** After [updateNexthopsEnc] the FIB has the minimum costs at the entry's
    name and is unchanged elsewhere. *)
Lemma updateNexthops_spec (f : F) n d : fib_ok f -> fib_dom n -> RName d = Some n ->
  let f' := updateNexthopsEnc f d in
  fib_ok f' /\
  (forall m, hops_map (fib_nh f' m) =
    if decide (m = n) then minCostRoutes (routes d) else hops_map (fib_nh f m)) /\
  (forall m, fib_st f' m = fib_st f m).
Proof.
  intros Hf Hdom Hn. unfold updateNexthopsEnc. rewrite Hn.
  destruct (ClearNextHops_spec f (Some n) Hf Hdom) as (Hf1 & Hnh1 & Hst1).
  destruct (insert_all_spec n (map_to_list (minCostRoutes (routes d))) Hdom _ Hf1) as (Hf2 & Hnh2 & Hst2).
  split_and!; [done| |].
  - intros m. rewrite Hnh2. case_decide as Hm.
    + rewrite Hnh1. unfold at_name. rewrite decide_True by done.
      rewrite fold_left_insert by apply NoDup_fst_map_to_list. apply list_to_map_to_list.
    + rewrite Hnh1. unfold at_name. by rewrite decide_False.
  - intros m. by rewrite Hst2, Hst1.
Qed.

(** An entry without a name: the next hops stay, but for those of the root. *)
Lemma updateNexthops_nil (f : F) d : fib_ok f -> RName d = None -> routes d = [] ->
  let f' := updateNexthopsEnc f d in
  fib_ok f' /\ (forall m, hops_map (fib_nh f' m) = hops_map (fib_nh f m) \/ root_lost f' m) /\
  (forall m, fib_st f' m = fib_st f m).
Proof.
  intros Hf Hn Hr. unfold updateNexthopsEnc. rewrite Hn, Hr. cbn.
  destruct (ClearNextHops_spec f None Hf fib_dom_nil) as (Hf1 & Hnh1 & Hst1).
  split_and!; [done| |done]. intros m. unfold root_lost. rewrite Hnh1. destruct fib_nil_clears; [|by left].
  unfold at_name. case_decide; [by right|by left].
Qed.

Lemma hops_right_same (f f' : F) n rs : hops_map (fib_nh f' n) = hops_map (fib_nh f n) \/ root_lost f' n -> hops_right f n rs -> hops_right f' n rs.
Proof. intros [E|Hl] Hr; [|by right]. unfold hops_right, root_lost. by rewrite E. Qed.

Lemma hops_right_named (f : F) n rs : n <> [] -> hops_right f n rs -> hops_map (fib_nh f n) = minCostRoutes rs.
Proof. by intros Hn [|(_ & ? & _)]. Qed.
Lemma hops_right_tree (f : F) n rs : fib_nil_clears = false -> hops_right f n rs -> hops_map (fib_nh f n) = minCostRoutes rs.
Proof. by intros Hn [|(E & _)]; [|rewrite Hn in E]. Qed.


(** *** Writing an entry *)

Lemma routes_view A n d : view A n = Some d -> routes_at A n = routes d.
Proof. unfold routes_at. by intros ->. Qed.

Lemma routes_view_None A n : view A n = None -> routes_at A n = [].
Proof. unfold routes_at. by intros ->. Qed.

Lemma rib_walk_view A n i : rib_ok A -> walk (kids A) 0 n = Some i ->
  exists d, view A n = Some d /\ data_of A i = Some d /\ info_ok n d.
Proof.
  intros [Hs Hi] Hw. destruct (walk_view used A n i Hs Hw) as [d Hd]. exists d.
  split_and!; [done| |by apply Hi]. rewrite <- Hd. symmetry. by apply view_walk.
Qed.

Context {D : Name -> Prop}.

(** Replacing the data of the entry at [n] and rewriting the FIB for it. *)
Lemma write_entry A (f : F) n i d g : rib_ok A -> agrees D A f -> walk (kids A) 0 n = Some i ->
  view A n = Some d -> info_ok n (g d) -> (RName (g d) = None -> routes d = []) ->
  let R := update_entry (mkRib (upd_data A i g) f) i in
  rib R = upd_data A i g /\ rib_ok (rib R) /\ agrees D (rib R) (fib R) /\
  (forall m, walk (kids (rib R)) 0 m = walk (kids A) 0 m) /\
  (forall m, routes_at (rib R) m = at_name n (routes (g d)) (routes_at A) m) /\
  (forall m, fib_st (fib R) m = fib_st f m).
Proof.
  intros [Hs Hi] [Hf Hc] Hw Hd Hg Hnil0 R.
  destruct (upd_data_spec used A i g n Hs Hw) as (Hs' & Hw' & Hv).
  assert (Hx : data_of (upd_data A i g) i = Some (g d)).
  { rewrite upd_data_of, decide_True by done. rewrite (view_walk A n i Hw) in Hd. by rewrite Hd. }
  unfold R, update_entry. cbn [rib]. rewrite Hx. cbn [rib fib].
  assert (Hroutes : forall m, routes_at (upd_data A i g) m = at_name n (routes (g d)) (routes_at A) m).
  { intros m. unfold routes_at, at_name. rewrite Hv. rewrite Hd. by case_decide. }
  assert (Hfib : let f' := updateNexthopsEnc f (g d) in
    agrees D (upd_data A i g) f' /\ forall m, fib_st f' m = fib_st f m).
  { destruct Hg as (Hg1 & Hg2 & _ & Hg4). destruct (RName (g d)) as [n'|] eqn:En.
    - destruct Hg1 as [|[= ->]]; [done|].
      destruct (updateNexthops_spec f n (g d) Hf (Hg4 ltac:(done)) En) as (Hf' & Hnh & Hst).
      split; [split; [done|]|done]. intros m Hm. specialize (Hnh m). rewrite Hroutes. unfold at_name.
      case_decide; [by left|]. apply (hops_right_same f); [by left|by apply Hc].
    - assert (Hr : routes (g d) = []) by (destruct (routes (g d)); [done|by discriminate Hg2]).
      destruct (updateNexthops_nil f (g d) Hf En Hr) as (Hf' & Hnh & Hst).
      split; [split; [done|]|done]. intros m Hm. rewrite Hroutes. apply (hops_right_same f); [by apply Hnh|].
      unfold at_name. case_decide; [|by apply Hc]. subst m. specialize (Hc n Hm).
      by rewrite (routes_view A n d Hd), (Hnil0 eq_refl), <- Hr in Hc. }
  split_and!; try done; [|apply Hfib..].
  split; [done|]. intros m x. rewrite Hv. case_decide as Hm; [|apply Hi]. subst m. rewrite Hd. by intros [= <-].
Qed.

Lemma add_route_elem l new r : r ∈ add_route l new -> r = new \/ r ∈ l.
Proof.
  induction l as [|x l IH]; cbn; [rewrite list_elem_of_singleton; auto|].
  destruct (same_route _ _ x); rewrite !elem_of_cons; naive_solver.
Qed.

Lemma same_route_key f o r : same_route f o r = true <-> route_key r = (f, o).
Proof. unfold same_route, route_key. rewrite andb_true_iff, !Z.eqb_eq. split; [intros [-> ->]; done|by intros [= -> ->]]. Qed.

Lemma add_route_NoDup l new : NoDup (route_key <$> l) -> NoDup (route_key <$> add_route l new).
Proof.
  induction l as [|x l IH]; cbn [add_route]; intros Hn; [apply NoDup_singleton|].
  rewrite fmap_cons in Hn. apply NoDup_cons in Hn as [Hx Hn].
  destruct (same_route _ _ x) eqn:E; rewrite fmap_cons; apply NoDup_cons.
  - apply same_route_key in E. unfold route_key at 1. rewrite <- E. done.
  - split; [|by apply IH]. intros (r & Hr & [->|Hin]%add_route_elem)%list_elem_of_fmap.
    + assert (Ht : same_route (FaceID new) (Origin new) x = true) by (apply same_route_key; by rewrite Hr). congruence.
    + apply Hx. rewrite Hr. by apply list_elem_of_fmap_2.
Qed.

Lemma remove_first_elem test l r : r ∈ remove_first test l -> r ∈ l.
Proof.
  induction l as [|x l IH]; cbn; [done|]. destruct (test x); rewrite !elem_of_cons; naive_solver.
Qed.

Lemma remove_first_NoDup test l : NoDup (route_key <$> l) -> NoDup (route_key <$> remove_first test l).
Proof.
  induction l as [|x l IH]; cbn [remove_first]; [done|]. rewrite fmap_cons. intros [Hx Hn]%NoDup_cons.
  destruct (test x); [done|]. rewrite fmap_cons. apply NoDup_cons. split; [|by apply IH].
  intros (r & Hr & Hin)%list_elem_of_fmap. apply Hx. rewrite Hr. apply list_elem_of_fmap_2.
  by eapply remove_first_elem.
Qed.

Lemma info_ok_remove n d test : info_ok n d -> info_ok n (set_routes (remove_first test (routes d)) d).
Proof.
  intros (Ha & Hb & Hcc & Hdd). split_and!; [done| |by apply remove_first_NoDup|done].
  cbn. intros Hne. apply Hb. intros E. by rewrite E in Hne.
Qed.

(** *** pruneIfEmpty *)

(** [anc A j i]: [j] is [i] or above it. *)
Inductive anc A : nat -> nat -> Prop :=
| anc_refl i : anc A i i
| anc_par i p j : parent_of A i = Some p -> anc A j p -> anc A j i.

Lemma anc_walk A j i m n : struct_ok used A -> anc A j i ->
  walk (kids A) 0 m = Some j -> walk (kids A) 0 n = Some i -> m `prefix_of` n.
Proof.
  intros Hs Ha. revert n. induction Ha as [i|i p j Hp Ha IH]; intros n Hm Hn.
  - by rewrite (walk_inj (tree_trie used A Hs) m n i Hm Hn).
  - destruct n as [|c n _] using rev_ind.
    + injection Hn as <-. destruct (ok_root used A Hs) as (r & Hr & _ & Hpr).
      unfold parent_of in Hp. rewrite Hr in Hp. cbn in Hp. congruence.
    + destruct (walk_par (tree_trie used A Hs) n c i Hn) as [Hw _]. rewrite Hp in Hw.
      etrans; [by apply (IH n)|apply prefix_app_r; done].
Qed.

Record pruned A A' (cur : nat) : Prop := {
  pr_struct : struct_ok used A';
  pr_view : forall m d, view A' m = Some d -> view A m = Some d;
  pr_routes : forall m, routes_at A' m = routes_at A m;
  pr_data : forall i, data_of A' i = data_of A i;
  pr_parent : forall i, parent_of A' i = parent_of A i;
  pr_walk : forall m j, walk (kids A') 0 m = Some j -> walk (kids A) 0 m = Some j;
  pr_keep : forall m j, walk (kids A) 0 m = Some j -> ~ anc A j cur -> walk (kids A') 0 m = Some j }.

Lemma pruned_refl A cur : struct_ok used A -> pruned A A cur.
Proof. by split. Qed.

Lemma anc_ext A A' j i : (forall x, parent_of A' x = parent_of A x) -> anc A j i -> anc A' j i.
Proof. intros Hp. induction 1 as [i|i p j Hi Ha IH]; [constructor|]. econstructor; [by rewrite Hp|done]. Qed.

Lemma prune_loop_spec fuel : forall A cur, struct_ok used A -> pruned A (prune_loop fuel A cur) cur.
Proof.
  induction fuel as [|fuel IH]; intros A cur Hs; [by apply pruned_refl|]. cbn [prune_loop].
  destruct (nodes A !! cur) as [f|] eqn:Ef; [|by apply pruned_refl].
  destruct (parent f) as [p|] eqn:Ep; [|by apply pruned_refl].
  destruct (children f) eqn:Ec; [|by apply pruned_refl].
  destruct (routes (data f)) eqn:Er; [|by apply pruned_refl].
  assert (Ep' : parent_of A cur = Some p) by (unfold parent_of; by rewrite Ef).
  assert (Ec' : children_of A cur = []) by (unfold children_of; by rewrite Ef).
  change (upd A p _) with (unlinked A cur p).
  pose proof (unlinked_struct used A cur p Hs) as Hs1.
  destruct (IH (unlinked A cur p) p Hs1) as [Q1 Q2 Q3 Q4 Q5 Q6 Q7].
  assert (Hpar : forall x, parent_of (unlinked A cur p) x = parent_of A x) by (intros; by rewrite unlinked_parent).
  split; [done|..].
  - intros m d Hv%Q2. rewrite (unlinked_view used) in Hv by done. by case_decide.
  - intros m. rewrite Q3. unfold routes_at. rewrite (unlinked_view used) by done. case_decide as Hm; [|done].
    rewrite (view_walk A m cur Hm). unfold data_of. rewrite Ef. cbn. by rewrite Er.
  - intros i. rewrite Q4. apply unlinked_data.
  - intros i. by rewrite Q5.
  - intros m j Hw%Q6. rewrite (unlinked_walk used) in Hw by done. by case_decide.
  - intros m j Hw Hna. apply Q7.
    + rewrite (unlinked_walk used) by done. rewrite decide_False; [done|]. rewrite Hw. intros [= ->].
      apply Hna. constructor.
    + intros Ha. apply Hna. econstructor; [exact Ep'|]. by apply (anc_ext (unlinked A cur p)).
Qed.

Lemma pruned_ok A A' cur : rib_ok A -> pruned A A' cur -> rib_ok A'.
Proof. intros [Hs Hi] Hp. split; [apply Hp|]. intros n d Hd. apply Hi. by eapply pr_view. Qed.

Lemma pruned_consistent A A' cur (f : F) : pruned A A' cur -> agrees D A f -> agrees D A' f.
Proof. intros Hp [Hf Hc]. split; [done|]. intros n Hn. rewrite (pr_routes _ _ _ Hp). by apply Hc. Qed.

(** *** AddEncRoute and RemoveRouteEnc *)

Lemma rib_fill_ok A n : rib_ok A ->
  let '(A', i) := fillTreeToPrefixEnc A n in
  rib_ok A' /\ walk (kids A') 0 n = Some i /\ (forall m, routes_at A' m = routes_at A m).
Proof.
  intros [Hs Hi]. unfold fillTreeToPrefixEnc.
  pose proof (fill_spec used matching_child A n (mkRibData None []) rib_matching_child_ok Hs (rib_Forall_used n)) as Hf.
  destruct (fill matching_child A n (mkRibData None [])) as [A' i]. destruct Hf as (Hs' & Hw & _ & Hv).
  split_and!; [|done|].
  - split; [done|]. intros m d. rewrite Hv. unfold grown.
    destruct (view A m) as [d'|] eqn:E; [intros [= <-]; by apply Hi|]. case_decide; [|done].
    intros [= <-]. split_and!; [by left|done|apply NoDup_nil_2|done].
  - intros m. unfold routes_at. rewrite Hv. unfold grown. destruct (view A m); [done|]. by case_decide.
Qed.

Lemma AddEncRoute_ok R n faceID origin cost flags exp : fib_dom n ->
  rib_ok (rib R) -> agrees D (rib R) (fib R) ->
  let R' := AddEncRoute R (Some n) faceID origin cost flags exp in
  rib_ok (rib R') /\ agrees D (rib R') (fib R') /\
  (forall m, routes_at (rib R') m =
    at_name n (add_route (routes_at (rib R) n) (mkRoute faceID origin cost flags exp)) (routes_at (rib R)) m) /\
  (forall m, fib_st (fib R') m = fib_st (fib R) m).
Proof.
  intros Hdom Hok Hc. unfold AddEncRoute. change (nm (Some n)) with n.
  pose proof (rib_fill_ok (rib R) n Hok) as Hf. destruct (fillTreeToPrefixEnc (rib R) n) as [A i].
  destruct Hf as (HokA & Hw & Hr). destruct (rib_walk_view A n i HokA Hw) as (d & Hd & _ & Hi).
  set (new := mkRoute faceID origin cost flags exp).
  set (g := fun d => mkRibData (match RName d with None => Some n | Some n => Some n end) (add_route (routes d) new)).
  assert (HcA : agrees D A (fib R)) by (destruct Hc as [? Hc]; split; [done|]; intros m Hm; rewrite Hr; by apply Hc).
  assert (Hn : RName (g d) = Some n) by (unfold g; cbn; destruct Hi as ([-> | ->] & _); done).
  destruct (write_entry A (fib R) n i d g HokA HcA Hw Hd) as (_ & Hok' & Hc' & _ & Hr' & Hst').
  - split_and!; [by right|done| |done]. apply add_route_NoDup, Hi.
  - by rewrite Hn.
  - split_and!; [done|done| |done]. intros m. etrans; [apply Hr'|]. unfold at_name. rewrite Hr.
    by rewrite <- (Hr n), (routes_view A n d Hd).
Qed.

(** What it does to the FIB, whatever was written there before. *)
Lemma AddEncRoute_fib R n faceID origin cost flags exp : fib_dom n -> rib_ok (rib R) -> fib_ok (fib R) ->
  let R' := AddEncRoute R (Some n) faceID origin cost flags exp in
  forall m, hops_map (fib_nh (fib R') m) =
    if decide (m = n) then minCostRoutes (routes_at (rib R') n) else hops_map (fib_nh (fib R) m).
Proof.
  intros Hdom Hok Hf R'. unfold R', AddEncRoute. change (nm (Some n)) with n.
  pose proof (rib_fill_ok (rib R) n Hok) as Hfill. destruct (fillTreeToPrefixEnc (rib R) n) as [A i].
  destruct Hfill as (HokA & Hw & Hr). destruct (rib_walk_view A n i HokA Hw) as (d & Hd & Hx & Hi).
  match goal with |- context [upd_data A i ?g0] => set (g := g0) end.
  assert (Hn : RName (g d) = Some n) by (unfold g; cbn; destruct Hi as ([-> | ->] & _); done).
  destruct (upd_data_spec used A i g n (ok_struct _ HokA) Hw) as (_ & _ & Hv).
  unfold update_entry. cbn [rib]. rewrite upd_data_of, decide_True, Hx by done. cbn [rib fib option_map fmap].
  destruct (updateNexthops_spec (fib R) n (g d) Hf Hdom Hn) as (_ & Hnh & _).
  intros m. cbn. rewrite Hnh. case_decide; [|done]. unfold routes_at. rewrite Hv, decide_True by done. by rewrite Hd.
Qed.

(** Dropping routes of the entry at [n], rewriting the FIB and pruning. *)
Lemma drop_entry A (f : F) n i d test : rib_ok A -> agrees D A f -> walk (kids A) 0 n = Some i ->
  view A n = Some d ->
  let R1 := update_entry (mkRib (upd_data A i (fun d => set_routes (remove_first test (routes d)) d)) f) i in
  let A' := pruneIfEmpty (rib R1) i in
  pruned (rib R1) A' i /\ rib_ok A' /\ agrees D A' (fib R1) /\
  (forall m, walk (kids (rib R1)) 0 m = walk (kids A) 0 m) /\
  (forall x, parent_of (rib R1) x = parent_of A x) /\
  (forall x, x <> i -> data_of (rib R1) x = data_of A x) /\
  (forall m, routes_at A' m = at_name n (remove_first test (routes_at A n)) (routes_at A) m) /\
  (forall m, fib_st (fib R1) m = fib_st f m).
Proof.
  intros Hok Hc Hw Hd R1 A'. pose proof (ok_info A Hok n d Hd) as Hi.
  destruct (write_entry A f n i d (fun d => set_routes (remove_first test (routes d)) d) Hok Hc Hw Hd)
    as (HA & Hok1 & Hc1 & Hw1 & Hr1 & Hst1); [by apply info_ok_remove| |].
  { cbn. intros Hn. destruct Hi as (_ & Hi & _). destruct (routes d); [done|]. by rewrite Hi in Hn. }
  fold R1 in HA, Hok1, Hc1, Hw1, Hr1, Hst1.
  assert (Hp : pruned (rib R1) A' i) by (apply prune_loop_spec, Hok1).
  split_and!; [done|by eapply pruned_ok|by eapply pruned_consistent|done|..|done].
  - intros x. rewrite HA. unfold parent_of, upd_data, upd. cbn. destruct (decide (i = x)) as [<-|];
      [rewrite lookup_alter_eq; by destruct (nodes A !! i)|by rewrite lookup_alter_ne].
  - intros x Hx. by rewrite HA, upd_data_of, decide_False.
  - intros m. rewrite (pr_routes _ _ _ Hp), Hr1. by rewrite (routes_view A n d Hd).
Qed.

Lemma RemoveRouteEnc_ok R n faceID origin : rib_ok (rib R) -> agrees D (rib R) (fib R) ->
  let R' := RemoveRouteEnc R n faceID origin in
  rib_ok (rib R') /\ agrees D (rib R') (fib R') /\
  (forall m, routes_at (rib R') m =
    at_name n (remove_first (same_route faceID origin) (routes_at (rib R) n)) (routes_at (rib R)) m) /\
  (forall m, fib_st (fib R') m = fib_st (fib R) m).
Proof.
  intros Hok Hc. unfold RemoveRouteEnc, findExactMatchEntryEnc.
  rewrite (search_exact_spec used) by auto using rib_matching_child_ok, rib_Forall_used, ok_struct.
  destruct (walk (kids (rib R)) 0 n) as [i|] eqn:Hw.
  - destruct (rib_walk_view _ n i Hok Hw) as (d & Hd & _ & _).
    destruct (drop_entry _ (fib R) n i d (same_route faceID origin) Hok Hc Hw Hd) as (_ & ? & ? & _ & _ & _ & ? & ?).
    by split_and!.
  - split_and!; [done|done| |done]. intros m. unfold at_name. case_decide; [|done]. subst m.
    assert (Hv : view (rib R) n = None) by (unfold view, node_at; by rewrite Hw).
    by rewrite (routes_view_None _ n Hv).
Qed.

(** What it does to the FIB: at the name the next hops are the minimum costs, and
    elsewhere nothing changes, but that the root of the hash table loses its next
    hops when the entry has no name, so no routes. *)
Lemma RemoveRouteEnc_fib R n faceID origin m : rib_ok (rib R) -> fib_ok (fib R) -> m <> n ->
  let R' := RemoveRouteEnc R n faceID origin in
  hops_map (fib_nh (fib R') m) = hops_map (fib_nh (fib R) m) \/ (root_lost (fib R') m /\ routes_at (rib R) n = []).
Proof.
  intros Hok Hf Hm. unfold RemoveRouteEnc, findExactMatchEntryEnc.
  rewrite (search_exact_spec used) by auto using rib_matching_child_ok, rib_Forall_used, ok_struct.
  destruct (walk (kids (rib R)) 0 n) as [i|] eqn:Hw; [|by left].
  destruct (rib_walk_view _ n i Hok Hw) as (d & Hd & Hx & Hi). unfold update_entry. cbn [rib].
  rewrite upd_data_of, decide_True, Hx by done. cbn [fib option_map fmap].
  pose proof (info_ok_remove n d (same_route faceID origin) Hi) as (Hi1 & Hi2 & _ & Hi4).
  set (d' := set_routes _ d) in *. cbn. fold d'. destruct (RName d') as [n'|] eqn:En.
  - destruct Hi1 as [|[= ->]]; [done|]. destruct (updateNexthops_spec (fib R) n d' Hf (Hi4 ltac:(done)) En) as (_ & Hnh & _).
    left. by rewrite Hnh, decide_False.
  - assert (Hr : routes d' = []) by (destruct (routes d'); [done|by discriminate Hi2]).
    assert (Hr0 : routes_at (rib R) n = []).
    { rewrite (routes_view _ n d Hd). destruct Hi as (_ & Hi & _). destruct (routes d); [done|].
      change (RName d = None) in En. rewrite En in Hi. by discriminate Hi. }
    destruct (updateNexthops_nil (fib R) d' Hf En Hr) as (_ & Hnh & _). destruct (Hnh m); auto.
Qed.

(** *** CleanUpFace *)

Section clean.
Context (faceId : Z).

Definition drop_face (l : list Route) : list Route := remove_first (fun r => FaceID r =? faceId)%Z l.

(** [R'] is [R] after the routes of the face were dropped at the names for
    which [P] holds. *)
Record cleaned (P : Name -> Prop) `{!forall m, Decision (P m)} (R R' : RibTable F) : Prop := {
  cl_ok : rib_ok (rib R');
  cl_consistent : agrees D (rib R') (fib R');
  cl_routes : forall m, routes_at (rib R') m = if decide (P m) then drop_face (routes_at (rib R) m) else routes_at (rib R) m;
  cl_walk : forall m j, walk (kids (rib R')) 0 m = Some j -> walk (kids (rib R)) 0 m = Some j;
  cl_parent : forall j, parent_of (rib R') j = parent_of (rib R) j;
  cl_data : forall j, (forall m, walk (kids (rib R)) 0 m = Some j -> ~ P m) ->
    data_of (rib R') j = data_of (rib R) j;
  cl_st : forall m, fib_st (fib R') m = fib_st (fib R) m }.

(** What is linked and unrelated to [n] stays linked. *)
Definition keeps (n : Name) (R R' : RibTable F) : Prop :=
  forall m j, walk (kids (rib R)) 0 m = Some j -> ~ n `prefix_of` m -> ~ m `prefix_of` n ->
  walk (kids (rib R')) 0 m = Some j.

(** The entry itself, still linked or already pruned by the recursion. *)
Lemma clean_entry_spec R n i d :
  rib_ok (rib R) -> agrees D (rib R) (fib R) -> data_of (rib R) i = Some d -> info_ok n d ->
  (walk (kids (rib R)) 0 n = Some i \/
   walk (kids (rib R)) 0 n = None /\ (forall m, walk (kids (rib R)) 0 m <> Some i) /\ routes d = []) ->
  (forall m j, walk (kids (rib R)) 0 m = Some j -> anc (rib R) j i -> m `prefix_of` n) ->
  let R' := clean_entry R i faceId in
  cleaned (fun m => m = n) R R' /\ keeps n R R'.
Proof.
  intros Hok Hc Hx Hi Hcase Hanc. unfold clean_entry. rewrite Hx.
  assert (Hsame : routes_at (rib R) n = [] -> cleaned (fun m => m = n) R R /\ keeps n R R).
  { intros Hr. split; [|by intros ?]. split; try done. intros m. case_decide; [|done]. subst. by rewrite Hr. }
  assert (Hrn : routes d = routes_at (rib R) n).
  { destruct Hcase as [Hw|(Hw & _ & ->)].
    - rewrite <- (view_walk _ n i Hw) in Hx. by rewrite (routes_view _ n d Hx).
    - symmetry. apply routes_view_None. unfold view, node_at. by rewrite Hw. }
  destruct (RName d) as [n'|] eqn:En.
  2:{ apply Hsame. rewrite <- Hrn. destruct Hi as (_ & Hi & _). destruct (routes d); [done|].
      rewrite En in Hi. by discriminate Hi. }
  destruct Hcase as [Hw|(Hw & Hun & Hr)].
  - assert (Hd : view (rib R) n = Some d) by (by rewrite (view_walk _ n i Hw)).
    destruct (drop_entry (rib R) (fib R) n i d (fun r => FaceID r =? faceId)%Z Hok Hc Hw Hd)
      as (Hp & Hok' & Hc' & Hw1 & Hp1 & Hd1 & Hr' & Hst).
    split; [split|]; cbn [rib fib]; try done.
    + intros m. rewrite Hr'. unfold at_name, drop_face. by case_decide; subst.
    + intros m j Hm%(pr_walk _ _ _ Hp). by rewrite <- Hw1.
    + intros j. by rewrite (pr_parent _ _ _ Hp).
    + intros j Hj. rewrite (pr_data _ _ _ Hp). apply Hd1. intros ->. by apply (Hj n Hw).
    + intros m j Hm Hn1 Hn2. apply (pr_keep _ _ _ Hp); [by rewrite Hw1|]. intros Ha. apply Hn2, (Hanc m j Hm).
      by apply (anc_ext _ (rib R)) in Ha.
  - set (A1 := upd_data (rib R) i _).
    assert (HA1 : A1 = rib R).
    { unfold A1, upd_data, upd. unfold data_of in Hx. destruct (rib R) as [N x]. cbn in *. f_equal.
      apply map_eq. intros y. destruct (decide (i = y)) as [<-|]; [|by rewrite lookup_alter_ne].
      rewrite lookup_alter_eq. destruct (N !! i) as [f|]; [|done]. injection Hx as Hx. cbn. f_equal.
      destruct f as [c dp p cs [nm' rs]]. cbn in *. subst d. cbn in Hr. by rewrite Hr. }
    rewrite HA1. unfold update_entry. cbn [rib fib]. rewrite Hx. cbn [rib fib].
    destruct Hi as (Hi1 & _ & _ & Hi4). rewrite En in Hi1. destruct Hi1 as [|[= ->]]; [done|].
    destruct Hc as [Hf Hc]. destruct (updateNexthops_spec (fib R) n d Hf (Hi4 ltac:(congruence)) En) as (Hf' & Hnh & Hst).
    pose proof (prune_loop_spec (S (depth_of (rib R) i)) (rib R) i (ok_struct _ Hok)) as Hp.
    fold (pruneIfEmpty (rib R) i) in Hp.
    split; [split|]; cbn [rib fib].
    + by eapply pruned_ok.
    + split; [done|]. intros m Hm. specialize (Hnh m). rewrite (pr_routes _ _ _ Hp). case_decide.
      * subst m. left. by rewrite Hnh, Hrn.
      * apply (hops_right_same (fib R)); [by left|by apply Hc].
    + intros m. rewrite (pr_routes _ _ _ Hp). case_decide; [|done]. subst m. rewrite <- Hrn. by rewrite Hr.
    + apply Hp.
    + apply Hp.
    + intros j _. apply Hp.
    + done.
    + intros m j Hm Hn1 Hn2. apply (pr_keep _ _ _ Hp); [done|]. intros Ha. by apply Hn2, (Hanc m j Hm).
Qed.

Lemma cleaned_compose P Q `{!forall m, Decision (P m)} `{!forall m, Decision (Q m)} R R1 R2 :
  cleaned P R R1 -> cleaned Q R1 R2 -> (forall m, P m -> Q m -> False) ->
  cleaned (fun m => P m \/ Q m) R R2.
Proof.
  intros [C1 C2 C3 C4 C5 C6 C7] [D1 D2 D3 D4 D5 D6 D7] Hdisj. split; [done|done|..].
  - intros m. rewrite D3, C3. repeat case_decide; naive_solver.
  - auto.
  - intros j. by rewrite D5.
  - intros j Hj. rewrite D6, C6; [done|..]; intros m Hm HP; [by apply (Hj m Hm); left|].
    apply (Hj m); [by apply C4|by right].
  - intros m. by rewrite D7.
Qed.

Lemma cleaned_ext P Q `{!forall m, Decision (P m)} `{!forall m, Decision (Q m)} R R' :
  cleaned P R R' -> (forall m, P m -> Q m) -> (forall m, Q m -> ~ P m -> routes_at (rib R) m = []) ->
  cleaned Q R R'.
Proof.
  intros [C1 C2 C3 C4 C5 C6 C7] HPQ Hnil'. split; try done.
  - intros m. rewrite C3. repeat case_decide; try done; [naive_solver|]. by rewrite Hnil'.
  - intros j Hj. apply C6. intros m Hm HP. apply (Hj m Hm). auto.
Qed.

(** The recursion over the children; [x c] is the component of child [c]. *)
Lemma clean_children (rec : RibTable F -> nat -> RibTable F) n (x : nat -> Component) bound :
  (forall R c, rib_ok (rib R) -> agrees D (rib R) (fib R) ->
    walk (kids (rib R)) 0 (n ++ [x c]) = Some c ->
    (forall m j, walk (kids (rib R)) 0 m = Some j -> length m < bound) ->
    cleaned (fun m => (n ++ [x c]) `prefix_of` m) R (rec R c) /\ keeps (n ++ [x c]) R (rec R c)) ->
  forall cs R, rib_ok (rib R) -> agrees D (rib R) (fib R) ->
  (forall m j, walk (kids (rib R)) 0 m = Some j -> length m < bound) ->
  (forall c, c ∈ cs -> walk (kids (rib R)) 0 (n ++ [x c]) = Some c) -> NoDup (x <$> cs) ->
  let R' := fold_left rec cs R in
  cleaned (fun m => Exists (fun c => (n ++ [x c]) `prefix_of` m) cs) R R' /\
  (forall m j, walk (kids (rib R)) 0 m = Some j ->
    (forall c, c ∈ cs -> ~ (n ++ [x c]) `prefix_of` m /\ ~ m `prefix_of` (n ++ [x c])) ->
    walk (kids (rib R')) 0 m = Some j).
Proof.
  intros Hrec cs. induction cs as [|c cs IH]; intros R Hok Hc Hb Hcs Hnd; cbn [fold_left].
  { split; [|done]. by split. }
  rewrite fmap_cons in Hnd. apply NoDup_cons in Hnd as [Hx Hnd].
  destruct (Hrec R c Hok Hc) as [C K]; [apply Hcs; by left|done|].
  assert (Hsib : forall c', c' ∈ cs -> ~ (n ++ [x c]) `prefix_of` (n ++ [x c'])).
  { intros c' Hc' Hp%prefix_app_inv. apply Hx.
    apply prefix_cons_inv_1 in Hp. rewrite Hp. by apply list_elem_of_fmap_2. }
  assert (Hsib' : forall c', c' ∈ cs -> ~ (n ++ [x c']) `prefix_of` (n ++ [x c])).
  { intros c' Hc' Hp%prefix_app_inv. apply Hx.
    apply prefix_cons_inv_1 in Hp. rewrite <- Hp. by apply list_elem_of_fmap_2. }
  destruct (IH (rec R c)) as [C' K']; [apply C|apply C|..|done|].
  { intros m j Hm. by eapply Hb, cl_walk. }
  { intros c' Hc'. apply K; [apply Hcs; by right|auto..]. }
  split.
  - eapply (cleaned_ext (fun m => (n ++ [x c]) `prefix_of` m \/ Exists (fun c => (n ++ [x c]) `prefix_of` m) cs)).
    + eapply cleaned_compose; [exact C|exact C'|]. intros m Hp (c' & Hc' & Hp')%Exists_exists.
      destruct (prefix_weak_total _ _ _ Hp Hp') as [Ht|Ht]; [by apply (Hsib c')|by apply (Hsib' c')].
    + intros m [?|?]; [by apply Exists_cons_hd|by apply Exists_cons_tl].
    + intros m [?|?]%Exists_cons Hn; naive_solver.
  - intros m j Hm Hall. apply K'.
    + apply K; [done|apply (Hall c); by left..].
    + intros c' Hc'. apply Hall. by right.
Qed.

Lemma clean_spec fuel : forall R i n, rib_ok (rib R) -> agrees D (rib R) (fib R) ->
  walk (kids (rib R)) 0 n = Some i ->
  (forall m j, walk (kids (rib R)) 0 m = Some j -> length m < length n + fuel) ->
  let R' := clean fuel R i faceId in
  cleaned (fun m => n `prefix_of` m) R R' /\ keeps n R R'.
Proof.
  induction fuel as [|fuel IH]; intros R i n Hok Hc Hw Hb; [specialize (Hb n i Hw); lia|].
  cbn [clean]. pose proof (ok_struct _ Hok) as Hs.
  set (x := comp_of (rib R)). set (cs := children_of (rib R) i).
  set (R1 := fold_left _ cs R).
  destruct (walk_node used (rib R) n i Hs Hw) as (f & Hf & _).
  assert (Hkids : forall c, c ∈ cs -> kids (rib R) i (x c) = Some c).
  { intros c Hcin. unfold cs, children_of in Hcin. rewrite Hf in Hcin. by apply (kids_child used Hs i f). }
  destruct (clean_children (fun R c => clean fuel R c faceId) n x (length n + S fuel)) with (cs := cs) (R := R)
    as [C K]; try done.
  { intros R0 c Hok0 Hc0 Hw0 Hb0. apply IH; [done..|]. intros m j Hm. specialize (Hb0 m j Hm).
    rewrite length_app. cbn. lia. }
  { intros c Hcin. rewrite walk_snoc, Hw. cbn. by apply Hkids. }
  { unfold cs, children_of. rewrite Hf. by eapply ok_distinct. }
  fold R1 in C, K.
  assert (HnP : ~ Exists (fun c => (n ++ [x c]) `prefix_of` n) cs).
  { intros (c & _ & Hp%prefix_length)%Exists_exists. rewrite length_app in Hp. cbn in Hp. lia. }
  destruct (rib_walk_view (rib R) n i Hok Hw) as (d & Hd & Hx & Hi).
  assert (Huniq : forall m, walk (kids (rib R)) 0 m = Some i -> m = n)
    by (intros m Hm; by apply (walk_inj (tree_trie used (rib R) Hs) m n i)).
  assert (Hx1 : data_of (rib R1) i = Some d).
  { rewrite (cl_data _ _ _ C); [done|]. intros m Hm. by rewrite (Huniq m Hm). }
  assert (Hcase : walk (kids (rib R1)) 0 n = Some i \/
    walk (kids (rib R1)) 0 n = None /\ (forall m, walk (kids (rib R1)) 0 m <> Some i) /\ routes d = []).
  { destruct (walk (kids (rib R1)) 0 n) as [j|] eqn:Ew.
    - left. apply (cl_walk _ _ _ C) in Ew. congruence.
    - right. split_and!; [done| |].
      + intros m Hm. pose proof (cl_walk _ _ _ C m i Hm) as Hm'. apply Huniq in Hm'. subst m. congruence.
      + rewrite <- (routes_view _ n d Hd). pose proof (cl_routes _ _ _ C n) as Hr. rewrite decide_False in Hr by done.
        rewrite <- Hr. apply routes_view_None. unfold view, node_at. by rewrite Ew. }
  destruct (clean_entry_spec R1 n i d (cl_ok _ _ _ C) (cl_consistent _ _ _ C) Hx1 Hi Hcase) as [C' K'].
  { intros m j Hm Ha. apply (anc_walk (rib R) j i); [done| |by apply (cl_walk _ _ _ C)|done].
    apply (anc_ext (rib R1)); [|done]. intros y. by rewrite (cl_parent _ _ _ C). }
  split.
  - eapply (cleaned_ext (fun m => Exists (fun c => (n ++ [x c]) `prefix_of` m) cs \/ m = n)).
    + eapply cleaned_compose; [exact C|exact C'|]. intros m HP ->. done.
    + intros m [(c & _ & Hp)%Exists_exists| ->]; [|done]. etrans; [|exact Hp]. by apply prefix_app_r.
    + intros m [r ->] HnPm. apply routes_view_None. destruct r as [|e r]; [by destruct HnPm; right; rewrite app_nil_r|].
      unfold view, node_at. rewrite walk_app, Hw. cbn.
      destruct (kids (rib R) i e) as [c|] eqn:Ek; [|done]. exfalso. apply HnPm. left. apply Exists_exists.
      apply (kids_spec used) in Ek as (f' & ch & Hf' & Hin & Hch & Hcc); [|done]. exists c. split.
      * unfold cs, children_of. rewrite Hf'. done.
      * assert (x c = e) as -> by (unfold x, comp_of; by rewrite Hch). exists r. by rewrite <- app_assoc.
  - intros m j Hm Hn1 Hn2. apply K'; [|done|done]. apply K; [done|]. intros c Hcin. split; intros Hp.
    + apply Hn1. etrans; [|exact Hp]. by apply prefix_app_r.
    + destruct (decide (length m <= length n)) as [Hl|Hl].
      * apply Hn2. destruct (prefix_weak_total m n (n ++ [x c]) Hp) as [?|Hp']; [by apply prefix_app_r|done|].
        by apply Hn1 in Hp'.
      * apply Hn1. destruct (prefix_weak_total m n (n ++ [x c]) Hp) as [Hp'|?]; [by apply prefix_app_r| |done].
        apply prefix_length in Hp'. lia.
Qed.

Lemma max_depth_le A i f : nodes A !! i = Some f -> depth f <= max_depth A.
Proof.
  unfold max_depth. revert i f.
  apply (map_fold_weak_ind (fun (r : nat) (m : gmap nat RibEntry) => forall i f, m !! i = Some f -> depth f <= r)).
  - intros i f Hf. by rewrite lookup_empty in Hf.
  - intros i g m r Hi IH j f [(<- & <-)|(Hne & Hf)]%lookup_insert_Some; [lia|]. specialize (IH j f Hf). lia.
Qed.

Lemma CleanUpFace_ok R : rib_ok (rib R) -> agrees D (rib R) (fib R) ->
  cleaned (fun _ => True) R (CleanUpFace R faceId).
Proof.
  intros Hok Hc. unfold CleanUpFace. pose proof (ok_struct _ Hok) as Hs.
  destruct (clean_spec (S (max_depth (rib R))) R 0 [] Hok Hc eq_refl) as [C _].
  - intros m j Hm. destruct (walk_node used (rib R) m j Hs Hm) as (f & Hf & Hd).
    pose proof (max_depth_le (rib R) j f Hf). cbn. lia.
  - eapply (cleaned_ext (fun m => [] `prefix_of` m)); [exact C|done|]. intros m _ Hn. destruct Hn. apply prefix_nil.
Qed.

End clean.

(** *** Listing *)

Lemma GetAllEntries_ok R d : rib_ok (rib R) ->
  d ∈ GetAllEntries R <-> exists n, d = mkRibData (Some n) (routes_at (rib R) n) /\ routes_at (rib R) n <> [].
Proof.
  intros Hok. unfold GetAllEntries. rewrite list_elem_of_omap.
  destruct (visit_reached used (rib R) (ok_struct _ Hok)) as [_ Hr]. split.
  - intros (i & [n Hw]%Hr & He). destruct (rib_walk_view _ n i Hok Hw) as (d' & Hd & Hx & Hi & Hn & _).
    rewrite Hx in He. cbn in He. case_decide as Hne; [done|]. injection He as <-.
    exists n. rewrite (routes_view _ n d' Hd). specialize (Hn Hne). destruct d' as [nm' rs]. cbn in *. by subst.
  - intros (n & -> & Hne). destruct (view (rib R) n) as [d|] eqn:Hd; [|by rewrite (routes_view_None _ n Hd) in Hne].
    destruct (view_Some used _ n d (ok_struct _ Hok) Hd) as (i & Hw & Hx). exists i.
    split; [apply Hr; by exists n|]. rewrite Hx. cbn. rewrite (routes_view _ n d Hd) in *.
    rewrite decide_False by done. destruct (ok_info _ Hok n d Hd) as (_ & Hn & _). specialize (Hn Hne).
    destruct d as [nm' rs]. cbn in *. by subst.
Qed.

End fib.

(** *** Runs *)

Inductive rib_op :=
| RibAdd (n : Name) (faceID origin cost flags : Z) (exp : option Z)
| RibRemove (n : Name) (faceID origin : Z)
| RibCleanUp (faceID : Z).

Definition rib_step R (o : rib_op) : RibTable F :=
  match o with
  | RibAdd n f o c fl e => AddEncRoute R (Some n) f o c fl e
  | RibRemove n f o => RemoveRouteEnc R n f o
  | RibCleanUp f => CleanUpFace R f
  end.

(** The abstract RIB: the routes of every name. *)
Definition spec_step (s : Name -> list Route) (o : rib_op) : Name -> list Route :=
  match o with
  | RibAdd n f o c fl e => at_name n (add_route (s n) (mkRoute f o c fl e)) s
  | RibRemove n f o => at_name n (remove_first (same_route f o) (s n)) s
  | RibCleanUp f => fun n => drop_face f (s n)
  end.

Definition rib_run R (os : list rib_op) : RibTable F := fold_left rib_step os R.
Definition rib_spec (os : list rib_op) : Name -> list Route := fold_left spec_step os (fun _ => []).

Lemma spec_step_ext s s' o : (forall n, s n = s' n) -> forall n, spec_step s o n = spec_step s' o n.
Proof. intros Hs n. destruct o; cbn; unfold at_name; rewrite ?Hs; by try case_decide. Qed.

(** The names of the routes that are added are names the FIB can hold. *)
Definition op_dom (o : rib_op) : Prop := match o with RibAdd n _ _ _ _ _ => fib_dom n | _ => True end.

Lemma rib_run_ok {D : Name -> Prop} os : Forall op_dom os -> forall R s,
  rib_ok (rib R) -> agrees D (rib R) (fib R) -> (forall n, routes_at (rib R) n = s n) ->
  let R' := rib_run R os in
  rib_ok (rib R') /\ agrees D (rib R') (fib R') /\
  (forall n, routes_at (rib R') n = fold_left spec_step os s n) /\
  (forall n, fib_st (fib R') n = fib_st (fib R) n).
Proof.
  unfold rib_run. induction 1 as [|o os Ho _ IH]; intros R s Hok Hc Hs; [done|]. cbn.
  assert (Hone : let R1 := rib_step R o in rib_ok (rib R1) /\ agrees D (rib R1) (fib R1) /\
    (forall n, routes_at (rib R1) n = spec_step s o n) /\ (forall n, fib_st (fib R1) n = fib_st (fib R) n)).
  { destruct o as [n f og c fl e|n f og|f]; cbn.
    - destruct (AddEncRoute_ok R n f og c fl e Ho Hok Hc) as (? & ? & Hr & ?).
      split_and!; try done. intros m. rewrite Hr. unfold at_name. by rewrite !Hs.
    - destruct (RemoveRouteEnc_ok R n f og Hok Hc) as (? & ? & Hr & ?).
      split_and!; try done. intros m. rewrite Hr. unfold at_name. by rewrite !Hs.
    - destruct (CleanUpFace_ok f R Hok Hc) as [? ? Hr _ _ _ ?].
      split_and!; try done. intros m. rewrite Hr. by rewrite decide_True, Hs. }
  destruct Hone as (Hok1 & Hc1 & Hr1 & Hst1). destruct (IH _ _ Hok1 Hc1 Hr1) as (? & ? & ? & Hst).
  split_and!; try done. intros n. by rewrite Hst, Hst1.
Qed.

Lemma new_rib_ok (f : F) : fib_ok f -> (forall n, fib_nh f n = []) ->
  rib_ok (rib (newRib f)) /\ consistent (rib (newRib f)) (fib (newRib f)) /\
  (forall n, routes_at (rib (newRib f)) n = []).
Proof.
  intros Hf Hnh. destruct (new_arena_spec used zero_component (mkRibData None [])) as [Hs Hv].
  assert (Hr : forall n, routes_at (rib (newRib f)) n = []).
  { intros n. unfold routes_at. cbn [rib newRib]. rewrite Hv. by case_decide. }
  split_and!; [|split; [done|]|done].
  - split; [done|]. intros n d. cbn [rib newRib]. rewrite Hv. case_decide as Hn; [|done]. intros [= <-].
    split_and!; [by left|done|apply NoDup_nil_2|done].
  - intros n _. left. rewrite Hr. cbn [fib newRib]. by rewrite Hnh.
Qed.

(** *** Looking up *)

Lemma minCostRoutes_nil l : nonempty_map (minCostRoutes l) = None -> l = [].
Proof.
  unfold nonempty_map. case_decide as E; [|done]. intros _. destruct l as [|r l _] using rev_ind; [done|]. exfalso.
  rewrite minCostRoutes_snoc in E. unfold min_cost in E.
  destruct (minCostRoutes l !! FaceID r) as [c|] eqn:Em; [destruct (RCost r <? c)%Z|];
    [by apply insert_non_empty in E| |by apply insert_non_empty in E].
  by rewrite E, lookup_empty in Em.
Qed.

(** The next hops of [n] would be those of the root, which the hash table has lost. *)
Definition lost_at_root (f : F) (n : Name) (s : Name -> list Route) : Prop :=
  fib_nil_clears = true /\ FindNextHopsEnc f n = [] /\ forall m, m <> [] -> m `prefix_of` n -> s m = [].

(** The lookup in a FIB that agrees with the RIB. *)
Lemma lookup_agrees A (f : F) n : consistent A f -> fib_dom n ->
  hops_map (FindNextHopsEnc f n) = default ∅ (lpm (fun m => nonempty_map (minCostRoutes (routes_at A m))) n) \/
  lost_at_root f n (routes_at A).
Proof.
  intros [Hf Hc] Hn. unfold lost_at_root. rewrite FindNextHops_lpm by done.
  set (g := fun m => hops_map <$> nonempty (fib_nh f m)). set (h := fun m => nonempty_map (minCostRoutes (routes_at A m))).
  assert (Hgh : forall m, hops_map (fib_nh f m) = minCostRoutes (routes_at A m) -> g m = h m).
  { intros m Hm. unfold g, h. by rewrite hops_map_nonempty, Hm. }
  assert (Hl : hops_map (default [] (lpm (fun m => nonempty (fib_nh f m)) n)) = default ∅ (lpm g n)).
  { unfold g. rewrite <- lpm_fmap. by destruct (lpm _ n). }
  rewrite Hl. destruct (Hc [] ltac:(tauto)) as [Hr|(Hnil & _ & Hr)].
  - left. f_equal. apply lpm_ext. intros m. apply Hgh. destruct (Hc m ltac:(tauto)) as [|(_ & -> & _)]; done.
  - assert (Hr' : g [] = None) by (unfold g; by rewrite hops_map_nonempty, Hr).
    destruct (lpm_but_root g h n) as [->|[E Hm]]; [|by left|right].
    { intros m Hm. apply Hgh. apply hops_right_named; [done|]. apply Hc. tauto. }
    split; [done|]. split; [|intros m Hm1 Hm2; by apply minCostRoutes_nil, Hm].
    rewrite Hr' in E. unfold g in E. rewrite <- lpm_fmap in E. by destruct (lpm _ n).
Qed.

End laws.

(** ** Properties *)

(** C4: The RIB drives the FIB, whichever of the two algorithms it uses: after any
    sequence of route registrations (for names the FIB can hold), removals and face
    clean-ups, on a FIB that had no next hops, the RIB holds for every name exactly
    the routes of the abstract RIB (one per face and origin); the FIB looks up, for
    every name, the cheapest cost per face among the routes of the longest prefix
    that has any; strategies are unaffected; and GetAllEntries lists exactly the
    names with routes.  The one exception to the lookup is the hash table
    ([fib_nil_clears] is [true] for it and [false] for the name tree), where
    RemoveRouteEnc on an entry without a name clears the next hops of the root:
    then a name none of whose nonempty prefixes has a route finds no next hop,
    whatever the routes of the root. *)
Theorem rib_refines `{EncLaws} {F : Type} `{FibStrategyLaws F} (f : F) (os : list rib_op) :
  fib_ok f -> (forall n, fib_nh f n = []) -> Forall op_dom os ->
  let R := rib_run (newRib f) os in
  (forall n, routes_at (rib R) n = rib_spec os n /\ NoDup (route_key <$> rib_spec os n)) /\
  (forall n, fib_dom n ->
    (hops_map (FindNextHopsEnc (fib R) n) =
      default ∅ (lpm (fun m => nonempty_map (minCostRoutes (rib_spec os m))) n) \/
     fib_nil_clears = true /\ FindNextHopsEnc (fib R) n = [] /\
      (forall m, m <> [] -> m `prefix_of` n -> rib_spec os m = [])) /\
    FindStrategyEnc (fib R) n = FindStrategyEnc f n) /\
  (forall d, d ∈ GetAllEntries R <-> exists n, d = mkRibData (Some n) (rib_spec os n) /\ rib_spec os n <> []).
Proof.
  intros Hf Hnh Hos R. destruct (new_rib_ok f Hf Hnh) as (Hok0 & Hc0 & Hr0).
  destruct (rib_run_ok os Hos (newRib f) (fun _ => []) Hok0 Hc0 Hr0) as (Hok & Hc & Hr & Hst).
  fold R in Hok, Hc, Hr, Hst. change (fold_left spec_step os (fun _ => [])) with (rib_spec os) in Hr.
  split_and!.
  - intros n. split; [done|]. rewrite <- Hr. unfold routes_at.
    destruct (view (rib R) n) as [d|] eqn:Hd; [|apply NoDup_nil_2]. by apply (ok_info _ Hok n d Hd).
  - intros n Hn. split.
    + rewrite (lpm_ext _ (fun m => nonempty_map (minCostRoutes (routes_at (rib R) m)))) by (intros; by rewrite Hr).
      destruct (lookup_agrees (rib R) (fib R) n Hc Hn) as [|(? & ? & Hm)]; [by left|right].
      split_and!; [done..|]. intros m. rewrite <- Hr. apply Hm.
    + rewrite !FindStrategy_lpm by (done || apply Hc). by apply lpm_ext.
  - intros d. rewrite GetAllEntries_ok by done. by setoid_rewrite Hr.
Qed.

(** The name tree loses nothing. *)
Lemma rib_lookup_tree `{EncLaws} {F : Type} `{FibStrategyLaws F} (A : arena rib_data) (f : F) n :
  fib_nil_clears = false -> agrees (fun _ => False) A f -> fib_dom n ->
  hops_map (FindNextHopsEnc f n) = default ∅ (lpm (fun m => nonempty_map (minCostRoutes (routes_at A m))) n).
Proof. intros Ht Hc Hn. destruct (lookup_agrees A f n Hc Hn) as [|(E & _)]; [done|by rewrite Ht in E]. Qed.

(** Destroying a face: after CleanUpFace every name has lost the first of
    its routes through the face and nothing else, so when no name had two
    routes (of different origins) through it, no route and no next hop of the
    face is left. *)
Lemma clean_up_face_spec `{EncLaws} {F : Type} `{FibStrategyLaws F} (f : F) (os : list rib_op) (faceId : Z) :
  fib_ok f -> (forall n, fib_nh f n = []) -> Forall op_dom os ->
  let R := rib_run (newRib f) os in
  let R' := CleanUpFace R faceId in
  (forall n, routes_at (rib R') n = drop_face faceId (routes_at (rib R) n)) /\
  ((forall n, length (filter (fun r => FaceID r = faceId) (routes_at (rib R) n)) <= 1) ->
   forall n, Forall (fun r => FaceID r <> faceId) (routes_at (rib R') n) /\
     (fib_dom n -> Forall (fun e => Nexthop e <> faceId) (FindNextHopsEnc (fib R') n))).
Proof.
  intros Hf Hnh Hos R R'. destruct (new_rib_ok f Hf Hnh) as (Hok0 & Hc0 & Hr0).
  destruct (rib_run_ok os Hos (newRib f) (fun _ => []) Hok0 Hc0 Hr0) as (Hok & Hc & _ & _).
  fold R in Hok, Hc. destruct (CleanUpFace_ok faceId R Hok Hc) as [Hok' [Hf' Hc'] Hr' _ _ _ _].
  fold R' in Hok', Hf', Hc', Hr'.
  assert (Hr : forall n, routes_at (rib R') n = drop_face faceId (routes_at (rib R) n))
    by (intros n; rewrite Hr'; by rewrite decide_True).
  split; [done|]. intros Hone.
  assert (Hno : forall n, Forall (fun r => FaceID r <> faceId) (routes_at (rib R') n)).
  { intros n. rewrite Hr. specialize (Hone n). revert Hone. generalize (routes_at (rib R) n) as l.
    unfold drop_face. induction l as [|r l IH]; intros Hl; cbn [remove_first]; [constructor|].
    rewrite filter_cons in Hl. destruct (Z.eqb_spec (FaceID r) faceId) as [E|E].
    - rewrite decide_True in Hl by done. cbn in Hl. apply Forall_forall. intros x Hx Hxf.
      assert (Hin : x ∈ filter (fun r => FaceID r = faceId) l) by (by apply list_elem_of_filter).
      destruct (filter (fun r => FaceID r = faceId) l); [by apply elem_of_nil in Hin|cbn in Hl; lia].
    - rewrite decide_False in Hl by done. constructor; [done|by apply IH]. }
  intros n. split; [done|]. intros Hn. rewrite FindNextHops_lpm by done.
  pose proof (lpm_spec (fun m => nonempty (fib_nh (fib R') m)) n) as Hl. destruct (lpm _ n) as [nhs|]; [|constructor].
  destruct Hl as (p & _ & [-> _]%nonempty_Some & _). apply Forall_forall. intros [h c] He Hh. change (h = faceId) in Hh. subst h.
  change (default [] (Some ?l)) with l in He. apply (hops_map_elem _ faceId c) in He; [|by apply fib_hops_ok].
  destruct (Hc' p ltac:(tauto)) as [E|(_ & _ & E)].
  2:{ rewrite E in He. by rewrite lookup_empty in He. }
  rewrite E in He.
  apply minCostRoutes_spec in He as [(r & Hr1 & Hr2 & _) _]. specialize (Hno p).
  rewrite Forall_forall in Hno. by apply (Hno r).
Qed.

(** ** Examples *)

From S2P Require Import FibTree FibHash.

Section witness.
#[local] Existing Instance ref_ops.
#[local] Existing Instance ref_laws.

Definition ex_rib_ops : list rib_op :=
  [RibAdd [gc "a"; gc "b"] 1 0 10 1 None; RibAdd [gc "a"; gc "b"] 1 255 4 1 None;
   RibAdd [gc "a"] 2 0 7 1 (Some 3600%Z); RibAdd [gc "a"; gc "b"] 3 0 9 1 None;
   RibRemove [gc "a"; gc "b"] 3 0].

Definition ex_fib : FibStrategyTree := newFibStrategyTableTree (Some best_route).

Lemma ex_fib_empty n : fib_nh ex_fib n = [].
Proof. apply new_view. Qed.

Lemma rib_refines_witness :
  let R := rib_run (newRib ex_fib) ex_rib_ops in
  hops_map (FindNextHopsEnc (fib R) [gc "a"; gc "b"; gc "c"]) = {[1 := 4]}%Z /\
  (forall d, d ∈ GetAllEntries R <->
    exists n, d = mkRibData (Some n) (rib_spec ex_rib_ops n) /\ rib_spec ex_rib_ops n <> []).
Proof.
  split; [vm_compute; reflexivity|].
  refine (proj2 (proj2 (rib_refines ex_fib ex_rib_ops _ _ _))).
  - apply new_ok.
  - exact ex_fib_empty.
  - repeat constructor.
Defined.

Lemma clean_up_face_witness :
  let R := rib_run (newRib ex_fib) ex_rib_ops in
  let R' := CleanUpFace R 2 in
  FindNextHopsEnc (fib R) [gc "a"; gc "x"] = [mkNextHop 2 7] /\
  FindNextHopsEnc (fib R') [gc "a"; gc "x"] = [] /\
  forall n, routes_at (rib R') n = drop_face 2 (routes_at (rib R) n).
Proof.
  split; [vm_compute; reflexivity|]. split; [vm_compute; reflexivity|].
  refine (proj1 (clean_up_face_spec ex_fib ex_rib_ops 2 _ _ _)).
  - apply new_ok.
  - exact ex_fib_empty.
  - repeat constructor.
Defined.

(** With two routes of different origins through one face, CleanUpFace leaves
    the second one, and the FIB keeps forwarding to the destroyed face. *)
Lemma clean_up_face_leaves_route :
  let R' := CleanUpFace (rib_run (newRib ex_fib) ex_rib_ops) 1 in
  routes_at (rib R') [gc "a"; gc "b"] = [mkRoute 1 255 4 1 None] /\
  FindNextHopsEnc (fib R') [gc "a"; gc "b"] = [mkNextHop 1 4].
Proof. vm_compute. by split. Qed.

(** With the hash table a route of the root stops forwarding once the route of an
    unnamed entry is removed; with the name tree it does not. *)
Definition root_ops : list rib_op := [RibAdd [] 7 0 5 1 None; RibAdd [gc "a"; gc "b"] 1 0 10 1 None; RibRemove [gc "a"] 1 0].

Lemma hash_root_lost :
  let R := rib_run (newRib (newFibStrategyTableHashTable 5 (Some best_route))) root_ops in
  routes_at (rib R) [] = [mkRoute 7 0 5 1 None] /\ FindNextHopsEnc (fib R) [gc "x"] = [] /\
  FindNextHopsEnc (fib (rib_run (newRib ex_fib) root_ops)) [gc "x"] = [mkNextHop 7 5].
Proof. vm_compute. by split. Qed.

End witness.
