(* ===== verification/DeadNonce.v ===== *)
(** * Dead nonce list and network regions
    (table/dead-nonce-list.go, table/network-region.go)

    The list is a set of 64-bit keys (name hash plus nonce) and a priority
    queue of the same keys by expiration time.  The clock is an argument; it is
    read once per call, so it does not advance during one call. *)
From S2P Require Import Prelude.
From S2P Require Import Enc.
From S2P Require Import PQueue.

Record DeadNonceList := mkDNL {
  dnl_list : gset Z;
  expirationQueue : list (item Z) }.

Section ops.
Context `{EncOps}.

Definition NewDeadNonceList : DeadNonceList := mkDNL ∅ PQueue.New.

(** [name.Hash() + uint64(nonce)]. *)
Definition dnl_key (name : Name) (nonce : Z) : Z := u64 (Name_Hash name + u32 nonce).

Definition Find (d : DeadNonceList) (name : Name) (nonce : Z) : bool :=
  bool_decide (dnl_key name nonce ∈ dnl_list d).

(** [lifetime] is [deadNonceListLifetime]. *)
Definition Insert (lifetime now : Z) (d : DeadNonceList) (name : Name) (nonce : Z) : DeadNonceList * bool :=
  let hash := dnl_key name nonce in
  if decide (hash ∈ dnl_list d) then (d, true)
  else (mkDNL ({[hash]} ∪ dnl_list d) (PQueue.Push (expirationQueue d) hash (now + lifetime)).1, false).

(** [fuel] is what is left of the limit of 100 evictions. *)
Fixpoint remove_expired (fuel : nat) (now : Z) (d : DeadNonceList) : DeadNonceList :=
  match fuel with
  | O => d
  | S fuel' =>
      match PQueue.PeekPriority (expirationQueue d) with
      | None => d
      | Some p =>
          if (p <? now)%Z then
            match PQueue.Pop (expirationQueue d) with
            | None => d
            | Some (hash, q) => remove_expired fuel' now (mkDNL (dnl_list d ∖ {[hash]}) q)
            end
          else d
      end
  end.

Definition RemoveExpiredEntries (now : Z) (d : DeadNonceList) : DeadNonceList :=
  remove_expired 100 now d.

(** ** Network regions *)

Definition Add (regions : list Name) (name : Name) : list Name :=
  if existsb (fun region => Name_Equal region name) regions then regions else regions ++ [name].

Definition IsProducer (regions : list Name) (name : Name) : bool :=
  existsb (fun region => Name_IsPrefix region name) regions.

End ops.

(** ** Invariant *)

Section laws.
Context `{EncOps}.

(** The expiration times of the keys. *)
Definition expiries (d : DeadNonceList) : list (Z * Z) := PQueue.contents (expirationQueue d).

(** The queue holds each key of the set exactly once. *)
Record dnl_ok (d : DeadNonceList) : Prop := {
  ok_queue : PQueue.heap_ok (expirationQueue d) /\ PQueue.index_ok (expirationQueue d);
  ok_nodup : NoDup (expiries d).*1;
  ok_keys : forall k, k ∈ dnl_list d <-> k ∈ (expiries d).*1 }.

Lemma dnl_new_ok : dnl_ok NewDeadNonceList.
Proof.
  split; [split; [intros k Hk; cbn in Hk; lia|done]|apply NoDup_nil_2|].
  intros k. cbn. rewrite elem_of_nil. set_solver.
Qed.

Lemma Insert_ok lifetime now d name nonce : dnl_ok d ->
  let '(d', dup) := Insert lifetime now d name nonce in
  dnl_ok d' /\ dup = Find d name nonce /\
  (if dup then d' = d else expiries d' ≡ₚ (dnl_key name nonce, (now + lifetime)%Z) :: expiries d).
Proof.
  intros [[Hh Hi] Hn Hk]. unfold Insert, Find. case_decide as Hin.
  - split_and!; [by split|by rewrite bool_decide_true|done].
  - pose proof (PQueue.Push_spec (expirationQueue d) (dnl_key name nonce) (now + lifetime) Hh Hi) as HP.
    destruct (PQueue.Push _ _ _) as [q ix]. destruct HP as (Hh' & Hi' & Hc & _). cbn [fst].
    assert (Hc' : PQueue.contents q ≡ₚ (dnl_key name nonce, (now + lifetime)%Z) :: expiries d) by exact Hc.
    split_and!; [|by rewrite bool_decide_false|done]. split; unfold expiries; cbn.
    + done.
    + rewrite Hc'. cbn. apply NoDup_cons. split; [|done]. by rewrite <- Hk.
    + intros k. rewrite Hc'. cbn. rewrite elem_of_cons, <- Hk. set_solver.
Qed.

Lemma Permutation_nil_cons_false {A} (x : A) l : ~ [] ≡ₚ x :: l.
Proof. apply Permutation_nil_cons. Qed.

(** One round of the loop takes out a key with the earliest expiration. *)
Lemma remove_expired_spec fuel now : forall d, dnl_ok d ->
  let d' := remove_expired fuel now d in
  dnl_ok d' /\ exists gone,
    expiries d ≡ₚ gone ++ expiries d' /\
    Forall (fun e => (e.2 < now)%Z) gone /\
    (forall e e', e ∈ gone -> e' ∈ expiries d' -> (e.2 <= e'.2)%Z) /\
    (length gone = fuel \/ length gone < fuel /\ Forall (fun e => (now <= e.2)%Z) (expiries d')).
Proof.
  induction fuel as [|fuel IH]; intros d Hok; cbn [remove_expired].
  { split; [done|]. exists []. split_and!; [done|constructor| |by left].
    intros e e' Hx. by apply not_elem_of_nil in Hx. }
  pose proof Hok as [[Hh Hi] Hn Hk]. pose proof (PQueue.Pop_spec _ Hh Hi) as HP.
  assert (Hstop : Forall (fun e => (now <= e.2)%Z) (expiries d) ->
    dnl_ok d /\ exists gone, expiries d ≡ₚ gone ++ expiries d /\
      Forall (fun e => (e.2 < now)%Z) gone /\
      (forall e e', e ∈ gone -> e' ∈ expiries d -> (e.2 <= e'.2)%Z) /\
      (length gone = S fuel \/ length gone < S fuel /\ Forall (fun e => (now <= e.2)%Z) (expiries d))).
  { intros HF. split; [done|]. exists []. split_and!; [done|constructor| |right; cbn; split; [lia|done]].
    intros e e' Hx. by apply not_elem_of_nil in Hx. }
  destruct (PQueue.Pop (expirationQueue d)) as [[hash q]|] eqn:EP.
  - destruct HP as (p & Hv & Hp & Hc & Hh' & Hi' & Hmin). rewrite Hp.
    destruct (Z.ltb_spec p now) as [Hlt|Hge].
    2:{ apply Hstop. apply Forall_forall. intros [k x] Hx. specialize (Hmin k x Hx). cbn. lia. }
    set (d1 := mkDNL (dnl_list d ∖ {[hash]}) q).
    assert (Hc1 : expiries d ≡ₚ (hash, p) :: expiries d1) by exact Hc.
    rewrite Hc1 in Hn. cbn in Hn. apply NoDup_cons in Hn as [Hnin Hn].
    assert (Hok1 : dnl_ok d1).
    { split; [done|done|]. intros k. unfold d1 at 1. cbn [dnl_list].
      rewrite elem_of_difference, Hk, Hc1, not_elem_of_singleton. cbn. rewrite elem_of_cons.
      split; [by intros [[->|?] ?]|]. intros Hx. split; [by right|]. intros ->. done. }
    destruct (IH d1 Hok1) as (Hok' & gone & HP' & HF & HM & HL). split; [done|].
    exists ((hash, p) :: gone). split_and!.
    + by rewrite Hc1, HP'.
    + by constructor.
    + intros e e' [->|He]%elem_of_cons He'; [|by apply HM]. destruct e' as [k x]. cbn.
      apply (Hmin k). unfold expiries in *. rewrite Hc, elem_of_cons. right.
      assert (Hx : (k, x) ∈ expiries d1) by (rewrite HP', elem_of_app; by right). exact Hx.
    + cbn. destruct HL as [->|[? ?]]; [by left|right; split; [lia|done]].
  - assert (Hnil : expiries d = []) by (unfold expiries; by rewrite HP).
    rewrite HP. cbn. apply Hstop. rewrite Hnil. constructor.
Qed.

(** *** Reachable lists *)

Inductive reachable (lifetime : Z) : DeadNonceList -> Prop :=
| reach_new : reachable lifetime NewDeadNonceList
| reach_insert d now name nonce : reachable lifetime d ->
    reachable lifetime (Insert lifetime now d name nonce).1
| reach_remove d now : reachable lifetime d -> reachable lifetime (RemoveExpiredEntries now d).

Lemma dnl_reachable_ok lifetime d : reachable lifetime d -> dnl_ok d.
Proof.
  induction 1 as [|d now name nonce _ IH|d now _ IH]; [apply dnl_new_ok| |].
  - pose proof (Insert_ok lifetime now d name nonce IH) as HI. destruct (Insert _ _ _ _ _). apply HI.
  - by apply (remove_expired_spec 100 now d IH).
Qed.

End laws.

(** ** Properties *)

(** On any list built by its operations, Insert reports exactly whether the
    key was present, and otherwise adds it with its expiration time, after
    which Find sees it; RemoveExpiredEntries removes only expired keys,
    earliest first, and either 100 of them or all expired ones; the keys that
    Find sees are those in the expiration queue, each once. *)
Lemma dead_nonce_list_spec `{EncOps} (lifetime : Z) (d : DeadNonceList) :
  reachable lifetime d ->
  (forall now name nonce,
    let '(d', dup) := Insert lifetime now d name nonce in
    dup = Find d name nonce /\ Find d' name nonce = true /\
    (if dup then d' = d else expiries d' ≡ₚ (dnl_key name nonce, (now + lifetime)%Z) :: expiries d)) /\
  (forall now, exists gone,
    expiries d ≡ₚ gone ++ expiries (RemoveExpiredEntries now d) /\
    Forall (fun e => (e.2 < now)%Z) gone /\
    (forall e e', e ∈ gone -> e' ∈ expiries (RemoveExpiredEntries now d) -> (e.2 <= e'.2)%Z) /\
    (length gone = 100 \/
     length gone < 100 /\ Forall (fun e => (now <= e.2)%Z) (expiries (RemoveExpiredEntries now d)))) /\
  NoDup (expiries d).*1 /\
  (forall name nonce, Find d name nonce = true <-> dnl_key name nonce ∈ (expiries d).*1).
Proof.
  intros Hok%dnl_reachable_ok. split_and!.
  - intros now name nonce. pose proof (Insert_ok lifetime now d name nonce Hok) as HI.
    destruct (Insert lifetime now d name nonce) as [d' dup]. destruct HI as (Hok' & -> & HI).
    split_and!; [done| |done]. destruct (Find d name nonce) eqn:E; [by subst|].
    unfold Find. apply bool_decide_eq_true. rewrite (ok_keys d' Hok'), HI. cbn. by left.
  - intros now. apply (remove_expired_spec 100 now d Hok).
  - apply Hok.
  - intros name nonce. unfold Find. rewrite bool_decide_eq_true. apply (ok_keys d Hok).
Qed.

Lemma dead_nonce_list_witness :
  let d := (@Insert ref_ops 6 10 (@Insert ref_ops 6 0 NewDeadNonceList [gc "a"] 1).1 [gc "b"] 2).1 in
  @reachable ref_ops 6 d /\
  length (expiries (RemoveExpiredEntries 7 d)) = 1 /\
  (forall name nonce, @Find ref_ops d name nonce = true <-> @dnl_key ref_ops name nonce ∈ (expiries d).*1).
Proof.
  intros d. assert (Hr : @reachable ref_ops 6 d) by (repeat constructor).
  split; [exact Hr|]. split; [vm_compute; reflexivity|].
  exact (proj2 (proj2 (proj2 (@dead_nonce_list_spec ref_ops 6 d Hr)))).
Defined.

(** A name is in the region of a producer exactly if a configured region
    name is a prefix of it, however often and in whichever order the names
    were added; the table never holds a name twice. *)
Lemma network_region_spec `{EncLaws} (added : list Name) (n : Name) :
  let regions := fold_left Add added [] in
  NoDup regions /\
  (IsProducer regions n = true <-> exists r, r ∈ added /\ r `prefix_of` n).
Proof.
  assert (Hf : forall regions, NoDup regions ->
    NoDup (fold_left Add added regions) /\
    (forall r, r ∈ fold_left Add added regions <-> r ∈ regions \/ r ∈ added)).
  { induction added as [|a added IH]; intros regions Hn; cbn [fold_left].
    - split; [done|]. intros r. rewrite elem_of_nil. naive_solver.
    - assert (HA : NoDup (Add regions a) /\ forall r, r ∈ Add regions a <-> r ∈ regions \/ r = a).
      { unfold Add. destruct (existsb _ regions) eqn:E.
        - apply existsb_exists in E as (x & Hx & He). rewrite Name_Equal_spec in He.
          apply bool_decide_eq_true in He as ->. apply list_elem_of_In in Hx.
          split; [done|]. intros r. split; [auto|by intros [?| ->]].
        - assert (Ha : a ∉ regions).
          { intros Hx%list_elem_of_In. assert (Ht : existsb (fun x => Name_Equal x a) regions = true); [|congruence].
            apply existsb_exists. exists a. by rewrite Name_Equal_spec, bool_decide_true. }
          split; [|intros r; by rewrite elem_of_app, list_elem_of_singleton].
          apply NoDup_app. split_and!; [done| |apply NoDup_singleton].
          by intros r Hr ->%list_elem_of_singleton. }
      destruct HA as [HA1 HA2]. destruct (IH (Add regions a) HA1) as [H1 H2]. split; [done|].
      intros r. rewrite H2, HA2, elem_of_cons. tauto. }
  destruct (Hf [] (@NoDup_nil_2 _)) as [Hn Hr]. split; [done|]. unfold IsProducer.
  rewrite existsb_exists. split.
  - intros (r & Hin & Hp). rewrite Name_IsPrefix_spec in Hp. apply bool_decide_eq_true in Hp.
    apply list_elem_of_In, Hr in Hin as [Hin|Hin]; [by apply elem_of_nil in Hin|]. by exists r.
  - intros (r & Hin & Hp). exists r. rewrite Name_IsPrefix_spec, bool_decide_true by done.
    split; [|done]. apply list_elem_of_In, Hr. by right.
Qed.

Lemma network_region_witness :
  let regions := fold_left (@Add ref_ops) [[gc "a"]; [gc "b"; gc "c"]; [gc "a"]] [] in
  length regions = 2 /\ NoDup regions /\
  (@IsProducer ref_ops regions [gc "a"; gc "x"] = true <->
   exists r, r ∈ [[gc "a"]; [gc "b"; gc "c"]; [gc "a"]] /\ r `prefix_of` [gc "a"; gc "x"]).
Proof.
  split; [vm_compute; reflexivity|].
  exact (@network_region_spec ref_ops ref_laws [[gc "a"]; [gc "b"; gc "c"]; [gc "a"]] [gc "a"; gc "x"]).
Defined.
