(* ===== verification/Measurements.v ===== *)
(** * Measurements: table/measurements.go

    A table of numbers that goroutines add to.  The hash map is a library's: each
    of its operations is one atomic step of the goroutine that calls it, and the
    goroutines interleave in any order.  [Set] promises to compare and set
    atomically, but looks the value up in one step and writes in another.  The
    floating-point numbers are a parameter: their comparison [feq], which need not
    be reflexive (NaN), and the new average [ewma]. *)
From S2P Require Import Prelude.
Local Open Scope Z_scope.

Section measurements.
Context {float : Type} (feq : float -> float -> bool) (ewma : float -> float -> float -> float).

(** What an [interface{}] of the table holds; [==] compares types and values. *)
Inductive value := Int (n : Z) | Float (x : float).
Definition value_eqb (v w : value) : bool :=
  match v, w with Int n, Int m => n =? m | Float x, Float y => feq x y | _, _ => false end.

#[local] Abbreviation table := (gmap (list byte) value).

(** ** The operations, step by step *)

(** [AddToInt(key, value)] and [AddSampleToEWMA(key, measurement, alpha)]. *)
Inductive call := AddToInt (key : list byte) (v : Z) | AddSampleToEWMA (key : list byte) (measurement alpha : float).
Definition key_of (c : call) : list byte := match c with AddToInt k _ | AddSampleToEWMA k _ _ => k end.

(** Where a call is: before [Get] in the loop; in [Set], before its lookup, and
    before its write; before [GetOrInsert]; returned. *)
Inductive point := AtGet | AtLookup (expected new : value) | AtWrite (new : value) | AtInsert | Returned.

(** The value that is set when the key is absent, and the one made of the value
    that is there; the type assertion on another type panics. *)
Definition initial (c : call) : value :=
  match c with AddToInt _ v => Int v | AddSampleToEWMA _ m _ => Float m end.
Definition next (c : call) (expected : value) : outcome value :=
  match c, expected with
  | AddToInt _ v, Int n => Ok (Int (i64 (n + v)))
  | AddSampleToEWMA _ m a, Float x => Ok (Float (ewma m a x))
  | _, _ => Panic
  end.

Definition meas_step (c : call) (p : point) (t : table) : option (outcome (point * table)) :=
  let key := key_of c in
  match p with
  | AtGet =>
      Some (match t !! key with
            | Some expected => let* new := next c expected in Ok (AtLookup expected new, t)
            | None => Ok (AtInsert, t)
            end)
  | AtLookup expected new =>
      Some (Ok (match t !! key with
                | Some v => if value_eqb v expected then AtWrite new else AtGet
                | None => AtGet
                end, t))
  | AtWrite new => Some (Ok (Returned, <[key := new]> t))
  | AtInsert => Some (Ok (match t !! key with Some _ => (AtGet, t) | None => (Returned, <[key := initial c]> t) end))
  | Returned => None
  end.

(** Goroutines, each in a call; a schedule says who goes on. *)
Record Shared := mkShared { tbl : table; calls : list (call * point) }.

Definition meas_exec (i : nat) (s : Shared) : option (outcome Shared) :=
  '(c, p) ← calls s !! i;
  r ← meas_step c p (tbl s);
  Some (let* (p', t) := r in Ok (mkShared t (<[i := (c, p')]> (calls s)))).

Fixpoint meas_run (schedule : list nat) (s : Shared) : outcome Shared :=
  match schedule with
  | [] => Ok s
  | i :: schedule => let* s := default (Ok s) (meas_exec i s) in meas_run schedule s
  end.

Definition started (cs : list call) (t : table) : Shared := mkShared t (map (fun c => (c, AtGet)) cs).

(** ** Types *)

Definition same_type (v w : value) : Prop := match v, w with Int _, Int _ | Float _, Float _ => True | _, _ => False end.

(** The type each key is used at. *)
Context (type_at : list byte -> value).
Definition call_typed (c : call) : Prop := same_type (type_at (key_of c)) (initial c).
Definition table_typed (t : table) : Prop := forall k v, t !! k = Some v -> same_type (type_at k) v.
Definition point_typed (c : call) (p : point) : Prop :=
  match p with
  | AtLookup e n => same_type (type_at (key_of c)) e /\ same_type (type_at (key_of c)) n
  | AtWrite n => same_type (type_at (key_of c)) n
  | _ => True
  end.
Record shared_typed (s : Shared) : Prop := {
  st_table : table_typed (tbl s);
  st_calls : Forall (fun '(c, p) => call_typed c /\ point_typed c p) (calls s) }.

Lemma next_typed c v : call_typed c -> same_type (type_at (key_of c)) v ->
  exists n, next c v = Ok n /\ same_type (type_at (key_of c)) n.
Proof.
  unfold call_typed. destruct (type_at (key_of c)) as [z|x], c as [k n|k m a]; cbn; try done; destruct v; try done; by eexists.
Qed.

Lemma insert_typed (t : table) k v : table_typed t -> same_type (type_at k) v -> table_typed (<[k := v]> t).
Proof. intros Ht Hv k' w. rewrite lookup_insert_Some. intros [[<- <-]|[_ Hw]]; [done|by apply Ht]. Qed.

Lemma step_typed c p t r : call_typed c -> point_typed c p -> table_typed t -> meas_step c p t = Some r ->
  exists p' t', r = Ok (p', t') /\ point_typed c p' /\ table_typed t'.
Proof.
  intros Hc Hp Ht. destruct p as [|e n|n| |]; cbn [meas_step]; [..|done]; intros [= <-].
  - destruct (t !! key_of c) as [v|] eqn:E; [|by do 2 eexists]. specialize (Ht _ _ E) as Hv.
    destruct (next_typed c v Hc Hv) as (n & -> & Hn). cbn. do 2 eexists. split; [done|]. done.
  - destruct Hp as [_ Hn]. destruct (t !! key_of c) as [v|]; [|by do 2 eexists]. destruct (value_eqb v e); by do 2 eexists.
  - do 2 eexists. split; [done|]. split; [done|]. by apply insert_typed.
  - destruct (t !! key_of c); [by do 2 eexists|]. do 2 eexists. split; [done|]. split; [done|]. by apply insert_typed.
Qed.

Lemma exec_typed i s r : shared_typed s -> meas_exec i s = Some r -> exists s', r = Ok s' /\ shared_typed s'.
Proof.
  intros [Ht Hc]. unfold meas_exec. destruct (calls s !! i) as [[c p]|] eqn:Ei; [|done]. cbn [mbind option_bind].
  rewrite Forall_lookup in Hc. destruct (Hc i _ Ei) as [Hct Hp]. destruct (meas_step c p (tbl s)) as [r'|] eqn:Es; [|done].
  destruct (step_typed c p _ r' Hct Hp Ht Es) as (p' & t' & -> & Hp' & Ht'). intros [= <-]. eexists. split; [done|]. split; [done|].
  cbn. apply Forall_insert; [by apply Forall_lookup|done].
Qed.

Lemma meas_run_typed schedule : forall s, shared_typed s -> exists s', meas_run schedule s = Ok s' /\ shared_typed s'.
Proof.
  induction schedule as [|i schedule IH]; intros s Hs; cbn [meas_run]; [by eexists|].
  destruct (meas_exec i s) as [r|] eqn:E; [|by apply IH]. destruct (exec_typed i s r Hs E) as (s' & -> & Hs'). by apply IH.
Qed.

(** Every key keeps the type of its first value: when each is used at one
    type, under no schedule does a type assertion fail, and the table stays
    typed. *)
Lemma measurements_typed cs t schedule : table_typed t -> Forall call_typed cs ->
  exists s, meas_run schedule (started cs t) = Ok s /\ table_typed (tbl s).
Proof.
  intros Ht Hc. destruct (meas_run_typed schedule (started cs t)) as (s & E & Hs); [|by exists s; split; [|apply Hs]].
  split; [done|]. cbn. apply Forall_map. eapply Forall_impl; [exact Hc|]. by intros c.
Qed.

(** ** Values *)

(** Calls that run one after the other: each is done in three steps. *)
Definition one_by_one (n : nat) : list nat := concat (map (replicate 3) (seq 0 n)).

Lemma run_one k v (done_ : list (call * point)) cs n t : t !! k = Some (Int n) ->
  meas_run (replicate 3 (length done_)) (mkShared t (done_ ++ (AddToInt k v, AtGet) :: cs)) =
  Ok (mkShared (<[k := Int (i64 (n + v))]> t) (done_ ++ (AddToInt k v, Returned) :: cs)).
Proof.
  intros Hk. cbn [replicate meas_run]. unfold meas_exec. cbn [calls tbl]. rewrite list_lookup_middle by done.
  cbn [mbind option_bind meas_step key_of]. rewrite Hk. cbn [next outcome_bind mbind option_bind default from_option id calls tbl].
  rewrite insert_app_r_alt, Nat.sub_diag by lia. cbn [insert list_insert]. rewrite list_lookup_middle by done.
  cbn [mbind option_bind meas_step key_of]. rewrite Hk. cbn [value_eqb]. rewrite Z.eqb_refl.
  cbn [outcome_bind mbind option_bind default from_option id calls tbl].
  rewrite insert_app_r_alt, Nat.sub_diag by lia. cbn [insert list_insert]. rewrite list_lookup_middle by done.
  cbn [mbind option_bind meas_step key_of outcome_bind default from_option id].
  by rewrite insert_app_r_alt, Nat.sub_diag by lia.
Qed.

Lemma meas_run_cons i l s : meas_run (i :: l) s = (let* s := default (Ok s) (meas_exec i s) in meas_run l s).
Proof. done. Qed.

Lemma meas_run_app l1 l2 s : meas_run (l1 ++ l2) s = (let* s := meas_run l1 s in meas_run l2 s).
Proof.
  revert s. induction l1 as [|i l1 IH]; intros s; [done|]. cbn [app meas_run].
  destruct (default (Ok s) (meas_exec i s)); [apply IH|done|done].
Qed.

Lemma run_all k vs : forall done_ n t, t !! k = Some (Int n) ->
  meas_run (concat (map (replicate 3) (seq (length done_) (length vs))))
    (mkShared t (done_ ++ map (fun c => (c, AtGet)) (map (AddToInt k) vs))) =
  Ok (mkShared (if decide (vs = []) then t else <[k := Int (foldl (fun n v => i64 (n + v)) n vs)]> t)
        (done_ ++ map (fun c => (c, Returned)) (map (AddToInt k) vs))).
Proof.
  induction vs as [|v vs IH]; intros done_ n t Hk; [done|]. cbn [length seq map concat foldl].
  rewrite meas_run_app, (run_one k v done_ _ n t Hk). cbn [outcome_bind].
  specialize (IH (done_ ++ [(AddToInt k v, Returned)]) (i64 (n + v)) (<[k := Int (i64 (n + v))]> t) (lookup_insert_eq _ _ _)).
  rewrite length_app, Nat.add_1_r in IH. rewrite <- !app_assoc in IH. cbn [app] in IH. rewrite IH.
  rewrite (decide_False (P := v :: vs = [])) by done. do 2 f_equal. case_decide as Hvs; [by subst vs|]. by rewrite insert_insert_eq.
Qed.

(** The loop of an average over a value that is not equal to itself. *)
Lemma nan_loops k m a x t schedule : feq x x = false -> t !! k = Some (Float x) ->
  forall p, p = AtGet \/ p = AtLookup (Float x) (Float (ewma m a x)) ->
  exists p', meas_run schedule (mkShared t [(AddSampleToEWMA k m a, p)]) = Ok (mkShared t [(AddSampleToEWMA k m a, p')]) /\ p' <> Returned.
Proof.
  intros Hx Hk. induction schedule as [|i schedule IH]; intros p Hp; cbn [meas_run].
  - exists p. split; [done|]. by destruct Hp as [-> | ->].
  - destruct i as [|i]; [|by apply IH]. destruct Hp as [-> | ->].
    + unfold meas_exec. cbn [calls tbl lookup list_lookup mbind option_bind meas_step key_of]. rewrite Hk.
      cbn [next outcome_bind mbind option_bind default from_option id insert list_insert]. apply IH. by right.
    + unfold meas_exec. cbn [calls tbl lookup list_lookup mbind option_bind meas_step key_of]. rewrite Hk. cbn [value_eqb]. rewrite Hx.
      cbn [next outcome_bind mbind option_bind default from_option id insert list_insert]. apply IH. by left.
Qed.

(** What is added.  Calls one after the other add up, in 64 bits.  But [Set]
    does not compare and set atomically: of two calls that both look the value up
    before either writes, the first is lost.  And an average over a value that is
    not equal to itself (NaN) is never set: the loop does not end. *)
Lemma measurements_added k n t : t !! k = Some (Int n) ->
  (forall vs, vs <> [] -> exists s, meas_run (one_by_one (length vs)) (started (map (AddToInt k) vs) t) = Ok s /\
    tbl s !! k = Some (Int (foldl (fun n v => i64 (n + v)) n vs))) /\
  (forall v w, exists schedule s, meas_run schedule (started [AddToInt k v; AddToInt k w] t) = Ok s /\
    (calls s).*2 = [Returned; Returned] /\ tbl s !! k = Some (Int (i64 (n + w)))) /\
  (forall x m a schedule, feq x x = false -> exists p,
    meas_run schedule (started [AddSampleToEWMA k m a] (<[k := Float x]> t)) =
      Ok (mkShared (<[k := Float x]> t) [(AddSampleToEWMA k m a, p)]) /\ p <> Returned).
Proof.
  intros Hk. split; [|split].
  - intros vs Hvs. eexists. split; [apply (run_all k vs [] n t Hk)|]. rewrite decide_False by done. apply lookup_insert_eq.
  - intros v w. exists [0; 1; 0; 1; 0; 1]%nat. eexists. unfold started. cbn [map]. split; [|split].
    + do 6 (rewrite meas_run_cons; unfold meas_exec;
        cbn [calls tbl lookup list_lookup mbind option_bind meas_step key_of]; rewrite ?Hk;
        cbn [next outcome_bind mbind option_bind default from_option id insert list_insert value_eqb];
        rewrite ?Z.eqb_refl; cbn [outcome_bind default from_option id]).
      reflexivity.
    + done.
    + cbn. apply lookup_insert_eq.
  - intros x m a schedule Hx. eapply nan_loops; [exact Hx|apply lookup_insert_eq|by left].
Qed.
End measurements.

Module MeasurementsExamples.
(** Two numbers, of which the second is not equal to itself. *)
Definition ex_feq (x y : bool) : bool := x && y.
Definition ex_ewma (m a x : bool) : bool := m.
Definition ex_table : gmap (list byte) (@value bool) := {[gs "n" := Int 5]}.
Definition ex_types (k : list byte) : @value bool := if decide (k = gs "n") then Int 0 else Float true.

Lemma measurements_typed_witness :
  exists s, meas_run ex_feq ex_ewma [0; 1; 2; 0; 1; 2; 0; 1; 2; 1; 1; 1]%nat
      (started [AddToInt (gs "n") 3; AddToInt (gs "n") 4; AddSampleToEWMA (gs "x") true true] ex_table) = Ok s /\
    table_typed ex_types (tbl s).
Proof.
  apply (measurements_typed ex_feq ex_ewma ex_types).
  - intros k v. unfold ex_table. rewrite lookup_singleton_Some. intros [<- <-]. exact I.
  - repeat constructor.
Defined.

Lemma measurements_added_witness :
  exists schedule s, meas_run ex_feq ex_ewma schedule (started [AddToInt (gs "n") 3; AddToInt (gs "n") 4] ex_table) = Ok s /\
    (calls s).*2 = [Returned; Returned] /\ tbl s !! gs "n" = Some (Int 9).
Proof.
  exact (proj1 (proj2 (measurements_added ex_feq ex_ewma (gs "n") 5 ex_table (lookup_singleton_eq _ _))) 3 4).
Defined.
End MeasurementsExamples.
