(* ===== verification/Packet.v ===== *)
(** * Packets in the forwarder: ndn/pending-packet.go

    The Interest and Data structures are go-ndn's; the fields are those the
    forwarder reads.  Packets are shared by pointer (the PIT, the Content Store
    and the faces keep the same [*PendingPacket]); a pointer is a number and
    the threads work on a store of packets. *)
From S2P Require Import Prelude.
From S2P Require Import Enc.

(** [spec.Interest]. *)
Record Interest := mkInterest {
  NameV : Name;
  CanBePrefixV : bool;
  MustBeFreshV : bool;
  ForwardingHintV : option (list goname);
  NonceV : option Z;
  HopLimitV : option Z }.

(** [spec.Data]: [FreshnessPeriod] is [MetaInfo.FreshnessPeriod] in
    nanoseconds, [None] when either pointer is nil. *)
Record Data := mkData { DataNameV : Name; FreshnessPeriod : option Z }.

(** [EncPacket] holds one of the two. *)
Inductive EncPacket := EncInterest (i : Interest) | EncData (d : Data).

Record PendingPacket := mkPending {
  PitToken : list byte;
  CongestionMark : option Z;
  IncomingFaceID : option Z;
  NextHopFaceID : option Z;
  CachePolicy : option Z;
  Enc : EncPacket;
  RawBytes : list byte;
  NameCache : list byte }.

Definition set_PitToken (t : list byte) (p : PendingPacket) : PendingPacket :=
  mkPending t (CongestionMark p) (IncomingFaceID p) (NextHopFaceID p) (CachePolicy p) (Enc p) (RawBytes p) (NameCache p).
Definition set_IncomingFaceID (f : option Z) (p : PendingPacket) : PendingPacket :=
  mkPending (PitToken p) (CongestionMark p) f (NextHopFaceID p) (CachePolicy p) (Enc p) (RawBytes p) (NameCache p).
Definition set_Enc (e : EncPacket) (p : PendingPacket) : PendingPacket :=
  mkPending (PitToken p) (CongestionMark p) (IncomingFaceID p) (NextHopFaceID p) (CachePolicy p) e (RawBytes p) (NameCache p).

(** Reading a packet as an Interest or a Data packet: nil when it is the
    other. *)
Definition as_interest (e : EncPacket) : option Interest :=
  match e with EncInterest i => Some i | EncData _ => None end.
Definition as_data (e : EncPacket) : option Data :=
  match e with EncInterest _ => None | EncData d => Some d end.

#[export] Instance Interest_eq_dec : EqDecision Interest.
Proof. solve_decision. Defined.
#[export] Instance Data_eq_dec : EqDecision Data.
Proof. solve_decision. Defined.
#[export] Instance EncPacket_eq_dec : EqDecision EncPacket.
Proof. solve_decision. Defined.
#[export] Instance PendingPacket_eq_dec : EqDecision PendingPacket.
Proof. solve_decision. Defined.
