(* ===== verification/PitCs.v ===== *)
(** * Pending Interest Table and Content Store: table/pit-cs.go, pit-cs-tree.go, cs-lru.go

    One name tree holds both tables.  PIT and CS entries are shared by pointer
    (the tree, the token map, the expiry queue and the forwarding pipelines
    keep the same entry), so they live in maps keyed by allocation number and
    stay there after their removal, as they stay in memory while something
    points to them.  A node's [children] map is keyed by the hash of the
    child's component: a lookup is the child with that hash.

    [now] is the reading of [time.Now()] during an operation, in nanoseconds;
    [order] is the iteration order of a node's [children] map; [draws] are the
    values [rand.Uint32] returns. *)
From S2P Require Import Prelude.
From S2P Require Import Enc.
From S2P Require Import NameTree.
From S2P Require Import Arena.
From S2P Require PQueue.
From S2P Require Import Packet.

(** ** Data *)

Record PitInRecord := mkInRecord {
  in_Face : Z;
  in_LatestTimestamp : Z;
  in_LatestEncInterest : nat;
  in_LatestEncNonce : Z;
  in_ExpirationTime : Z;
  in_PitToken : list byte }.

Record PitOutRecord := mkOutRecord {
  out_Face : Z;
  out_LatestTimestamp : Z;
  out_LatestEncInterest : nat;
  out_LatestEncNonce : Z;
  out_ExpirationTime : Z }.

(** [nameTreePitEntry] with its [basePitEntry]. *)
Record nameTreePitEntry := mkPitEntry {
  encname : Name;
  canBePrefix : bool;
  mustBeFresh : bool;
  forwardingHintNew : goname;
  inRecords : gmap Z PitInRecord;
  outRecords : gmap Z PitOutRecord;
  expirationTime : Z;
  satisfied : bool;
  token : Z;
  pit_node : nat;
  queueIndex : Z }.

(** [nameTreeCsEntry] with its [baseCsEntry]. *)
Record nameTreeCsEntry := mkCsEntry {
  cs_index : Z;
  staleTime : Z;
  encData : nat;
  cs_node : nat }.

(** The data of a [pitCsTreeNode]. *)
Record node_data := mkNodeData { pitEntries : list nat; csEntry : option nat }.

(** [CsLRU]: the elements of the list with their identities. *)
Record CsLRU := mkLRU { queue : list (nat * Z); locations : gmap Z nat; next_elem : nat }.

Record PitCsTree := mkPitCs {
  tree : arena node_data;
  pits : gmap nat nameTreePitEntry;
  next_pit : nat;
  css : gmap nat nameTreeCsEntry;
  next_cs : nat;
  nPitEntries : Z;
  pitTokenMap : gmap Z nat;
  nCsEntries : Z;
  csReplacement : CsLRU;
  csMap : gmap Z nat;
  pitExpiryQueue : list (PQueue.item nat) }.

Definition set_tree (x : arena node_data) (T : PitCsTree) : PitCsTree :=
  mkPitCs x (pits T) (next_pit T) (css T) (next_cs T) (nPitEntries T) (pitTokenMap T) (nCsEntries T) (csReplacement T) (csMap T) (pitExpiryQueue T).
Definition set_pits (x : gmap nat nameTreePitEntry) (T : PitCsTree) : PitCsTree :=
  mkPitCs (tree T) x (next_pit T) (css T) (next_cs T) (nPitEntries T) (pitTokenMap T) (nCsEntries T) (csReplacement T) (csMap T) (pitExpiryQueue T).
Definition set_lru (x : CsLRU) (T : PitCsTree) : PitCsTree :=
  mkPitCs (tree T) (pits T) (next_pit T) (css T) (next_cs T) (nPitEntries T) (pitTokenMap T) (nCsEntries T) x (csMap T) (pitExpiryQueue T).
Definition set_queue (x : list (PQueue.item nat)) (T : PitCsTree) : PitCsTree :=
  mkPitCs (tree T) (pits T) (next_pit T) (css T) (next_cs T) (nPitEntries T) (pitTokenMap T) (nCsEntries T) (csReplacement T) (csMap T) x.

(** Writing through a PIT entry pointer. *)
Definition upd_pit (e : nat) (g : nameTreePitEntry -> nameTreePitEntry) (T : PitCsTree) : PitCsTree :=
  set_pits (alter g e (pits T)) T.

Definition with_inRecords (x : gmap Z PitInRecord) (p : nameTreePitEntry) : nameTreePitEntry :=
  mkPitEntry (encname p) (canBePrefix p) (mustBeFresh p) (forwardingHintNew p) x (outRecords p) (expirationTime p) (satisfied p) (token p) (pit_node p) (queueIndex p).
Definition with_outRecords (x : gmap Z PitOutRecord) (p : nameTreePitEntry) : nameTreePitEntry :=
  mkPitEntry (encname p) (canBePrefix p) (mustBeFresh p) (forwardingHintNew p) (inRecords p) x (expirationTime p) (satisfied p) (token p) (pit_node p) (queueIndex p).
Definition SetExpirationTime (x : Z) (p : nameTreePitEntry) : nameTreePitEntry :=
  mkPitEntry (encname p) (canBePrefix p) (mustBeFresh p) (forwardingHintNew p) (inRecords p) (outRecords p) x (satisfied p) (token p) (pit_node p) (queueIndex p).
Definition SetSatisfied (x : bool) (p : nameTreePitEntry) : nameTreePitEntry :=
  mkPitEntry (encname p) (canBePrefix p) (mustBeFresh p) (forwardingHintNew p) (inRecords p) (outRecords p) (expirationTime p) x (token p) (pit_node p) (queueIndex p).
Definition with_queueIndex (x : Z) (p : nameTreePitEntry) : nameTreePitEntry :=
  mkPitEntry (encname p) (canBePrefix p) (mustBeFresh p) (forwardingHintNew p) (inRecords p) (outRecords p) (expirationTime p) (satisfied p) (token p) (pit_node p) x.

(** [ClearInRecords] and [ClearOutRecords]. *)
Definition ClearInRecords (p : nameTreePitEntry) : nameTreePitEntry := with_inRecords ∅ p.
Definition ClearOutRecords (p : nameTreePitEntry) : nameTreePitEntry := with_outRecords ∅ p.

(** ** The LRU replacement policy *)

Definition NewCsLRU : CsLRU := mkLRU [] ∅ 0.

(** [queue.Remove]: nothing when the element is not in the list. *)
Definition list_Remove (id : nat) (q : list (nat * Z)) : list (nat * Z) :=
  filter (fun el => el.1 <> id) q.

(** [locations[index] = queue.PushBack(index)]. *)
Definition AfterInsert (index : Z) (l : CsLRU) : CsLRU :=
  mkLRU (queue l ++ [(next_elem l, index)]) (<[index := next_elem l]> (locations l)) (S (next_elem l)).

Definition AfterRefresh (index : Z) (l : CsLRU) : CsLRU :=
  let l1 :=
    match locations l !! index with
    | Some location => mkLRU (list_Remove location (queue l)) (locations l) (next_elem l)
    | None => l
    end in
  mkLRU (queue l1 ++ [(next_elem l1, index)]) (<[index := next_elem l1]> (locations l1)) (S (next_elem l1)).

Definition BeforeErase (index : Z) (l : CsLRU) : CsLRU :=
  match locations l !! index with
  | Some location => mkLRU (list_Remove location (queue l)) (delete index (locations l)) (next_elem l)
  | None => l
  end.

Definition BeforeUse (index : Z) (l : CsLRU) : CsLRU :=
  let l1 :=
    match locations l !! index with
    | Some location => mkLRU (list_Remove location (queue l)) (locations l) (next_elem l)
    | None => l
    end in
  mkLRU (queue l1 ++ [(next_elem l1, index)]) (<[index := next_elem l1]> (locations l1)) (S (next_elem l1)).

Section ops.
Context `{EncOps}.

(** ** The name tree *)

Definition find_child (T : arena node_data) (f : node node_data) (h : Z) : option nat :=
  List.find (fun j =>
    match nodes T !! j with
    | Some ch => Component_Hash (component ch) =? h
    | None => false
    end)%Z (children f).

Definition find_next (T : arena node_data) (f : node node_data) (name : Name) : option nat :=
  find_child T f (Component_Hash (At name (Z.of_nat (depth f)))).

Definition findExactMatchEntryEnc (T : arena node_data) (name : Name) : option nat :=
  search_exact find_next (S (length name)) T 0 name.

Definition findLongestPrefixEntryEnc (T : arena node_data) (name : Name) : nat :=
  search_longest find_next (S (length name)) T 0 name.

Definition fillTreeToPrefixEnc (T : arena node_data) (name : Name) : arena node_data * nat :=
  fill find_next T name (mkNodeData [] None).

(** [delete(children, h)]. *)
Definition delete_child (T : arena node_data) (h : Z) (l : list nat) : list nat :=
  filter (fun j => Component_Hash (comp_of T j) <> h) l.

(** The loop of [pruneIfEmpty] goes up one level per round. *)
Fixpoint pruneIfEmpty (fuel : nat) (T : arena node_data) (i : nat) : arena node_data :=
  match fuel, nodes T !! i with
  | S fuel', Some f =>
      match parent f with
      | Some p =>
          if bool_decide (length (children f) = 0 /\ length (pitEntries (data f)) = 0 /\ csEntry (data f) = None)
          then
            let T1 := upd T p (fun q => set_children (delete_child T (Component_Hash (component f)) (children q)) q) in
            pruneIfEmpty fuel' T1 p
          else T
      | None => T
      end
  | _, _ => T
  end.

(** ** The PIT *)

Definition data_at (T : arena node_data) (i : nat) : node_data := default (mkNodeData [] None) (data_of T i).

(** The entry of a node for the same Interest: [hint] nil is the same hint as
    nil or as an empty name. *)
Definition matches_entry (interest : Interest) (hint : goname) (curEntry : nameTreePitEntry) : bool :=
  Bool.eqb (canBePrefix curEntry) (CanBePrefixV interest) &&
  Bool.eqb (mustBeFresh curEntry) (MustBeFreshV interest) &&
  ((bool_decide (hint = None) && bool_decide (forwardingHintNew curEntry = None)) ||
   Name_Equal (nm hint) (nm (forwardingHintNew curEntry))).

(** The first entry of a list of pointers that satisfies [test]. *)
Definition find_entry (T : PitCsTree) (test : nameTreePitEntry -> bool) (l : list nat) : option nat :=
  List.find (fun e => match pits T !! e with Some p => test p | None => false end) l.

(** [generateNewPitToken]: the first draw that is not a token in use; [None]
    when every draw given is. *)
Fixpoint generateNewPitToken (pitTokenMap : gmap Z nat) (draws : list Z) : option Z :=
  match draws with
  | [] => None
  | token :: draws' =>
      match pitTokenMap !! token with
      | None => Some token
      | Some _ => generateNewPitToken pitTokenMap draws'
      end
  end.

(** The new entry of [InsertInterest]. *)
Definition new_entry (interest : Interest) (hint : goname) (node : nat) (tok : Z) : nameTreePitEntry :=
  mkPitEntry (NameV interest) (CanBePrefixV interest) (MustBeFreshV interest) hint ∅ ∅ 0 false tok node (-1).

(** Finding the entry of the Interest or creating it; [None]: no token drawn
    yet. *)
Definition find_or_create (interest : Interest) (hint : goname) (draws : list Z) (T : PitCsTree) :
    option (PitCsTree * nat) :=
  let '(tr, node) := fillTreeToPrefixEnc (tree T) (NameV interest) in
  let T1 := set_tree tr T in
  match find_entry T1 (matches_entry interest hint) (pitEntries (data_at tr node)) with
  | Some e => Some (T1, e)
  | None =>
      match generateNewPitToken (pitTokenMap T) draws with
      | None => None
      | Some tok =>
          let e := next_pit T in
          let tr' := upd_data tr node (fun d => mkNodeData (pitEntries d ++ [e]) (csEntry d)) in
          Some (mkPitCs tr' (<[e := new_entry interest hint node tok]> (pits T)) (S e) (css T) (next_cs T)
                  (nPitEntries T + 1) (<[tok := e]> (pitTokenMap T)) (nCsEntries T) (csReplacement T)
                  (csMap T) (pitExpiryQueue T), e)
      end
  end.

(** A nonce is a duplicate when the latest one of another face is the same. *)
Definition duplicate_nonce (p : nameTreePitEntry) (nonce inFace : Z) : bool :=
  existsb (fun '(face, inRecord) => bool_decide (face <> inFace) && (in_LatestEncNonce inRecord =? nonce)%Z)
    (map_to_list (inRecords p)).

(** [InsertInterest]: the entry and whether the nonce is a duplicate.
    [nonce] is [*NonceV], which the thread has read before. *)
Definition InsertInterest (interest : Interest) (nonce : Z) (hint : goname) (inFace : Z)
    (draws : list Z) (T : PitCsTree) : option (PitCsTree * nat * bool) :=
  match find_or_create interest hint draws T with
  | None => None
  | Some (T1, e) =>
      match pits T1 !! e with
      | Some p =>
          if duplicate_nonce p nonce inFace then Some (T1, e, true)
          else Some (upd_pit e (SetExpirationTime 0) T1, e, false)
      | None => Some (T1, e, false)
      end
  end.

(** Overwriting position [i] with the last element and dropping the last. *)
Definition swap_remove (i : nat) (l : list nat) : list nat :=
  let l1 :=
    if 1 <? length l then match l !! (length l - 1) with Some x => <[i := x]> l | None => l end
    else l in
  take (length l1 - 1) l1.

Definition RemoveInterest (e : nat) (T : PitCsTree) : PitCsTree * bool :=
  match pits T !! e with
  | None => (T, false)
  | Some p =>
      let entries := pitEntries (data_at (tree T) (pit_node p)) in
      match list_find (fun entry => entry = e) entries with
      | None => (T, false)
      | Some (i, _) =>
          let entries' := swap_remove i entries in
          let tr := upd_data (tree T) (pit_node p) (fun d => mkNodeData entries' (csEntry d)) in
          let tr' := if length entries' =? 0 then pruneIfEmpty (S (depth_of tr (pit_node p))) tr (pit_node p) else tr in
          (mkPitCs tr' (pits T) (next_pit T) (css T) (next_cs T) (nPitEntries T - 1)
             (delete (token p) (pitTokenMap T)) (nCsEntries T) (csReplacement T) (csMap T) (pitExpiryQueue T), true)
      end
  end.

Definition FindInterestExactMatchEnc (T : PitCsTree) (interest : Interest) : option nat :=
  match findExactMatchEntryEnc (tree T) (NameV interest) with
  | Some node =>
      find_entry T (fun p => Bool.eqb (canBePrefix p) (CanBePrefixV interest) &&
                             Bool.eqb (mustBeFresh p) (MustBeFreshV interest))
        (pitEntries (data_at (tree T) node))
  | None => None
  end.

(** The loop of [findInterestPrefixMatchByNameEnc] from a node to the root. *)
Fixpoint collect_matching (fuel : nat) (T : PitCsTree) (dataNameLen : nat) (curNode : nat) : list nat :=
  match fuel, nodes (tree T) !! curNode with
  | S fuel', Some f =>
      filter (fun e => is_true (match pits T !! e with
                                | Some p => canBePrefix p || (depth f =? dataNameLen)
                                | None => false
                                end)) (pitEntries (data f)) ++
      match parent f with
      | Some p => collect_matching fuel' T dataNameLen p
      | None => []
      end
  | _, _ => []
  end.

Definition findInterestPrefixMatchByNameEnc (T : PitCsTree) (name : Name) : list nat :=
  collect_matching (S (length name)) T (length name) (findLongestPrefixEntryEnc (tree T) name).

(** By the token when the Data has one, else by the name. *)
Definition FindInterestPrefixMatchByDataEnc (T : PitCsTree) (name : Name) (tok : option Z) : list nat :=
  match tok with
  | Some t =>
      match pitTokenMap T !! t with
      | Some e => if (from_option token (-1) (pits T !! e) =? t)%Z then [e] else []
      | None => []
      end
  | None => findInterestPrefixMatchByNameEnc T name
  end.

Definition PitSize (T : PitCsTree) : Z := nPitEntries T.
Definition CsSize (T : PitCsTree) : Z := nCsEntries T.

(** ** Records *)

(** [time.Now().Add(time.Millisecond * 4000)]. *)
Definition record_lifetime : Z := 4000 * 1000000.

(** The in-record of a face, created or refreshed; whether there was one.  A
    refreshed record keeps its PIT token. *)
Definition InsertInRecord (pp : nat) (nonce face : Z) (incomingPitToken : list byte) (now : Z)
    (p : nameTreePitEntry) : nameTreePitEntry * bool :=
  match inRecords p !! face with
  | None =>
      (with_inRecords (<[face := mkInRecord face now pp nonce (now + record_lifetime) incomingPitToken]> (inRecords p)) p, false)
  | Some r =>
      (with_inRecords (<[face := mkInRecord (in_Face r) now pp nonce (now + record_lifetime) (in_PitToken r)]> (inRecords p)) p, true)
  end.

Definition InsertOutRecord (pp : nat) (nonce face : Z) (now : Z) (p : nameTreePitEntry) : nameTreePitEntry :=
  match outRecords p !! face with
  | None => with_outRecords (<[face := mkOutRecord face now pp nonce (now + record_lifetime)]> (outRecords p)) p
  | Some r => with_outRecords (<[face := mkOutRecord (out_Face r) now pp nonce (now + record_lifetime)]> (outRecords p)) p
  end.

Definition GetOutRecords (p : nameTreePitEntry) : list PitOutRecord := (map_to_list (outRecords p)).*2.

(** ** Expiration *)

Definition updatePitExpiry (e : nat) (T : PitCsTree) : PitCsTree :=
  match pits T !! e with
  | None => T
  | Some p =>
      if (queueIndex p <? 0)%Z then
        let '(q, ix) := PQueue.Push (pitExpiryQueue T) e (expirationTime p) in
        set_queue q (upd_pit e (with_queueIndex ix) T)
      else set_queue (PQueue.Update (pitExpiryQueue T) (queueIndex p) e (expirationTime p)).1 T
  end.

Definition SetExpirationTimerToNow (now : Z) (e : nat) (T : PitCsTree) : PitCsTree :=
  updatePitExpiry e (upd_pit e (SetExpirationTime now) T).

(** The latest expiration time of [now] and the records. *)
Definition latest_expiration (now : Z) (p : nameTreePitEntry) : Z :=
  let t1 := fold_left (fun t (kr : Z * PitInRecord) => if (t <? in_ExpirationTime kr.2)%Z then in_ExpirationTime kr.2 else t)
              (map_to_list (inRecords p)) now in
  fold_left (fun t (kr : Z * PitOutRecord) => if (t <? out_ExpirationTime kr.2)%Z then out_ExpirationTime kr.2 else t)
    (map_to_list (outRecords p)) t1.

Definition UpdateExpirationTimer (now : Z) (e : nat) (T : PitCsTree) : PitCsTree :=
  updatePitExpiry e (upd_pit e (fun p => SetExpirationTime (latest_expiration now p) p) T).

(** [Update]: the loop over the expired entries; [onExpiration] is the
    callback given to [NewPitCS], here a state transformer.  Every round takes
    one item off the queue. *)
Section update.
Context {S : Type} (onExpiration : nameTreePitEntry -> S -> S) (now : Z).

Fixpoint Update_loop (fuel : nat) (T : PitCsTree) (s : S) : PitCsTree * S :=
  match fuel with
  | O => (T, s)
  | Datatypes.S fuel' =>
      match PQueue.PeekPriority (pitExpiryQueue T) with
      | Some prio =>
          if (prio <=? now)%Z then
            match PQueue.Pop (pitExpiryQueue T) with
            | Some (e, q) =>
                let T1 := upd_pit e (with_queueIndex (-1)) (set_queue q T) in
                let s1 := match pits T1 !! e with Some p => onExpiration p s | None => s end in
                Update_loop fuel' (RemoveInterest e T1).1 s1
            | None => (T, s)
            end
          else (T, s)
      | None => (T, s)
      end
  end.

Definition Update (T : PitCsTree) (s : S) : PitCsTree * S :=
  Update_loop (length (pitExpiryQueue T)) T s.

End update.

(** ** The Content Store *)

Definition eraseCsDataFromReplacementStrategy (index : Z) (T : PitCsTree) : PitCsTree :=
  match csMap T !! index with
  | None => T
  | Some c =>
      let tr :=
        match css T !! c with
        | Some entry => upd_data (tree T) (cs_node entry) (fun d => mkNodeData (pitEntries d) None)
        | None => tree T
        end in
      mkPitCs tr (pits T) (next_pit T) (css T) (next_cs T) (nPitEntries T) (pitTokenMap T)
        (nCsEntries T - 1) (csReplacement T) (delete index (csMap T)) (pitExpiryQueue T)
  end.

(** [EvictEntries]: the loop removes the front element each round; a negative
    capacity empties the list and then dereferences [Front() = nil]. *)
Fixpoint EvictEntries (fuel : nat) (csCapacity : Z) (T : PitCsTree) : outcome PitCsTree :=
  if (csCapacity <? Z.of_nat (length (queue (csReplacement T))))%Z then
    match fuel, queue (csReplacement T) with
    | S fuel', (id, indexToErase) :: _ =>
        let T1 := eraseCsDataFromReplacementStrategy indexToErase T in
        let l := csReplacement T1 in
        EvictEntries fuel' csCapacity
          (set_lru (mkLRU (list_Remove id (queue l)) (locations l) (next_elem l)) T1)
    | _, _ => Panic
    end
  else Ok T.

Definition InsertData (csCapacity : Z) (pp : nat) (data : Data) (now : Z) (T : PitCsTree) : outcome PitCsTree :=
  let index := Name_Hash (DataNameV data) in
  let stale := match FreshnessPeriod data with Some f => (now + f)%Z | None => now end in
  match csMap T !! index with
  | Some c =>
      let css' := alter (fun entry => mkCsEntry (cs_index entry) stale pp (cs_node entry)) c (css T) in
      Ok (mkPitCs (tree T) (pits T) (next_pit T) css' (next_cs T) (nPitEntries T) (pitTokenMap T) (nCsEntries T)
            (AfterRefresh index (csReplacement T)) (csMap T) (pitExpiryQueue T))
  | None =>
      let '(tr, node) := fillTreeToPrefixEnc (tree T) (DataNameV data) in
      let c := next_cs T in
      let T1 := mkPitCs (upd_data tr node (fun d => mkNodeData (pitEntries d) (Some c))) (pits T) (next_pit T)
                  (<[c := mkCsEntry index stale pp node]> (css T)) (S c) (nPitEntries T) (pitTokenMap T)
                  (nCsEntries T + 1) (AfterInsert index (csReplacement T)) (<[index := c]> (csMap T))
                  (pitExpiryQueue T) in
      EvictEntries (length (queue (csReplacement T1))) csCapacity T1
  end.

(** A loop that returns the first result. *)
Definition first_some {A B} (f : A -> option B) : list A -> option B :=
  fix loop l :=
    match l with
    | [] => None
    | x :: l' => match f x with Some y => Some y | None => loop l' end
    end.

(** An entry may answer the Interest unless it is stale and the Interest asks
    for fresh Data. *)
Definition acceptable (css : gmap nat nameTreeCsEntry) (mustBeFresh : bool) (now : Z) (c : nat) : bool :=
  negb mustBeFresh || match css !! c with Some entry => (now <? staleTime entry)%Z | None => false end.

(** Depth-first search below a node, the children in some order. *)
Fixpoint findMatchingDataCSPrefix (order : nat -> list nat -> list nat) (fuel : nat) (T : PitCsTree)
    (interest : Interest) (now : Z) (i : nat) : option nat :=
  match fuel, nodes (tree T) !! i with
  | S fuel', Some f =>
      let here :=
        match csEntry (data f) with
        | Some c => if acceptable (css T) (MustBeFreshV interest) now c then Some c else None
        | None => None
        end in
      match here with
      | Some c => Some c
      | None =>
          if length (NameV interest) <=? depth f then
            first_some (findMatchingDataCSPrefix order fuel' T interest now) (order i (children f))
          else None
      end
  | _, _ => None
  end.

Definition FindMatchingDataFromCS (order : nat -> list nat -> list nat) (interest : Interest) (now : Z)
    (T : PitCsTree) : PitCsTree * option nat :=
  match findExactMatchEntryEnc (tree T) (NameV interest) with
  | None => (T, None)
  | Some node =>
      if negb (CanBePrefixV interest) then
        match csEntry (data_at (tree T) node) with
        | Some c =>
            if acceptable (css T) (MustBeFreshV interest) now c then
              match css T !! c with
              | Some entry => (set_lru (BeforeUse (cs_index entry) (csReplacement T)) T, Some c)
              | None => (T, Some c)
              end
            else (T, None)
        | None => (T, None)
        end
      else (T, findMatchingDataCSPrefix order (size (nodes (tree T))) T interest now node)
  end.

End ops.

(** [NewPitCS]. *)
Definition NewPitCS : PitCsTree :=
  mkPitCs (new_arena zero_component (mkNodeData [] None)) ∅ 0 ∅ 0 0 ∅ 0 NewCsLRU ∅ [].
