(* ===== verification/PitTree.v ===== *)
(** * The name tree of the PIT-CS

    What the tree operations of pit-cs-tree.go do to the contents found at each
    name, independently of the entries: growing a path and pruning empty leaves
    change no contents, and keep the node of every name that has any. *)
From S2P Require Import Prelude.
From S2P Require Import Enc.
From S2P Require Import NameTree.
From S2P Require Import Arena.
From S2P Require Import PitCs.

Definition no_data : node_data := mkNodeData [] None.

#[export] Instance node_data_eq_dec : EqDecision node_data.
Proof. solve_decision. Defined.

(** What is stored at a name. *)
Definition cont (T : arena node_data) (n : Name) : node_data := default no_data (view T n).

(** The node of a name. *)
Abbreviation node_of T n := (walk (kids T) 0 n).

Section theory.
Context `{EncLaws}.

(** Components of the names in use. *)
Definition used (c : Component) : Prop := exists n, universe n /\ c ∈ n.

Lemma universe_used n : universe n -> Forall used n.
Proof. intros Hn. apply Forall_forall. intros c Hc. by exists n. Qed.

Lemma used_hash a b : used a -> used b -> (Component_Hash a =? Component_Hash b)%Z = bool_decide (a = b).
Proof.
  intros (n & Hn & Ha) (m & Hm & Hb). destruct (Z.eqb_spec (Component_Hash a) (Component_Hash b)) as [E|E].
  - rewrite bool_decide_true; [done|]. by apply (Component_Hash_inj n m).
  - rewrite bool_decide_false; [done|congruence].
Qed.

(** A tree all of whose contents can be reached from the root. *)
Record tree_ok (T : arena node_data) : Prop := {
  ok_struct : struct_ok used T;
  ok_attached : forall i d, data_of T i = Some d -> d <> no_data -> reached T i }.

(** [T'] has the contents of [T], at the same nodes. *)
Definition keeps (T T' : arena node_data) : Prop :=
  (forall m, cont T' m = cont T m) /\
  (forall m i, node_of T m = Some i -> cont T m <> no_data -> node_of T' m = Some i).

Lemma keeps_refl T : keeps T T.
Proof. by split. Qed.

Lemma keeps_trans T1 T2 T3 : keeps T1 T2 -> keeps T2 T3 -> keeps T1 T3.
Proof.
  intros [C1 W1] [C2 W2]. split; [intros; by rewrite C2|]. intros m i Hw Hc.
  apply W2; [by apply W1|by rewrite C1].
Qed.

Lemma cont_node T n i : tree_ok T -> node_of T n = Some i -> data_of T i = Some (cont T n).
Proof.
  intros [Hs _] Hw. destruct (walk_view used T n i Hs Hw) as [d Hd]. unfold cont. rewrite Hd. cbn.
  by rewrite <- (view_walk T n i Hw).
Qed.

Lemma data_at_node T n i : tree_ok T -> node_of T n = Some i -> data_at T i = cont T n.
Proof. intros Hok Hw. unfold data_at. by rewrite (cont_node T n i). Qed.

Lemma cont_Some T n : tree_ok T -> cont T n <> no_data -> exists i, node_of T n = Some i.
Proof.
  intros [Hs _] Hc. unfold cont in Hc. destruct (view T n) as [d|] eqn:E; [|done].
  destruct (view_Some used T n d Hs E) as (i & Hi & _). by exists i.
Qed.

(** A node with contents is the node of a name. *)
Lemma data_at_reached T i : tree_ok T -> data_at T i <> no_data ->
  exists n, node_of T n = Some i /\ cont T n = data_at T i.
Proof.
  intros Hok Hd. unfold data_at in Hd. destruct (data_of T i) as [d|] eqn:E; [|done].
  destruct (ok_attached T Hok i d E Hd) as [n Hn]. exists n. split; [done|]. by rewrite (data_at_node T n i).
Qed.

Lemma node_inj T n m i : tree_ok T -> node_of T n = Some i -> node_of T m = Some i -> n = m.
Proof. intros [Hs _]. apply (walk_inj (tree_trie used T Hs)). Qed.

(** ** Searching *)

Lemma find_next_ok : step_ok used find_next.
Proof.
  intros A i f n c Hs Hu Hf Hn. unfold find_next. rewrite (At_in_range _ _ _ Hn). unfold find_child.
  assert (Hchild : forall j, j ∈ children f -> exists ch, nodes A !! j = Some ch /\ used (component ch)).
  { intros j Hj. destruct (ok_child used A Hs i f j Hf Hj) as (ch & Hch & Hp & _).
    exists ch. split; [done|]. by eapply ok_used. }
  apply (find_child_kids used (fun ch => Component_Hash (component ch) =? Component_Hash c)%Z); [done|..].
  - intros j ch Hj Hch. destruct (Hchild j Hj) as (ch' & Hch' & Huc). assert (ch' = ch) by congruence. subst ch'.
    apply used_hash; [done|]. by eapply Forall_lookup_1.
  - intros j Hj. destruct (Hchild j Hj) as (ch & -> & _). by eexists.
Qed.

Lemma findExactMatchEntryEnc_spec T n : tree_ok T -> universe n -> findExactMatchEntryEnc T n = node_of T n.
Proof.
  intros [Hs _] Hn. apply (search_exact_spec used); [apply find_next_ok|done|by apply universe_used].
Qed.

Lemma findLongestPrefixEntryEnc_spec T n : tree_ok T -> universe n ->
  findLongestPrefixEntryEnc T n = walk_far (kids T) 0 n.
Proof.
  intros [Hs _] Hn. apply (search_longest_spec used); [apply find_next_ok|done|by apply universe_used].
Qed.

(** ** Writing *)

Lemma upd_data_ok T n i g : tree_ok T -> node_of T n = Some i ->
  let T' := upd_data T i g in
  tree_ok T' /\ (forall m, node_of T' m = node_of T m) /\
  (forall m, cont T' m = if decide (m = n) then g (cont T n) else cont T m).
Proof.
  intros Hok Hw T'. pose proof Hok as [Hs Ha].
  destruct (upd_data_spec used T i g n Hs Hw) as (Hs' & Hw' & Hv). fold T' in Hs', Hw', Hv. split_and!.
  - split; [done|]. intros j d Hd Hne. unfold T' in Hd. rewrite upd_data_of in Hd. case_decide as Hj.
    + subst j. exists n. by rewrite Hw'.
    + destruct (Ha j d Hd Hne) as [m Hm]. exists m. by rewrite Hw'.
  - done.
  - intros m. unfold cont. rewrite Hv. case_decide; [|done]. destruct (walk_view used T n i Hs Hw) as [d ->]. done.
Qed.

(** ** Growing *)

Lemma fill_loop_data r : forall (T : arena node_data) cur d n x j y,
  data_of (fill_loop r T cur d n x).1 j = Some y -> data_of T j = Some y \/ y = x.
Proof.
  induction r as [|r IH]; intros T cur d n x j y Hy; [by left|]. cbn [fill_loop] in Hy.
  apply IH in Hy as [Hy|Hy]; [|by right]. unfold data_of, add_child in *. cbn in Hy.
  destruct (decide (j = cur)) as [->|].
  - rewrite lookup_alter_eq in Hy. destruct (decide (cur = next T)) as [->|].
    + rewrite lookup_insert_eq in Hy. cbn in Hy. right. congruence.
    + rewrite lookup_insert_ne in Hy by done. left. by destruct (nodes T !! cur).
  - rewrite lookup_alter_ne in Hy by done. destruct (decide (j = next T)) as [->|].
    + rewrite lookup_insert_eq in Hy. cbn in Hy. right. congruence.
    + rewrite lookup_insert_ne in Hy by done. by left.
Qed.

Lemma fillTreeToPrefixEnc_ok T n : tree_ok T -> universe n ->
  let '(T', i) := fillTreeToPrefixEnc T n in
  tree_ok T' /\ node_of T' n = Some i /\ keeps T T' /\
  (forall m j, node_of T m = Some j -> node_of T' m = Some j).
Proof.
  intros [Hs Ha] Hn.
  pose proof (fill_spec used find_next T n (mkNodeData [] None) find_next_ok Hs (universe_used n Hn)) as Hf.
  pose proof (fill_loop_data (length n - depth_of T (search_longest find_next (S (length n)) T 0 n)) T
    (search_longest find_next (S (length n)) T 0 n) (S (depth_of T (search_longest find_next (S (length n)) T 0 n))) n
    (mkNodeData [] None)) as Hd.
  change (fill_loop _ T _ _ n _) with (fillTreeToPrefixEnc T n) in Hd.
  unfold fillTreeToPrefixEnc in *. destruct (fill _ _ _ _) as [T' i]. cbn [fst] in Hd.
  destruct Hf as (Hs' & Hw & Hk & Hv). split_and!; [split; [done|]|done|split|done].
  - intros j d Hj Hne. destruct (Hd j d Hj) as [Hj'| ->]; [|done].
    destruct (Ha j d Hj' Hne) as [m Hm]. exists m. by apply Hk.
  - intros m. unfold cont. rewrite Hv. unfold grown. destruct (view T m); [done|]. by case_decide.
  - intros m j Hm _. by apply Hk.
Qed.

(** ** Pruning *)

Lemma delete_child_remove T p q j : struct_ok used T -> nodes T !! p = Some q -> j ∈ children q ->
  delete_child T (Component_Hash (comp_of T j)) (children q) = remove_child j (children q).
Proof.
  intros Hs Hq Hj. unfold delete_child.
  assert (Hu : forall x, x ∈ children q -> used (comp_of T x)).
  { intros x Hx. destruct (ok_child used T Hs p q x Hq Hx) as (ch & Hch & Hp & _). unfold comp_of. rewrite Hch.
    by eapply (ok_used used T Hs x). }
  assert (Hinj : forall x, x ∈ children q -> Component_Hash (comp_of T x) = Component_Hash (comp_of T j) -> x = j).
  { intros x Hx E. pose proof (used_hash (comp_of T x) (comp_of T j) (Hu x Hx) (Hu j Hj)) as He.
    rewrite E, Z.eqb_refl in He. symmetry in He. apply bool_decide_eq_true in He.
    pose proof (kids_child used Hs p q x Hq Hx) as H1. pose proof (kids_child used Hs p q j Hq Hj) as H2. congruence. }
  pose proof (children_NoDup used T Hs p q Hq) as Hnd. clear Hu Hq Hj.
  induction (children q) as [|x l IH]; [done|]. apply NoDup_cons in Hnd as [Hx Hnd].
  rewrite filter_cons. cbn [remove_child]. destruct (Nat.eqb_spec x j) as [->|Hne].
  - rewrite decide_False by auto. apply filter_all. apply Forall_forall. intros y Hy E.
    apply Hinj in E; [|by right]. by subst.
  - rewrite decide_True; [f_equal; apply IH; [|done]; intros y Hy; apply Hinj; by right|].
    intros E. apply Hne, Hinj; [by left|done].
Qed.

Lemma unlink_node T n i f p : tree_ok T -> node_of T n = Some i -> nodes T !! i = Some f -> parent f = Some p ->
  exists m c q, n = m ++ [c] /\ node_of T m = Some p /\ nodes T !! p = Some q /\ i ∈ children q /\ component f = c.
Proof.
  intros [Hs _] Hw Hf Hp. destruct (decide (n = [])) as [->|Hn].
  { destruct (ok_root used T Hs) as (r & Hr & _ & Hpr). injection Hw as <-. congruence. }
  destruct (exists_last Hn) as (m & c & ->). rewrite walk_snoc in Hw. apply bind_Some in Hw as (j & Hj & Hk).
  pose proof Hk as Hk'. apply (kids_spec used) in Hk as (q & ch & Hq & Hin & Hi & Hc); [|done].
  assert (ch = f) by congruence. subst ch.
  pose proof (trie_child _ _ _ (tree_trie used T Hs) _ _ _ Hk') as [Hpi _]. unfold parent_of in Hpi.
  rewrite Hf in Hpi. cbn in Hpi. assert (j = p) by congruence. subst j. by exists m, c, q.
Qed.

Lemma unlink_ok T n i f p : tree_ok T -> node_of T n = Some i -> nodes T !! i = Some f -> parent f = Some p ->
  children f = [] -> data f = no_data ->
  let T' := upd T p (fun q => set_children (delete_child T (Component_Hash (component f)) (children q)) q) in
  tree_ok T' /\ keeps T T' /\ exists m, node_of T' m = Some p.
Proof.
  intros Hok Hw Hf Hp Hc Hd T'. pose proof Hok as [Hs Ha].
  destruct (unlink_node T n i f p Hok Hw Hf Hp) as (m & c & q & -> & Hm & Hq & Hin & Hcc).
  assert (HT : T' = unlinked T i p).
  { unfold T', unlinked, upd. f_equal. apply alter_ext. intros q' Hq'. assert (q' = q) by congruence. subst q'.
    f_equal. rewrite <- (delete_child_remove T p q i) by done. unfold comp_of. by rewrite Hf. }
  assert (Ep : parent_of T i = Some p) by (unfold parent_of; by rewrite Hf).
  assert (Ec : children_of T i = []) by (unfold children_of; by rewrite Hf).
  assert (Hcont : cont T (m ++ [c]) = no_data).
  { pose proof (cont_node T _ i Hok Hw) as E. unfold data_of in E. rewrite Hf in E. cbn in E. congruence. }
  rewrite HT. split_and!.
  - split; [by apply unlinked_struct|]. intros j d Hj Hne. rewrite unlinked_data in Hj.
    destruct (Ha j d Hj Hne) as [x Hx]. exists x. rewrite (unlinked_walk used) by done.
    rewrite decide_False; [done|]. rewrite Hx. intros [= ->]. unfold data_of in Hj. rewrite Hf in Hj. cbn in Hj. congruence.
  - split.
    + intros x. unfold cont. rewrite (unlinked_view used) by done. case_decide as Hx; [|done].
      pose proof (node_inj T x (m ++ [c]) i Hok Hx Hw) as ->. unfold cont in Hcont. by rewrite Hcont.
    + intros x j Hx Hne. rewrite (unlinked_walk used) by done. rewrite decide_False; [done|].
      intros Hxi. apply Hne. by rewrite (node_inj T x (m ++ [c]) i Hok Hxi Hw).
  - exists m. rewrite (unlinked_walk used), decide_False; [done| |done..].
    rewrite Hm. intros [= ->]. pose proof (node_inj T _ _ _ Hok Hm Hw) as E.
    apply (f_equal length) in E. rewrite length_app in E. cbn in E. lia.
Qed.

Lemma pruneIfEmpty_ok fuel : forall T n i, tree_ok T -> node_of T n = Some i ->
  tree_ok (pruneIfEmpty fuel T i) /\ keeps T (pruneIfEmpty fuel T i).
Proof.
  induction fuel as [|fuel IH]; intros T n i Hok Hw; [by split|]. cbn [pruneIfEmpty].
  destruct (nodes T !! i) as [f|] eqn:Ef; [|by split]. destruct (parent f) as [p|] eqn:Ep; [|by split].
  destruct (bool_decide _) eqn:Eb; [|by split]. apply bool_decide_eq_true in Eb as (Hc & Hpe & Hce).
  apply nil_length_inv in Hc, Hpe.
  destruct (unlink_ok T n i f p Hok Hw Ef Ep Hc) as (Hok' & Hk & m & Hm).
  { destruct (data f). cbn in *. by subst. }
  destruct (IH _ m p Hok' Hm) as [Hok2 Hk2]. split; [done|]. by eapply keeps_trans.
Qed.

Lemma new_tree_ok : tree_ok (tree NewPitCS) /\ forall m, cont (tree NewPitCS) m = no_data.
Proof.
  destruct (new_arena_spec used zero_component (mkNodeData [] None)) as [Hs Hv]. split; [split|].
  - done.
  - intros i d Hd Hne. unfold data_of in Hd. cbn in Hd. apply fmap_Some in Hd as (f & Hf & ->).
    apply lookup_singleton_Some in Hf as [<- <-]. done.
  - intros m. unfold cont. cbn [tree NewPitCS]. rewrite Hv. by case_decide.
Qed.

End theory.
