(* ===== verification/Pit.v ===== *)
(** * The Pending Interest Table

    The invariant of the PIT half of [PitCsTree] and what every PIT operation
    does to the set of pending entries: they are found by name, selectors and
    forwarding hint, by token, and by the prefixes of a Data name.  The Content
    Store half is framed: [cs_same] is what these operations keep of it, and
    [pit_same] what the Content Store operations keep of this half. *)
From S2P Require Import Prelude.
From S2P Require Import Enc.
From S2P Require Import NameTree.
From S2P Require Import Arena.
From S2P Require PQueue.
From S2P Require Import Packet.
From S2P Require Import PitCs.
From S2P Require Import PitTree.

(** ** Specification state *)

Definition entries_at (T : PitCsTree) (n : Name) : list nat := pitEntries (cont (tree T) n).
Definition cs_at (T : PitCsTree) (n : Name) : option nat := csEntry (cont (tree T) n).

(** An entry is pending while the node of its name lists it. *)
Definition live (T : PitCsTree) (e : nat) : Prop :=
  exists p, pits T !! e = Some p /\ e ∈ entries_at T (encname p).

(** What distinguishes pending entries: aggregation is by this key. *)
Definition pit_key := (Name * bool * bool * Name)%type.
Definition key_of (p : nameTreePitEntry) : pit_key :=
  (encname p, canBePrefix p, mustBeFresh p, nm (forwardingHintNew p)).
Definition interest_key (i : Interest) (hint : goname) : pit_key :=
  (NameV i, CanBePrefixV i, MustBeFreshV i, nm hint).

(** The parts of an entry that never change. *)
Definition static (p : nameTreePitEntry) := (key_of p, token p, pit_node p).

Section theory.
Context `{EncLaws}.

Record pit_ok (T : PitCsTree) : Prop := {
  pit_tree : tree_ok (tree T);
  pit_entry : forall n e, e ∈ entries_at T n -> exists p, pits T !! e = Some p /\ encname p = n /\
    node_of (tree T) n = Some (pit_node p) /\ universe n;
  pit_nodup : forall n, NoDup (entries_at T n);
  pit_keys : forall e1 e2 p1 p2, live T e1 -> live T e2 -> pits T !! e1 = Some p1 -> pits T !! e2 = Some p2 ->
    key_of p1 = key_of p2 -> e1 = e2;
  pit_tokens : forall t e, pitTokenMap T !! t = Some e <-> exists p, live T e /\ pits T !! e = Some p /\ token p = t;
  pit_count : nPitEntries T = Z.of_nat (size (pitTokenMap T));
  pit_bound : forall e p, pits T !! e = Some p -> e < next_pit T }.

(** What an operation on one half keeps of the other. *)
Record cs_same (T T' : PitCsTree) : Prop := {
  cs_same_tree : tree_ok (tree T) -> tree_ok (tree T');
  cs_same_at : forall n, cs_at T' n = cs_at T n;
  cs_same_node : forall n i, node_of (tree T) n = Some i -> cs_at T n <> None -> node_of (tree T') n = Some i;
  cs_same_css : css T' = css T;
  cs_same_next : next_cs T' = next_cs T;
  cs_same_count : nCsEntries T' = nCsEntries T;
  cs_same_lru : csReplacement T' = csReplacement T;
  cs_same_map : csMap T' = csMap T }.

Record pit_same (T T' : PitCsTree) : Prop := {
  pit_same_tree : tree_ok (tree T) -> tree_ok (tree T');
  pit_same_at : forall n, entries_at T' n = entries_at T n;
  pit_same_node : forall n i, node_of (tree T) n = Some i -> entries_at T n <> [] -> node_of (tree T') n = Some i;
  pit_same_pits : forall e, static <$> pits T' !! e = static <$> pits T !! e;
  pit_same_next : next_pit T' = next_pit T;
  pit_same_count : nPitEntries T' = nPitEntries T;
  pit_same_tokens : pitTokenMap T' = pitTokenMap T }.

Lemma cs_same_refl T : cs_same T T.
Proof. by split. Qed.

Lemma pit_same_refl T : pit_same T T.
Proof. by split. Qed.

Lemma cs_same_trans T1 T2 T3 : cs_same T1 T2 -> cs_same T2 T3 -> cs_same T1 T3.
Proof.
  intros [A1 A2 A3 A4 A5 A6 A7 A8] [B1 B2 B3 B4 B5 B6 B7 B8]. split; try congruence; [auto|].
  intros n i Hi Hc. apply B3; [by apply A3|]. by rewrite A2.
Qed.

Lemma pit_same_trans T1 T2 T3 : pit_same T1 T2 -> pit_same T2 T3 -> pit_same T1 T3.
Proof.
  intros [A1 A2 A3 A4 A5 A6 A7] [B1 B2 B3 B4 B5 B6 B7]. split; try congruence; [auto|].
  intros n i Hi Hc. apply B3; [by apply A3|]. by rewrite A2.
Qed.

(** *** The frame *)

Lemma static_lookup (m m' : gmap nat nameTreePitEntry) :
  (forall e, static <$> m' !! e = static <$> m !! e) ->
  forall e p', m' !! e = Some p' -> exists p, m !! e = Some p /\ static p = static p'.
Proof.
  intros Hs e p' He. specialize (Hs e). rewrite He in Hs. destruct (m !! e) as [p|]; [|done].
  exists p. split; [done|]. cbn in Hs. congruence.
Qed.

Lemma static_key p q : static p = static q -> key_of p = key_of q /\ token p = token q /\
  pit_node p = pit_node q /\ encname p = encname q /\ canBePrefix p = canBePrefix q.
Proof. unfold static, key_of. intros [=]. split_and!; congruence. Qed.

Lemma pit_same_live T T' e : pit_same T T' -> live T' e <-> live T e.
Proof.
  intros S. split.
  - intros (p' & Hp' & He). destruct (static_lookup _ _ (pit_same_pits _ _ S) e p' Hp') as (p & Hp & Hs).
    destruct (static_key _ _ Hs) as (_ & _ & _ & Hn & _). exists p.
    rewrite Hn, <- (pit_same_at _ _ S). done.
  - intros (p & Hp & He). assert (Hsym : forall x, static <$> pits T !! x = static <$> pits T' !! x)
      by (intros; by rewrite (pit_same_pits _ _ S)).
    destruct (static_lookup _ _ Hsym e p Hp) as (p' & Hp' & Hs).
    destruct (static_key _ _ Hs) as (_ & _ & _ & Hn & _). exists p'.
    rewrite Hn, (pit_same_at _ _ S). done.
Qed.

Lemma pit_same_ok T T' : pit_same T T' -> pit_ok T -> pit_ok T'.
Proof.
  intros S Hok. pose proof (static_lookup _ _ (pit_same_pits _ _ S)) as Hl.
  assert (Hsym : forall x, static <$> pits T !! x = static <$> pits T' !! x)
    by (intros; by rewrite (pit_same_pits _ _ S)).
  pose proof (static_lookup _ _ Hsym) as Hl'. split.
  - apply S, Hok.
  - intros n e He. rewrite (pit_same_at _ _ S) in He. destruct (pit_entry T Hok n e He) as (p & Hp & Hn & Hw & Hu).
    destruct (Hl' e p Hp) as (p' & Hp' & Hs). destruct (static_key _ _ Hs) as (_ & _ & Hnode & Hn' & _).
    exists p'. split_and!; [done|congruence| |done]. rewrite Hnode. apply (pit_same_node _ _ S); [done|].
    intros E. rewrite E in He. by apply elem_of_nil in He.
  - intros n. rewrite (pit_same_at _ _ S). apply Hok.
  - intros e1 e2 p1' p2' H1 H2 Hp1 Hp2 Hk. apply (pit_same_live _ _ _ S) in H1, H2.
    destruct (Hl e1 p1' Hp1) as (p1 & ? & Hs1), (Hl e2 p2' Hp2) as (p2 & ? & Hs2).
    apply static_key in Hs1 as (Hk1 & _), Hs2 as (Hk2 & _). apply (pit_keys T Hok e1 e2 p1 p2); congruence.
  - intros t e. rewrite (pit_same_tokens _ _ S), (pit_tokens T Hok). split; intros (p & Hlv & Hp & Ht).
    + destruct (Hl' e p Hp) as (p' & Hp' & Hs). apply static_key in Hs as (_ & Ht' & _). exists p'.
      rewrite pit_same_live by done. split_and!; congruence.
    + destruct (Hl e p Hp) as (p' & Hp' & Hs). apply static_key in Hs as (_ & Ht' & _). exists p'.
      rewrite <- (pit_same_live T T') by done. split_and!; congruence.
  - rewrite (pit_same_count _ _ S), (pit_same_tokens _ _ S). apply Hok.
  - intros e p' Hp'. rewrite (pit_same_next _ _ S). destruct (Hl e p' Hp') as (p & Hp & _). by apply (pit_bound T Hok e p).
Qed.

Lemma live_node T e : pit_ok T -> live T e -> exists p, pits T !! e = Some p /\ e ∈ entries_at T (encname p) /\
  node_of (tree T) (encname p) = Some (pit_node p) /\ universe (encname p).
Proof.
  intros Hok (p & Hp & He). destruct (pit_entry T Hok _ e He) as (p' & Hp' & Hn & Hw & Hu).
  assert (p' = p) by congruence. subst p'. by exists p.
Qed.

Lemma entries_live T n e : pit_ok T -> e ∈ entries_at T n -> live T e.
Proof. intros Hok He. destruct (pit_entry T Hok n e He) as (p & Hp & <- & _). by exists p. Qed.

(** Changing the mutable parts of an entry. *)
Lemma upd_pit_same T e g : (forall p, static (g p) = static p) -> pit_same T (upd_pit e g T) /\ cs_same T (upd_pit e g T).
Proof.
  intros Hg. split; split; try done. intros e'. cbn. destruct (decide (e = e')) as [->|].
  - rewrite lookup_alter_eq. destruct (pits T !! e'); cbn; by rewrite ?Hg.
  - by rewrite lookup_alter_ne.
Qed.

Lemma set_queue_same T q : pit_same T (set_queue q T) /\ cs_same T (set_queue q T).
Proof. by split; split. Qed.

(** *** Finding an entry *)

Lemma find_entry_spec T test l :
  match find_entry T test l with
  | Some e => e ∈ l /\ exists p, pits T !! e = Some p /\ test p = true
  | None => forall e p, e ∈ l -> pits T !! e = Some p -> test p = false
  end.
Proof.
  unfold find_entry. destruct (List.find _ l) as [e|] eqn:E.
  - apply find_some in E as [Hin Ht]. apply list_elem_of_In in Hin. split; [done|].
    destruct (pits T !! e) as [p|]; [|done]. by exists p.
  - intros e p He Hp. apply list_elem_of_In in He. pose proof (find_none _ _ E e He) as Hn. cbn in Hn.
    by rewrite Hp in Hn.
Qed.

Lemma matches_entry_spec i hint p : encname p = NameV i ->
  matches_entry i hint p = true <-> key_of p = interest_key i hint.
Proof.
  intros Hn. unfold matches_entry, key_of, interest_key. rewrite Name_Equal_spec, !andb_true_iff, !eqb_true_iff,
    orb_true_iff, andb_true_iff, !bool_decide_eq_true. rewrite Hn. split.
  - intros [[-> ->] [[-> ->]| ->]]; done.
  - intros [= -> -> ->]. split; [done|by right].
Qed.

Lemma generateNewPitToken_spec m draws :
  match generateNewPitToken m draws with
  | Some t => t ∈ draws /\ m !! t = None
  | None => forall t, t ∈ draws -> is_Some (m !! t)
  end.
Proof.
  induction draws as [|t draws IH]; cbn; [intros t Ht; by apply elem_of_nil in Ht|].
  destruct (m !! t) eqn:E.
  - destruct (generateNewPitToken m draws).
    + destruct IH. split; [by right|done].
    + intros t' [->|Ht']%elem_of_cons; [by eexists|by apply IH].
  - split; [by left|done].
Qed.

(** *** Inserting *)

Definition pending_key (T : PitCsTree) (k : pit_key) (e : nat) : Prop :=
  live T e /\ exists p, pits T !! e = Some p /\ key_of p = k.

Lemma fill_same T n : pit_ok T -> universe n ->
  let '(tr, i) := fillTreeToPrefixEnc (tree T) n in
  node_of tr n = Some i /\ tree_ok tr /\ (forall m, cont tr m = cont (tree T) m) /\
  pit_same T (set_tree tr T) /\ cs_same T (set_tree tr T).
Proof.
  intros Hok Hu. pose proof (fillTreeToPrefixEnc_ok (tree T) n (pit_tree T Hok) Hu) as Hf.
  destruct (fillTreeToPrefixEnc (tree T) n) as [tr i]. destruct Hf as (Hok' & Hw & [Hc _] & Hk).
  split_and!; [done|done|done|split|split]; cbn; try done; try (by intros m; unfold entries_at, cs_at; cbn; rewrite Hc);
    intros m j Hm _; by apply Hk.
Qed.

Lemma create_ok T i hint node tok tr : pit_ok T -> pit_ok (set_tree tr T) -> universe (NameV i) ->
  (forall m, cont tr m = cont (tree T) m) ->
  node_of tr (NameV i) = Some node -> pitTokenMap T !! tok = None ->
  (forall e, ~ pending_key T (interest_key i hint) e) ->
  let e := next_pit T in
  let T' := mkPitCs (upd_data tr node (fun d => mkNodeData (pitEntries d ++ [e]) (csEntry d)))
              (<[e := new_entry i hint node tok]> (pits T)) (S e) (css T) (next_cs T)
              (nPitEntries T + 1) (<[tok := e]> (pitTokenMap T)) (nCsEntries T) (csReplacement T)
              (csMap T) (pitExpiryQueue T) in
  pit_ok T' /\ cs_same (set_tree tr T) T' /\ (forall e', live T' e' <-> live T e' \/ e' = e).
Proof.
  intros Hok0 Hok Hu Hcont Hw Htok Hnone e T'.
  assert (Hnew : pits T !! e = None).
  { destruct (pits T !! e) as [p|] eqn:E; [|done]. pose proof (pit_bound T Hok0 e p E). unfold e in *. lia. }
  destruct (upd_data_ok tr (NameV i) node (fun d => mkNodeData (pitEntries d ++ [e]) (csEntry d))
              (pit_tree _ Hok) Hw) as (Htr & HW & HC).
  assert (Hat : forall m, entries_at T' m = if decide (m = NameV i) then entries_at T m ++ [e] else entries_at T m).
  { intros m. unfold entries_at. cbn [tree T']. rewrite HC. case_decide; [subst; cbn; by rewrite Hcont|by rewrite Hcont]. }
  assert (Hin : forall m e', e' ∈ entries_at T' m <-> e' ∈ entries_at T m \/ e' = e /\ m = NameV i).
  { intros m e'. rewrite Hat. case_decide; [rewrite elem_of_app, list_elem_of_singleton|]; naive_solver. }
  assert (Hne : forall m, e ∉ entries_at T m).
  { intros m Hm. destruct (pit_entry T Hok0 m e Hm) as (p & Hp & _). congruence. }
  assert (Hlive : forall e', live T' e' <-> live T e' \/ e' = e).
  { intros e'. split.
    - intros (p & Hp & He). cbn in Hp. destruct (decide (e' = e)) as [->|Hee]; [by right|left].
      rewrite lookup_insert_ne in Hp by done. exists p. split; [done|]. apply Hin in He. naive_solver.
    - intros [(p & Hp & He)| ->].
      + exists p. cbn. rewrite lookup_insert_ne by (intros <-; congruence). split; [done|]. apply Hin. by left.
      + exists (new_entry i hint node tok). cbn. rewrite lookup_insert_eq. split; [done|]. apply Hin. by right. }
  assert (Hpits : forall e' p, live T e' -> pits T !! e' = Some p <-> pits T' !! e' = Some p).
  { intros e' p (q & Hq & _). cbn. rewrite lookup_insert_ne; [done|]. intros <-. congruence. }
  split_and!; [split|split|done]; try done.
  - intros m e' He. cbn [tree T']. rewrite (HW m). apply Hin in He as [He|[-> ->]].
    + destruct (pit_entry _ Hok m e') as (p & Hp & Hn & Hwn & Hum).
      { unfold entries_at. cbn. by rewrite Hcont. }
      exists p. split_and!; try done. apply Hpits; [by apply (entries_live T m)|done].
    + eexists. cbn. rewrite lookup_insert_eq. by split_and!.
  - intros m. rewrite Hat. case_decide; [|apply Hok0]. apply NoDup_app. split_and!; [apply Hok0| |apply NoDup_singleton].
    intros x Hx ->%list_elem_of_singleton. by apply (Hne m).
  - intros e1 e2 p1 p2 H1 H2 Hp1 Hp2 Hk. apply Hlive in H1, H2.
    destruct H1 as [H1| ->], H2 as [H2| ->]; [| | |done].
    + rewrite <- Hpits in Hp1, Hp2 by done. by apply (pit_keys T Hok0 e1 e2 p1 p2).
    + rewrite <- Hpits in Hp1 by done. cbn in Hp2. rewrite lookup_insert_eq in Hp2. injection Hp2 as <-.
      exfalso. apply (Hnone e1). split; [done|]. by exists p1.
    + rewrite <- Hpits in Hp2 by done. cbn in Hp1. rewrite lookup_insert_eq in Hp1. injection Hp1 as <-.
      exfalso. apply (Hnone e2). split; [done|]. by exists p2.
  - intros t e'. cbn [pitTokenMap T']. rewrite lookup_insert_Some. split.
    + intros [[<- <-]|[Ht He']].
      * eexists. rewrite Hlive. split; [by right|]. cbn. by rewrite lookup_insert_eq.
      * apply (pit_tokens T Hok0) in He' as (p & Hl & Hp & Htp). exists p. rewrite Hlive, <- Hpits by done. auto.
    + intros (p & [Hl| ->]%Hlive & Hp & Htp).
      * rewrite <- Hpits in Hp by done. assert (pitTokenMap T !! t = Some e') by (apply (pit_tokens T Hok0); eauto).
        right. split; [congruence|done].
      * cbn in Hp. rewrite lookup_insert_eq in Hp. injection Hp as <-. left. by cbn in Htp.
  - cbn [nPitEntries T' pitTokenMap]. rewrite map_size_insert_None by done. rewrite (pit_count T Hok0). lia.
  - intros e' p Hp. cbn in *. apply lookup_insert_Some in Hp as [[<- _]|[_ Hp]]; [lia|].
    pose proof (pit_bound T Hok0 e' p Hp). unfold e. lia.
  - intros m. unfold cs_at. cbn [tree T' set_tree]. rewrite HC. by case_decide; subst.
  - intros m j Hm _. cbn [tree T' set_tree] in *. by rewrite HW.
Qed.

Lemma find_or_create_spec T i hint draws : pit_ok T -> universe (NameV i) ->
  match find_or_create i hint draws T with
  | Some (T', e) =>
      pit_ok T' /\ cs_same T T' /\ pending_key T' (interest_key i hint) e /\ pitExpiryQueue T' = pitExpiryQueue T /\
      ((pending_key T (interest_key i hint) e /\ pits T' = pits T /\ forall e', live T' e' <-> live T e') \/
       ((forall e', ~ pending_key T (interest_key i hint) e') /\ e = next_pit T /\
        (exists node tok, tok ∈ draws /\ pits T' = <[e := new_entry i hint node tok]> (pits T)) /\
        forall e', live T' e' <-> live T e' \/ e' = e))
  | None => (forall e', ~ pending_key T (interest_key i hint) e') /\ forall t, t ∈ draws -> is_Some (pitTokenMap T !! t)
  end.
Proof.
  intros Hok Hu. unfold find_or_create. pose proof (fill_same T (NameV i) Hok Hu) as Hf.
  destruct (fillTreeToPrefixEnc (tree T) (NameV i)) as [tr node]. destruct Hf as (Hw & Htr & Hc & Hps & Hcs).
  pose proof (pit_same_ok _ _ Hps Hok) as Hok1. rewrite (data_at_node tr (NameV i) node) by done.
  change (pitEntries (cont tr (NameV i))) with (entries_at (set_tree tr T) (NameV i)).
  pose proof (find_entry_spec (set_tree tr T) (matches_entry i hint) (entries_at (set_tree tr T) (NameV i))) as Hfind.
  assert (Hkey : forall e', pending_key T (interest_key i hint) e' -> e' ∈ entries_at (set_tree tr T) (NameV i) /\
                   exists p, pits T !! e' = Some p /\ encname p = NameV i /\ key_of p = interest_key i hint).
  { intros e' [(p & Hp & He) (p' & Hp' & Hk)]. assert (p' = p) by congruence. subst p'.
    assert (Hn : encname p = NameV i) by (by injection Hk). rewrite (pit_same_at _ _ Hps), <- Hn. split; [done|]. by exists p. }
  destruct (find_entry _ _ _) as [e|].
  - destruct Hfind as (Hin & p & Hp & Ht). destruct (pit_entry _ Hok1 _ _ Hin) as (p' & Hp' & Hn & _).
    assert (p' = p) by congruence. subst p'. apply matches_entry_spec in Ht; [|done].
    assert (Hl : live (set_tree tr T) e) by (by eapply entries_live).
    split_and!; try done; [split; [done|by exists p]|]. left.
    split_and!; [split; [by apply (pit_same_live _ _ _ Hps)|by exists p]|done|]. intros. by apply pit_same_live.
  - assert (Hnone : forall e', ~ pending_key T (interest_key i hint) e').
    { intros e' Hk. destruct (Hkey e' Hk) as (Hin & p & Hp & Hn & Hkp).
      pose proof (Hfind e' p Hin Hp) as Hm. apply (matches_entry_spec i hint p Hn) in Hkp. congruence. }
    pose proof (generateNewPitToken_spec (pitTokenMap T) draws) as Hg.
    destruct (generateNewPitToken (pitTokenMap T) draws) as [tok|]; [|done]. destruct Hg as [Hd Htok].
    destruct (create_ok T i hint node tok tr Hok Hok1 Hu Hc Hw Htok Hnone) as (Hok' & Hcs' & Hl).
    split_and!; [done|by eapply cs_same_trans| |done|].
    + split; [apply Hl; by right|]. eexists. cbn. by rewrite lookup_insert_eq.
    + right. split_and!; [done|done|by exists node, tok|done].
Qed.

Lemma duplicate_nonce_spec p nonce inFace :
  duplicate_nonce p nonce inFace = true <->
  exists face r, inRecords p !! face = Some r /\ face <> inFace /\ in_LatestEncNonce r = nonce.
Proof.
  unfold duplicate_nonce. rewrite existsb_exists. split.
  - intros ([face r] & Hin & Hb). apply list_elem_of_In, elem_of_map_to_list in Hin.
    apply andb_true_iff in Hb as [Hf Hn]. apply bool_decide_eq_true in Hf. apply Z.eqb_eq in Hn. by exists face, r.
  - intros (face & r & Hl & Hf & Hn). exists (face, r). rewrite <- list_elem_of_In, elem_of_map_to_list.
    split; [done|]. rewrite bool_decide_true by done. cbn. by apply Z.eqb_eq.
Qed.

Lemma InsertInterest_ok T i nonce hint inFace draws T' e dup : pit_ok T -> universe (NameV i) ->
  InsertInterest i nonce hint inFace draws T = Some (T', e, dup) -> pit_ok T' /\ cs_same T T'.
Proof.
  intros Hok Hu. unfold InsertInterest. pose proof (find_or_create_spec T i hint draws Hok Hu) as Hf.
  destruct (find_or_create _ _ _ _) as [[T1 e1]|]; [|done]. destruct Hf as (Hok1 & Hcs & _).
  destruct (upd_pit_same T1 e1 (SetExpirationTime 0)) as [Hp Hc]; [done|].
  destruct (pits T1 !! e1); [destruct (duplicate_nonce _ _ _)|]; intros [= <- <- <-]; try done.
  split; [by eapply pit_same_ok|by eapply cs_same_trans].
Qed.

(** *** Removing *)

Lemma entries_swap_remove_perm i l e : l !! i = Some e -> e :: swap_remove i l ≡ₚ l.
Proof.
  intros Hi. pose proof (lookup_lt_Some _ _ _ Hi) as Hlt. unfold swap_remove.
  destruct (Nat.ltb_spec 1 (length l)) as [Hl|Hl].
  - destruct (exists_last (l := l)) as (l' & z & ->); [by destruct l|]. rewrite length_app in *. cbn [length] in *.
    replace (length l' + 1 - 1) with (length l') by lia. rewrite list_lookup_middle by done.
    rewrite length_insert, length_app. cbn [length]. replace (length l' + 1 - 1) with (length l') by lia.
    destruct (decide (i = length l')) as [->|Hne].
    + rewrite list_lookup_middle in Hi by done. injection Hi as ->.
      rewrite list_insert_id by (by rewrite list_lookup_middle).
      rewrite take_app_length. by rewrite Permutation_app_comm.
    + rewrite insert_app_l by lia. rewrite lookup_app_l in Hi by lia.
      rewrite take_app_le, take_ge by (rewrite ?length_insert; lia).
      rewrite insert_take_drop by lia. rewrite <- (take_drop_middle l' i e Hi) at 3.
      rewrite <- !app_assoc. cbn. rewrite <- Permutation_middle. rewrite (Permutation_app_comm (drop (S i) l') [z]).
      rewrite <- Permutation_middle. cbn. by rewrite <- Permutation_middle.
  - destruct l as [|x [|y l]]; cbn in *; [lia| |lia]. destruct i; [|lia]. cbn in Hi. by injection Hi as ->.
Qed.

Lemma remove_entry_ok T e p l' tr : pit_ok T -> live T e -> pits T !! e = Some p ->
  e :: l' ≡ₚ entries_at T (encname p) ->
  tree_ok tr -> keeps (upd_data (tree T) (pit_node p) (fun d => mkNodeData l' (csEntry d))) tr ->
  let T' := mkPitCs tr (pits T) (next_pit T) (css T) (next_cs T) (nPitEntries T - 1)
             (delete (token p) (pitTokenMap T)) (nCsEntries T) (csReplacement T) (csMap T) (pitExpiryQueue T) in
  pit_ok T' /\ cs_same T T' /\ forall e', live T' e' <-> live T e' /\ e' <> e.
Proof.
  intros Hok Hl Hp Hperm Htr [HK1 HK2] T'.
  destruct (live_node T e Hok Hl) as (p' & Hp' & He & Hw & Hu). assert (p' = p) by congruence. subst p'. clear Hp'.
  destruct (upd_data_ok (tree T) (encname p) (pit_node p) (fun d => mkNodeData l' (csEntry d))
              (pit_tree T Hok) Hw) as (_ & HW & HC).
  pose proof (pit_nodup T Hok (encname p)) as Hnd. rewrite <- Hperm in Hnd. apply NoDup_cons in Hnd as [Hel Hnd].
  assert (Hat : forall m, entries_at T' m = if decide (m = encname p) then l' else entries_at T m).
  { intros m. unfold entries_at. cbn [tree T']. rewrite HK1, HC. by case_decide. }
  assert (Hin : forall m e', e' ∈ entries_at T' m <-> e' ∈ entries_at T m /\ e' <> e).
  { intros m e'. rewrite Hat. case_decide as Hm.
    - subst m. rewrite <- Hperm, elem_of_cons. split; [|naive_solver].
      intros Hl'. split; [by right|]. intros ->. done.
    - split; [|by intros [? _]]. intros He'. split; [done|]. intros ->. apply Hm.
      destruct (pit_entry T Hok m e He') as (q & Hq & <- & _). congruence. }
  assert (Hlive : forall e', live T' e' <-> live T e' /\ e' <> e).
  { intros e'. unfold live. cbn [pits T']. setoid_rewrite Hin. naive_solver. }
  assert (Htoks : pitTokenMap T !! token p = Some e) by (apply (pit_tokens T Hok); by exists p).
  split_and!; [split|split|done]; try done.
  - intros m e' He'. pose proof He' as He2. apply Hin in He' as [He' Hne].
    destruct (pit_entry T Hok m e' He') as (q & Hq & Hn & Hwq & Huq). exists q. split_and!; try done.
    apply HK2; [by rewrite HW|]. intros Ecn. unfold entries_at in He2. cbn [tree T'] in He2.
    rewrite HK1, Ecn in He2. by apply elem_of_nil in He2.
  - intros m. rewrite Hat. case_decide; [done|apply Hok].
  - intros e1 e2 p1 p2 H1 H2. apply Hlive in H1 as [H1 _], H2 as [H2 _]. by apply (pit_keys T Hok).
  - intros t e'. cbn [pitTokenMap T' pits]. setoid_rewrite Hlive. rewrite lookup_delete_Some, (pit_tokens T Hok). split.
    + intros [Ht (q & Hlq & Hq & Htq)]. exists q. split_and!; try done. intros ->. congruence.
    + intros (q & [Hlq Hne] & Hq & Htq). split; [|by exists q]. intros Ht. apply Hne.
      assert (pitTokenMap T !! t = Some e') by (apply (pit_tokens T Hok); by exists q). congruence.
  - cbn. rewrite map_size_delete. rewrite Htoks. rewrite (pit_count T Hok).
    assert (size (pitTokenMap T) <> 0); [|lia]. intros E0%map_size_empty_iff. rewrite E0 in Htoks. done.
  - apply Hok.
  - intros m. unfold cs_at. cbn [tree T']. rewrite HK1, HC. by case_decide; subst.
  - intros m j Hm Hc. cbn [tree T']. apply HK2; [by rewrite HW|]. intros Ecn. apply Hc. rewrite HC in Ecn.
    unfold cs_at. case_decide; [subst m; by injection Ecn|by rewrite Ecn].
Qed.

Lemma RemoveInterest_spec T e : pit_ok T ->
  let '(T', b) := RemoveInterest e T in
  pit_ok T' /\ cs_same T T' /\ (b = true <-> live T e) /\ pits T' = pits T /\
  pitExpiryQueue T' = pitExpiryQueue T /\ forall e', live T' e' <-> live T e' /\ e' <> e.
Proof.
  intros Hok. unfold RemoveInterest.
  assert (Hno : ~ live T e -> pit_ok T /\ cs_same T T /\ (false = true <-> live T e) /\ pits T = pits T /\
    pitExpiryQueue T = pitExpiryQueue T /\ forall e', live T e' <-> live T e' /\ e' <> e).
  { intros Hn. split_and!; try done. split; [|by intros [? _]]. intros Hl. split; [done|]. by intros ->. }
  destruct (pits T !! e) as [p|] eqn:Ep; [|apply Hno; intros (p & Hp & _); congruence].
  destruct (list_find _ _) as [[i x]|] eqn:Ef.
  - apply list_find_Some in Ef as (Hi & -> & _).
    assert (Hne : data_at (tree T) (pit_node p) <> no_data).
    { intros E. rewrite E in Hi. done. }
    destruct (data_at_reached (tree T) (pit_node p) (pit_tree T Hok) Hne) as (n & Hn & Hc).
    assert (Hin : e ∈ entries_at T n).
    { unfold entries_at. rewrite Hc. by eapply list_elem_of_lookup_2. }
    destruct (pit_entry T Hok n e Hin) as (p' & Hp' & <- & Hw & Hu). assert (p' = p) by congruence. subst p'.
    assert (Hl : live T e) by (by exists p).
    pose proof (entries_swap_remove_perm i (pitEntries (data_at (tree T) (pit_node p))) e Hi) as Hperm.
    set (l' := swap_remove _ _) in *. rewrite <- Hc in Hperm.
    set (tr := upd_data _ _ _).
    destruct (upd_data_ok (tree T) (encname p) (pit_node p) (fun d => mkNodeData l' (csEntry d))
              (pit_tree T Hok) Hw) as (Htr & HW & HC). fold tr in Htr, HW, HC.
    assert (Hfin : exists tr', (if length l' =? 0 then pruneIfEmpty (S (depth_of tr (pit_node p))) tr (pit_node p) else tr) = tr'
                     /\ tree_ok tr' /\ keeps tr tr').
    { eexists. split; [done|]. destruct (length l' =? 0); [|by split].
      apply (pruneIfEmpty_ok _ tr (encname p)); [done|by rewrite HW]. }
    destruct Hfin as (tr' & -> & Htr' & Hk).
    destruct (remove_entry_ok T e p l' tr' Hok Hl Ep Hperm Htr' Hk) as (? & ? & ?). by split_and!.
  - apply Hno. intros Hl. destruct (live_node T e Hok Hl) as (p' & Hp' & He & Hw & _).
    assert (p' = p) by congruence. subst p'. apply list_find_None in Ef.
    rewrite (data_at_node _ _ _ (pit_tree T Hok) Hw) in Ef. rewrite Forall_forall in Ef. by apply (Ef e).
Qed.

(** *** Looking up *)

Lemma FindInterestExactMatchEnc_spec T i : pit_ok T -> universe (NameV i) ->
  let same p := encname p = NameV i /\ canBePrefix p = CanBePrefixV i /\ mustBeFresh p = MustBeFreshV i in
  match FindInterestExactMatchEnc T i with
  | Some e => live T e /\ exists p, pits T !! e = Some p /\ same p
  | None => forall e p, live T e -> pits T !! e = Some p -> ~ same p
  end.
Proof.
  intros Hok Hu same. unfold FindInterestExactMatchEnc. rewrite findExactMatchEntryEnc_spec by (done || apply Hok).
  destruct (node_of (tree T) (NameV i)) as [node|] eqn:Ew.
  - rewrite (data_at_node _ _ _ (pit_tree T Hok) Ew).
    pose proof (find_entry_spec T (fun p => Bool.eqb (canBePrefix p) (CanBePrefixV i) &&
                             Bool.eqb (mustBeFresh p) (MustBeFreshV i)) (entries_at T (NameV i))) as Hf.
    unfold entries_at in Hf at 1. destruct (find_entry _ _ _) as [e|].
    + destruct Hf as (Hin & p & Hp & Ht). destruct (pit_entry T Hok _ e Hin) as (p' & Hp' & Hn & _).
      assert (p' = p) by congruence. subst p'. apply andb_true_iff in Ht as [Hc%eqb_prop Hm%eqb_prop].
      split; [by eapply entries_live|]. by exists p.
    + intros e p Hl Hp (Hn & Hc & Hm). destruct (live_node T e Hok Hl) as (p' & Hp' & Hin & _).
      assert (p' = p) by congruence. subst p'. rewrite Hn in Hin. pose proof (Hf e p Hin Hp) as Hb.
      cbn in Hb. by rewrite Hc, Hm, !eqb_reflx in Hb.
  - intros e p Hl Hp (Hn & _). destruct (live_node T e Hok Hl) as (p' & Hp' & _ & Hw & _).
    assert (p' = p) by congruence. subst p'. rewrite Hn in Hw. congruence.
Qed.

(** An entry is satisfied by Data of that name. *)
Definition satisfies (p : nameTreePitEntry) (name : Name) : Prop :=
  encname p `prefix_of` name /\ (canBePrefix p = true \/ encname p = name).

Lemma collect_matching_spec T name : pit_ok T -> forall k fuel i,
  k <= length name -> k < fuel -> node_of (tree T) (take k name) = Some i ->
  let l := collect_matching fuel T (length name) i in
  NoDup l /\
  forall e, e ∈ l <-> exists j p, j <= k /\ e ∈ entries_at T (take j name) /\ pits T !! e = Some p /\
    (canBePrefix p = true \/ j = length name).
Proof.
  intros Hok k. induction k as [|k IH]; intros [|fuel] i Hk Hfu Hw; try lia; cbn [collect_matching];
    destruct (walk_node used (tree T) _ i (ok_struct _ (pit_tree T Hok)) Hw) as (f & Hf & Hd); rewrite Hf;
    rewrite length_take, Nat.min_l in Hd by done;
    pose proof (cont_node (tree T) _ i (pit_tree T Hok) Hw) as Hc; unfold data_of in Hc; rewrite Hf in Hc;
    injection Hc as Hc; rewrite Hc; set (here := filter _ _);
    match type of Hw with node_of _ (take ?m _) = _ =>
      assert (Hhere : forall e, e ∈ here <-> exists p, e ∈ entries_at T (take m name) /\ pits T !! e = Some p /\
        (canBePrefix p = true \/ m = length name)) end.
  - intros e. unfold here. rewrite list_elem_of_filter. rewrite Hd. split.
    + intros [Ht Hin]. destruct (pits T !! e) as [p|]; [|done]. exists p. split_and!; [done..|].
      apply orb_prop in Ht as [?|?%Nat.eqb_eq]; auto.
    + intros (p & Hin & -> & Ht). split; [|done]. apply orb_true_iff. rewrite Nat.eqb_eq. done.
  - assert (Hp : parent f = None).
    { destruct (ok_root used _ (ok_struct _ (pit_tree T Hok))) as (r & Hr & _ & Hp). injection Hw as <-. congruence. }
    rewrite Hp, app_nil_r. split; [apply NoDup_filter, Hok|]. intros e. rewrite Hhere. split.
    + intros (p & ?). exists 0, p. naive_solver lia.
    + intros (j & p & Hj & ?). assert (j = 0) by lia. subst j. by exists p.
  - intros e. unfold here. rewrite list_elem_of_filter. rewrite Hd. split.
    + intros [Ht Hin]. destruct (pits T !! e) as [p|]; [|done]. exists p. split_and!; [done..|].
      apply orb_prop in Ht as [?|?%Nat.eqb_eq]; auto.
    + intros (p & Hin & -> & Ht). split; [|done]. apply orb_true_iff. rewrite Nat.eqb_eq. done.
  - destruct (lookup_lt_is_Some_2 name k ltac:(lia)) as [c Hn]. pose proof Hw as Hw2.
    rewrite (take_S_r _ _ _ Hn), walk_snoc in Hw2. apply bind_Some in Hw2 as (q & Hq & Hkq).
    pose proof (trie_child _ _ _ (tree_trie used _ (ok_struct _ (pit_tree T Hok))) _ _ _ Hkq) as [Hp _].
    unfold parent_of in Hp. rewrite Hf in Hp. cbn in Hp. rewrite Hp.
    destruct (IH fuel q ltac:(lia) ltac:(lia) Hq) as [Hnd Hin]. split.
    + apply NoDup_app. split_and!; [apply NoDup_filter, Hok| |done].
      intros e (p & He & _)%Hhere (j & p' & Hj & He' & _)%Hin.
      destruct (pit_entry T Hok _ e He) as (x & Hx & Hx1 & _), (pit_entry T Hok _ e He') as (y & Hy & Hy1 & _).
      assert (E : take (S k) name = take j name) by congruence. apply (f_equal length) in E.
      rewrite !length_take in E. lia.
    + intros e. rewrite elem_of_app, Hhere, Hin. split.
      * intros [(p & ?)|(j & p & Hj & ?)]; [exists (S k), p; naive_solver lia|exists j, p; naive_solver lia].
      * intros (j & p & Hj & ?). destruct (decide (j = S k)) as [->|]; [left; by exists p|right].
        exists j, p. naive_solver lia.
Qed.

Lemma findInterestPrefixMatchByNameEnc_spec T name : pit_ok T -> universe name ->
  let l := findInterestPrefixMatchByNameEnc T name in
  NoDup l /\ forall e, e ∈ l <-> live T e /\ exists p, pits T !! e = Some p /\ satisfies p name.
Proof.
  intros Hok Hu. unfold findInterestPrefixMatchByNameEnc.
  rewrite findLongestPrefixEntryEnc_spec by (done || apply Hok).
  destruct (walk_far_spec (kids (tree T)) 0 name) as (k & Hk & Hw & Hmax).
  destruct (collect_matching_spec T name Hok k (S (length name)) _ Hk ltac:(lia) Hw) as [Hnd Hin].
  split; [done|]. intros e. rewrite Hin. split.
  - intros (j & p & Hj & He & Hp & Hc). split; [by eapply entries_live|]. exists p. split; [done|].
    destruct (pit_entry T Hok _ e He) as (p' & Hp' & Hn & _). assert (p' = p) by congruence. subst p'.
    split; [rewrite Hn; apply prefix_take|]. destruct Hc as [?|Hj']; [by left|right]. by rewrite Hn, Hj', firstn_all.
  - intros (Hl & p & Hp & Hpre & Hc). destruct (live_node T e Hok Hl) as (p' & Hp' & He & Hwn & _).
    assert (p' = p) by congruence. subst p'. pose proof (prefix_length _ _ Hpre) as Hle.
    destruct Hpre as [r Hr]. assert (Ht : take (length (encname p)) name = encname p) by (by rewrite Hr, take_app_length).
    exists (length (encname p)), p. rewrite Ht. split_and!; try done.
    + destruct (decide (length (encname p) <= k)); [done|]. specialize (Hmax (length (encname p)) ltac:(lia)).
      rewrite Ht in Hmax. congruence.
    + destruct Hc as [?|<-]; auto.
Qed.

Lemma token_lookup_spec T name t e : pit_ok T ->
  e ∈ FindInterestPrefixMatchByDataEnc T name (Some t) <->
  live T e /\ exists p, pits T !! e = Some p /\ token p = t.
Proof.
  intros Hok. cbn. pose proof (pit_tokens T Hok t) as Ht.
  destruct (pitTokenMap T !! t) as [e'|].
  - destruct (proj1 (Ht e') eq_refl) as (p & Hl & Hp & Htp). rewrite Hp. cbn. rewrite Htp, Z.eqb_refl.
    rewrite list_elem_of_singleton. split; [intros ->; eauto|]. intros (Hl' & q & Hq & Htq).
    assert (Some e' = Some e) as [= ->]; [|done]. apply Ht. by exists q.
  - rewrite elem_of_nil. split; [done|]. intros (Hl & p & Hp & Htp).
    assert (None = Some e); [|done]. apply Ht. by exists p.
Qed.

(** *** Records and timers *)

Lemma InsertInRecord_static pp nonce face tok now p : static (InsertInRecord pp nonce face tok now p).1 = static p.
Proof. unfold InsertInRecord. by destruct (inRecords p !! face). Qed.

Lemma InsertOutRecord_static pp nonce face now p : static (InsertOutRecord pp nonce face now p) = static p.
Proof. unfold InsertOutRecord. by destruct (outRecords p !! face). Qed.

Definition queue_ok (T : PitCsTree) : Prop :=
  PQueue.heap_ok (pitExpiryQueue T) /\ PQueue.index_ok (pitExpiryQueue T).

Lemma updatePitExpiry_same T e : pit_same T (updatePitExpiry e T) /\ cs_same T (updatePitExpiry e T) /\
  (queue_ok T -> queue_ok (updatePitExpiry e T)).
Proof.
  unfold updatePitExpiry. destruct (pits T !! e) as [p|]; [|split_and!; [apply pit_same_refl|apply cs_same_refl|done]].
  destruct (Z.ltb_spec (queueIndex p) 0) as [Hq|Hq].
  - pose proof (fun Hh Hi => PQueue.Push_spec (pitExpiryQueue T) e (expirationTime p) Hh Hi) as Hpush.
    destruct (PQueue.Push _ _ _) as [q ix].
    destruct (upd_pit_same T e (with_queueIndex ix) ltac:(done)) as [P1 C1].
    destruct (set_queue_same (upd_pit e (with_queueIndex ix) T) q) as [P2 C2].
    split_and!; [by eapply pit_same_trans|by eapply cs_same_trans|]. intros [Hh Hi].
    destruct (Hpush Hh Hi) as (? & ? & _). by split.
  - destruct (set_queue_same T (PQueue.Update (pitExpiryQueue T) (queueIndex p) e (expirationTime p)).1) as [P C].
    split_and!; [done|done|]. intros [Hh Hi]. unfold queue_ok. cbn [pitExpiryQueue set_queue].
    destruct (decide (queueIndex p < Z.of_nat (length (pitExpiryQueue T)))%Z) as [Hl|Hl].
    + pose proof (PQueue.Update_spec (pitExpiryQueue T) (Z.to_nat (queueIndex p)) e (expirationTime p) Hh Hi ltac:(lia)) as Hs.
      rewrite Z2Nat.id in Hs by lia. destruct (PQueue.Update _ _ _ _) as [q ix]. by destruct Hs as (? & ? & _).
    + rewrite PQueue.Update_out_of_range by lia. done.
Qed.

(** The loop of a timer update computes a maximum. *)
Lemma fold_max {A} (f : A -> Z) l : forall t,
  let m := fold_left (fun t x => if (t <? f x)%Z then f x else t) l t in
  (t <= m)%Z /\ (forall x, x ∈ l -> (f x <= m)%Z) /\ (m = t \/ exists x, x ∈ l /\ m = f x).
Proof.
  induction l as [|y l IH]; intros t; cbn [fold_left].
  - split_and!; [lia| |by left]. intros x Hx. by apply elem_of_nil in Hx.
  - destruct (IH (if (t <? f y)%Z then f y else t)) as (H1 & H2 & H3).
    destruct (Z.ltb_spec t (f y)); (split_and!; [lia| |]);
      try (intros x [->|Hx]%elem_of_cons; [lia|by apply H2]);
      destruct H3 as [->|(x & Hx & ->)]; try (right; exists x; split; [by right|done]); [right; exists y|left]; try done.
    split; [by left|done].
Qed.

Lemma latest_expiration_spec now p :
  let m := latest_expiration now p in
  (now <= m)%Z /\
  (forall f r, inRecords p !! f = Some r -> (in_ExpirationTime r <= m)%Z) /\
  (forall f r, outRecords p !! f = Some r -> (out_ExpirationTime r <= m)%Z) /\
  (m = now \/ (exists f r, inRecords p !! f = Some r /\ m = in_ExpirationTime r) \/
   exists f r, outRecords p !! f = Some r /\ m = out_ExpirationTime r).
Proof.
  unfold latest_expiration.
  destruct (fold_max (fun kr : Z * PitInRecord => in_ExpirationTime kr.2) (map_to_list (inRecords p)) now) as (A1 & A2 & A3).
  destruct (fold_max (fun kr : Z * PitOutRecord => out_ExpirationTime kr.2) (map_to_list (outRecords p))
    (fold_left (fun t (kr : Z * PitInRecord) => if (t <? in_ExpirationTime kr.2)%Z then in_ExpirationTime kr.2 else t)
              (map_to_list (inRecords p)) now)) as (B1 & B2 & B3).
  cbn zeta. split_and!; [lia| | |].
  - intros f r Hr. apply elem_of_map_to_list in Hr. specialize (A2 _ Hr). cbn in A2. lia.
  - intros f r Hr. apply elem_of_map_to_list in Hr. by specialize (B2 _ Hr).
  - destruct B3 as [->|([f r] & Hr & ->)].
    + destruct A3 as [->|([f r] & Hr & ->)]; [by left|]. right. left. exists f, r.
      by apply elem_of_map_to_list in Hr.
    + right. right. exists f, r. by apply elem_of_map_to_list in Hr.
Qed.

(** *** The expiration loop *)

(** What [Update] reports: the callback on the popped entries, in order. *)
Definition report {S} (onExpiration : nameTreePitEntry -> S -> S) (T : PitCsTree) (popped : list nat) (s : S) : S :=
  fold_left (fun s e => match pits T !! e with
                        | Some p => onExpiration (with_queueIndex (-1) p) s
                        | None => s
                        end) popped s.

Lemma report_ext {S} (onExpiration : nameTreePitEntry -> S -> S) T T' popped s :
  (forall e, with_queueIndex (-1) <$> pits T' !! e = with_queueIndex (-1) <$> pits T !! e) ->
  report onExpiration T' popped s = report onExpiration T popped s.
Proof.
  intros E. unfold report. revert s. induction popped as [|e l IH]; intros s; [done|]. cbn [fold_left].
  specialize (E e). rewrite IH. f_equal. destruct (pits T' !! e), (pits T !! e); cbn in E; congruence.
Qed.

Lemma Update_loop_spec {S} (onExpiration : nameTreePitEntry -> S -> S) now fuel : forall T s,
  pit_ok T -> queue_ok T -> length (pitExpiryQueue T) <= fuel ->
  let '(T', s') := Update_loop onExpiration now fuel T s in
  pit_ok T' /\ cs_same T T' /\ queue_ok T' /\
  exists popped,
    PQueue.contents (pitExpiryQueue T) ≡ₚ popped ++ PQueue.contents (pitExpiryQueue T') /\
    StronglySorted Z.le (popped.*2) /\
    (forall x, x ∈ popped -> (x.2 <= now)%Z) /\
    (forall x, x ∈ PQueue.contents (pitExpiryQueue T') -> (now < x.2)%Z) /\
    s' = report onExpiration T (popped.*1) s /\
    forall e, live T' e <-> live T e /\ e ∉ popped.*1.
Proof.
  assert (Hstop : forall T (s : S), pit_ok T -> queue_ok T ->
    (forall x, x ∈ PQueue.contents (pitExpiryQueue T) -> (now < x.2)%Z) ->
    pit_ok T /\ cs_same T T /\ queue_ok T /\ exists popped : list (nat * Z),
      PQueue.contents (pitExpiryQueue T) ≡ₚ popped ++ PQueue.contents (pitExpiryQueue T) /\
      StronglySorted Z.le (popped.*2) /\ (forall x, x ∈ popped -> (x.2 <= now)%Z) /\
      (forall x, x ∈ PQueue.contents (pitExpiryQueue T) -> (now < x.2)%Z) /\
      s = report onExpiration T (popped.*1) s /\ forall e, live T e <-> live T e /\ e ∉ popped.*1).
  { intros T s Hok Hq Hx. split_and!; [done|apply cs_same_refl|done|]. exists []. split_and!; try done; [constructor| |].
    - intros x Hin. by apply elem_of_nil in Hin.
    - intros e. cbn. split; [|by intros [? _]]. intros. split; [done|]. apply not_elem_of_nil. }
  induction fuel as [|fuel IH]; intros T s Hok Hq Hf.
  { cbn [Update_loop]. apply Hstop; [done|done|]. destruct (pitExpiryQueue T); [|cbn in Hf; lia].
    intros x Hx. by apply elem_of_nil in Hx. }
  cbn [Update_loop]. destruct Hq as [Hh Hi]. pose proof (PQueue.Pop_spec (pitExpiryQueue T) Hh Hi) as Hpop.
  destruct (PQueue.Pop (pitExpiryQueue T)) as [[e q]|].
  - destruct Hpop as (p & _ & -> & Hperm & Hh' & Hi' & Hmin). destruct (Z.leb_spec p now) as [Hp|Hp].
    + set (T1 := upd_pit e (with_queueIndex (-1)) (set_queue q T)).
      destruct (set_queue_same T q) as [P1 C1].
      destruct (upd_pit_same (set_queue q T) e (with_queueIndex (-1)) ltac:(done)) as [P2 C2]. fold T1 in P2, C2.
      pose proof (pit_same_trans _ _ _ P1 P2) as P. pose proof (cs_same_trans _ _ _ C1 C2) as C.
      pose proof (RemoveInterest_spec T1 e (pit_same_ok _ _ P Hok)) as Hr.
      destruct (RemoveInterest e T1) as [T2 b] eqn:ER. destruct Hr as (Hok2 & C' & _ & Hpits & Hqs & Hl).
      cbn [fst]. set (s1 := match pits T1 !! e with Some p => onExpiration p s | None => s end).
      assert (Hlen : length (pitExpiryQueue T) = Datatypes.S (length q)).
      { apply Permutation_length in Hperm. unfold PQueue.contents in Hperm. cbn in Hperm. by rewrite !length_fmap in Hperm. }
      specialize (IH T2 s1 Hok2). rewrite Hqs in IH. cbn [pitExpiryQueue T1 upd_pit set_pits set_queue] in IH.
      unfold queue_ok in IH. rewrite Hqs in IH. cbn in IH.
      specialize (IH ltac:(done) ltac:(lia)). destruct (Update_loop _ _ _ _ _) as [T' s'].
      destruct IH as (Hok' & C'' & Hq' & popped & Hc' & Hs' & Hle & Hgt & -> & Hlv).
      split_and!; [done|by eapply cs_same_trans, cs_same_trans|done|]. exists ((e, p) :: popped). split_and!.
      * rewrite Hperm, Hc'. done.
      * cbn. constructor; [done|]. apply Forall_forall. intros z Hz. apply list_elem_of_fmap in Hz as ([e' p'] & -> & Hin).
        apply (Hmin e'). rewrite Hperm, Hc'. right. apply elem_of_app. by left.
      * intros x [->|Hx]%elem_of_cons; [done|by apply Hle].
      * done.
      * cbn [fmap list_fmap fst]. unfold report at 2. cbn [fold_left].
        assert (Hs1 : s1 = match pits T !! e with Some p => onExpiration (with_queueIndex (-1) p) s | None => s end).
        { unfold s1. cbn. rewrite lookup_alter_eq. by destruct (pits T !! e). }
        rewrite <- Hs1. change (report onExpiration T2 popped.*1 s1 = report onExpiration T popped.*1 s1).
        apply report_ext. intros x. rewrite Hpits. cbn. destruct (decide (x = e)) as [->|].
        -- rewrite lookup_alter_eq. by destruct (pits T !! e).
        -- by rewrite lookup_alter_ne.
      * intros x. rewrite Hlv, Hl, (pit_same_live _ _ _ P). cbn. rewrite not_elem_of_cons. tauto.
    + apply Hstop; [done|done|]. intros [v' p'] Hin. cbn. specialize (Hmin v' p' Hin). lia.
  - assert (Hpk : PQueue.PeekPriority (pitExpiryQueue T) = None) by by rewrite Hpop.
    rewrite Hpk. apply Hstop; [done|by split|]. rewrite Hpop. intros x Hx. by apply elem_of_nil in Hx.
Qed.

Lemma Update_ok {S} (onExpiration : nameTreePitEntry -> S -> S) now T s : pit_ok T -> queue_ok T ->
  let T' := (Update onExpiration now T s).1 in pit_ok T' /\ cs_same T T' /\ queue_ok T'.
Proof.
  intros Hok Hq. unfold Update. pose proof (Update_loop_spec onExpiration now _ T s Hok Hq (le_n _)) as H'.
  destruct (Update_loop _ _ _ _ _) as [T' s']. cbn. tauto.
Qed.

Lemma new_pit_ok : pit_ok NewPitCS /\ queue_ok NewPitCS /\ forall e, ~ live NewPitCS e.
Proof.
  destruct new_tree_ok as [Ht Hc].
  assert (Hl : forall e, ~ live NewPitCS e) by (intros e (p & Hp & _); done).
  assert (Hno : forall n e, e ∉ entries_at NewPitCS n).
  { intros n e. unfold entries_at. rewrite Hc. apply not_elem_of_nil. }
  split_and!; [split|split|done]; try done.
  - intros n e He. by apply Hno in He.
  - intros n. unfold entries_at. rewrite Hc. apply NoDup_nil_2.
  - intros t e. split; [done|]. intros (p & H1 & _). by apply Hl in H1.
Qed.

End theory.
