(* ===== verification/ContentStore.v ===== *)
(** * The Content Store

    [PitCsTree]'s Content Store half with its LRU policy implements a list of
    records, the least recently used first: a name is stored once, insertion
    evicts from the front, exact use moves to the back, and the prefix search
    finds a record whenever there is one. *)
From S2P Require Import Prelude.
From S2P Require Import Enc.
From S2P Require Import NameTree.
From S2P Require Import Arena.
From S2P Require Import Packet.
From S2P Require Import PitCs.
From S2P Require Import PitTree.
From S2P Require Import Pit.

(** ** Specification *)

Record cs_record := mkRecord { r_name : Name; r_data : nat; r_stale : Z }.

#[export] Instance cs_record_eq_dec : EqDecision cs_record.
Proof. solve_decision. Defined.

(** The store without a name. *)
Definition without (n : Name) (l : list cs_record) : list cs_record := filter (fun r => r_name r <> n) l.

(** Data is stale [FreshnessPeriod] after its arrival, at once without one. *)
Definition record_of (pp : nat) (d : Data) (now : Z) : cs_record :=
  mkRecord (DataNameV d) pp (match FreshnessPeriod d with Some f => now + f | None => now end)%Z.

Definition spec_insert (cap : nat) (r : cs_record) (l : list cs_record) : list cs_record :=
  if decide (r_name r ∈ r_name <$> l) then without (r_name r) l ++ [r]
  else drop (S (length l) - cap) (l ++ [r]).

Definition usable (i : Interest) (now : Z) (r : cs_record) : Prop :=
  MustBeFreshV i = false \/ (now < r_stale r)%Z.

#[export] Instance usable_dec i now r : Decision (usable i now r).
Proof. unfold usable. apply _. Defined.

(** Use of a record moves it to the back. *)
Definition spec_use (r : cs_record) (l : list cs_record) : list cs_record := without (r_name r) l ++ [r].

Section theory.
Context `{EncLaws}.

(** An element of the LRU list stands for a record. *)
Definition stored (T : PitCsTree) (el : nat * Z) (r : cs_record) : Prop :=
  el.2 = Name_Hash (r_name r) /\ universe (r_name r) /\
  exists c i, csMap T !! el.2 = Some c /\ cs_at T (r_name r) = Some c /\ node_of (tree T) (r_name r) = Some i /\
    css T !! c = Some (mkCsEntry el.2 (r_stale r) (r_data r) i).

Record cs_repr (T : PitCsTree) (l : list cs_record) : Prop := {
  repr_tree : tree_ok (tree T);
  repr_stored : Forall2 (stored T) (queue (csReplacement T)) l;
  repr_names : NoDup (r_name <$> l);
  repr_ids : NoDup (queue (csReplacement T)).*1;
  repr_locations : forall id h, (id, h) ∈ queue (csReplacement T) ->
    locations (csReplacement T) !! h = Some id /\ id < next_elem (csReplacement T);
  repr_map : forall h c, csMap T !! h = Some c -> h ∈ (queue (csReplacement T)).*2;
  repr_at : forall n c, cs_at T n = Some c -> universe n /\ csMap T !! Name_Hash n = Some c;
  repr_count : nCsEntries T = Z.of_nat (length l);
  repr_bound : forall c x, css T !! c = Some x -> c < next_cs T }.

(** *** Records and elements *)

Lemma repr_record T l el r : cs_repr T l -> el ∈ queue (csReplacement T) -> stored T el r -> r ∈ l.
Proof.
  intros HR Hel Hs. destruct (list_elem_of_lookup_1 _ _ Hel) as [k Hk].
  destruct (Forall2_lookup_l _ _ _ _ _ (repr_stored T l HR) Hk) as (r' & Hr' & Hs').
  destruct Hs as (E & Hu & c & i & Hc & _ & Hi & Hx), Hs' as (E' & Hu' & c' & i' & Hc' & _ & Hi' & Hx').
  assert (Hn : r_name r = r_name r') by (apply Name_Hash_inj; congruence).
  assert (c' = c) by congruence. subst c'. rewrite Hx in Hx'. injection Hx' as E1 E2 E3.
  assert (r = r') as ->; [destruct r, r'; cbn in *; congruence|]. by eapply list_elem_of_lookup_2.
Qed.

(** The record of a hash in the map. *)
Lemma repr_lookup T l h c : cs_repr T l -> csMap T !! h = Some c ->
  exists id r, (id, h) ∈ queue (csReplacement T) /\ r ∈ l /\ stored T (id, h) r.
Proof.
  intros HR Hc. apply (repr_map T l HR) in Hc. apply list_elem_of_fmap in Hc as ([id h'] & -> & Hin).
  destruct (list_elem_of_lookup_1 _ _ Hin) as [k Hk].
  destruct (Forall2_lookup_l _ _ _ _ _ (repr_stored T l HR) Hk) as (r & Hr & Hs).
  exists id, r. split_and!; [done|by eapply list_elem_of_lookup_2|done].
Qed.

Lemma repr_element T l r : cs_repr T l -> r ∈ l ->
  exists id, (id, Name_Hash (r_name r)) ∈ queue (csReplacement T) /\ stored T (id, Name_Hash (r_name r)) r.
Proof.
  intros HR Hr. destruct (list_elem_of_lookup_1 _ _ Hr) as [k Hk].
  destruct (Forall2_lookup_r _ _ _ _ _ (repr_stored T l HR) Hk) as ([id h] & Hel & Hs).
  pose proof Hs as (E & _). cbn in E. subst h. exists id. split; [by eapply list_elem_of_lookup_2|done].
Qed.

(** What is at a name is the record of that name. *)
Lemma repr_at_record T l n c : cs_repr T l -> cs_at T n = Some c ->
  exists r i, r ∈ l /\ r_name r = n /\ node_of (tree T) n = Some i /\
    css T !! c = Some (mkCsEntry (Name_Hash n) (r_stale r) (r_data r) i).
Proof.
  intros HR Hc. destruct (repr_at T l HR n c Hc) as [Hu Hm].
  destruct (repr_lookup T l _ c HR Hm) as (id & r & Hin & Hr & E & Hur & c' & i & Hc' & _ & Hi & Hx).
  cbn in *. assert (Hn : r_name r = n) by (apply Name_Hash_inj; congruence).
  assert (c' = c) by congruence. subst c' n. by exists r, i.
Qed.

Lemma repr_record_at T l r : cs_repr T l -> r ∈ l ->
  exists c i, cs_at T (r_name r) = Some c /\ csMap T !! Name_Hash (r_name r) = Some c /\
    node_of (tree T) (r_name r) = Some i /\
    css T !! c = Some (mkCsEntry (Name_Hash (r_name r)) (r_stale r) (r_data r) i) /\ universe (r_name r).
Proof.
  intros HR Hr. destruct (repr_element T l r HR Hr) as (id & Hin & E & Hu & c & i & Hc & Ha & Hi & Hx).
  by exists c, i.
Qed.

(** The name is stored exactly when its hash is in the map. *)
Lemma repr_mem T l n : cs_repr T l -> universe n ->
  n ∈ r_name <$> l <-> is_Some (csMap T !! Name_Hash n).
Proof.
  intros HR Hu. split.
  - intros (r & -> & Hr)%list_elem_of_fmap. destruct (repr_record_at T l r HR Hr) as (c & i & _ & -> & _). by eexists.
  - intros [c Hc]. destruct (repr_lookup T l _ c HR Hc) as (id & r & Hin & Hr & E & Hur & _).
    cbn in E. apply list_elem_of_fmap. exists r. split; [|done]. by apply Name_Hash_inj.
Qed.

(** *** Frame *)

Lemma cs_same_repr T T' l : cs_same T T' -> cs_repr T l -> cs_repr T' l.
Proof.
  intros S HR. destruct S as [S1 S2 S3 S4 S5 S6 S7 S8]. destruct HR as [R1 R2 R3 R4 R5 R6 R7 R8 R9].
  split; rewrite ?S4, ?S5, ?S6, ?S7, ?S8; try done; [by apply S1| |].
  - eapply Forall2_impl; [done|]. intros el r (E & Hu & c & i & Hc & Ha & Hi & Hx). split_and!; [done..|].
    exists c, i. rewrite S2, S4, S8. split_and!; try done. apply S3; [done|congruence].
  - intros n c. rewrite S2. auto.
Qed.

(** *** Touching a record *)

Lemma filter_Forall2 {A B} (P : A -> Prop) (Q : B -> Prop) `{!forall x, Decision (P x)} `{!forall x, Decision (Q x)}
    (R : A -> B -> Prop) l k : Forall2 R l k -> (forall a b, a ∈ l -> R a b -> P a <-> Q b) ->
  Forall2 R (filter P l) (filter Q k).
Proof.
  induction 1 as [|a b l k Hab HF IH]; intros HPQ; [constructor|].
  assert (IH' : Forall2 R (filter P l) (filter Q k)) by (apply IH; intros; apply HPQ; [by right|done]).
  pose proof (HPQ a b ltac:(by left) Hab) as Hh. rewrite !filter_cons. repeat case_decide; try tauto. by constructor.
Qed.

Lemma ids_inj (q : list (nat * Z)) id h h' : NoDup q.*1 -> (id, h) ∈ q -> (id, h') ∈ q -> h = h'.
Proof.
  intros Hn [a Ha]%list_elem_of_lookup [b Hb]%list_elem_of_lookup.
  assert (a = b); [|congruence].
  apply (NoDup_lookup _ _ _ id Hn); rewrite list_lookup_fmap; [by rewrite Ha|by rewrite Hb].
Qed.

Lemma touch_repr T l r r' c i css' : cs_repr T l -> r ∈ l -> r_name r' = r_name r ->
  csMap T !! Name_Hash (r_name r) = Some c -> node_of (tree T) (r_name r) = Some i ->
  css' !! c = Some (mkCsEntry (Name_Hash (r_name r)) (r_stale r') (r_data r') i) ->
  (forall c', c' <> c -> css' !! c' = css T !! c') ->
  cs_repr (mkPitCs (tree T) (pits T) (next_pit T) css' (next_cs T) (nPitEntries T) (pitTokenMap T) (nCsEntries T)
            (AfterRefresh (Name_Hash (r_name r)) (csReplacement T)) (csMap T) (pitExpiryQueue T)) (spec_use r' l).
Proof.
  intros HR Hr Hrn Hc Hi Hx Hne. pose proof HR as [R1 R2 R3 R4 R5 R6 R7 R8 R9].
  destruct (repr_element T l r HR Hr) as (id & Hin & Hst). destruct (R5 _ _ Hin) as [Hloc Hlt].
  unfold AfterRefresh. rewrite Hloc. cbn [queue locations next_elem]. set (h := Name_Hash (r_name r)) in *.
  set (T' := mkPitCs _ _ _ _ _ _ _ _ _ _ _).
  assert (Hother : forall el x, stored T el x -> r_name x <> r_name r -> stored T' el x).
  { intros el x (E & Hu & c' & i' & Hc' & Ha' & Hi' & Hx') Hn. split_and!; [done..|]. exists c', i'. split_and!; try done.
    cbn. rewrite Hne; [done|]. intros ->. destruct (repr_record_at T l r HR Hr) as (c2 & i2 & _ & Hc2 & _ & Hx2 & Hu2).
    fold h in Hc2. assert (c2 = c) by congruence. subst c2. rewrite Hx' in Hx2. injection Hx2 as E1 _ _.
    apply Hn, Name_Hash_inj; congruence. }
  assert (Hsame : forall a b, a ∈ queue (csReplacement T) -> stored T a b -> a.1 <> id <-> r_name b <> r_name r').
  { intros [id' h'] b Ha Hs. cbn. rewrite Hrn. pose proof Hs as (E & Hu & _). cbn in E. split; intros Hn Hb; apply Hn.
    - destruct (R5 _ _ Ha) as [Hl' _]. rewrite E, Hb in Hl'. fold h in Hl'. congruence.
    - subst id'. pose proof (ids_inj _ _ _ _ R4 Ha Hin) as Eh. apply Name_Hash_inj; [done|apply Hst|fold h; congruence]. }
  assert (Hqin : forall id' h', (id', h') ∈ list_Remove id (queue (csReplacement T)) <->
                   (id', h') ∈ queue (csReplacement T) /\ id' <> id).
  { intros. unfold list_Remove. rewrite list_elem_of_filter. cbn. tauto. }
  split.
  - done.
  - apply Forall2_app; [|apply Forall2_cons; split; [|done]].
    + unfold without, list_Remove.
      pose proof (filter_Forall2 (fun el : nat * Z => el.1 <> id) (fun x => r_name x <> r_name r') (stored T) _ _ R2 Hsame) as HF.
      cbn [queue csReplacement T']. apply (Forall2_impl (fun a b => stored T a b /\ r_name b <> r_name r)).
      * apply Forall2_same_length_lookup. split; [by eapply Forall2_length|]. intros k a b Ha Hb. split.
        -- by eapply Forall2_lookup_lr.
        -- apply list_elem_of_lookup_2, list_elem_of_filter in Hb as [Hb _]. congruence.
      * intros a b [Hs Hn]. by apply Hother.
    + split_and!; cbn; [by rewrite Hrn|rewrite Hrn; apply Hst|]. exists c, i. rewrite Hrn. split_and!; try done.
      destruct (repr_record_at T l r HR Hr) as (c2 & i2 & Ha2 & Hc2 & _). fold h in Hc2. by assert (c2 = c) by congruence; subst.
  - unfold spec_use, without. rewrite fmap_app. cbn. apply NoDup_app. split_and!; [| |apply NoDup_singleton].
    + clear -R3. induction l as [|x l IH]; [apply NoDup_nil_2|]. cbn in R3. apply NoDup_cons in R3 as [Hx R3].
      rewrite filter_cons. case_decide; [|by apply IH]. cbn. apply NoDup_cons. split; [|by apply IH].
      intros (y & Hy & Hin)%list_elem_of_fmap. apply Hx. rewrite Hy. apply list_elem_of_fmap_2.
      by apply list_elem_of_filter in Hin as [_ ?].
    + intros x (y & -> & [Hy _]%list_elem_of_filter)%list_elem_of_fmap Ey%list_elem_of_singleton. by apply Hy.
  - cbn. rewrite fmap_app. apply NoDup_app. split_and!; [| |apply NoDup_singleton].
    + unfold list_Remove. clear -R4. induction (queue (csReplacement T)) as [|x q IH]; [apply NoDup_nil_2|].
      cbn in R4. apply NoDup_cons in R4 as [Hx R4]. rewrite filter_cons. case_decide; [|by apply IH]. cbn.
      apply NoDup_cons. split; [|by apply IH]. intros (y & Hy & Hin)%list_elem_of_fmap. apply Hx. rewrite Hy.
      apply list_elem_of_fmap_2. by apply list_elem_of_filter in Hin as [_ ?].
    + intros x ([id' h'] & -> & Hy)%list_elem_of_fmap. apply Hqin in Hy as [Hy _]. cbn.
      intros ->%list_elem_of_singleton. destruct (R5 _ _ Hy). lia.
  - intros id' h' Hin'. cbn in Hin'. apply elem_of_app in Hin' as [Hin'|Hin'].
    + apply Hqin in Hin' as [Hin' Hid]. destruct (R5 _ _ Hin') as [Hl' Hlt']. cbn. split; [|lia].
      rewrite lookup_insert_ne; [done|]. intros <-. congruence.
    + apply list_elem_of_singleton in Hin'. injection Hin' as -> ->. cbn. rewrite lookup_insert_eq. split; [done|lia].
  - intros h' c' Hc'. cbn in *. rewrite fmap_app, elem_of_app. destruct (decide (h' = h)) as [->|Hh]; [right; by left|left].
    apply R6 in Hc' as ([id' h''] & -> & Hin')%list_elem_of_fmap. apply list_elem_of_fmap. exists (id', h''). split; [done|].
    apply Hqin. split; [done|]. intros ->. apply Hh. cbn. by eapply ids_inj.
  - intros n c'. cbn. apply R7.
  - cbn. rewrite R8. unfold spec_use. rewrite length_app. cbn. f_equal.
    rewrite <- (Forall2_length _ _ _ R2).
    pose proof (filter_Forall2 (fun el : nat * Z => el.1 <> id) (fun x => r_name x <> r_name r') (stored T) _ _ R2 Hsame) as HF.
    apply Forall2_length in HF. unfold without. rewrite <- HF. clear -Hin R4.
    induction (queue (csReplacement T)) as [|[x y] q IH]; [by apply elem_of_nil in Hin|].
    cbn in R4. apply NoDup_cons in R4 as [Hx R4]. rewrite filter_cons. cbn [fst]. case_decide as Hd.
    + cbn. rewrite IH; [done|done|]. apply elem_of_cons in Hin as [[= -> ->]|?]; [done|done].
    + subst x. cbn. rewrite filter_all; [lia|]. apply Forall_forall. intros [x' y'] Hx' Ex.
      cbn in Ex. subst x'. apply Hx. apply list_elem_of_fmap. by exists (id, y').
  - intros c' x Hc'. cbn in *. destruct (decide (c' = c)) as [->|Hcc].
    + destruct (repr_record_at T l r HR Hr) as (c2 & i2 & _ & Hc2 & _ & Hx2 & _). fold h in Hc2.
      assert (c2 = c) by congruence. subst c2. by eapply R9.
    + rewrite Hne in Hc' by done. by eapply R9.
Qed.

(** *** A new record *)

Definition appended (T : PitCsTree) (tr : arena node_data) (node : nat) (r : cs_record) : PitCsTree :=
  let index := Name_Hash (r_name r) in
  let c := next_cs T in
  mkPitCs (upd_data tr node (fun d => mkNodeData (pitEntries d) (Some c))) (pits T) (next_pit T)
    (<[c := mkCsEntry index (r_stale r) (r_data r) node]> (css T)) (S c) (nPitEntries T) (pitTokenMap T)
    (nCsEntries T + 1) (AfterInsert index (csReplacement T)) (<[index := c]> (csMap T)) (pitExpiryQueue T).

Lemma appended_pit T tr node r : keeps (tree T) tr -> tree_ok tr -> node_of tr (r_name r) = Some node ->
  pit_same T (appended T tr node r).
Proof.
  intros [K1 K2] Htr Hw.
  destruct (upd_data_ok tr (r_name r) node (fun d => mkNodeData (pitEntries d) (Some (next_cs T))) Htr Hw) as (Ho & HW & HC).
  split; try done.
  - intros n. unfold entries_at. cbn [tree appended]. rewrite HC. case_decide; [subst; cbn|]; by rewrite K1.
  - intros n i Hi Hne. cbn [tree appended]. rewrite HW. apply K2; [done|]. intros E. apply Hne. unfold entries_at. by rewrite E.
Qed.

Lemma appended_repr T l tr node r : cs_repr T l -> universe (r_name r) -> r_name r ∉ r_name <$> l ->
  keeps (tree T) tr -> tree_ok tr -> node_of tr (r_name r) = Some node ->
  cs_repr (appended T tr node r) (l ++ [r]).
Proof.
  intros HR Hu Hnew [K1 K2] Htr Hw. pose proof HR as [R1 R2 R3 R4 R5 R6 R7 R8 R9].
  destruct (upd_data_ok tr (r_name r) node (fun d => mkNodeData (pitEntries d) (Some (next_cs T))) Htr Hw) as (Ho & HW & HC).
  set (T' := appended T tr node r). set (h := Name_Hash (r_name r)).
  assert (Hmap : csMap T !! h = None).
  { destruct (csMap T !! h) eqn:E; [|done]. exfalso. apply Hnew, (repr_mem T l _ HR Hu). by eexists. }
  assert (Hat : forall n, cs_at T' n = if decide (n = r_name r) then Some (next_cs T) else cs_at T n).
  { intros n. unfold cs_at. cbn [tree T' appended]. rewrite HC. case_decide; [done|]. by rewrite K1. }
  assert (Hq : forall id h', (id, h') ∈ queue (csReplacement T) -> h' <> h).
  { intros id h' Hin ->. assert (Hd : h ∈ (queue (csReplacement T)).*2) by (apply list_elem_of_fmap; by exists (id, h)).
    apply list_elem_of_fmap in Hd as ([id' h'] & Eh & Hin'). cbn in Eh. subst h'.
    destruct (list_elem_of_lookup_1 _ _ Hin') as [k Hk]. destruct (Forall2_lookup_l _ _ _ _ _ R2 Hk) as (x & _ & E & _ & c & i & Hc & _).
    cbn in *. congruence. }
  split.
  - done.
  - apply Forall2_app; [|apply Forall2_cons; split; [|done]].
    + eapply Forall2_impl; [done|]. intros el x (E & Hux & c & i & Hc & Ha & Hi & Hx). split_and!; [done..|]. exists c, i.
      assert (Hn : r_name x <> r_name r) by (intros En; rewrite E, En in Hc; fold h in Hc; congruence).
      split_and!.
      * cbn. rewrite lookup_insert_ne; [done|]. intros Eh. fold h in Eh. rewrite <- Eh in Hc. congruence.
      * by rewrite Hat, decide_False.
      * cbn [tree T' appended]. rewrite HW. apply K2; [done|]. intros E0. unfold cs_at in Ha. by rewrite E0 in Ha.
      * cbn. rewrite lookup_insert_ne; [done|]. intros <-. pose proof (R9 _ _ Hx). lia.
    + split_and!; [done..|]. exists (next_cs T), node. split_and!; cbn; try (by rewrite lookup_insert_eq).
      * by rewrite Hat, decide_True.
      * by rewrite HW.
  - rewrite fmap_app. apply NoDup_app. split_and!; [done| |apply NoDup_singleton].
    intros n Hn ->%list_elem_of_singleton. done.
  - cbn. rewrite fmap_app. apply NoDup_app. split_and!; [done| |apply NoDup_singleton].
    intros x ([id' h'] & -> & Hy)%list_elem_of_fmap. cbn. intros ->%list_elem_of_singleton. destruct (R5 _ _ Hy). lia.
  - intros id' h' Hin'. cbn in *. apply elem_of_app in Hin' as [Hin'|Hin'].
    + destruct (R5 _ _ Hin') as [Hl' Hlt']. split; [|lia]. rewrite lookup_insert_ne; [done|].
      intros <-. by apply (Hq _ _ Hin').
    + apply list_elem_of_singleton in Hin'. injection Hin' as -> ->. rewrite lookup_insert_eq. split; [done|lia].
  - intros h' c' Hc'. cbn in *. rewrite fmap_app, elem_of_app. apply lookup_insert_Some in Hc' as [[<- _]|[_ Hc']];
      [right; by left|left; by eapply R6].
  - intros n c'. rewrite Hat. case_decide as Hn.
    + intros [= <-]. subst n. split; [done|]. cbn. by rewrite lookup_insert_eq.
    + intros Ha. destruct (R7 n c' Ha) as [Hun Hc']. split; [done|]. cbn. rewrite lookup_insert_ne; [done|].
      intros E. fold h in E. apply Hn. symmetry. by apply Name_Hash_inj.
  - cbn. rewrite R8, length_app. cbn. lia.
  - intros c' x Hx. cbn in *. apply lookup_insert_Some in Hx as [[<- _]|[_ Hx]]; [lia|]. pose proof (R9 _ _ Hx). lia.
Qed.

(** *** Eviction *)

Definition evicted (T : PitCsTree) (id : nat) (h : Z) : PitCsTree :=
  let T1 := eraseCsDataFromReplacementStrategy h T in
  let l := csReplacement T1 in
  set_lru (mkLRU (list_Remove id (queue l)) (locations l) (next_elem l)) T1.

Lemma evicted_repr T r l id h q : cs_repr T (r :: l) -> queue (csReplacement T) = (id, h) :: q ->
  cs_repr (evicted T id h) l /\ pit_same T (evicted T id h) /\ queue (csReplacement (evicted T id h)) = q.
Proof.
  intros HR Eq. pose proof HR as [R1 R2 R3 R4 R5 R6 R7 R8 R9]. rewrite Eq in R2.
  apply Forall2_cons in R2 as [(E & Hu & c & i & Hc & Ha & Hi & Hx) R2]. cbn in E, Hc, Hx.
  unfold evicted, eraseCsDataFromReplacementStrategy. rewrite Hc, Hx. cbn [cs_node csReplacement set_lru].
  set (T' := set_lru _ _).
  destruct (upd_data_ok (tree T) (r_name r) i (fun d => mkNodeData (pitEntries d) None) R1 Hi) as (Ho & HW & HC).
  assert (Hat : forall n, cs_at T' n = if decide (n = r_name r) then None else cs_at T n).
  { intros n. unfold cs_at. cbn [tree T' set_lru]. rewrite HC. by case_decide. }
  rewrite Eq in R4. cbn in R4. apply NoDup_cons in R4 as [Hid R4]. cbn in R3. apply NoDup_cons in R3 as [Hrn R3].
  assert (Hq : queue (csReplacement T') = q).
  { cbn. rewrite Eq. unfold list_Remove. rewrite filter_cons_False by (cbn; tauto). apply filter_all.
    apply Forall_forall. intros [id' h'] Hin Ei. cbn in Ei. subst id'. apply Hid. apply list_elem_of_fmap. by exists (id, h'). }
  split_and!; [|split; try done|done].
  2:{ intros n. unfold entries_at. cbn [tree T' set_lru]. rewrite HC. by case_decide; subst. }
  2:{ intros n j Hj _. cbn [tree T' set_lru]. by rewrite HW. }
  split.
  - done.
  - rewrite Hq. apply Forall2_same_length_lookup. split; [by eapply Forall2_length|]. intros k [id' h'] x Hel Hxk.
    destruct (Forall2_lookup_lr _ _ _ _ _ _ R2 Hel Hxk) as (E' & Hu' & c' & i' & Hc' & Ha' & Hi' & Hx').
    assert (Hn : r_name x <> r_name r).
    { intros En. apply Hrn. rewrite <- En. apply list_elem_of_fmap_2. by eapply list_elem_of_lookup_2. }
    split_and!; [done..|]. exists c', i'. split_and!.
    + cbn in *. rewrite lookup_delete_ne; [done|]. intros E2. apply Hn. symmetry. apply Name_Hash_inj; congruence.
    + by rewrite Hat, decide_False.
    + cbn [tree T' set_lru]. by rewrite HW.
    + done.
  - done.
  - by rewrite Hq.
  - intros id' h' Hin. rewrite Hq in Hin. cbn. apply R5. rewrite Eq. by right.
  - intros h' c' Hc'. rewrite Hq. cbn in Hc'. apply lookup_delete_Some in Hc' as [Hne Hc'].
    apply R6 in Hc'. rewrite Eq in Hc'. cbn in Hc'. apply elem_of_cons in Hc' as [->|?]; [done|done].
  - intros n c'. rewrite Hat. case_decide as Hn; [done|]. intros Ha'. destruct (R7 n c' Ha') as [Hun Hc'].
    split; [done|]. cbn. rewrite lookup_delete_ne; [done|]. intros E2. apply Hn. symmetry. apply Name_Hash_inj; congruence.
  - cbn. rewrite R8. cbn. lia.
  - intros c' x Hc'. cbn in *. by eapply R9.
Qed.

Lemma EvictEntries_spec cap fuel : forall T l, cs_repr T l -> length l <= fuel ->
  exists T', EvictEntries fuel (Z.of_nat cap) T = Ok T' /\ cs_repr T' (drop (length l - cap) l) /\ pit_same T T'.
Proof.
  induction fuel as [|fuel IH]; intros T l HR Hf.
  - exists T. cbn [EvictEntries]. pose proof (Forall2_length _ _ _ (repr_stored T l HR)) as Hl.
    destruct (Z.ltb_spec (Z.of_nat cap) (Z.of_nat (length (queue (csReplacement T))))); [lia|].
    split_and!; [done| |apply pit_same_refl]. by replace (length l - cap) with 0 by lia.
  - cbn [EvictEntries]. pose proof (Forall2_length _ _ _ (repr_stored T l HR)) as Hl.
    destruct (Z.ltb_spec (Z.of_nat cap) (Z.of_nat (length (queue (csReplacement T))))) as [Hlt|Hge].
    + destruct (queue (csReplacement T)) as [|[id h] q] eqn:Eq; [cbn in Hlt; lia|].
      destruct l as [|r l]; [cbn in Hl; lia|]. destruct (evicted_repr T r l id h q HR Eq) as (HR' & HP & Hq).
      unfold evicted in *. cbn [length] in *. destruct (IH _ l HR' ltac:(lia)) as (T' & HE & HR2 & HP2).
      exists T'. rewrite HE. split_and!; [done| |by eapply pit_same_trans].
      by replace (S (length l) - cap) with (S (length l - cap)) by lia.
    + exists T. split_and!; [done| |apply pit_same_refl]. by replace (length l - cap) with 0 by lia.
Qed.

Lemma EvictEntries_negative cap fuel : forall T l, cs_repr T l -> (cap < 0)%Z -> EvictEntries fuel cap T = Panic.
Proof.
  induction fuel as [|fuel IH]; intros T l HR Hc; cbn [EvictEntries];
    (destruct (Z.ltb_spec cap (Z.of_nat (length (queue (csReplacement T))))) as [_|]; [|lia]); [done|].
  destruct (queue (csReplacement T)) as [|[id h] q] eqn:Eq; [done|].
  pose proof (Forall2_length _ _ _ (repr_stored T l HR)) as Hl. rewrite Eq in Hl.
  destruct l as [|r l]; [done|]. destruct (evicted_repr T r l id h q HR Eq) as (HR' & _ & _).
  by apply (IH _ l).
Qed.

Lemma erase_other h T : pits (eraseCsDataFromReplacementStrategy h T) = pits T /\
  pitExpiryQueue (eraseCsDataFromReplacementStrategy h T) = pitExpiryQueue T.
Proof using Type. unfold eraseCsDataFromReplacementStrategy. by destruct (csMap T !! h). Qed.

Lemma EvictEntries_other cap fuel : forall T T', EvictEntries fuel cap T = Ok T' ->
  pits T' = pits T /\ pitExpiryQueue T' = pitExpiryQueue T.
Proof using Type.
  induction fuel as [|fuel IH]; intros T T'; cbn [EvictEntries]; destruct (_ <? _)%Z; try by intros [= <-].
  destruct (queue (csReplacement T)) as [|[id h] q]; [done|]. intros HE. apply IH in HE as [-> ->].
  cbn. apply erase_other.
Qed.

(** *** Insertion *)

Lemma InsertData_spec cap pp d now T l : cs_repr T l -> universe (DataNameV d) ->
  exists T', InsertData (Z.of_nat cap) pp d now T = Ok T' /\ cs_repr T' (spec_insert cap (record_of pp d now) l) /\
    pit_same T T' /\ pits T' = pits T /\ pitExpiryQueue T' = pitExpiryQueue T.
Proof.
  intros HR Hu. set (r := record_of pp d now). unfold InsertData, spec_insert.
  pose proof (repr_mem T l (DataNameV d) HR Hu) as Hmem. change (r_name r) with (DataNameV d).
  destruct (csMap T !! Name_Hash (DataNameV d)) as [c|] eqn:Ec.
  - rewrite decide_True by (apply Hmem; by eexists).
    pose proof (proj2 Hmem ltac:(by eexists)) as (r0 & Hn & Hr0)%list_elem_of_fmap.
    destruct (repr_record_at T l r0 HR Hr0) as (c' & i & Ha & Hc & Hi & Hx & _). rewrite <- Hn in *.
    assert (c' = c) by congruence. subst c'.
    eexists. split; [done|]. split_and!; [|by split|done|done].
    change (without (DataNameV d) l ++ [r]) with (spec_use r l).
    rewrite Hn. apply (touch_repr T l r0 r c i); rewrite <- ?Hn; try done.
    + by rewrite lookup_alter_eq, Hx.
    + intros c' Hc'. by rewrite lookup_alter_ne.
  - rewrite decide_False by (intros [? ?]%Hmem; congruence).
    pose proof (fillTreeToPrefixEnc_ok (tree T) (DataNameV d) (repr_tree T l HR) Hu) as Hf.
    destruct (fillTreeToPrefixEnc (tree T) (DataNameV d)) as [tr node]. destruct Hf as (Htr & Hw & Hk & _).
    assert (Hnew : DataNameV d ∉ r_name <$> l) by (intros [? ?]%Hmem; congruence).
    pose proof (appended_repr T l tr node r HR Hu Hnew Hk Htr Hw) as HR1.
    pose proof (appended_pit T tr node r Hk Htr Hw) as HP1.
    change (mkPitCs _ _ _ _ _ _ _ _ _ _ _) with (appended T tr node r).
    destruct (EvictEntries_spec cap (length (queue (csReplacement (appended T tr node r)))) _ _ HR1) as (T' & HE & HR2 & HP2).
    { by rewrite <- (Forall2_length _ _ _ (repr_stored _ _ HR1)). }
    exists T'. destruct (EvictEntries_other _ _ _ _ HE) as [E1 E2].
    split_and!; [done| |by eapply pit_same_trans|by rewrite E1|by rewrite E2].
    rewrite length_app in HR2. cbn [length] in HR2. by replace (S (length l) - cap) with (length l + 1 - cap) by lia.
Qed.

(** With a negative capacity the insertion of a new name ends in a nil
    dereference. *)
Lemma InsertData_negative cap pp d now T l : cs_repr T l -> universe (DataNameV d) -> (cap < 0)%Z ->
  DataNameV d ∉ r_name <$> l -> InsertData cap pp d now T = Panic.
Proof.
  intros HR Hu Hc Hnew. unfold InsertData. pose proof (repr_mem T l (DataNameV d) HR Hu) as Hmem.
  destruct (csMap T !! Name_Hash (DataNameV d)) as [c|] eqn:Ec; [exfalso; apply Hnew, Hmem; by eexists|].
  pose proof (fillTreeToPrefixEnc_ok (tree T) (DataNameV d) (repr_tree T l HR) Hu) as Hf.
  destruct (fillTreeToPrefixEnc (tree T) (DataNameV d)) as [tr node]. destruct Hf as (Htr & Hw & Hk & _).
  pose proof (appended_repr T l tr node (record_of pp d now) HR Hu Hnew Hk Htr Hw) as HR1.
  change (mkPitCs _ _ _ _ _ _ _ _ _ _ _) with (appended T tr node (record_of pp d now)).
  by apply (EvictEntries_negative cap _ _ _ HR1).
Qed.

(** *** Lookup *)

Lemma acceptable_spec (m : gmap nat nameTreeCsEntry) c h i (int : Interest) now r :
  m !! c = Some (mkCsEntry h (r_stale r) (r_data r) i) ->
  acceptable m (MustBeFreshV int) now c = bool_decide (usable int now r).
Proof using Type.
  intros Hx. unfold acceptable. rewrite Hx. cbn. apply eq_true_iff_eq.
  rewrite bool_decide_eq_true, orb_true_iff, negb_true_iff, Z.ltb_lt. done.
Qed.

(** The entry a lookup returned stands for the record. *)
Definition returns (T : PitCsTree) (c : nat) (r : cs_record) : Prop :=
  exists i, css T !! c = Some (mkCsEntry (Name_Hash (r_name r)) (r_stale r) (r_data r) i).

Lemma cs_find_exact_spec order i now T l : cs_repr T l -> universe (NameV i) -> CanBePrefixV i = false ->
  let '(T', res) := FindMatchingDataFromCS order i now T in
  pit_same T T' /\ pits T' = pits T /\ pitExpiryQueue T' = pitExpiryQueue T /\
  match res with
  | Some c => exists r, r ∈ l /\ r_name r = NameV i /\ usable i now r /\ returns T' c r /\ cs_repr T' (spec_use r l)
  | None => T' = T /\ forall r, r ∈ l -> r_name r = NameV i -> ~ usable i now r
  end.
Proof.
  intros HR Hu Hcp. unfold FindMatchingDataFromCS. rewrite findExactMatchEntryEnc_spec by (done || by eapply repr_tree).
  rewrite Hcp. cbn [negb]. destruct (node_of (tree T) (NameV i)) as [node|] eqn:Ew.
  - rewrite (data_at_node _ _ _ (repr_tree T l HR) Ew). change (csEntry (cont (tree T) (NameV i))) with (cs_at T (NameV i)).
    destruct (cs_at T (NameV i)) as [c|] eqn:Ea.
    + destruct (repr_at_record T l _ c HR Ea) as (r & j & Hr & Hn & Hj & Hx).
      rewrite (acceptable_spec _ _ _ _ i now r Hx). rewrite Hx. destruct (bool_decide (usable i now r)) eqn:Eus.
      * apply bool_decide_eq_true in Eus. split_and!; [by split|done|done|]. exists r. split_and!; try done.
        { exists j. cbn. by rewrite Hn. }
        cbn [cs_index]. rewrite <- Hn in *. destruct (repr_record_at T l r HR Hr) as (c2 & i2 & Ha2 & Hc2 & Hi2 & Hx2 & _).
        assert (c2 = c) by congruence. subst c2. by apply (touch_repr T l r r c i2).
      * apply bool_decide_eq_false in Eus. split_and!; [by split|done..|]. intros r' Hr' Hn' Hus.
        apply Eus. destruct (repr_record_at T l r' HR Hr') as (c2 & i2 & Ha2 & Hc2 & Hi2 & Hx2 & _).
        rewrite Hn' in *. assert (c2 = c) by congruence. subst c2. rewrite Hx in Hx2. injection Hx2 as E1 E2 _.
        unfold usable in *. by rewrite E1.
    + split_and!; [by split|done..|]. intros r' Hr' Hn' _.
      destruct (repr_record_at T l r' HR Hr') as (c2 & i2 & Ha2 & _). rewrite Hn' in Ha2. congruence.
  - split_and!; [by split|done..|]. intros r' Hr' Hn' _.
    destruct (repr_record_at T l r' HR Hr') as (c2 & i2 & _ & _ & Hi2 & _). rewrite Hn' in Hi2. congruence.
Qed.

(** The search below a node finds an acceptable record if there is one. *)
Definition below (i : Interest) (now : Z) (n : Name) (l : list cs_record) (r : cs_record) : Prop :=
  r ∈ l /\ n `prefix_of` r_name r /\ usable i now r.

Lemma first_some_spec {A B} (f : A -> option B) l :
  match first_some f l with
  | Some y => exists x, x ∈ l /\ f x = Some y
  | None => forall x, x ∈ l -> f x = None
  end.
Proof using Type.
  induction l as [|x l IH]; cbn; [intros x Hx; by apply elem_of_nil in Hx|].
  destruct (f x) as [y|] eqn:E; [exists x; split; [by left|done]|].
  change ((fix loop (l : list A) : option B := match l with
    | [] => None | x :: l' => match f x with Some y => Some y | None => loop l' end end) l) with (first_some f l).
  destruct (first_some f l) as [y|].
  - destruct IH as (x' & Hx' & Hf). exists x'. split; [by right|done].
  - intros x' [->|Hx']%elem_of_cons; [done|by apply IH].
Qed.

(** Names below a node are as many levels as there are nodes. *)
Lemma node_depth_bound (T : arena node_data) n i : tree_ok T -> node_of T n = Some i -> length n < size (nodes T).
Proof.
  intros Hok Hw. pose proof (ok_struct T Hok) as Hs.
  set (path := omap (fun k => node_of T (take k n)) (seq 0 (S (length n)))).
  assert (Hp : forall k, is_Some (node_of T (take k n))) by (intros k; eapply walk_prefix; [done|apply prefix_take]).
  assert (Hlen : length path = S (length n)).
  { unfold path. rewrite <- (length_seq (S (length n)) 0) at 2. generalize (seq 0 (S (length n))) as ks.
    induction ks as [|k ks IH]; [done|]. cbn. destruct (Hp k) as [x ->]. cbn. by rewrite IH. }
  enough (length path <= size (nodes T)) by lia.
  apply (NoDup_reached_length used T path Hs).
  - unfold path. assert (Hks : NoDup (seq 0 (S (length n)))) by apply NoDup_seq.
    assert (Hb : forall k, k ∈ seq 0 (S (length n)) -> k <= length n) by (intros k ?%elem_of_seq; lia).
    revert Hks Hb. generalize (seq 0 (S (length n))) as ks. induction ks as [|k ks IH]; intros Hks Hb; [apply NoDup_nil_2|].
    apply NoDup_cons in Hks as [Hk Hks]. cbn. destruct (node_of T (take k n)) as [x|] eqn:Ex.
    + apply NoDup_cons. split; [|apply IH; [done|]; intros; apply Hb; by right].
      intros (k' & Hk' & Ex')%list_elem_of_omap. pose proof (node_inj T _ _ _ Hok Ex Ex') as E.
      apply (f_equal length) in E. rewrite !length_take in E.
      pose proof (Hb k ltac:(by left)). pose proof (Hb k' ltac:(by right)). assert (k = k') by lia. by subst.
    + apply IH; [done|]. intros; apply Hb; by right.
  - intros x (k & _ & Hk)%list_elem_of_omap. by exists (take k n).
Qed.

Lemma findMatchingDataCSPrefix_spec order int now T l :
  cs_repr T l -> (forall i ks, order i ks ≡ₚ ks) -> forall fuel n i,
  node_of (tree T) n = Some i -> length (NameV int) <= length n -> size (nodes (tree T)) <= length n + fuel ->
  match findMatchingDataCSPrefix order fuel T int now i with
  | Some c => exists r, below int now n l r /\ returns T c r
  | None => forall r, ~ below int now n l r
  end.
Proof.
  intros HR Hord fuel. pose proof (repr_tree T l HR) as Hok. pose proof (ok_struct _ Hok) as Hs.
  induction fuel as [|fuel IH]; intros n i Hw Hlen Hf.
  { pose proof (node_depth_bound _ n i Hok Hw). lia. }
  cbn [findMatchingDataCSPrefix]. destruct (walk_node used _ n i Hs Hw) as (f & Hi & Hd). rewrite Hi.
  assert (Hc : csEntry (data f) = cs_at T n).
  { pose proof (cont_node _ _ _ Hok Hw) as E. unfold data_of in E. rewrite Hi in E. cbn in E. unfold cs_at. congruence. }
  rewrite Hc. set (here := match cs_at T n with Some c => _ | None => None end).
  assert (Hhere : match here with
    | Some c => exists r, below int now n l r /\ returns T c r
    | None => forall r, r ∈ l -> r_name r = n -> ~ usable int now r end).
  { unfold here. destruct (cs_at T n) as [c|] eqn:Ea.
    - destruct (repr_at_record T l n c HR Ea) as (r & j & Hr & Hn & Hj & Hx).
      rewrite (acceptable_spec _ _ _ _ int now r Hx). destruct (bool_decide _) eqn:Eus.
      + apply bool_decide_eq_true in Eus. exists r. split; [split_and!; [done|by rewrite Hn|done]|]. exists j. by rewrite Hn.
      + apply bool_decide_eq_false in Eus. intros r' Hr' Hn' Hus. apply Eus.
        destruct (repr_record_at T l r' HR Hr') as (c2 & i2 & Ha2 & _ & _ & Hx2 & _). rewrite Hn' in *.
        assert (c2 = c) by congruence. subst c2. rewrite Hx in Hx2. injection Hx2 as E1 E2 _. unfold usable in *. by rewrite E1.
    - intros r' Hr' Hn' _. destruct (repr_record_at T l r' HR Hr') as (c2 & i2 & Ha2 & _). rewrite Hn' in Ha2. congruence. }
  destruct here as [c|]; [done|]. rewrite Hd. destruct (Nat.leb_spec (length (NameV int)) (length n)); [|lia].
  pose proof (first_some_spec (findMatchingDataCSPrefix order fuel T int now) (order i (children f))) as Hfs.
  assert (Hch : forall ch, ch ∈ order i (children f) -> exists c, node_of (tree T) (n ++ [c]) = Some ch).
  { intros ch. rewrite Hord. intros Hin. exists (comp_of (tree T) ch). rewrite walk_snoc, Hw. cbn. by eapply kids_child. }
  destruct (first_some _ _) as [c|].
  - destruct Hfs as (ch & Hin & Hres). destruct (Hch ch Hin) as [x Hx].
    specialize (IH (n ++ [x]) ch Hx). rewrite length_app in IH. cbn [length] in IH. specialize (IH ltac:(lia) ltac:(lia)).
    rewrite Hres in IH. destruct IH as (r & (Hr & Hpre & Hus) & Hret). exists r. split; [|done]. split_and!; [done| |done].
    etrans; [|done]. by apply prefix_app_r.
  - intros r (Hr & Hpre & Hus). destruct Hpre as [[|x rest] Hn].
    + rewrite app_nil_r in Hn. by apply (Hhere r Hr Hn).
    + destruct (repr_record_at T l r HR Hr) as (c2 & i2 & _ & _ & Hi2 & _). rewrite Hn in Hi2.
      replace (n ++ x :: rest) with ((n ++ [x]) ++ rest) in Hi2 by (by rewrite <- app_assoc).
      rewrite walk_app in Hi2. apply bind_Some in Hi2 as (ch & Hch2 & _). pose proof Hch2 as Hk.
      rewrite walk_snoc, Hw in Hk. cbn in Hk. apply (kids_spec used) in Hk as (f' & chn & Hf' & Hin & _); [|done].
      assert (f' = f) by congruence. subst f'. specialize (Hfs ch). rewrite Hord in Hfs. specialize (Hfs Hin).
      specialize (IH (n ++ [x]) ch Hch2). rewrite length_app in IH. cbn [length] in IH.
      specialize (IH ltac:(lia) ltac:(lia)). rewrite Hfs in IH. apply (IH r). split_and!; [done| |done].
      rewrite Hn. exists rest. by rewrite <- app_assoc.
Qed.

Lemma find_prefix_spec order int now T l : cs_repr T l -> (forall i ks, order i ks ≡ₚ ks) ->
  universe (NameV int) -> CanBePrefixV int = true ->
  let '(T', res) := FindMatchingDataFromCS order int now T in
  T' = T /\
  match res with
  | Some c => exists r, below int now (NameV int) l r /\ returns T c r
  | None => forall r, ~ below int now (NameV int) l r
  end.
Proof.
  intros HR Hord Hu Hcp. unfold FindMatchingDataFromCS. rewrite findExactMatchEntryEnc_spec by (done || by eapply repr_tree).
  rewrite Hcp. cbn [negb]. destruct (node_of (tree T) (NameV int)) as [node|] eqn:Ew.
  - split; [done|]. apply findMatchingDataCSPrefix_spec; [done|done|done|lia|lia].
  - split; [done|]. intros r (Hr & [rest Hpre] & _).
    destruct (repr_record_at T l r HR Hr) as (c2 & i2 & _ & _ & Hi2 & _). rewrite Hpre, walk_app, Ew in Hi2. done.
Qed.

Lemma new_cs_repr : cs_repr NewPitCS [].
Proof.
  destruct new_tree_ok as [Ht Hc]. apply Build_cs_repr; try done; try apply NoDup_nil_2.
  - intros id h Hin. by apply elem_of_nil in Hin.
  - intros n c Ha. unfold cs_at in Ha. by rewrite Hc in Ha.
Qed.

End theory.
