(* ===== verification/PitCsRun.v ===== *)
(** * The PIT-CS at work

    The states a table goes through when the forwarding pipelines call it, and
    the properties of the PIT and of the Content Store in those states. *)
From S2P Require Import Prelude.
From S2P Require Import Enc.
From S2P Require Import NameTree.
From S2P Require Import Arena.
From S2P Require PQueue.
From S2P Require Import Packet.
From S2P Require Import PitCs.
From S2P Require Import PitTree.
From S2P Require Import Pit.
From S2P Require Import ContentStore.

(** ** Operations *)

(** The calls of the pipelines and strategies, with their readings of the
    clock, the token draws and the iteration order of [children]. *)
Inductive op :=
| OpInsertInterest (i : Interest) (nonce : Z) (hint : goname) (inFace : Z) (draws : list Z)
| OpRemoveInterest (e : nat)
| OpInsertInRecord (e pp : nat) (nonce face : Z) (tok : list byte) (now : Z)
| OpInsertOutRecord (e pp : nat) (nonce face : Z) (now : Z)
| OpDeleteInRecord (e : nat) (face : Z)
| OpClearInRecords (e : nat)
| OpClearOutRecords (e : nat)
| OpSetSatisfied (e : nat) (b : bool)
| OpSetExpirationTimerToNow (e : nat) (now : Z)
| OpUpdateExpirationTimer (e : nat) (now : Z)
| OpUpdate (now : Z)
| OpInsertData (pp : nat) (d : Data) (now : Z)
| OpFindMatchingDataFromCS (i : Interest) (now : Z).

Definition source_order (i : nat) (ks : list nat) : list nat := ks.

Section run.
Context `{EncOps}.

(** One call; [None] while no token was drawn, or after a panic. *)
Definition exec (csCapacity : Z) (T : PitCsTree) (o : op) : option PitCsTree :=
  match o with
  | OpInsertInterest i nonce hint inFace draws => (fun r => r.1.1) <$> InsertInterest i nonce hint inFace draws T
  | OpRemoveInterest e => Some (RemoveInterest e T).1
  | OpInsertInRecord e pp nonce face tok now =>
      Some (upd_pit e (fun p => (InsertInRecord pp nonce face tok now p).1) T)
  | OpInsertOutRecord e pp nonce face now => Some (upd_pit e (InsertOutRecord pp nonce face now) T)
  | OpDeleteInRecord e face => Some (upd_pit e (fun p => with_inRecords (delete face (inRecords p)) p) T)
  | OpClearInRecords e => Some (upd_pit e ClearInRecords T)
  | OpClearOutRecords e => Some (upd_pit e ClearOutRecords T)
  | OpSetSatisfied e b => Some (upd_pit e (SetSatisfied b) T)
  | OpSetExpirationTimerToNow e now => Some (SetExpirationTimerToNow now e T)
  | OpUpdateExpirationTimer e now => Some (UpdateExpirationTimer now e T)
  | OpUpdate now => Some (Update (fun _ s => s) now T ()).1
  | OpInsertData pp d now =>
      match InsertData csCapacity pp d now T with Ok T' => Some T' | _ => None end
  | OpFindMatchingDataFromCS i now => Some (FindMatchingDataFromCS source_order i now T).1
  end.

Fixpoint run (csCapacity : Z) (T : PitCsTree) (os : list op) : option PitCsTree :=
  match os with
  | [] => Some T
  | o :: os' => exec csCapacity T o ≫= fun T' => run csCapacity T' os'
  end.

(** The Content Store's list after an operation. *)
Definition spec_exec (cap : nat) (l : list cs_record) (o : op) : list cs_record :=
  match o with
  | OpInsertData pp d now => spec_insert cap (record_of pp d now) l
  | OpFindMatchingDataFromCS i now =>
      if CanBePrefixV i then l
      else match list_find (fun r => r_name r = NameV i /\ usable i now r) l with
           | Some (_, r) => spec_use r l
           | None => l
           end
  | _ => l
  end.

Definition spec_run (cap : nat) (os : list op) : list cs_record := fold_left (spec_exec cap) os [].

End run.

Section theory.
Context `{EncLaws}.

(** The names in play have no hash collisions. *)
Definition op_ok (o : op) : Prop :=
  match o with
  | OpInsertInterest i _ _ _ _ => universe (NameV i)
  | OpInsertData _ d _ => universe (DataNameV d)
  | OpFindMatchingDataFromCS i _ => universe (NameV i)
  | _ => True
  end.

Record table_ok (T : PitCsTree) (l : list cs_record) : Prop := {
  table_pit : pit_ok T;
  table_cs : cs_repr T l;
  table_queue : queue_ok T }.

Lemma pit_step_ok T T' l : pit_same T T' -> cs_same T T' -> queue_ok T' -> table_ok T l -> table_ok T' l.
Proof. intros P C Q [Hp Hc Hq]. split; [by eapply pit_same_ok|by eapply cs_same_repr|done]. Qed.

Lemma upd_pit_ok T l e g : (forall p, static (g p) = static p) -> table_ok T l -> table_ok (upd_pit e g T) l.
Proof. intros Hg HT. destruct (upd_pit_same T e g Hg). eapply pit_step_ok; try done. apply HT. Qed.

Lemma timer_ok T l e g : (forall p, static (g p) = static p) -> table_ok T l ->
  table_ok (updatePitExpiry e (upd_pit e g T)) l.
Proof.
  intros Hg HT. pose proof (upd_pit_ok T l e g Hg HT) as HT1.
  destruct (updatePitExpiry_same (upd_pit e g T) e) as (P & C & Q). eapply pit_step_ok; try done. apply Q, HT1.
Qed.

Lemma InsertInterest_queue i nonce hint inFace draws T T' e dup : pit_ok T -> universe (NameV i) ->
  InsertInterest i nonce hint inFace draws T = Some (T', e, dup) -> pitExpiryQueue T' = pitExpiryQueue T.
Proof.
  intros Hok Hu. unfold InsertInterest. pose proof (find_or_create_spec T i hint draws Hok Hu) as Hf.
  destruct (find_or_create _ _ _ _) as [[T1 e1]|]; [|done]. destruct Hf as (_ & _ & _ & Hq & _).
  destruct (pits T1 !! e1); [destruct (duplicate_nonce _ _ _)|]; intros [= <- <- <-]; done.
Qed.

Lemma exec_ok cap T T' l o : table_ok T l -> op_ok o -> exec (Z.of_nat cap) T o = Some T' ->
  table_ok T' (spec_exec cap l o).
Proof.
  intros HT Ho. pose proof HT as [Hp Hc Hq]. destruct o; cbn [exec spec_exec op_ok] in *; intros E;
    try (injection E as <-); try (apply upd_pit_ok; [intros p; cbn|done]; try done;
      first [apply InsertInRecord_static|apply InsertOutRecord_static]);
    try (apply timer_ok; done).
  - destruct (InsertInterest _ _ _ _ _ _) as [[[T1 e] dup]|] eqn:EI; [|done]. injection E as <-.
    destruct (InsertInterest_ok _ _ _ _ _ _ _ _ _ Hp Ho EI). split; [done|by eapply cs_same_repr|].
    unfold queue_ok. by rewrite (InsertInterest_queue _ _ _ _ _ _ _ _ _ Hp Ho EI).
  - pose proof (RemoveInterest_spec T e Hp) as Hr. destruct (RemoveInterest e T) as [T1 b].
    destruct Hr as (? & ? & _ & _ & Eq & _). split; [done|by eapply cs_same_repr|]. unfold queue_ok. cbn. by rewrite Eq.
  - destruct (Update_ok (fun _ s => s) now T () Hp Hq) as (? & ? & ?). split; [done|by eapply cs_same_repr|done].
  - destruct (InsertData_spec cap pp d now T l Hc Ho) as (T1 & E1 & HR & HP & _ & EQ). rewrite E1 in E.
    injection E as <-. split; [by eapply pit_same_ok|done|]. unfold queue_ok. by rewrite EQ.
  - destruct (CanBePrefixV i) eqn:Ecp.
    + pose proof (find_prefix_spec source_order i now T l Hc ltac:(done) Ho Ecp) as Hf.
      destruct (FindMatchingDataFromCS _ _ _ _) as [T1 res]. by destruct Hf as [-> _].
    + pose proof (cs_find_exact_spec source_order i now T l Hc Ho Ecp) as Hf.
      destruct (FindMatchingDataFromCS _ _ _ _) as [T1 res]. destruct Hf as (HP & _ & EQ & Hres). cbn [fst].
      assert (Hq1 : queue_ok T1) by (unfold queue_ok; by rewrite EQ). destruct res as [c|].
      * destruct Hres as (r & Hr & Hn & Hus & _ & HR).
        destruct (list_find _ l) as [[k r']|] eqn:El.
        -- apply list_find_Some in El as (Hk & (Hn' & _) & _). assert (r' = r) as ->.
           { apply list_elem_of_lookup_2 in Hk. apply list_elem_of_lookup in Hk as [a Ha], Hr as [b Hb].
             assert (a = b); [|congruence]. apply (NoDup_lookup _ _ _ (NameV i) (repr_names T l Hc));
               rewrite list_lookup_fmap; [rewrite Ha|rewrite Hb]; cbn; by rewrite ?Hn, ?Hn'. }
           split; [by eapply pit_same_ok|done|done].
        -- apply list_find_None in El. rewrite Forall_forall in El. by destruct (El r Hr).
      * destruct Hres as [-> Hno]. destruct (list_find _ l) as [[k r']|] eqn:El; [|done].
        apply list_find_Some in El as (Hk & (Hn' & Hus) & _). apply list_elem_of_lookup_2 in Hk. by destruct (Hno r' Hk Hn').
Qed.

Lemma new_table_ok : table_ok NewPitCS [].
Proof. split; [apply new_pit_ok|apply new_cs_repr|apply new_pit_ok]. Qed.

Lemma run_ok cap os : forall T l T', table_ok T l -> Forall op_ok os -> run (Z.of_nat cap) T os = Some T' ->
  table_ok T' (fold_left (spec_exec cap) os l).
Proof.
  induction os as [|o os IH]; intros T l T' HT Ho E; cbn in *; [by injection E as <-|].
  apply Forall_cons in Ho as [Ho Hos]. apply bind_Some in E as (T1 & E1 & E).
  eapply IH; [|done|done]. by eapply exec_ok.
Qed.

(** A table some sequence of operations leads to, with the list its Content
    Store stands for. *)
Definition at_work (cap : nat) (os : list op) (T : PitCsTree) : Prop :=
  Forall op_ok os /\ run (Z.of_nat cap) NewPitCS os = Some T.

Lemma at_work_ok cap os T : at_work cap os T -> table_ok T (spec_run cap os).
Proof. intros [Ho E]. eapply run_ok; [apply new_table_ok|done|done]. Qed.

(** *** The Content Store's list *)

Lemma length_without n (l : list cs_record) : NoDup (r_name <$> l) -> n ∈ r_name <$> l ->
  S (length (without n l)) = length l.
Proof using Type.
  induction l as [|r l IH]; intros Hd Hn; [by apply elem_of_nil in Hn|].
  rewrite fmap_cons in Hd, Hn. apply NoDup_cons in Hd as [Hr Hd]. unfold without. rewrite filter_cons. case_decide as E.
  - cbn. f_equal. apply IH; [done|]. apply elem_of_cons in Hn as [->|?]; done.
  - f_equal. rewrite filter_all; [done|]. apply Forall_forall. intros x Hx Ex.
    apply Hr. rewrite E, <- Ex. by apply list_elem_of_fmap_2.
Qed.

Lemma spec_exec_length cap l o : NoDup (r_name <$> l) -> length l <= cap -> length (spec_exec cap l o) <= cap.
Proof using Type.
  intros Hd Hl. destruct o; cbn [spec_exec]; try done.
  - unfold spec_insert. case_decide as Hin.
    + rewrite length_app. cbn [length]. pose proof (length_without _ l Hd Hin). lia.
    + rewrite length_drop, length_app. cbn. lia.
  - destruct (CanBePrefixV i); [done|]. destruct (list_find _ l) as [[k r]|] eqn:E; [|done].
    apply list_find_Some in E as (Hk & _). apply list_elem_of_lookup_2 in Hk.
    unfold spec_use. rewrite length_app. cbn [length].
    pose proof (length_without (r_name r) l Hd ltac:(by apply list_elem_of_fmap_2)). lia.
Qed.

Lemma run_length cap os T : at_work cap os T -> length (spec_run cap os) <= cap.
Proof.
  intros [Ho E]. assert (Hgen : forall os T l T', table_ok T l -> Forall op_ok os -> run (Z.of_nat cap) T os = Some T' ->
    length l <= cap -> length (fold_left (spec_exec cap) os l) <= cap).
  { clear. induction os as [|o os IH]; intros T l T' HT Ho E Hl; cbn in *; [done|].
    apply Forall_cons in Ho as [Ho Hos]. apply bind_Some in E as (T1 & E1 & E).
    eapply IH; [by eapply exec_ok|done|done|]. apply spec_exec_length; [eapply repr_names, HT|done]. }
  eapply Hgen; [apply new_table_ok|done|done|cbn; lia].
Qed.

(** *** Counting pending entries *)

Lemma pending_enumeration T : pit_ok T ->
  exists l, NoDup l /\ (forall e, e ∈ l <-> live T e) /\ PitSize T = Z.of_nat (length l).
Proof.
  intros Hok. exists (map_to_list (pitTokenMap T)).*2. split_and!.
  - apply NoDup_fmap_2_strong; [|apply NoDup_map_to_list].
    intros [t e] [t' e'] Hx Hy E. cbn in E. subst e'.
    apply elem_of_map_to_list, (pit_tokens T Hok) in Hx as (p & _ & Hp & <-).
    apply elem_of_map_to_list, (pit_tokens T Hok) in Hy as (p' & _ & Hp' & <-). congruence.
  - intros e. rewrite list_elem_of_fmap. split.
    + intros ([t e'] & -> & Hx). apply elem_of_map_to_list, (pit_tokens T Hok) in Hx as (p & Hl & _). done.
    + intros Hl. destruct (live_node T e Hok Hl) as (p & Hp & _). exists (token p, e). split; [done|].
      apply elem_of_map_to_list, (pit_tokens T Hok). by exists p.
  - unfold PitSize. rewrite (pit_count T Hok), length_fmap, length_map_to_list. done.
Qed.

(** Enough different draws contain an unused token. *)
Lemma draws_suffice (m : gmap Z nat) draws : NoDup draws -> size m < length draws ->
  is_Some (generateNewPitToken m draws).
Proof using Type.
  intros Hd Hs. pose proof (generateNewPitToken_spec m draws) as Hg.
  destruct (generateNewPitToken m draws); [by eexists|].
  enough (length draws <= size m) by lia. rewrite <- size_dom, <- (size_list_to_set (C := gset Z) draws) by done.
  apply subseteq_size. intros t Ht. apply elem_of_list_to_set in Ht. apply elem_of_dom. by apply Hg.
Qed.

Lemma record_timer T e p now : pits T !! e = Some p ->
  let T' := UpdateExpirationTimer now e T in
  exists p', pits T' !! e = Some p' /\ expirationTime p' = latest_expiration now p.
Proof using Type.
  intros Hp T'. unfold T', UpdateExpirationTimer, updatePitExpiry.
  assert (E : pits (upd_pit e (fun p => SetExpirationTime (latest_expiration now p) p) T) !! e =
    Some (SetExpirationTime (latest_expiration now p) p)) by (cbn; by rewrite lookup_alter_eq, Hp).
  rewrite E. destruct (Z.ltb_spec (queueIndex (SetExpirationTime (latest_expiration now p) p)) 0) as [Hq|Hq].
  - destruct (PQueue.Push _ _ _) as [q ix]. cbn in *. rewrite lookup_alter_eq, E. by eexists.
  - cbn in *. by eexists.
Qed.

End theory.

(** ** Properties of the PIT *)

(** C32: Inserting an Interest aggregates by name, CanBePrefix, MustBeFresh and
    forwarding hint: the pending entry with that key is returned if there is
    one, otherwise exactly one new entry becomes pending; the Interest is
    reported as a duplicate exactly when another face's latest nonce is the
    same, and otherwise the expiration of the entry is cancelled; the Content
    Store does not change.  The call does not return only while every token
    drawn is in use. *)
Theorem pit_insert_spec `{EncLaws} cap os T i nonce hint inFace draws :
  at_work cap os T -> universe (NameV i) ->
  match InsertInterest i nonce hint inFace draws T with
  | None => (forall e, ~ pending_key T (interest_key i hint) e) /\
      forall t, t ∈ draws -> is_Some (pitTokenMap T !! t)
  | Some (T', e, dup) =>
      pending_key T' (interest_key i hint) e /\
      (forall e', pending_key T' (interest_key i hint) e' -> e' = e) /\
      ((pending_key T (interest_key i hint) e /\ forall e', live T' e' <-> live T e') \/
       ((forall e', ~ pending_key T (interest_key i hint) e') /\ ~ live T e /\
        forall e', live T' e' <-> live T e' \/ e' = e)) /\
      cs_same T T' /\
      exists p, pits T' !! e = Some p /\
        (dup = true <-> exists face r, inRecords p !! face = Some r /\ face <> inFace /\ in_LatestEncNonce r = nonce) /\
        (dup = false -> expirationTime p = 0)%Z
  end.
Proof.
  intros HW Hu. pose proof (table_pit _ _ (at_work_ok _ _ _ HW)) as Hok. unfold InsertInterest.
  pose proof (find_or_create_spec T i hint draws Hok Hu) as Hf.
  destruct (find_or_create i hint draws T) as [[T1 e]|]; [|done].
  destruct Hf as (Hok1 & Hcs & [Hl (p & Hp & Hk)] & _ & Hcase). rewrite Hp.
  assert (Huniq : forall e', pending_key T1 (interest_key i hint) e' -> e' = e).
  { intros e' [Hl' (p' & Hp' & Hk')]. apply (pit_keys T1 Hok1 e' e p' p); congruence. }
  assert (Hcase' : (pending_key T (interest_key i hint) e /\ forall e', live T1 e' <-> live T e') \/
       ((forall e', ~ pending_key T (interest_key i hint) e') /\ ~ live T e /\
        forall e', live T1 e' <-> live T e' \/ e' = e)).
  { destruct Hcase as [(? & _ & ?)|(? & -> & _ & ?)]; [by left|right]. split_and!; [done| |done].
    intros (q & Hq & _). pose proof (pit_bound T Hok _ _ Hq). lia. }
  pose proof (duplicate_nonce_spec p nonce inFace) as Hdup. destruct (duplicate_nonce p nonce inFace) eqn:Ed.
  - split_and!; [split; [done|by exists p]|done|done|done|]. exists p. split_and!; [done| |done].
    done.
  - destruct (upd_pit_same T1 e (SetExpirationTime 0) ltac:(done)) as [P C].
    assert (Hkeys : forall e', pending_key (upd_pit e (SetExpirationTime 0) T1) (interest_key i hint) e' <->
                     pending_key T1 (interest_key i hint) e').
    { intros e'. unfold pending_key. rewrite (pit_same_live _ _ _ P). cbn.
      destruct (decide (e' = e)) as [->|]; [rewrite lookup_alter_eq, Hp|by rewrite lookup_alter_ne].
      cbn. split; intros (? & q & [= <-] & ?); eauto. }
    split_and!.
    + apply Hkeys. split; [done|by exists p].
    + intros e' He'%Hkeys. auto.
    + destruct Hcase' as [[? Hl']|(? & ? & Hl')]; [left|right]; split_and!; try done; intros e';
        by rewrite (pit_same_live _ _ _ P), Hl'.
    + by eapply cs_same_trans.
    + exists (SetExpirationTime 0 p). cbn. rewrite lookup_alter_eq, Hp. split_and!; [done| |done].
      done.
Qed.

(** C35: A token is found: with more different draws than there are pending
    Interests, inserting an Interest returns. *)
Theorem pit_insert_returns `{EncLaws} cap os T i nonce hint inFace draws :
  at_work cap os T -> universe (NameV i) -> NoDup draws -> (PitSize T < Z.of_nat (length draws))%Z ->
  exists T' e dup, InsertInterest i nonce hint inFace draws T = Some (T', e, dup).
Proof.
  intros HW Hu Hd Hs. pose proof (table_pit _ _ (at_work_ok _ _ _ HW)) as Hok. unfold InsertInterest.
  assert (Hf : is_Some (find_or_create i hint draws T)).
  { unfold find_or_create. destruct (fillTreeToPrefixEnc (tree T) (NameV i)) as [tr node].
    destruct (find_entry _ _ _); [by eexists|]. unfold PitSize in Hs. rewrite (pit_count T Hok) in Hs.
    destruct (draws_suffice (pitTokenMap T) draws Hd ltac:(lia)) as [t ->]. by eexists. }
  destruct Hf as [[T1 e] ->]. destruct (pits T1 !! e); [destruct (duplicate_nonce _ _ _)|]; by do 3 eexists.
Qed.

(** C33: what the lookups for Data and for an Interest find: for Data without a PIT
    token, the pending entries whose name is the Data name, or a prefix of it if
    they accept longer names, each once; for Data with a token, the pending entry
    that holds the token, whatever the Data's name is, so that it need not be an
    Interest the Data satisfies (the source's comment says that it is); for an
    Interest, a pending entry with its name and selectors whenever there is one,
    whatever its forwarding hint. *)
Theorem pit_match_spec `{EncLaws} cap os T name i :
  at_work cap os T -> universe name -> universe (NameV i) ->
  (NoDup (FindInterestPrefixMatchByDataEnc T name None) /\
   forall e, e ∈ FindInterestPrefixMatchByDataEnc T name None <->
     live T e /\ exists p, pits T !! e = Some p /\ satisfies p name) /\
  (forall t e, e ∈ FindInterestPrefixMatchByDataEnc T name (Some t) <->
     live T e /\ exists p, pits T !! e = Some p /\ token p = t) /\
  let same p := encname p = NameV i /\ canBePrefix p = CanBePrefixV i /\ mustBeFresh p = MustBeFreshV i in
  match FindInterestExactMatchEnc T i with
  | Some e => live T e /\ exists p, pits T !! e = Some p /\ same p
  | None => forall e p, live T e -> pits T !! e = Some p -> ~ same p
  end.
Proof.
  intros HW Hn Hu. pose proof (table_pit _ _ (at_work_ok _ _ _ HW)) as Hok. split_and!.
  - by apply findInterestPrefixMatchByNameEnc_spec.
  - by apply findInterestPrefixMatchByNameEnc_spec.
  - intros t e. by apply token_lookup_spec.
  - by apply FindInterestExactMatchEnc_spec.
Qed.

(** Removing an Interest succeeds exactly when it is pending, takes that
    entry out and no other, leaves the Content Store alone, and [PitSize]
    always is the number of pending entries. *)
Lemma pit_remove_spec `{EncLaws} cap os T e : at_work cap os T ->
  let '(T', removed) := RemoveInterest e T in
  (removed = true <-> live T e) /\ (forall e', live T' e' <-> live T e' /\ e' <> e) /\ cs_same T T' /\
  forall T0, T0 = T \/ T0 = T' ->
    exists l, NoDup l /\ (forall e', e' ∈ l <-> live T0 e') /\ PitSize T0 = Z.of_nat (length l).
Proof.
  intros HW. pose proof (table_pit _ _ (at_work_ok _ _ _ HW)) as Hok.
  pose proof (RemoveInterest_spec T e Hok) as Hr. destruct (RemoveInterest e T) as [T' b].
  destruct Hr as (Hok' & Hcs & Hb & _ & _ & Hl). split; [done|]. split; [done|]. split; [done|].
  intros T0 [->| ->]; by apply pending_enumeration.
Qed.

(** The periodic update takes the entries whose queued expiration time has
    come off the queue, earliest first, reports each of them, and removes
    exactly those from the PIT; what stays queued expires later. *)
Lemma pit_update_spec `{EncLaws} {S : Type} (onExpiration : nameTreePitEntry -> S -> S) cap os T now (s : S) :
  at_work cap os T ->
  let '(T', s') := Update onExpiration now T s in
  cs_same T T' /\ exists popped,
    PQueue.contents (pitExpiryQueue T) ≡ₚ popped ++ PQueue.contents (pitExpiryQueue T') /\
    StronglySorted Z.le (popped.*2) /\
    (forall x, x ∈ popped -> (x.2 <= now)%Z) /\
    (forall x, x ∈ PQueue.contents (pitExpiryQueue T') -> (now < x.2)%Z) /\
    s' = report onExpiration T (popped.*1) s /\
    forall e, live T' e <-> live T e /\ e ∉ popped.*1.
Proof.
  intros HW. destruct (at_work_ok _ _ _ HW) as [Hok _ Hq]. unfold Update.
  pose proof (Update_loop_spec onExpiration now _ T s Hok Hq (le_n _)) as Hu.
  destruct (Update_loop _ _ _ _ _) as [T' s']. by destruct Hu as (_ & ? & _ & ?).
Qed.

(** Updating the timer of an entry sets its expiration to the latest of
    now and its records' expiration times; records of a face are created or
    refreshed for four more seconds, one per face. *)
Lemma timer_spec `{EncOps} cap T e p now pp nonce face tok :
  pits T !! e = Some p ->
  (let m := latest_expiration now p in
   (exists T' p', exec cap T (OpUpdateExpirationTimer e now) = Some T' /\ pits T' !! e = Some p' /\ expirationTime p' = m) /\
   (now <= m)%Z /\
   (forall f r, inRecords p !! f = Some r -> (in_ExpirationTime r <= m)%Z) /\
   (forall f r, outRecords p !! f = Some r -> (out_ExpirationTime r <= m)%Z) /\
   (m = now \/ (exists f r, inRecords p !! f = Some r /\ m = in_ExpirationTime r) \/
    exists f r, outRecords p !! f = Some r /\ m = out_ExpirationTime r)) /\
  (let '(p', already) := InsertInRecord pp nonce face tok now p in
   (already = true <-> is_Some (inRecords p !! face)) /\
   (exists r, inRecords p' !! face = Some r /\ in_LatestEncNonce r = nonce /\ in_LatestEncInterest r = pp /\
      in_ExpirationTime r = (now + record_lifetime)%Z /\
      in_PitToken r = match inRecords p !! face with Some r0 => in_PitToken r0 | None => tok end) /\
   forall f, f <> face -> inRecords p' !! f = inRecords p !! f).
Proof.
  intros Hp. split; [split; [|apply latest_expiration_spec]|].
  { destruct (record_timer T e p now Hp) as (p' & ? & ?). by exists (UpdateExpirationTimer now e T), p'. }
  unfold InsertInRecord. destruct (inRecords p !! face) as [r|]; cbn; split_and!; try done;
    try (by rewrite lookup_insert_eq; eexists; split_and!); try (by intros f Hf; rewrite lookup_insert_ne).
Qed.

(** ** Properties of the Content Store *)

(** C34: The Content Store is a cache that evicts the record that was least recently
    inserted, refreshed or returned for an exact match; a record returned for a
    prefix match keeps its place (the table does not change), although the
    interface says that the policy hears of every use.  After any operations
    with a capacity it holds at most that many records, one per name, and
    counts them; a Data packet is always admitted or refreshed; an exact
    Interest gets the record of its name if that is fresh enough, a prefix
    Interest gets a fresh enough record below its name whenever there is one,
    in any iteration order, and nothing else. *)
Theorem cs_lru_refines `{EncLaws} cap os T : at_work cap os T ->
  let l := spec_run cap os in
  CsSize T = Z.of_nat (length l) /\ length l <= cap /\ NoDup (r_name <$> l) /\
  (forall pp d now, universe (DataNameV d) -> exists T',
    InsertData (Z.of_nat cap) pp d now T = Ok T' /\ cs_repr T' (spec_insert cap (record_of pp d now) l) /\ pit_same T T') /\
  (forall order i now, universe (NameV i) -> CanBePrefixV i = false ->
    let '(T', res) := FindMatchingDataFromCS order i now T in
    match res with
    | Some c => exists r, r ∈ l /\ r_name r = NameV i /\ usable i now r /\ returns T' c r /\ cs_repr T' (spec_use r l)
    | None => T' = T /\ forall r, r ∈ l -> r_name r = NameV i -> ~ usable i now r
    end) /\
  (forall order i now, (forall j ks, order j ks ≡ₚ ks) -> universe (NameV i) -> CanBePrefixV i = true ->
    let '(T', res) := FindMatchingDataFromCS order i now T in
    T' = T /\
    match res with
    | Some c => exists r, below i now (NameV i) l r /\ returns T c r
    | None => forall r, ~ below i now (NameV i) l r
    end).
Proof.
  intros HW. destruct (at_work_ok _ _ _ HW) as [Hp Hc Hq]. split_and!.
  - apply Hc.
  - by eapply run_length.
  - apply Hc.
  - intros pp d now Hu. destruct (InsertData_spec cap pp d now T _ Hc Hu) as (T' & ? & ? & ? & _). by exists T'.
  - intros order i now Hu Hcp. pose proof (cs_find_exact_spec order i now T _ Hc Hu Hcp) as Hf.
    destruct (FindMatchingDataFromCS _ _ _ _) as [T' res]. by destruct Hf as (_ & _ & _ & ?).
  - intros order i now Ho Hu Hcp. by apply find_prefix_spec.
Qed.

(** A negative capacity is not survived: with [csCapacity < 0] the
    insertion of Data under a new name evicts everything and then dereferences
    the front of the empty list. *)
Lemma cs_negative_capacity_panics `{EncLaws} cap os T csCapacity pp d now :
  at_work cap os T -> universe (DataNameV d) -> DataNameV d ∉ r_name <$> spec_run cap os ->
  (csCapacity < 0)%Z -> InsertData csCapacity pp d now T = Panic.
Proof.
  intros HW Hu Hn Hc. destruct (at_work_ok _ _ _ HW) as [_ HR _]. by eapply InsertData_negative.
Qed.

(** ** A run *)

Section example.
#[local] Existing Instance ref_ops.
#[local] Existing Instance ref_laws.

(** Interests for /a and /b with CanBePrefix from face 10, a Data packet
    /b/x, then one more Interest for /a from the same face. *)
Definition ia (n : Z) : Interest := mkInterest [gc "a"] true false None (Some n) None.
Definition ib (n : Z) : Interest := mkInterest [gc "b"] true false None (Some n) None.
Definition dbx : Data := mkData [gc "b"; gc "x"] (Some 1000%Z).

Definition ex_history : list op := [
  OpInsertInterest (ia 1) 1 None 10 [100]%Z; OpInsertInRecord 0 0 1 10 [] 0; OpUpdateExpirationTimer 0 0;
  OpInsertInterest (ib 2) 2 None 10 [100; 200]%Z; OpInsertInRecord 1 1 2 10 [] 1; OpUpdateExpirationTimer 1 1;
  OpInsertData 2 dbx 100; OpSetExpirationTimerToNow 1 100].

Definition retransmission : list op := [
  OpInsertInterest (ia 3) 3 None 10 [300]%Z; OpInsertInRecord 0 3 3 10 [] 200; OpUpdateExpirationTimer 0 200].

Definition ex_table : PitCsTree := default NewPitCS (run 10 NewPitCS ex_history).
Definition ex_later : PitCsTree := default NewPitCS (run 10 NewPitCS (ex_history ++ retransmission)).

Lemma ex_at_work : at_work 10 ex_history ex_table.
Proof. split; [repeat constructor|]. vm_compute. reflexivity. Qed.

Lemma ex_later_at_work : at_work 10 (ex_history ++ retransmission) ex_later.
Proof. split; [repeat constructor|]. vm_compute. reflexivity. Qed.

Lemma ex_live e t : pitTokenMap ex_table !! t = Some e -> live ex_table e.
Proof. intros E. by apply (pit_tokens _ (table_pit _ _ (at_work_ok _ _ _ ex_at_work))) in E as (p & ? & _). Qed.

Lemma pit_insert_witness :
  InsertInterest (ia 9) 1 None 11 [] ex_table = Some (ex_table, 0, true) /\
  universe (NameV (ia 9)) /\
  exists T' e dup, InsertInterest (ia 9) 9 None 11 [] ex_table = Some (T', e, dup) /\
    pending_key T' (interest_key (ia 9) None) e.
Proof.
  split; [vm_compute; reflexivity|]. split; [apply ref_universe|].
  pose proof (pit_insert_spec 10 ex_history ex_table (ia 9) 9 None 11 [] ex_at_work (ref_universe _)) as HS.
  destruct (InsertInterest (ia 9) 9 None 11 [] ex_table) as [[[T' e] dup]|] eqn:E.
  - exists T', e, dup. split; [reflexivity|]. exact (proj1 HS).
  - exfalso. vm_compute in E. discriminate E.
Defined.

Lemma pit_insert_returns_witness :
  PitSize ex_table = 2%Z /\
  exists T' e dup, InsertInterest (ia 9) 9 (Some [gc "h"]) 11 [100; 200; 7]%Z ex_table = Some (T', e, dup).
Proof.
  split; [vm_compute; reflexivity|].
  refine (pit_insert_returns 10 ex_history ex_table (ia 9) 9 (Some [gc "h"]) 11 [100; 200; 7]%Z ex_at_work (ref_universe _) _ _).
  - apply (bool_decide_unpack _). vm_compute. exact I.
  - vm_compute. reflexivity.
Defined.

Lemma pit_match_witness :
  FindInterestPrefixMatchByDataEnc ex_table [gc "b"; gc "x"] None = [1] /\
  FindInterestPrefixMatchByDataEnc ex_table [] (Some 100%Z) = [0] /\
  live ex_table 1.
Proof.
  split; [vm_compute; reflexivity|]. split; [vm_compute; reflexivity|].
  destruct (pit_match_spec 10 ex_history ex_table [gc "b"; gc "x"] (ib 2) ex_at_work (ref_universe _) (ref_universe _))
    as ((_ & Hin) & _).
  apply (proj1 (Hin 1)). apply list_elem_of_In. left. vm_compute. reflexivity.
Defined.

Lemma pit_remove_witness :
  (RemoveInterest 1 ex_table).2 = true /\ PitSize (RemoveInterest 1 ex_table).1 = 1%Z /\
  ~ live (RemoveInterest 1 ex_table).1 1.
Proof.
  split; [vm_compute; reflexivity|]. split; [vm_compute; reflexivity|].
  pose proof (pit_remove_spec 10 ex_history ex_table 1 ex_at_work) as Hr.
  destruct (RemoveInterest 1 ex_table) as [T' b]. destruct Hr as (_ & Hl & _).
  intros Hlv. apply Hl in Hlv as [_ Hne]. by apply Hne.
Defined.

(** Who was reported, with the time. *)
Definition log_entry (p : nameTreePitEntry) (s : list (Name * Z)) : list (Name * Z) := s ++ [(encname p, expirationTime p)].

Lemma pit_update_witness :
  (Update log_entry 150 ex_table []).2 = [([gc "b"], 100%Z)] /\
  cs_same ex_table (Update log_entry 150 ex_table []).1.
Proof.
  split; [vm_compute; reflexivity|].
  pose proof (pit_update_spec log_entry 10 ex_history ex_table 150 [] ex_at_work) as Hu.
  destruct (Update log_entry 150 ex_table []) as [T' s']. exact (proj1 Hu).
Defined.

Lemma timer_witness :
  exists p, pits ex_table !! 0 = Some p /\ latest_expiration 5 p = record_lifetime /\
  exists T' p', exec 10 ex_table (OpUpdateExpirationTimer 0 5) = Some T' /\ pits T' !! 0 = Some p' /\
    expirationTime p' = latest_expiration 5 p.
Proof.
  destruct (pits ex_table !! 0) as [p|] eqn:E; [|vm_compute in E; discriminate E].
  exists p. split; [reflexivity|]. split; [vm_compute in E; injection E as <-; vm_compute; reflexivity|].
  exact (proj1 (proj1 (timer_spec 10 ex_table 0 p 5 7 8 9 [] E))).
Defined.

Lemma cs_lru_witness :
  spec_run 10 ex_history = [mkRecord [gc "b"; gc "x"] 2 1100] /\
  (FindMatchingDataFromCS source_order (ib 7) 2000 ex_table).2 = Some 0 /\
  CsSize ex_table = 1%Z /\ CsSize ex_table = Z.of_nat (length (spec_run 10 ex_history)).
Proof.
  split; [vm_compute; reflexivity|]. split; [vm_compute; reflexivity|]. split; [vm_compute; reflexivity|].
  exact (proj1 (cs_lru_refines 10 ex_history ex_table ex_at_work)).
Defined.

Lemma cs_negative_capacity_witness :
  InsertData (-1) 5 (mkData [gc "c"] None) 7 ex_table = Panic.
Proof.
  refine (cs_negative_capacity_panics 10 ex_history ex_table (-1) 5 (mkData [gc "c"] None) 7 ex_at_work (ref_universe _) _ _).
  - apply (bool_decide_unpack _). vm_compute. exact I.
  - reflexivity.
Defined.

(** The expiry queue loses entries: an entry's [queueIndex] is the position
    its first push returned, later swaps in the heap do not change it and the
    position [Update] returns is dropped.  When Data for /b arrives, /b's
    expiration is set to now and its item moves to the front of the queue,
    where /a's [queueIndex] points; the next Interest for /a overwrites the
    item of /b.  The entry of /b, whose expiration time has passed, is in the
    PIT after every later update, and the expiration of /a is reported twice. *)
Lemma stale_queue_index_leaks :
  PQueue.contents (pitExpiryQueue ex_table) = [(1, 100%Z); (0, record_lifetime)] /\
  (exists p, pits ex_later !! 1 = Some p /\ expirationTime p = 100%Z) /\
  PQueue.contents (pitExpiryQueue ex_later) = [(0, record_lifetime); (0, (200 + record_lifetime)%Z)] /\
  (forall now, live (Update log_entry now ex_later []).1 1) /\
  (Update log_entry (2 * record_lifetime) ex_later []).2 =
    [([gc "a"], (200 + record_lifetime)%Z); ([gc "a"], (200 + record_lifetime)%Z)].
Proof.
  split; [vm_compute; reflexivity|]. split.
  { destruct (pits ex_later !! 1) as [p|] eqn:E; [|vm_compute in E; discriminate E].
    exists p. split; [done|]. vm_compute in E. by injection E as <-. }
  assert (Hc : PQueue.contents (pitExpiryQueue ex_later) = [(0, record_lifetime); (0, (200 + record_lifetime)%Z)])
    by (vm_compute; reflexivity).
  split; [done|]. split; [|vm_compute; reflexivity]. intros now.
  destruct (at_work_ok _ _ _ ex_later_at_work) as [Hok _ Hq]. unfold Update.
  pose proof (Update_loop_spec log_entry now _ ex_later [] Hok Hq (le_n _)) as Hu.
  destruct (Update_loop _ _ _ _ _) as [T' s']. destruct Hu as (_ & _ & _ & popped & Hperm & _ & _ & _ & _ & Hl).
  apply Hl. split.
  - assert (Ht : pitTokenMap ex_later !! 200%Z = Some 1) by (vm_compute; reflexivity).
    apply (pit_tokens _ Hok) in Ht as (p & ? & _). done.
  - intros ([e t] & E & Hin)%list_elem_of_fmap. cbn in E. subst e.
    assert (Hx : (1, t) ∈ PQueue.contents (pitExpiryQueue ex_later)) by (rewrite Hperm; apply elem_of_app; by left).
    rewrite Hc in Hx. rewrite !elem_of_cons in Hx. destruct Hx as [?|[?|Hx]]; [done|done|by apply elem_of_nil in Hx].
Qed.

End example.
