(* ===== verification/Fw.v ===== *)
(** * The forwarding pipelines: fw/thread.go, strategy.go, bestroute.go,
      multicast.go, strategy-loader.go

    A forwarding thread owns its PIT-CS and dead nonce list and works on
    packets that it shares, by pointer, with the faces: [packets] is the store
    behind the pointers, [sent] the calls of [SendPacket] in order, each with
    the packet as it was at the call (the face reads the pointer later).  The
    tables shared between threads (faces, FIB and strategies, network regions)
    are read as they are during an event.  A run-time panic is [Panic].

    [now] is the clock of the event; [children_order], [face_order] are the
    iteration orders of Go maps; [sortSlice] is [sort.Slice] by cost. *)
From S2P Require Import Prelude.
From S2P Require Import Enc.
From S2P Require Import FibSpec.
From S2P Require DeadNonce.
From S2P Require Import Packet.
From S2P Require Import PitCs.

(** ** Data *)

Inductive Scope := Local | NonLocal.
Inductive LinkType := PointToPoint | MultiAccess | AdHoc.

#[export] Instance Scope_eq_dec : EqDecision Scope.
Proof. solve_decision. Defined.
#[export] Instance LinkType_eq_dec : EqDecision LinkType.
Proof. solve_decision. Defined.

(** What the thread asks a [dispatch.Face]. *)
Record Face := mkFace { FaceID : Z; face_scope : Scope; linkType : LinkType }.

Record Config := mkConfig {
  csAdmit : bool;
  csServe : bool;
  csCapacity : Z;
  deadNonceListLifetime : Z;
  fwQueueSize : nat }.

Inductive Strategy := BestRoute | Multicast.

#[export] Instance Strategy_eq_dec : EqDecision Strategy.
Proof. solve_decision. Defined.

Record Thread := mkThread {
  threadID : Z;
  pendingInterests : list nat;
  pendingDatas : list nat;
  pitCS : PitCsTree;
  deadNonceList : DeadNonce.DeadNonceList;
  NInInterests : Z;
  NInData : Z;
  NOutInterests : Z;
  NOutData : Z;
  NSatisfiedInterests : Z;
  NUnsatisfiedInterests : Z }.

Record send := mkSend { send_face : Z; send_ptr : nat; send_packet : PendingPacket }.

Record World := mkWorld { thread : Thread; packets : gmap nat PendingPacket; sent : list send }.

Definition set_thread (t : Thread) (w : World) : World := mkWorld t (packets w) (sent w).
Definition upd_packet (pp : nat) (g : PendingPacket -> PendingPacket) (w : World) : World :=
  mkWorld (thread w) (alter g pp (packets w)) (sent w).

Definition set_pitCS (T : PitCsTree) (w : World) : World :=
  let t := thread w in
  set_thread (mkThread (threadID t) (pendingInterests t) (pendingDatas t) T (deadNonceList t) (NInInterests t)
    (NInData t) (NOutInterests t) (NOutData t) (NSatisfiedInterests t) (NUnsatisfiedInterests t)) w.
Definition set_dnl (d : DeadNonce.DeadNonceList) (w : World) : World :=
  let t := thread w in
  set_thread (mkThread (threadID t) (pendingInterests t) (pendingDatas t) (pitCS t) d (NInInterests t)
    (NInData t) (NOutInterests t) (NOutData t) (NSatisfiedInterests t) (NUnsatisfiedInterests t)) w.

(** The counters, 64 bits each. *)
Definition count (dii did doi dod dsat dunsat : Z) (w : World) : World :=
  let t := thread w in
  set_thread (mkThread (threadID t) (pendingInterests t) (pendingDatas t) (pitCS t) (deadNonceList t)
    (u64 (NInInterests t + dii)) (u64 (NInData t + did)) (u64 (NOutInterests t + doi)) (u64 (NOutData t + dod))
    (u64 (NSatisfiedInterests t + dsat)) (u64 (NUnsatisfiedInterests t + dunsat))) w.

Definition LOCALHOST : list byte := gs "localhost".

(** [len(name) > 0 && bytes.Equal(name[0].Val, LOCALHOST)]. *)
Definition is_localhost (name : Name) : bool :=
  match name with
  | c :: _ => bool_decide (Val c = LOCALHOST)
  | [] => false
  end.

(** ** Dispatching names to threads *)

Section dispatch.
Context `{EncOps}.

(** [threads] is [len(Threads)]; the remainder by 0 panics. *)
Definition HashNameToFwThread (threads : Z) (name : Name) : outcome Z :=
  if is_localhost name then Ok 0%Z
  else if (threads =? 0)%Z then Panic
  else Ok (Name_Hash name mod threads)%Z.

Definition HashNameToAllPrefixFwThreads (threads : Z) (name : Name) : outcome (list Z) :=
  if is_localhost name then Ok [0%Z]
  else
    let prefixHash := drop 1 (Name_PrefixHash name) in
    if (threads =? 0)%Z && bool_decide (prefixHash <> []) then Panic
    else Ok ((fun h => h mod threads)%Z <$> prefixHash).

End dispatch.

(** ** Strategies *)

Section strategies.
Context `{EncOps}.

(** [strategyPrefix] is [enc.NameFromStr(StrategyPrefix)], [NewVersionComponent]
    is go-ndn's. *)
Context (strategyPrefix : Name) (NewVersionComponent : Z -> Component).

Definition strategy_component (s : Strategy) : Component :=
  match s with
  | BestRoute => mkComponent 8 (gs "best-route")
  | Multicast => mkComponent 8 (gs "multicast")
  end.

(** [GetName] after [NewStrategyBase]. *)
Definition strategy_name (s : Strategy) : Name := strategyPrefix ++ [strategy_component s; NewVersionComponent 1].

(** [InstantiateStrategies] over the registered types. *)
Definition InstantiateStrategies : gmap Z Strategy :=
  fold_left (fun strategies s => <[Name_Hash (strategy_name s) := s]> strategies) [BestRoute; Multicast] ∅.

End strategies.

(** ** Pipelines *)

Section pipelines.
Context `{EncOps} {F : Type} `{FibStrategy F}.
Context (config : Config) (faces : gmap Z Face) (regions : list Name) (fib : F) (strategies : gmap Z Strategy).
Context (children_order : nat -> list nat -> list nat) (face_order : list Z -> list Z)
        (sortSlice : list FibNextHopEntry -> list FibNextHopEntry).

Definition packet (w : World) (pp : nat) : outcome PendingPacket :=
  match packets w !! pp with Some p => Ok p | None => Panic end.

(** [pendingPacket.EncPacket.Interest] and [.Data], about to be dereferenced. *)
Definition interest_of (w : World) (pp : nat) : outcome Interest :=
  let* p := packet w pp in match as_interest (Enc p) with Some i => Ok i | None => Panic end.
Definition data_pkt (w : World) (pp : nat) : outcome Data :=
  let* p := packet w pp in match as_data (Enc p) with Some d => Ok d | None => Panic end.

Definition pit_entry_of (w : World) (e : nat) : outcome nameTreePitEntry :=
  match pits (pitCS (thread w)) !! e with Some p => Ok p | None => Panic end.

Definition on_pit (e : nat) (g : nameTreePitEntry -> nameTreePitEntry) (w : World) : World :=
  set_pitCS (upd_pit e g (pitCS (thread w))) w.

(** [face.SendPacket(pendingPacket)]. *)
Definition SendPacket (face : Z) (pp : nat) (w : World) : outcome World :=
  let* p := packet w pp in Ok (mkWorld (thread w) (packets w) (sent w ++ [mkSend face pp p])).

(** The six bytes of an outgoing PIT token. *)
Definition outgoing_token (threadID tok : Z) : list byte := be_put 2 threadID ++ be_put 4 tok.

Definition processOutgoingInterest (now : Z) (pp e : nat) (nexthop inFace : Z) (w : World) : outcome (World * bool) :=
  match faces !! nexthop with
  | None => Ok (w, false)
  | Some outgoingFace =>
      if (FaceID outgoingFace =? inFace)%Z && bool_decide (linkType outgoingFace <> AdHoc) then Ok (w, false)
      else
        let* i := interest_of w pp in
        if bool_decide (HopLimitV i = Some 0%Z) && bool_decide (face_scope outgoingFace = NonLocal) then Ok (w, false)
        else
          match NonceV i with
          | None => Panic
          | Some nonce =>
              let* p := pit_entry_of w e in
              let w1 := count 0 0 1 0 0 0 (on_pit e (InsertOutRecord pp nonce nexthop now) w) in
              let w2 := upd_packet pp (fun q => set_PitToken (outgoing_token (threadID (thread w)) (token p))
                                                  (set_IncomingFaceID (Some inFace) q)) w1 in
              let* w3 := SendPacket nexthop pp w2 in
              Ok (w3, true)
          end
  end.

Definition processOutgoingData (pp : nat) (nexthop : Z) (pitToken : list byte) (inFace : Z) (w : World) : outcome World :=
  match faces !! nexthop with
  | None => Ok w
  | Some outgoingFace =>
      let* violates :=
        match face_scope outgoingFace with
        | NonLocal => let* d := data_pkt w pp in Ok (is_localhost (DataNameV d))
        | Local => Ok false
        end in
      if violates : bool then Ok w
      else
        let w1 := count 0 0 0 1 1 0 w in
        let w2 := if 0 <? length pitToken then upd_packet pp (set_PitToken pitToken) w1 else w1 in
        SendPacket nexthop pp (upd_packet pp (set_IncomingFaceID (Some inFace)) w2)
  end.

(** *** The strategies' helpers and callbacks *)

Definition SendData (pp e : nat) (nexthop inFace : Z) (w : World) : outcome World :=
  let* p := pit_entry_of w e in
  match inRecords p !! nexthop with
  | Some r =>
      processOutgoingData pp nexthop (in_PitToken r) inFace
        (on_pit e (fun p => with_inRecords (delete nexthop (inRecords p)) p) w)
  | None => processOutgoingData pp nexthop [] inFace w
  end.

(** Both strategies: to the face of the Interest, from face 0. *)
Definition AfterContentStoreHit (s : Strategy) (pp e : nat) (inFace : Z) (w : World) : outcome World :=
  SendData pp e inFace 0 w.

Fixpoint send_data_loop (pp e : nat) (inFace : Z) (ids : list Z) (w : World) : outcome World :=
  match ids with
  | [] => Ok w
  | faceID :: ids' => let* w1 := SendData pp e faceID inFace w in send_data_loop pp e inFace ids' w1
  end.

Definition face_ids {A} (m : gmap Z A) : list Z := (map_to_list m).*1.

(** Both strategies: to the face of every in-record.  [Multicast] reads the
    Data's name for its log message first. *)
Definition AfterReceiveData (s : Strategy) (pp e : nat) (inFace : Z) (w : World) : outcome World :=
  let* p := pit_entry_of w e in
  match s with
  | BestRoute => send_data_loop pp e inFace (face_order (face_ids (inRecords p))) w
  | Multicast =>
      let* _d := data_pkt w pp in send_data_loop pp e inFace (face_order (face_ids (inRecords p))) w
  end.

(** [BestRoute]: the first next hop that accepts the Interest. *)
Fixpoint first_usable (now : Z) (pp e : nat) (inFace : Z) (nexthops : list FibNextHopEntry) (w : World) : outcome World :=
  match nexthops with
  | [] => Ok w
  | nh :: nexthops' =>
      let* (w1, sent) := processOutgoingInterest now pp e (Nexthop nh) inFace w in
      if sent : bool then Ok w1 else first_usable now pp e inFace nexthops' w1
  end.

(** [Multicast]: every next hop. *)
Fixpoint all_nexthops (now : Z) (pp e : nat) (inFace : Z) (nexthops : list FibNextHopEntry) (w : World) : outcome World :=
  match nexthops with
  | [] => Ok w
  | nh :: nexthops' =>
      let* (w1, _sent) := processOutgoingInterest now pp e (Nexthop nh) inFace w in
      all_nexthops now pp e inFace nexthops' w1
  end.

Definition AfterReceiveInterest (s : Strategy) (now : Z) (pp e : nat) (inFace : Z) (nexthops : list FibNextHopEntry)
    (w : World) : outcome World :=
  match s with
  | BestRoute => first_usable now pp e inFace (sortSlice nexthops) w
  | Multicast => all_nexthops now pp e inFace nexthops w
  end.

(** Both strategies do nothing. *)
Definition BeforeSatisfyInterest (s : Strategy) (e : nat) (inFace : Z) (w : World) : outcome World := Ok w.

(** A call on the strategy of a name; [None] is the nil interface. *)
Definition with_strategy {A} (s : option Strategy) (k : Strategy -> outcome A) : outcome A :=
  match s with Some s => k s | None => Panic end.

Definition FindStrategy (name : Name) : option Strategy := strategies !! Name_Hash (nm (FindStrategyEnc fib name)).

(** *** Incoming Interests *)

(** The forwarding-hint loop: whether the Interest reached its producer
    region, and the first non-nil hint before that. *)
Fixpoint hint_loop (hints : list goname) (fhName : goname) : bool * goname :=
  match hints with
  | [] => (false, fhName)
  | fh :: hints' =>
      if DeadNonce.IsProducer regions (nm fh) then (true, fhName)
      else hint_loop hints' (match fhName with None => fh | Some _ => fhName end)
  end.

Definition forwarding_hint (i : Interest) : goname :=
  match ForwardingHintV i with
  | Some ((_ :: _) as hints) => let '(reaching, fhName) := hint_loop hints None in if reaching then None else fhName
  | _ => None
  end.

(** Writing the decremented hop limit into the packet. *)
Definition decrement_hop_limit (i : Interest) : Interest :=
  match HopLimitV i with
  | Some h => mkInterest (NameV i) (CanBePrefixV i) (MustBeFreshV i) (ForwardingHintV i) (NonceV i) (Some (u8 (h - 1)))
  | None => i
  end.

(** From the Content Store lookup on: [pending] is whether the face already
    had an in-record. *)
Definition after_in_record (now : Z) (pp e : nat) (inFace : Z) (i : Interest) (fhName : goname) (pending : bool)
    (nextHop : option Z) (w : World) : outcome World :=
  let s := FindStrategy (NameV i) in
  let '(T1, csEntry) :=
    if negb pending && csServe config then FindMatchingDataFromCS children_order i now (pitCS (thread w))
    else (pitCS (thread w), None) in
  let w1 := set_pitCS T1 w in
  match csEntry with
  | Some c =>
      match css T1 !! c with
      | Some entry => with_strategy s (fun s => AfterContentStoreHit s (encData entry) e inFace w1)
      | None => Panic
      end
  | None =>
      let w2 := set_pitCS (UpdateExpirationTimer now e T1) w1 in
      match nextHop with
      | Some nh => match faces !! nh with Some _ => SendPacket nh pp w2 | None => Ok w2 end
      | None =>
          let nexthops := FindNextHopsEnc fib (match fhName with None => NameV i | Some fh => fh end) in
          with_strategy s (fun s => AfterReceiveInterest s now pp e inFace nexthops w2)
      end
  end.

(** From the dead nonce list on. *)
Definition after_checks (now : Z) (draws : list Z) (pp : nat) (inFace : Z) (tok : list byte) (i : Interest)
    (nextHop : option Z) (w : World) : option (outcome World) :=
  match NonceV i with
  | None => Some Panic
  | Some nonce =>
      if DeadNonce.Find (deadNonceList (thread w)) (NameV i) nonce then Some (Ok w)
      else
        let fhName := forwarding_hint i in
        match InsertInterest i nonce fhName inFace draws (pitCS (thread w)) with
        | None => None
        | Some (T1, e, isDuplicate) =>
            let w1 := set_pitCS T1 w in
            if isDuplicate then Some (Ok w1)
            else
              Some (let* p := pit_entry_of w1 e in
                    let '(p', pending) := InsertInRecord pp nonce inFace tok now p in
                    after_in_record now pp e inFace i fhName pending nextHop (on_pit e (fun _ => p') w1))
        end
  end.

(** [None]: no PIT token drawn yet. *)
Definition processIncomingInterest (now : Z) (draws : list Z) (pp : nat) (w : World) : option (outcome World) :=
  match packet w pp with
  | Ok p =>
      match IncomingFaceID p with
      | None => Some (Ok w)
      | Some inID =>
          match faces !! inID with
          | None => Some (Ok w)
          | Some incomingFace =>
              match as_interest (Enc p) with
              | None => Some Panic
              | Some i0 =>
                  if bool_decide (HopLimitV i0 = Some 0%Z) then Some (Ok w)
                  else
                    let i := decrement_hop_limit i0 in
                    let w1 := upd_packet pp (set_Enc (EncInterest i)) w in
                    if bool_decide (face_scope incomingFace = NonLocal) && is_localhost (NameV i) then Some (Ok w1)
                    else after_checks now draws pp (FaceID incomingFace) (PitToken p) i (NextHopFaceID p)
                           (count 1 0 0 0 0 0 w1)
              end
          end
      end
  | Err e => Some (Err e)
  | Panic => Some Panic
  end.

(** *** Incoming Data *)

(** Inserting the nonces of out-records under a name. *)
Definition insert_nonces (now : Z) (name : Name) (records : list PitOutRecord) (w : World) : World :=
  set_dnl (fold_left (fun d r => (DeadNonce.Insert (deadNonceListLifetime config) now d name (out_LatestEncNonce r)).1)
             records (deadNonceList (thread w))) w.

Definition out_records (p : nameTreePitEntry) : list PitOutRecord :=
  omap (fun id => outRecords p !! id) (face_order (face_ids (outRecords p))).

Definition satisfy_one (now : Z) (s : option Strategy) (pp e : nat) (inFace : Z) (w : World) : outcome World :=
  let w1 := set_pitCS (SetExpirationTimerToNow now e (pitCS (thread w))) w in
  let* w2 := with_strategy s (fun s => AfterReceiveData s pp e inFace w1) in
  let w3 := on_pit e (SetSatisfied true) w2 in
  let* p := pit_entry_of w3 e in
  let* d := data_pkt w3 pp in
  Ok (on_pit e ClearOutRecords (insert_nonces now (DataNameV d) (out_records p) w3)).

Fixpoint outgoing_loop (pp : nat) (inFace : Z) (downstreams : list (Z * list byte)) (w : World) : outcome World :=
  match downstreams with
  | [] => Ok w
  | (id, tok) :: rest => let* w1 := processOutgoingData pp id tok inFace w in outgoing_loop pp inFace rest w1
  end.

(** One round of the loop over several matching entries; [first] is
    [pitEntries[0]], whose out-records are the ones read.  [inFace] is
    [*pendingPacket.IncomingFaceID], which [processOutgoingData] rewrites with
    the same value. *)
Definition satisfy_round (now : Z) (s : option Strategy) (pp first e : nat) (inFace : Z) (w : World) : outcome World :=
  let* p := pit_entry_of w e in
  let downstreams :=
    omap (fun id => if (id =? inFace)%Z then None else (fun r => (id, in_PitToken r)) <$> inRecords p !! id)
      (face_order (face_ids (inRecords p))) in
  let w1 := set_pitCS (SetExpirationTimerToNow now e (pitCS (thread w))) w in
  let* w2 := with_strategy s (fun s => BeforeSatisfyInterest s e inFace w1) in
  let w3 := on_pit e (SetSatisfied true) w2 in
  let* p0 := pit_entry_of w3 first in
  let* d := data_pkt w3 pp in
  let w4 := insert_nonces now (DataNameV d) (out_records p0) w3 in
  let w5 := on_pit e ClearOutRecords (on_pit e ClearInRecords w4) in
  outgoing_loop pp inFace downstreams w5.

Fixpoint satisfy_all (now : Z) (s : option Strategy) (pp first : nat) (inFace : Z) (es : list nat) (w : World) : outcome World :=
  match es with
  | [] => Ok w
  | e :: es' => let* w1 := satisfy_round now s pp first e inFace w in satisfy_all now s pp first inFace es' w1
  end.

(** [binary.BigEndian.Uint32(pendingPacket.PitToken[2:6])]. *)
Definition incoming_token (tok : list byte) : outcome (option Z) :=
  match tok with
  | [] => Ok None
  | _ :: _ => let* b := go_slice tok 2 6 in Ok (Some (be_get b))
  end.

Definition processIncomingData (now : Z) (pp : nat) (w : World) : outcome World :=
  let* p := packet w pp in
  match IncomingFaceID p with
  | None => Ok w
  | Some inFace =>
      let* pitToken := incoming_token (PitToken p) in
      match faces !! inFace with
      | None => let* _d := data_pkt w pp in Ok w
      | Some incomingFace =>
          let w1 := count 0 1 0 0 0 0 w in
          let* violates :=
            (if bool_decide (face_scope incomingFace = NonLocal) && (0 <? length (NameCache p)) then
               let* d := data_pkt w pp in
               match DataNameV d with
               | [] => Panic
               | c :: _ => Ok (bool_decide (Val c = LOCALHOST))
               end
             else Ok false) in
          if violates : bool then Ok w1
          else
            let* w2 :=
              (if csAdmit config then
                 let* d := data_pkt w1 pp in
                 let* T := InsertData (csCapacity config) pp d now (pitCS (thread w1)) in
                 Ok (set_pitCS T w1)
               else Ok w1) in
            let* name := match pitToken with
                         | Some _ => Ok []
                         | None => let* d := data_pkt w2 pp in Ok (DataNameV d)
                         end in
            let pitEntries := FindInterestPrefixMatchByDataEnc (pitCS (thread w2)) name pitToken in
            match pitEntries with
            | [] => Ok w2
            | [e] =>
                let* d := data_pkt w2 pp in
                satisfy_one now (FindStrategy (DataNameV d)) pp e inFace w2
            | first :: _ =>
                let* d := data_pkt w2 pp in
                satisfy_all now (FindStrategy (DataNameV d)) pp first inFace pitEntries w2
            end
      end
  end.

(** *** Expiration and the thread's loop *)

(** [finalizeInterest], the table's expiration callback, on the dead nonce
    list and the counter of unsatisfied Interests. *)
Fixpoint finalize_nonces (now : Z) (ps : gmap nat PendingPacket) (records : list PitOutRecord)
    (d : DeadNonce.DeadNonceList) : outcome DeadNonce.DeadNonceList :=
  match records with
  | [] => Ok d
  | r :: records' =>
      match ps !! out_LatestEncInterest r ≫= (fun p => as_interest (Enc p)) with
      | None => Panic
      | Some i =>
          finalize_nonces now ps records'
            (DeadNonce.Insert (deadNonceListLifetime config) now d (NameV i) (out_LatestEncNonce r)).1
      end
  end.

Definition finalizeInterest (now : Z) (ps : gmap nat PendingPacket) (p : nameTreePitEntry)
    (s : outcome (DeadNonce.DeadNonceList * Z)) : outcome (DeadNonce.DeadNonceList * Z) :=
  let* (d, n) := s in
  let* d' := finalize_nonces now ps (out_records p) d in
  Ok (d', if satisfied p then n else u64 (n + Z.of_nat (size (inRecords p)))).

Definition pit_update (now : Z) (w : World) : outcome World :=
  let '(T, s) := Update (finalizeInterest now (packets w)) now (pitCS (thread w))
                   (Ok (deadNonceList (thread w), NUnsatisfiedInterests (thread w))) in
  let* (d, n) := s in
  let w1 := set_dnl d (set_pitCS T w) in
  let t := thread w1 in
  Ok (set_thread (mkThread (threadID t) (pendingInterests t) (pendingDatas t) (pitCS t) (deadNonceList t)
        (NInInterests t) (NInData t) (NOutInterests t) (NOutData t) (NSatisfiedInterests t) n) w1).

(** [QueueInterest] and [QueueData]: a full queue drops the packet. *)
Definition QueueInterest (pp : nat) (t : Thread) : Thread :=
  if length (pendingInterests t) <? fwQueueSize config then
    mkThread (threadID t) (pendingInterests t ++ [pp]) (pendingDatas t) (pitCS t) (deadNonceList t) (NInInterests t)
      (NInData t) (NOutInterests t) (NOutData t) (NSatisfiedInterests t) (NUnsatisfiedInterests t)
  else t.
Definition QueueData (pp : nat) (t : Thread) : Thread :=
  if length (pendingDatas t) <? fwQueueSize config then
    mkThread (threadID t) (pendingInterests t) (pendingDatas t ++ [pp]) (pitCS t) (deadNonceList t) (NInInterests t)
      (NInData t) (NOutInterests t) (NOutData t) (NSatisfiedInterests t) (NUnsatisfiedInterests t)
  else t.

(** The cases of the [select] in [Run]. *)
Inductive event :=
| EvInterest (now : Z) (draws : list Z)
| EvData (now : Z)
| EvDeadNonceTicker (now : Z)
| EvPitUpdate (now : Z).

Definition Run_step (ev : event) (w : World) : option (outcome World) :=
  let t := thread w in
  match ev with
  | EvInterest now draws =>
      match pendingInterests t with
      | [] => Some (Ok w)
      | pp :: rest =>
          processIncomingInterest now draws pp
            (set_thread (mkThread (threadID t) rest (pendingDatas t) (pitCS t) (deadNonceList t) (NInInterests t)
              (NInData t) (NOutInterests t) (NOutData t) (NSatisfiedInterests t) (NUnsatisfiedInterests t)) w)
      end
  | EvData now =>
      match pendingDatas t with
      | [] => Some (Ok w)
      | pp :: rest =>
          Some (processIncomingData now pp
            (set_thread (mkThread (threadID t) (pendingInterests t) rest (pitCS t) (deadNonceList t) (NInInterests t)
              (NInData t) (NOutInterests t) (NOutData t) (NSatisfiedInterests t) (NUnsatisfiedInterests t)) w))
      end
  | EvDeadNonceTicker now => Some (Ok (set_dnl (DeadNonce.RemoveExpiredEntries now (deadNonceList t)) w))
  | EvPitUpdate now => Some (pit_update now w)
  end.

End pipelines.

(** [NewThread]. *)
Definition NewThread (id : Z) : Thread :=
  mkThread id [] [] NewPitCS DeadNonce.NewDeadNonceList 0 0 0 0 0 0.

(** ** Properties of the dispatch *)

(** C16: Data meets its Interests: with at least one thread both hash functions
    return threads in range, and the threads a Data name is dispatched to
    include the thread of every nonempty prefix of the name, where an Interest
    for that prefix is pending; /localhost names all go to thread 0. *)
Theorem dispatch_meets `{EncLaws} (threads : Z) (name : Name) :
  (0 < threads)%Z ->
  exists l, HashNameToAllPrefixFwThreads threads name = Ok l /\
    (forall t, t ∈ l -> (0 <= t < threads)%Z) /\
    (is_localhost name = true -> l = [0%Z]) /\
    forall pre, pre `prefix_of` name -> pre <> [] ->
      exists t, HashNameToFwThread threads pre = Ok t /\ t ∈ l.
Proof.
  intros Ht. unfold HashNameToAllPrefixFwThreads, HashNameToFwThread.
  assert (Hloc : forall pre, pre `prefix_of` name -> pre <> [] -> is_localhost pre = is_localhost name).
  { intros [|c pre] [r ->] Hne; [done|]. done. }
  destruct (is_localhost name) eqn:El.
  - exists [0%Z]. split_and!; [done| |done|].
    + intros t ->%list_elem_of_singleton. lia.
    + intros pre Hp Hne. rewrite (Hloc pre Hp Hne). exists 0%Z. split; [done|by left].
  - destruct (Z.eqb_spec threads 0) as [|_]; [lia|]. cbn [andb].
    exists ((fun h => h mod threads)%Z <$> drop 1 (Name_PrefixHash name)). split_and!; [done| |done|].
    + intros t (h & -> & _)%list_elem_of_fmap. by apply Z.mod_pos_bound.
    + intros pre Hp Hne. rewrite (Hloc pre Hp Hne). exists (Name_Hash pre mod threads)%Z. split; [done|].
      apply list_elem_of_fmap. exists (Name_Hash pre). split; [done|]. pose proof (prefix_length _ _ Hp) as Hl.
      destruct Hp as [r Hr]. apply list_elem_of_lookup. exists (length pre - 1). rewrite lookup_drop.
      assert (1 <= length pre) by (destruct pre; cbn; [done|lia]).
      replace (1 + (length pre - 1)) with (length pre) by lia. rewrite PrefixHash_lookup by done.
      by rewrite Hr, take_app_length.
Qed.

Lemma dispatch_meets_witness :
  exists l, @HashNameToAllPrefixFwThreads ref_ops 8 [gc "a"; gc "b"] = Ok l /\ length l = 2 /\
    exists t, @HashNameToFwThread ref_ops 8 [gc "a"] = Ok t /\ t ∈ l.
Proof.
  destruct (@dispatch_meets ref_ops ref_laws 8 [gc "a"; gc "b"] ltac:(lia)) as (l & E & _ & _ & Hp).
  exists l. split; [exact E|]. split; [vm_compute in E; injection E as <-; reflexivity|].
  apply Hp; [by exists [gc "b"]|discriminate].
Defined.
