(* ===== verification/FwInv.v ===== *)
(** * Invariant of the forwarding threads

    What a thread keeps at all times: its PIT-CS went through operations of
    [PitCsRun] only, the packets its tables point to are of the right kind, and
    what it sends is allowed by the scopes and hop limits.  [good] relates the
    states before and after a piece of a pipeline. *)
From S2P Require Import Prelude.
From S2P Require Import Enc.
From S2P Require Import FibSpec.
From S2P Require DeadNonce.
From S2P Require Import Packet.
From S2P Require Import PitCs.
From S2P Require Import PitTree.
From S2P Require Import Pit.
From S2P Require Import ContentStore.
From S2P Require Import PitCsRun.
From S2P Require Import Fw.

Abbreviation table_of w := (pitCS (thread w)).

(** Whether a pointer holds an Interest ([Some true]) or Data ([Some false]). *)
Definition kind (ps : gmap nat PendingPacket) (pp : nat) : option bool :=
  (fun p => match Enc p with EncInterest _ => true | EncData _ => false end) <$> ps !! pp.

Definition contents_of (ps : gmap nat PendingPacket) (pp : nat) : option EncPacket := Enc <$> ps !! pp.

Lemma contents_kind ps ps' pp : contents_of ps' pp = contents_of ps pp -> kind ps' pp = kind ps pp.
Proof. unfold contents_of, kind. destruct (ps' !! pp), (ps !! pp); cbn; intros E; try done. injection E as E. by rewrite E. Qed.

(** Every out-record of [T'] is one of [T]. *)
Definition outs_le (T T' : PitCsTree) : Prop :=
  forall e p' f r, pits T' !! e = Some p' -> outRecords p' !! f = Some r ->
  exists p, pits T !! e = Some p /\ outRecords p !! f = Some r.

Definition pits_grow (T T' : PitCsTree) : Prop := forall e, is_Some (pits T !! e) -> is_Some (pits T' !! e).

Lemma outs_le_refl T : outs_le T T.
Proof. intros e p f r. by exists p. Qed.

Lemma outs_le_trans T1 T2 T3 : outs_le T1 T2 -> outs_le T2 T3 -> outs_le T1 T3.
Proof. intros H1 H2 e p f r Hp Hr. destruct (H2 e p f r Hp Hr) as (q & Hq & Hqr). by eapply H1. Qed.

Lemma pits_grow_refl T : pits_grow T T.
Proof. by intros e. Qed.

Lemma pits_grow_trans T1 T2 T3 : pits_grow T1 T2 -> pits_grow T2 T3 -> pits_grow T1 T3.
Proof. intros G1 G2 e He. by apply G2, G1. Qed.

Lemma upd_pit_outs T e g : (forall p, outRecords (g p) ⊆ outRecords p) -> outs_le T (upd_pit e g T).
Proof.
  intros Hg e' p' f r Hp Hr. cbn in Hp. destruct (decide (e = e')) as [->|].
  - rewrite lookup_alter_eq in Hp. destruct (pits T !! e') as [p|] eqn:E; [|done]. injection Hp as <-. exists p.
    split; [done|]. by eapply lookup_weaken.
  - rewrite lookup_alter_ne in Hp by done. by exists p'.
Qed.

Lemma upd_pit_grow T e g : pits_grow T (upd_pit e g T).
Proof.
  intros e' [p Hp]. cbn. destruct (decide (e = e')) as [->|];
    [rewrite lookup_alter_eq, Hp|rewrite lookup_alter_ne by done]; by eexists.
Qed.

Lemma updatePitExpiry_outs T e : outs_le T (updatePitExpiry e T) /\ pits_grow T (updatePitExpiry e T).
Proof.
  unfold updatePitExpiry. destruct (pits T !! e) as [p|]; [|split; [apply outs_le_refl|apply pits_grow_refl]].
  destruct (_ <? 0)%Z; [|split; [apply (outs_le_refl T)|apply (pits_grow_refl T)]]. destruct (PQueue.Push _ _ _) as [q ix].
  split; [|apply (upd_pit_grow T)]. by apply (upd_pit_outs T e (with_queueIndex ix)).
Qed.

Lemma timer_outs T e g : (forall p, outRecords (g p) = outRecords p) ->
  outs_le T (updatePitExpiry e (upd_pit e g T)) /\ pits_grow T (updatePitExpiry e (upd_pit e g T)).
Proof.
  intros Hg. destruct (updatePitExpiry_outs (upd_pit e g T) e) as [H1 H2].
  split; [eapply outs_le_trans; [|done]; apply upd_pit_outs; intros p; by rewrite Hg|].
  eapply pits_grow_trans; [apply upd_pit_grow|done].
Qed.

Lemma RemoveInterest_pits `{EncOps} T e : pits (RemoveInterest e T).1 = pits T.
Proof. unfold RemoveInterest. destruct (pits T !! e); [|done]. by destruct (list_find _ _) as [[]|]. Qed.

Lemma Update_outs `{EncOps} {S} (cb : nameTreePitEntry -> S -> S) now T s :
  outs_le T (Update cb now T s).1 /\ pits_grow T (Update cb now T s).1.
Proof.
  unfold Update. generalize (length (pitExpiryQueue T)) as fuel. intros fuel. revert T s.
  induction fuel as [|fuel IH]; intros T s; cbn [Update_loop]; [split; [apply outs_le_refl|apply pits_grow_refl]|].
  destruct (PQueue.PeekPriority _) as [p|]; [|split; [apply outs_le_refl|apply pits_grow_refl]].
  destruct (p <=? now)%Z; [|split; [apply outs_le_refl|apply pits_grow_refl]].
  destruct (PQueue.Pop _) as [[e q]|]; [|split; [apply outs_le_refl|apply pits_grow_refl]].
  set (T1 := upd_pit e (with_queueIndex (-1)) (set_queue q T)).
  assert (H1 : outs_le T T1) by (by apply (upd_pit_outs (set_queue q T))).
  assert (G1 : pits_grow T T1) by apply (upd_pit_grow (set_queue q T)).
  destruct (IH (RemoveInterest e T1).1 (match pits T1 !! e with Some p => cb p s | None => s end)) as [H2 G2].
  split.
  - eapply outs_le_trans; [exact H1|]. intros x p' f r Hp Hr. destruct (H2 x p' f r Hp Hr) as (p0 & Hp0 & Hr0).
    rewrite RemoveInterest_pits in Hp0. by exists p0.
  - intros x Hx. apply G2. rewrite RemoveInterest_pits. by apply G1.
Qed.

Section inv.
Context `{EncLaws}.
Context (config : Config).

Definition cap : nat := Z.to_nat (csCapacity config).

(** *** The invariant *)

(** The PIT-CS was used through its operations, its Content Store points to
    Data and its out-records to Interests. *)
Record table_inv (ps : gmap nat PendingPacket) (T : PitCsTree) (os : list op) : Prop := {
  tinv_work : at_work cap os T;
  tinv_data : forall r, r ∈ spec_run cap os -> kind ps (r_data r) = Some false;
  tinv_outs : forall e p f r, pits T !! e = Some p -> outRecords p !! f = Some r ->
    kind ps (out_LatestEncInterest r) = Some true }.

Definition inv (w : World) : Prop := exists os, table_inv (packets w) (table_of w) os.

Lemma inv_kind ps ps' T os : (forall pp, kind ps pp <> None -> kind ps' pp = kind ps pp) ->
  table_inv ps T os -> table_inv ps' T os.
Proof.
  intros Hk [Hw Hd Ho]. split; [done| |].
  - intros r Hr. rewrite Hk; [by apply Hd|]. by rewrite (Hd r Hr).
  - intros e p f r Hp Hr. rewrite Hk; [by eapply Ho|]. by rewrite (Ho e p f r Hp Hr).
Qed.

Lemma run_snoc c os T o : run c T (os ++ [o]) = run c T os ≫= fun T' => exec c T' o.
Proof using Type.
  revert T. induction os as [|o' os IH]; intros T; cbn.
  - by destruct (exec c T o).
  - destruct (exec c T o') as [T1|]; [|done]. apply IH.
Qed.

(** One more operation. *)
Lemma table_step ps T os o T' : table_inv ps T os -> op_ok o -> exec (Z.of_nat cap) T o = Some T' ->
  (match o with OpInsertData pp _ _ => kind ps pp = Some false | _ => True end) ->
  (forall e p f r, pits T' !! e = Some p -> outRecords p !! f = Some r ->
    kind ps (out_LatestEncInterest r) = Some true) ->
  table_inv ps T' (os ++ [o]).
Proof.
  intros [[Ho Hrun] Hd Houts] Hop Hex Hk Houts'. split; [split| |done].
  - apply Forall_app. split; [done|]. by repeat constructor.
  - by rewrite run_snoc, Hrun.
  - unfold spec_run. rewrite fold_left_app. cbn [fold_left]. change (fold_left (spec_exec cap) os []) with (spec_run cap os).
    intros r Hr. destruct o; cbn [spec_exec] in Hr; try by apply Hd.
    + unfold spec_insert in Hr. case_decide.
      * unfold without in Hr. apply elem_of_app in Hr as [[_ Hr]%list_elem_of_filter| ->%list_elem_of_singleton]; [by apply Hd|done].
      * apply list_elem_of_lookup in Hr as [k Hr]. rewrite lookup_drop in Hr. apply list_elem_of_lookup_2 in Hr.
        apply elem_of_app in Hr as [Hr| ->%list_elem_of_singleton]; [by apply Hd|done].
    + destruct (CanBePrefixV i); [by apply Hd|]. destruct (list_find _ _) as [[k r']|] eqn:E; [|by apply Hd].
      apply list_find_Some in E as (Hk' & _). apply list_elem_of_lookup_2 in Hk'. unfold spec_use, without in Hr.
      apply elem_of_app in Hr as [[_ Hr]%list_elem_of_filter| ->%list_elem_of_singleton]; by apply Hd.
Qed.

Lemma table_step_le ps T os o T' : table_inv ps T os -> op_ok o -> exec (Z.of_nat cap) T o = Some T' ->
  (match o with OpInsertData pp _ _ => kind ps pp = Some false | _ => True end) ->
  outs_le T T' -> table_inv ps T' (os ++ [o]).
Proof.
  intros HI Hop Hex Hk Hle. eapply table_step; [done..|]. intros e p f r Hp Hr.
  destruct (Hle e p f r Hp Hr) as (p0 & Hp0 & Hr0). by eapply (tinv_outs _ _ _ HI).
Qed.

(** *** Before and after *)

(** [P] is what may be sent. *)
Record good (P : send -> Prop) (w w' : World) : Prop := {
  good_inv : inv w';
  good_contents : forall pp, contents_of (packets w') pp = contents_of (packets w) pp;
  good_pits : pits_grow (table_of w) (table_of w');
  good_sent : exists l, sent w' = sent w ++ l /\ Forall P l }.

Lemma good_refl P w : inv w -> good P w w.
Proof. intros HI. split; [done|done|apply pits_grow_refl|]. exists []. by rewrite app_nil_r. Qed.

Lemma good_trans P w1 w2 w3 : good P w1 w2 -> good P w2 w3 -> good P w1 w3.
Proof.
  intros [I1 C1 G1 (l1 & S1 & F1)] [I2 C2 G2 (l2 & S2 & F2)]. split; [done| |by eapply pits_grow_trans|].
  - intros pp. by rewrite C2.
  - exists (l1 ++ l2). rewrite S2, S1, app_assoc. split; [done|]. by apply Forall_app.
Qed.

Lemma good_weaken (P Q : send -> Prop) w w' : (forall s, P s -> Q s) -> good P w w' -> good Q w w'.
Proof. intros HPQ [I C G (l & S & F)]. split; [done..|]. exists l. split; [done|]. by eapply Forall_impl. Qed.

(** A table operation. *)
Lemma good_table P w o T' : inv w -> op_ok o -> exec (Z.of_nat cap) (table_of w) o = Some T' ->
  (match o with OpInsertData pp _ _ => kind (packets w) pp = Some false | _ => True end) ->
  outs_le (table_of w) T' -> pits_grow (table_of w) T' -> good P w (set_pitCS T' w).
Proof.
  intros [os HI] Hop Hex Hk Hle Hg. split; [|done|try apply pits_grow_refl; done|exists []; by rewrite app_nil_r].
  exists (os ++ [o]). by eapply table_step_le.
Qed.

(** Changes of the mutable parts of an entry that are table operations. *)
Lemma good_on_pit P w e g o : inv w -> op_ok o -> exec (Z.of_nat cap) (table_of w) o = Some (upd_pit e g (table_of w)) ->
  (match o with OpInsertData _ _ _ => False | _ => True end) ->
  (forall p, outRecords (g p) ⊆ outRecords p) -> good P w (on_pit e g w).
Proof.
  intros HI Hop Hex Hk Hg. eapply good_table; [done|done|done| |by apply upd_pit_outs|apply upd_pit_grow]. by destruct o.
Qed.

(** Counters and the dead nonce list are not constrained. *)
Lemma good_count P w a b c d x y : inv w -> good P w (count a b c d x y w).
Proof. intros HI. split; [done|done|apply pits_grow_refl|exists []; by rewrite app_nil_r]. Qed.

Lemma good_dnl P w d : inv w -> good P w (set_dnl d w).
Proof. intros HI. split; [done|done|apply pits_grow_refl|exists []; by rewrite app_nil_r]. Qed.

(** Changes of a packet that keep what it carries. *)
Lemma upd_packet_contents ps pp g : (forall p, Enc (g p) = Enc p) ->
  forall pp', contents_of (alter g pp ps) pp' = contents_of ps pp'.
Proof using Type.
  intros Hg pp'. unfold contents_of. destruct (decide (pp = pp')) as [->|].
  - rewrite lookup_alter_eq. destruct (ps !! pp') as [p|]; cbn; [by rewrite Hg|done].
  - by rewrite lookup_alter_ne.
Qed.

Lemma good_packet P w pp g : inv w -> (forall p, Enc (g p) = Enc p) -> good P w (upd_packet pp g w).
Proof.
  intros [os HI] Hg. pose proof (upd_packet_contents (packets w) pp g Hg) as Hc.
  split; [|done|try apply pits_grow_refl; done|exists []; by rewrite app_nil_r].
  exists os. eapply inv_kind; [|exact HI]. intros pp' _. by apply contents_kind.
Qed.

Lemma good_send (P : send -> Prop) w face pp p : inv w -> packets w !! pp = Some p -> P (mkSend face pp p) ->
  exists w', SendPacket face pp w = Ok w' /\ good P w w' /\ sent w' = sent w ++ [mkSend face pp p].
Proof.
  intros HI Hp HP. unfold SendPacket, packet. rewrite Hp. cbn [outcome_bind]. eexists. split; [done|].
  split; [|done]. split; [done|done|apply pits_grow_refl|]. eexists. split; [done|]. by repeat constructor.
Qed.

End inv.

Arguments good_trans {_ _ _} P w1 w2 w3 _ _.
Arguments good_refl {_ _ _} P w _.
Arguments good_inv {_ _ _ _ _ _} _.
