(* ===== verification/FwRun.v ===== *)
(** * The pipelines at work

    The pipelines never fail on well-formed packets, keep the thread's
    invariant, and send what they should: Interests to usable next hops, Data
    to the downstreams of the pending Interests. *)
From S2P Require Import Prelude.
From S2P Require Import Enc.
From S2P Require Import FibSpec.
From S2P Require DeadNonce.
From S2P Require Import Packet.
From S2P Require Import PitCs.
From S2P Require Import PitTree.
From S2P Require Import Pit.
From S2P Require Import ContentStore.
From S2P Require Import PitCsRun.
From S2P Require Import Fw.
From S2P Require Import FwInv.

Section run.
Context `{EncLaws} {F : Type} `{FibStrategy F}.
Context (config : Config) (faces : gmap Z Face) (regions : list Name) (fib : F) (strategies : gmap Z Strategy).
Context (children_order : nat -> list nat -> list nat) (face_order : list Z -> list Z)
        (sortSlice : list FibNextHopEntry -> list FibNextHopEntry).

(** ** What may be sent *)

(** A next hop an Interest may take. *)
Definition usable_nexthop (i : Interest) (inFace nexthop : Z) : bool :=
  match faces !! nexthop with
  | None => false
  | Some f => bool_decide ((FaceID f <> inFace \/ linkType f = AdHoc) /\ (HopLimitV i = Some 0%Z -> face_scope f = Local))
  end.

(** A face that Data may go to. *)
Definition deliverable (d : Data) (nexthop : Z) : bool :=
  match faces !! nexthop with
  | None => false
  | Some f => bool_decide (face_scope f = NonLocal -> is_localhost (DataNameV d) = false)
  end.

Definition interest_send (inFace : Z) (s : send) : Prop :=
  exists i, Enc (send_packet s) = EncInterest i /\ usable_nexthop i inFace (send_face s) = true.
Definition data_send (s : send) : Prop :=
  exists d, Enc (send_packet s) = EncData d /\ deliverable d (send_face s) = true.

(** *** Outgoing packets *)

Lemma contents_packet w pp c : contents_of (packets w) pp = Some c ->
  exists p, packets w !! pp = Some p /\ Enc p = c.
Proof using Type. unfold contents_of. intros (p & Hp & ->)%fmap_Some. by exists p. Qed.

Lemma interest_of_contents w pp i : contents_of (packets w) pp = Some (EncInterest i) -> interest_of w pp = Ok i.
Proof using Type.
  intros (p & Hp & He)%contents_packet. unfold interest_of, packet. rewrite Hp. cbn [outcome_bind]. by rewrite He.
Qed.

Lemma data_pkt_contents w pp d : contents_of (packets w) pp = Some (EncData d) -> data_pkt w pp = Ok d.
Proof using Type.
  intros (p & Hp & He)%contents_packet. unfold data_pkt, packet. rewrite Hp. cbn [outcome_bind]. by rewrite He.
Qed.

Lemma contents_kind_of ps pp c : contents_of ps pp = Some c ->
  kind ps pp = Some (match c with EncInterest _ => true | EncData _ => false end).
Proof using Type. unfold contents_of, kind. intros (p & -> & ->)%fmap_Some. done. Qed.

Lemma packet_alter w pp g p : packets w !! pp = Some p -> packets (upd_packet pp g w) !! pp = Some (g p).
Proof using Type. intros Hp. cbn. by rewrite lookup_alter_eq, Hp. Qed.

Lemma interest_not_usable i inFace nexthop f : faces !! nexthop = Some f ->
  usable_nexthop i inFace nexthop =
    negb ((FaceID f =? inFace)%Z && bool_decide (linkType f <> AdHoc)) &&
    negb (bool_decide (HopLimitV i = Some 0%Z) && bool_decide (face_scope f = NonLocal)).
Proof using Type.
  intros Hf. unfold usable_nexthop. rewrite Hf. apply eq_true_iff_eq.
  rewrite bool_decide_eq_true, andb_true_iff, !negb_true_iff, !andb_false_iff, Z.eqb_neq, !bool_decide_eq_false.
  destruct (decide (linkType f = AdHoc)), (decide (HopLimitV i = Some 0%Z)), (face_scope f); naive_solver.
Qed.

Lemma out_record_good (P : send -> Prop) now pp e nonce nexthop w : inv config w -> kind (packets w) pp = Some true ->
  good config P w (on_pit e (InsertOutRecord pp nonce nexthop now) w).
Proof.
  intros [os HI] Hk. split; [|done|apply upd_pit_grow|exists []; by rewrite app_nil_r].
  exists (os ++ [OpInsertOutRecord e pp nonce nexthop now]).
  eapply table_step; [exact HI|done|done|done|]. intros e' p' f r Hp Hr. cbn in Hp.
  destruct (decide (e = e')) as [->|].
  - rewrite lookup_alter_eq in Hp. destruct (pits (table_of w) !! e') as [p|] eqn:E; [|done]. injection Hp as <-.
    unfold InsertOutRecord in Hr. destruct (outRecords p !! nexthop) as [r0|] eqn:E0; cbn in Hr;
      apply lookup_insert_Some in Hr as [[<- <-]|[_ Hr]]; try done; by eapply (tinv_outs _ _ _ _ HI).
  - rewrite lookup_alter_ne in Hp by done. by eapply (tinv_outs _ _ _ _ HI).
Qed.

Lemma processOutgoingInterest_good now pp e nexthop inFace w i nonce :
  inv config w -> contents_of (packets w) pp = Some (EncInterest i) -> NonceV i = Some nonce ->
  is_Some (pits (table_of w) !! e) ->
  exists w' l, processOutgoingInterest faces now pp e nexthop inFace w = Ok (w', usable_nexthop i inFace nexthop) /\
    good config (interest_send inFace) w w' /\ sent w' = sent w ++ l /\
    send_face <$> l = (if usable_nexthop i inFace nexthop then [nexthop] else []).
Proof.
  intros HI Hc Hn [p Hp]. unfold processOutgoingInterest.
  destruct (faces !! nexthop) as [f|] eqn:Ef.
  2:{ exists w, []. unfold usable_nexthop. rewrite Ef, app_nil_r. split_and!; [done|by apply good_refl|done..]. }
  pose proof (interest_not_usable i inFace nexthop f Ef) as Hus. rewrite (interest_of_contents w pp i Hc).
  cbn [outcome_bind]. destruct ((FaceID f =? inFace)%Z && bool_decide (linkType f <> AdHoc)); cbn [negb andb] in Hus.
  { exists w, []. rewrite Hus, app_nil_r. split_and!; [done|by apply good_refl|done..]. }
  destruct (bool_decide (HopLimitV i = Some 0%Z) && bool_decide (face_scope f = NonLocal)); cbn [negb] in Hus.
  { exists w, []. rewrite Hus, app_nil_r. split_and!; [done|by apply good_refl|done..]. }
  rewrite Hn. unfold pit_entry_of. rewrite Hp. cbn [outcome_bind].
  pose proof (out_record_good (interest_send inFace) now pp e nonce nexthop w HI (contents_kind_of _ _ _ Hc)) as G1.
  set (w0 := on_pit e _ w) in *. pose proof (good_count config (interest_send inFace) w0 0 0 1 0 0 0 (good_inv G1)) as G2.
  set (w1 := count 0 0 1 0 0 0 w0) in *. set (g := fun q => set_PitToken _ _).
  pose proof (good_packet config (interest_send inFace) w1 pp g (good_inv G2) ltac:(done)) as G3.
  destruct (contents_packet w pp _ Hc) as (q & Hq & He).
  pose proof (packet_alter w1 pp g q Hq) as Hq'.
  destruct (good_send config (interest_send inFace) (upd_packet pp g w1) nexthop pp (g q) (good_inv G3) Hq') as (w' & E & G4 & S).
  { exists i. by split. }
  rewrite E. cbn [outcome_bind]. exists w', [mkSend nexthop pp (g q)]. rewrite Hus. split_and!; [done| |done|done].
  by eapply good_trans, good_trans, good_trans.
Qed.

(** The data pipeline's step: the packet reaches the face if it may. *)
Lemma processOutgoingData_good pp nexthop tok inFace w d p :
  inv config w -> packets w !! pp = Some p -> Enc p = EncData d ->
  exists w', processOutgoingData faces pp nexthop tok inFace w = Ok w' /\ good config data_send w w' /\
    table_of w' = table_of w /\ deadNonceList (thread w') = deadNonceList (thread w) /\
    exists p', packets w' !! pp = Some p' /\ Enc p' = EncData d /\
    if deliverable d nexthop then
      sent w' = sent w ++ [mkSend nexthop pp p'] /\ PitToken p' = (match tok with [] => PitToken p | _ => tok end)
    else w' = w.
Proof.
  clear children_order face_order sortSlice.
  intros HI Hp He. assert (Hc : contents_of (packets w) pp = Some (EncData d)) by (unfold contents_of; by rewrite Hp; cbn; rewrite He).
  unfold processOutgoingData, deliverable. destruct (faces !! nexthop) as [f|] eqn:Ef.
  2:{ exists w. split_and!; [done|by apply good_refl|done|done|by exists p]. }
  set (viol := match face_scope f with NonLocal => _ | Local => _ end).
  assert (Hv : viol = Ok (negb (bool_decide (face_scope f = NonLocal -> is_localhost (DataNameV d) = false)))).
  { unfold viol. rewrite (data_pkt_contents w pp d Hc). destruct (face_scope f); cbn [outcome_bind].
    - by rewrite bool_decide_true.
    - f_equal. destruct (is_localhost (DataNameV d)); [by rewrite bool_decide_false by naive_solver|by rewrite bool_decide_true]. }
  assert (Hdel : deliverable d nexthop = bool_decide (face_scope f = NonLocal -> is_localhost (DataNameV d) = false))
    by (unfold deliverable; by rewrite Ef).
  rewrite Hv. cbn [outcome_bind]. destruct (bool_decide _); cbn [negb].
  2:{ exists w. split_and!; [done|by apply good_refl|done|done|by exists p]. }
  pose proof (good_count config data_send w 0 0 0 1 1 0 HI) as G1. set (w1 := count 0 0 0 1 1 0 w) in *.
  set (w2 := if 0 <? length tok then upd_packet pp (set_PitToken tok) w1 else w1).
  assert (H2 : good config data_send w1 w2 /\ table_of w2 = table_of w1 /\ deadNonceList (thread w2) = deadNonceList (thread w1) /\
    sent w2 = sent w1 /\
    exists p2, packets w2 !! pp = Some p2 /\ Enc p2 = EncData d /\ PitToken p2 = match tok with [] => PitToken p | _ => tok end).
  { unfold w2. destruct tok as [|b tok]; cbn [length Nat.ltb Nat.leb].
    - split_and!; [by apply good_refl, G1|done..|by exists p].
    - split_and!; [apply good_packet; [apply G1|done]|done..|]. eexists. by rewrite (packet_alter w1 pp _ p Hp). }
  clearbody w2. destruct H2 as (G2 & T2 & D2 & S2 & p2 & Hp2 & He2 & Ht2).
  pose proof (good_packet config data_send w2 pp (set_IncomingFaceID (Some inFace)) (good_inv G2) ltac:(done)) as G3.
  pose proof (packet_alter w2 pp (set_IncomingFaceID (Some inFace)) p2 Hp2) as Hp3.
  destruct (good_send config data_send _ nexthop pp _ (good_inv G3) Hp3) as (w' & E & G4 & S).
  { exists d. split; [done|]. cbn. rewrite Hdel. done. }
  exists w'. split; [done|]. split; [by eapply good_trans, good_trans, good_trans|].
  unfold SendPacket, packet in E. rewrite Hp3 in E. cbn [outcome_bind] in E. injection E as <-. cbn [packets thread sent] in *.
  split_and!; [exact T2|exact D2|]. exists (set_IncomingFaceID (Some inFace) p2).
  split_and!; [exact Hp3|done| |done]. cbn. by rewrite S2.
Qed.

(** *** The strategies on Interests *)

Abbreviation usable i inFace := (fun nh => usable_nexthop i inFace (Nexthop nh)).

Lemma first_usable_good now pp e inFace i nonce nhs : forall w,
  inv config w -> contents_of (packets w) pp = Some (EncInterest i) -> NonceV i = Some nonce ->
  is_Some (pits (table_of w) !! e) ->
  exists w' l, first_usable faces now pp e inFace nhs w = Ok w' /\ good config (interest_send inFace) w w' /\
    sent w' = sent w ++ l /\
    send_face <$> l = match List.find (usable i inFace) nhs with Some nh => [Nexthop nh] | None => [] end.
Proof.
  induction nhs as [|nh nhs IH]; intros w HI Hc Hn He; cbn [first_usable List.find].
  { exists w, []. rewrite app_nil_r. split_and!; [done|by apply good_refl|done..]. }
  destruct (processOutgoingInterest_good now pp e (Nexthop nh) inFace w i nonce HI Hc Hn He) as (w1 & l1 & -> & G1 & S1 & F1).
  cbn [outcome_bind]. destruct (usable_nexthop i inFace (Nexthop nh)).
  - by exists w1, l1.
  - destruct (IH w1) as (w2 & l2 & E & G2 & S2 & F2).
    { apply G1. } { by rewrite (good_contents _ _ _ _ G1). } { done. } { by apply (good_pits _ _ _ _ G1). }
    exists w2, (l1 ++ l2). rewrite E. split_and!; [done|by eapply good_trans|by rewrite S2, S1, app_assoc|].
    by rewrite fmap_app, F1, F2.
Qed.

Lemma all_nexthops_good now pp e inFace i nonce nhs : forall w,
  inv config w -> contents_of (packets w) pp = Some (EncInterest i) -> NonceV i = Some nonce ->
  is_Some (pits (table_of w) !! e) ->
  exists w' l, all_nexthops faces now pp e inFace nhs w = Ok w' /\ good config (interest_send inFace) w w' /\
    sent w' = sent w ++ l /\ send_face <$> l = Nexthop <$> List.filter (usable i inFace) nhs.
Proof.
  induction nhs as [|nh nhs IH]; intros w HI Hc Hn He; cbn [all_nexthops List.filter].
  { exists w, []. rewrite app_nil_r. split_and!; [done|by apply good_refl|done..]. }
  destruct (processOutgoingInterest_good now pp e (Nexthop nh) inFace w i nonce HI Hc Hn He) as (w1 & l1 & -> & G1 & S1 & F1).
  cbn [outcome_bind]. destruct (IH w1) as (w2 & l2 & E & G2 & S2 & F2).
  { apply G1. } { by rewrite (good_contents _ _ _ _ G1). } { done. } { by apply (good_pits _ _ _ _ G1). }
  exists w2, (l1 ++ l2). rewrite E. split_and!; [done|by eapply good_trans|by rewrite S2, S1, app_assoc|].
  rewrite fmap_app, F1, F2. by destruct (usable_nexthop i inFace (Nexthop nh)).
Qed.

(** Where a strategy sends an Interest. *)
Definition chosen (s : Strategy) (i : Interest) (inFace : Z) (nhs : list FibNextHopEntry) : list Z :=
  match s with
  | BestRoute => match List.find (usable i inFace) (sortSlice nhs) with Some nh => [Nexthop nh] | None => [] end
  | Multicast => Nexthop <$> List.filter (usable i inFace) nhs
  end.

Lemma AfterReceiveInterest_good s now pp e inFace i nonce nhs w :
  inv config w -> contents_of (packets w) pp = Some (EncInterest i) -> NonceV i = Some nonce ->
  is_Some (pits (table_of w) !! e) ->
  exists w' l, AfterReceiveInterest faces sortSlice s now pp e inFace nhs w = Ok w' /\
    good config (interest_send inFace) w w' /\ sent w' = sent w ++ l /\ send_face <$> l = chosen s i inFace nhs.
Proof. destruct s; [apply first_usable_good|apply all_nexthops_good]. Qed.

(** *** Data to downstreams *)

Lemma on_pit_lookup e g w p : pits (table_of w) !! e = Some p -> pits (table_of (on_pit e g w)) !! e = Some (g p).
Proof using Type. intros Hp. cbn. by rewrite lookup_alter_eq, Hp. Qed.

Lemma delete_record_good (P : send -> Prop) e id w : inv config w ->
  good config P w (on_pit e (fun p => with_inRecords (delete id (inRecords p)) p) w).
Proof. intros HI. by apply (good_on_pit config P w e _ (OpDeleteInRecord e id)). Qed.

(** A packet that went to a downstream, with the token of its in-record. *)
Definition delivered (pp : nat) (d : Data) (records : gmap Z PitInRecord) (id : Z) (s : send) : Prop :=
  send_face s = id /\ send_ptr s = pp /\ Enc (send_packet s) = EncData d /\
  forall r, records !! id = Some r -> in_PitToken r <> [] -> PitToken (send_packet s) = in_PitToken r.

Lemma SendData_good pp e id inFace w d p :
  inv config w -> contents_of (packets w) pp = Some (EncData d) -> pits (table_of w) !! e = Some p ->
  exists w' l, SendData faces pp e id inFace w = Ok w' /\ good config data_send w w' /\
    pits (table_of w') !! e = Some (with_inRecords (delete id (inRecords p)) p) /\
    deadNonceList (thread w') = deadNonceList (thread w) /\ sent w' = sent w ++ l /\
    Forall2 (delivered pp d (inRecords p)) (if deliverable d id then [id] else []) l.
Proof.
  clear children_order face_order sortSlice.
  intros HI Hc Hp. destruct (contents_packet w pp _ Hc) as (q & Hq & He).
  unfold SendData, pit_entry_of. rewrite Hp. cbn [outcome_bind].
  set (tok := match inRecords p !! id with Some r => in_PitToken r | None => [] end).
  set (w1 := match inRecords p !! id with Some r => on_pit e (fun p => with_inRecords (delete id (inRecords p)) p) w | None => w end).
  assert (Hw : (match inRecords p !! id with
                | Some r => processOutgoingData faces pp id (in_PitToken r) inFace (on_pit e (fun p => with_inRecords (delete id (inRecords p)) p) w)
                | None => processOutgoingData faces pp id [] inFace w
                end) = processOutgoingData faces pp id tok inFace w1)
    by (unfold tok, w1; by destruct (inRecords p !! id)).
  rewrite Hw. assert (G1 : good config data_send w w1).
  { unfold w1. destruct (inRecords p !! id); [by apply delete_record_good|by apply good_refl]. }
  assert (Hp1 : pits (table_of w1) !! e = Some (with_inRecords (delete id (inRecords p)) p)).
  { unfold w1. destruct (inRecords p !! id) eqn:E; [by apply (on_pit_lookup e (fun p => with_inRecords (delete id (inRecords p)) p) w p Hp)|].
    rewrite delete_id by done. rewrite Hp. by destruct p. }
  assert (Hq1 : packets w1 !! pp = Some q /\ deadNonceList (thread w1) = deadNonceList (thread w) /\ sent w1 = sent w)
    by (unfold w1; by destruct (inRecords p !! id)).
  destruct Hq1 as (Hq1 & Hd1 & Hs1).
  destruct (processOutgoingData_good pp id tok inFace w1 d q (good_inv G1) Hq1 He) as (w' & E & G2 & Ht & Hd & p' & Hp' & He' & Hdel).
  destruct (deliverable d id).
  - destruct Hdel as [S T]. exists w', [mkSend id pp p']. split_and!; [done|by eapply good_trans|by rewrite Ht|by rewrite Hd|by rewrite S, Hs1|].
    constructor; [|done]. split_and!; [done..|]. intros r Hr Hne. cbn. rewrite T. unfold tok. rewrite Hr. by destruct (in_PitToken r).
  - subst w'. exists w1, []. rewrite app_nil_r. split_and!; [done|by eapply good_trans|done..].
Qed.

Lemma send_data_loop_good pp e inFace d ids : forall w p R,
  inv config w -> contents_of (packets w) pp = Some (EncData d) -> pits (table_of w) !! e = Some p ->
  NoDup ids -> (forall id, id ∈ ids -> inRecords p !! id = R !! id) ->
  exists w' l, send_data_loop faces pp e inFace ids w = Ok w' /\ good config data_send w w' /\
    pits (table_of w') !! e = Some (with_inRecords (foldr delete (inRecords p) (rev ids)) p) /\
    deadNonceList (thread w') = deadNonceList (thread w) /\ sent w' = sent w ++ l /\
    Forall2 (delivered pp d R) (List.filter (deliverable d) ids) l.
Proof.
  induction ids as [|id ids IH]; intros w p R HI Hc Hp Hnd HR; cbn [send_data_loop rev List.filter].
  { exists w, []. rewrite app_nil_r. split_and!; [done|by apply good_refl| |done..]. cbn. rewrite Hp. by destruct p. }
  apply NoDup_cons in Hnd as [Hid Hnd].
  destruct (SendData_good pp e id inFace w d p HI Hc Hp) as (w1 & l1 & -> & G1 & Hp1 & Hd1 & S1 & F1). cbn [outcome_bind].
  destruct (IH w1 (with_inRecords (delete id (inRecords p)) p) R (good_inv G1)) as (w2 & l2 & E & G2 & Hp2 & Hd2 & S2 & F2).
  { by rewrite (good_contents _ _ _ _ G1). } { done. } { done. }
  { intros id' Hid'. cbn. rewrite lookup_delete_ne by (intros ->; done). apply HR. by right. }
  exists w2, (l1 ++ l2). rewrite E. split_and!; [done|by eapply good_trans| |by rewrite Hd2|by rewrite S2, S1, app_assoc|].
  - rewrite Hp2. cbn. f_equal. by rewrite foldr_app.
  - replace (if deliverable d id then id :: List.filter (deliverable d) ids else List.filter (deliverable d) ids)
      with ((if deliverable d id then [id] else []) ++ List.filter (deliverable d) ids) by (by destruct (deliverable d id)).
    apply Forall2_app; [|done]. destruct (deliverable d id); [|by apply Forall2_nil_inv_l in F1; subst].
    apply Forall2_cons_inv_l in F1 as (s & l' & (D1 & D2 & D3 & D4) & Hl' & ->). apply Forall2_nil_inv_l in Hl' as ->.
    constructor; [|done]. split_and!; [done..|]. rewrite <- HR by (by left). exact D4.
Qed.

Context (Hface : forall l, face_order l ≡ₚ l).

Lemma face_ids_NoDup {A} (m : gmap Z A) : NoDup (face_order (face_ids m)).
Proof. rewrite Hface. apply NoDup_fst_map_to_list. Qed.

Lemma face_ids_elem {A} (m : gmap Z A) id : id ∈ face_order (face_ids m) <-> is_Some (m !! id).
Proof.
  rewrite Hface. unfold face_ids. rewrite list_elem_of_fmap. split.
  - intros ([id' r] & -> & Hin). apply elem_of_map_to_list in Hin. by eexists.
  - intros [r Hr]. exists (id, r). split; [done|]. by apply elem_of_map_to_list.
Qed.

Lemma foldr_delete_all {A} (m : gmap Z A) ids : (forall id, is_Some (m !! id) -> id ∈ ids) -> foldr delete m ids = ∅.
Proof using Type.
  intros Hall. apply map_empty. intros id. destruct (decide (id ∈ ids)) as [Hin|Hnin].
  - by rewrite lookup_foldr_delete.
  - rewrite lookup_foldr_delete_not_elem_of by done. destruct (m !! id) eqn:E; [|done].
    exfalso. apply Hnin, Hall. by eexists.
Qed.

Lemma AfterReceiveData_good s pp e inFace w d p :
  inv config w -> contents_of (packets w) pp = Some (EncData d) -> pits (table_of w) !! e = Some p ->
  exists w' l, AfterReceiveData faces face_order s pp e inFace w = Ok w' /\ good config data_send w w' /\
    pits (table_of w') !! e = Some (ClearInRecords p) /\
    deadNonceList (thread w') = deadNonceList (thread w) /\ sent w' = sent w ++ l /\
    Forall2 (delivered pp d (inRecords p)) (List.filter (deliverable d) (face_order (face_ids (inRecords p)))) l.
Proof.
  intros HI Hc Hp.
  destruct (send_data_loop_good pp e inFace d (face_order (face_ids (inRecords p))) w p (inRecords p) HI Hc Hp
              (face_ids_NoDup _) ltac:(done)) as (w' & l & E & G & Hp' & Hd & S & D).
  rewrite foldr_delete_all in Hp' by (intros id Hid; rewrite <- Permutation_rev; by apply face_ids_elem).
  exists w', l. split_and!; try done. unfold AfterReceiveData, pit_entry_of. rewrite Hp. cbn [outcome_bind].
  destruct s; [done|]. rewrite (data_pkt_contents w pp d Hc). done.
Qed.

(** *** Incoming Interests *)

Context (Hcap : (0 <= csCapacity config)%Z).
Context (Hstrategies : forall n, is_Some (FindStrategy fib strategies n)).

Lemma find_order_irrelevant order i now T :
  (FindMatchingDataFromCS order i now T).1 = (FindMatchingDataFromCS source_order i now T).1.
Proof using Type.
  unfold FindMatchingDataFromCS. destruct (findExactMatchEntryEnc _ _) as [node|]; [|done].
  by destruct (negb (CanBePrefixV i)).
Qed.

(** What an incoming Interest may cause to be sent. *)
Definition interest_reaction (inFace : Z) (pp : nat) (nextHop : option Z) (s : send) : Prop :=
  interest_send inFace s \/ data_send s \/ (nextHop = Some (send_face s) /\ send_ptr s = pp).

Context (Hchildren : forall i ks, children_order i ks ≡ₚ ks).

(** The Content Store lookup of a pipeline. *)
Lemma cs_lookup_good P i now w : inv config w -> universe (NameV i) ->
  let '(T1, res) := FindMatchingDataFromCS children_order i now (table_of w) in
  good config P w (set_pitCS T1 w) /\ pits T1 = pits (table_of w) /\
  match res with
  | Some c => exists entry d, css T1 !! c = Some entry /\ contents_of (packets w) (encData entry) = Some (EncData d)
  | None => True
  end.
Proof.
  intros HI Hu. pose proof HI as [os HT]. pose proof HT as [Hwork Hdata Houts].
  destruct (at_work_ok _ _ _ Hwork) as [Hpit Hcs Hq].
  assert (Hkind : forall c r T', returns T' c r -> r ∈ spec_run (cap config) os ->
    exists entry d, css T' !! c = Some entry /\ contents_of (packets w) (encData entry) = Some (EncData d)).
  { intros c r T' [j Hx] Hr. specialize (Hdata r Hr). unfold kind in Hdata. apply fmap_Some in Hdata as (p & Hp & Hk).
    destruct (Enc p) as [|d] eqn:Ee; [done|]. eexists _, d. split; [exact Hx|]. unfold contents_of. cbn. rewrite Hp. cbn. by rewrite Ee. }
  assert (HG : forall T1, T1 = (FindMatchingDataFromCS children_order i now (table_of w)).1 -> pits T1 = pits (table_of w) ->
    good config P w (set_pitCS T1 w)).
  { intros T1 ET Ep. eapply (good_table config P w (OpFindMatchingDataFromCS i now)); [done|done| |done| |].
    - cbn [exec]. rewrite <- find_order_irrelevant with (order := children_order). by rewrite ET.
    - intros e p' f r Hp Hr. rewrite Ep in Hp. by exists p'.
    - intros e He. by rewrite Ep. }
  destruct (CanBePrefixV i) eqn:Ecp.
  - pose proof (find_prefix_spec children_order i now _ _ Hcs Hchildren Hu Ecp) as Hf.
    destruct (FindMatchingDataFromCS _ _ _ _) as [T1 res]. destruct Hf as [-> Hres].
    split_and!; [by apply HG|done|]. destruct res as [c|]; [|done]. destruct Hres as (r & (Hr & _) & Hret). by eapply Hkind.
  - pose proof (cs_find_exact_spec children_order i now _ _ Hcs Hu Ecp) as Hf.
    destruct (FindMatchingDataFromCS _ _ _ _) as [T1 res]. destruct Hf as (_ & Hp & _ & Hres).
    split_and!; [by apply HG|done|]. destruct res as [c|]; [|done]. destruct Hres as (r & Hr & _ & _ & Hret & _). by eapply Hkind.
Qed.

Lemma after_in_record_good now pp e inFace i nonce fhName pending nextHop w :
  inv config w -> contents_of (packets w) pp = Some (EncInterest i) -> NonceV i = Some nonce ->
  universe (NameV i) -> is_Some (pits (table_of w) !! e) ->
  exists w', after_in_record config faces fib strategies children_order sortSlice now pp e inFace i fhName pending nextHop w = Ok w' /\
    good config (interest_reaction inFace pp nextHop) w w'.
Proof.
  intros HI Hc Hn Hu He. unfold after_in_record. destruct (Hstrategies (NameV i)) as [s ->]. cbn [with_strategy].
  set (lookup := if negb pending && csServe config then _ else _).
  assert (HL : let '(T1, res) := lookup in
    good config (interest_reaction inFace pp nextHop) w (set_pitCS T1 w) /\ pits T1 = pits (table_of w) /\
    match res with
    | Some c => exists entry d, css T1 !! c = Some entry /\ contents_of (packets w) (encData entry) = Some (EncData d)
    | None => True
    end).
  { unfold lookup. destruct (negb pending && csServe config); [by apply cs_lookup_good|].
    split_and!; [|done|done]. by destruct w as [[] ? ?]; apply good_refl. }
  destruct lookup as [T1 res]. destruct HL as (G1 & Ep1 & Hres). destruct He as [p Hp].
  assert (Hp1 : pits (table_of (set_pitCS T1 w)) !! e = Some p) by (cbn; by rewrite Ep1).
  destruct res as [c|].
  - destruct Hres as (entry & d & -> & Hd).
    destruct (SendData_good (encData entry) e inFace 0 (set_pitCS T1 w) d p (good_inv G1) Hd Hp1) as (w' & l & E & G2 & _).
    exists w'. split; [exact E|]. eapply good_trans; [exact G1|]. eapply good_weaken; [|exact G2]. intros x Hx. right. by left.
  - assert (G2 : good config (interest_reaction inFace pp nextHop) (set_pitCS T1 w) (set_pitCS (UpdateExpirationTimer now e T1) (set_pitCS T1 w))).
    { destruct (timer_outs T1 e (fun p => SetExpirationTime (latest_expiration now p) p) ltac:(done)).
      by apply (good_table config _ (set_pitCS T1 w) (OpUpdateExpirationTimer e now) _ (good_inv G1)). }
    set (w2 := set_pitCS (UpdateExpirationTimer now e T1) _) in *.
    pose proof (good_trans _ _ _ _ G1 G2) as G. destruct nextHop as [nh|].
    + destruct (faces !! nh); [|by exists w2]. destruct (contents_packet w pp _ Hc) as (q & Hq & Heq).
      destruct (good_send config (interest_reaction inFace pp (Some nh)) w2 nh pp q (good_inv G) Hq) as (w' & E & G3 & _).
      { right. right. done. }
      exists w'. split; [exact E|]. by eapply good_trans.
    + destruct (AfterReceiveInterest_good s now pp e inFace i nonce
        (FindNextHopsEnc fib match fhName with Some fh => fh | None => NameV i end) w2 (good_inv G)) as (w' & l & E & G3 & _).
      { done. } { done. } { apply (good_pits _ _ _ _ G). by eexists. }
      exists w'. split; [exact E|]. eapply good_trans; [exact G|]. eapply good_weaken; [|exact G3]. intros x Hx. by left.
Qed.

Lemma InsertInterest_outs i nonce hint inFace draws T T' e dup : pit_ok T -> universe (NameV i) ->
  InsertInterest i nonce hint inFace draws T = Some (T', e, dup) ->
  outs_le T T' /\ pits_grow T T' /\ is_Some (pits T' !! e).
Proof using Type.
  intros Hok Hu. unfold InsertInterest. pose proof (find_or_create_spec T i hint draws Hok Hu) as Hf.
  destruct (find_or_create _ _ _ _) as [[T1 e1]|]; [|done]. destruct Hf as (_ & _ & [_ (p & Hp & _)] & _ & Hcase).
  assert (Hle : outs_le T T1 /\ pits_grow T T1).
  { destruct Hcase as [(_ & Ep & _)|(_ & Ee & (node & tok & _ & Ep) & _)].
    - split; [intros x p' f r Hx Hr; rewrite Ep in Hx; by exists p'|intros x Hx; by rewrite Ep].
    - split.
      + intros x p' f r Hx Hr. rewrite Ep in Hx. apply lookup_insert_Some in Hx as [[_ <-]|[_ Hx]]; [done|by exists p'].
      + intros x Hx. rewrite Ep. destruct (decide (x = e1)) as [->|]; [rewrite lookup_insert_eq; by eexists|by rewrite lookup_insert_ne]. }
  rewrite Hp. destruct Hle as [HL1 HL2]. destruct (duplicate_nonce _ _ _); intros [= <- <- <-].
  - split_and!; [done|done|by eexists].
  - split_and!; [|by eapply pits_grow_trans; [|apply upd_pit_grow]|cbn; rewrite lookup_alter_eq, Hp; by eexists].
    eapply outs_le_trans; [exact HL1|]. by apply upd_pit_outs.
Qed.

Lemma after_checks_good now draws pp inFace tok i nonce nextHop w :
  inv config w -> contents_of (packets w) pp = Some (EncInterest i) -> NonceV i = Some nonce -> universe (NameV i) ->
  match after_checks config faces regions fib strategies children_order sortSlice now draws pp inFace tok i nextHop w with
  | Some r => exists w', r = Ok w' /\ good config (interest_reaction inFace pp nextHop) w w'
  | None => forall t, t ∈ draws -> is_Some (pitTokenMap (table_of w) !! t)
  end.
Proof.
  intros HI Hc Hn Hu. unfold after_checks. rewrite Hn.
  destruct (DeadNonce.Find _ _ _); [exists w; split; [done|by apply good_refl]|].
  pose proof HI as [os HT]. destruct (at_work_ok _ _ _ (tinv_work _ _ _ _ HT)) as [Hpit Hcs Hq].
  set (hint := forwarding_hint regions i). pose proof (find_or_create_spec (table_of w) i hint draws Hpit Hu) as Hfc.
  destruct (InsertInterest i nonce hint inFace draws (table_of w)) as [[[T1 e] dup]|] eqn:EI.
  2:{ unfold InsertInterest in EI. destruct (find_or_create _ _ _ _) as [[T1 e]|]; [|by apply Hfc].
      destruct (pits T1 !! e); [destruct (duplicate_nonce _ _ _)|]; done. }
  destruct (InsertInterest_outs _ _ _ _ _ _ _ _ _ Hpit Hu EI) as (Hle & Hgr & [p Hp]).
  assert (G1 : good config (interest_reaction inFace pp nextHop) w (set_pitCS T1 w)).
  { apply (good_table config _ w (OpInsertInterest i nonce hint inFace draws)); try done. cbn [exec]. by rewrite EI. }
  destruct dup; [by exists (set_pitCS T1 w)|]. unfold pit_entry_of. cbn [pitCS thread set_pitCS set_thread].
  rewrite Hp. cbn [outcome_bind]. destruct (InsertInRecord pp nonce inFace tok now p) as [p' pending] eqn:ER.
  assert (Ealt : on_pit e (fun _ => p') (set_pitCS T1 w) =
                 on_pit e (fun q => (InsertInRecord pp nonce inFace tok now q).1) (set_pitCS T1 w)).
  { unfold on_pit, upd_pit. cbn [pitCS thread set_pitCS set_thread]. do 2 f_equal. apply alter_ext. intros q Hq'.
    assert (q = p) by congruence. subst q. by rewrite ER. }
  rewrite Ealt. assert (G2 : good config (interest_reaction inFace pp nextHop) (set_pitCS T1 w)
      (on_pit e (fun q => (InsertInRecord pp nonce inFace tok now q).1) (set_pitCS T1 w))).
  { apply (good_on_pit config _ _ _ _ (OpInsertInRecord e pp nonce inFace tok now)); try done; [apply G1|].
    intros q. unfold InsertInRecord. by destruct (inRecords q !! inFace). }
  set (w2 := on_pit e (fun q => (InsertInRecord pp nonce inFace tok now q).1) (set_pitCS T1 w)) in *.
  pose proof (good_trans _ _ _ _ G1 G2) as G.
  destruct (after_in_record_good now pp e inFace i nonce hint pending nextHop w2 (good_inv G)) as (w' & E & G3).
  { done. } { done. } { done. } { unfold w2. cbn. rewrite lookup_alter_eq, Hp. by eexists. }
  exists w'. split; [by rewrite <- E|]. by eapply good_trans.
Qed.

(** Packets keep their kind. *)
Record kept (P : send -> Prop) (w w' : World) : Prop := {
  kept_inv : inv config w';
  kept_kind : forall pp, kind (packets w') pp = kind (packets w) pp;
  kept_sent : exists l, sent w' = sent w ++ l /\ Forall P l }.

Lemma good_kept P w w' : good config P w w' -> kept P w w'.
Proof. intros [I C _ S]. split; [done| |done]. intros pp. by apply contents_kind. Qed.

Lemma kept_refl P w : inv config w -> kept P w w.
Proof. intros. by apply good_kept, good_refl. Qed.

Lemma kept_trans P w1 w2 w3 : kept P w1 w2 -> kept P w2 w3 -> kept P w1 w3.
Proof.
  intros [I1 K1 (l1 & S1 & F1)] [I2 K2 (l2 & S2 & F2)]. split; [done|intros pp; by rewrite K2|].
  exists (l1 ++ l2). rewrite S2, S1, app_assoc. split; [done|]. by apply Forall_app.
Qed.

Lemma decrement_kept P w pp p i0 : inv config w -> packets w !! pp = Some p -> Enc p = EncInterest i0 ->
  kept P w (upd_packet pp (set_Enc (EncInterest (decrement_hop_limit i0))) w).
Proof.
  intros [os HI] Hp He.
  assert (HK : forall q, kind (alter (set_Enc (EncInterest (decrement_hop_limit i0))) pp (packets w)) q = kind (packets w) q).
  { intros q. unfold kind. destruct (decide (pp = q)) as [->|];
      [rewrite lookup_alter_eq, Hp; cbn; by rewrite He|by rewrite lookup_alter_ne]. }
  split; [|done|exists []; by rewrite app_nil_r]. exists os. eapply inv_kind; [|exact HI]. intros q _. apply HK.
Qed.

(** A packet the Interest pipeline can work on. *)
Definition interest_packet (w : World) (pp : nat) : Prop :=
  exists p i, packets w !! pp = Some p /\ Enc p = EncInterest i /\ universe (NameV i) /\ NonceV i <> None.

(** What reacting to the packet may send. *)
Definition reaction (w : World) (pp : nat) (s : send) : Prop :=
  exists p id f, packets w !! pp = Some p /\ IncomingFaceID p = Some id /\ faces !! id = Some f /\
    interest_reaction (FaceID f) pp (NextHopFaceID p) s.

Lemma processIncomingInterest_good now draws pp w : inv config w -> interest_packet w pp ->
  match processIncomingInterest config faces regions fib strategies children_order sortSlice now draws pp w with
  | Some r => exists w', r = Ok w' /\ kept (reaction w pp) w w'
  | None => forall t, t ∈ draws -> is_Some (pitTokenMap (table_of w) !! t)
  end.
Proof.
  intros HI (p & i0 & Hp & He & Hu & Hn). unfold processIncomingInterest, packet. rewrite Hp.
  assert (Hsame : exists w', Ok w = Ok w' /\ kept (reaction w pp) w w') by (exists w; split; [done|by apply kept_refl]).
  destruct (IncomingFaceID p) as [id|] eqn:Eid; [|done]. destruct (faces !! id) as [f|] eqn:Ef; [|done].
  rewrite He. cbn [as_interest]. destruct (bool_decide (HopLimitV i0 = Some 0%Z)); [done|].
  pose proof (decrement_kept (reaction w pp) w pp p i0 HI Hp He) as K1.
  set (i := decrement_hop_limit i0) in *. set (w1 := upd_packet pp _ w) in *.
  destruct (bool_decide (face_scope f = NonLocal) && is_localhost (NameV i)); [by exists w1|].
  destruct (NonceV i0) as [nonce|] eqn:En; [|done].
  assert (Hi : NameV i = NameV i0 /\ NonceV i = Some nonce) by (unfold i, decrement_hop_limit; destruct (HopLimitV i0); by rewrite ?En).
  destruct Hi as [Ei1 Ei2]. pose proof (kept_inv _ _ _ K1) as HI1.
  pose proof (good_count config (reaction w pp) w1 1 0 0 0 0 0 HI1) as G2.
  pose proof (after_checks_good now draws pp (FaceID f) (PitToken p) i nonce (NextHopFaceID p) (count 1 0 0 0 0 0 w1) (good_inv G2)) as HC.
  specialize (HC ltac:(unfold contents_of; cbn; by rewrite lookup_alter_eq, Hp) Ei2 ltac:(by rewrite Ei1)).
  destruct (after_checks _ _ _ _ _ _ _ _ _ _ _ _ _ _ _) as [r|]; [|exact HC].
  destruct HC as (w' & -> & G3). exists w'. split; [done|].
  eapply kept_trans; [exact K1|]. eapply kept_trans; [by apply good_kept|]. apply good_kept.
  eapply good_weaken; [|exact G3]. intros s Hs. by exists p, id, f.
Qed.

(** *** Incoming Data *)

Lemma insert_nonces_good P now name records w : inv config w -> good config P w (insert_nonces config now name records w).
Proof. intros HI. by apply good_dnl. Qed.

Lemma expire_now_good P now e w : inv config w ->
  good config P w (set_pitCS (SetExpirationTimerToNow now e (table_of w)) w).
Proof.
  intros HI. destruct (timer_outs (table_of w) e (SetExpirationTime now) ltac:(done)).
  by apply (good_table config P w (OpSetExpirationTimerToNow e now)).
Qed.

(** Setting the timer of an entry: [t] is the new expiration time. *)
Lemma timer_entry e (t : nameTreePitEntry -> Z) T p : pits T !! e = Some p ->
  exists q, pits (updatePitExpiry e (upd_pit e (fun p => SetExpirationTime (t p) p) T)) !! e = Some q /\
    inRecords q = inRecords p /\ outRecords q = outRecords p /\ expirationTime q = t p /\ static q = static p.
Proof using Type.
  intros Hp. unfold updatePitExpiry.
  assert (E : pits (upd_pit e (fun p => SetExpirationTime (t p) p) T) !! e = Some (SetExpirationTime (t p) p))
    by (cbn; by rewrite lookup_alter_eq, Hp).
  rewrite E. destruct (_ <? 0)%Z.
  - destruct (PQueue.Push _ _ _) as [q ix]. cbn in *. rewrite lookup_alter_eq, E. by eexists.
  - cbn in *. by eexists.
Qed.

Lemma expire_now_entry now e w p : pits (table_of w) !! e = Some p ->
  exists q, pits (table_of (set_pitCS (SetExpirationTimerToNow now e (table_of w)) w)) !! e = Some q /\
    inRecords q = inRecords p /\ outRecords q = outRecords p /\ expirationTime q = now /\ static q = static p.
Proof. apply (timer_entry e (fun _ => now)). Qed.

(** The state of an entry after its Data. *)
Definition satisfied_entry (now : Z) (q : nameTreePitEntry) : Prop :=
  inRecords q = ∅ /\ outRecords q = ∅ /\ satisfied q = true /\ expirationTime q = now.

(** The nonces that become dead. *)
Definition dead_after (d : DeadNonce.DeadNonceList) (now : Z) (name : Name) (records : list PitOutRecord) : DeadNonce.DeadNonceList :=
  fold_left (fun d r => (DeadNonce.Insert (deadNonceListLifetime config) now d name (out_LatestEncNonce r)).1) records d.

Lemma satisfy_one_good now s pp e inFace w d p :
  inv config w -> contents_of (packets w) pp = Some (EncData d) -> pits (table_of w) !! e = Some p -> is_Some s ->
  exists w' l, satisfy_one config faces face_order now s pp e inFace w = Ok w' /\ good config data_send w w' /\
    (exists q, pits (table_of w') !! e = Some q /\ satisfied_entry now q) /\
    deadNonceList (thread w') = dead_after (deadNonceList (thread w)) now (DataNameV d) (out_records face_order p) /\
    sent w' = sent w ++ l /\
    Forall2 (delivered pp d (inRecords p)) (List.filter (deliverable d) (face_order (face_ids (inRecords p)))) l.
Proof.
  intros HI Hc Hp [s' ->]. unfold satisfy_one. cbn [with_strategy].
  pose proof (expire_now_good data_send now e w HI) as G1. destruct (expire_now_entry now e w p Hp) as (q & Hq & Hqi & Hqo & Hqe & Hqs).
  set (w1 := set_pitCS _ w) in *.
  destruct (AfterReceiveData_good s' pp e inFace w1 d q (good_inv G1)) as (w2 & l & -> & G2 & Hq2 & Hd2 & S2 & D2); [done|done|].
  cbn [outcome_bind]. assert (G3 : good config data_send w2 (on_pit e (SetSatisfied true) w2)).
  { by apply (good_on_pit config _ _ _ _ (OpSetSatisfied e true)); [apply G2|..]. }
  pose proof (on_pit_lookup e (SetSatisfied true) w2 _ Hq2) as Hq3. set (w3 := on_pit e (SetSatisfied true) w2) in *.
  unfold pit_entry_of. rewrite Hq3. cbn [outcome_bind].
  rewrite (data_pkt_contents w3 pp d) by (by rewrite (good_contents _ _ _ _ G3), (good_contents _ _ _ _ G2)).
  cbn [outcome_bind]. set (recs := out_records face_order _).
  assert (Er : recs = out_records face_order p) by (unfold recs, out_records; cbn; by rewrite Hqo).
  pose proof (insert_nonces_good data_send now (DataNameV d) recs w3 (good_inv G3)) as G4.
  set (w4 := insert_nonces config now (DataNameV d) recs w3) in *.
  assert (G5 : good config data_send w4 (on_pit e ClearOutRecords w4)).
  { apply (good_on_pit config _ _ _ _ (OpClearOutRecords e)); [apply G4|done..|]. intros x. apply map_empty_subseteq. }
  exists (on_pit e ClearOutRecords w4), l. split_and!; [done|by eapply good_trans, good_trans, good_trans, good_trans| | |done|].
  - exists (ClearOutRecords (SetSatisfied true (ClearInRecords q))). split; [|by split_and!].
    by apply (on_pit_lookup e ClearOutRecords w4).
  - cbn. rewrite <- Er. unfold dead_after. f_equal. exact Hd2.
  - by rewrite <- Hqi.
Qed.

Lemma outgoing_loop_good pp inFace d ds : forall w, inv config w -> contents_of (packets w) pp = Some (EncData d) ->
  exists w' l, outgoing_loop faces pp inFace ds w = Ok w' /\ good config data_send w w' /\ table_of w' = table_of w /\
    deadNonceList (thread w') = deadNonceList (thread w) /\ sent w' = sent w ++ l /\
    send_face <$> l = List.filter (deliverable d) ds.*1.
Proof.
  induction ds as [|[id tok] ds IH]; intros w HI Hc; cbn [outgoing_loop].
  { exists w, []. rewrite app_nil_r. split_and!; [done|by apply good_refl|done..]. }
  destruct (contents_packet w pp _ Hc) as (p & Hp & He).
  destruct (processOutgoingData_good pp id tok inFace w d p HI Hp He) as (w1 & -> & G1 & T1 & D1 & p' & _ & _ & S1).
  cbn [outcome_bind]. destruct (IH w1 (good_inv G1)) as (w2 & l2 & E & G2 & T2 & D2 & S2 & F2);
    [by rewrite (good_contents _ _ _ _ G1)|]. cbn. destruct (deliverable d id).
  - destruct S1 as [S1 _]. exists w2, (mkSend id pp p' :: l2). rewrite E.
    split_and!; [done|by eapply good_trans|by rewrite T2|by rewrite D2|by rewrite S2, S1, <- app_assoc|]. cbn. by rewrite F2.
  - subst w1. exists w2, l2. by split_and!.
Qed.

(** The downstreams of one of several entries: not the face of the Data. *)
Definition downstream_ids (inFace : Z) (p : nameTreePitEntry) : list Z :=
  List.filter (fun id => negb (id =? inFace)%Z) (face_order (face_ids (inRecords p))).

Lemma downstreams_fst inFace (m : gmap Z PitInRecord) ids : (forall id, id ∈ ids -> is_Some (m !! id)) ->
  (omap (fun id => if (id =? inFace)%Z then None else (fun r => (id, in_PitToken r)) <$> m !! id) ids).*1 =
  List.filter (fun id => negb (id =? inFace)%Z) ids.
Proof.
  induction ids as [|id ids IH]; intros Hall; [done|]. cbn. destruct (Hall id ltac:(by left)) as [r Hr].
  destruct (id =? inFace)%Z; cbn; [apply IH; intros; apply Hall; by right|]. rewrite Hr. cbn. f_equal.
  apply IH. intros; apply Hall; by right.
Qed.

Lemma satisfy_round_good now s pp first e inFace w d p :
  inv config w -> contents_of (packets w) pp = Some (EncData d) -> pits (table_of w) !! e = Some p ->
  is_Some (pits (table_of w) !! first) -> is_Some s ->
  exists w' l, satisfy_round config faces face_order now s pp first e inFace w = Ok w' /\ good config data_send w w' /\
    (exists q, pits (table_of w') !! e = Some q /\ satisfied_entry now q) /\
    (forall e', e' <> e -> pits (table_of w') !! e' = pits (table_of w) !! e') /\
    sent w' = sent w ++ l /\ send_face <$> l = List.filter (deliverable d) (downstream_ids inFace p).
Proof.
  intros HI Hc Hp Hf [s' ->]. unfold satisfy_round. unfold pit_entry_of. rewrite Hp. cbn [outcome_bind with_strategy].
  set (ds := omap _ _).
  pose proof (expire_now_good data_send now e w HI) as G1. destruct (expire_now_entry now e w p Hp) as (q & Hq & Hqi & Hqo & Hqe & Hqs).
  assert (Hoth : forall e', e' <> e -> pits (table_of (set_pitCS (SetExpirationTimerToNow now e (table_of w)) w)) !! e' = pits (table_of w) !! e').
  { intros e' Hne. cbn. unfold SetExpirationTimerToNow, updatePitExpiry. destruct (pits (upd_pit e (SetExpirationTime now) (table_of w)) !! e); [|cbn; by rewrite lookup_alter_ne].
    goal_if Eq0; [goal_match Eq1; cbn; by rewrite !lookup_alter_ne|cbn; by rewrite lookup_alter_ne]. }
  set (w1 := set_pitCS _ w) in *. unfold BeforeSatisfyInterest. cbn [outcome_bind].
  assert (G3 : good config data_send w1 (on_pit e (SetSatisfied true) w1)).
  { by apply (good_on_pit config _ _ _ _ (OpSetSatisfied e true)); [apply G1|..]. }
  pose proof (on_pit_lookup e (SetSatisfied true) w1 _ Hq) as Hq3.
  assert (Hoth3 : forall e', e' <> e -> pits (table_of (on_pit e (SetSatisfied true) w1)) !! e' = pits (table_of w) !! e').
  { intros e' Hne. rewrite <- Hoth by done. cbn. by rewrite lookup_alter_ne. }
  set (w3 := on_pit e (SetSatisfied true) w1) in *.
  pose proof (good_trans _ _ _ _ G1 G3) as G13. destruct (good_pits _ _ _ _ G13 first Hf) as [p0 Hp0].
  rewrite Hp0. cbn [outcome_bind].
  rewrite (data_pkt_contents w3 pp d) by (by rewrite (good_contents _ _ _ _ G13)). cbn [outcome_bind].
  pose proof (insert_nonces_good data_send now (DataNameV d) (out_records face_order p0) w3 (good_inv G3)) as G4.
  set (w4 := insert_nonces config now (DataNameV d) (out_records face_order p0) w3) in *.
  assert (G5 : good config data_send w4 (on_pit e ClearInRecords w4)).
  { by apply (good_on_pit config _ _ _ _ (OpClearInRecords e)); [apply G4|..]. }
  assert (G6 : good config data_send (on_pit e ClearInRecords w4) (on_pit e ClearOutRecords (on_pit e ClearInRecords w4))).
  { apply (good_on_pit config _ _ _ _ (OpClearOutRecords e)); [apply G5|done..|]. intros x. apply map_empty_subseteq. }
  pose proof (good_trans _ _ _ _ G13 (good_trans _ _ _ _ G4 (good_trans _ _ _ _ G5 G6))) as G.
  destruct (outgoing_loop_good pp inFace d ds _ (good_inv G)) as (w' & l & E & G7 & T7 & D7 & S7 & F7);
    [by rewrite (good_contents _ _ _ _ G)|].
  exists w', l. rewrite E. split_and!; [done|by eapply good_trans| | |by rewrite S7|].
  - exists (ClearOutRecords (ClearInRecords (SetSatisfied true q))). rewrite T7. split; [|by split_and!].
    apply (on_pit_lookup e ClearOutRecords), (on_pit_lookup e ClearInRecords). exact Hq3.
  - intros e' Hne. rewrite T7.
    change (alter ClearOutRecords e (alter ClearInRecords e (pits (table_of w3))) !! e' = pits (table_of w) !! e').
    rewrite !lookup_alter_ne by done. by apply Hoth3.
  - rewrite F7. f_equal. apply downstreams_fst. intros id. by apply face_ids_elem.
Qed.

Lemma satisfy_all_good now s pp first inFace d es : forall w,
  inv config w -> contents_of (packets w) pp = Some (EncData d) ->
  (forall e, e ∈ es -> is_Some (pits (table_of w) !! e)) -> NoDup es ->
  is_Some (pits (table_of w) !! first) -> is_Some s ->
  exists w' l, satisfy_all config faces face_order now s pp first inFace es w = Ok w' /\ good config data_send w w' /\
    (forall e, e ∈ es -> exists q, pits (table_of w') !! e = Some q /\ satisfied_entry now q) /\
    (forall e, e ∉ es -> pits (table_of w') !! e = pits (table_of w) !! e) /\
    sent w' = sent w ++ l /\
    send_face <$> l = List.filter (deliverable d)
      (concat ((fun e => match pits (table_of w) !! e with Some p => downstream_ids inFace p | None => [] end) <$> es)).
Proof.
  induction es as [|e es IH]; intros w HI Hc Hall Hnd Hf Hs; cbn [satisfy_all].
  { exists w, []. rewrite app_nil_r. split_and!; [done|by apply good_refl| |done..]. intros e He. by apply elem_of_nil in He. }
  apply NoDup_cons in Hnd as [He Hnd]. destruct (Hall e ltac:(by left)) as [p Hp].
  destruct (satisfy_round_good now s pp first e inFace w d p HI Hc Hp Hf Hs) as (w1 & l1 & -> & G1 & (q & Hq & Hsat) & Hoth & S1 & F1).
  cbn [outcome_bind]. destruct (IH w1 (good_inv G1)) as (w2 & l2 & E & G2 & Hes & Hno & S2 & F2).
  { by rewrite (good_contents _ _ _ _ G1). }
  { intros e' He'. apply (good_pits _ _ _ _ G1), Hall. by right. } { done. } { by apply (good_pits _ _ _ _ G1). } { done. }
  exists w2, (l1 ++ l2). rewrite E. split_and!; [done|by eapply good_trans| | |by rewrite S2, S1, app_assoc|].
  - intros e' [->|He']%elem_of_cons; [|by apply Hes]. exists q. by rewrite Hno.
  - intros e' [Hne He']%not_elem_of_cons. rewrite Hno by done. by apply Hoth.
  - rewrite fmap_app, F1, F2. cbn. rewrite Hp, List.filter_app. do 3 f_equal. apply list_fmap_ext.
    intros k e' Hk. apply list_elem_of_lookup_2 in Hk. rewrite Hoth; [done|]. by intros ->.
Qed.

(** *** What each copy of the Data carries *)

(** The downstreams share one packet: a copy carries the downstream's own token or,
    when that is empty, what the copy before it carried. *)
Fixpoint copies (tok : list byte) (ds : list (Z * list byte)) : list (Z * list byte) :=
  match ds with
  | [] => []
  | (id, t) :: ds' => let tok' := match t with [] => tok | _ => t end in (id, tok') :: copies tok' ds'
  end.
Definition last_token (tok : list byte) (ds : list (Z * list byte)) : list byte :=
  fold_left (fun tok x => match x.2 with [] => tok | _ => x.2 end) ds tok.

Lemma copies_app ds ds' : forall tok, copies tok (ds ++ ds') = copies tok ds ++ copies (last_token tok ds) ds'.
Proof using Type. induction ds as [|[id t] ds IH]; intros tok; [done|]. cbn. by rewrite IH. Qed.

Definition copy_of (s : send) : Z * list byte := (send_face s, PitToken (send_packet s)).
Definition may_go (d : Data) (x : Z * list byte) : bool := deliverable d x.1.

(** From [w] to [w'] the Data at [pp] was sent to the downstreams [ds]. *)
Definition copied (pp : nat) (d : Data) (ds : list (Z * list byte)) (w w' : World) : Prop :=
  forall p, packets w !! pp = Some p -> Enc p = EncData d -> exists p' l,
    packets w' !! pp = Some p' /\ Enc p' = EncData d /\ PitToken p' = last_token (PitToken p) ds /\
    sent w' = sent w ++ l /\ copy_of <$> l = copies (PitToken p) ds /\
    Forall (fun s => send_ptr s = pp /\ Enc (send_packet s) = EncData d) l.

Lemma copied_same pp d w w' : packets w' = packets w -> sent w' = sent w -> copied pp d [] w w'.
Proof using Type. intros Ep Es p Hp He. exists p, []. rewrite Ep, Es, app_nil_r. by split_and!. Qed.

Lemma copied_trans pp d ds1 ds2 w w1 w2 : copied pp d ds1 w w1 -> copied pp d ds2 w1 w2 -> copied pp d (ds1 ++ ds2) w w2.
Proof using Type.
  intros C1 C2 p Hp He. destruct (C1 p Hp He) as (p1 & l1 & Hp1 & He1 & T1 & S1 & F1 & A1).
  destruct (C2 p1 Hp1 He1) as (p2 & l2 & Hp2 & He2 & T2 & S2 & F2 & A2). exists p2, (l1 ++ l2).
  rewrite T1 in T2, F2. split_and!; [done|done|by rewrite T2; unfold last_token; rewrite fold_left_app|by rewrite S2, S1, app_assoc| |by apply Forall_app].
  by rewrite fmap_app, F1, F2, copies_app.
Qed.

Lemma copied_before pp d ds w w0 w' : packets w0 = packets w -> sent w0 = sent w -> copied pp d ds w0 w' -> copied pp d ds w w'.
Proof using Type. intros Ep Es C. by apply (copied_trans pp d [] ds w w0); [apply copied_same|]. Qed.
Lemma copied_after pp d ds w w1 w' : packets w' = packets w1 -> sent w' = sent w1 -> copied pp d ds w w1 -> copied pp d ds w w'.
Proof using Type. intros Ep Es C. rewrite <- (app_nil_r ds). by eapply copied_trans; [exact C|apply copied_same]. Qed.

Lemma outgoing_data_copied pp id tok inFace d w w' : processOutgoingData faces pp id tok inFace w = Ok w' ->
  copied pp d (List.filter (may_go d) [(id, tok)]) w w'.
Proof using Type.
  intros E p Hp He. revert E. unfold processOutgoingData, may_go, deliverable, data_pkt, packet. rewrite Hp. cbn [List.filter fst outcome_bind].
  rewrite He. destruct (faces !! id) as [f|]; [|by intros [= <-]; apply (copied_same pp d w w)].
  assert (Hsend : SendPacket id pp (upd_packet pp (set_IncomingFaceID (Some inFace))
      (if 0 <? length tok then upd_packet pp (set_PitToken tok) (count 0 0 0 1 1 0 w) else count 0 0 0 1 1 0 w)) = Ok w' ->
    copied pp d [(id, tok)] w w').
  { unfold SendPacket, packet, upd_packet. intros E q Hq Hqe. assert (q = p) as -> by congruence.
    destruct tok as [|b tok]; cbn [length Nat.ltb Nat.leb packets count set_thread sent] in E;
      rewrite ?lookup_alter_eq, Hp in E; cbn in E; injection E as <-; cbn [packets sent];
      eexists _, [_]; (split; [rewrite ?lookup_alter_eq, Hp; reflexivity|]);
      (split_and!; [done|done|reflexivity|reflexivity|by apply Forall_singleton]). }
  destruct (face_scope f); cbn [outcome_bind].
  - rewrite bool_decide_true by done. intros E. exact (Hsend E p Hp He).
  - cbn [as_data outcome_bind]. destruct (is_localhost (DataNameV d)).
    + rewrite bool_decide_false by naive_solver. intros [= <-]. exact (copied_same pp d w w eq_refl eq_refl p Hp He).
    + rewrite bool_decide_true by done. intros E. exact (Hsend E p Hp He).
Qed.

Lemma outgoing_data_table pp id tok inFace w w' : processOutgoingData faces pp id tok inFace w = Ok w' -> table_of w' = table_of w.
Proof using Type.
  unfold processOutgoingData. destruct (faces !! id) as [f|]; [|by intros [= <-]].
  destruct (match face_scope f with NonLocal => _ | Local => _ end) as [[]| |]; cbn [outcome_bind]; [by intros [= <-]| |done..].
  unfold SendPacket. destruct (packet _ _) as [q| |]; cbn [outcome_bind]; [|done..]. intros [= <-]. by destruct (_ <? _).
Qed.

Lemma outgoing_loop_copied pp inFace d ds : forall w w', outgoing_loop faces pp inFace ds w = Ok w' ->
  copied pp d (List.filter (may_go d) ds) w w'.
Proof using Type.
  induction ds as [|[id tok] ds IH]; intros w w'; cbn [outgoing_loop]; [intros [= <-]; by apply copied_same|].
  destruct (processOutgoingData _ _ _ _ _ _) as [w1| |] eqn:E1; [|done..]. cbn [outcome_bind]. intros E2.
  change ((id, tok) :: ds) with ([(id, tok)] ++ ds). rewrite List.filter_app.
  eapply copied_trans; [by eapply outgoing_data_copied|by apply IH].
Qed.

(** The token of a downstream's in-record. *)
Definition record_token (p : nameTreePitEntry) (id : Z) : list byte := from_option in_PitToken [] (inRecords p !! id).

Lemma send_data_loop_copied pp e inFace d ids : forall w w' p, NoDup ids -> pits (table_of w) !! e = Some p ->
  send_data_loop faces pp e inFace ids w = Ok w' ->
  copied pp d (List.filter (may_go d) ((fun id => (id, record_token p id)) <$> ids)) w w'.
Proof using Type.
  induction ids as [|id ids IH]; intros w w' p Hnd Hp; cbn [send_data_loop]; [intros [= <-]; by apply copied_same|].
  apply NoDup_cons in Hnd as [Hid Hnd].
  set (w0 := match inRecords p !! id with Some r => on_pit e (fun p => with_inRecords (delete id (inRecords p)) p) w | None => w end).
  assert (Es : SendData faces pp e id inFace w = processOutgoingData faces pp id (record_token p id) inFace w0).
  { unfold SendData, pit_entry_of, w0, record_token. rewrite Hp. cbn [outcome_bind]. by destruct (inRecords p !! id). }
  rewrite Es. destruct (processOutgoingData _ _ _ _ _ _) as [w1| |] eqn:E1; [|done..]. cbn [outcome_bind]. intros E2.
  rewrite fmap_cons. change (?x :: ?l) with ([x] ++ l). rewrite List.filter_app.
  assert (Hw0 : packets w0 = packets w /\ sent w0 = sent w) by (unfold w0; by destruct (inRecords p !! id)).
  eapply copied_trans; [eapply copied_before; [apply Hw0..|by eapply outgoing_data_copied]|].
  assert (Hp1 : pits (table_of w1) !! e = Some (with_inRecords (delete id (inRecords p)) p)).
  { rewrite (outgoing_data_table _ _ _ _ _ _ E1). unfold w0. destruct (inRecords p !! id) eqn:Er.
    - by apply (on_pit_lookup e (fun p => with_inRecords (delete id (inRecords p)) p) w p Hp).
    - rewrite delete_id by done. rewrite Hp. by destruct p. }
  specialize (IH w1 w' _ Hnd Hp1 E2). erewrite list_fmap_ext; [exact IH|]. intros k id' Hk%list_elem_of_lookup_2. cbn.
  unfold record_token. cbn. rewrite lookup_delete_ne; [done|]. intros ->. done.
Qed.

(** The downstreams of the only matching entry, with the tokens of its records. *)
Definition all_downstreams (p : nameTreePitEntry) : list (Z * list byte) :=
  (fun id => (id, record_token p id)) <$> face_order (face_ids (inRecords p)).
(** Those of one of several entries. *)
Definition other_downstreams (inFace : Z) (p : nameTreePitEntry) : list (Z * list byte) :=
  omap (fun id => if (id =? inFace)%Z then None else (fun r => (id, in_PitToken r)) <$> inRecords p !! id)
    (face_order (face_ids (inRecords p))).

Lemma satisfy_one_copied now s pp e inFace w w' d p : pits (table_of w) !! e = Some p ->
  satisfy_one config faces face_order now s pp e inFace w = Ok w' ->
  copied pp d (List.filter (may_go d) (all_downstreams p)) w w'.
Proof.
  intros Hp. unfold satisfy_one. destruct (expire_now_entry now e w p Hp) as (q & Hq & Hqi & _).
  set (w1 := set_pitCS _ w) in *. destruct s as [s|]; [|done]. cbn [with_strategy].
  destruct (AfterReceiveData _ _ _ _ _ _ w1) as [w2| |] eqn:E; [|done..]. cbn [outcome_bind].
  destruct (pit_entry_of _ _) as [p2| |]; [|done..]. cbn [outcome_bind]. destruct (data_pkt _ _) as [d2| |]; [|done..]. intros [= <-].
  eapply copied_after; [done|done|]. eapply (copied_before _ _ _ w w1); [done|done|].
  assert (El : send_data_loop faces pp e inFace (face_order (face_ids (inRecords q))) w1 = Ok w2).
  { revert E. unfold AfterReceiveData, pit_entry_of. rewrite Hq. cbn [outcome_bind]. destruct s; [done|]. by destruct (data_pkt w1 pp). }
  apply (send_data_loop_copied pp e inFace d _ w1 w2 q (face_ids_NoDup _) Hq) in El.
  unfold all_downstreams, record_token in *. by rewrite Hqi in El.
Qed.

Lemma satisfy_round_copied now s pp first e inFace w w' d p : pits (table_of w) !! e = Some p ->
  satisfy_round config faces face_order now s pp first e inFace w = Ok w' ->
  copied pp d (List.filter (may_go d) (other_downstreams inFace p)) w w'.
Proof.
  intros Hp. assert (Hpe : pit_entry_of w e = Ok p) by (unfold pit_entry_of; by rewrite Hp).
  unfold satisfy_round. rewrite Hpe. clear Hpe. cbn [outcome_bind]. destruct s as [s|]; [|done].
  cbn [with_strategy]. unfold BeforeSatisfyInterest. cbn [outcome_bind].
  destruct (pit_entry_of _ _) as [p2| |]; [|done..]. cbn [outcome_bind]. destruct (data_pkt _ _) as [d2| |]; cbn [outcome_bind]; [|discriminate..].
  intros E. eapply copied_before; [| |by eapply outgoing_loop_copied; exact E]; done.
Qed.

Lemma satisfy_all_copied now s pp first inFace d es : forall w w', inv config w -> contents_of (packets w) pp = Some (EncData d) ->
  (forall e, e ∈ es -> is_Some (pits (table_of w) !! e)) -> NoDup es ->
  is_Some (pits (table_of w) !! first) -> is_Some s ->
  satisfy_all config faces face_order now s pp first inFace es w = Ok w' ->
  copied pp d (List.filter (may_go d)
    (concat ((fun e => from_option (other_downstreams inFace) [] (pits (table_of w) !! e)) <$> es))) w w'.
Proof.
  induction es as [|e es IH]; intros w w' HI Hc Hall Hnd Hf Hs; cbn [satisfy_all]; [intros [= <-]; by apply copied_same|].
  apply NoDup_cons in Hnd as [He Hnd]. destruct (Hall e ltac:(by left)) as [p Hp].
  destruct (satisfy_round_good now s pp first e inFace w d p HI Hc Hp Hf Hs) as (w1 & l1 & E1 & G1 & _ & Hoth & _).
  rewrite E1. cbn [outcome_bind]. intros E2. rewrite fmap_cons, Hp. cbn [concat from_option]. rewrite List.filter_app.
  eapply copied_trans; [by eapply satisfy_round_copied|].
  erewrite list_fmap_ext; [apply IH; try done|].
  - apply G1.
  - by rewrite (good_contents _ _ _ _ G1).
  - intros e' He'. apply (good_pits _ _ _ _ G1), Hall. by right.
  - by apply (good_pits _ _ _ _ G1).
  - intros k e' Hk%list_elem_of_lookup_2. cbn. rewrite Hoth; [done|]. by intros ->.
Qed.

(** A packet the Data pipeline can work on. *)
Definition data_packet (w : World) (pp : nat) : Prop :=
  exists p d, packets w !! pp = Some p /\ Enc p = EncData d /\ universe (DataNameV d) /\
    (PitToken p = [] \/ 6 <= length (PitToken p)) /\ (DataNameV d <> [] \/ NameCache p = []).

Lemma incoming_token_ok tok : tok = [] \/ 6 <= length tok -> exists t, incoming_token tok = Ok t.
Proof.
  intros Ht. unfold incoming_token. destruct tok as [|b tok]; [by eexists|]. destruct Ht as [?|Ht]; [done|].
  unfold go_slice. rewrite bool_decide_true by (cbn [length] in *; lia). cbn [outcome_bind]. by eexists.
Qed.

Lemma found_entries T name tok : pit_ok T -> universe name ->
  let es := FindInterestPrefixMatchByDataEnc T (match tok with Some _ => [] | None => name end) tok in
  NoDup es /\ forall e, e ∈ es -> live T e.
Proof.
  intros Hok Hu es. destruct tok as [t|]; unfold es.
  - split; [|intros e He; by apply (token_lookup_spec T [] t e Hok) in He as [? _]].
    cbn. destruct (pitTokenMap T !! t); [|apply NoDup_nil_2]. destruct (_ =? _)%Z; [apply NoDup_singleton|apply NoDup_nil_2].
  - destruct (findInterestPrefixMatchByNameEnc_spec T name Hok Hu) as [Hnd Hin]. split; [done|].
    intros e He. by apply Hin in He as [? _].
Qed.

(** The Content Store admits the Data. *)
Lemma admit_good now pp w d : inv config w -> contents_of (packets w) pp = Some (EncData d) -> universe (DataNameV d) ->
  exists w', (if csAdmit config then
                let* d := data_pkt w pp in
                let* T := InsertData (csCapacity config) pp d now (table_of w) in
                Ok (set_pitCS T w)
              else Ok w) = Ok w' /\ good config data_send w w' /\ pits (table_of w') = pits (table_of w) /\
    sent w' = sent w /\ deadNonceList (thread w') = deadNonceList (thread w) /\
    (forall e, live (table_of w') e <-> live (table_of w) e) /\ packets w' = packets w.
Proof.
  intros HI Hc Hu. destruct (csAdmit config); [|exists w; split_and!; by try apply good_refl].
  rewrite (data_pkt_contents w pp d Hc). cbn [outcome_bind]. pose proof HI as [os HT].
  destruct (at_work_ok _ _ _ (tinv_work _ _ _ _ HT)) as [Hpit Hcs Hq].
  destruct (InsertData_spec (cap config) pp d now (table_of w) _ Hcs Hu) as (T & E & HR & HP & Ep & _).
  assert (Ecap : Z.of_nat (cap config) = csCapacity config) by (unfold cap; lia). rewrite Ecap in E.
  rewrite E. cbn [outcome_bind]. exists (set_pitCS T w). split_and!; try done.
  - apply (good_table config _ w (OpInsertData pp d now)); try done.
    + cbn [exec]. by rewrite Ecap, E.
    + by rewrite (contents_kind_of _ _ _ Hc).
    + intros e p' f r Hp Hr. rewrite Ep in Hp. by exists p'.
    + intros e He. by rewrite Ep.
  - intros e. by apply pit_same_live.
Qed.

Lemma processIncomingData_good now pp w : inv config w -> data_packet w pp ->
  exists w', processIncomingData config faces fib strategies face_order now pp w = Ok w' /\ kept data_send w w'.
Proof.
  intros HI (p & d & Hp & He & Hu & Ht & Hn). unfold processIncomingData, packet. rewrite Hp. cbn [outcome_bind].
  assert (Hc : contents_of (packets w) pp = Some (EncData d)) by (unfold contents_of; by rewrite Hp; cbn; rewrite He).
  destruct (IncomingFaceID p) as [id|]; [|exists w; split; [done|by apply kept_refl]].
  destruct (incoming_token_ok (PitToken p) Ht) as [tok Etok]. rewrite Etok. cbn [outcome_bind].
  destruct (faces !! id) as [f|]; [|exists w; rewrite (data_pkt_contents w pp d Hc); split; [done|by apply kept_refl]].
  pose proof (good_count config data_send w 0 1 0 0 0 0 HI) as G1. set (w1 := count 0 1 0 0 0 0 w) in *.
  set (viol := if _ && _ then _ else Ok false).
  assert (Hv : exists b, viol = Ok b).
  { unfold viol. destruct (bool_decide (face_scope f = NonLocal)); [|by eexists]. cbn [andb].
    destruct (Nat.ltb_spec 0 (length (NameCache p))) as [Hl|]; [|by eexists].
    rewrite (data_pkt_contents w pp d Hc). cbn [outcome_bind]. destruct (DataNameV d) as [|c n] eqn:Ed; [|by eexists].
    destruct Hn as [?|Hn]; [done|]. rewrite Hn in Hl. cbn in Hl. lia. }
  destruct Hv as [viol' ->]. cbn [outcome_bind]. destruct viol'; [exists w1; split; [done|by apply good_kept]|].
  assert (Hc1 : contents_of (packets w1) pp = Some (EncData d)) by done.
  destruct (admit_good now pp w1 d (good_inv G1) Hc1 Hu) as (w2 & -> & G2 & Ep2 & _ & _ & Hl2 & _). cbn [outcome_bind].
  assert (Hc2 : contents_of (packets w2) pp = Some (EncData d)) by (by rewrite (good_contents _ _ _ _ G2)).
  pose proof (good_trans _ _ _ _ G1 G2) as G12.
  set (nameOf := match tok with Some _ => _ | None => _ end).
  assert (Hname : nameOf = Ok (match tok with Some _ => [] | None => DataNameV d end))
    by (unfold nameOf; destruct tok; [done|by rewrite (data_pkt_contents w2 pp d Hc2)]).
  rewrite Hname. cbn [outcome_bind]. rewrite (data_pkt_contents w2 pp d Hc2). cbn [outcome_bind].
  destruct (good_inv G2) as [os2 HT2]. destruct (at_work_ok _ _ _ (tinv_work _ _ _ _ HT2)) as [Hpit2 _ _].
  destruct (found_entries (table_of w2) (DataNameV d) tok Hpit2 Hu) as [Hnd Hlive].
  assert (Hsome : forall e, e ∈ FindInterestPrefixMatchByDataEnc (table_of w2) (match tok with Some _ => [] | None => DataNameV d end) tok ->
    is_Some (pits (table_of w2) !! e)) by (intros e (q & Hq & _)%Hlive; by eexists).
  destruct (FindInterestPrefixMatchByDataEnc _ _ _) as [|e [|e2 es]].
  - exists w2. split; [done|by apply good_kept].
  - destruct (Hsome e ltac:(by left)) as [q Hq].
    destruct (satisfy_one_good now (FindStrategy fib strategies (DataNameV d)) pp e id w2 d q (good_inv G2) Hc2 Hq (Hstrategies _))
      as (w3 & l & E & G3 & _). exists w3. split; [exact E|]. apply good_kept. by eapply good_trans.
  - destruct (satisfy_all_good now (FindStrategy fib strategies (DataNameV d)) pp e id d (e :: e2 :: es) w2 (good_inv G2) Hc2 Hsome Hnd
      (Hsome e ltac:(by left)) (Hstrategies _)) as (w3 & l & E & G3 & _). exists w3. split; [exact E|]. apply good_kept. by eapply good_trans.
Qed.

(** *** The ticks *)

Lemma finalize_nonces_ok now ps records : forall d,
  (forall r, r ∈ records -> kind ps (out_LatestEncInterest r) = Some true) ->
  exists d', finalize_nonces config now ps records d = Ok d'.
Proof.
  induction records as [|r records IH]; intros d Hk; cbn [finalize_nonces]; [by eexists|].
  specialize (Hk r ltac:(by left)) as Hr. unfold kind in Hr. apply fmap_Some in Hr as (p & -> & Hp). cbn.
  destruct (Enc p); [|done]. cbn. apply IH. intros r' Hr'. apply Hk. by right.
Qed.

Lemma report_ok now ps T popped : forall s,
  (forall e p f r, pits T !! e = Some p -> outRecords p !! f = Some r -> kind ps (out_LatestEncInterest r) = Some true) ->
  exists s', report (finalizeInterest config face_order now ps) T popped (Ok s) = Ok s'.
Proof.
  unfold report. induction popped as [|e popped IH]; intros s Hk; cbn [fold_left]; [by eexists|].
  destruct (pits T !! e) as [p|] eqn:Ep; [|by apply IH]. unfold finalizeInterest at 2. cbn [outcome_bind]. destruct s as [d n].
  destruct (finalize_nonces_ok now ps (out_records face_order (with_queueIndex (-1) p)) d) as [d' ->].
  { intros r (id & _ & Hr)%list_elem_of_omap. by eapply Hk. }
  cbn [outcome_bind]. by apply IH.
Qed.

Lemma pit_update_good P now w : inv config w ->
  exists w', pit_update config face_order now w = Ok w' /\ kept P w w'.
Proof.
  intros HI. pose proof HI as [os HT]. destruct (at_work_ok _ _ _ (tinv_work _ _ _ _ HT)) as [Hpit _ Hq].
  unfold pit_update.
  assert (HU : forall S (cb : nameTreePitEntry -> S -> S) s,
    (Update cb now (table_of w) s).1 = (Update (fun _ s => s) now (table_of w) ()).1).
  { intros S cb s. unfold Update. generalize (length (pitExpiryQueue (table_of w))) as fuel. intros fuel.
    generalize (table_of w) as T. revert s. induction fuel as [|fuel IH]; intros s T; cbn [Update_loop]; [done|].
    destruct (PQueue.PeekPriority _); [|done]. destruct (_ <=? _)%Z; [|done]. destruct (PQueue.Pop _) as [[e q]|]; [|done].
    rewrite IH. by destruct (pits _ !! e). }
  pose proof (Update_loop_spec (finalizeInterest config face_order now (packets w)) now _ (table_of w)
    (Ok (deadNonceList (thread w), NUnsatisfiedInterests (thread w))) Hpit Hq (le_n _)) as HS.
  pose proof (Update_outs (finalizeInterest config face_order now (packets w)) now (table_of w)
    (Ok (deadNonceList (thread w), NUnsatisfiedInterests (thread w)))) as [Hle Hgr].
  specialize (HU _ (finalizeInterest config face_order now (packets w)) (Ok (deadNonceList (thread w), NUnsatisfiedInterests (thread w)))).
  unfold Update in *. destruct (Update_loop _ _ _ _ _) as [T s]. cbn [fst] in *.
  destruct HS as (_ & _ & _ & popped & _ & _ & _ & _ & -> & _).
  destruct (report_ok now (packets w) (table_of w) (popped.*1) (deadNonceList (thread w), NUnsatisfiedInterests (thread w))) as [[d n] ->].
  { exact (tinv_outs _ _ _ _ HT). }
  cbn [outcome_bind]. eexists. split; [done|]. apply good_kept.
  pose proof (good_table config P w (OpUpdate now) T HI I) as GT. specialize (GT ltac:(cbn [exec]; by rewrite HU) I Hle Hgr).
  destruct GT as [GI GC GP GS]. by split.
Qed.

(** *** Events *)

(** The packet at the head of a queue is one its pipeline can work on. *)
Definition event_ok (w : World) (ev : event) : Prop :=
  match ev with
  | EvInterest _ _ => match pendingInterests (thread w) with pp :: _ => interest_packet w pp | [] => True end
  | EvData _ => match pendingDatas (thread w) with pp :: _ => data_packet w pp | [] => True end
  | _ => True
  end.

(** What an event may send. *)
Definition event_sends (w : World) (ev : event) (s : send) : Prop :=
  match ev with
  | EvInterest _ _ => match pendingInterests (thread w) with pp :: _ => reaction w pp s | [] => False end
  | EvData _ => data_send s
  | _ => False
  end.

Lemma Run_step_good ev w : inv config w -> event_ok w ev ->
  match Run_step config faces regions fib strategies children_order face_order sortSlice ev w with
  | Some r => exists w', r = Ok w' /\ kept (event_sends w ev) w w'
  | None => exists now draws, ev = EvInterest now draws /\ forall t, t ∈ draws -> is_Some (pitTokenMap (table_of w) !! t)
  end.
Proof.
  intros HI Hev. unfold Run_step. destruct ev as [now draws|now|now|now]; cbn [event_ok] in *.
  - destruct (pendingInterests (thread w)) as [|pp rest] eqn:Eq; [exists w; split; [done|by apply kept_refl]|].
    set (w1 := set_thread _ w). assert (HI1 : inv config w1) by done.
    pose proof (processIncomingInterest_good now draws pp w1 HI1 Hev) as HP.
    destruct (processIncomingInterest _ _ _ _ _ _ _ _ _ _ _) as [r|].
    + destruct HP as (w' & -> & [KI KK (l & KS & KF)]). exists w'. split; [done|]. split; [done|done|]. exists l. split; [done|].
      eapply Forall_impl; [exact KF|]. intros x Hx. cbn. by rewrite Eq.
    + exists now, draws. split; [done|exact HP].
  - destruct (pendingDatas (thread w)) as [|pp rest]; [exists w; split; [done|by apply kept_refl]|].
    set (w1 := set_thread _ w). assert (HI1 : inv config w1) by done.
    destruct (processIncomingData_good now pp w1 HI1 Hev) as (w' & E & [KI KK KS]). exists w'. split; [by rewrite E|]. by split.
  - eexists. split; [done|]. by apply good_kept, good_dnl.
  - destruct (pit_update_good (event_sends w (EvPitUpdate now)) now w HI) as (w' & E & K). exists w'. split; [by rewrite E|done].
Qed.

Lemma new_inv id ps : inv config (mkWorld (NewThread id) ps []).
Proof.
  exists []. split; [split; [by constructor|done]| |].
  - intros r Hr. by apply elem_of_nil in Hr.
  - intros e p f r Hp. done.
Qed.
End run.
