(* ===== verification/FwSteady.v ===== *)
(** * What a forwarding thread leaves alone

    Threads share packets.  Whatever a thread does, a packet keeps what the other
    threads rely on: its name, nonce and cached name; and its PIT token is the old
    one, one that the thread made, or one that a downstream gave.  The tokens of
    downstreams are fit for Data as long as those of the Interests were. *)
From S2P Require Import Prelude.
From S2P Require Import Enc.
From S2P Require Import FibSpec.
From S2P Require DeadNonce.
From S2P Require Import Packet.
From S2P Require Import PitCs.
From S2P Require Import ContentStore.
From S2P Require Import Fw.
From S2P Require Import FwInv.

(** A PIT token that Data may carry to a thread. *)
Definition tok_ok (tok : list byte) : Prop := tok = [] \/ 6 <= length tok.

Definition records_ok (p : nameTreePitEntry) : Prop := forall f r, inRecords p !! f = Some r -> tok_ok (in_PitToken r).
Definition toks_ok (T : PitCsTree) : Prop := forall e p, pits T !! e = Some p -> records_ok p.

(** What never changes of a packet's contents. *)
Definition core (c : EncPacket) : Name * option Z + Data :=
  match c with EncInterest i => inl (NameV i, NonceV i) | EncData d => inr d end.

Definition evolved (p p' : PendingPacket) : Prop :=
  core (Enc p') = core (Enc p) /\ NameCache p' = NameCache p /\ (PitToken p' = PitToken p \/ tok_ok (PitToken p')).

Definition evolves (ps ps' : gmap nat PendingPacket) : Prop := forall pp, option_Forall2 evolved (ps !! pp) (ps' !! pp).

Lemma evolved_refl p : evolved p p.
Proof. by split_and!; [| |left]. Qed.

Lemma evolved_trans p q r : evolved p q -> evolved q r -> evolved p r.
Proof.
  intros (C1 & N1 & T1) (C2 & N2 & T2). split_and!; [congruence|congruence|].
  destruct T2 as [->|]; [done|by right].
Qed.

Lemma evolves_refl ps : evolves ps ps.
Proof. intros pp. destruct (ps !! pp); constructor. apply evolved_refl. Qed.

Lemma evolves_trans ps1 ps2 ps3 : evolves ps1 ps2 -> evolves ps2 ps3 -> evolves ps1 ps3.
Proof.
  intros E1 E2 pp. specialize (E1 pp). specialize (E2 pp). inversion E1 as [p q Hpq Hp Hq|Hp Hq]; rewrite <- Hq in E2.
  - inversion E2 as [q' r Hqr|]. subst. constructor. by eapply evolved_trans.
  - by inversion E2; constructor.
Qed.

Lemma evolves_alter ps pp g : (forall p, ps !! pp = Some p -> evolved p (g p)) -> evolves ps (alter g pp ps).
Proof.
  intros Hg pp'. destruct (decide (pp = pp')) as [<-|Hne].
  - rewrite lookup_alter_eq. destruct (ps !! pp) as [p|] eqn:E; constructor. by apply Hg.
  - rewrite lookup_alter_ne by done. destruct (ps !! pp'); constructor. apply evolved_refl.
Qed.

Lemma evolves_lookup ps ps' pp p : evolves ps ps' -> ps !! pp = Some p -> exists p', ps' !! pp = Some p' /\ evolved p p'.
Proof. intros E Hp. specialize (E pp). rewrite Hp in E. inversion E as [? p' He|]. subst. by exists p'. Qed.

Lemma evolves_kind ps ps' pp : evolves ps ps' -> kind ps' pp = kind ps pp.
Proof.
  intros E. specialize (E pp). unfold kind. inversion E as [p p' (Hc & _)|]; cbn; [|done].
  destruct (Enc p), (Enc p'); cbn in Hc; try done; by injection Hc.
Qed.

(** ** The step from one state of a thread to another *)

(** Every packet that was sent is in the store. *)
Definition sends_ok (w : World) : Prop := Forall (fun x => is_Some (packets w !! send_ptr x)) (sent w).

Lemma sends_ok_evolves w w' : evolves (packets w) (packets w') -> sent w' = sent w -> sends_ok w -> sends_ok w'.
Proof.
  unfold sends_ok. intros E -> HS. eapply Forall_impl; [exact HS|]. intros x [p Hp]. destruct (evolves_lookup _ _ _ _ E Hp) as (p' & Hp' & _). by exists p'.
Qed.

(** What holds after a step if the tokens were fit before it. *)
Record steady_step (w w' : World) : Prop := {
  st_toks : toks_ok (table_of w');
  st_packets : evolves (packets w) (packets w');
  st_sends : sends_ok w -> sends_ok w';
  st_id : threadID (thread w') = threadID (thread w);
  st_interests : pendingInterests (thread w') = pendingInterests (thread w);
  st_datas : pendingDatas (thread w') = pendingDatas (thread w) }.

Definition steady (w w' : World) : Prop := toks_ok (table_of w) -> steady_step w w'.

Lemma steady_refl w : steady w w.
Proof. intros HT. split; [done|apply evolves_refl|done|done|done|done]. Qed.

Lemma steady_trans w1 w2 w3 : steady w1 w2 -> steady w2 w3 -> steady w1 w3.
Proof.
  intros S1 S2 HT. destruct (S1 HT) as [A1 B1 X1 I1 C1 D1]. destruct (S2 A1) as [A2 B2 X2 I2 C2 D2].
  split; [done|by eapply evolves_trans|by auto|congruence|congruence|congruence].
Qed.

(** Steps that depend on the tokens. *)
Lemma steady_under w w' : (toks_ok (table_of w) -> steady w w') -> steady w w'.
Proof. intros S HT. by apply S. Qed.

Lemma steady_table T w : (toks_ok (table_of w) -> toks_ok T) -> steady w (set_pitCS T w).
Proof. intros HT Hw. split; [by apply HT|apply evolves_refl|done|done|done|done]. Qed.

Lemma upd_pit_toks T e g : (forall p, records_ok p -> records_ok (g p)) -> toks_ok T -> toks_ok (upd_pit e g T).
Proof.
  intros Hg HT e' p Hp. cbn in Hp. destruct (decide (e = e')) as [<-|].
  - rewrite lookup_alter_eq in Hp. destruct (pits T !! e) as [p0|] eqn:E; [|done]. injection Hp as <-. apply Hg. by eapply HT.
  - rewrite lookup_alter_ne in Hp by done. by eapply HT.
Qed.

Lemma steady_on_pit e g w : (forall p, records_ok p -> records_ok (g p)) -> steady w (on_pit e g w).
Proof. intros Hg. apply steady_table. by apply upd_pit_toks. Qed.

Lemma steady_count a b c d x y w : steady w (count a b c d x y w).
Proof. intros HT. split; [done|apply evolves_refl|done|done|done|done]. Qed.
Lemma steady_dnl d w : steady w (set_dnl d w).
Proof. intros HT. split; [done|apply evolves_refl|done|done|done|done]. Qed.

Lemma steady_packet pp g w : (toks_ok (table_of w) -> forall p, packets w !! pp = Some p -> evolved p (g p)) ->
  steady w (upd_packet pp g w).
Proof.
  intros Hg HT. assert (E : evolves (packets w) (packets (upd_packet pp g w))) by (apply evolves_alter; by apply Hg).
  split; [done|done|by apply sends_ok_evolves|done|done|done].
Qed.

Lemma steady_send face pp w w' : SendPacket face pp w = Ok w' -> steady w w'.
Proof.
  unfold SendPacket, packet. destruct (packets w !! pp) as [p|] eqn:Ep; cbn; try done. intros [= <-] HT.
  split; [done|apply evolves_refl| |done|done|done]. intros HS. apply Forall_app. split; [done|]. repeat constructor. by exists p.
Qed.

Lemma no_records_ok p : inRecords p = ∅ -> records_ok p.
Proof. intros E f r. by rewrite E. Qed.

Lemma same_records_ok p q : inRecords q = inRecords p -> records_ok p -> records_ok q.
Proof. intros E Hp f r. rewrite E. apply Hp. Qed.

Lemma delete_records_ok p id : records_ok p -> records_ok (with_inRecords (delete id (inRecords p)) p).
Proof. intros Hp f r. cbn. intros [_ Hr]%lookup_delete_Some. by eapply Hp. Qed.

(** Splitting a sequence of outcomes. *)
Ltac bind_inv E :=
  match type of E with
  | outcome_bind _ ?x = Ok _ => let H := fresh "Eo" in destruct x as [?w| |] eqn:H; cbn [outcome_bind] in E; [|discriminate E|discriminate E]
  end.

(** ** Table operations *)

Lemma updatePitExpiry_toks T e : toks_ok T -> toks_ok (updatePitExpiry e T).
Proof.
  intros HT. unfold updatePitExpiry. destruct (pits T !! e); [|done]. destruct (_ <? 0)%Z; [|done].
  destruct (PQueue.Push _ _ _) as [q ix]. intros e' p. apply (upd_pit_toks T e (with_queueIndex ix)); [|done]. by intros p0.
Qed.

Lemma timer_toks T e (t : nameTreePitEntry -> Z) : toks_ok T ->
  toks_ok (updatePitExpiry e (upd_pit e (fun p => SetExpirationTime (t p) p) T)).
Proof. intros HT. apply updatePitExpiry_toks, upd_pit_toks; [|done]. by intros p. Qed.

Lemma InsertInRecord_ok pp nonce face tok now p : tok_ok tok -> records_ok p ->
  records_ok (InsertInRecord pp nonce face tok now p).1.
Proof.
  intros Ht Hp f r. unfold InsertInRecord. destruct (inRecords p !! face) as [r0|] eqn:E; cbn; intros [[_ <-]|[_ Hr]]%lookup_insert_Some;
    try done; try (by eapply Hp). cbn. by eapply Hp.
Qed.

Section ops.
Context `{EncOps}.

Lemma InsertInterest_toks i nonce hint inFace draws T T' e dup :
  InsertInterest i nonce hint inFace draws T = Some (T', e, dup) -> toks_ok T -> toks_ok T'.
Proof.
  unfold InsertInterest, find_or_create. intros E HT. destruct (fillTreeToPrefixEnc _ _) as [tr node].
  destruct (find_entry _ _ _) as [e0|].
  - change (pits (set_tree tr T)) with (pits T) in E. destruct (pits T !! e0) as [p|]; [destruct (duplicate_nonce _ _ _)|];
      injection E as <- _ _; [done|by apply upd_pit_toks|done].
  - destruct (generateNewPitToken _ _) as [tok|]; [|done]. cbn [pits] in E.
    assert (HT1 : forall T1, pits T1 = <[next_pit T := new_entry i hint node tok]> (pits T) -> toks_ok T1).
    { intros T1 Ep e1 p. rewrite Ep. intros [[_ <-]|[_ Hp]]%lookup_insert_Some; [by apply no_records_ok|by eapply HT]. }
    rewrite lookup_insert_eq in E. destruct (duplicate_nonce _ _ _); injection E as <- _ _; [by apply HT1|].
    apply upd_pit_toks; [done|]. by apply HT1.
Qed.

Lemma RemoveInterest_toks T e : toks_ok T -> toks_ok (RemoveInterest e T).1.
Proof. intros HT e' p. rewrite RemoveInterest_pits. apply HT. Qed.

Lemma Update_toks {S} (cb : nameTreePitEntry -> S -> S) now T s : toks_ok T -> toks_ok (Update cb now T s).1.
Proof.
  unfold Update. generalize (length (pitExpiryQueue T)) as fuel. intros fuel. revert T s.
  induction fuel as [|fuel IH]; intros T s HT; cbn [Update_loop]; [done|].
  destruct (PQueue.PeekPriority _) as [p|]; [|done]. destruct (p <=? now)%Z; [|done].
  destruct (PQueue.Pop _) as [[e q]|]; [|done]. apply IH, RemoveInterest_toks, upd_pit_toks; [|done]. by intros p0.
Qed.

Lemma FindMatchingDataFromCS_pits order i now T : pits (FindMatchingDataFromCS order i now T).1 = pits T.
Proof.
  unfold FindMatchingDataFromCS. destruct (findExactMatchEntryEnc _ _) as [node|]; [|done].
  destruct (negb _); [|done]. destruct (csEntry _) as [c|]; [|done]. destruct (acceptable _ _ _ _); [|done]. by destruct (css T !! c).
Qed.

Lemma InsertData_pits cap pp d now T T' : InsertData cap pp d now T = Ok T' -> pits T' = pits T.
Proof.
  unfold InsertData. destruct (csMap T !! _); [by intros [= <-]|]. destruct (fillTreeToPrefixEnc _ _) as [tr node].
  intros E. by apply EvictEntries_other in E as [-> _].
Qed.

Lemma same_toks T T' : pits T' = pits T -> toks_ok T -> toks_ok T'.
Proof. intros E HT e p. rewrite E. apply HT. Qed.

End ops.

(** ** Pipelines *)

Section pipelines.
Context `{EncOps} {F : Type} `{FibStrategy F}.
Context (config : Config) (faces : gmap Z Face) (regions : list Name) (fib : F) (strategies : gmap Z Strategy).
Context (children_order : nat -> list nat -> list nat) (face_order : list Z -> list Z)
        (sortSlice : list FibNextHopEntry -> list FibNextHopEntry).

Lemma outgoing_token_ok tid tok : tok_ok (outgoing_token tid tok).
Proof. right. unfold outgoing_token. rewrite length_app, !length_be_put. lia. Qed.

Lemma processOutgoingInterest_steady now pp e nexthop inFace w r :
  processOutgoingInterest faces now pp e nexthop inFace w = Ok r -> steady w r.1.
Proof.
  unfold processOutgoingInterest. destruct (faces !! nexthop) as [f|]; [|intros [= <-]; apply steady_refl].
  destruct (_ && _); [intros [= <-]; apply steady_refl|]. intros E. bind_inv E.
  destruct (_ && _); [injection E as <-; apply steady_refl|]. destruct (NonceV _) as [nonce|]; [|done]. bind_inv E. bind_inv E.
  injection E as <-. cbn [fst]. eapply steady_trans; [|by eapply steady_send].
  eapply (steady_trans _ (on_pit e (InsertOutRecord pp nonce nexthop now) w)); [|eapply steady_trans; [apply steady_count|]].
  - apply steady_on_pit. intros p Hp. eapply same_records_ok; [|exact Hp]. unfold InsertOutRecord. by destruct (outRecords p !! nexthop).
  - apply steady_packet. intros _ p _. split_and!; [done|done|]. right. apply outgoing_token_ok.
Qed.

Lemma AfterReceiveInterest_steady s now pp e inFace nhs w w' :
  AfterReceiveInterest faces sortSlice s now pp e inFace nhs w = Ok w' -> steady w w'.
Proof.
  unfold AfterReceiveInterest. destruct s.
  - generalize (sortSlice nhs). intros l. revert w. induction l as [|nh l IH]; intros w E; cbn [first_usable] in E.
    { injection E as <-. apply steady_refl. }
    bind_inv E. apply processOutgoingInterest_steady in Eo. destruct w0 as [w0 []]; [by injection E as <-|].
    eapply steady_trans; [exact Eo|by apply IH].
  - revert w. induction nhs as [|nh l IH]; intros w E; cbn [all_nexthops] in E.
    { injection E as <-. apply steady_refl. }
    bind_inv E. apply processOutgoingInterest_steady in Eo. destruct w0 as [w0 b].
    eapply steady_trans; [exact Eo|by apply IH].
Qed.

Lemma processOutgoingData_steady pp nexthop tok inFace w w' : tok_ok tok ->
  processOutgoingData faces pp nexthop tok inFace w = Ok w' -> steady w w'.
Proof.
  intros Htok. unfold processOutgoingData. destruct (faces !! nexthop) as [f|]; [|intros [= <-]; apply steady_refl].
  intros E. bind_inv E. destruct w0; [injection E as <-; apply steady_refl|].
  eapply steady_trans; [|by eapply steady_send]. eapply steady_trans; [apply (steady_count 0 0 0 1 1 0 w)|].
  eapply steady_trans.
  2: { apply steady_packet. intros _ p _. by split_and!; [| |left]. }
  - destruct (0 <? length tok); [|apply steady_refl]. apply steady_packet. intros _ p _. split_and!; [done|done|by right].
Qed.

Lemma SendData_steady pp e nexthop inFace w w' : SendData faces pp e nexthop inFace w = Ok w' -> steady w w'.
Proof.
  unfold SendData, pit_entry_of. intros E. destruct (pits (table_of w) !! e) as [p|] eqn:Ep; [|done]. cbn [outcome_bind] in E.
  destruct (inRecords p !! nexthop) as [r|] eqn:Er.
  - apply steady_under. intros HT. eapply steady_trans; [|eapply processOutgoingData_steady; [|exact E]; by eapply HT].
    apply steady_on_pit. intros q. apply delete_records_ok.
  - eapply processOutgoingData_steady; [|exact E]. by left.
Qed.

Lemma AfterReceiveData_steady s pp e inFace w w' : AfterReceiveData faces face_order s pp e inFace w = Ok w' -> steady w w'.
Proof.
  assert (HL : forall ids w, send_data_loop faces pp e inFace ids w = Ok w' -> steady w w').
  { induction ids as [|id ids IH]; intros w0 E; cbn [send_data_loop] in E; [injection E as <-; apply steady_refl|].
    bind_inv E. eapply steady_trans; [by eapply SendData_steady|by apply IH]. }
  unfold AfterReceiveData. intros E. bind_inv E. destruct s; [by eapply HL|]. bind_inv E. by eapply HL.
Qed.

Lemma with_strategy_inv {A} (s : option Strategy) (k : Strategy -> outcome A) x : with_strategy s k = Ok x ->
  exists s', k s' = Ok x.
Proof using Type. destruct s; [|done]. cbn. by eexists. Qed.

Lemma satisfy_one_steady now s pp e inFace w w' : satisfy_one config faces face_order now s pp e inFace w = Ok w' -> steady w w'.
Proof.
  unfold satisfy_one. intros E. bind_inv E. apply with_strategy_inv in Eo as [s' Eo]. bind_inv E. bind_inv E. injection E as <-.
  eapply steady_trans; [apply steady_table; apply (timer_toks _ e (fun _ => now))|].
  eapply steady_trans; [by eapply AfterReceiveData_steady|]. eapply steady_trans; [by apply (steady_on_pit e (SetSatisfied true))|].
  eapply steady_trans; [apply steady_dnl|]. by apply (steady_on_pit e ClearOutRecords).
Qed.

Lemma outgoing_loop_steady pp inFace ds : forall w w', Forall (fun d => tok_ok d.2) ds ->
  outgoing_loop faces pp inFace ds w = Ok w' -> steady w w'.
Proof.
  induction ds as [|[id tok] ds IH]; intros w w' Hds E; cbn [outgoing_loop] in E; [injection E as <-; apply steady_refl|].
  apply Forall_cons in Hds as [Ht Hds]. bind_inv E. eapply steady_trans; [by eapply processOutgoingData_steady|by apply IH].
Qed.

Lemma satisfy_round_steady now s pp first e inFace w w' :
  satisfy_round config faces face_order now s pp first e inFace w = Ok w' -> steady w w'.
Proof.
  unfold satisfy_round, pit_entry_of. intros E. destruct (pits (table_of w) !! e) as [p|] eqn:Ep; [|done]. cbn [outcome_bind] in E.
  bind_inv E. apply with_strategy_inv in Eo as [s' [= <-]]. bind_inv E. bind_inv E. apply steady_under. intros HT.
  eapply steady_trans; [|eapply outgoing_loop_steady; [|exact E]].
  - eapply steady_trans; [apply steady_table; apply (timer_toks _ e (fun _ => now))|].
    eapply steady_trans; [by apply (steady_on_pit e (SetSatisfied true))|]. eapply steady_trans; [apply steady_dnl|].
    eapply steady_trans; [apply (steady_on_pit e ClearInRecords); intros q _; by apply no_records_ok|].
    by apply (steady_on_pit e ClearOutRecords).
  - apply Forall_forall. intros [id tok] (id' & _ & Hid)%list_elem_of_omap. destruct (_ =? _)%Z; [done|].
    apply fmap_Some in Hid as (r & Hr & [= -> ->]). by eapply HT.
Qed.

Lemma satisfy_all_steady now s pp first inFace es : forall w w',
  satisfy_all config faces face_order now s pp first inFace es w = Ok w' -> steady w w'.
Proof.
  induction es as [|e es IH]; intros w w' E; cbn [satisfy_all] in E; [injection E as <-; apply steady_refl|].
  bind_inv E. eapply steady_trans; [by eapply satisfy_round_steady|by apply IH].
Qed.

Lemma processIncomingData_steady now pp w w' :
  processIncomingData config faces fib strategies face_order now pp w = Ok w' -> steady w w'.
Proof.
  unfold processIncomingData. intros E. bind_inv E. rename w0 into p. destruct (Packet.IncomingFaceID p) as [inFace|]; [|injection E as <-; apply steady_refl].
  bind_inv E. destruct (faces !! inFace) as [f|]; [|bind_inv E; injection E as <-; apply steady_refl].
  eapply steady_trans; [apply (steady_count 0 1 0 0 0 0)|]. set (w1 := count 0 1 0 0 0 0 w) in *. clearbody w1.
  bind_inv E. destruct w2; [injection E as <-; apply steady_refl|]. bind_inv E.
  eapply (steady_trans _ w2).
  { destruct (csAdmit config); [|injection Eo2 as <-; apply steady_refl]. bind_inv Eo2. bind_inv Eo2. injection Eo2 as <-.
    apply steady_table, same_toks. by eapply InsertData_pits. }
  bind_inv E. destruct (FindInterestPrefixMatchByDataEnc _ _ _) as [|e [|e2 es]].
  - injection E as <-. apply steady_refl.
  - bind_inv E. by eapply satisfy_one_steady.
  - bind_inv E. by eapply satisfy_all_steady.
Qed.

Lemma after_in_record_steady now pp e inFace i fhName pending nextHop w w' :
  after_in_record config faces fib strategies children_order sortSlice now pp e inFace i fhName pending nextHop w = Ok w' ->
  steady w w'.
Proof.
  unfold after_in_record. set (lookup := if negb pending && csServe config then _ else _).
  assert (HL : pits lookup.1 = pits (table_of w))
    by (unfold lookup; by destruct (_ && _); [apply FindMatchingDataFromCS_pits|]).
  destruct lookup as [T1 [c|]]; cbn [fst] in HL; intros E; (eapply steady_trans; [apply (steady_table T1); by apply same_toks|]).
  - destruct (css T1 !! c); [|done]. apply with_strategy_inv in E as [s E]. by eapply SendData_steady.
  - eapply steady_trans; [apply (steady_table (UpdateExpirationTimer now e T1)); apply (timer_toks _ e (latest_expiration now))|].
    destruct nextHop as [nh|].
    + destruct (faces !! nh); [by eapply steady_send|]. injection E as <-. apply steady_refl.
    + apply with_strategy_inv in E as [s E]. by eapply AfterReceiveInterest_steady.
Qed.

Lemma after_checks_steady now draws pp inFace tok i nextHop w w' : tok_ok tok ->
  after_checks config faces regions fib strategies children_order sortSlice now draws pp inFace tok i nextHop w = Some (Ok w') ->
  steady w w'.
Proof.
  intros Htok. unfold after_checks. destruct (NonceV i) as [nonce|]; [|done].
  destruct (DeadNonce.Find _ _ _); [intros [= <-]; apply steady_refl|].
  destruct (InsertInterest _ _ _ _ _ _) as [[[T1 e] dup]|] eqn:EI; [|done].
  intros E. apply (steady_trans _ (set_pitCS T1 w)); [apply steady_table; by eapply InsertInterest_toks|].
  destruct dup; [injection E as <-; apply steady_refl|]. injection E as E. unfold pit_entry_of in E.
  destruct (pits (table_of (set_pitCS T1 w)) !! e) as [p|] eqn:Ep; [|done]. cbn [outcome_bind] in E.
  pose proof (InsertInRecord_ok pp nonce inFace tok now p Htok) as Hrec.
  destruct (InsertInRecord _ _ _ _ _ _) as [p' pending]. cbn [fst] in Hrec.
  eapply steady_trans; [|by eapply after_in_record_steady]. apply steady_under. intros HT. apply steady_on_pit.
  intros _ _. apply Hrec. by eapply HT.
Qed.

Lemma processIncomingInterest_steady now draws pp w w' :
  (forall p, packets w !! pp = Some p -> tok_ok (PitToken p)) ->
  processIncomingInterest config faces regions fib strategies children_order sortSlice now draws pp w = Some (Ok w') ->
  steady w w'.
Proof.
  intros Htok. unfold processIncomingInterest, packet. destruct (packets w !! pp) as [p|] eqn:Ep; [|done].
  destruct (Packet.IncomingFaceID p); [|intros [= <-]; apply steady_refl].
  destruct (faces !! _) as [f|]; [|intros [= <-]; apply steady_refl].
  destruct (Enc p) as [i|] eqn:Ee; [|done]. cbn [as_interest].
  destruct (bool_decide _); [intros [= <-]; apply steady_refl|]. set (w1 := upd_packet pp _ w).
  assert (S1 : steady w w1).
  { apply steady_packet. intros _ q Hq. assert (q = p) by congruence. subst q. split_and!; [|done|by left].
    cbn. rewrite Ee. unfold decrement_hop_limit. by destruct (HopLimitV i). }
  destruct (_ && _); [by intros [= <-]|]. intros E. eapply steady_trans; [exact S1|].
  eapply steady_trans; [apply (steady_count 1 0 0 0 0 0)|]. eapply after_checks_steady; [|exact E]. by apply Htok.
Qed.

Lemma pit_update_steady now w w' : pit_update config face_order now w = Ok w' -> steady w w'.
Proof.
  unfold pit_update. set (s0 := Ok _). set (cb := finalizeInterest _ _ _ _).
  pose proof (Update_toks cb now (table_of w) s0) as HU. destruct (Update cb now (table_of w) s0) as [T s]. cbn [fst] in HU.
  intros E. bind_inv E. destruct w0 as [d n]. injection E as <-. intros HT. split; [by apply HU|apply evolves_refl|done|done|done|done].
Qed.

(** An event takes at most the head of one queue. *)
Definition rest_of (ev : event) (t : Thread) : list nat * list nat :=
  match ev with
  | EvInterest _ _ => (drop 1 (pendingInterests t), pendingDatas t)
  | EvData _ => (pendingInterests t, drop 1 (pendingDatas t))
  | _ => (pendingInterests t, pendingDatas t)
  end.

(** The events of a thread: the tokens stay fit, the packets keep what others
    rely on, and the queues lose at most the packet at work. *)
Lemma Run_step_steady ev w w' : toks_ok (table_of w) ->
  (forall pp p, pp ∈ pendingInterests (thread w) -> packets w !! pp = Some p -> tok_ok (PitToken p)) ->
  Run_step config faces regions fib strategies children_order face_order sortSlice ev w = Some (Ok w') ->
  toks_ok (table_of w') /\ evolves (packets w) (packets w') /\ (sends_ok w -> sends_ok w') /\ threadID (thread w') = threadID (thread w) /\
  (pendingInterests (thread w'), pendingDatas (thread w')) = rest_of ev (thread w).
Proof.
  intros HT Htok E. unfold Run_step in E.
  assert (Hdone : forall w1 : World, table_of w1 = table_of w -> packets w1 = packets w -> sent w1 = sent w ->
    threadID (thread w1) = threadID (thread w) -> steady w1 w' ->
    toks_ok (table_of w') /\ evolves (packets w) (packets w') /\ (sends_ok w -> sends_ok w') /\ threadID (thread w') = threadID (thread w) /\
    (pendingInterests (thread w'), pendingDatas (thread w')) = (pendingInterests (thread w1), pendingDatas (thread w1))).
  { intros w1 Et Ep Es Ei S. destruct S as [A B X I C D]; [by rewrite Et|]. unfold sends_ok in X. rewrite Ep in B, X. rewrite Es in X.
    by rewrite I, Ei, C, D. }
  destruct ev as [now draws|now|now|now]; cbn [rest_of].
  - destruct (pendingInterests (thread w)) as [|pp rest] eqn:Eq.
    + injection E as <-. split_and!; [done|apply evolves_refl|done|done|]. by rewrite Eq.
    + set (w1 := set_thread _ w) in E. apply (Hdone w1); [done|done|done|done|]. eapply processIncomingInterest_steady; [|exact E].
      intros p Hp. apply (Htok pp); [by left|exact Hp].
  - destruct (pendingDatas (thread w)) as [|pp rest] eqn:Eq.
    + injection E as <-. split_and!; [done|apply evolves_refl|done|done|]. by rewrite Eq.
    + set (w1 := set_thread _ w) in E. injection E as E. apply (Hdone w1); [done|done|done|done|]. by eapply processIncomingData_steady.
  - injection E as <-. by split_and!; [|apply evolves_refl| | |].
  - injection E as E. apply (Hdone w); [done|done|done|done|]. by eapply pit_update_steady.
Qed.

End pipelines.

(** ** The packet of the last send *)

(** The last packet that was sent is still as it was sent. *)
Definition synced (w : World) : Prop := forall x, last (sent w) = Some x -> packets w !! send_ptr x = Some (send_packet x).

Section synced.
Context `{EncOps}.
Context (config : Config) (faces : gmap Z Face) (face_order : list Z -> list Z).

Lemma same_synced w w' : packets w' = packets w -> sent w' = sent w -> synced w -> synced w'.
Proof using Type. unfold synced. by intros -> ->. Qed.

Lemma SendPacket_synced face pp w w' : SendPacket face pp w = Ok w' -> synced w'.
Proof using Type.
  unfold SendPacket, packet. destruct (packets w !! pp) as [p|] eqn:Ep; [|done]. intros [= <-] x. cbn. rewrite last_snoc.
  by intros [= <-].
Qed.

Lemma processOutgoingData_synced pp nexthop tok inFace w w' :
  processOutgoingData faces pp nexthop tok inFace w = Ok w' -> synced w -> synced w'.
Proof using Type.
  unfold processOutgoingData. destruct (faces !! nexthop) as [f|]; [|by intros [= <-]]. intros E HS.
  bind_inv E. destruct w0; [by injection E as <-|]. by eapply SendPacket_synced.
Qed.

Lemma SendData_synced pp e nexthop inFace w w' : SendData faces pp e nexthop inFace w = Ok w' -> synced w -> synced w'.
Proof using Type.
  unfold SendData. intros E HS. bind_inv E. destruct (inRecords w0 !! nexthop); by eapply processOutgoingData_synced.
Qed.

Lemma AfterReceiveData_synced s pp e inFace w w' : AfterReceiveData faces face_order s pp e inFace w = Ok w' ->
  synced w -> synced w'.
Proof using Type.
  assert (HL : forall ids w, send_data_loop faces pp e inFace ids w = Ok w' -> synced w -> synced w').
  { induction ids as [|id ids IH]; intros w0 E HS; cbn [send_data_loop] in E; [by injection E as <-|].
    bind_inv E. eapply IH; [exact E|]. by eapply SendData_synced. }
  unfold AfterReceiveData. intros E. bind_inv E. destruct s; [by eapply HL|]. bind_inv E. by eapply HL.
Qed.

Lemma satisfy_one_synced now s pp e inFace w w' :
  satisfy_one config faces face_order now s pp e inFace w = Ok w' -> synced w -> synced w'.
Proof using Type.
  unfold satisfy_one. intros E HS. bind_inv E. apply with_strategy_inv in Eo as [s' Eo]. bind_inv E. bind_inv E. injection E as <-.
  apply (same_synced w0); [done|done|]. by eapply AfterReceiveData_synced; [exact Eo|].
Qed.

End synced.
