(* ===== verification/FwProps.v ===== *)
(** * Properties of the forwarding threads

    A thread over time: packets arrive in its queues, it handles them one by
    one, and the tables it shares with other threads may be different at every
    event. *)
From Stdlib Require Import Sorting.Sorted.
From S2P Require Import Prelude.
From S2P Require Import Enc.
From S2P Require Import NameTree.
From S2P Require Import Arena.
From S2P Require Import FibSpec.
From S2P Require Import FibTree.
From S2P Require DeadNonce.
From S2P Require PQueue.
From S2P Require Import Packet.
From S2P Require Import PitCs.
From S2P Require Import PitTree.
From S2P Require Import Pit.
From S2P Require Import ContentStore.
From S2P Require Import PitCsRun.
From S2P Require Import Fw.
From S2P Require Import FwInv.
From S2P Require Import FwRun.

(** ** What a thread reads during an event *)

Record Env (F : Type) := mkEnv {
  env_faces : gmap Z Face;
  env_regions : list Name;
  env_fib : F;
  env_strategies : gmap Z Strategy;
  env_children_order : nat -> list nat -> list nat;
  env_face_order : list Z -> list Z;
  env_sort : list FibNextHopEntry -> list FibNextHopEntry }.
Arguments mkEnv {F}.
Arguments env_faces {F}.
Arguments env_regions {F}.
Arguments env_fib {F}.
Arguments env_strategies {F}.
Arguments env_children_order {F}.
Arguments env_face_order {F}.
Arguments env_sort {F}.

Definition by_cost (a b : FibNextHopEntry) : Prop := (Cost a <= Cost b)%Z.

(** Iteration visits every key once, sorting sorts, and every name has a
    strategy that is installed. *)
Record env_ok `{EncOps} {F} `{FibStrategy F} (env : Env F) : Prop := {
  env_children_perm : forall i ks, env_children_order env i ks ≡ₚ ks;
  env_face_perm : forall l, env_face_order env l ≡ₚ l;
  env_sort_perm : forall l, env_sort env l ≡ₚ l;
  env_sort_sorted : forall l, StronglySorted by_cost (env_sort env l);
  env_strategy : forall n, is_Some (FindStrategy (env_fib env) (env_strategies env) n) }.

Section threads.
Context `{EncLaws} {F : Type} `{FibStrategy F}.
Context (config : Config).

Definition step (env : Env F) (ev : event) (w : World) : option (outcome World) :=
  Run_step config (env_faces env) (env_regions env) (env_fib env) (env_strategies env) (env_children_order env)
    (env_face_order env) (env_sort env) ev w.
Definition on_interest (env : Env F) (now : Z) (draws : list Z) (pp : nat) (w : World) : option (outcome World) :=
  processIncomingInterest config (env_faces env) (env_regions env) (env_fib env) (env_strategies env)
    (env_children_order env) (env_sort env) now draws pp w.
Definition on_data (env : Env F) (now : Z) (pp : nat) (w : World) : outcome World :=
  processIncomingData config (env_faces env) (env_fib env) (env_strategies env) (env_face_order env) now pp w.

(** A packet arrives under a fresh pointer. *)
Definition arrive (interest : bool) (pp : nat) (p : PendingPacket) (w : World) : World :=
  mkWorld (if interest then QueueInterest config pp (thread w) else QueueData config pp (thread w))
    (<[pp := p]> (packets w)) (sent w).

Inductive reached : World -> Prop :=
| reached_new id : reached (mkWorld (NewThread id) ∅ [])
| reached_arrive w interest pp p : reached w -> packets w !! pp = None -> reached (arrive interest pp p w)
| reached_step w w' env ev : reached w -> env_ok env -> event_ok w ev -> step env ev w = Some (Ok w') -> reached w'.

Context (Hcap : (0 <= csCapacity config)%Z).

Lemma arrive_inv interest pp p w : inv config w -> packets w !! pp = None -> inv config (arrive interest pp p w).
Proof.
  intros [os HI] Hnew. exists os.
  replace (table_of (arrive interest pp p w)) with (table_of w)
    by (destruct interest; cbn; unfold QueueInterest, QueueData; goal_ifs; done).
  eapply inv_kind; [|exact HI]. intros q Hq. unfold kind in *. cbn. destruct (decide (pp = q)) as [->|].
  - by rewrite Hnew in Hq.
  - by rewrite lookup_insert_ne.
Qed.

Lemma step_good env ev w : inv config w -> env_ok env -> event_ok w ev ->
  match step env ev w with
  | Some r => exists w', r = Ok w' /\ kept config (event_sends (env_faces env) w ev) w w'
  | None => exists now draws, ev = EvInterest now draws /\ forall t, t ∈ draws -> is_Some (pitTokenMap (table_of w) !! t)
  end.
Proof. intros HI [E1 E2 E3 E4 E5]. by apply Run_step_good. Qed.

Lemma reached_inv w : reached w -> inv config w.
Proof.
  induction 1 as [id|w interest pp p _ IH Hn|w w' env ev _ IH He Hev Hs]; [apply new_inv|by apply arrive_inv|].
  pose proof (step_good env ev w IH He Hev) as Hg. rewrite Hs in Hg. by destruct Hg as (w2 & [= <-] & [K _ _]).
Qed.

(** Sorted next hops: the first usable one is a cheapest usable one. *)
Lemma first_usable_cheapest (test : FibNextHopEntry -> bool) l nh : StronglySorted by_cost l ->
  List.find test l = Some nh -> forall nh', nh' ∈ l -> test nh' = true -> by_cost nh nh'.
Proof.
  induction 1 as [|a l Hs IH Hf]; [done|]. cbn. destruct (test a) eqn:E.
  - intros [= <-] nh' [->|Hin]%elem_of_cons _; [unfold by_cost; lia|]. rewrite Forall_forall in Hf. by apply Hf.
  - intros Hfind nh' [->|Hin]%elem_of_cons Ht; [congruence|]. by apply IH.
Qed.

End threads.

(** ** Properties *)

(** C13: A forwarding thread is safe: after any arrivals and events, with tables
    that may change between events, an event on well-formed packets ends
    without a run-time panic (or still draws a PIT token because all draws are
    taken), and the PIT-CS remains one that was only used through its operations,
    so that all its properties hold.  What it sends is restricted as far as the
    code checks it: Data goes only to existing faces and never with a /localhost
    name to a non-local one; a strategy sends an Interest only to an existing face
    other than the incoming one (unless ad-hoc) and to a non-local one only with
    hops left; an Interest with a NextHopFaceId may go to that face, whatever it is.
    Not checked, and not promised here, are the /localhost scope of an outgoing
    Interest and that Data does not return to the face it came from
    ([scope_and_return] in FwExamples.v). *)
Theorem thread_safe `{EncLaws} {F} `{FibStrategy F} (config : Config) (env : Env F) (w : World) (ev : event) :
  (0 <= csCapacity config)%Z -> reached (F := F) config w -> env_ok env -> event_ok w ev ->
  match step config env ev w with
  | Some r => exists w', r = Ok w' /\
      (exists l, sent w' = sent w ++ l /\ Forall (event_sends (env_faces env) w ev) l) /\
      exists os, at_work (cap config) os (table_of w')
  | None => exists now draws, ev = EvInterest now draws /\ forall t, t ∈ draws -> is_Some (pitTokenMap (table_of w) !! t)
  end.
Proof.
  intros Hc Hr He Hev. pose proof (step_good config Hc env ev w (reached_inv config Hc w Hr) He Hev) as Hg.
  destruct (step config env ev w) as [r|]; [|done]. destruct Hg as (w' & -> & [[os HI] _ HS]).
  exists w'. split_and!; [done|done|]. exists os. by apply HI.
Qed.

(** C15: Strategies: on a pending entry, best-route sends the Interest to
    exactly one cheapest usable next hop if there is a usable one and to none
    otherwise; multicast sends it to every usable next hop. *)
Theorem strategy_next_hops `{EncLaws} {F} `{FibStrategy F} (config : Config) (env : Env F) s now pp e inFace i nhs w :
  (0 <= csCapacity config)%Z -> reached (F := F) config w -> env_ok env ->
  contents_of (packets w) pp = Some (EncInterest i) -> NonceV i <> None -> live (table_of w) e ->
  let usable nh := usable_nexthop (env_faces env) i inFace (Nexthop nh) in
  exists w' l, AfterReceiveInterest (env_faces env) (env_sort env) s now pp e inFace nhs w = Ok w' /\
    sent w' = sent w ++ l /\ Forall (fun x => send_ptr x = pp -> interest_send (env_faces env) inFace x) l /\
    match s with
    | BestRoute =>
        (l = [] /\ forall nh, nh ∈ nhs -> usable nh = false) \/
        exists nh, nh ∈ nhs /\ usable nh = true /\ send_face <$> l = [Nexthop nh] /\
          forall nh', nh' ∈ nhs -> usable nh' = true -> (Cost nh <= Cost nh')%Z
    | Multicast => send_face <$> l = Nexthop <$> List.filter usable nhs
    end.
Proof.
  intros Hc Hr He Hi Hn Hl usable. destruct (NonceV i) as [nonce|] eqn:En; [|done].
  destruct Hl as (p & Hp & _).
  destruct (AfterReceiveInterest_good config (env_faces env) (env_sort env) s now pp e inFace i nonce nhs w
    (reached_inv config Hc w Hr) Hi En ltac:(by eexists)) as (w' & l & E & G & S & D).
  exists w', l. split_and!; [done|done| |].
  - destruct (good_sent _ _ _ _ G) as (l' & S' & F'). rewrite S in S'. apply app_inv_head in S' as <-.
    eapply Forall_impl; [exact F'|]. by intros x Hx _.
  - destruct s; [|done]. cbn in D. destruct (List.find _ _) as [nh|] eqn:Ef.
    + right. exists nh. pose proof Ef as [Hin Hu]%find_some. apply list_elem_of_In in Hin.
      rewrite (env_sort_perm env He) in Hin. split_and!; [done|done|done|]. intros nh' Hin' Hu'.
      apply (first_usable_cheapest _ _ _ (env_sort_sorted env He nhs) Ef); [by rewrite (env_sort_perm env He)|done].
    + left. split; [by destruct l|]. intros nh Hin. apply (find_none _ _ Ef nh). apply list_elem_of_In.
      by rewrite (env_sort_perm env He).
Qed.

(** The pending entries some Data satisfies: those of its token if it has one,
    else those its name satisfies. *)
Definition pending_match (T : PitCsTree) (name : Name) (tok : option Z) (e : nat) : Prop :=
  live T e /\ exists p, pits T !! e = Some p /\
    match tok with Some t => token p = t | None => satisfies p name end.

(** The faces the Data of [es] is for, with the PIT tokens they gave: of one entry
    every in-record's, of several those of the other faces. *)
Definition recipients {F} (env : Env F) (T : PitCsTree) (inFace : Z) (es : list nat) : list (Z * list byte) :=
  match es with
  | [e] => from_option (all_downstreams (env_face_order env)) [] (pits T !! e)
  | _ => concat ((fun e => from_option (other_downstreams (env_face_order env) inFace) [] (pits T !! e)) <$> es)
  end.

Lemma found_match `{EncLaws} T name tok : pit_ok T -> universe name ->
  forall e, e ∈ FindInterestPrefixMatchByDataEnc T (match tok with Some _ => [] | None => name end) tok <-> pending_match T name tok e.
Proof.
  intros Hok Hu e. destruct tok as [t|]; [by apply token_lookup_spec|].
  by apply findInterestPrefixMatchByNameEnc_spec.
Qed.

Lemma pending_match_same `{EncLaws} T T' name tok e : pits T' = pits T -> (forall e, live T' e <-> live T e) ->
  pending_match T' name tok e <-> pending_match T name tok e.
Proof. intros Ep Hl. unfold pending_match. by rewrite Ep, Hl. Qed.

(** Data from a non-local face may not be under /localhost. *)
Definition violates_localhost (f : Face) (p : PendingPacket) (d : Data) : bool :=
  bool_decide (face_scope f = NonLocal) && (0 <? length (NameCache p)) && is_localhost (DataNameV d).

Lemma on_data_admitted `{EncLaws} {F} `{FibStrategy F} config (env : Env F) now pp w p d id f tok :
  (0 <= csCapacity config)%Z -> inv config w -> data_packet w pp ->
  packets w !! pp = Some p -> Enc p = EncData d -> IncomingFaceID p = Some id -> env_faces env !! id = Some f ->
  violates_localhost f p d = false -> incoming_token (PitToken p) = Ok tok -> 
  exists w2 es, good config (data_send (env_faces env)) w w2 /\ pits (table_of w2) = pits (table_of w) /\
    sent w2 = sent w /\ packets w2 = packets w /\ deadNonceList (thread w2) = deadNonceList (thread w) /\
    NoDup es /\ (forall e, e ∈ es <-> pending_match (table_of w) (DataNameV d) tok e) /\
    on_data config env now pp w =
      match es with
      | [] => Ok w2
      | [e] => satisfy_one config (env_faces env) (env_face_order env) now
                 (FindStrategy (env_fib env) (env_strategies env) (DataNameV d)) pp e id w2
      | first :: _ => satisfy_all config (env_faces env) (env_face_order env) now
                 (FindStrategy (env_fib env) (env_strategies env) (DataNameV d)) pp first id es w2
      end.
Proof.
  intros Hcap HI (p0 & d0 & Hp0 & He0 & Hu & Ht & Hn) Hp He Hid Hf Hv Htok.
  assert (p0 = p) by congruence. subst p0. assert (d0 = d) by congruence. subst d0. clear Hp0 He0.
  unfold on_data, processIncomingData, packet. rewrite Hp. cbn [outcome_bind]. rewrite Hid, Htok. cbn [outcome_bind]. rewrite Hf.
  assert (Hc : contents_of (packets w) pp = Some (EncData d)) by (unfold contents_of; by rewrite Hp; cbn; rewrite He).
  pose proof (good_count config (data_send (env_faces env)) w 0 1 0 0 0 0 HI) as G1. set (w1 := count 0 1 0 0 0 0 w) in *.
  set (viol := if _ && _ then _ else Ok false).
  assert (Hviol : viol = Ok false).
  { unfold viol. unfold violates_localhost in Hv. destruct (bool_decide (face_scope f = NonLocal)); [|done]. cbn [andb] in *.
    destruct (Nat.ltb_spec 0 (length (NameCache p))) as [Hl|]; [|done]. cbn [andb] in Hv.
    rewrite (data_pkt_contents w pp d Hc). cbn [outcome_bind]. destruct (DataNameV d) as [|c n] eqn:Ed; [|unfold is_localhost in Hv; by rewrite Hv].
    destruct Hn as [?|Hn]; [done|]. rewrite Hn in Hl. cbn in Hl. lia. }
  rewrite Hviol. cbn [outcome_bind]. assert (Hc1 : contents_of (packets w1) pp = Some (EncData d)) by done.
  destruct (admit_good config (env_faces env) Hcap now pp w1 d (good_inv G1) Hc1 Hu) as (w2 & -> & G2 & Ep2 & S2 & D2 & Hl2 & Hk2).
  cbn [outcome_bind]. assert (Hc2 : contents_of (packets w2) pp = Some (EncData d)) by (by rewrite (good_contents _ _ _ _ G2)).
  set (nameOf := match tok with Some _ => _ | None => _ end).
  assert (Hname : nameOf = Ok (match tok with Some _ => [] | None => DataNameV d end))
    by (unfold nameOf; destruct tok; [done|by rewrite (data_pkt_contents w2 pp d Hc2)]).
  rewrite Hname. cbn [outcome_bind]. rewrite (data_pkt_contents w2 pp d Hc2). cbn [outcome_bind].
  destruct (good_inv G2) as [os2 HT2]. destruct (at_work_ok _ _ _ (tinv_work _ _ _ _ HT2)) as [Hpit2 _ _].
  exists w2, (FindInterestPrefixMatchByDataEnc (table_of w2) (match tok with Some _ => [] | None => DataNameV d end) tok).
  split_and!; [by eapply good_trans|done|done|by rewrite Hk2|done| | |by destruct (FindInterestPrefixMatchByDataEnc _ _ _) as [|? [|? ?]]].
  - by apply found_entries.
  - intros e. rewrite (found_match _ _ _ Hpit2 Hu). apply pending_match_same; [done|]. intros e'. by rewrite Hl2.
Qed.

(** C14: Data satisfies its Interests: admitted Data is queued, once per in-record, at
    exactly the faces of the in-records of the pending entries it matches, except
    faces that its /localhost name may not go to; with one matching entry its own
    incoming face is among them, with several it is not.  All these copies are one
    packet, into which the token of each downstream is written before it is queued
    there, unless that token is empty: a copy carries its downstream's own token if
    it gave one, and otherwise that of the last downstream before it that gave one
    (or the token of the Data itself).  With one entry the nonces of its
    out-records become dead nonces.  Every matched entry ends satisfied, without
    records, expiring now. *)
Theorem data_reaches_downstreams `{EncLaws} {F} `{FibStrategy F} config (env : Env F) now pp w p d id f tok :
  (0 <= csCapacity config)%Z -> reached (F := F) config w -> env_ok env -> data_packet w pp ->
  packets w !! pp = Some p -> Enc p = EncData d -> IncomingFaceID p = Some id -> env_faces env !! id = Some f ->
  violates_localhost f p d = false -> incoming_token (PitToken p) = Ok tok ->
  exists es w' l, NoDup es /\ (forall e, e ∈ es <-> pending_match (table_of w) (DataNameV d) tok e) /\
    on_data config env now pp w = Ok w' /\ sent w' = sent w ++ l /\
    Forall (fun s => send_ptr s = pp /\ Enc (send_packet s) = EncData d) l /\
    copy_of <$> l = copies (PitToken p) (List.filter (may_go (env_faces env) d) (recipients env (table_of w) id es)) /\
    (forall e, e ∈ es -> exists q, pits (table_of w') !! e = Some q /\ satisfied_entry now q) /\
    (forall e q, es = [e] -> pits (table_of w) !! e = Some q ->
      deadNonceList (thread w') = dead_after config (deadNonceList (thread w)) now (DataNameV d) (out_records (env_face_order env) q)).
Proof.
  intros Hcap Hr Henv Hpk Hp He Hid Hf Hv Htok. pose proof (reached_inv config Hcap w Hr) as HI.
  destruct (on_data_admitted config env now pp w p d id f tok Hcap HI Hpk Hp He Hid Hf Hv Htok)
    as (w2 & es & G2 & Ep2 & S2 & K2 & D2 & Hnd & Hes & ->).
  assert (Hc : contents_of (packets w2) pp = Some (EncData d)).
  { rewrite (good_contents _ _ _ _ G2). unfold contents_of. rewrite Hp. cbn. by rewrite He. }
  assert (Hsome : forall e, e ∈ es -> is_Some (pits (table_of w2) !! e)).
  { intros e (_ & q & Hq & _)%Hes. rewrite Ep2. by eexists. }
  rewrite <- K2 in Hp.
  exists es. destruct es as [|e [|e2 es]].
  - exists w2, []. rewrite app_nil_r. split_and!; try done. intros e Hin. by apply elem_of_nil in Hin.
  - destruct (Hsome e ltac:(by left)) as [q Hq].
    destruct (satisfy_one_good config (env_faces env) (env_face_order env) (env_face_perm env Henv) now _ pp e id w2 d q
      (good_inv G2) Hc Hq (env_strategy env Henv (DataNameV d))) as (w3 & _ & E & G3 & Hsat & D3 & _ & _).
    destruct (satisfy_one_copied config (env_faces env) (env_face_order env) (env_face_perm env Henv) now _ pp e id w2 w3 d q Hq E p Hp He)
      as (p' & l & _ & _ & _ & S3 & F3 & A3).
    rewrite Ep2 in Hq. exists w3, l. unfold recipients. rewrite Hq. split_and!; [done|done|done|by rewrite S3, S2|done|done| |].
    + by intros x ->%list_elem_of_singleton.
    + intros e' q' [= <-] Hq'. assert (q' = q) by congruence. subst q'. by rewrite D3, D2.
  - destruct (satisfy_all_good config (env_faces env) (env_face_order env) (env_face_perm env Henv) now
      (FindStrategy (env_fib env) (env_strategies env) (DataNameV d)) pp e id d (e :: e2 :: es) w2 (good_inv G2) Hc Hsome Hnd
      (Hsome e ltac:(by left)) (env_strategy env Henv (DataNameV d))) as (w3 & _ & E & G3 & Hsat & Hno & _ & _).
    destruct (satisfy_all_copied config (env_faces env) (env_face_order env) (env_face_perm env Henv) now _ pp e id d (e :: e2 :: es)
      w2 w3 (good_inv G2) Hc Hsome Hnd (Hsome e ltac:(by left)) (env_strategy env Henv (DataNameV d)) E p Hp He)
      as (p' & l & _ & _ & _ & S3 & F3 & A3).
    exists w3, l. split_and!; [done|done|done|by rewrite S3, S2|done| |done|done]. rewrite F3. unfold recipients. by rewrite Ep2.
Qed.

(** Interests that must not be forwarded are dropped: without or with an
    unknown incoming face, with no hops left, under /localhost from a
    non-local face, with a dead nonce, or looping (another face's in-record
    has the same nonce), the Interest causes nothing to be sent, and no
    Interest becomes pending or stops being so. *)
Lemma interest_dropped `{EncLaws} {F} `{FibStrategy F} config (env : Env F) now draws pp w p i nonce :
  (0 <= csCapacity config)%Z -> reached (F := F) config w ->
  packets w !! pp = Some p -> Enc p = EncInterest i -> universe (NameV i) -> NonceV i = Some nonce ->
  (IncomingFaceID p = None \/
   (exists id, IncomingFaceID p = Some id /\ env_faces env !! id = None) \/
   HopLimitV i = Some 0%Z \/
   (exists id f, IncomingFaceID p = Some id /\ env_faces env !! id = Some f /\
      (face_scope f = NonLocal /\ is_localhost (NameV i) = true \/
       DeadNonce.Find (deadNonceList (thread w)) (NameV i) nonce = true \/
       exists e q face r, pending_key (table_of w) (interest_key i (forwarding_hint (env_regions env) i)) e /\
         pits (table_of w) !! e = Some q /\ inRecords q !! face = Some r /\ face <> FaceID f /\ in_LatestEncNonce r = nonce))) ->
  exists w', on_interest config env now draws pp w = Some (Ok w') /\ sent w' = sent w /\
    forall e, live (table_of w') e <-> live (table_of w) e.
Proof.
  intros Hcap Hr Hp He Hu Hn Hcase. unfold on_interest, processIncomingInterest, packet. rewrite Hp.
  destruct (IncomingFaceID p) as [id|] eqn:Eid; [|by exists w].
  destruct (env_faces env !! id) as [f|] eqn:Ef; [|by exists w]. rewrite He. cbn [as_interest].
  destruct (bool_decide (HopLimitV i = Some 0%Z)) eqn:Eh; [by exists w|]. apply bool_decide_eq_false in Eh.
  assert (Hi : NameV (decrement_hop_limit i) = NameV i /\ NonceV (decrement_hop_limit i) = NonceV i /\
    forwarding_hint (env_regions env) (decrement_hop_limit i) = forwarding_hint (env_regions env) i /\
    CanBePrefixV (decrement_hop_limit i) = CanBePrefixV i /\ MustBeFreshV (decrement_hop_limit i) = MustBeFreshV i)
    by (unfold decrement_hop_limit; by destruct (HopLimitV i)).
  destruct Hi as (Hi1 & Hi2 & Hi3 & Hi4 & Hi5). rewrite Hi1.
  destruct Hcase as [?|[(id' & [= <-] & ?)|[?|(id' & f' & [= <-] & Hf & Hcase)]]]; [done|congruence|done|].
  assert (f' = f) by congruence. subst f'.
  destruct (bool_decide (face_scope f = NonLocal) && is_localhost (NameV i)) eqn:Elh; [by eexists|].
  destruct Hcase as [[Hs Hl]|Hcase]; [by rewrite bool_decide_true, Hl in Elh|].
  unfold after_checks. rewrite Hi2, Hn. cbn [deadNonceList count thread set_thread]. rewrite Hi1.
  destruct (DeadNonce.Find _ _ _) eqn:Edead; [by eexists|].
  destruct Hcase as [Hd|(e & q & face & r & [Hl (q' & Hq' & Hk)] & Hq & Hrec & Hne & Hnonce)]; [by rewrite Hd in Edead|].
  assert (q' = q) by congruence. subst q'. rewrite Hi3. cbn [pitCS].
  pose proof (reached_inv config Hcap w Hr) as [os HT]. destruct (at_work_ok _ _ _ (tinv_work _ _ _ _ HT)) as [Hpit _ _].
  set (hint := forwarding_hint _ i) in *. set (i' := decrement_hop_limit i) in *. change (table_of (upd_packet pp _ w)) with (table_of w).
  pose proof (find_or_create_spec (table_of w) i' hint draws Hpit ltac:(by rewrite Hi1)) as Hfc.
  assert (Hkey : interest_key i' hint = interest_key i hint) by (unfold interest_key; by rewrite Hi1, Hi4, Hi5). rewrite Hkey in Hfc.
  assert (Hpend : pending_key (table_of w) (interest_key i hint) e) by (split; [done|by exists q]).
  unfold InsertInterest. destruct (find_or_create _ _ _ _) as [[T1 e1]|]; [|by destruct Hfc as [Hno _]; apply Hno in Hpend].
  destruct Hfc as (Hok1 & _ & [_ (p1 & Hp1 & Hk1)] & _ & [([Hl1 (p2 & Hp2 & Hk2)] & Ep & Hlv)|(Hno & _)]); [|by apply Hno in Hpend].
  assert (e1 = e) as -> by (apply (pit_keys _ Hpit e1 e p2 q); congruence).
  rewrite Ep, Hq. assert (Hdup : duplicate_nonce q nonce (FaceID f) = true) by (apply duplicate_nonce_spec; by exists face, r).
  rewrite Hdup. by eexists.
Qed.

(** Malformed packets crash the thread: an Interest without a Nonce that is
    not dropped before the dead nonce list is consulted, Data whose PIT token
    has fewer than six bytes, and Data with an empty name from a non-local
    face (the check tests [NameCache], the name's string, and then reads the
    first component) all end in a run-time panic. *)
Lemma malformed_packets_panic `{EncOps} {F} `{FibStrategy F} config (env : Env F) now draws pp w p id f :
  packets w !! pp = Some p -> IncomingFaceID p = Some id -> env_faces env !! id = Some f ->
  (forall i, Enc p = EncInterest i -> NonceV i = None -> HopLimitV i <> Some 0%Z ->
    (face_scope f = NonLocal -> is_localhost (NameV i) = false) ->
    on_interest config env now draws pp w = Some Panic) /\
  (forall d, Enc p = EncData d -> 0 < length (PitToken p) < 6 -> on_data config env now pp w = Panic) /\
  (forall d, Enc p = EncData d -> PitToken p = [] -> DataNameV d = [] -> NameCache p <> [] -> face_scope f = NonLocal ->
    on_data config env now pp w = Panic).
Proof.
  intros Hp Hid Hf. split_and!.
  - intros i He Hn Hh Hl. unfold on_interest, processIncomingInterest, packet. rewrite Hp, Hid, Hf, He. cbn [as_interest].
    rewrite bool_decide_false by done.
    assert (Hi : NameV (decrement_hop_limit i) = NameV i /\ NonceV (decrement_hop_limit i) = None)
      by (unfold decrement_hop_limit; by destruct (HopLimitV i)).
    destruct Hi as [Hi1 Hi2]. rewrite Hi1.
    replace (bool_decide (face_scope f = NonLocal) && is_localhost (NameV i)) with false
      by (destruct (face_scope f); [done|by rewrite Hl]).
    unfold after_checks. by rewrite Hi2.
  - intros d He Ht. unfold on_data, processIncomingData, packet. rewrite Hp. cbn [outcome_bind]. rewrite Hid.
    unfold incoming_token. destruct (PitToken p) as [|b tok]; [cbn in Ht; lia|].
    unfold go_slice. rewrite bool_decide_false by (cbn [length] in *; lia). done.
  - intros d He Ht Hd Hc Hs. unfold on_data, processIncomingData, packet. rewrite Hp. cbn [outcome_bind]. rewrite Hid, Ht.
    cbn [incoming_token outcome_bind]. rewrite Hf, bool_decide_true by done.
    replace (0 <? length (NameCache p)) with true by (symmetry; apply Nat.ltb_lt; by destruct (NameCache p); cbn; [|lia]).
    cbn [andb]. unfold data_pkt, packet. rewrite Hp. cbn [outcome_bind]. rewrite He. cbn [as_data outcome_bind]. by rewrite Hd.
Qed.
