(* ===== verification/FwExamples.v ===== *)
(** * Forwarding threads in action

    Concrete runs of a thread: instances of the properties of [FwProps], and
    behaviours of the pipelines that lose tokens, entries and nonces or leave scope
    unchecked. *)
From stdpp Require Import sorting.
From S2P Require Import Prelude.
From S2P Require Import Enc.
From S2P Require Import NameTree.
From S2P Require Import Arena.
From S2P Require Import FibSpec.
From S2P Require Import FibTree.
From S2P Require DeadNonce.
From S2P Require PQueue.
From S2P Require Import Packet.
From S2P Require Import PitCs.
From S2P Require Import PitTree.
From S2P Require Import Pit.
From S2P Require Import ContentStore.
From S2P Require Import PitCsRun.
From S2P Require Import Fw.
From S2P Require Import FwInv.
From S2P Require Import FwRun.
From S2P Require Import FwProps.

#[local] Existing Instance ref_ops.
#[local] Existing Instance ref_laws.

(** ** The environment *)

Definition ex_prefix : Name := [gc "localhost"; gc "nfd"; gc "strategy"].
Definition ex_version (v : Z) : Component := mkComponent 54 [z2b v].

Definition ex_fib : FibStrategyTree :=
  FibSpec.run (newFibStrategyTableTree (Some (strategy_name ex_prefix ex_version BestRoute)))
    [OpInsert [gc "a"] 20 5; OpInsert [gc "a"] 21 3].

#[export] Instance by_cost_dec a b : Decision (by_cost a b).
Proof. unfold by_cost. apply _. Defined.
#[export] Instance by_cost_total : Total by_cost.
Proof. intros a b. unfold by_cost. lia. Qed.
#[export] Instance by_cost_trans : Transitive by_cost.
Proof. intros a b c. unfold by_cost. lia. Qed.

Definition ex_faces : gmap Z Face :=
  list_to_map ((fun id => (id, mkFace id NonLocal PointToPoint)) <$> [10; 11; 20; 21]%Z).

Definition ex_env : Env FibStrategyTree :=
  mkEnv ex_faces [] ex_fib (InstantiateStrategies ex_prefix ex_version) (fun _ ks => ks) (fun l => l) (merge_sort by_cost).

Definition ex_config : Config := mkConfig true true 10 6000000000 16.

Lemma ex_strategy_everywhere n : FindStrategyEnc ex_fib n = Some (strategy_name ex_prefix ex_version BestRoute).
Proof.
  set (base := strategy_name ex_prefix ex_version BestRoute).
  destruct (FibTree.run_observes (Some base) [OpInsert [gc "a"] 20 5; OpInsert [gc "a"] 21 3]) as [HO _].
  destruct (HO n I) as (_ & _ & E). unfold ex_fib. fold base. rewrite E. cbn.
  pose proof (lpm_spec (at_name [] (Some base) (fun _ => None)) n) as HL.
  destruct (lpm _ n) as [x|].
  - destruct HL as (p & _ & Hp & _). unfold at_name in Hp. case_decide; [done|done].
  - specialize (HL [] (prefix_nil n)). unfold at_name in HL. by rewrite decide_True in HL.
Qed.

Lemma ex_env_ok : env_ok ex_env.
Proof.
  apply Build_env_ok.
  - done.
  - done.
  - intros l. apply merge_sort_Permutation.
  - intros l. apply (StronglySorted_merge_sort by_cost l).
  - intros n. unfold FindStrategy. change (env_fib ex_env) with ex_fib. rewrite ex_strategy_everywhere.
    vm_compute. by eexists.
Qed.

(** ** Runs *)

Inductive act := Arrives (interest : bool) (pp : nat) (p : PendingPacket) | Happens (ev : event).

(** Checking that the next packet is well-formed. *)
Definition event_okb (w : World) (ev : event) : bool :=
  match ev with
  | EvInterest _ _ =>
      match pendingInterests (thread w) with
      | pp :: _ =>
          match packets w !! pp with
          | Some p => match Enc p with EncInterest i => bool_decide (NonceV i <> None) | EncData _ => false end
          | None => false
          end
      | [] => true
      end
  | EvData _ =>
      match pendingDatas (thread w) with
      | pp :: _ =>
          match packets w !! pp with
          | Some p =>
              match Enc p with
              | EncData d => bool_decide ((PitToken p = [] \/ 6 <= length (PitToken p)) /\ (DataNameV d <> [] \/ NameCache p = []))
              | EncInterest _ => false
              end
          | None => false
          end
      | [] => true
      end
  | _ => true
  end.

Lemma event_okb_ok w ev : event_okb w ev = true -> event_ok w ev.
Proof.
  destruct ev; cbn; try done.
  - destruct (pendingInterests (thread w)) as [|pp l]; [done|]. unfold interest_packet.
    destruct (packets w !! pp) as [p|]; [|done]. destruct (Enc p) as [i|] eqn:E; [|done].
    intros Hb%bool_decide_eq_true. by exists p, i.
  - destruct (pendingDatas (thread w)) as [|pp l]; [done|]. unfold data_packet.
    destruct (packets w !! pp) as [p|]; [|done]. destruct (Enc p) as [|d] eqn:E; [done|].
    intros [H1 H2]%bool_decide_eq_true. by exists p, d.
Qed.

Fixpoint acts (l : list act) (w : World) : option World :=
  match l with
  | [] => Some w
  | Arrives b pp p :: l' => if decide (packets w !! pp = None) then acts l' (arrive ex_config b pp p w) else None
  | Happens ev :: l' =>
      if event_okb w ev then
        match step ex_config ex_env ev w with
        | Some (Ok w') => acts l' w'
        | _ => None
        end
      else None
  end.

Lemma acts_reached l : forall w w', reached (F := FibStrategyTree) ex_config w -> acts l w = Some w' ->
  reached (F := FibStrategyTree) ex_config w'.
Proof.
  induction l as [|[b pp p|ev] l IH]; intros w w' Hr E; cbn in E; [by injection E as <-| |].
  - case_decide; [|done]. eapply IH; [by apply reached_arrive|done].
  - destruct (event_okb w ev) eqn:Eo; [|done]. destruct (step ex_config ex_env ev w) as [[w1| |]|] eqn:Es; try done.
    eapply IH; [|done]. by apply (reached_step ex_config w w1 ex_env ev Hr ex_env_ok (event_okb_ok _ _ Eo)).
Qed.

Definition start : World := mkWorld (NewThread 0) ∅ [].
Definition after (l : list act) : World := default start (acts l start).

Definition interest_from (face : Z) (name : Name) (prefix : bool) (nonce : Z) (tok : list byte) : PendingPacket :=
  mkPending tok None (Some face) None None (EncInterest (mkInterest name prefix false None (Some nonce) None)) [] [].
Definition data_from (face : Z) (name : Name) : PendingPacket :=
  mkPending [] None (Some face) None None (EncData (mkData name (Some 1000%Z))) [] (gs "/").

Definition token_a : list byte := [x01; x01; x01; x01; x01; x01].
Definition token_b : list byte := [x02; x02; x02; x02; x02; x02].

Definition ax : Name := [gc "a"; gc "x"].

(** Two downstreams ask for /a/x, the first with a PIT token, the second with
    or without one; then the Data arrives from the upstream. *)
Definition two_downstreams (tok : list byte) : list act := [
  Arrives true 0 (interest_from 10 ax false 1 token_a); Happens (EvInterest 100 [7%Z]);
  Arrives true 1 (interest_from 11 ax false 2 tok); Happens (EvInterest 200 []);
  Arrives false 2 (data_from 21 ax)].

Definition pending_world : World := after (two_downstreams token_b).

Lemma after_reached l : acts l start <> None -> reached (F := FibStrategyTree) ex_config (after l).
Proof.
  intros Hn. unfold after. destruct (acts l start) as [w|] eqn:E; [|done]. cbn.
  by apply (acts_reached l start w (reached_new ex_config 0)).
Qed.

Lemma pending_reached : reached (F := FibStrategyTree) ex_config pending_world.
Proof. apply after_reached. by vm_compute. Qed.

Lemma thread_safe_witness :
  exists w', step ex_config ex_env (EvData 300) pending_world = Some (Ok w') /\
    map send_face (sent pending_world) = [21; 21]%Z /\ length (sent w') = 4 /\
    exists os, at_work (cap ex_config) os (table_of w').
Proof.
  pose proof (thread_safe ex_config ex_env pending_world (EvData 300) ltac:(vm_compute; discriminate)
    pending_reached ex_env_ok (event_okb_ok pending_world (EvData 300) ltac:(vm_compute; reflexivity))) as HS.
  destruct (step ex_config ex_env (EvData 300) pending_world) as [r|] eqn:E; [|exfalso; vm_compute in E; discriminate E].
  destruct HS as (w' & -> & _ & Hw). exists w'. split; [reflexivity|]. split; [vm_compute; reflexivity|]. split; [|exact Hw].
  vm_compute in E. injection E as <-. reflexivity.
Defined.

(** One downstream's Data, Interests and drops. *)
Definition data_world : World := after (two_downstreams token_b).
Definition interest_world : World := after [
  Arrives true 0 (interest_from 10 ax false 1 token_a); Happens (EvInterest 100 [7%Z]);
  Arrives true 1 (interest_from 11 ax false 1 [])].

Lemma interest_reached : reached (F := FibStrategyTree) ex_config interest_world.
Proof. apply after_reached. by vm_compute. Qed.

(** Sharing one packet between faces. *)
Definition delivered_world (tok : list byte) : World := after (two_downstreams tok ++ [Happens (EvData 300)]).

(** Data from the cache. *)
Definition cached_world : World := after [
  Arrives false 0 (data_from 21 ax); Happens (EvData 100);
  Arrives true 1 (interest_from 10 ax false 1 []); Happens (EvInterest 200 [7%Z])].

(** Two entries for one Data packet. *)
Definition two_entries : list act := [
  Arrives true 0 (interest_from 10 [gc "a"] true 1 []); Happens (EvInterest 100 [7%Z]);
  Arrives true 1 (interest_from 11 ax false 2 []); Happens (EvInterest 200 [8%Z]);
  Arrives false 2 (data_from 21 ax)].

(** The other iteration order of the in-records. *)
Definition ex_env_rev : Env FibStrategyTree :=
  mkEnv ex_faces [] ex_fib (InstantiateStrategies ex_prefix ex_version) (fun _ ks => ks) (@rev Z) (merge_sort by_cost).

Definition world_of (x : outcome World) : World := match x with Ok w => w | _ => start end.

(** PIT tokens leak between downstreams: all downstreams of a Data packet
    share the packet, and its token is written before each send.  (1) The face
    that reads its queue after the next send sees the other downstream's
    token.  (2) A downstream whose Interest had no token gets Data with the
    token of the downstream served before it, since an empty token does not
    reset the packet's. *)
Lemma shared_packet_token_leaks :
  let w := delivered_world token_b in
  let w' := world_of (on_data ex_config ex_env_rev 300 2 (after (two_downstreams []))) in
  ((exists s, s ∈ sent w /\ send_face s = 11%Z /\ send_ptr s = 2 /\ PitToken (send_packet s) = token_b) /\
   PitToken <$> packets w !! 2 = Some token_a) /\
  (inRecords <$> pits (table_of (after (two_downstreams []))) !! 0) ≫= (fun m => in_PitToken <$> m !! 11%Z) = Some [] /\
  exists s, s ∈ sent w' /\ send_face s = 11%Z /\ send_ptr s = 2 /\ PitToken (send_packet s) = token_a.
Proof.
  cbn zeta. split; [split; [|vm_compute; reflexivity]|split; [vm_compute; reflexivity|]].
  - exists (nth 2 (sent (delivered_world token_b)) (mkSend 0 0 (data_from 0 []))).
    split; [apply list_elem_of_In, nth_In; vm_compute; lia|]. vm_compute. done.
  - exists (nth 3 (sent (world_of (on_data ex_config ex_env_rev 300 2 (after (two_downstreams []))))) (mkSend 0 0 (data_from 0 []))).
    split; [apply list_elem_of_In, nth_In; vm_compute; lia|]. vm_compute. done.
Qed.

(** An Interest satisfied from the Content Store is never forgotten: the
    pipeline returns before its expiration timer is set, so the PIT entry
    stays pending, without records and outside the expiry queue, after any
    later update. *)
Lemma cached_interest_never_expires :
  let w := cached_world in
  send_face <$> sent w = [10%Z] /\ live (table_of w) 0 /\
  (inRecords <$> pits (table_of w) !! 0) = Some ∅ /\ pitExpiryQueue (table_of w) = [] /\
  forall S (cb : nameTreePitEntry -> S -> S) now s, (Update cb now (table_of w) s).1 = table_of w.
Proof.
  cbn zeta. assert (Hq : pitExpiryQueue (table_of cached_world) = []) by (vm_compute; reflexivity).
  split; [vm_compute; reflexivity|]. split; [|split; [vm_compute; reflexivity|split; [done|]]].
  - assert (Hr : reached (F := FibStrategyTree) ex_config cached_world) by (apply after_reached; by vm_compute).
    destruct (reached_inv ex_config ltac:(vm_compute; discriminate) _ Hr) as [os HT].
    destruct (at_work_ok _ _ _ (tinv_work _ _ _ _ HT)) as [Hpit _ _].
    assert (Ht : pitTokenMap (table_of cached_world) !! 7%Z = Some 0) by (vm_compute; reflexivity).
    by apply (pit_tokens _ Hpit) in Ht as (p & ? & _).
  - intros S cb now s. unfold Update. by rewrite Hq.
Qed.

(** With several matching entries only the first one's nonces become dead:
    the loop reads the out-records of [pitEntries[0]] in every round, which
    are cleared in the first.  The nonce 1 that was sent out for /a is not
    in the dead nonce list after the Data, the nonce 2 of /a/x is. *)
Lemma multiple_match_loses_nonces :
  let w := after two_entries in
  let w' := world_of (on_data ex_config ex_env 300 2 w) in
  (outRecords <$> pits (table_of w) !! 0) ≫= (fun m => out_LatestEncNonce <$> m !! 21%Z) = Some 1%Z /\
  (outRecords <$> pits (table_of w) !! 1) ≫= (fun m => out_LatestEncNonce <$> m !! 21%Z) = Some 2%Z /\
  (outRecords <$> pits (table_of w') !! 0) = Some ∅ /\
  DeadNonce.Find (deadNonceList (thread w')) ax 1 = false /\
  DeadNonce.Find (deadNonceList (thread w')) [gc "a"] 1 = false /\
  DeadNonce.Find (deadNonceList (thread w')) ax 2 = true.
Proof. vm_compute. repeat split. Qed.

(** What is not checked.  (1) An Interest under /localhost from a local face is sent
    to a non-local next hop when the FIB has one: the scope of what goes out is
    checked for Data only.  (2) Data with one matching entry also goes back to the
    face it came from, when that face is among the entry's in-records. *)
Definition lx : Name := [gc "localhost"; gc "x"].
Definition local_env : Env FibStrategyTree :=
  mkEnv (<[10%Z := mkFace 10 Local PointToPoint]> ex_faces) []
    (FibSpec.run (newFibStrategyTableTree (Some (strategy_name ex_prefix ex_version BestRoute))) [OpInsert [gc "localhost"] 21 3])
    (InstantiateStrategies ex_prefix ex_version) (fun _ ks => ks) (fun l => l) (merge_sort by_cost).
Definition sent_of (x : option (outcome World)) : list (Z * option Scope) :=
  match x with Some (Ok w) => (fun s => (send_face s, face_scope <$> env_faces local_env !! send_face s)) <$> sent w | _ => [] end.
Definition asked_by_both : World := after [
  Arrives true 0 (interest_from 10 ax false 1 []); Happens (EvInterest 100 [7%Z]);
  Arrives true 1 (interest_from 21 ax false 2 []); Happens (EvInterest 200 []);
  Arrives false 2 (data_from 21 ax)].

Lemma scope_and_return :
  sent_of (on_interest ex_config local_env 100 [7%Z] 0 (arrive ex_config true 0 (interest_from 10 lx false 1 []) start)) =
    [(21%Z, Some NonLocal)] /\
  (send_face <$> drop (length (sent asked_by_both)) (sent (world_of (on_data ex_config ex_env 300 2 asked_by_both)))) = [21; 10]%Z.
Proof. vm_compute. by split. Qed.

(** ** Instances *)

Lemma strategy_next_hops_witness :
  exists w' l, AfterReceiveInterest ex_faces (merge_sort by_cost) BestRoute 300 1 0 11
      [mkNextHop 20 5; mkNextHop 21 3] interest_world = Ok w' /\ send_face <$> l = [21%Z] /\
    sent w' = sent interest_world ++ l.
Proof.
  pose proof (strategy_next_hops ex_config ex_env BestRoute 300 1 0 11
    (mkInterest ax false false None (Some 1%Z) None) [mkNextHop 20 5; mkNextHop 21 3] interest_world
    ltac:(vm_compute; discriminate) interest_reached ex_env_ok ltac:(vm_compute; reflexivity) ltac:(discriminate)) as HS.
  destruct HS as (w' & l & E & S & _ & HC).
  { destruct (reached_inv ex_config ltac:(vm_compute; discriminate) _ interest_reached) as [os HT].
    destruct (at_work_ok _ _ _ (tinv_work _ _ _ _ HT)) as [Hpit _ _].
    assert (Ht : pitTokenMap (table_of interest_world) !! 7%Z = Some 0) by (vm_compute; reflexivity).
    apply (pit_tokens _ Hpit) in Ht as (p & Hl & _). exact Hl. }
  exists w', l. split; [exact E|]. split; [|exact S].
  destruct HC as [[_ Hno]|(nh & Hin & Hu & HF & Hmin)].
  - exfalso. specialize (Hno (mkNextHop 20 5) ltac:(left)). vm_compute in Hno. discriminate Hno.
  - rewrite HF. specialize (Hmin (mkNextHop 21 3) ltac:(right; left) ltac:(vm_compute; reflexivity)).
    apply elem_of_cons in Hin as [->|Hin]; [vm_compute in Hmin; exfalso; by apply Hmin|].
    apply list_elem_of_singleton in Hin as ->. reflexivity.
Defined.

Lemma data_reaches_downstreams_witness :
  exists (es : list nat) w' l, on_data ex_config ex_env 300 2 pending_world = Ok w' /\ sent w' = sent pending_world ++ l /\
    (forall e, e ∈ es <-> pending_match (table_of pending_world) ax None e) /\
    Forall (fun s => Enc (send_packet s) = EncData (mkData ax (Some 1000%Z))) l /\ length l = 2.
Proof.
  destruct (data_reaches_downstreams ex_config ex_env 300 2 pending_world (data_from 21 ax) (mkData ax (Some 1000%Z)) 21
    (mkFace 21 NonLocal PointToPoint) None ltac:(vm_compute; discriminate) pending_reached ex_env_ok) as (es & w' & l & HH);
    try (vm_compute; reflexivity).
  - exists (data_from 21 ax), (mkData ax (Some 1000%Z)). split; [vm_compute; reflexivity|]. split; [reflexivity|].
    split; [apply ref_universe|]. split; [by left|left; discriminate].
  - destruct HH as (_ & Hes & E & HS & Hl & _). exists es, w', l. split; [exact E|]. split; [exact HS|]. split; [exact Hes|].
    split; [eapply Forall_impl; [exact Hl|by intros ? []]|].
    assert (Hlen : length (sent w') = 4).
    { assert (Ew : Ok w' = on_data ex_config ex_env 300 2 pending_world) by (symmetry; exact E).
      vm_compute in Ew. injection Ew as ->. reflexivity. }
    rewrite HS, length_app in Hlen. change (length (sent pending_world)) with 2 in Hlen. lia.
Defined.

Lemma interest_dropped_witness :
  exists w', on_interest ex_config ex_env 300 [] 1 interest_world = Some (Ok w') /\ sent w' = sent interest_world /\
    length (sent w') = 1.
Proof.
  destruct (interest_dropped ex_config ex_env 300 [] 1 interest_world (interest_from 11 ax false 1 [])
    (mkInterest ax false false None (Some 1%Z) None) 1 ltac:(vm_compute; discriminate) interest_reached
    ltac:(vm_compute; reflexivity) eq_refl (ref_universe _) eq_refl) as (w' & E & S & _).
  - right. right. right. exists 11%Z, (mkFace 11 NonLocal PointToPoint). split; [reflexivity|]. split; [vm_compute; reflexivity|].
    right. right. exists 0. destruct (pits (table_of interest_world) !! 0) as [q|] eqn:Eq; [|vm_compute in Eq; discriminate Eq].
    exists q, 10%Z. destruct (inRecords q !! 10%Z) as [r|] eqn:Er.
    + exists r. split; [split; [|exists q; split; [exact Eq|]]|].
      * destruct (reached_inv ex_config ltac:(vm_compute; discriminate) _ interest_reached) as [os HT].
        destruct (at_work_ok _ _ _ (tinv_work _ _ _ _ HT)) as [Hpit _ _].
        assert (Ht : pitTokenMap (table_of interest_world) !! 7%Z = Some 0) by (vm_compute; reflexivity).
        apply (pit_tokens _ Hpit) in Ht as (p & Hl & _). exact Hl.
      * vm_compute in Eq. injection Eq as <-. reflexivity.
      * split; [reflexivity|]. split; [reflexivity|]. split; [discriminate|]. vm_compute in Eq. injection Eq as <-.
        vm_compute in Er. injection Er as <-. reflexivity.
    + exfalso. vm_compute in Eq. injection Eq as <-. vm_compute in Er. discriminate Er.
  - exists w'. split; [exact E|]. split; [exact S|]. rewrite S. vm_compute. reflexivity.
Defined.

Lemma malformed_packets_witness :
  let p := mkPending [] None (Some 10%Z) None None (EncInterest (mkInterest ax false false None None None)) [] [] in
  on_interest ex_config ex_env 300 [] 0 (mkWorld (NewThread 0) {[0 := p]} []) = Some Panic.
Proof.
  intros p.
  refine (proj1 (malformed_packets_panic ex_config ex_env 300 [] 0 (mkWorld (NewThread 0) {[0 := p]} []) p 10
    (mkFace 10 NonLocal PointToPoint) eq_refl eq_refl _) (mkInterest ax false false None None None) eq_refl eq_refl _ _).
  - vm_compute. reflexivity.
  - discriminate.
  - intros _. vm_compute. reflexivity.
Defined.
