(* ===== verification/FwExchange.v ===== *)
(** * An Interest, and the Data that answers it

    What becomes of an Interest that passes the checks: its entry, its in-record
    and the packets that leave, each with the thread's token for the entry; and
    the way back, from that token to the downstream and its own token. *)
From S2P Require Import Prelude.
From S2P Require Import Enc.
From S2P Require Import FibSpec.
From S2P Require DeadNonce.
From S2P Require Import Packet.
From S2P Require Import PitCs.
From S2P Require Import PitTree.
From S2P Require Import Pit.
From S2P Require Import ContentStore.
From S2P Require Import PitCsRun.
From S2P Require Import Fw.
From S2P Require Import FwInv.
From S2P Require Import FwRun.
From S2P Require Import FwSteady.
From S2P Require FibTree.
From S2P Require Import FwProps.
From S2P Require Import FwExamples.

(** ** What sending an Interest changes *)

Section outgoing.
Context `{EncLaws}.

(** A packet that carries the Interest out, with the token [tok] of its entry. *)
Definition carries (pp : nat) (inFace : Z) (i : Interest) (tok : list byte) (s : send) : Prop :=
  send_ptr s = pp /\ Enc (send_packet s) = EncInterest i /\ PitToken (send_packet s) = tok /\
  Packet.IncomingFaceID (send_packet s) = Some inFace.

(** The step from [w] to [w'] sent [l] for the entry [e]: its out-records are
    those of [w] and one with the Interest's nonce for every face of [l], and
    nothing else of the pending Interests is different. *)
Record outgoing (pp e : nat) (inFace : Z) (i : Interest) (nonce : Z) (w w' : World) (l : list send) : Prop := {
  og_sent : sent w' = sent w ++ l;
  og_contents : forall q, contents_of (packets w') q = contents_of (packets w) q;
  og_thread : threadID (thread w') = threadID (thread w);
  og_same : pit_same (table_of w) (table_of w');
  og_entry : forall p, pits (table_of w) !! e = Some p -> exists p', pits (table_of w') !! e = Some p' /\
    static p' = static p /\ inRecords p' = inRecords p /\ expirationTime p' = expirationTime p /\
    Forall (carries pp inFace i (outgoing_token (threadID (thread w)) (token p))) l /\
    forall face, if decide (face ∈ send_face <$> l)
                 then exists r, outRecords p' !! face = Some r /\ out_LatestEncNonce r = nonce
                 else outRecords p' !! face = outRecords p !! face }.

Lemma outgoing_refl pp e inFace i nonce w : outgoing pp e inFace i nonce w w [].
Proof using Type.
  split; [by rewrite app_nil_r|done|done|apply pit_same_refl|]. intros p Hp. exists p. by split_and!.
Qed.

Lemma outgoing_trans pp e inFace i nonce w1 w2 w3 l1 l2 : is_Some (pits (table_of w1) !! e) ->
  outgoing pp e inFace i nonce w1 w2 l1 -> outgoing pp e inFace i nonce w2 w3 l2 ->
  outgoing pp e inFace i nonce w1 w3 (l1 ++ l2).
Proof using Type.
  intros [p Hp] [S1 C1 T1 M1 E1] [S2 C2 T2 M2 E2].
  split; [by rewrite S2, S1, app_assoc|intros q; by rewrite C2|congruence|by eapply pit_same_trans|].
  intros p0 Hp0. destruct (E1 p0 Hp0) as (p' & Hp' & St1 & In1 & X1 & F1 & O1).
  destruct (E2 p' Hp') as (p2 & Hp2 & St2 & In2 & X2 & F2 & O2). exists p2.
  split_and!; [done|congruence|congruence|congruence| |].
  - apply Forall_app. split; [done|]. rewrite T1 in F2. by replace (token p0) with (token p') by (by injection St1).
  - intros face. specialize (O1 face). specialize (O2 face). rewrite fmap_app.
    destruct (decide (face ∈ send_face <$> l2)); [by rewrite decide_True by (apply elem_of_app; by right)|].
    rewrite O2. destruct (decide (face ∈ send_face <$> l1)); [by rewrite decide_True by (apply elem_of_app; by left)|].
    rewrite decide_False; [done|]. by intros [?|?]%elem_of_app.
Qed.

Context (faces : gmap Z Face).

Lemma processOutgoingInterest_outgoing now pp e nexthop inFace w i nonce w' b :
  contents_of (packets w) pp = Some (EncInterest i) -> NonceV i = Some nonce ->
  processOutgoingInterest faces now pp e nexthop inFace w = Ok (w', b) ->
  exists l, outgoing pp e inFace i nonce w w' l.
Proof using Type.
  intros Hc Hn E. unfold processOutgoingInterest in E.
  assert (Hsame : w' = w -> exists l, outgoing pp e inFace i nonce w w' l)
    by (intros ->; exists []; apply outgoing_refl).
  destruct (faces !! nexthop) as [f|]; [|injection E as <- _; by apply Hsame].
  destruct (_ && _); [injection E as <- _; by apply Hsame|].
  rewrite (interest_of_contents w pp i Hc) in E. cbn [outcome_bind] in E.
  destruct (_ && _); [injection E as <- _; by apply Hsame|]. rewrite Hn in E. unfold pit_entry_of in E.
  destruct (pits (table_of w) !! e) as [p|] eqn:Hp; [|done]. cbn [outcome_bind] in E.
  destruct (contents_packet w pp _ Hc) as (q & Hq & He).
  unfold SendPacket, packet in E. cbn [packets upd_packet count on_pit set_pitCS set_thread] in E.
  rewrite lookup_alter_eq, Hq in E. cbn [fmap option_fmap option_map outcome_bind] in E. injection E as <- _.
  eexists. split; [done| | | |].
  - intros q'. by apply (upd_packet_contents (packets w)).
  - done.
  - apply upd_pit_same. apply InsertOutRecord_static.
  - intros p0 Hp0. assert (p0 = p) by congruence. subst p0. exists (InsertOutRecord pp nonce nexthop now p).
    split; [cbn; by rewrite lookup_alter_eq, Hp|]. split; [apply InsertOutRecord_static|].
    do 2 (split; [unfold InsertOutRecord; by destruct (outRecords p !! nexthop)|]). split; [by repeat constructor|].
    intros face. cbn [fmap list_fmap send_face]. destruct (decide (face ∈ [nexthop])) as [->%list_elem_of_singleton|Hne].
    + unfold InsertOutRecord. destruct (outRecords p !! nexthop); cbn; rewrite lookup_insert_eq; by eexists.
    + apply not_elem_of_cons in Hne as [Hne _]. unfold InsertOutRecord.
      destruct (outRecords p !! nexthop); cbn; by rewrite lookup_insert_ne.
Qed.

Lemma outgoing_entry pp e inFace i nonce w w' l : outgoing pp e inFace i nonce w w' l ->
  is_Some (pits (table_of w) !! e) -> is_Some (pits (table_of w') !! e).
Proof using Type. intros O [p Hp]. destruct (og_entry _ _ _ _ _ _ _ _ O p Hp) as (p' & Hp' & _). by exists p'. Qed.

Lemma first_usable_outgoing now pp e inFace i nonce nhs : forall w w', NonceV i = Some nonce ->
  contents_of (packets w) pp = Some (EncInterest i) -> is_Some (pits (table_of w) !! e) ->
  first_usable faces now pp e inFace nhs w = Ok w' -> exists l, outgoing pp e inFace i nonce w w' l.
Proof using Type.
  induction nhs as [|nh nhs IH]; intros w w' Hn Hc He E; cbn [first_usable] in E.
  { injection E as <-. exists []. apply outgoing_refl. }
  destruct (processOutgoingInterest faces now pp e (Nexthop nh) inFace w) as [[w1 b]| |] eqn:E1; try done.
  destruct (processOutgoingInterest_outgoing _ _ _ _ _ _ _ _ _ _ Hc Hn E1) as [l1 O1]. cbn [outcome_bind] in E.
  destruct b; [injection E as <-; by exists l1|].
  destruct (IH w1 w' Hn) as [l2 O2]; [by rewrite (og_contents _ _ _ _ _ _ _ _ O1)|by eapply outgoing_entry|done|].
  exists (l1 ++ l2). by eapply outgoing_trans.
Qed.

Lemma all_nexthops_outgoing now pp e inFace i nonce nhs : forall w w', NonceV i = Some nonce ->
  contents_of (packets w) pp = Some (EncInterest i) -> is_Some (pits (table_of w) !! e) ->
  all_nexthops faces now pp e inFace nhs w = Ok w' -> exists l, outgoing pp e inFace i nonce w w' l.
Proof using Type.
  induction nhs as [|nh nhs IH]; intros w w' Hn Hc He E; cbn [all_nexthops] in E.
  { injection E as <-. exists []. apply outgoing_refl. }
  destruct (processOutgoingInterest faces now pp e (Nexthop nh) inFace w) as [[w1 b]| |] eqn:E1; try done.
  destruct (processOutgoingInterest_outgoing _ _ _ _ _ _ _ _ _ _ Hc Hn E1) as [l1 O1]. cbn [outcome_bind] in E.
  destruct (IH w1 w' Hn) as [l2 O2]; [by rewrite (og_contents _ _ _ _ _ _ _ _ O1)|by eapply outgoing_entry|done|].
  exists (l1 ++ l2). by eapply outgoing_trans.
Qed.

Lemma AfterReceiveInterest_outgoing sort s now pp e inFace i nonce nhs w w' : NonceV i = Some nonce ->
  contents_of (packets w) pp = Some (EncInterest i) -> is_Some (pits (table_of w) !! e) ->
  AfterReceiveInterest faces sort s now pp e inFace nhs w = Ok w' -> exists l, outgoing pp e inFace i nonce w w' l.
Proof using Type. destruct s; [apply first_usable_outgoing|apply all_nexthops_outgoing]. Qed.

End outgoing.

(** ** An Interest that is forwarded *)

Section interest.
Context `{EncLaws} {F : Type} `{FibStrategy F}.
Context (config : Config).

Abbreviation key_in env i := (interest_key i (forwarding_hint (env_regions env) i)).

(** Cached Data that answers an Interest. *)
Definition cached_answer (i : Interest) (now : Z) (r : cs_record) : Prop :=
  (if CanBePrefixV i then NameV i `prefix_of` r_name r else r_name r = NameV i) /\ usable i now r.

(** The Interest passes every check: it comes from a known face, has hops left,
    may be from there, its nonce is neither dead nor that of another downstream,
    the link service chose no next hop, the entry exists or a token is free, and
    the face asks again or nothing in the Content Store answers. *)
Record forwardable (env : Env F) (now : Z) (draws : list Z) (w : World) (p : PendingPacket) (i : Interest)
    (nonce : Z) (f : Face) : Prop := {
  fa_interest : Enc p = EncInterest i;
  fa_universe : universe (NameV i);
  fa_nonce : NonceV i = Some nonce;
  fa_face : exists id, Packet.IncomingFaceID p = Some id /\ env_faces env !! id = Some f;
  fa_hops : HopLimitV i <> Some 0%Z;
  fa_scope : face_scope f = NonLocal -> is_localhost (NameV i) = false;
  fa_dead : DeadNonce.Find (deadNonceList (thread w)) (NameV i) nonce = false;
  fa_loop : forall e q face r, pending_key (table_of w) (key_in env i) e -> pits (table_of w) !! e = Some q ->
    inRecords q !! face = Some r -> face <> FaceID f -> in_LatestEncNonce r <> nonce;
  fa_direct : NextHopFaceID p = None;
  fa_token : (exists e, pending_key (table_of w) (key_in env i) e) \/
    exists t, t ∈ draws /\ pitTokenMap (table_of w) !! t = None;
  fa_cache : (exists e q, pending_key (table_of w) (key_in env i) e /\ pits (table_of w) !! e = Some q /\
                is_Some (inRecords q !! FaceID f)) \/
    csServe config = false \/
    exists os, at_work (cap config) os (table_of w) /\ forall r, r ∈ spec_run (cap config) os -> ~ cached_answer i now r }.

(** The in-records an Interest finds: those of its entry, or none. *)
Definition found_records (env : Env F) (i : Interest) (w : World) (records : gmap Z PitInRecord) : Prop :=
  (exists e q, pending_key (table_of w) (key_in env i) e /\ pits (table_of w) !! e = Some q /\ records = inRecords q) \/
  (forall e, ~ pending_key (table_of w) (key_in env i) e) /\ records = ∅.

Lemma no_answer_lookup (env : Env F) i now T l : env_ok env -> cs_repr T l -> universe (NameV i) ->
  (forall r, r ∈ l -> ~ cached_answer i now r) -> FindMatchingDataFromCS (env_children_order env) i now T = (T, None).
Proof.
  intros Henv HR Hu Hno. unfold cached_answer in Hno. destruct (CanBePrefixV i) eqn:Ec.
  - pose proof (find_prefix_spec (env_children_order env) i now T l HR (env_children_perm env Henv) Hu Ec) as Hf.
    destruct (FindMatchingDataFromCS _ _ _ _) as [T' [c|]]; destruct Hf as [-> Hf]; [|done].
    destruct Hf as (r & (Hr & Hp & Hus) & _). by destruct (Hno r Hr).
  - pose proof (cs_find_exact_spec (env_children_order env) i now T l HR Hu Ec) as Hf.
    destruct (FindMatchingDataFromCS _ _ _ _) as [T' [c|]]; destruct Hf as (_ & _ & _ & Hf); [|by destruct Hf as [-> _]].
    destruct Hf as (r & Hr & Hn & Hus & _). by destruct (Hno r Hr).
Qed.

(** The timer of the entry, and the strategy. *)
Lemma after_in_record_outgoing (env : Env F) now pp e inFace i nonce hint pending w p s :
  (0 <= csCapacity config)%Z -> inv config w -> env_ok env -> contents_of (packets w) pp = Some (EncInterest i) ->
  NonceV i = Some nonce -> universe (NameV i) -> pits (table_of w) !! e = Some p ->
  (negb pending && csServe config = true -> FindMatchingDataFromCS (env_children_order env) i now (table_of w) = (table_of w, None)) ->
  FindStrategy (env_fib env) (env_strategies env) (NameV i) = Some s ->
  exists w2 w' l q, 
    after_in_record config (env_faces env) (env_fib env) (env_strategies env) (env_children_order env) (env_sort env)
      now pp e inFace i hint pending None w = Ok w' /\
    pit_same (table_of w) (table_of w2) /\ sent w2 = sent w /\ threadID (thread w2) = threadID (thread w) /\
    pits (table_of w2) !! e = Some q /\ inRecords q = inRecords p /\ expirationTime q = latest_expiration now p /\
    outgoing pp e inFace i nonce w2 w' l /\
    send_face <$> l = chosen (env_faces env) (env_sort env) s i inFace
                        (FindNextHopsEnc (env_fib env) match hint with Some fh => fh | None => NameV i end).
Proof.
  intros Hcap HI Henv Hc Hn Hu Hp Hcs Hs. unfold after_in_record. rewrite Hs. cbn [with_strategy].
  set (lookup := if negb pending && csServe config then _ else _).
  assert (HL : lookup = (table_of w, None)) by (unfold lookup; by destruct (negb pending && csServe config); [apply Hcs|]).
  rewrite HL. set (w2 := set_pitCS (UpdateExpirationTimer now e (table_of w)) (set_pitCS (table_of w) w)).
  destruct (timer_entry e (latest_expiration now) (table_of w) p Hp) as (q & Hq & Eqi & Eqo & Eqx & Eqs).
  assert (HI2 : inv config w2).
  { destruct (timer_outs (table_of w) e (fun p => SetExpirationTime (latest_expiration now p) p) ltac:(done)).
    apply (good_table config (fun _ => True) (set_pitCS (table_of w) w) (OpUpdateExpirationTimer e now)); done. }
  destruct (AfterReceiveInterest_good config (env_faces env) (env_sort env) s now pp e inFace i nonce
    (FindNextHopsEnc (env_fib env) match hint with Some fh => fh | None => NameV i end) w2 HI2 Hc Hn) as (w' & l & E & _ & S & D);
    [by eexists|].
  destruct (AfterReceiveInterest_outgoing (env_faces env) _ _ now pp e inFace i nonce _ w2 w' Hn Hc (mk_is_Some _ _ Hq) E) as [l' O].
  assert (l' = l) as -> by (pose proof (og_sent _ _ _ _ _ _ _ _ O) as S'; rewrite S in S'; by apply app_inv_head in S').
  exists w2, w', l, q. split_and!; try done.
  eapply pit_same_trans; [apply upd_pit_same|apply updatePitExpiry_same]. done.
Qed.


(** The in-record of a face among [old], after the Interest. *)
Definition new_record (now : Z) (pp : nat) (nonce : Z) (tok : list byte) (old : option PitInRecord) (r : PitInRecord) : Prop :=
  in_LatestEncNonce r = nonce /\ in_LatestEncInterest r = pp /\ in_ExpirationTime r = (now + record_lifetime)%Z /\
  in_PitToken r = match old with Some r0 => in_PitToken r0 | None => tok end.

Lemma InsertInRecord_new pp nonce face tok now p :
  exists r, (InsertInRecord pp nonce face tok now p).1 = with_inRecords (<[face := r]> (inRecords p)) p /\
    new_record now pp nonce tok (inRecords p !! face) r /\
    (InsertInRecord pp nonce face tok now p).2 = bool_decide (is_Some (inRecords p !! face)).
Proof using Type.
  unfold InsertInRecord. destruct (inRecords p !! face) as [r|].
  - eexists. split; [done|]. split; [done|]. by rewrite bool_decide_true by by eexists.
  - eexists. split; [done|]. split; [done|]. rewrite bool_decide_false; [done|]. by intros [? [=]].
Qed.

Lemma InsertInterest_entry (env : Env F) i nonce inFace draws w : pit_ok (table_of w) -> universe (NameV i) ->
  (forall e q face r, pending_key (table_of w) (key_in env i) e -> pits (table_of w) !! e = Some q ->
    inRecords q !! face = Some r -> face <> inFace -> in_LatestEncNonce r <> nonce) ->
  (exists e, pending_key (table_of w) (key_in env i) e) \/ (exists t, t ∈ draws /\ pitTokenMap (table_of w) !! t = None) ->
  exists T e p, InsertInterest i nonce (forwarding_hint (env_regions env) i) inFace draws (table_of w) = Some (T, e, false) /\
    pending_key T (key_in env i) e /\ pits T !! e = Some p /\ found_records env i w (inRecords p) /\ cs_same (table_of w) T.
Proof.
  intros Hok Hu Hloop Htok. unfold InsertInterest.
  pose proof (find_or_create_spec (table_of w) i (forwarding_hint (env_regions env) i) draws Hok Hu) as Hf.
  destruct (find_or_create _ _ _ _) as [[T1 e]|].
  2:{ destruct Hf as [Hno Hd]. destruct Htok as [[e He]|(t & Ht & Hn)]; [by destruct (Hno e)|].
      destruct (Hd t Ht) as [? ?]. congruence. }
  destruct Hf as (Hok1 & Hcs & [Hl (p & Hp & Hk)] & _ & Hcase). rewrite Hp.
  assert (Hdup : duplicate_nonce p nonce inFace = false /\ found_records env i w (inRecords p)).
  { destruct Hcase as [(Hpk & Ep & _)|(Hno & Ee & (node & tok & _ & Ep) & _)].
    - rewrite Ep in Hp. split; [|left; by exists e, p]. apply not_true_is_false. intros (face & r & Hr & Hne & Hnon)%duplicate_nonce_spec.
      by apply (Hloop e p face r Hpk Hp Hr Hne).
    - rewrite Ep, lookup_insert_eq in Hp. injection Hp as <-. split; [done|]. by right. }
  destruct Hdup as [-> Hfr]. destruct (upd_pit_same T1 e (SetExpirationTime 0) ltac:(done)) as [PS CS].
  eexists _, e, _. split; [done|]. split; [|split; [cbn; by rewrite lookup_alter_eq, Hp|]].
  - split; [by apply (pit_same_live _ _ _ PS)|]. eexists. split; [cbn; by rewrite lookup_alter_eq, Hp|done].
  - split; [done|]. by eapply cs_same_trans.
Qed.


(** The entry and the in-record are made: [pending] says whether the face asked
    before. *)
Lemma after_checks_entry (env : Env F) now draws pp inFace tok i nonce w :
  (0 <= csCapacity config)%Z -> inv config w -> universe (NameV i) -> NonceV i = Some nonce ->
  contents_of (packets w) pp = Some (EncInterest i) ->
  DeadNonce.Find (deadNonceList (thread w)) (NameV i) nonce = false ->
  (forall e q face r, pending_key (table_of w) (key_in env i) e -> pits (table_of w) !! e = Some q ->
    inRecords q !! face = Some r -> face <> inFace -> in_LatestEncNonce r <> nonce) ->
  (exists e, pending_key (table_of w) (key_in env i) e) \/ (exists t, t ∈ draws /\ pitTokenMap (table_of w) !! t = None) ->
  exists w2 e q old r,
    after_checks config (env_faces env) (env_regions env) (env_fib env) (env_strategies env) (env_children_order env)
        (env_sort env) now draws pp inFace tok i None w
      = Some (after_in_record config (env_faces env) (env_fib env) (env_strategies env) (env_children_order env) (env_sort env)
                now pp e inFace i (forwarding_hint (env_regions env) i) (bool_decide (is_Some (old !! inFace))) None w2) /\
    inv config w2 /\ packets w2 = packets w /\ sent w2 = sent w /\ threadID (thread w2) = threadID (thread w) /\
    cs_same (table_of w) (table_of w2) /\ found_records env i w old /\ new_record now pp nonce tok (old !! inFace) r /\
    pending_key (table_of w2) (key_in env i) e /\ pits (table_of w2) !! e = Some q /\ inRecords q = <[inFace := r]> old.
Proof.
  intros Hcap HI Hu Hn Hc Hdead Hloop Htok. unfold after_checks. rewrite Hn, Hdead.
  pose proof HI as [os HT]. destruct (at_work_ok _ _ _ (tinv_work _ _ _ _ HT)) as [Hpit _ _].
  destruct (InsertInterest_entry env i nonce inFace draws w Hpit Hu Hloop Htok) as (T1 & e & p & EI & Hpk & Hp & Hfr & Hcs).
  rewrite EI. unfold pit_entry_of. cbn [pitCS thread set_pitCS set_thread]. rewrite Hp. cbn [outcome_bind].
  destruct (InsertInRecord_new pp nonce inFace tok now p) as (r & Er1 & Hr & Er2).
  assert (G1 : good config (fun _ => True) w (set_pitCS T1 w)).
  { destruct (InsertInterest_outs _ _ _ _ _ _ _ _ _ Hpit Hu EI) as (Hle & Hgr & _).
    apply (good_table config _ w (OpInsertInterest i nonce (forwarding_hint (env_regions env) i) inFace draws)); try done.
    cbn [exec]. by rewrite EI. }
  set (g := fun q => (InsertInRecord pp nonce inFace tok now q).1).
  assert (G2 : good config (fun _ => True) (set_pitCS T1 w) (on_pit e g (set_pitCS T1 w))).
  { apply (good_on_pit config _ _ _ _ (OpInsertInRecord e pp nonce inFace tok now)); try done; [apply G1|].
    intros q. unfold g, InsertInRecord. by destruct (inRecords q !! inFace). }
  assert (Ealt : on_pit e (fun _ => g p) (set_pitCS T1 w) = on_pit e g (set_pitCS T1 w)).
  { unfold on_pit, upd_pit. cbn [pitCS thread set_pitCS set_thread]. do 2 f_equal. apply alter_ext. intros q Hq'. congruence. }
  destruct (upd_pit_same T1 e g) as [PS CS]; [intros q; apply InsertInRecord_static|].
  exists (on_pit e g (set_pitCS T1 w)), e, (g p), (inRecords p), r. rewrite <- Ealt. split_and!; try done.
  - rewrite (surjective_pairing (InsertInRecord _ _ _ _ _ _)). by rewrite Er2.
  - rewrite Ealt. apply G2.
  - rewrite Ealt. by eapply cs_same_trans.
  - rewrite Ealt. destruct Hpk as [Hl (p' & Hp' & Hk)]. assert (p' = p) by congruence. subst p'.
    split; [by apply (pit_same_live _ _ _ PS)|]. exists (g p). split; [cbn; by rewrite lookup_alter_eq, Hp|].
    unfold g. by destruct (static_key _ _ (InsertInRecord_static pp nonce inFace tok now p)) as [-> _].
  - cbn. by rewrite lookup_alter_eq, Hp.
  - unfold g. by rewrite Er1.
Qed.

Lemma decrement_same (env : Env F) i : NameV (decrement_hop_limit i) = NameV i /\ NonceV (decrement_hop_limit i) = NonceV i /\
  forwarding_hint (env_regions env) (decrement_hop_limit i) = forwarding_hint (env_regions env) i /\
  key_in env (decrement_hop_limit i) = key_in env i /\
  forall now r, cached_answer (decrement_hop_limit i) now r <-> cached_answer i now r.
Proof using Type. unfold decrement_hop_limit. by destruct (HopLimitV i). Qed.

Lemma cache_silent (env : Env F) now draws w p i nonce f w2 old : 
  env_ok env -> forwardable env now draws w p i nonce f -> inv config w -> found_records env i w old ->
  cs_same (table_of w) (table_of w2) -> negb (bool_decide (is_Some (old !! FaceID f))) && csServe config = true ->
  FindMatchingDataFromCS (env_children_order env) (decrement_hop_limit i) now (table_of w2) = (table_of w2, None).
Proof.
  intros Henv A HI Hfr Hcs [Hp Hserve]%andb_true_iff. destruct (decrement_same env i) as (Di & _ & _ & _ & Dc).
  apply negb_true_iff, bool_decide_eq_false in Hp.
  destruct (fa_cache _ _ _ _ _ _ _ _ A) as [(e & q & Hk & Hq & Hs)|[Hc|(os & HW & Hno)]]; [|congruence|].
  - exfalso. destruct Hfr as [(e' & q' & Hk' & Hq' & ->)|[Hn _]]; [|by apply (Hn e)]. apply Hp.
    destruct HI as [os HT]. destruct (at_work_ok _ _ _ (tinv_work _ _ _ _ HT)) as [Hpit _ _].
    destruct Hk as [Hl (q0 & Hq0 & Hk)], Hk' as [Hl' (q1 & Hq1 & Hk')].
    assert (e' = e) as -> by (apply (pit_keys _ Hpit e' e q1 q0); congruence). by replace q' with q by congruence.
  - destruct (at_work_ok _ _ _ HW) as [_ HR _]. eapply no_answer_lookup; [done|by eapply cs_same_repr| |].
    + rewrite Di. apply (fa_universe _ _ _ _ _ _ _ _ A).
    + intros r Hr. rewrite Dc. by apply Hno.
Qed.

End interest.

(** C12: An Interest that passes the checks is forwarded, at every thread that can
    be reached: it gets the entry of its name, selectors and forwarding hint (the
    old one or a new one), whose in-records are the old ones with a record of the
    incoming face that has its nonce and the downstream's PIT token and lives for
    four seconds, as the entry's timer does; the strategy's next hops and no other
    faces are sent the Interest with its hop limit decremented, its incoming face
    and a token made of the thread's number and the entry's token, and each of
    them has an out-record with the nonce. *)
Theorem interest_forwarded `{EncLaws} {F} `{FibStrategy F} config (env : Env F) now draws pp w p i nonce f :
  (0 <= csCapacity config)%Z -> reached (F := F) config w -> env_ok env -> packets w !! pp = Some p ->
  forwardable config env now draws w p i nonce f ->
  let i' := decrement_hop_limit i in
  let hint := forwarding_hint (env_regions env) i in
  exists w' e q old r s l,
    on_interest config env now draws pp w = Some (Ok w') /\
    pending_key (table_of w') (interest_key i hint) e /\ pits (table_of w') !! e = Some q /\
    found_records env i w old /\ inRecords q = <[FaceID f := r]> old /\
    new_record now pp nonce (PitToken p) (old !! FaceID f) r /\ (now + record_lifetime <= expirationTime q)%Z /\
    FindStrategy (env_fib env) (env_strategies env) (NameV i) = Some s /\ sent w' = sent w ++ l /\
    send_face <$> l = chosen (env_faces env) (env_sort env) s i' (FaceID f)
                        (FindNextHopsEnc (env_fib env) match hint with Some fh => fh | None => NameV i end) /\
    Forall (carries pp (FaceID f) i' (outgoing_token (threadID (thread w)) (token q))) l /\
    forall face, face ∈ send_face <$> l -> exists o, outRecords q !! face = Some o /\ out_LatestEncNonce o = nonce.
Proof.
  intros Hcap Hr Henv Hp A i' hint. pose proof (reached_inv config Hcap w Hr) as HI.
  pose proof A as [Ae Au An (id & Aid & Af) Ah As Ad Al Adir At _]. destruct (decrement_same env i) as (D1 & D2 & D3 & D4 & _).
  destruct (env_strategy env Henv (NameV i)) as [s Hs].
  unfold on_interest, processIncomingInterest, packet. rewrite Hp, Aid, Af, Ae. cbn [as_interest].
  rewrite bool_decide_false by done.
  replace (bool_decide (face_scope f = NonLocal) && is_localhost (NameV (decrement_hop_limit i))) with false
    by (rewrite D1; destruct (face_scope f); [done|by rewrite As]). rewrite Adir. fold i'.
  pose proof (decrement_kept config (fun _ => True) w pp p i HI Hp Ae) as K1.
  set (w1 := count 1 0 0 0 0 0 (upd_packet pp _ w)). fold i' in D1, D2, D3, D4.
  assert (HI1 : inv config w1) by exact (kept_inv _ _ _ _ K1).
  assert (Hc1 : contents_of (packets w1) pp = Some (EncInterest i')) by (unfold contents_of; cbn; by rewrite lookup_alter_eq, Hp).
  destruct (after_checks_entry config env now draws pp (FaceID f) (PitToken p) i' nonce w1)
    as (w2 & e & q0 & old & r & E & HI2 & Ep2 & Es2 & Et2 & Hcs & Hfr & Hrec & Hpk & Hq0 & Ein); try done;
    [by rewrite D1|by rewrite D2|by rewrite D1|by rewrite D4|by rewrite D4|].
  rewrite E. assert (Hfr' : found_records env i w old) by (unfold found_records in *; by rewrite D4 in Hfr).
  destruct (after_in_record_outgoing config env now pp e (FaceID f) i' nonce (forwarding_hint (env_regions env) i')
    (bool_decide (is_Some (old !! FaceID f))) w2 q0 s Hcap HI2 Henv) as (w3 & w' & l & q1 & E3 & PS & Es3 & Et3 & Hq1 & Ein1 & Ex1 & O & D);
    try done; [by rewrite Ep2|by rewrite D2|by rewrite D1| |by rewrite D1|].
  { by apply (cache_silent config env now draws w p i nonce f w2 old). }
  destruct (og_entry _ _ _ _ _ _ _ _ O q1 Hq1) as (q & Hq & Est & Ein2 & Ex2 & Fl & Fo).
  exists w', e, q, old, r, s, l. rewrite E3. unfold hint. rewrite <- D3. split_and!; try done.
  - destruct Hpk as [Hl (q0' & Hq0' & Hk)]. assert (q0' = q0) by congruence. subst q0'.
    pose proof (pit_same_trans _ _ _ PS (og_same _ _ _ _ _ _ _ _ O)) as PS'.
    split; [by apply (pit_same_live _ _ _ PS')|]. exists q. split; [done|].
    pose proof (pit_same_pits _ _ PS' e) as Est'. rewrite Hq, Hq0 in Est'.
    assert (Es : static q = static q0) by (cbn in Est'; congruence). destruct (static_key _ _ Es) as (-> & _). by rewrite Hk, D4, D3.
  - by rewrite Ein2, Ein1.
  - rewrite Ex2, Ex1. destruct (latest_expiration_spec now q0) as (_ & Hin & _). destruct Hrec as (_ & _ & <- & _).
    apply (Hin (FaceID f)). by rewrite Ein, lookup_insert_eq.
  - by rewrite (og_sent _ _ _ _ _ _ _ _ O), Es3, Es2.
  - by rewrite D1 in D.
  - rewrite Et3, Et2 in Fl. by replace (token q) with (token q1) by (by injection Est).
  - intros face Hin. specialize (Fo face). by rewrite decide_True in Fo.
Qed.

(** ** The way back *)

Lemma token_round_trip tid tok : (0 <= tok < 2 ^ 32)%Z -> incoming_token (outgoing_token tid tok) = Ok (Some tok).
Proof.
  intros Ht. unfold incoming_token, outgoing_token. pose proof (length_be_put 2 tid) as H2. pose proof (length_be_put 4 tok) as H4.
  destruct (be_put 2 tid) as [|a [|b [|c l]]]; try discriminate H2. cbn [app].
  unfold go_slice. rewrite bool_decide_true by (cbn [length]; lia). cbn [outcome_bind]. do 2 f_equal.
  change (drop (Z.to_nat 2) (a :: b :: be_put 4 tok)) with (be_put 4 tok). rewrite take_ge by lia. by apply be_get_put_small.
Qed.

(** Data with the token of a pending entry goes to that entry's downstreams,
    each of which gets its own token. *)
Lemma data_returns `{EncLaws} {F} `{FibStrategy F} config (env : Env F) now pp w p d id f e q tid :
  (0 <= csCapacity config)%Z -> inv config w -> env_ok env -> data_packet w pp ->
  packets w !! pp = Some p -> Enc p = EncData d -> Packet.IncomingFaceID p = Some id -> env_faces env !! id = Some f ->
  violates_localhost f p d = false -> live (table_of w) e -> pits (table_of w) !! e = Some q ->
  (0 <= token q < 2 ^ 32)%Z -> PitToken p = outgoing_token tid (token q) ->
  exists w' l, on_data config env now pp w = Ok w' /\ sent w' = sent w ++ l /\
    Forall2 (delivered pp d (inRecords q))
      (List.filter (deliverable (env_faces env) d) (env_face_order env (face_ids (inRecords q)))) l /\
    (exists q', pits (table_of w') !! e = Some q' /\ satisfied_entry now q') /\ (sent w = [] -> synced w').
Proof.
  intros Hcap HI Henv Hpk Hp He Hid Hf Hv Hl Hq Htok HP.
  assert (HT : incoming_token (PitToken p) = Ok (Some (token q))) by (rewrite HP; by apply token_round_trip).
  destruct (on_data_admitted config env now pp w p d id f _ Hcap HI Hpk Hp He Hid Hf Hv HT)
    as (w2 & es & G2 & Ep2 & S2 & _ & _ & Hnd & Hes & ->).
  assert (Hes' : forall e', e' ∈ es <-> e' = e).
  { intros e'. rewrite Hes. split; [|intros ->; split; [done|by exists q]]. intros [Hl' (q' & Hq' & Ht')].
    destruct HI as [os HTI]. destruct (at_work_ok _ _ _ (tinv_work _ _ _ _ HTI)) as [Hpit _ _].
    assert (Some e' = Some e) as [= ->]; [|done]. rewrite <- (proj2 (pit_tokens _ Hpit (token q) e')) by (by exists q').
    apply (pit_tokens _ Hpit). by exists q. }
  assert (es = [e]) as ->.
  { destruct es as [|e1 es]; [exfalso; assert (He0 : e ∈ []) by (by apply Hes'); by apply elem_of_nil in He0|].
    assert (e1 = e) as -> by (apply Hes'; by left). f_equal. destruct es as [|e2 es]; [done|].
    assert (e2 = e) as -> by (apply Hes'; right; by left). apply NoDup_cons in Hnd as [Hn _]. exfalso. apply Hn. by left. }
  assert (Hc2 : contents_of (packets w2) pp = Some (EncData d)).
  { rewrite (good_contents _ _ _ _ G2). unfold contents_of. rewrite Hp. cbn. by rewrite He. }
  destruct (satisfy_one_good config (env_faces env) (env_face_order env) (env_face_perm env Henv) now _ pp e id w2 d q
    (good_inv G2) Hc2 ltac:(by rewrite Ep2) (env_strategy env Henv (DataNameV d))) as (w3 & l & E & G3 & Hsat & D3 & S3 & F3).
  exists w3, l. split_and!; [done|by rewrite S3, S2|done|done|]. intros Hs. eapply satisfy_one_synced; [exact E|].
  intros x. by rewrite S2, Hs.
Qed.

(** ** An instance *)

Module ExchangeExamples.
#[local] Existing Instance ref_ops.
#[local] Existing Instance ref_laws.
#[local] Existing Instance FibTree.FibTree_ops.

(** The first Interest of a new thread. *)
Definition asked : PendingPacket := interest_from 10 ax false 1 token_a.
Definition asked_world : World := after [Arrives true 0 asked].

Lemma nothing_pending {F} (env : Env F) i e : ~ pending_key (table_of asked_world) (interest_key i (forwarding_hint (env_regions env) i)) e.
Proof. intros [_ (q & Hq & _)]. vm_compute in Hq. discriminate Hq. Qed.

Lemma interest_forwarded_witness :
  exists w' e q, on_interest ex_config ex_env 100 [7%Z] 0 asked_world = Some (Ok w') /\
    pits (table_of w') !! e = Some q /\ send_face <$> sent w' = [21%Z] /\
    Forall (fun x => PitToken (send_packet x) = outgoing_token 0 (token q)) (sent w') /\
    exists r, inRecords q = {[10%Z := r]} /\ in_PitToken r = token_a.
Proof.
  destruct (interest_forwarded (F := FibTree.FibStrategyTree) ex_config ex_env 100 [7%Z] 0 asked_world asked
    (mkInterest ax false false None (Some 1%Z) None) 1 (mkFace 10 NonLocal PointToPoint))
    as (w' & e & q & old & r & s & l & E & _ & Hq & Hfr & Hin & (_ & _ & _ & Htok) & _ & Hs & S & D & Fl & _).
  - vm_compute. discriminate.
  - apply after_reached. by vm_compute.
  - exact ex_env_ok.
  - vm_compute. reflexivity.
  - split; [done|apply ref_universe|done| |done|done| | |done| |].
    + exists 10%Z. split; [reflexivity|vm_compute; reflexivity].
    + vm_compute. reflexivity.
    + intros e q face r Hk. by apply nothing_pending in Hk.
    + right. exists 7%Z. split; [by left|vm_compute; reflexivity].
    + right. right. exists []. split; [by split; [constructor|vm_compute; reflexivity]|]. intros r Hr. by apply elem_of_nil in Hr.
  - assert (Ew : Some (Ok w') = on_interest ex_config ex_env 100 [7%Z] 0 asked_world) by (symmetry; exact E).
    assert (Eold : old = ∅) by (destruct Hfr as [(e0 & q0 & Hk & _)|[_ ->]]; [by apply nothing_pending in Hk|done]). subst old.
    assert (Es : send_face <$> sent w' = [21%Z]) by (clear -Ew; vm_compute in Ew; injection Ew as ->; reflexivity).
    exists w', e, q. split; [exact E|]. split; [exact Hq|]. split; [exact Es|]. rewrite S. change (sent asked_world) with (@nil send). split.
    + eapply Forall_impl; [exact Fl|]. intros x (_ & _ & Hx & _). exact Hx.
    + exists r. split; [rewrite Hin; reflexivity|]. rewrite Htok. reflexivity.
Defined.

End ExchangeExamples.
