(* ===== verification/Text.v ===== *)
(** * Text: what the code uses of Go's strconv, encoding/hex and strings

    Strings are lists of bytes.  Decimal printing and parsing of unsigned
    integers, hexadecimal of byte slices, and splitting at a separator. *)
From S2P Require Import Prelude.
Local Open Scope Z_scope.

(** ** Decimal numbers *)

Definition digit (d : Z) : byte := z2b (48 + d).
Definition is_digit (b : byte) : bool := (48 <=? b2z b) && (b2z b <=? 57).

(** [strconv.FormatUint(v, 10)]; 20 digits are enough for 64 bits. *)
Fixpoint format_loop (fuel : nat) (v : Z) (acc : list byte) : list byte :=
  match fuel with
  | O => acc
  | S fuel =>
      let acc' := digit (v mod 10) :: acc in
      if v <? 10 then acc' else format_loop fuel (v / 10) acc'
  end.
Definition FormatUint (v : Z) : list byte := format_loop 20 v [].

(** [strconv.ParseUint(s, 10, bits)]: [None] is an error (empty, a character
    that is no digit, out of range). *)
Fixpoint parse_digits (s : list byte) (acc : Z) : option Z :=
  match s with
  | [] => Some acc
  | b :: s' => if is_digit b then parse_digits s' (10 * acc + (b2z b - 48)) else None
  end.
Definition ParseUint (bits : Z) (s : list byte) : option Z :=
  match s with
  | [] => None
  | _ => match parse_digits s 0 with
         | Some v => if v <? 2 ^ bits then Some v else None
         | None => None
         end
  end.

Lemma b2z_digit d : 0 <= d < 10 -> b2z (digit d) = 48 + d.
Proof. intros Hd. unfold digit. rewrite b2z_z2b. apply Z.mod_small. lia. Qed.

Lemma is_digit_digit d : 0 <= d < 10 -> is_digit (digit d) = true.
Proof. intros Hd. unfold is_digit. rewrite b2z_digit by done. lia. Qed.

Lemma parse_digits_app s1 s2 acc : parse_digits (s1 ++ s2) acc = parse_digits s1 acc ≫= parse_digits s2.
Proof. revert acc. induction s1 as [|b s1 IH]; intros acc; cbn; [done|]. by destruct (is_digit b). Qed.

(** The accumulator of the printing loop is a suffix of digits. *)
Lemma format_loop_spec fuel v acc : 0 <= v < 10 ^ Z.of_nat fuel -> (1 <= fuel)%nat ->
  exists ds, format_loop fuel v acc = ds ++ acc /\ ds <> [] /\ Forall (fun b => is_digit b = true) ds /\
    parse_digits ds 0 = Some v.
Proof.
  revert v acc. induction fuel as [|fuel IH]; intros v acc Hv Hf; [lia|]. cbn [format_loop].
  pose proof (Z.mod_pos_bound v 10 ltac:(lia)) as Hm. destruct (Z.ltb_spec v 10) as [Hlt|Hge].
  - exists [digit (v mod 10)]. rewrite Z.mod_small by lia. split_and!; [done|done| |].
    + constructor; [apply is_digit_digit; lia|done].
    + cbn. rewrite is_digit_digit, b2z_digit by lia. f_equal. lia.
  - rewrite Nat2Z.inj_succ, Z.pow_succ_r in Hv by lia.
    destruct fuel as [|fuel]; [cbn in Hv; lia|].
    destruct (IH (v / 10) (digit (v mod 10) :: acc)) as (ds & E & Hne & Hd & Hp); [|lia|].
    { split; [apply Z.div_pos; lia|apply Z.div_lt_upper_bound; lia]. }
    exists (ds ++ [digit (v mod 10)]). rewrite E, <- app_assoc. split_and!; [done|by destruct ds| |].
    + apply Forall_app. split; [done|]. constructor; [by apply is_digit_digit|done].
    + rewrite parse_digits_app, Hp. cbn. rewrite is_digit_digit, b2z_digit by lia. f_equal.
      pose proof (Z.div_mod v 10 ltac:(lia)). lia.
Qed.

Lemma FormatUint_spec v : 0 <= v < 2 ^ 64 ->
  FormatUint v <> [] /\ Forall (fun b => is_digit b = true) (FormatUint v) /\ parse_digits (FormatUint v) 0 = Some v.
Proof.
  intros Hv. unfold FormatUint.
  destruct (format_loop_spec 20 v []) as (ds & E & Hne & Hd & Hp); [cbn; lia|lia|]. rewrite E, app_nil_r. done.
Qed.

(** Parsing what was printed, at any width that holds the number. *)
Lemma ParseUint_FormatUint bits v : 0 <= v < 2 ^ bits -> bits <= 64 -> ParseUint bits (FormatUint v) = Some v.
Proof.
  intros Hv Hb. assert (v < 2 ^ 64) by (eapply Z.lt_le_trans; [apply Hv|apply Z.pow_le_mono_r; lia]).
  destruct (FormatUint_spec v ltac:(lia)) as (Hne & _ & Hp). unfold ParseUint.
  destruct (FormatUint v); [done|]. rewrite Hp. by replace (v <? 2 ^ bits) with true by lia.
Qed.

(** ** Hexadecimal *)

Definition hex_digit (d : Z) : byte := if d <? 10 then z2b (48 + d) else z2b (87 + d).
Definition hex_value (b : byte) : option Z :=
  let z := b2z b in
  if (48 <=? z) && (z <=? 57) then Some (z - 48)
  else if (97 <=? z) && (z <=? 102) then Some (z - 87)
  else if (65 <=? z) && (z <=? 70) then Some (z - 55)
  else None.

(** [hex.Encode] of one byte, [hex.EncodeToString]. *)
Definition hex_byte (b : byte) : list byte := [hex_digit (b2z b / 16); hex_digit (b2z b mod 16)].
Definition hex_encode (bs : list byte) : list byte := concat (map hex_byte bs).

(** [hex.DecodeString]: an odd length and other characters are errors. *)
Fixpoint hex_decode (s : list byte) : option (list byte) :=
  match s with
  | [] => Some []
  | [_] => None
  | a :: b :: s' =>
      match hex_value a, hex_value b, hex_decode s' with
      | Some x, Some y, Some r => Some (z2b (16 * x + y) :: r)
      | _, _, _ => None
      end
  end.

Lemma hex_value_digit d : 0 <= d < 16 -> hex_value (hex_digit d) = Some d.
Proof.
  intros Hd. unfold hex_digit, hex_value. destruct (Z.ltb_spec d 10); rewrite b2z_z2b, Z.mod_small by lia.
  - replace ((48 <=? 48 + d) && (48 + d <=? 57)) with true by lia. f_equal. lia.
  - replace ((48 <=? 87 + d) && (87 + d <=? 57)) with false by lia.
    replace ((97 <=? 87 + d) && (87 + d <=? 102)) with true by lia. f_equal. lia.
Qed.

Lemma hex_byte_range b : 0 <= b2z b / 16 < 16 /\ 0 <= b2z b mod 16 < 16.
Proof.
  pose proof (b2z_range b). split; [|apply Z.mod_pos_bound; lia].
  split; [apply Z.div_pos; lia|apply Z.div_lt_upper_bound; lia].
Qed.

Lemma hex_decode_byte b s : hex_decode (hex_byte b ++ s) = (b ::.) <$> hex_decode s.
Proof.
  destruct (hex_byte_range b) as [H1 H2]. cbn [hex_byte app hex_decode]. rewrite !hex_value_digit by done.
  pose proof (Z.div_mod (b2z b) 16 ltac:(lia)) as Hd. rewrite <- Hd, z2b_b2z. by destruct (hex_decode s).
Qed.

Lemma hex_decode_encode bs : hex_decode (hex_encode bs) = Some bs.
Proof.
  induction bs as [|b bs IH]; [done|]. unfold hex_encode in *. cbn [map concat]. by rewrite hex_decode_byte, IH.
Qed.

(** Lower-case hexadecimal digits. *)
Definition is_hex (b : byte) : bool := is_digit b || ((97 <=? b2z b) && (b2z b <=? 102)).

Lemma hex_digit_is_hex d : 0 <= d < 16 -> is_hex (hex_digit d) = true.
Proof.
  intros Hd. unfold is_hex, is_digit, hex_digit. destruct (Z.ltb_spec d 10); rewrite b2z_z2b, Z.mod_small by lia; lia.
Qed.

Lemma hex_encode_is_hex bs : Forall (fun b => is_hex b = true) (hex_encode bs).
Proof.
  induction bs as [|b bs IH]; [done|]. destruct (hex_byte_range b). unfold hex_encode. cbn [map concat hex_byte app].
  constructor; [by apply hex_digit_is_hex|]. constructor; [by apply hex_digit_is_hex|exact IH].
Qed.

(** ** Splitting *)

(** [strings.Split(s, sep)] for a one-byte separator: at least one part. *)
Fixpoint split_at (sep : byte) (s : list byte) : list (list byte) :=
  match s with
  | [] => [[]]
  | b :: s' =>
      match split_at sep s' with
      | [] => []
      | part :: parts => if decide (b = sep) then [] :: part :: parts else (b :: part) :: parts
      end
  end.

Definition contains (c : byte) (s : list byte) : bool := bool_decide (c ∈ s).

Lemma split_at_nonempty sep s : split_at sep s <> [].
Proof. induction s as [|b s IH]; cbn; [done|]. destruct (split_at sep s); [done|]. by case_decide. Qed.

Lemma split_at_none sep s : sep ∉ s -> split_at sep s = [s].
Proof.
  induction s as [|b s IH]; intros Hn; cbn; [done|]. rewrite IH by (by intros ?; apply Hn; right).
  rewrite decide_False; [done|]. intros ->. apply Hn. by left.
Qed.

Lemma split_at_app sep s t : sep ∉ s -> split_at sep (s ++ sep :: t) = s :: split_at sep t.
Proof.
  induction s as [|b s IH]; intros Hn; cbn.
  - pose proof (split_at_nonempty sep t). destruct (split_at sep t); [done|]. by rewrite decide_True.
  - rewrite IH by (by intros ?; apply Hn; right). rewrite decide_False; [done|]. intros ->. apply Hn. by left.
Qed.

(** Splitting a sequence of parts, each after a separator. *)
Lemma split_at_concat sep parts : parts <> [] -> Forall (fun p => sep ∉ p) parts ->
  split_at sep (concat (map (cons sep) parts)) = [] :: parts.
Proof.
  intros Hne Hf. destruct parts as [|p parts]; [done|]. clear Hne. revert p Hf.
  induction parts as [|q parts IH]; intros p Hf; apply Forall_cons in Hf as [Hp Hf].
  - cbn [map concat app]. rewrite app_nil_r. change (sep :: p) with ([] ++ sep :: p).
    rewrite split_at_app by apply not_elem_of_nil. by rewrite split_at_none.
  - cbn [map concat app]. change (sep :: p ++ ?x) with ([] ++ sep :: p ++ x).
    rewrite split_at_app by apply not_elem_of_nil. rewrite split_at_app by done. f_equal.
    specialize (IH q Hf). cbn [map concat app] in IH. change (sep :: q ++ ?x) with ([] ++ sep :: q ++ x) in IH.
    rewrite split_at_app in IH by apply not_elem_of_nil. injection IH as IH. by rewrite IH.
Qed.

(** ** Lexicographic order *)

(** The order of lists from the order of their elements, a proper prefix first. *)
Section lex.
Context {A : Type} (cmp : A -> A -> comparison).

Fixpoint lex (l m : list A) : comparison :=
  match l, m with
  | [], [] => Eq
  | [], _ => Lt
  | _, [] => Gt
  | a :: l, b :: m => match cmp a b with Eq => lex l m | r => r end
  end.

Context (cmp_eq : forall a b, cmp a b = Eq <-> a = b).

Lemma lex_eq l m : lex l m = Eq <-> l = m.
Proof.
  clear -cmp_eq. revert m. induction l as [|a l IH]; intros [|b m]; cbn; [done..|]. destruct (cmp a b) eqn:E.
  - apply cmp_eq in E as ->. rewrite IH. split; [by intros ->|by intros [=]].
  - split; [done|]. intros [= -> ->]. by rewrite (proj2 (cmp_eq b b) eq_refl) in E.
  - split; [done|]. intros [= -> ->]. by rewrite (proj2 (cmp_eq b b) eq_refl) in E.
Qed.

Lemma lex_prefix l m : l `prefix_of` m -> l <> m -> lex l m = Lt.
Proof.
  clear -cmp_eq. revert m. induction l as [|a l IH]; intros m [r ->] Hne; cbn; [by destruct r|].
  rewrite (proj2 (cmp_eq a a) eq_refl). apply IH; [by exists r|]. intros E. apply Hne. cbn. by rewrite <- E.
Qed.

Lemma lex_opp : (forall a b, cmp b a = CompOpp (cmp a b)) -> forall l m, lex m l = CompOpp (lex l m).
Proof.
  intros Hopp. induction l as [|a l IH]; intros [|b m]; cbn; [done..|]. rewrite (Hopp a b). destruct (cmp a b); cbn; [|done..].
  apply IH.
Qed.

Lemma lex_trans : (forall a b c, cmp a b = Lt -> cmp b c = Lt -> cmp a c = Lt) ->
  forall l m n, lex l m = Lt -> lex m n = Lt -> lex l n = Lt.
Proof.
  intros Ht. induction l as [|a l IH]; intros [|b m] [|c n]; cbn; try done.
  destruct (cmp a b) eqn:E1; [| |done].
  - apply cmp_eq in E1 as ->. destruct (cmp b c); [|done..]. apply IH.
  - destruct (cmp b c) eqn:E2; [| |done].
    + apply cmp_eq in E2 as ->. by rewrite E1.
    + intros _ _. by rewrite (Ht _ _ _ E1 E2).
Qed.
End lex.

(** Bytes as numbers. *)
Definition byte_order (a b : byte) : comparison := Z.compare (b2z a) (b2z b).

Lemma byte_order_eq a b : byte_order a b = Eq <-> a = b.
Proof. unfold byte_order. rewrite Z.compare_eq_iff. split; [apply b2z_inj|by intros ->]. Qed.
Lemma byte_order_opp a b : byte_order b a = CompOpp (byte_order a b).
Proof. apply Z.compare_antisym. Qed.
Lemma byte_order_trans a b c : byte_order a b = Lt -> byte_order b c = Lt -> byte_order a c = Lt.
Proof. unfold byte_order. rewrite !Z.compare_lt_iff. lia. Qed.
