(* ===== verification/NetAddr.v ===== *)
(** * Addresses: what the code uses of Go's net and strings packages

    IP addresses ([net.ParseIP] and the methods of [net.IP]), MAC addresses
    ([net.ParseMAC], [HardwareAddr.String]), host:port pairs and trimming.  An
    address is the eight 16-bit groups of its 16-byte form, which is what
    [ParseIP] returns for IPv4 too; a nil [net.IP] is [None]. *)
From S2P Require Import Prelude.
From S2P Require Import Text.
Local Open Scope Z_scope.

(** ** Strings *)

(** [strings.Trim(s, cutset)] and [strings.TrimLeft]. *)
Fixpoint TrimLeft (cutset s : list byte) : list byte :=
  match s with
  | [] => []
  | b :: s' => if bool_decide (b ∈ cutset) then TrimLeft cutset s' else s
  end.
Definition Trim (cutset s : list byte) : list byte := rev (TrimLeft cutset (rev (TrimLeft cutset s))).

(** [strings.Join]. *)
Fixpoint join (sep : list byte) (parts : list (list byte)) : list byte :=
  match parts with
  | [] => []
  | [p] => p
  | p :: parts => p ++ sep ++ join sep parts
  end.

(** The text before and after the first occurrence of a byte. *)
Fixpoint cut (c : byte) (s : list byte) : option (list byte * list byte) :=
  match s with
  | [] => None
  | b :: s' => if decide (b = c) then Some ([], s') else (fun '(x, y) => (b :: x, y)) <$> cut c s'
  end.

(** The same for the last occurrence. *)
Definition cut_last (c : byte) (s : list byte) : option (list byte * list byte) :=
  (fun '(x, y) => (rev y, rev x)) <$> cut c (rev s).

(** The longest prefix of bytes that satisfy a test. *)
Fixpoint span (p : byte -> bool) (s : list byte) : list byte * list byte :=
  match s with
  | [] => ([], [])
  | b :: s' => if p b then let '(x, y) := span p s' in (b :: x, y) else ([], s)
  end.

Definition is_hexdigit (b : byte) : bool := bool_decide (is_Some (hex_value b)).

(** ** IP addresses *)

Definition IP := list Z.

Definition is_ip (ip : IP) : Prop := length ip = 8%nat /\ Forall (fun g => 0 <= g < 2 ^ 16) ip.

(** One decimal field: no leading zero, at most 255. *)
Definition v4_field (s : list byte) : option Z :=
  match s with
  | [] => None
  | b :: r =>
      if bool_decide (b = digit 0) && negb (bool_decide (r = [])) then None
      else v ← parse_digits s 0; if v <=? 255 then Some v else None
  end.

Definition parse_v4 (s : list byte) : option (Z * Z * Z * Z) :=
  match split_at (z2b 46) s with
  | [a; b; c; d] => a ← v4_field a; b ← v4_field b; c ← v4_field c; d ← v4_field d; Some (a, b, c, d)
  | _ => None
  end.

Definition from_v4 (x : Z * Z * Z * Z) : IP :=
  let '(a, b, c, d) := x in [0; 0; 0; 0; 0; 65535; 256 * a + b; 256 * c + d].

Definition hex_number (ds : list byte) : Z := fold_left (fun acc b => 16 * acc + default 0 (hex_value b)) ds 0.

(** The loop over the groups: the groups read, the position of the ellipsis,
    and what is left of the text.  [fuel] is the number of groups missing. *)
Fixpoint v6_loop (fuel : nat) (s : list byte) (acc : list Z) (ell : option nat) : option (list Z * option nat * list byte) :=
  match fuel with
  | O => Some (acc, ell, s)
  | S fuel =>
      let '(ds, rest) := span is_hexdigit s in
      if bool_decide (ds = []) || (4 <? length ds)%nat then None
      else
        let acc' := acc ++ [hex_number ds] in
        match rest with
        | [] => Some (acc', ell, [])
        | b :: rest =>
            if decide (b = z2b 46) then
              if bool_decide (ell = None) && negb (length acc =? 6)%nat then None
              else if (8 <? length acc + 2)%nat then None
              else '(a, b, c, d) ← parse_v4 s; Some (acc ++ [256 * a + b; 256 * c + d], ell, [])
            else if decide (b = z2b 58) then
              match rest with
              | [] => None
              | b' :: rest' =>
                  if decide (b' = z2b 58) then
                    match ell with
                    | Some _ => None
                    | None =>
                        if bool_decide (rest' = []) then Some (acc', Some (length acc'), [])
                        else v6_loop fuel rest' acc' (Some (length acc'))
                    end
                  else v6_loop fuel rest acc' ell
              end
            else None
        end
  end.

Definition v6_expand (r : list Z * option nat * list byte) : option IP :=
  match r with
  | (acc, ell, []) =>
      if (length acc <? 8)%nat then
        e ← ell; Some (take e acc ++ replicate (8 - length acc) 0 ++ drop e acc)
      else match ell with Some _ => None | None => Some acc end
  | _ => None
  end.

Definition parse_v6 (s : list byte) : option IP :=
  match s with
  | a :: b :: s' =>
      if decide (a = z2b 58 /\ b = z2b 58) then
        if bool_decide (s' = []) then Some (replicate 8 0) else v6_loop 8 s' [] (Some 0%nat) ≫= v6_expand
      else v6_loop 8 s [] None ≫= v6_expand
  | _ => v6_loop 8 s [] None ≫= v6_expand
  end.

(** [net.ParseIP]: the first dot, colon or percent sign decides the form; there
    is no zone. *)
Fixpoint ip_form (s : list byte) : option byte :=
  match s with
  | [] => None
  | b :: s' => if bool_decide (b ∈ [z2b 46; z2b 58; z2b 37]) then Some b else ip_form s'
  end.
Definition ParseIP (s : list byte) : option IP :=
  if contains (z2b 37) s then None
  else match ip_form s with
       | Some b => if decide (b = z2b 46) then from_v4 <$> parse_v4 s else parse_v6 s
       | None => None
       end.

(** [To4]. *)
Definition To4 (ip : IP) : option (Z * Z * Z * Z) :=
  match ip with
  | [0; 0; 0; 0; 0; 65535; x; y] => Some (x / 256, x mod 256, y / 256, y mod 256)
  | _ => None
  end.

(** A 16-bit group without leading zeros. *)
Definition hex_group (v : Z) : list byte :=
  if v <? 16 then [hex_digit v]
  else if v <? 256 then [hex_digit (v / 16); hex_digit (v mod 16)]
  else if v <? 4096 then [hex_digit (v / 256); hex_digit (v / 16 mod 16); hex_digit (v mod 16)]
  else [hex_digit (v / 4096); hex_digit (v / 256 mod 16); hex_digit (v / 16 mod 16); hex_digit (v mod 16)].

(** The zero run from a group on. *)
Fixpoint zero_run (gs : list Z) : nat :=
  match gs with
  | 0 :: gs => S (zero_run gs)
  | _ => 0%nat
  end.

(** The first of the longest runs of at least two zero groups. *)
Definition best_run (gs : list Z) : option (nat * nat) :=
  fold_left (fun best i =>
    let l := zero_run (drop i gs) in
    let old := match best with Some (a, b) => (b - a)%nat | None => 0%nat end in
    if ((2 <=? l) && (old <? l))%nat then Some (i, (i + l)%nat) else best)
    (seq 0 8) None.

Definition dot_join (x : Z * Z * Z * Z) : list byte :=
  let '(a, b, c, d) := x in join [z2b 46] [FormatUint a; FormatUint b; FormatUint c; FormatUint d].

(** [IP.String]. *)
Definition IP_String (ip : IP) : list byte :=
  match To4 ip with
  | Some x => dot_join x
  | None =>
      match best_run ip with
      | None => join [z2b 58] (hex_group <$> ip)
      | Some (a, b) =>
          join [z2b 58] (hex_group <$> take a ip) ++ [z2b 58; z2b 58] ++ join [z2b 58] (hex_group <$> drop b ip)
      end
  end.

Definition v6_loopback : IP := [0; 0; 0; 0; 0; 0; 0; 1].
Definition v6_unspecified : IP := replicate 8 0.

Definition IsLoopback (ip : IP) : bool :=
  match To4 ip with Some (a, _, _, _) => a =? 127 | None => bool_decide (ip = v6_loopback) end.
Definition IsMulticast (ip : IP) : bool :=
  match To4 ip with Some (a, _, _, _) => a / 16 =? 14 | None => default 0 (head ip) / 256 =? 255 end.
Definition IsLinkLocalUnicast (ip : IP) : bool :=
  match To4 ip with
  | Some (a, b, _, _) => (a =? 169) && (b =? 254)
  | None => default 0 (head ip) / 64 =? 1018
  end.
Definition IsUnspecified (ip : IP) : bool :=
  bool_decide (ip = from_v4 (0, 0, 0, 0)) || bool_decide (ip = v6_unspecified).
Definition IsGlobalUnicast (ip : IP) : bool :=
  negb (bool_decide (ip = from_v4 (255, 255, 255, 255))) && negb (IsUnspecified ip) && negb (IsLoopback ip)
  && negb (IsMulticast ip) && negb (IsLinkLocalUnicast ip).

(** ** MAC addresses *)

Definition hex_pair (s : list byte) : option Z :=
  match s with
  | [a; b] => x ← hex_value a; y ← hex_value b; Some (16 * x + y)
  | _ => None
  end.

Definition hex_quad (s : list byte) : option (list Z) :=
  match s with
  | [a; b; c; d] => x ← hex_pair [a; b]; y ← hex_pair [c; d]; Some [x; y]
  | _ => None
  end.

Definition mac_length (n : nat) : bool := bool_decide (n ∈ [6; 8; 20]%nat).

(** [net.ParseMAC]: pairs after colons or dashes, or quads after dots. *)
Definition ParseMAC (s : list byte) : option (list Z) :=
  let by_pairs sep := hw ← mapM hex_pair (split_at sep s); if mac_length (length hw) then Some hw else None in
  match s !! 2%nat, s !! 4%nat with
  | Some c, d =>
      if decide (c = z2b 58) then by_pairs (z2b 58)
      else if decide (c = z2b 45) then by_pairs (z2b 45)
      else if decide (d = Some (z2b 46)) then
        hw ← mapM hex_quad (split_at (z2b 46) s); if mac_length (length (concat hw)) then Some (concat hw) else None
      else None
  | None, _ => None
  end.

Definition MAC_String (hw : list Z) : list byte :=
  join [z2b 58] ((fun b => [hex_digit (b / 16); hex_digit (b mod 16)]) <$> hw).

(** ** Host and port *)

Definition JoinHostPort (host port : list byte) : list byte :=
  if contains (z2b 58) host then [z2b 91] ++ host ++ [z2b 93; z2b 58] ++ port else host ++ [z2b 58] ++ port.

(** [net.SplitHostPort]; [None] is an error. *)
Definition SplitHostPort (hostport : list byte) : option (list byte * list byte) :=
  match cut_last (z2b 58) hostport with
  | None => None
  | Some (before, port) =>
      match hostport with
      | b :: inner =>
          if decide (b = z2b 91) then
            match cut (z2b 93) inner with
            | Some (host, rest) =>
                if decide (before = b :: host ++ [z2b 93]) then
                  if contains (z2b 91) (drop 1 hostport) || contains (z2b 93) rest then None else Some (host, port)
                else None
            | None => None
            end
          else if contains (z2b 58) before || contains (z2b 91) hostport || contains (z2b 93) hostport then None
               else Some (before, port)
      | [] => None
      end
  end.

(** [ParseUint(s, 10, 16)] with the error dropped: 0, or the largest value when
    it is out of range. *)
Definition lenient_port (s : list byte) : Z :=
  match s with
  | [] => 0
  | _ => match parse_digits s 0 with Some v => Z.min v 65535 | None => 0 end
  end.

(** ** Lemmas on text *)

Lemma split_at_join sep parts : parts <> [] -> Forall (fun p => sep ∉ p) parts -> split_at sep (join [sep] parts) = parts.
Proof.
  destruct parts as [|p parts]; [done|]. intros _. revert p. induction parts as [|q parts IH]; intros p Hf;
    apply Forall_cons in Hf as [Hp Hf]; [by apply split_at_none|].
  change (join [sep] (p :: q :: parts)) with (p ++ sep :: join [sep] (q :: parts)).
  by rewrite split_at_app, IH.
Qed.

Lemma elem_of_join c sep parts : c ∈ join sep parts -> c ∈ sep \/ exists p, p ∈ parts /\ c ∈ p.
Proof.
  induction parts as [|p parts IH]; [by intros ?%elem_of_nil|]. destruct parts as [|q parts].
  - intros H. right. exists p. split; [apply list_elem_of_singleton|]; done.
  - change (join sep (p :: q :: parts)) with (p ++ sep ++ join sep (q :: parts)).
    intros [H|[H|H]%elem_of_app]%elem_of_app; [right; exists p; split; [by left|done]|by left|].
    destruct (IH H) as [?|(x & Hx & ?)]; [by left|]. right. exists x. split; [by right|done].
Qed.

Lemma join_head sep (c : byte) p parts : head p = Some c -> head (join sep (p :: parts)) = Some c.
Proof. by destruct p, parts. Qed.

Lemma join_nonempty sep p parts : p <> [] -> join sep (p :: parts) <> [].
Proof. by destruct p, parts. Qed.

Lemma cut_app c s t : c ∉ s -> cut c (s ++ c :: t) = Some (s, t).
Proof.
  induction s as [|b s IH]; intros Hn; cbn.
  - by rewrite decide_True.
  - rewrite decide_False by (intros ->; apply Hn; by left). rewrite IH by (intros ?; apply Hn; by right). done.
Qed.

Lemma cut_none c s : c ∉ s -> cut c s = None.
Proof.
  induction s as [|b s IH]; intros Hn; cbn; [done|].
  rewrite decide_False by (intros ->; apply Hn; by left). by rewrite IH by (intros ?; apply Hn; by right).
Qed.

Lemma cut_Some c s x y : cut c s = Some (x, y) -> s = x ++ c :: y /\ c ∉ x.
Proof.
  revert x. induction s as [|b s IH]; intros x; cbn; [done|]. case_decide as Hb.
  - intros [= <- <-]. subst. split; [done|apply not_elem_of_nil].
  - destruct (cut c s) as [[x' y']|]; [|done]. intros [= <- <-]. destruct (IH x' eq_refl) as [-> Hn].
    split; [done|]. by rewrite not_elem_of_cons.
Qed.

Lemma cut_last_app c s t : c ∉ t -> cut_last c (s ++ c :: t) = Some (s, t).
Proof.
  intros Hn. unfold cut_last. rewrite rev_app_distr. cbn [rev]. rewrite <- app_assoc. cbn [app].
  rewrite cut_app; [cbn; by rewrite !rev_involutive|]. by rewrite list_elem_of_In, <- in_rev, <- list_elem_of_In.
Qed.

Lemma cut_last_Some c s x y : cut_last c s = Some (x, y) -> s = x ++ c :: y /\ c ∉ y.
Proof.
  unfold cut_last. destruct (cut c (rev s)) as [[a b]|] eqn:E; [|done]. intros [= <- <-].
  apply cut_Some in E as [E Hn]. split.
  - rewrite <- (rev_involutive s), E, rev_app_distr. cbn [rev]. by rewrite <- app_assoc.
  - by rewrite list_elem_of_In, <- in_rev, <- list_elem_of_In.
Qed.

Lemma span_app p s t : Forall (fun b => p b = true) s -> (forall b, head t = Some b -> p b = false) -> span p (s ++ t) = (s, t).
Proof.
  intros Hs Ht. induction Hs as [|b s Hb _ IH]; cbn.
  - destruct t as [|b t]; [done|]. cbn. by rewrite (Ht b).
  - by rewrite Hb, IH.
Qed.

(** Trimming what has no byte of the cut set at its ends. *)
Lemma TrimLeft_none cs s : (forall b, head s = Some b -> b ∉ cs) -> TrimLeft cs s = s.
Proof. destruct s as [|b s]; [done|]. intros H. cbn. by rewrite bool_decide_false by auto. Qed.

Lemma Trim_none cs s : Forall (fun b => b ∉ cs) s -> Trim cs s = s.
Proof.
  intros Hf. assert (Hh : forall l, Forall (fun b => b ∉ cs) l -> forall b, head l = Some b -> b ∉ cs).
  { intros l Hl b Hb. destruct Hl as [|c l Hc _]; [done|]. injection Hb as ->. done. }
  unfold Trim. rewrite (TrimLeft_none _ s) by (by apply Hh).
  rewrite TrimLeft_none; [apply rev_involutive|]. apply Hh. by apply Forall_rev.
Qed.

(** ** Round trips of addresses *)

Definition is_v4 (x : Z * Z * Z * Z) : Prop :=
  let '(a, b, c, d) := x in 0 <= a < 256 /\ 0 <= b < 256 /\ 0 <= c < 256 /\ 0 <= d < 256.

(** A decimal field of an address, checked on the 256 values. *)
Lemma v4_field_print a : 0 <= a < 256 -> v4_field (FormatUint a) = Some a /\ Forall (fun b => is_digit b = true) (FormatUint a).
Proof.
  intros Ha. assert (Hall : forallb (fun n => let a := Z.of_nat n in
    bool_decide (v4_field (FormatUint a) = Some a)) (seq 0 256) = true) by (vm_compute; reflexivity).
  rewrite forallb_forall in Hall. specialize (Hall (Z.to_nat a)). rewrite in_seq in Hall. rewrite Z2Nat.id in Hall by lia.
  specialize (Hall ltac:(lia)). cbv zeta in Hall. apply bool_decide_eq_true in Hall. split; [done|]. apply FormatUint_spec. lia.
Qed.

Lemma digits_avoid c s : Forall (fun b => is_digit b = true) s -> is_digit c = false -> c ∉ s.
Proof. intros Hs Hc Hin. rewrite Forall_forall in Hs. rewrite Hs in Hc by done. done. Qed.

Lemma parse_v4_print x : is_v4 x -> parse_v4 (dot_join x) = Some x.
Proof.
  destruct x as [[[a b] c] d]. intros (Ha & Hb & Hc & Hd). unfold parse_v4, dot_join.
  destruct (v4_field_print a Ha) as [Fa Da], (v4_field_print b Hb) as [Fb Db],
    (v4_field_print c Hc) as [Fc Dc], (v4_field_print d Hd) as [Fd Dd].
  rewrite split_at_join; [|done|repeat constructor; by eapply digits_avoid].
  rewrite Fa, Fb, Fc, Fd. done.
Qed.

(** A group without leading zeros. *)
Lemma hex_group_spec v : 0 <= v < 2 ^ 16 ->
  hex_group v <> [] /\ (length (hex_group v) <= 4)%nat /\ Forall (fun b => is_hex b = true) (hex_group v) /\
  hex_number (hex_group v) = v.
Proof.
  intros Hv. pose proof (Z.mod_pos_bound v 16 ltac:(lia)). pose proof (Z.mod_pos_bound (v / 16) 16 ltac:(lia)).
  pose proof (Z.mod_pos_bound (v / 256) 16 ltac:(lia)).
  pose proof (Z.div_mod v 16 ltac:(lia)). pose proof (Z.div_mod (v / 16) 16 ltac:(lia)).
  pose proof (Z.div_mod (v / 256) 16 ltac:(lia)).
  replace (v / 16 / 16) with (v / 256) in * by (by rewrite Z.div_div).
  replace (v / 256 / 16) with (v / 4096) in * by (by rewrite Z.div_div by lia).
  unfold hex_group, hex_number. goal_ifs; cbn [fold_left length];
    (split_and!; [done|lia|repeat constructor; apply hex_digit_is_hex; lia|]);
    rewrite !hex_value_digit by lia; cbn [default]; cbn; lia.
Qed.

Lemma is_hex_hexdigit b : is_hex b = true -> is_hexdigit b = true.
Proof.
  unfold is_hex, is_hexdigit, is_digit, hex_value. intros H. apply bool_decide_eq_true. goal_ifs; [by eexists..|lia].
Qed.

(** Reading a group and what comes after it. *)
Lemma span_group v t : 0 <= v < 2 ^ 16 -> (forall b, head t = Some b -> is_hexdigit b = false) ->
  span is_hexdigit (hex_group v ++ t) = (hex_group v, t).
Proof.
  intros Hv Ht. apply span_app; [|done]. destruct (hex_group_spec v Hv) as (_ & _ & Hf & _).
  eapply Forall_impl; [exact Hf|]. apply is_hex_hexdigit.
Qed.

Abbreviation colon := (z2b 58).

Lemma colon_not_hex : is_hexdigit colon = false.
Proof. reflexivity. Qed.

(** One round of the loop at the end of the text, before one colon, and before
    the ellipsis. *)
Lemma v6_last n v acc ell : 0 <= v < 2 ^ 16 -> v6_loop (S n) (hex_group v) acc ell = Some (acc ++ [v], ell, []).
Proof.
  intros Hv. cbn [v6_loop]. destruct (hex_group_spec v Hv) as (Hne & Hl & _ & Hn).
  rewrite <- (app_nil_r (hex_group v)) at 1. rewrite span_group by done. rewrite bool_decide_false by done.
  replace (4 <? length (hex_group v))%nat with false by (symmetry; apply Nat.ltb_ge; lia). cbn [orb]. by rewrite Hn.
Qed.

Lemma v6_colon n v rest acc ell : 0 <= v < 2 ^ 16 ->
  v6_loop (S n) (hex_group v ++ colon :: rest) acc ell =
    match rest with
    | [] => None
    | b' :: rest' =>
        if decide (b' = colon) then
          match ell with
          | Some _ => None
          | None => if bool_decide (rest' = []) then Some (acc ++ [v], Some (length (acc ++ [v])), [])
                    else v6_loop n rest' (acc ++ [v]) (Some (length (acc ++ [v])))
          end
        else v6_loop n rest (acc ++ [v]) ell
    end.
Proof.
  intros Hv. destruct (hex_group_spec v Hv) as (Hne & Hl & _ & Hn). cbn [v6_loop].
  rewrite span_group by (done || (intros b [= <-]; reflexivity)). rewrite bool_decide_false by done.
  replace (4 <? length (hex_group v))%nat with false by (symmetry; apply Nat.ltb_ge; lia). cbn [orb]. rewrite Hn.
  rewrite (decide_False (P := colon = z2b 46)) by done. by rewrite decide_True.
Qed.

Lemma group_head v (t : list byte) : 0 <= v < 2 ^ 16 -> exists b r, hex_group v ++ t = b :: r /\ b <> colon.
Proof.
  intros Hv. destruct (hex_group_spec v Hv) as (Hne & _ & Hf & _). destruct (hex_group v) as [|b r]; [done|].
  exists b, (r ++ t). split; [done|]. apply Forall_cons in Hf as [Hb _]. intros ->. done.
Qed.

(** The groups of a text, to its end or to the ellipsis. *)
Lemma v6_groups vs : vs <> [] -> Forall (fun v => 0 <= v < 2 ^ 16) vs -> forall n acc ell t, (length vs <= n)%nat ->
  v6_loop n (join [colon] (hex_group <$> vs) ++ t) acc ell =
    v6_loop (S (n - length vs)) (hex_group (List.last vs 0) ++ t) (acc ++ removelast vs) ell.
Proof.
  intros Hne Hf. induction vs as [|v vs IH]; [done|]. apply Forall_cons in Hf as [Hv Hf]. intros n acc ell t Hn. cbn [length] in Hn.
  destruct vs as [|w vs].
  - cbn [fmap list_fmap join List.last removelast length]. rewrite app_nil_r. replace n with (S (n - 1)) at 1 by lia. done.
  - change (join [colon] (hex_group <$> v :: w :: vs)) with (hex_group v ++ [colon] ++ join [colon] (hex_group <$> w :: vs)).
    rewrite <- !app_assoc. cbn [app]. destruct n as [|n]; [cbn in Hn; lia|]. rewrite v6_colon by done.
    specialize (IH ltac:(done) Hf n (acc ++ [v]) ell t ltac:(cbn [length] in *; lia)).
    assert (Hhead : exists b r, join [colon] (hex_group <$> w :: vs) ++ t = b :: r /\ b <> colon).
    { apply Forall_cons in Hf as [Hw _]. destruct vs as [|x vs]; [apply group_head; done|].
      change (join [colon] (hex_group <$> w :: x :: vs)) with (hex_group w ++ [colon] ++ join [colon] (hex_group <$> x :: vs)).
      rewrite <- !app_assoc. by apply group_head. }
    destruct Hhead as (b & r & E & Hb). rewrite E in *. rewrite decide_False by done. rewrite IH.
    rewrite <- app_assoc. cbn [length]. done.
Qed.

Lemma v6_end vs acc ell n : vs <> [] -> Forall (fun v => 0 <= v < 2 ^ 16) vs -> (length vs <= n)%nat ->
  v6_loop n (join [colon] (hex_group <$> vs)) acc ell = Some (acc ++ vs, ell, []).
Proof.
  intros Hne Hf Hn. rewrite <- (app_nil_r (join _ _)), v6_groups by done. rewrite app_nil_r.
  rewrite v6_last; [by rewrite <- app_assoc, <- app_removelast_last|].
  apply (proj1 (List.Forall_forall _ _) Hf). rewrite (app_removelast_last 0 Hne) at 2. apply in_or_app. right. by left.
Qed.

Lemma v6_ellipsis vs n t : vs <> [] -> Forall (fun v => 0 <= v < 2 ^ 16) vs -> (length vs <= n)%nat ->
  v6_loop n (join [colon] (hex_group <$> vs) ++ colon :: colon :: t) [] None =
    if bool_decide (t = []) then Some (vs, Some (length vs), []) else v6_loop (n - length vs) t vs (Some (length vs)).
Proof.
  intros Hne Hf Hn. rewrite v6_groups by done. cbn [app].
  rewrite v6_colon; [rewrite decide_True by done; by rewrite <- app_removelast_last|].
  apply (proj1 (List.Forall_forall _ _) Hf). rewrite (app_removelast_last 0 Hne) at 2. apply in_or_app. right. by left.
Qed.

Lemma zero_run_spec gs : take (zero_run gs) gs = replicate (zero_run gs) 0 /\ (zero_run gs <= length gs)%nat.
Proof.
  induction gs as [|g gs [IH1 IH2]]; [done|]. destruct g; cbn; [|split; [done|lia]..].
  by rewrite IH1; split; [|lia].
Qed.

(** A run of zeros to abbreviate. *)
Definition run_ok (ip : IP) (r : nat * nat) : Prop :=
  (r.1 + 2 <= r.2 <= length ip)%nat /\ take (r.2 - r.1) (drop r.1 ip) = replicate (r.2 - r.1) 0.

Lemma best_run_ok ip r : length ip = 8%nat -> best_run ip = Some r -> run_ok ip r.
Proof.
  intros Hl. unfold best_run.
  assert (Hgen : forall idx best, (forall i, i ∈ idx -> (i < 8)%nat) -> (forall r, best = Some r -> run_ok ip r) ->
    forall r, fold_left (fun best i =>
      let l := zero_run (drop i ip) in
      let old := match best with Some (a, b) => (b - a)%nat | None => 0%nat end in
      if ((2 <=? l) && (old <? l))%nat then Some (i, (i + l)%nat) else best) idx best = Some r -> run_ok ip r).
  { induction idx as [|i idx IH]; intros best Hi Hb; [exact Hb|]. cbn [fold_left]. apply IH; [intros j Hj; apply Hi; by right|].
    cbv zeta. destruct (zero_run_spec (drop i ip)) as [Hz Hlen]. rewrite length_drop in Hlen.
    specialize (Hi i ltac:(by left)). intros r' Hr.
    destruct ((2 <=? zero_run (drop i ip))%nat) eqn:E2; cbn [andb] in Hr; [|by apply Hb].
    apply Nat.leb_le in E2. destruct (Nat.ltb _ _) in Hr; [|by apply Hb]. injection Hr as <-. unfold run_ok. cbn [fst snd].
    replace (i + zero_run (drop i ip) - i)%nat with (zero_run (drop i ip)) by lia. split; [lia|done]. }
  apply Hgen; [|done]. intros i Hi%elem_of_seq. lia.
Qed.

(** The bytes of a printed IPv6 address. *)
Definition v6_byte (b : byte) : Prop := is_hex b = true \/ b = colon.

Lemma groups_bytes gs : Forall (fun g => 0 <= g < 2 ^ 16) gs -> Forall v6_byte (join [colon] (hex_group <$> gs)).
Proof.
  intros Hf. apply Forall_forall. intros c [Hc%list_elem_of_singleton|(p & Hp & Hc)]%elem_of_join; [by right|left].
  apply list_elem_of_fmap in Hp as (g & -> & Hg). rewrite Forall_forall in Hf.
  destruct (hex_group_spec g (Hf g Hg)) as (_ & _ & Hh & _). rewrite Forall_forall in Hh. by apply Hh.
Qed.

Lemma ip_form_v6 s : Forall v6_byte s -> colon ∈ s -> ip_form s = Some colon.
Proof.
  induction 1 as [|b s Hb _ IH]; intros Hin; [by apply elem_of_nil in Hin|]. cbn [ip_form].
  destruct (decide (b = colon)) as [->|Hne]; [done|]. destruct Hb as [Hb|Hb]; [|done].
  rewrite bool_decide_false; [apply IH; apply elem_of_cons in Hin as [?|?]; congruence|].
  intros Hin'. rewrite !elem_of_cons in Hin'. by destruct Hin' as [->|[->|[->|?%elem_of_nil]]].
Qed.

Lemma ParseIP_v6 s : Forall v6_byte s -> colon ∈ s -> ParseIP s = parse_v6 s.
Proof.
  intros Hf Hin. unfold ParseIP, contains. rewrite bool_decide_false; [by rewrite ip_form_v6|].
  intros Hp. rewrite Forall_forall in Hf. by destruct (Hf _ Hp).
Qed.

Lemma v6_expand_run A B k : (1 <= k)%nat -> (length A + length B + k = 8)%nat ->
  v6_expand (A ++ B, Some (length A), []) = Some (A ++ replicate k 0 ++ B).
Proof.
  intros Hk Hl. unfold v6_expand. rewrite length_app. replace (length A + length B <? 8)%nat with true by (symmetry; apply Nat.ltb_lt; lia).
  cbn. rewrite take_app_length, drop_app_length. by replace (8 - (length A + length B))%nat with k by lia.
Qed.

(** A text that does not start with two colons. *)
Lemma parse_v6_plain v rest : 0 <= v < 2 ^ 16 -> parse_v6 (hex_group v ++ rest) = v6_loop 8 (hex_group v ++ rest) [] None ≫= v6_expand.
Proof.
  intros Hv. destruct (group_head v rest Hv) as (b & r & -> & Hb). unfold parse_v6. destruct r as [|c r]; [done|].
  by rewrite decide_False by (by intros [? ?]).
Qed.

Lemma join_groups_split v gs : exists r, join [colon] (hex_group <$> v :: gs) = hex_group v ++ r.
Proof. destruct gs as [|w gs]; [exists []; by rewrite app_nil_r|]. by eexists. Qed.

Lemma parse_v6_run A B k : Forall (fun g => 0 <= g < 2 ^ 16) (A ++ B) -> (2 <= k)%nat -> (length A + length B + k = 8)%nat ->
  parse_v6 (join [colon] (hex_group <$> A) ++ [colon; colon] ++ join [colon] (hex_group <$> B)) = Some (A ++ replicate k 0 ++ B).
Proof.
  intros [HA HB]%Forall_app Hk Hl. destruct A as [|v A].
  - cbn [fmap list_fmap join app]. unfold parse_v6. rewrite decide_True by done. destruct B as [|w B].
    + cbn in Hl. replace k with 8%nat by lia. done.
    + rewrite bool_decide_false; [|destruct (hex_group_spec w) as (Hne & _); [by apply Forall_cons in HB as [? _]|];
        by apply (join_nonempty [colon] (hex_group w))].
      rewrite v6_end by (done || cbn [length] in *; lia). cbn [mbind option_bind]. by apply (v6_expand_run [] (w :: B)); [lia|].
  - assert (Hv : 0 <= v < 2 ^ 16) by by apply Forall_cons in HA as [? _].
    destruct (join_groups_split v A) as [r E]. rewrite E at 1. rewrite <- app_assoc, parse_v6_plain by done.
    rewrite app_assoc, <- E. cbn [app]. rewrite v6_ellipsis by (done || cbn [length] in *; lia).
    destruct B as [|w B].
    + cbn [fmap list_fmap join]. rewrite bool_decide_true by done. cbn [mbind option_bind].
      rewrite <- (app_nil_r (v :: A)) at 1. by apply (v6_expand_run (v :: A) []); [lia|].
    + rewrite bool_decide_false; [|destruct (hex_group_spec w) as (Hne & _); [by apply Forall_cons in HB as [? _]|];
        by apply (join_nonempty [colon] (hex_group w))].
      rewrite v6_end by (done || cbn [length] in *; lia). cbn [mbind option_bind]. by apply (v6_expand_run (v :: A) (w :: B)); [lia|].
Qed.

(** The bytes of a printed address that is not IPv4, among them a colon. *)
Lemma v6_text_bytes ip : is_ip ip -> To4 ip = None -> Forall v6_byte (IP_String ip) /\ colon ∈ IP_String ip.
Proof.
  intros [Hl Hf] H4. unfold IP_String. rewrite H4. destruct (best_run ip) as [[a b]|] eqn:E.
  - split.
    + apply Forall_app. split; [apply groups_bytes, Forall_take, Hf|]. constructor; [by right|]. constructor; [by right|].
      apply groups_bytes, Forall_drop, Hf.
    + apply elem_of_app. right. by left.
  - split; [by apply groups_bytes|]. do 2 (destruct ip as [|? ip]; [done|]).
    change (join [colon] (hex_group <$> z :: z0 :: ip)) with (hex_group z ++ [colon] ++ join [colon] (hex_group <$> z0 :: ip)).
    apply elem_of_app. right. by left.
Qed.

Lemma parse_v6_print ip : is_ip ip -> To4 ip = None -> parse_v6 (IP_String ip) = Some ip.
Proof.
  intros [Hl Hf] H4. unfold IP_String. rewrite H4. destruct (best_run ip) as [[a b]|] eqn:E.
  - apply best_run_ok in E as [Hr Hz]; [|done]. cbn [fst snd] in *.
    rewrite (parse_v6_run _ _ (b - a)); [| |lia|rewrite length_take, length_drop; lia].
    + f_equal. rewrite <- Hz. rewrite <- (take_drop a ip) at 4. f_equal. rewrite <- (take_drop (b - a) (drop a ip)) at 2.
      f_equal. rewrite drop_drop. f_equal. lia.
    + apply Forall_app. split; [by apply Forall_take|by apply Forall_drop].
  - destruct ip as [|v ip]; [done|]. assert (Hv : 0 <= v < 2 ^ 16) by by apply Forall_cons in Hf as [? _].
    destruct (join_groups_split v ip) as [r Er]. rewrite Er, parse_v6_plain by done. rewrite <- Er.
    rewrite v6_end by (done || lia). cbn [mbind option_bind app]. unfold v6_expand. by rewrite Hl.
Qed.

Lemma To4_Some ip x : is_ip ip -> To4 ip = Some x -> ip = from_v4 x /\ is_v4 x.
Proof.
  intros [Hl Hf] H4. unfold To4 in H4.
  repeat (match type of H4 with match ?e with _ => _ end = _ => destruct e; try discriminate end).
  injection H4 as <-. cbn [from_v4]. rewrite !Forall_cons in Hf. destruct Hf as (_ & _ & _ & _ & _ & _ & H1 & H2 & _).
  pose proof (Z.div_mod z 256 ltac:(lia)). pose proof (Z.div_mod z0 256 ltac:(lia)).
  pose proof (Z.mod_pos_bound z 256 ltac:(lia)). pose proof (Z.mod_pos_bound z0 256 ltac:(lia)).
  split; [|repeat split; lia]. repeat (f_equal; try lia).
Qed.

Lemma To4_from_v4 x : is_v4 x -> To4 (from_v4 x) = Some x.
Proof.
  destruct x as [[[a b] c] d]. intros (Ha & Hb & Hc & Hd). cbn [from_v4 To4].
  assert (Hdm : forall x y, 0 <= y < 256 -> (256 * x + y) / 256 = x /\ (256 * x + y) mod 256 = y).
  { intros x y Hy. split; symmetry; [apply (Z.div_unique _ _ _ y)|apply (Z.mod_unique _ _ x)]; lia. }
  destruct (Hdm a b Hb) as [-> ->], (Hdm c d Hd) as [-> ->]. done.
Qed.

(** The bytes of a printed IPv4 address, among them a dot. *)
Definition v4_byte (b : byte) : Prop := is_digit b = true \/ b = z2b 46.

Lemma dot_join_bytes x : is_v4 x -> Forall v4_byte (dot_join x) /\ z2b 46 ∈ dot_join x.
Proof.
  destruct x as [[[a b] c] d]. intros (Ha & Hb & Hc & Hd). split.
  - apply Forall_forall. intros e [He%list_elem_of_singleton|(p & Hp & He)]%elem_of_join; [by right|left].
    assert (Hdig : forall n, 0 <= n < 256 -> e ∈ FormatUint n -> is_digit e = true).
    { intros n Hn. destruct (v4_field_print n Hn) as [_ Hf]. rewrite Forall_forall in Hf. apply Hf. }
    rewrite !elem_of_cons in Hp. destruct Hp as [->|[->|[->|[->|?%elem_of_nil]]]]; [| | | |done];
      (eapply Hdig; [|exact He]; lia).
  - cbn [dot_join join]. apply elem_of_app. right. by left.
Qed.

Lemma ip_form_v4 s : Forall v4_byte s -> z2b 46 ∈ s -> ip_form s = Some (z2b 46).
Proof.
  induction 1 as [|b s Hb _ IH]; intros Hin; [by apply elem_of_nil in Hin|]. cbn [ip_form].
  destruct (decide (b = z2b 46)) as [->|Hne]; [done|]. destruct Hb as [Hb|Hb]; [|done].
  rewrite bool_decide_false; [apply IH; apply elem_of_cons in Hin as [?|?]; congruence|].
  intros Hin'. rewrite !elem_of_cons in Hin'. by destruct Hin' as [->|[->|[->|?%elem_of_nil]]].
Qed.

Lemma ParseIP_v4 s : Forall v4_byte s -> z2b 46 ∈ s -> ParseIP s = from_v4 <$> parse_v4 s.
Proof.
  intros Hf Hin. unfold ParseIP, contains. rewrite bool_decide_false; [by rewrite ip_form_v4, decide_True|].
  intros Hp. rewrite Forall_forall in Hf. by destruct (Hf _ Hp).
Qed.

(** Printing an address and parsing it. *)
Lemma ParseIP_print ip : is_ip ip -> ParseIP (IP_String ip) = Some ip.
Proof.
  intros Hip. destruct (To4 ip) as [x|] eqn:E.
  - destruct (To4_Some ip x Hip E) as [-> Hx]. unfold IP_String. rewrite E.
    destruct (dot_join_bytes x Hx). rewrite ParseIP_v4, parse_v4_print by done. done.
  - destruct (v6_text_bytes ip Hip E). rewrite ParseIP_v6 by done. by apply parse_v6_print.
Qed.

Lemma parse_digits_nonneg s acc v : 0 <= acc -> parse_digits s acc = Some v -> 0 <= v.
Proof.
  revert acc. induction s as [|b s IH]; intros acc Ha; cbn; [by intros [= <-]|].
  destruct (is_digit b) eqn:E; [|done]. apply IH. unfold is_digit in E. lia.
Qed.

Lemma v4_field_range s v : v4_field s = Some v -> 0 <= v < 256.
Proof.
  unfold v4_field. destruct s as [|b s]; [done|]. goal_if E; [done|]. destruct (parse_digits _ _) as [w|] eqn:Ew; [|done].
  cbn. goal_if E'; [|done]. intros [= <-]. apply parse_digits_nonneg in Ew; lia.
Qed.

Lemma parse_v4_range s x : parse_v4 s = Some x -> is_v4 x.
Proof.
  unfold parse_v4. destruct (split_at _ s) as [|a [|b [|c [|d [|]]]]]; try done.
  destruct (v4_field a) eqn:Ea, (v4_field b) eqn:Eb, (v4_field c) eqn:Ec, (v4_field d) eqn:Ed; try done.
  intros [= <-]. apply v4_field_range in Ea, Eb, Ec, Ed. cbn. lia.
Qed.

Lemma from_v4_ip x : is_v4 x -> is_ip (from_v4 x).
Proof. destruct x as [[[a b] c] d]. intros (Ha & Hb & Hc & Hd). split; [done|]. repeat constructor; lia. Qed.

Lemma hex_value_range b v : hex_value b = Some v -> 0 <= v < 16.
Proof. unfold hex_value. goal_ifs; intros [= <-]; lia. Qed.

Lemma hex_number_range ds : (length ds <= 4)%nat -> 0 <= hex_number ds < 2 ^ 16.
Proof.
  intros Hl. assert (Hgen : forall ds acc n, 0 <= acc < 16 ^ n -> 0 <= n ->
    0 <= fold_left (fun acc b => 16 * acc + default 0 (hex_value b)) ds acc < 16 ^ (n + Z.of_nat (length ds))).
  { clear. induction ds as [|b ds IH]; intros acc n Ha Hn; cbn [fold_left length]; [by rewrite Z.add_0_r|].
    replace (n + Z.of_nat (S (length ds))) with (n + 1 + Z.of_nat (length ds)) by lia. apply IH; [|lia].
    assert (0 <= default 0 (hex_value b) < 16) by (destruct (hex_value b) eqn:E; [by apply hex_value_range in E|cbn; lia]).
    rewrite Z.pow_add_r by lia. lia. }
  specialize (Hgen ds 0 0 ltac:(lia) ltac:(lia)). split; [apply Hgen|]. eapply Z.lt_le_trans; [apply Hgen|].
  change (2 ^ 16) with (16 ^ 4). apply Z.pow_le_mono_r; lia.
Qed.

Lemma v6_loop_ok fuel : forall s acc ell r, (length acc + fuel = 8)%nat -> Forall (fun g => 0 <= g < 2 ^ 16) acc ->
  v6_loop fuel s acc ell = Some r -> (length r.1.1 <= 8)%nat /\ Forall (fun g => 0 <= g < 2 ^ 16) r.1.1.
Proof.
  induction fuel as [|fuel IH]; intros s acc ell r Hl Hf; cbn [v6_loop]; [intros [= <-]; split; [cbn; lia|done]|].
  destruct (span is_hexdigit s) as [ds rest]. destruct (bool_decide (ds = []) || (4 <? length ds)%nat) eqn:Ed; [done|].
  assert (Hacc : Forall (fun g => 0 <= g < 2 ^ 16) (acc ++ [hex_number ds])).
  { apply Forall_app. split; [done|]. apply Forall_singleton, hex_number_range.
    apply orb_false_iff in Ed as [_ Ed]. by apply Nat.ltb_ge in Ed. }
  assert (Hlen : (length (acc ++ [hex_number ds]) + fuel = 8)%nat) by (rewrite length_app; cbn; lia).
  destruct rest as [|b rest]; [intros [= <-]; split; [cbn [fst]; lia|done]|].
  case_decide as Hdot.
  - goal_if E1; [done|]. goal_if E2; [done|]. apply Nat.ltb_ge in E2. destruct (parse_v4 s) as [[[[a b'] c] d]|] eqn:Ep; [|done].
    intros [= <-]. apply parse_v4_range in Ep as (? & ? & ? & ?). cbn [fst]. split; [rewrite length_app; cbn; lia|].
    apply Forall_app. split; [done|]. repeat constructor; lia.
  - case_decide; [|done]. destruct rest as [|b' rest]; [done|]. case_decide; [|by apply IH].
    destruct ell; [done|]. goal_if E3; [intros [= <-]; split; [cbn [fst]; lia|done]|by apply IH].
Qed.

Lemma v6_expand_ok r ip : (length r.1.1 <= 8)%nat -> Forall (fun g => 0 <= g < 2 ^ 16) r.1.1 -> v6_expand r = Some ip -> is_ip ip.
Proof.
  destruct r as [[acc ell] [|b s]]; [|done]. cbn [fst v6_expand]. intros Hl Hf. destruct (length acc <? 8)%nat eqn:E.
  - destruct ell as [e|]; [|done]. intros [= <-]. split.
    + rewrite !length_app, length_replicate, length_take, length_drop. lia.
    + rewrite !Forall_app. split_and!; [by apply Forall_take| |by apply Forall_drop]. apply Forall_replicate. lia.
  - destruct ell; [done|]. intros [= <-]. apply Nat.ltb_ge in E. split; [lia|done].
Qed.

(** What is parsed is an address. *)
Lemma ParseIP_is_ip s ip : ParseIP s = Some ip -> is_ip ip.
Proof.
  unfold ParseIP. destruct (contains _ s); [done|]. destruct (ip_form s); [|done]. case_decide.
  - destruct (parse_v4 s) eqn:E; [|done]. intros [= <-]. by apply from_v4_ip, (parse_v4_range s).
  - assert (Hl : forall t ell ip, v6_loop 8 t [] ell ≫= v6_expand = Some ip -> is_ip ip).
    { intros t ell ip' Hx. destruct (v6_loop 8 t [] ell) as [r|] eqn:E; [|done].
      destruct (v6_loop_ok 8 t [] ell r) as [? ?]; [done|by constructor|done|]. by apply v6_expand_ok in Hx. }
    unfold parse_v6. destruct s as [|x [|y s]]; [apply Hl..|]. case_decide; [|apply Hl].
    case_bool_decide; [|apply Hl]. intros [= <-]. split; [done|]. repeat constructor; lia.
Qed.

Definition is_mac (hw : list Z) : Prop := mac_length (length hw) = true /\ Forall (fun b => 0 <= b < 256) hw.

Lemma hex_pair_print b : 0 <= b < 256 -> hex_pair [hex_digit (b / 16); hex_digit (b mod 16)] = Some b.
Proof.
  intros Hb. pose proof (Z.mod_pos_bound b 16 ltac:(lia)). pose proof (Z.div_mod b 16 ltac:(lia)).
  unfold hex_pair. rewrite !hex_value_digit by lia. cbn. f_equal. lia.
Qed.

Lemma ParseMAC_print hw : is_mac hw -> ParseMAC (MAC_String hw) = Some hw.
Proof.
  intros [Hl Hf]. unfold ParseMAC, MAC_String. set (pairs := (fun b => [hex_digit (b / 16); hex_digit (b mod 16)]) <$> hw).
  assert (Hsplit : split_at colon (join [colon] pairs) = pairs).
  { apply split_at_join; [by destruct hw|]. apply Forall_fmap. eapply Forall_impl; [exact Hf|]. intros b Hb. cbv beta in *.
    pose proof (Z.mod_pos_bound b 16 ltac:(lia)). pose proof (Z.div_mod b 16 ltac:(lia)).
    intros Hin. rewrite !elem_of_cons in Hin.
    destruct Hin as [Hin|[Hin|?%elem_of_nil]]; [..|done];
      (assert (is_hex colon = true) as [=] by (rewrite Hin; apply hex_digit_is_hex; lia)). }
  assert (Hmap : mapM hex_pair pairs = Some hw).
  { unfold pairs. clear -Hf. induction Hf as [|b hw Hb _ IH]; [done|]. rewrite fmap_cons. cbn [mapM].
    rewrite hex_pair_print by done. cbn [mbind option_bind]. by rewrite IH. }
  destruct hw as [|b1 [|b2 hw]]; [done..|]. cbn [fmap list_fmap] in pairs.
  assert (E2 : join [colon] pairs !! 2%nat = Some colon) by done. rewrite E2.
  rewrite decide_True by done. rewrite Hsplit, Hmap. cbn [mbind option_bind]. by rewrite Hl.
Qed.

Lemma mapM_Forall {A} (f : A -> option Z) (l : list A) hw : (forall a v, f a = Some v -> 0 <= v < 256) ->
  mapM f l = Some hw -> Forall (fun b => 0 <= b < 256) hw.
Proof.
  intros Hf H%mapM_Some. induction H as [|a b l hw Hab _ IH]; [done|]. constructor; [by eapply Hf|done].
Qed.

Lemma hex_pair_range s v : hex_pair s = Some v -> 0 <= v < 256.
Proof.
  unfold hex_pair. destruct s as [|a [|b [|]]]; try done. destruct (hex_value a) eqn:Ea, (hex_value b) eqn:Eb; try done.
  intros [= <-]. apply hex_value_range in Ea, Eb. lia.
Qed.

Lemma ParseMAC_is_mac s hw : ParseMAC s = Some hw -> is_mac hw.
Proof.
  assert (Hp : forall sep, (hw' ← mapM hex_pair (split_at sep s); if mac_length (length hw') then Some hw' else None) = Some hw -> is_mac hw).
  { intros sep H. destruct (mapM hex_pair _) as [hw'|] eqn:E; [|done]. cbn in H. destruct (mac_length _) eqn:Hm; [|done].
    injection H as ->. split; [done|]. eapply mapM_Forall; [|exact E]. apply hex_pair_range. }
  unfold ParseMAC. destruct (s !! 2%nat); [|done]. case_decide; [apply Hp|]. case_decide; [apply Hp|]. case_decide; [|done].
  destruct (mapM hex_quad _) as [q|] eqn:E; [|done]. cbn. destruct (mac_length _) eqn:Hm; [|done]. intros [= <-].
  split; [done|]. apply mapM_Some in E. clear -E. induction E as [|a l x y Hal _ IH]; [constructor|]. cbn [concat].
  apply Forall_app. split; [|done]. unfold hex_quad in Hal. destruct a as [|c1 [|c2 [|c3 [|c4 [|]]]]]; try done.
  destruct (hex_pair [c1; c2]) eqn:E1; [|done]. destruct (hex_pair [c3; c4]) eqn:E2; [|done]. injection Hal as <-.
  apply hex_pair_range in E1, E2. repeat (apply Forall_cons_2; [done|]). constructor.
Qed.
