(* ===== verification/Uri.v ===== *)
(** * Face URIs: ndn/uri.go

    A [*URI] is a value: the code makes a new one, canonizes it, and does not
    change it later.  What the functions ask of the machine (DNS, the file
    system, the operating system's name) and Go's URL parser are the class
    [NetEnv]; [net.IP], [net.HardwareAddr] and host:port pairs are NetAddr.v.
    The regular expressions are written out as functions: each is anchored at
    both ends and has at most one match, as noted there. *)
From S2P Require Import Prelude.
From S2P Require Import Text NetAddr.
Local Open Scope Z_scope.

(** ** Data *)

Inductive URIType :=
| unknownURI | devURI | ethernetURI | fdURI | internalURI | nullURI | udpURI | tcpURI | unixURI | wsURI | wsclientURI.

#[export] Instance URIType_eq_dec : EqDecision URIType.
Proof. solve_decision. Defined.

Record URI := mkURI { uriType : URIType; scheme : list byte; path : list byte; port : Z }.

#[export] Instance URI_eq_dec : EqDecision URI.
Proof. solve_decision. Defined.

(** [os.Stat]: no such file, another error, a directory, or something else. *)
Inductive stat_result := NotExist | StatError | IsDir | IsFile.

(** A parsed URL ([url.URL]). *)
Record URL := mkURL {
  url_Scheme : list byte; url_User : bool; url_Path : list byte; url_RawQuery : list byte; url_Fragment : list byte;
  url_Hostname : list byte; url_Port : list byte }.

(** The machine: [LookupHost] ([None] for an error), [os.Stat], whether it is
    Windows, [url.Parse], and [ResolveTCPAddr] with the address as text. *)
Class NetEnv := {
  LookupHost : list byte -> option (list (list byte));
  os_Stat : list byte -> stat_result;
  windows : bool;
  url_Parse : list byte -> option URL;
  ResolveTCPAddr : list byte -> option (list byte) }.

Abbreviation percent := (z2b 37).
Abbreviation brackets := [z2b 91; z2b 93].

(** ** The patterns *)

Definition is_alpha (b : byte) : bool :=
  ((65 <=? b2z b) && (b2z b <=? 90)) || ((97 <=? b2z b) && (b2z b <=? 122)).
Definition is_alnum (b : byte) : bool := is_digit b || is_alpha b.
Definition one_of (s : String.string) (b : byte) : bool := bool_decide (b ∈ gs s).
Definition all_of (p : byte -> bool) (s : list byte) : bool := negb (bool_decide (s = [])) && forallb p s.

Fixpoint strip_prefix (p s : list byte) : option (list byte) :=
  match p, s with
  | [], _ => Some s
  | a :: p, b :: s => if decide (a = b) then strip_prefix p s else None
  | _, _ => None
  end.

(** The characters of interface names and zones, of hosts, of paths. *)
Definition name_char (b : byte) : bool := is_alnum b || one_of "-" b.
Definition host_char (b : byte) : bool := is_alnum b || one_of ":.-" b.
Definition path_char (b : byte) : bool := is_alnum b || one_of "/\:.-_" b.

(** [devPattern], [fdPattern] and [unixPattern]: the text after the scheme. *)
Definition match_dev (s : list byte) : option (list byte) :=
  r ← strip_prefix (gs "dev://") s; if all_of name_char r then Some r else None.
Definition match_fd (s : list byte) : option (list byte) :=
  r ← strip_prefix (gs "fd://") s; if all_of is_digit r then Some r else None.
Definition match_unix (s : list byte) : option (list byte) :=
  r ← strip_prefix (gs "unix://") s; if all_of path_char r then Some r else None.

(** [macPattern]: six pairs of hexadecimal digits. *)
Definition macPattern (s : list byte) : bool :=
  let pairs := split_at (z2b 58) s in
  (length pairs =? 6)%nat && forallb (fun p => bool_decide (is_Some (hex_pair p))) pairs.

(** Zones of one character each, as [ethernetPattern] has them. *)
Fixpoint short_zones (s : list byte) : bool :=
  match s with
  | [] => true
  | [_] => false
  | a :: b :: s => bool_decide (a = percent) && is_alnum b && short_zones s
  end.

(** [ethernetPattern]: the group [mac] includes the zones. *)
Definition match_ether (s : list byte) : option (list byte) :=
  r ← strip_prefix (gs "ether://[") s;
  '(mac, rest) ← cut_last (z2b 93) r;
  if bool_decide (rest = []) && macPattern (take 17 mac) && short_zones (drop 17 mac) then Some mac else None.

(** [udpPattern] and [tcpPattern] (they differ in the scheme): host, zone and
    port.  The port follows the last colon, since no digit is one; what is
    before ends in an optional bracket, and since neither hosts nor zones
    contain a percent sign, the first one ends the host. *)
Definition split_zone (s : list byte) : list byte * option (list byte) :=
  match cut percent s with Some (h, z) => (h, Some z) | None => (s, None) end.
Definition match_hostport (proto : String.string) (s : list byte) : option (list byte * list byte * list byte) :=
  r ← strip_prefix (gs proto) s;
  let r := match r with b :: r' => if one_of "46" b then r' else r | [] => r end in
  r ← strip_prefix (gs "://") r;
  '(before, port) ← cut_last (z2b 58) r;
  let before := match before with b :: r' => if decide (b = z2b 91) then r' else before | [] => before end in
  let before := match cut_last (z2b 93) before with Some (x, []) => x | _ => before end in
  let '(host, zone) := split_zone before in
  if all_of is_digit port && all_of host_char host && from_option (all_of name_char) true zone
  then Some (host, default [] zone, port) else None.

(** [ipv4Pattern]; its fields end at 254. *)
Definition v4_pattern_field (f : list byte) : bool :=
  match f with
  | [a] => is_digit a
  | [a; b] => is_digit a && is_digit b
  | [a; b; c] =>
      is_digit b && is_digit c &&
      (bool_decide (a = digit 1)
       || (bool_decide (a = digit 2)
           && ((b2z b <? 53) || (bool_decide (b = digit 5) && (b2z c <? 53)))))
  | _ => false
  end.
Definition ipv4Pattern (s : list byte) : bool :=
  let fields := split_at (z2b 46) s in (length fields =? 4)%nat && forallb v4_pattern_field fields.

(** [strings.EqualFold] with a lower-case ASCII word: letters of either case,
    and the two signs beyond ASCII that fold to s and k. *)
Fixpoint fold_case (s : list byte) : list byte :=
  match s with
  | [] => []
  | a :: s' =>
      match s' with
      | b :: s'' =>
          if decide (b2z a = 197 /\ b2z b = 191) then z2b 115 :: fold_case s''
          else match s'' with
               | c :: s3 => if decide (b2z a = 226 /\ b2z b = 132 /\ b2z c = 170) then z2b 107 :: fold_case s3
                            else (if (65 <=? b2z a) && (b2z a <=? 90) then z2b (b2z a + 32) else a) :: fold_case s'
               | [] => (if (65 <=? b2z a) && (b2z a <=? 90) then z2b (b2z a + 32) else a) :: fold_case s'
               end
      | [] => [if (65 <=? b2z a) && (b2z a <=? 90) then z2b (b2z a + 32) else a]
      end
  end.
Definition EqualFold (word : String.string) (s : list byte) : bool := bool_decide (fold_case s = gs word).

(** ** Operations *)

Definition PathHost (u : URI) : list byte := default [] (head (split_at percent (path u))).
Definition PathZone (u : URI) : list byte := default [] (split_at percent (path u) !! 1%nat).

(** [strconv.Atoi]: an optional sign and digits, within [int]. *)
Definition Atoi (s : list byte) : option Z :=
  let number s := match s with [] => None | _ => parse_digits s 0 end in
  match s with
  | b :: r =>
      if decide (b = z2b 45) then v ← number r; if v <=? 2 ^ 63 then Some (- v) else None
      else v ← number (if decide (b = z2b 43) then r else s); if v <? 2 ^ 63 then Some v else None
  | [] => None
  end.

Definition IsCanonical (u : URI) : bool :=
  let ip_ok v4 v6 :=
    let isIPv4 := ipv4Pattern (PathHost u) in
    match ParseIP (PathHost u) with
    | None => false
    | Some ip => ((bool_decide (scheme u = gs v4) && bool_decide (is_Some (To4 ip)))
                  || (bool_decide (scheme u = gs v6) && negb isIPv4)) && (0 <? port u)
    end in
  match uriType u with
  | devURI => bool_decide (scheme u = gs "dev") && negb (bool_decide (path u = [])) && (port u =? 0)
  | ethernetURI => bool_decide (scheme u = gs "ether") && macPattern (path u) && (port u =? 0)
  | fdURI => bool_decide (scheme u = gs "fd") && match Atoi (path u) with Some fd => 0 <=? fd | None => false end && (port u =? 0)
  | internalURI => bool_decide (scheme u = gs "internal") && bool_decide (path u = []) && (port u =? 0)
  | nullURI => bool_decide (scheme u = gs "null") && bool_decide (path u = []) && (port u =? 0)
  | udpURI => ip_ok "udp4"%string "udp6"%string
  | tcpURI => ip_ok "tcp4"%string "tcp6"%string
  | unixURI => bool_decide (scheme u = gs "unix") && negb (bool_decide (path u = [])) && (port u =? 0)
  | _ => false
  end.

Definition set_scheme (s : list byte) (u : URI) : URI := mkURI (uriType u) s (path u) (port u).
Definition set_path (p : list byte) (u : URI) : URI := mkURI (uriType u) (scheme u) p (port u).
Definition set_port (p : Z) (u : URI) : URI := mkURI (uriType u) (scheme u) (path u) p.

Section operations.
Context `{NetEnv}.

(** The address of a path, by DNS if need be. *)
Definition resolve (p : list byte) : option IP :=
  match ParseIP (Trim brackets p) with
  | Some ip => Some ip
  | None =>
      match LookupHost p with
      | Some (first :: _) => ParseIP first
      | _ => None
      end
  end.

(** The URI after the call, and whether the error is nil.  [To16] is never nil
    on a parsed address. *)
Definition Canonize (u : URI) : URI * bool :=
  match uriType u with
  | devURI | fdURI => (u, true)
  | ethernetURI =>
      match ParseMAC (Trim brackets (path u)) with
      | Some mac => (mkURI ethernetURI (gs "ether") (MAC_String mac) 0, true)
      | None => (u, false)
      end
  | udpURI | tcpURI =>
      let '(p, zone) := if contains percent (path u) then (PathHost u, percent :: PathZone u) else (path u, []) in
      match resolve p with
      | Some ip =>
          let v := match To4 ip with Some _ => "4"%string | None => "6"%string end in
          (mkURI (uriType u) (gs (if bool_decide (uriType u = udpURI) then "udp"%string else "tcp"%string) ++ gs v)
             (IP_String ip ++ zone) (port u), true)
      | None => (u, false)
      end
  | unixURI =>
      let u := set_scheme (gs "unix") u in
      match os_Stat (if windows then path u else gs "/" ++ path u) with
      | StatError | IsDir => (u, false)
      | NotExist | IsFile => (set_port 0 u, true)
      end
  | _ => (u, false)
  end.

(** The constructors. *)
Definition MakeDevFaceURI (ifname : list byte) : URI := (Canonize (mkURI devURI (gs "dev") ifname 0)).1.
Definition MakeEthernetFaceURI (mac : list Z) : URI := (Canonize (mkURI ethernetURI (gs "ether") (MAC_String mac) 0)).1.
Definition MakeFDFaceURI (fd : Z) : URI :=
  (Canonize (mkURI fdURI (gs "fd") (if fd <? 0 then z2b 45 :: FormatUint (- fd) else FormatUint fd) 0)).1.
Definition MakeInternalFaceURI : URI := mkURI internalURI (gs "internal") [] 0.
Definition MakeNullFaceURI : URI := (Canonize (mkURI nullURI (gs "null") [] 0)).1.
Definition MakeUDPFaceURI (ipVersion : Z) (host : list byte) (p : Z) : URI :=
  (Canonize (mkURI udpURI (gs "udp" ++ FormatUint ipVersion) host p)).1.
Definition MakeTCPFaceURI (ipVersion : Z) (host : list byte) (p : Z) : URI :=
  (Canonize (mkURI tcpURI (gs "tcp" ++ FormatUint ipVersion) host p)).1.
Definition MakeUnixFaceURI (p : list byte) : URI := (Canonize (mkURI unixURI (gs "unix") p 0)).1.
Definition MakeWebSocketServerFaceURI (u : URL) : URI :=
  mkURI wsURI (url_Scheme u) (url_Hostname u) (lenient_port (url_Port u)).
Definition MakeWebSocketClientFaceURI (addr : list byte) : URI :=
  let '(host, p) := default ([], []) (SplitHostPort addr) in
  mkURI wsclientURI (gs "wsclient") host (lenient_port p).

(** The path and port of a UDP or TCP URI: [None] when the text is rejected
    before canonization, with the URI to return. *)
Definition decode_hostport (ty : URIType) (proto : String.string) (str : list byte) : URI :=
  let u := mkURI ty (gs proto) [] 0 in
  match match_hostport proto str with
  | None => u
  | Some (host, zone, p) =>
      let u := set_path (if bool_decide (zone = []) then host else host ++ percent :: zone) u in
      match ParseUint 16 p with
      | Some v => if v <=? 0 then u else (Canonize (set_port v u)).1
      | None => u
      end
  end.

(** [DecodeURIString]: [None] is nil, for bad WebSocket URIs only.  A text that
    its scheme's pattern rejects gives a URI with an empty path. *)
Definition DecodeURIString (str : list byte) : option URI :=
  match cut (z2b 58) str with
  | None => Some (mkURI unknownURI (gs "unknown") [] 0)
  | Some (sch, rest) =>
      let with_path ty name m :=
        let u := mkURI ty (gs name) [] 0 in
        Some match m with Some p => (Canonize (set_path p u)).1 | None => u end in
      if EqualFold "dev" sch then with_path devURI "dev"%string (match_dev str)
      else if EqualFold "ether" sch then with_path ethernetURI "ether"%string (match_ether str)
      else if EqualFold "fd" sch then with_path fdURI "fd"%string (match_fd str)
      else if EqualFold "internal" sch then Some (Canonize (mkURI internalURI (gs "internal") [] 0)).1
      else if EqualFold "null" sch then Some (Canonize (mkURI nullURI (gs "null") [] 0)).1
      else if EqualFold "udp" sch || EqualFold "udp4" sch || EqualFold "udp6" sch then Some (decode_hostport udpURI "udp" str)
      else if EqualFold "tcp" sch || EqualFold "tcp4" sch || EqualFold "tcp6" sch then Some (decode_hostport tcpURI "tcp" str)
      else if EqualFold "unix" sch then with_path unixURI "unix"%string (match_unix str)
      else if EqualFold "ws" sch || EqualFold "wss" sch then
        match url_Parse str with
        | None => None
        | Some url =>
            if url_User url || negb (bool_decide (TrimLeft (gs "/") (url_Path url) = []))
               || negb (bool_decide (url_RawQuery url = [])) || negb (bool_decide (url_Fragment url = [])) then None
            else Some (MakeWebSocketServerFaceURI url)
        end
      else if EqualFold "wsclient" sch then MakeWebSocketClientFaceURI <$> ResolveTCPAddr (Trim (gs "/") rest)
      else Some (Canonize (mkURI unknownURI (gs "unknown") [] 0)).1
  end.

End operations.

(** [Scope] and its three results. *)
Inductive UriScope := UnknownScope | NonLocalScope | LocalScope.

Definition URI_Scope (u : URI) : UriScope :=
  if negb (IsCanonical u) then UnknownScope
  else match uriType u with
       | devURI | ethernetURI | nullURI => NonLocalScope
       | fdURI => LocalScope
       | udpURI => match ParseIP (path u) with
                   | Some ip => if IsLoopback ip then LocalScope else NonLocalScope
                   | None => NonLocalScope
                   end
       | _ => LocalScope
       end.

Definition URI_String (u : URI) : list byte :=
  match uriType u with
  | devURI => gs "dev://" ++ path u
  | ethernetURI => scheme u ++ gs "://[" ++ path u ++ gs "]"
  | fdURI => gs "fd://" ++ path u
  | internalURI => gs "internal://"
  | nullURI => gs "null://"
  | udpURI | tcpURI | wsURI | wsclientURI => scheme u ++ gs "://" ++ JoinHostPort (path u) (FormatUint (port u))
  | unixURI => scheme u ++ gs "://" ++ path u
  | unknownURI => gs "unknown://"
  end.

(** ** Lemmas *)

Lemma strip_prefix_app p s : strip_prefix p (p ++ s) = Some s.
Proof. induction p as [|a p IH]; cbn; [done|]. by rewrite decide_True. Qed.

Lemma all_of_Forall p s : all_of p s = true <-> s <> [] /\ Forall (fun b => p b = true) s.
Proof.
  unfold all_of. rewrite andb_true_iff, negb_true_iff, bool_decide_eq_false, forallb_forall, Forall_forall.
  by setoid_rewrite list_elem_of_In.
Qed.

Lemma all_of_avoid p s c : all_of p s = true -> p c = false -> c ∉ s.
Proof. intros [_ Hf]%all_of_Forall Hc Hin. rewrite Forall_forall in Hf. by rewrite Hf in Hc. Qed.

Lemma port_digits v : 0 <= v < 2 ^ 64 -> all_of is_digit (FormatUint v) = true.
Proof. intros Hv. destruct (FormatUint_spec v Hv) as (Hne & Hf & _). by apply all_of_Forall. Qed.

(** The text of an address: one that [host_char] admits, without a percent sign
    or bracket, and with a colon exactly when it is not IPv4. *)
Lemma IP_String_text ip : is_ip ip ->
  all_of host_char (IP_String ip) = true /\
  contains (z2b 58) (IP_String ip) = bool_decide (To4 ip = None) /\
  Forall (fun b => b ∉ brackets) (IP_String ip).
Proof.
  intros Hip.
  assert (Hgen : forall s, s <> [] -> Forall (fun b => is_hex b = true \/ b = z2b 58 \/ b = z2b 46) s ->
    all_of host_char s = true /\ Forall (fun b => b ∉ brackets) s).
  { intros s Hne Hf. split.
    - apply all_of_Forall. split; [done|]. eapply Forall_impl; [exact Hf|]. intros b [Hb|[->| ->]]; [|done|done].
      unfold is_hex in Hb. unfold host_char, is_alnum, is_alpha. destruct (is_digit b); [done|]. cbn in Hb |- *. lia.
    - eapply Forall_impl; [exact Hf|]. intros b Hb Hin. rewrite !elem_of_cons in Hin.
      destruct Hin as [->|[->|?%elem_of_nil]]; [destruct Hb as [Hb|[Hb|Hb]]; discriminate..|done]. }
  destruct (To4 ip) as [x|] eqn:E.
  - destruct (To4_Some ip x Hip E) as [_ Hx]. destruct (dot_join_bytes x Hx) as [Hf Hdot].
    assert (Es : IP_String ip = dot_join x) by (unfold IP_String; by rewrite E). rewrite Es.
    destruct (Hgen (dot_join x)) as [H1 H2].
    + intros E0. rewrite E0 in Hdot. by apply elem_of_nil in Hdot.
    + eapply Forall_impl; [exact Hf|]. intros b [Hb| ->]; [|by right; right]. left. unfold is_hex. by rewrite Hb.
    + split_and!; [done| |done]. rewrite (bool_decide_false (Some x = None)) by done. apply bool_decide_eq_false.
      intros Hin. rewrite Forall_forall in Hf. by destruct (Hf _ Hin).
  - destruct (v6_text_bytes ip Hip E) as [Hf Hin]. destruct (Hgen (IP_String ip)) as [H1 H2].
    + intros E0. rewrite E0 in Hin. by apply elem_of_nil in Hin.
    + eapply Forall_impl; [exact Hf|]. intros b [?| ->]; auto.
    + split_and!; [done| |done]. rewrite (bool_decide_true (None = None)) by done. by apply bool_decide_eq_true.
Qed.

Lemma no_percent s : all_of host_char s = true -> percent ∉ s.
Proof. intros H. by eapply all_of_avoid. Qed.

(** What follows the host in a path: nothing, or a percent sign and a zone. *)
Definition zone_text (zone : list byte) : list byte := if bool_decide (zone = []) then [] else percent :: zone.
Definition zone_ok (t : list byte) : Prop := t = [] \/ exists z, t = percent :: z /\ percent ∉ z.

Lemma zone_text_ok zone : percent ∉ zone -> zone_ok (zone_text zone).
Proof. unfold zone_text. case_bool_decide; [by left|]. right. by eexists. Qed.

Definition path_parts (u : URI) : list byte * list byte :=
  if contains percent (path u) then (PathHost u, percent :: PathZone u) else (path u, []).

Lemma path_parts_eq u host t : path u = host ++ t -> percent ∉ host -> zone_ok t -> path_parts u = (host, t).
Proof.
  intros Hp Hh Ht. unfold path_parts, contains, PathHost, PathZone. rewrite Hp. destruct Ht as [->|(z & -> & Hz)].
  - by rewrite app_nil_r, bool_decide_false.
  - rewrite bool_decide_true by (apply elem_of_app; right; by left). rewrite split_at_app by done. by rewrite split_at_none.
Qed.

Lemma split_at_parts sep s : Forall (fun p => sep ∉ p) (split_at sep s).
Proof.
  induction s as [|b s IH]; cbn; [repeat constructor; apply not_elem_of_nil|].
  destruct (split_at sep s) as [|p ps]; [done|]. apply Forall_cons in IH as [Hp Hps].
  case_decide as Hb; repeat constructor; try done; [apply not_elem_of_nil|]. by rewrite not_elem_of_cons.
Qed.

(** Every path has such parts; a second zone is not among them. *)
Lemma path_parts_ok u : percent ∉ (path_parts u).1 /\ zone_ok (path_parts u).2.
Proof.
  unfold path_parts, contains. case_bool_decide as Hin; [|split; [done|by left]]. cbn [fst snd].
  pose proof (split_at_parts percent (path u)) as Hparts. unfold PathHost, PathZone.
  destruct (split_at percent (path u)) as [|host rest] eqn:E; [by apply split_at_nonempty in E|].
  apply Forall_cons in Hparts as [Hh Hr]. split; [done|]. right. eexists. split; [done|].
  destruct rest; cbn; [apply not_elem_of_nil|]. by apply Forall_cons in Hr as [? _].
Qed.

Section canonize.
Context `{NetEnv}.
Implicit Types u : URI.

Lemma resolve_print ip : is_ip ip -> resolve (IP_String ip) = Some ip.
Proof.
  intros Hip. unfold resolve. destruct (IP_String_text ip Hip) as (_ & _ & Hb).
  by rewrite Trim_none, ParseIP_print.
Qed.

Lemma resolve_is_ip p ip : resolve p = Some ip -> is_ip ip.
Proof.
  unfold resolve. destruct (ParseIP _) eqn:E; [intros [= <-]; by eapply ParseIP_is_ip|].
  destruct (LookupHost p) as [[|first rest]|]; [done| |done]. apply ParseIP_is_ip.
Qed.

(** The scheme of an address, and the URI of an address. *)
Definition ip_scheme (ty : URIType) (ip : IP) : list byte :=
  gs (if bool_decide (ty = udpURI) then "udp" else "tcp") ++ gs (match To4 ip with Some _ => "4" | None => "6" end).
Definition ip_uri (ty : URIType) (ip : IP) (t : list byte) (p : Z) : URI := mkURI ty (ip_scheme ty ip) (IP_String ip ++ t) p.
Definition ip_type (ty : URIType) : Prop := ty = udpURI \/ ty = tcpURI.

(** Canonizing a UDP or TCP URI. *)
Lemma Canonize_ip u : ip_type (uriType u) ->
  Canonize u = match resolve (path_parts u).1 with
               | Some ip => (ip_uri (uriType u) ip (path_parts u).2 (port u), true)
               | None => (u, false)
               end.
Proof.
  intros Hty. unfold Canonize. fold (path_parts u). destruct (path_parts u) as [p t]. unfold ip_uri, ip_scheme. cbn [fst snd].
  destruct Hty as [-> | ->]; (destruct (resolve p) as [ip|]; [by destruct (To4 ip)|done]).
Qed.

Lemma ip_uri_parts ty ip t p : is_ip ip -> zone_ok t -> path_parts (ip_uri ty ip t p) = (IP_String ip, t).
Proof. intros Hip Ht. apply path_parts_eq; [done| |done]. apply no_percent, IP_String_text, Hip. Qed.

(** A canonized URI of an address stays as it is. *)
Lemma Canonize_ip_uri ty ip t p : ip_type ty -> is_ip ip -> zone_ok t -> Canonize (ip_uri ty ip t p) = (ip_uri ty ip t p, true).
Proof. intros Hty Hip Ht. rewrite Canonize_ip by done. rewrite ip_uri_parts by done. cbn [fst snd]. by rewrite resolve_print. Qed.

Lemma hex_colon_avoid hw : Forall (fun b => 0 <= b < 256) hw -> Forall (fun b => is_hex b = true \/ b = z2b 58) (MAC_String hw).
Proof.
  intros Hf. apply Forall_forall. intros c [Hc%list_elem_of_singleton|(p & Hp & Hc)]%elem_of_join; [by right|left].
  apply list_elem_of_fmap in Hp as (b & -> & Hb). rewrite Forall_forall in Hf. specialize (Hf b Hb).
  pose proof (Z.mod_pos_bound b 16 ltac:(lia)). pose proof (Z.div_mod b 16 ltac:(lia)).
  rewrite !elem_of_cons in Hc. destruct Hc as [->|[->|?%elem_of_nil]]; [apply hex_digit_is_hex; lia..|done].
Qed.

Lemma Trim_mac hw : Forall (fun b => 0 <= b < 256) hw -> Trim brackets (MAC_String hw) = MAC_String hw.
Proof.
  intros Hf. apply Trim_none. eapply Forall_impl; [by apply hex_colon_avoid|]. intros b Hb Hin. rewrite !elem_of_cons in Hin.
  destruct Hin as [->|[->|?%elem_of_nil]]; [destruct Hb; discriminate..|done].
Qed.

Lemma Canonize_mac hw sch p : is_mac hw ->
  Canonize (mkURI ethernetURI sch (MAC_String hw) p) = (mkURI ethernetURI (gs "ether") (MAC_String hw) 0, true).
Proof. intros Hm. unfold Canonize. cbn [uriType path]. by rewrite Trim_mac, ParseMAC_print by (done || apply Hm). Qed.

(** Canonizing twice changes nothing more. *)
Lemma Canonize_idem u u' : Canonize u = (u', true) -> Canonize u' = (u', true).
Proof.
  intros Hc. destruct (uriType u) eqn:Ety; try (unfold Canonize in Hc; rewrite Ety in Hc; discriminate).
  - unfold Canonize in Hc. rewrite Ety in Hc. injection Hc as <-. unfold Canonize. by rewrite Ety.
  - unfold Canonize in Hc. rewrite Ety in Hc. destruct (ParseMAC _) as [mac|] eqn:E; [|done]. injection Hc as <-.
    apply Canonize_mac. by eapply ParseMAC_is_mac.
  - unfold Canonize in Hc. rewrite Ety in Hc. injection Hc as <-. unfold Canonize. by rewrite Ety.
  - rewrite Canonize_ip in Hc by by left. destruct (resolve _) as [ip|] eqn:E; [|done]. injection Hc as <-.
    rewrite Ety. apply Canonize_ip_uri; [by left|by eapply resolve_is_ip|apply path_parts_ok].
  - rewrite Canonize_ip in Hc by by right. destruct (resolve _) as [ip|] eqn:E; [|done]. injection Hc as <-.
    rewrite Ety. apply Canonize_ip_uri; [by right|by eapply resolve_is_ip|apply path_parts_ok].
  - unfold Canonize in Hc |- *. rewrite Ety in Hc. cbv zeta in Hc. cbn [path set_scheme] in Hc.
    destruct (os_Stat _) eqn:E in Hc; try done; injection Hc as <-; unfold set_port, set_scheme in *; cbn [uriType path scheme port] in *; rewrite Ety; cbv zeta;
      cbn [path]; by rewrite E.
Qed.

End canonize.

(** ** Canonical URIs *)

Lemma PathHost_eq u host t : path u = host ++ t -> percent ∉ host -> zone_ok t -> PathHost u = host.
Proof.
  intros Hp Hh Ht. unfold PathHost. rewrite Hp. destruct Ht as [->|(z & -> & Hz)].
  - by rewrite app_nil_r, split_at_none.
  - by rewrite split_at_app.
Qed.

Lemma ipv4Pattern_v6 ip : is_ip ip -> To4 ip = None -> ipv4Pattern (IP_String ip) = false.
Proof.
  intros Hip H4. destruct (v6_text_bytes ip Hip H4) as [Hf _]. unfold ipv4Pattern. rewrite split_at_none; [done|].
  intros Hin. rewrite Forall_forall in Hf. by destruct (Hf _ Hin).
Qed.

Lemma IsCanonical_ip_uri ty ip t p : ip_type ty -> is_ip ip -> zone_ok t -> IsCanonical (ip_uri ty ip t p) = (0 <? p).
Proof.
  intros Hty Hip Ht.
  assert (Hh : PathHost (ip_uri ty ip t p) = IP_String ip).
  { eapply PathHost_eq; [done| |done]. apply no_percent, IP_String_text, Hip. }
  unfold IsCanonical. rewrite Hh, ParseIP_print by done. cbn [uriType ip_uri scheme port]. unfold ip_scheme.
  destruct (To4 ip) as [x|] eqn:E.
  - by destruct Hty as [-> | ->].
  - rewrite ipv4Pattern_v6 by done. by destruct Hty as [-> | ->].
Qed.

Lemma one_of_46 ip : exists b, gs (match To4 ip with Some _ => "4" | None => "6" end) = [b] /\ one_of "46" b = true.
Proof. destruct (To4 ip); by eexists. Qed.

Lemma zone_chars zone : forallb name_char zone = true -> percent ∉ zone /\ z2b 58 ∉ zone /\ z2b 93 ∉ zone.
Proof.
  intros Hf. rewrite forallb_forall in Hf.
  split_and!; intros Hin%list_elem_of_In; apply Hf in Hin; discriminate.
Qed.

Lemma split_zone_eq host zone : percent ∉ host -> split_zone (host ++ zone_text zone) = (host, if bool_decide (zone = []) then None else Some zone).
Proof.
  intros Hh. unfold split_zone, zone_text. case_bool_decide.
  - by rewrite app_nil_r, cut_none.
  - by rewrite cut_app.
Qed.

(** The pattern matches what [URI_String] prints. *)
Lemma match_hostport_print proto ip zone v : is_ip ip -> forallb name_char zone = true -> 0 <= v < 2 ^ 64 ->
  match_hostport proto (gs proto ++ gs (match To4 ip with Some _ => "4" | None => "6" end) ++ gs "://" ++
      JoinHostPort (IP_String ip ++ zone_text zone) (FormatUint v)) = Some (IP_String ip, zone, FormatUint v).
Proof.
  intros Hip Hz Hv. destruct (one_of_46 ip) as (b & -> & Hb). unfold match_hostport. rewrite strip_prefix_app.
  cbn [mbind option_bind app]. rewrite Hb. rewrite strip_prefix_app. cbn [mbind option_bind].
  destruct (IP_String_text ip Hip) as (Hhost & Hcol & Hbr). pose proof (port_digits v Hv) as Hport.
  assert (Hpc : z2b 58 ∉ FormatUint v) by (by eapply all_of_avoid).
  destruct (zone_chars zone Hz) as (Zp & Zc & Zb).
  set (text := IP_String ip ++ zone_text zone).
  assert (Hnb : z2b 93 ∉ text).
  { unfold text. rewrite elem_of_app. intros [Hin|Hin].
    - rewrite Forall_forall in Hbr. apply (Hbr _ Hin). right. by left.
    - unfold zone_text in Hin. case_bool_decide; [by apply elem_of_nil in Hin|]. by apply elem_of_cons in Hin as [[=]|]. }
  assert (Hcontains : contains (z2b 58) text = bool_decide (To4 ip = None)).
  { rewrite <- Hcol. unfold contains, text. apply bool_decide_ext. rewrite elem_of_app. split; [intros [?|Hin]|by left]; [done|].
    unfold zone_text in Hin. case_bool_decide; [by apply elem_of_nil in Hin|]. by apply elem_of_cons in Hin as [[=]|]. }
  assert (Hend : forall before, before = text ->
    (let '(host, zone') := split_zone before in
     if all_of is_digit (FormatUint v) && all_of host_char host && from_option (all_of name_char) true zone'
     then Some (host, default [] zone', FormatUint v) else None) = Some (IP_String ip, zone, FormatUint v)).
  { intros before ->. unfold text. rewrite split_zone_eq by (by apply no_percent). rewrite Hport, Hhost. cbn [andb].
    destruct (decide (zone = [])) as [E|E]; [by rewrite bool_decide_true, E|]. rewrite bool_decide_false by done.
    cbn [from_option default]. unfold all_of. by rewrite bool_decide_false, Hz. }
  unfold JoinHostPort. fold text. rewrite Hcontains. destruct (bool_decide (To4 ip = None)).
  - replace ([z2b 91] ++ text ++ [z2b 93; z2b 58] ++ FormatUint v) with ((z2b 91 :: text ++ [z2b 93]) ++ z2b 58 :: FormatUint v)
      by (cbn [app]; by rewrite <- app_assoc).
    rewrite cut_last_app by done. cbn [mbind option_bind]. rewrite decide_True by done.
    rewrite cut_last_app by apply not_elem_of_nil. by apply Hend.
  - change (text ++ [z2b 58] ++ FormatUint v) with (text ++ z2b 58 :: FormatUint v).
    rewrite cut_last_app by done. cbn [mbind option_bind].
    assert (Hfirst : match text with b :: r' => if decide (b = z2b 91) then r' else text | [] => text end = text).
    { destruct text as [|c text'] eqn:Et; [done|]. rewrite decide_False; [done|]. intros ->.
      unfold text in Et. destruct (IP_String ip) as [|c s]; [by apply all_of_Forall in Hhost as [? _]|].
      injection Et as -> _. apply Forall_cons in Hbr as [Hc _]. apply Hc. by left. }
    rewrite Hfirst. assert (Hcut : cut_last (z2b 93) text = None).
    { unfold cut_last. rewrite cut_none; [done|]. by rewrite list_elem_of_In, <- in_rev, <- list_elem_of_In. }
    rewrite Hcut. by apply Hend.
Qed.

Lemma match_hostport_Some proto str host zone p : match_hostport proto str = Some (host, zone, p) ->
  all_of is_digit p = true /\ percent ∉ host /\ forallb name_char zone = true.
Proof.
  unfold match_hostport. destruct (strip_prefix (gs proto) str) as [r|]; [|done]. cbn [mbind option_bind].
  destruct (strip_prefix _ _) as [r'|]; [|done]. cbn [mbind option_bind]. destruct (cut_last (z2b 58) r') as [[before port]|]; [|done].
  cbn [mbind option_bind]. destruct (split_zone _) as [h z]. goal_if E; [|done]. intros [= <- <- <-].
  apply andb_true_iff in E as [E Ez]. apply andb_true_iff in E as [Ep Eh]. split_and!; [done|by apply no_percent|].
  destruct z as [z|]; [|done]. cbn in Ez |- *. unfold all_of in Ez. by apply andb_true_iff in Ez as [_ Ez].
Qed.

Section roundtrip.
Context `{NetEnv}.

Lemma set_path_zone ty name host zone v :
  set_port v (set_path (if bool_decide (zone = []) then host else host ++ percent :: zone) (mkURI ty name [] 0)) =
    mkURI ty name (host ++ zone_text zone) v.
Proof. unfold set_port, set_path, zone_text. cbn. case_bool_decide; [by rewrite app_nil_r|done]. Qed.

(** What a host and port decode to: a URI with the bare scheme, or that of an
    address. *)
Lemma decode_hostport_cases ty proto str : ip_type ty ->
  (exists p v, decode_hostport ty proto str = mkURI ty (gs proto) p v) \/
  exists ip zone v, decode_hostport ty proto str = ip_uri ty ip (zone_text zone) v /\ is_ip ip /\
    forallb name_char zone = true /\ 0 < v < 2 ^ 16.
Proof.
  intros Hty. unfold decode_hostport. cbv zeta.
  destruct (match_hostport proto str) as [[[host zone] p]|] eqn:Em; [|left; by do 2 eexists].
  destruct (match_hostport_Some _ _ _ _ _ Em) as (Hp & Hh & Hz). destruct (zone_chars zone Hz) as (Zp & _ & _).
  destruct (ParseUint 16 p) as [v|] eqn:Ev; [|left; by do 2 eexists].
  destruct (Z.leb_spec v 0); [left; by do 2 eexists|]. rewrite set_path_zone.
  rewrite Canonize_ip by done. erewrite path_parts_eq; [|done|done|by apply zone_text_ok]. cbn [fst snd uriType port].
  destruct (resolve host) as [ip|] eqn:Er; [right|left; by do 2 eexists].
  exists ip, zone, v. split; [done|]. split; [by eapply resolve_is_ip|]. split; [done|].
  unfold ParseUint in Ev. destruct p; [done|]. destruct (parse_digits _ _) as [w|]; [|done].
  destruct (Z.ltb_spec w (2 ^ 16)); [|done]. injection Ev as ->. done.
Qed.

Lemma bare_scheme_not_canonical ty proto p v : ip_type ty -> proto = (if bool_decide (ty = udpURI) then "udp" else "tcp")%string ->
  IsCanonical (mkURI ty (gs proto) p v) = false.
Proof.
  intros Hty ->. unfold IsCanonical. cbn [uriType scheme].
  destruct Hty as [-> | ->]; (destruct (ParseIP _); [|done]);
    by rewrite !bool_decide_false by (vm_compute; discriminate).
Qed.

Lemma decode_hostport_print ty proto ip zone v : ip_type ty -> gs proto = gs (if bool_decide (ty = udpURI) then "udp" else "tcp") ->
  is_ip ip -> forallb name_char zone = true -> 0 < v < 2 ^ 16 ->
  decode_hostport ty proto (URI_String (ip_uri ty ip (zone_text zone) v)) = ip_uri ty ip (zone_text zone) v.
Proof.
  intros Hty Hproto Hip Hz Hv.
  assert (Es : URI_String (ip_uri ty ip (zone_text zone) v) = gs proto ++ gs (match To4 ip with Some _ => "4" | None => "6" end) ++ gs "://" ++
      JoinHostPort (IP_String ip ++ zone_text zone) (FormatUint v)).
  { unfold URI_String, ip_uri, ip_scheme. cbn [uriType scheme path port]. rewrite Hproto, <- app_assoc. by destruct Hty as [-> | ->]. }
  unfold decode_hostport. rewrite Es, match_hostport_print by (done || lia). cbv zeta.
  rewrite ParseUint_FormatUint by lia. replace (v <=? 0) with false by lia. rewrite set_path_zone.
  rewrite Canonize_ip by done. destruct (zone_chars zone Hz) as (Zp & _ & _).
  erewrite path_parts_eq; [|done|apply no_percent, IP_String_text, Hip|by apply zone_text_ok].
  cbn [fst snd uriType port]. by rewrite resolve_print.
Qed.

(** Which branch of [DecodeURIString] a text takes. *)
Lemma URI_String_ip ty ip t v : ip_type ty ->
  exists rest, URI_String (ip_uri ty ip t v) = ip_scheme ty ip ++ z2b 58 :: rest.
Proof. intros Hty. exists (gs "//" ++ JoinHostPort (IP_String ip ++ t) (FormatUint v)). by destruct Hty as [-> | ->]. Qed.

Lemma DecodeURIString_ip ty ip t v : ip_type ty ->
  DecodeURIString (URI_String (ip_uri ty ip t v)) =
    Some (decode_hostport ty (if bool_decide (ty = udpURI) then "udp" else "tcp") (URI_String (ip_uri ty ip t v))).
Proof.
  intros Hty. destruct (URI_String_ip ty ip t v Hty) as [rest E]. unfold DecodeURIString. rewrite E.
  unfold ip_scheme. destruct Hty as [-> | ->]; (destruct (To4 ip) as [x|];
    [match goal with |- context [cut _ (?a ++ _ :: _)] => rewrite (cut_app (z2b 58) a) by (by apply (bool_decide_unpack _)) end..]);
    reflexivity.
Qed.

Lemma ip_uri_roundtrip ty proto str u : ip_type ty -> proto = (if bool_decide (ty = udpURI) then "udp" else "tcp")%string ->
  decode_hostport ty proto str = u -> IsCanonical u = true -> DecodeURIString (URI_String u) = Some u.
Proof.
  intros Hty -> Hu Hcan.
  destruct (decode_hostport_cases ty (if bool_decide (ty = udpURI) then "udp" else "tcp") str Hty)
    as [(p & v & E)|(ip & zone & v & E & Hip & Hz & Hv)].
  - rewrite <- Hu, E, bare_scheme_not_canonical in Hcan by done. done.
  - rewrite <- Hu, E, DecodeURIString_ip by done. f_equal. by apply decode_hostport_print.
Qed.

Lemma scheme_cut sch s t : s = gs sch ++ z2b 58 :: t -> bool_decide (z2b 58 ∉ gs sch) = true -> cut (z2b 58) s = Some (gs sch, t).
Proof. intros -> Hn%bool_decide_eq_true. by apply cut_app. Qed.

Lemma decode_dev p : all_of name_char p = true -> DecodeURIString (gs "dev://" ++ p) = Some (mkURI devURI (gs "dev") p 0).
Proof.
  intros Hp. unfold DecodeURIString. rewrite (scheme_cut "dev" _ (gs "//" ++ p)) by done.
  unfold match_dev. rewrite strip_prefix_app. cbn [mbind option_bind]. by rewrite Hp.
Qed.

Lemma decode_fd p : all_of is_digit p = true -> DecodeURIString (gs "fd://" ++ p) = Some (mkURI fdURI (gs "fd") p 0).
Proof.
  intros Hp. unfold DecodeURIString. rewrite (scheme_cut "fd" _ (gs "//" ++ p)) by done.
  unfold match_fd. rewrite strip_prefix_app. cbn [mbind option_bind]. by rewrite Hp.
Qed.

Lemma Canonize_unix p : (Canonize (mkURI unixURI (gs "unix") p 0)).1 = mkURI unixURI (gs "unix") p 0.
Proof. unfold Canonize. cbn [uriType]. cbv zeta. by destruct (os_Stat _). Qed.

Lemma decode_unix p : all_of path_char p = true -> DecodeURIString (gs "unix://" ++ p) = Some (mkURI unixURI (gs "unix") p 0).
Proof.
  intros Hp. unfold DecodeURIString. rewrite (scheme_cut "unix" _ (gs "//" ++ p)) by done.
  unfold match_unix. rewrite strip_prefix_app. cbn [mbind option_bind]. rewrite Hp. cbv zeta beta. f_equal. apply Canonize_unix.
Qed.

Lemma pairs_length s : macPattern s = true -> length s = 17%nat.
Proof.
  unfold macPattern. intros [Hl Hf]%andb_true_iff. apply Nat.eqb_eq in Hl. rewrite forallb_forall in Hf.
  assert (Hsum : forall sep (t : list byte), (S (length t) = sum_list_with (fun p => S (length p)) (split_at sep t))%nat).
  { clear. intros sep t. induction t as [|b t IH]; [done|]. cbn [split_at length].
    pose proof (split_at_nonempty sep t). destruct (split_at sep t) as [|q qs]; [done|]. case_decide; cbn in *; lia. }
  specialize (Hsum (z2b 58) s). destruct (split_at (z2b 58) s) as [|a [|b [|c [|d [|e [|f [|]]]]]]]; try done.
  assert (H2 : forall p, In p [a; b; c; d; e; f] -> length p = 2%nat).
  { intros p Hp. specialize (Hf p Hp). apply bool_decide_eq_true in Hf as [v Hv]. by destruct p as [|? [|? [|]]]. }
  pose proof (H2 a); pose proof (H2 b); pose proof (H2 c); pose proof (H2 d); pose proof (H2 e); pose proof (H2 f).
  cbn in *. intuition lia.
Qed.

Lemma decode_ether p : macPattern p = true ->
  DecodeURIString (gs "ether://[" ++ p ++ gs "]") = Some (Canonize (mkURI ethernetURI (gs "ether") p 0)).1.
Proof.
  intros Hp. unfold DecodeURIString. rewrite (scheme_cut "ether" _ (gs "//[" ++ p ++ gs "]")) by done.
  unfold match_ether. rewrite strip_prefix_app. cbn [mbind option_bind].
  change (p ++ gs "]") with (p ++ z2b 93 :: []). rewrite cut_last_app by apply not_elem_of_nil.
  cbn [mbind option_bind]. pose proof (pairs_length _ Hp) as Hl. rewrite take_ge, drop_ge by lia. rewrite Hp. cbn [andb short_zones].
  by rewrite bool_decide_true.
Qed.

(** Canonizing an Ethernet URI again. *)
Lemma Canonize_ether p : let u := (Canonize (mkURI ethernetURI (gs "ether") p 0)).1 in
  u = mkURI ethernetURI (gs "ether") (path u) 0 /\ (Canonize u).1 = u.
Proof.
  cbv zeta. destruct (Canonize (mkURI ethernetURI (gs "ether") p 0)) as [u b] eqn:E. destruct b; cbn [fst].
  - pose proof (Canonize_idem _ _ E) as ->. split; [|done]. unfold Canonize in E. cbn [uriType path] in E.
    destruct (ParseMAC _); [|done]. by injection E as <-.
  - assert (u = mkURI ethernetURI (gs "ether") p 0) as ->.
    { unfold Canonize in E. cbn [uriType path] in E. destruct (ParseMAC _); [done|]. by injection E as <-. }
    split; [done|]. by rewrite E.
Qed.

End roundtrip.

(** ** Correctness *)

(** C30: face URIs as text.  Whatever text a canonical URI was decoded from
    (letters in either case, a host name resolved by DNS, an address with
    groups not abbreviated), the URI prints to a text that decodes to the same
    URI. *)
Theorem uri_roundtrip `{NetEnv} (str : list byte) (u : URI) :
  DecodeURIString str = Some u -> IsCanonical u = true -> DecodeURIString (URI_String u) = Some u.
Proof.
  unfold DecodeURIString at 1. destruct (cut (z2b 58) str) as [[sch rest]|]; [|by intros [= <-]].
  cbv zeta beta. repeat match goal with |- (if ?b then _ else _) = _ -> _ => destruct b end.
  - intros [= <-]. unfold match_dev. destruct (strip_prefix _ str) as [p|]; [cbn; goal_if E; [intros _; by apply decode_dev|done]|done].
  - intros [= <-]. destruct (match_ether str) as [p|]; [|done].
    change (set_path p _) with (mkURI ethernetURI (gs "ether") p 0). destruct (Canonize_ether p) as [E1 E2].
    intros Hcan. rewrite E1 in Hcan. unfold IsCanonical in Hcan. cbn [uriType scheme path port] in Hcan.
    apply andb_true_iff in Hcan as [Hcan _]. apply andb_true_iff in Hcan as [_ Hcan].
    set (u := (Canonize _).1) in *. transitivity (DecodeURIString (gs "ether://[" ++ path u ++ gs "]")); [by rewrite E1|].
    rewrite decode_ether by done. by rewrite <- E1, E2.
  - intros [= <-]. unfold match_fd. destruct (strip_prefix _ str) as [p|]; [cbn; goal_if E; [intros _; by apply decode_fd|done]|done].
  - by intros [= <-].
  - by intros [= <-].
  - intros [= Hu]. by apply (ip_uri_roundtrip udpURI _ str u (or_introl eq_refl) eq_refl).
  - intros [= Hu]. by apply (ip_uri_roundtrip tcpURI _ str u (or_intror eq_refl) eq_refl).
  - intros [= <-]. unfold match_unix. destruct (strip_prefix _ str) as [p|]; [|done]. cbn [mbind option_bind]. goal_if E; [|done].
    change (set_path p _) with (mkURI unixURI (gs "unix") p 0). rewrite Canonize_unix. intros _. by apply decode_unix.
  - destruct (url_Parse str) as [url|]; [|done]. goal_if E; [done|]. by intros [= <-].
  - destruct (ResolveTCPAddr _) as [addr|]; [|done]. cbn. intros [= <-]. unfold MakeWebSocketClientFaceURI.
    by destruct (default _ _).
  - by intros [= <-].
Qed.

(** Canonizing.  It keeps the type.  When it succeeds, canonizing again
    changes nothing, and a UDP or TCP URI then holds the address its host stands
    for, in the scheme of its IP version; such a URI is canonical exactly when
    it has a port.  When it fails, path and port are as they were. *)
Lemma canonize_spec `{NetEnv} (u : URI) :
  let '(u', ok) := Canonize u in
  uriType u' = uriType u /\
  if ok : bool then
    Canonize u' = (u', true) /\
    (ip_type (uriType u) -> exists ip, resolve (path_parts u).1 = Some ip /\ ParseIP (PathHost u') = Some ip /\
      scheme u' = ip_scheme (uriType u) ip /\ port u' = port u /\ IsCanonical u' = (0 <? port u))
  else path u' = path u /\ port u' = port u.
Proof.
  destruct (Canonize u) as [u' ok] eqn:E. assert (Hty : uriType u' = uriType u).
  { destruct (uriType u) eqn:Ety; unfold Canonize in E; rewrite Ety in E; try (injection E as <- _; done).
    - destruct (ParseMAC _); by injection E as <- _.
    - destruct (if _ : bool then _ else _) as [p z]. destruct (resolve p); by injection E as <- _.
    - destruct (if _ : bool then _ else _) as [p z]. destruct (resolve p); by injection E as <- _.
    - cbv zeta in E. destruct (os_Stat _); by injection E as <- _. }
  split; [done|]. destruct ok.
  - split; [by eapply Canonize_idem|]. intros Hip. rewrite Canonize_ip in E by done.
    destruct (resolve _) as [ip|] eqn:Er; [|done]. injection E as <-. exists ip. pose proof (resolve_is_ip _ _ Er) as Hok.
    destruct (path_parts_ok u) as [_ Ht]. split; [done|]. split; [|split; [done|split; [done|by apply IsCanonical_ip_uri]]].
    rewrite (PathHost_eq _ (IP_String ip) (path_parts u).2); [by apply ParseIP_print|done| |done].
    apply no_percent, IP_String_text, Hok.
  - unfold Canonize in E. destruct (uriType u); try (injection E as <-; done); try discriminate.
    + destruct (ParseMAC _); [discriminate|by injection E as <-].
    + destruct (if _ : bool then _ else _) as [p z]. destruct (resolve p); [discriminate|by injection E as <-].
    + destruct (if _ : bool then _ else _) as [p z]. destruct (resolve p); [discriminate|by injection E as <-].
    + cbv zeta in E. destruct (os_Stat _); try discriminate; by injection E as <-.
Qed.

(** The scope of a URI.  A UDP URI is local when its address is a loopback
    address without a zone; but every TCP URI, whatever its address, falls
    through to the branch meant for internal faces and is local. *)
Lemma uri_scope_spec (ip : IP) (t : list byte) (p : Z) : is_ip ip -> zone_ok t -> 0 < p ->
  URI_Scope (ip_uri udpURI ip t p) = (if bool_decide (t = []) && IsLoopback ip then LocalScope else NonLocalScope) /\
  URI_Scope (ip_uri tcpURI ip t p) = LocalScope.
Proof.
  intros Hip Ht Hp. unfold URI_Scope. assert (Hudp : ip_type udpURI) by by left. assert (Htcp : ip_type tcpURI) by by right.
  rewrite (IsCanonical_ip_uri udpURI), (IsCanonical_ip_uri tcpURI) by done.
  replace (0 <? p) with true by lia. cbn [negb uriType ip_uri path]. split; [|done].
  destruct Ht as [->|(z & -> & Hz)].
  - by rewrite app_nil_r, ParseIP_print by done.
  - assert (E : ParseIP (IP_String ip ++ percent :: z) = None); [|by rewrite E].
    unfold ParseIP, contains. rewrite bool_decide_true; [done|]. apply elem_of_app. right. by left.
Qed.

Module UriExamples.

(** A machine that knows one host. *)
Definition ex_env : NetEnv := {|
  LookupHost h := if decide (h = gs "localhost") then Some [gs "127.0.0.1"] else None;
  os_Stat _ := NotExist;
  windows := false;
  url_Parse _ := None;
  ResolveTCPAddr _ := None |}.
#[local] Existing Instance ex_env.

Lemma uri_roundtrip_witness :
  DecodeURIString (gs "TCP4://localhost:6363") = Some (mkURI tcpURI (gs "tcp") [] 0) /\
  exists u, DecodeURIString (gs "tcp://localhost:6363") = Some u /\ URI_String u = gs "tcp4://127.0.0.1:6363" /\
    DecodeURIString (URI_String u) = Some u.
Proof.
  split; [vm_compute; reflexivity|].
  exists (mkURI tcpURI (gs "tcp4") (gs "127.0.0.1") 6363). split; [vm_compute; reflexivity|]. split; [vm_compute; reflexivity|].
  apply (uri_roundtrip (gs "tcp://localhost:6363")); vm_compute; reflexivity.
Defined.

(** 8.8.8.8 over TCP is local; the loopback address with a zone is not. *)
Lemma uri_scope_witness :
  URI_Scope (mkURI tcpURI (gs "tcp4") (gs "8.8.8.8") 6363) = LocalScope /\
  URI_Scope (mkURI udpURI (gs "udp6") (gs "::1%lo") 6363) = NonLocalScope.
Proof.
  split.
  - apply (uri_scope_spec (from_v4 (8, 8, 8, 8)) [] 6363); [split; [reflexivity|repeat constructor; lia]|by left|lia].
  - apply (uri_scope_spec v6_loopback (gs "%lo") 6363);
      [split; [reflexivity|repeat constructor; lia]|right; exists (gs "lo"); split; [reflexivity|by apply (bool_decide_unpack _)]|lia].
Defined.

(** The pattern for IPv4 stops at 254, so this is taken for an IPv6 URI. *)
Example broadcast_is_canonical_udp6 : IsCanonical (mkURI udpURI (gs "udp6") (gs "192.168.1.255") 6363) = true.
Proof. vm_compute. reflexivity. Qed.

End UriExamples.
