(* ===== verification/Transport.v ===== *)
(** * Transports: face/transport.go, face/persistency.go, face/internal-transport.go

    [transport] is the interface link services use (class [Transport]);
    [transportBase] is the state the implementations share, and
    [InternalTransport] the transport of the management module, with its two
    bounded channels.  The transports over sockets are in Sockets.v and
    Stream.v; a link service is proved against the interface. *)
From S2P Require Import Prelude.
From S2P Require Import Packet Fw Uri.

(** ndn/state.go. *)
Inductive State := Up | Down | AdminDown.

#[export] Instance State_eq_dec : EqDecision State.
Proof. solve_decision. Defined.

Definition PersistencyPersistent : Z := 0.
Definition PersistencyOnDemand : Z := 1.
Definition PersistencyPermanent : Z := 2.

(** tlv.MaxNDNPacketSize. *)
Definition MaxNDNPacketSize : Z := 8800.

(** What a link service calls on its transport.  [tr_sendFrame] is [None] when
    the call blocks. *)
Class Transport (T : Type) := {
  tr_state : T -> State;
  tr_mtu : T -> Z;
  tr_scope : T -> Scope;
  tr_sendQueueSize : T -> Z;
  tr_sendFrame : list byte -> T -> option T }.

(** ** The base of the transports *)

Record transportBase := mkTransportBase {
  t_faceID : Z;
  remoteURI : URI;
  localURI : URI;
  t_scope : Scope;
  persistency : Z;
  t_linkType : LinkType;
  mtu : Z;
  expirationTime : option Z;
  state : State;
  nInBytes : Z;
  nOutBytes : Z }.

Definition makeTransportBase (remote local : URI) (p : Z) (s : Scope) (lt : LinkType) (m : Z) : transportBase :=
  mkTransportBase 0 remote local s p lt m None Down 0 0.

Definition setFaceID (id : Z) (t : transportBase) : transportBase :=
  mkTransportBase id (remoteURI t) (localURI t) (t_scope t) (persistency t) (t_linkType t) (mtu t) (expirationTime t)
    (state t) (nInBytes t) (nOutBytes t).
Definition SetMTU (m : Z) (t : transportBase) : transportBase :=
  mkTransportBase (t_faceID t) (remoteURI t) (localURI t) (t_scope t) (persistency t) (t_linkType t) m (expirationTime t)
    (state t) (nInBytes t) (nOutBytes t).
Definition set_persistency (p : Z) (t : transportBase) : transportBase :=
  mkTransportBase (t_faceID t) (remoteURI t) (localURI t) (t_scope t) p (t_linkType t) (mtu t) (expirationTime t)
    (state t) (nInBytes t) (nOutBytes t).
Definition set_state (s : State) (t : transportBase) : transportBase :=
  mkTransportBase (t_faceID t) (remoteURI t) (localURI t) (t_scope t) (persistency t) (t_linkType t) (mtu t)
    (expirationTime t) s (nInBytes t) (nOutBytes t).
Definition count_bytes (din dout : Z) (t : transportBase) : transportBase :=
  mkTransportBase (t_faceID t) (remoteURI t) (localURI t) (t_scope t) (persistency t) (t_linkType t) (mtu t)
    (expirationTime t) (state t) (u64 (nInBytes t + din)) (u64 (nOutBytes t + dout)).

(** The time until the face expires, 0 unless it is on demand. *)
Definition ExpirationPeriod (now : Z) (t : transportBase) : Z :=
  match expirationTime t with
  | None => 0
  | Some e => if (persistency t =? PersistencyOnDemand)%Z then e - now else 0
  end%Z.

(** ** The internal transport *)

(** [faceQueueSize] bounds both channels; [quits] counts the signals in
    [hasQuit]. *)
Record InternalTransport := mkInternal {
  base : transportBase;
  recvQueue : list (list byte);
  sendQueue : list (list byte);
  quits : nat }.

Definition MakeInternalTransport : InternalTransport :=
  mkInternal (set_state Up (makeTransportBase MakeInternalFaceURI MakeInternalFaceURI PersistencyPersistent Local PointToPoint MaxNDNPacketSize))
    [] [] 0.

Definition SetPersistency (p : Z) (t : InternalTransport) : InternalTransport * bool :=
  if (p =? persistency (base t))%Z then (t, true)
  else if (p =? PersistencyPersistent)%Z then
    (mkInternal (set_persistency p (base t)) (recvQueue t) (sendQueue t) (quits t), true)
  else (t, false).

Section internal.
Context (faceQueueSize : nat).

(** A frame over the MTU is dropped; sending on the full channel blocks. *)
Definition sendFrame (frame : list byte) (t : InternalTransport) : option InternalTransport :=
  if (mtu (base t) <? Z.of_nat (length frame))%Z then Some t
  else if length (recvQueue t) <? faceQueueSize then
    Some (mkInternal (count_bytes 0 (Z.of_nat (length frame)) (base t)) (recvQueue t ++ [frame]) (sendQueue t) (quits t))
  else None.

(** One round of [runReceive]: the next frame of the component is counted and
    handed to the link service; [None] when there is nothing to receive. *)
Definition runReceive_step (t : InternalTransport) : option (InternalTransport * option (list byte)) :=
  match sendQueue t with
  | [] => None
  | frame :: rest =>
      if (MaxNDNPacketSize <? Z.of_nat (length frame))%Z
      then Some (mkInternal (base t) (recvQueue t) rest (quits t), None)
      else Some (mkInternal (count_bytes (Z.of_nat (length frame)) 0 (base t)) (recvQueue t) rest (quits t), Some frame)
  end.

#[export] Instance internal_transport : Transport InternalTransport := {
  tr_state t := state (base t);
  tr_mtu t := mtu (base t);
  tr_scope t := t_scope (base t);
  tr_sendQueueSize _ := 0%Z;
  tr_sendFrame := sendFrame }.

End internal.
