(* ===== verification/Sockets.v ===== *)
(** * The transports of faces: face/unicast-udp-transport.go,
    face/unicast-tcp-transport.go, face/multicast-udp-transport.go,
    face/multicast-ethernet-transport.go, face/unix-stream-transport.go,
    face/web-socket-transport.go, face/null-transport.go, face/udp-listener.go

    Construction, persistency, the sending of frames, failures, expiration and
    the change of state of the transports.  The operating system's answers (a
    connection or an error, what a read or write returned) are arguments; a
    connection is only open or closed.  The receive loop of the Unix stream
    transport is Stream.v, the internal transport Transport.v. *)
From S2P Require Import Prelude.
From S2P Require Import Packet Fw Text NetAddr Uri Transport.
Local Open Scope Z_scope.

(** ** Data *)

Inductive TransportKind :=
| UnicastUDP | UnicastTCP | MulticastUDP | MulticastEthernet | UnixStream | WebSocket | InternalKind | NullKind.

#[export] Instance TransportKind_eq_dec : EqDecision TransportKind.
Proof. solve_decision. Defined.

(** A transport: its type, its base, and whether its connection is closed. *)
Record FaceTransport := mkFT { kind : TransportKind; tbase : transportBase; closed : bool }.

Definition on_base (g : transportBase -> transportBase) (t : FaceTransport) : FaceTransport := mkFT (kind t) (g (tbase t)) (closed t).

Definition set_expiration (e : Z) (t : transportBase) : transportBase :=
  mkTransportBase (t_faceID t) (remoteURI t) (localURI t) (t_scope t) (persistency t) (t_linkType t) (mtu t) (Some e)
    (state t) (nInBytes t) (nOutBytes t).

(** [SetPersistency] of each transport; [InternalTransport]'s is the one of
    Transport.v.  The unicast transports take any persistency. *)
Definition unicast_SetPersistency (p : Z) (t : FaceTransport) : FaceTransport * bool :=
  if p =? persistency (tbase t) then (t, true) else (on_base (set_persistency p) t, true).
Definition multicast_SetPersistency (p : Z) (t : FaceTransport) : FaceTransport * bool :=
  if p =? persistency (tbase t) then (t, true)
  else if p =? PersistencyPermanent then (on_base (set_persistency p) t, true) else (t, false).
Definition ethernet_SetPersistency (p : Z) (t : FaceTransport) : FaceTransport * bool :=
  if p =? persistency (tbase t) then (t, true)
  else if p =? PersistencyPermanent then (on_base (set_persistency p) t, true) else (t, false).
Definition null_SetPersistency (p : Z) (t : FaceTransport) : FaceTransport * bool :=
  if p =? persistency (tbase t) then (t, true)
  else if p =? PersistencyPermanent then (on_base (set_persistency p) t, true) else (t, false).
Definition stream_SetPersistency (p : Z) (t : FaceTransport) : FaceTransport * bool :=
  if p =? persistency (tbase t) then (t, true)
  else if p =? PersistencyPersistent then (on_base (set_persistency p) t, true) else (t, false).
Definition websocket_SetPersistency (p : Z) (t : FaceTransport) : FaceTransport * bool := (t, p =? PersistencyOnDemand).

Definition ft_SetPersistency (p : Z) (t : FaceTransport) : FaceTransport * bool :=
  match kind t with
  | UnicastUDP | UnicastTCP => unicast_SetPersistency p t
  | MulticastUDP => multicast_SetPersistency p t
  | MulticastEthernet => ethernet_SetPersistency p t
  | UnixStream | InternalKind => stream_SetPersistency p t
  | WebSocket => websocket_SetPersistency p t
  | NullKind => null_SetPersistency p t
  end.

(** [GetSendQueueSize]: the socket's queue, or 0.  (That of the multicast
    transport, which may have no socket, is in Receive.v.) *)
Definition ft_GetSendQueueSize (queued : Z) (t : FaceTransport) : Z :=
  match kind t with
  | UnicastUDP | UnicastTCP | MulticastUDP | UnixStream => u64 queued
  | MulticastEthernet | WebSocket | InternalKind | NullKind => 0
  end.

(** [changeState]: the boolean says that the face is removed from the table.  The
    capture of an Ethernet face is not closed, and the null face has nothing to
    close. *)
Definition socket_changeState (new : State) (t : FaceTransport) : FaceTransport * bool :=
  if decide (state (tbase t) = new) then (t, false)
  else if decide (new = Up) then (on_base (set_state new) t, false)
       else (mkFT (kind t) (set_state new (tbase t)) true, true).
Definition ethernet_changeState (new : State) (t : FaceTransport) : FaceTransport * bool :=
  if decide (state (tbase t) = new) then (t, false) else (on_base (set_state new) t, negb (bool_decide (new = Up))).
Definition null_changeState (new : State) (t : FaceTransport) : FaceTransport * bool :=
  if decide (state (tbase t) = new) then (t, false) else (on_base (set_state new) t, negb (bool_decide (new = Up))).
Definition changeState (new : State) (t : FaceTransport) : FaceTransport * bool :=
  match kind t with
  | MulticastEthernet => ethernet_changeState new t
  | NullKind => null_changeState new t
  | _ => socket_changeState new t
  end.

(** Whatever the type: nothing, a transport that is up, or one that goes down and
    is removed. *)
Lemma changeState_cases new t : exists c,
  changeState new t =
  if decide (state (tbase t) = new) then (t, false) else (mkFT (kind t) (set_state new (tbase t)) c, negb (bool_decide (new = Up))).
Proof.
  unfold changeState, socket_changeState, ethernet_changeState, null_changeState, on_base.
  destruct (decide (state (tbase t) = new)) as [E|E]; [by exists (closed t); destruct (kind t)|].
  destruct (decide (new = Up)) as [->|Hn]; [by exists (closed t); destruct t as [[] ? ?]|]. rewrite bool_decide_false by done.
  destruct (kind t) eqn:Ek; first [by exists true|by exists (closed t)].
Qed.

#[global] Ltac solve_change := unfold changeState, socket_changeState, ethernet_changeState, null_changeState; cbn [kind]; repeat case_decide; done.

(** The transports with a socket. *)
Definition has_socket (t : FaceTransport) : Prop := kind t <> MulticastEthernet /\ kind t <> NullKind /\ kind t <> InternalKind.
Lemma changeState_socket new t : has_socket t -> changeState new t = socket_changeState new t.
Proof. intros (He & Hn & _). unfold changeState. by destruct (kind t). Qed.

Lemma changeState_kind new t : kind (changeState new t).1 = kind t.
Proof. destruct (changeState_cases new t) as [c ->]. by case_decide. Qed.
Lemma changeState_up t : state (tbase (changeState Up t).1) = Up.
Proof. destruct (changeState_cases Up t) as [c ->]. by case_decide. Qed.
Lemma changeState_down t : state (tbase (changeState Down t).1) = Down.
Proof. destruct (changeState_cases Down t) as [c ->]. by case_decide. Qed.

(** ** Construction *)

Section make.
Context `{NetEnv}.
(** Lifetimes of on-demand faces and the default local ports (face/init.go);
    [dial network address localPort] is the text of the connection's local
    address, [None] an error. *)
Context (udpLifetime tcpLifetime UDPUnicastPort : Z).
Context (dial : list byte -> list byte -> option Z -> option (list byte)).

Definition loopback_scope (ip : option IP) : Scope :=
  match ip with Some ip => if IsLoopback ip then Local else NonLocal | None => NonLocal end.

(** The local URI of a connection. *)
Definition local_uri (proto addr : list byte) : URI :=
  default (mkURI unknownURI (gs "unknown") [] 0) (DecodeURIString (proto ++ gs "://" ++ addr)).

Definition scheme_in (u : URI) (a b : String.string) : bool := bool_decide (scheme u = gs a) || bool_decide (scheme u = gs b).

(** [MakeUnicastUDPTransport]; [None] is an error. *)
Definition MakeUnicastUDPTransport (now : Z) (remote : URI) (local : option URI) (p : Z) : option FaceTransport :=
  if negb (IsCanonical remote) || negb (scheme_in remote "udp4" "udp6")
     || match local with Some l => negb (IsCanonical l) || negb (bool_decide (scheme remote = scheme l)) | None => false end
  then None
  else
    let localPort := match local with Some l => port l | None => UDPUnicastPort end in
    addr ← dial (scheme remote) (JoinHostPort (path remote) (FormatUint (port remote))) (Some localPort);
    let l := match local with Some l => l | None => local_uri (gs "udp") addr end in
    let base := set_expiration (now + udpLifetime)
      (makeTransportBase remote l p (loopback_scope (ParseIP (path remote))) PointToPoint MaxNDNPacketSize) in
    Some (changeState Up (mkFT UnicastUDP base false)).1.

(** [MakeUnicastTCPTransport]. *)
Definition MakeUnicastTCPTransport (now : Z) (remote : URI) (local : option URI) (p : Z) : option FaceTransport :=
  if negb (IsCanonical remote) || negb (scheme_in remote "tcp4" "tcp6") then None
  else match local with
  | Some _ => None
  | None =>
      addr ← dial (scheme remote) (JoinHostPort (path remote) (FormatUint (port remote))) None;
      let base := set_expiration (now + tcpLifetime)
        (makeTransportBase remote (local_uri (gs "tcp") addr) p (loopback_scope (ParseIP (path remote))) PointToPoint MaxNDNPacketSize) in
      Some (changeState Up (mkFT UnicastTCP base false)).1
  end.

(** The URI of a remote endpoint, as the UDP listener and
    [AcceptUnicastTCPTransport] make it from an address. *)
Definition remote_uri (udp : bool) (remoteAddr : list byte) : option URI :=
  '(host, p) ← SplitHostPort remoteAddr;
  let u := (if udp then MakeUDPFaceURI else MakeTCPFaceURI) 4 host (lenient_port p) in
  Some (Canonize u).1.

(** [AcceptUnicastTCPTransport] with a local URI: an address that does not split
    is an error; a URI that is not canonical gives a nil transport with a nil
    error, [Ok None]. *)
Definition AcceptUnicastTCPTransport (now : Z) (remoteAddr : list byte) (local : URI) (p : Z) : outcome (option FaceTransport) :=
  match remote_uri false remoteAddr with
  | None => Err (ErrNew "missing port in address")
  | Some remote =>
      if negb (IsCanonical remote) then Ok None
      else
        let base := set_expiration (now + tcpLifetime)
          (makeTransportBase remote local p (loopback_scope (ParseIP (path remote))) PointToPoint MaxNDNPacketSize) in
        Ok (Some (changeState Up (mkFT UnicastTCP base false)).1)
  end.

(** What the UDP listener makes of the sender of a datagram: the on-demand
    transport, or nothing. *)
Definition accept_datagram (now : Z) (remoteAddr : list byte) (local : URI) : option FaceTransport :=
  remote ← remote_uri true remoteAddr;
  if negb (IsCanonical remote) then None else MakeUnicastUDPTransport now remote (Some local) PersistencyOnDemand.

(** [MakeUnixStreamTransport], [NewWebSocketTransport], [MakeNullTransport]. *)
Definition MakeUnixStreamTransport (remote local : URI) : option FaceTransport :=
  if negb (IsCanonical remote) || negb (bool_decide (scheme remote = gs "fd")) || negb (IsCanonical local)
     || negb (bool_decide (scheme local = gs "unix")) then None
  else Some (changeState Up (mkFT UnixStream (makeTransportBase remote local PersistencyPersistent Local PointToPoint MaxNDNPacketSize) false)).1.
Definition NewWebSocketTransport (remoteAddr : list byte) (local : URI) : FaceTransport :=
  let remote := MakeWebSocketClientFaceURI remoteAddr in
  (changeState Up (mkFT WebSocket
    (makeTransportBase remote local PersistencyOnDemand (loopback_scope (ParseIP (PathHost remote))) PointToPoint MaxNDNPacketSize) false)).1.
Definition MakeNullTransport : FaceTransport :=
  (changeState Up (mkFT NullKind (makeTransportBase MakeNullFaceURI MakeNullFaceURI PersistencyPermanent NonLocal PointToPoint MaxNDNPacketSize) false)).1.

(** [MakeMulticastUDPTransport] on an interface; [ifname] is that of the local
    address, whose lookup error is only logged: without an interface the IPv6
    branch panics.  [connected] says that both connections could be made. *)
Definition MakeMulticastUDPTransport (udp4MulticastAddress udp6MulticastAddress : list byte) (UDPMulticastPort : Z)
    (ifname : option (list byte)) (connected : bool) (local : URI) : outcome FaceTransport :=
  let local := (Canonize local).1 in
  if negb (IsCanonical local) || negb (scheme_in local "udp4" "udp6") then Err (ErrNew "not canonical")
  else
    let port := FormatUint UDPMulticastPort in
    let* text :=
      (if bool_decide (scheme local = gs "udp4") then Ok (gs "udp4://" ++ udp4MulticastAddress ++ gs ":" ++ port)
       else match ifname with
            | Some name => Ok (gs "udp6://[" ++ udp6MulticastAddress ++ gs "%" ++ name ++ gs "]:" ++ port)
            | None => Panic
            end) in
    let remote := default (mkURI unknownURI (gs "unknown") [] 0) (DecodeURIString text) in
    if connected then
      Ok (changeState Up (mkFT MulticastUDP (makeTransportBase remote local PersistencyPermanent NonLocal MultiAccess MaxNDNPacketSize) false)).1
    else Err (ErrNew "Unable to create connection").

(** [MakeMulticastEthernetTransport]; [activated] is the result of
    [activateHandle]. *)
Definition MakeMulticastEthernetTransport (activated : bool) (remote local : URI) : option FaceTransport :=
  if negb (IsCanonical remote) || negb (bool_decide (scheme remote = gs "ether")) || negb (IsCanonical local)
     || negb (bool_decide (scheme local = gs "dev")) then None
  else match ParseMAC (path remote) with
       | Some _ =>
           if activated then
             Some (changeState Up (mkFT MulticastEthernet (makeTransportBase remote local PersistencyPermanent NonLocal MultiAccess MaxNDNPacketSize) false)).1
           else None
       | None => None
       end.

End make.

(** ** Running *)

(** What a read returned: bytes, the end of the stream, or another error with
    the result of dialing again. *)
Inductive read_result := ReadData (bs : list byte) | ReadEOF | ReadError (redial : bool).

#[export] Instance read_result_eq_dec : EqDecision read_result.
Proof. solve_decision. Defined.

Section running.
Context (udpLifetime tcpLifetime : Z).

Definition lifetime (t : FaceTransport) : Z := match kind t with UnicastUDP => udpLifetime | _ => tcpLifetime end.

(** [onTransportFailure] of the unicast transports: a permanent face dials
    again; without a connection the type assertion on nil panics. *)
Definition onTransportFailure (redial : bool) (t : FaceTransport) : outcome (FaceTransport * bool) :=
  if persistency (tbase t) =? PersistencyPermanent then
    if redial then Ok (mkFT (kind t) (tbase t) false, false) else Panic
  else Ok (changeState Down t).

Definition count_sent (frame : list byte) (t : FaceTransport) : FaceTransport :=
  on_base (count_bytes 0 (Z.of_nat (length frame))) t.

(** [sendFrame]: [written] is whether the write succeeded.  A frame over the MTU
    is dropped. *)
Definition over_mtu (frame : list byte) (t : FaceTransport) : bool := mtu (tbase t) <? Z.of_nat (length frame).

Definition udp_sendFrame (now : Z) (written redial : bool) (frame : list byte) (t : FaceTransport) : outcome (FaceTransport * bool) :=
  if over_mtu frame t then Ok (t, false)
  else if written then Ok (on_base (set_expiration (now + udpLifetime)) (count_sent frame t), false)
  else onTransportFailure redial t.
Definition tcp_sendFrame (now : Z) (written redial : bool) (frame : list byte) (t : FaceTransport) : outcome (FaceTransport * bool) :=
  if over_mtu frame t then Ok (t, false)
  else if written then Ok (on_base (set_expiration (now + tcpLifetime)) (count_sent frame t), false)
  else onTransportFailure redial t.

(** The bytes of a frame that could not be written are counted too. *)
Definition stream_sendFrame (written : bool) (frame : list byte) (t : FaceTransport) : FaceTransport * bool :=
  if over_mtu frame t then (t, false)
  else let '(t, removed) := if written then (t, false) else changeState Down t in (count_sent frame t, removed).
Definition websocket_sendFrame (written : bool) (frame : list byte) (t : FaceTransport) : FaceTransport * bool :=
  if over_mtu frame t then (t, false)
  else let '(t, removed) := if written then (t, false) else changeState Down t in (count_sent frame t, removed).

(** The multicast transport dials again, and panics when that fails. *)
Definition multicast_sendFrame (written redial : bool) (frame : list byte) (t : FaceTransport) : outcome FaceTransport :=
  if over_mtu frame t then Ok t
  else if written then Ok (count_sent frame t)
  else if redial then Ok (count_sent frame t) else Panic.
(** A failed write activates the capture anew; its error is ignored. *)
Definition ethernet_sendFrame (written : bool) (frame : list byte) (t : FaceTransport) : FaceTransport :=
  if over_mtu frame t then t else if written then count_sent frame t else t.

(** The null transport has the one of [transportBase], without a check of the
    size; what the internal one does with the frame is in Transport.v. *)
Definition ft_sendFrame (now : Z) (written redial : bool) (frame : list byte) (t : FaceTransport) : outcome (FaceTransport * bool) :=
  match kind t with
  | UnicastUDP => udp_sendFrame now written redial frame t
  | UnicastTCP => tcp_sendFrame now written redial frame t
  | UnixStream => Ok (stream_sendFrame written frame t)
  | WebSocket => Ok (websocket_sendFrame written frame t)
  | MulticastUDP => let* t := multicast_sendFrame written redial frame t in Ok (t, false)
  | MulticastEthernet => Ok (ethernet_sendFrame written frame t, false)
  | InternalKind => Ok (if over_mtu frame t then t else count_sent frame t, false)
  | NullKind => Ok (count_sent frame t, false)
  end.

(** [runReceive] of the unicast transports over the results of its reads: the
    transport, the frames handed up, how often the face was removed, and whether
    the loop ended.  A permanent face that dialed again continues in a nested
    call; over TCP the face goes down when that returns. *)
Fixpoint runReceive (now : Z) (reads : list read_result) (t : FaceTransport)
    : outcome (FaceTransport * list (list byte) * nat * bool) :=
  match reads with
  | [] => Ok (t, [], 0%nat, false)
  | ReadData bs :: reads =>
      let t := on_base (set_expiration (now + lifetime t)) (on_base (count_bytes (Z.of_nat (length bs)) 0) t) in
      let* (t', frames, removed, ended) := runReceive now reads t in
      Ok (t', (if MaxNDNPacketSize <? Z.of_nat (length bs) then frames else bs :: frames), removed, ended)
  | ReadEOF :: _ =>
      match kind t with
      | UnicastTCP => let '(t, removed) := changeState Down t in Ok (t, [], Nat.b2n removed, true)
      | _ => Ok (t, [], 0%nat, true)
      end
  | ReadError redial :: reads =>
      let* (t1, r1) := onTransportFailure redial t in
      let nested := if persistency (tbase t) =? PersistencyPermanent then runReceive now reads t1 else Ok (t1, [], 0%nat, true) in
      let* (t2, frames, r2, ended) := nested in
      match kind t with
      | UnicastTCP =>
          if ended : bool then let '(t3, r3) := changeState Down t2 in Ok (t3, frames, (Nat.b2n r1 + r2 + Nat.b2n r3)%nat, true)
          else Ok (t2, frames, (Nat.b2n r1 + r2)%nat, false)
      | _ => Ok (t2, frames, (Nat.b2n r1 + r2)%nat, ended)
      end
  end.

(** One round of [expirationHandler]; the boolean says whether it goes on. *)
Definition expirationHandler_step (now : Z) (t : FaceTransport) : FaceTransport * bool * bool :=
  if decide (state (tbase t) = Down) then (t, false, false)
  else if (persistency (tbase t) =? PersistencyOnDemand)
          && match expirationTime (tbase t) with Some e => e <=? now | None => false end
  then let '(t', removed) := changeState Down t in (t', removed, false)
  else (t, false, true).

End running.

(** ** The life of a unicast transport *)

(** What happens to one: a frame to send, the receive loop over some reads, a
    round of the expiration handler, a change of persistency. *)
Inductive transport_event :=
| TSend (now : Z) (written redial : bool) (frame : list byte)
| TReceive (now : Z) (reads : list read_result)
| TTick (now : Z)
| TPersist (p : Z).

Section life.
Context (udpLifetime tcpLifetime : Z).

Definition transport_step (ev : transport_event) (t : FaceTransport) : outcome (FaceTransport * nat) :=
  match ev with
  | TSend now written redial frame =>
      let* (t', r) := ft_sendFrame udpLifetime tcpLifetime now written redial frame t in Ok (t', Nat.b2n r)
  | TReceive now reads => let* (t', _, n, _) := runReceive udpLifetime tcpLifetime now reads t in Ok (t', n)
  | TTick now => let '(t', r, _) := expirationHandler_step now t in Ok (t', Nat.b2n r)
  | TPersist p => Ok ((ft_SetPersistency p t).1, 0%nat)
  end.

Fixpoint transport_run (evs : list transport_event) (t : FaceTransport) : outcome (FaceTransport * nat) :=
  match evs with
  | [] => Ok (t, 0%nat)
  | ev :: evs =>
      let* (t1, n1) := transport_step ev t in
      let* (t2, n2) := transport_run evs t1 in
      Ok (t2, (n1 + n2)%nat)
  end.

Definition is_unicast (k : TransportKind) : Prop := k = UnicastUDP \/ k = UnicastTCP.

(** A transition: the type and URIs stay; a transport that goes down is removed
    once, one that is down stays down. *)
Definition went (t t' : FaceTransport) (n : nat) : Prop :=
  kind t' = kind t /\ remoteURI (tbase t') = remoteURI (tbase t) /\ localURI (tbase t') = localURI (tbase t) /\
  (state (tbase t') = state (tbase t) /\ n = 0%nat \/ state (tbase t) <> Down /\ state (tbase t') = Down /\ n = 1%nat).

Lemma went_refl t t' : kind t' = kind t -> remoteURI (tbase t') = remoteURI (tbase t) -> localURI (tbase t') = localURI (tbase t) ->
  state (tbase t') = state (tbase t) -> went t t' 0.
Proof. unfold went. intros. split_and!; auto. Qed.

Lemma went_trans t1 t2 t3 n m : went t1 t2 n -> went t2 t3 m -> went t1 t3 (n + m).
Proof.
  intros (K1 & R1 & L1 & S1) (K2 & R2 & L2 & S2). unfold went. split_and!; [congruence..|].
  destruct S1 as [[S1 ->]|(S1 & S1' & ->)], S2 as [[S2 ->]|(S2 & S2' & ->)]; [left|right|right|congruence]; split_and!; congruence || lia.
Qed.

Lemma changeState_went t : went t (changeState Down t).1 (Nat.b2n (changeState Down t).2).
Proof.
  destruct (changeState_cases Down t) as [c ->]. case_decide; [by apply went_refl|]. rewrite bool_decide_false by done.
  unfold went. cbn. split_and!; auto.
Qed.

Lemma failure_went redial t t' r : onTransportFailure redial t = Ok (t', r) -> went t t' (Nat.b2n r).
Proof.
  unfold onTransportFailure. destruct (_ =? _).
  - destruct redial; [|done]. intros [= <- <-]. by apply went_refl.
  - intros [= E]. pose proof (changeState_went t) as Hw. by rewrite E in Hw.
Qed.

Lemma unicast_sendFrame now written redial frame t : is_unicast (kind t) ->
  ft_sendFrame udpLifetime tcpLifetime now written redial frame t =
  if over_mtu frame t then Ok (t, false)
  else if written then Ok (on_base (set_expiration (now + lifetime udpLifetime tcpLifetime t)) (count_sent frame t), false)
  else onTransportFailure redial t.
Proof. unfold ft_sendFrame, lifetime. by intros [-> | ->]. Qed.

Lemma send_went now written redial frame t t' r : is_unicast (kind t) ->
  ft_sendFrame udpLifetime tcpLifetime now written redial frame t = Ok (t', r) -> went t t' (Nat.b2n r).
Proof.
  intros Hk. rewrite unicast_sendFrame by done. goal_if E; [intros [= <- <-]; by apply went_refl|].
  destruct written; [intros [= <- <-]; by apply went_refl|apply failure_went].
Qed.

Lemma receive_went now reads : forall t t' frames n ended, is_unicast (kind t) ->
  runReceive udpLifetime tcpLifetime now reads t = Ok (t', frames, n, ended) -> went t t' n.
Proof.
  induction reads as [|[bs| |redial] reads IH]; intros t t' frames n ended Hk; cbn [runReceive].
  - intros [= <- <- <- <-]. by apply went_refl.
  - set (t1 := on_base _ _). destruct (runReceive _ _ now reads t1) as [[[[t2 fr] m] e]| |] eqn:E; cbn; try done.
    intros [= <- _ <- _]. apply (IH t1) in E; [|done]. change m with (0 + m)%nat. eapply went_trans; [by apply went_refl|exact E].
  - pose proof (changeState_went t) as Hw. destruct (changeState Down t) as [t1 r].
    destruct Hk as [Hk|Hk]; rewrite Hk; intros [= <- <- <- <-]; [by apply went_refl|exact Hw].
  - destruct (onTransportFailure redial t) as [[t1 r1]| |] eqn:Ef; cbn; try done. apply failure_went in Ef.
    assert (Hk1 : is_unicast (kind t1)) by (destruct Ef as (-> & _); done).
    match goal with |- outcome_bind _ ?x = _ -> _ => destruct x as [[[[t2 fr] r2] e]| |] eqn:En; cbn; try done end.
    assert (Hn : went t1 t2 r2).
    { destruct (persistency (tbase t) =? PersistencyPermanent); [by eapply IH|]. injection En as <- <- <- <-. by apply went_refl. }
    pose proof (went_trans _ _ _ _ _ Ef Hn) as H12. pose proof (changeState_went t2) as Hc.
    destruct (changeState Down t2) as [t3 r3]. cbn [fst snd] in Hc.
    destruct Hk as [Hk|Hk]; rewrite Hk; [intros [= <- _ <- _]; exact H12|].
    destruct e; intros [= <- _ <- _]; [by eapply went_trans|exact H12].
Qed.

Lemma step_went ev t t' n : is_unicast (kind t) -> transport_step ev t = Ok (t', n) -> went t t' n.
Proof.
  intros Hk. destruct ev as [now written redial frame|now reads|now|p]; cbn [transport_step].
  - destruct (ft_sendFrame _ _ _ _ _ _ _) as [[t1 r]| |] eqn:E; cbn; try done. intros [= <- <-]. by eapply send_went.
  - destruct (runReceive _ _ _ _ _) as [[[[t1 fr] m] e]| |] eqn:E; cbn; try done. intros [= <- <-]. by eapply receive_went.
  - unfold expirationHandler_step. case_decide; [intros [= <- <-]; by apply went_refl|].
    goal_if E; [|intros [= <- <-]; by apply went_refl].
    pose proof (changeState_went t) as Hw. destruct (changeState Down t) as [t1 r]. by intros [= <- <-].
  - intros [= <- <-]. unfold ft_SetPersistency, unicast_SetPersistency. destruct Hk as [-> | ->]; (destruct (_ =? _); by apply went_refl).
Qed.

Lemma run_went evs : forall t t' n, is_unicast (kind t) -> transport_run evs t = Ok (t', n) -> went t t' n.
Proof.
  induction evs as [|ev evs IH]; intros t t' n Hk; cbn [transport_run]; [intros [= <- <-]; by apply went_refl|].
  destruct (transport_step ev t) as [[t1 n1]| |] eqn:E1; cbn; try done. apply step_went in E1; [|done].
  assert (Hk1 : is_unicast (kind t1)) by (destruct E1 as (-> & _); done).
  destruct (transport_run evs t1) as [[t2 n2]| |] eqn:E2; cbn; try done. intros [= <- <-].
  eapply went_trans; [exact E1|]. by apply IH.
Qed.

(** No dialing of an event fails. *)
Definition dials_ok (ev : transport_event) : Prop :=
  match ev with
  | TSend _ written redial _ => written = true \/ redial = true
  | TReceive _ reads => ReadError false ∉ reads
  | _ => True
  end.

Definition permanent (t : FaceTransport) : Prop := persistency (tbase t) = PersistencyPermanent.

Lemma changeState_persistency new t : persistency (tbase (changeState new t).1) = persistency (tbase t).
Proof. destruct (changeState_cases new t) as [c ->]. by case_decide. Qed.

Lemma failure_ok redial t : redial = true \/ ~ permanent t ->
  exists t' r, onTransportFailure redial t = Ok (t', r) /\ (permanent t' <-> permanent t).
Proof.
  unfold onTransportFailure. intros Hr. destruct (Z.eqb_spec (persistency (tbase t)) PersistencyPermanent) as [E|E].
  - destruct Hr as [->|Hr]; [|done]. by do 2 eexists.
  - pose proof (changeState_persistency Down t) as Hp. destruct (changeState Down t) as [t' r]. exists t', r.
    split; [done|]. unfold permanent. cbn in Hp. by rewrite Hp.
Qed.

Lemma send_ok now written redial frame t : is_unicast (kind t) -> written = true \/ redial = true \/ ~ permanent t ->
  exists t' r, ft_sendFrame udpLifetime tcpLifetime now written redial frame t = Ok (t', r).
Proof.
  intros Hk Hok. rewrite unicast_sendFrame by done. goal_if E; [by do 2 eexists|]. destruct written; [by do 2 eexists|].
  destruct (failure_ok redial t) as (t' & r & -> & _); [by destruct Hok as [?|?]|by do 2 eexists].
Qed.

Lemma receive_ok now reads : forall t, is_unicast (kind t) -> ReadError false ∉ reads \/ ~ permanent t ->
  exists t' frames n ended, runReceive udpLifetime tcpLifetime now reads t = Ok (t', frames, n, ended).
Proof.
  induction reads as [|[bs| |redial] reads IH]; intros t Hk Hok; cbn [runReceive]; [by do 4 eexists| | |].
  - destruct (IH (on_base (set_expiration (now + lifetime udpLifetime tcpLifetime t)) (on_base (count_bytes (Z.of_nat (length bs)) 0) t)))
      as (t' & fr & n & e & ->); [done| |by do 4 eexists].
    destruct Hok as [Hok|Hok]; [left|right; done]. rewrite not_elem_of_cons in Hok. apply Hok.
  - destruct (changeState Down t). destruct Hk as [Hk|Hk]; rewrite Hk; by do 4 eexists.
  - destruct (failure_ok redial t) as (t1 & r1 & E1 & Hperm).
    { destruct Hok as [Hok|?]; [|by right]. left. rewrite not_elem_of_cons in Hok. destruct Hok as [Hne _]. destruct redial; congruence. }
    pose proof (failure_went _ _ _ _ E1) as Hw. rewrite E1. cbn.
    assert (Hnested : exists t2 fr r2 e, (if persistency (tbase t) =? PersistencyPermanent
      then runReceive udpLifetime tcpLifetime now reads t1 else Ok (t1, [], 0%nat, true)) = Ok (t2, fr, r2, e)).
    { destruct (Z.eqb_spec (persistency (tbase t)) PersistencyPermanent) as [E|E]; [|by do 4 eexists].
      apply IH; [by destruct Hw as (-> & _)|]. destruct Hok as [Hok|Hok]; [left|by right; rewrite Hperm].
      rewrite not_elem_of_cons in Hok. apply Hok. }
    destruct Hnested as (t2 & fr & r2 & e & ->). cbn. destruct (changeState Down t2) as [t3 r3].
    destruct Hk as [Hk|Hk]; rewrite Hk; [by do 4 eexists|]. destruct e; by do 4 eexists.
Qed.

Lemma step_ok ev t : is_unicast (kind t) -> dials_ok ev \/ ~ permanent t -> exists t' n, transport_step ev t = Ok (t', n).
Proof.
  intros Hk Hok. destruct ev as [now written redial frame|now reads|now|p]; cbn [transport_step].
  - destruct (send_ok now written redial frame t Hk) as (t' & r & ->); [destruct Hok as [[?|?]|?]; auto|]. by do 2 eexists.
  - destruct (receive_ok now reads t Hk Hok) as (t' & fr & n & e & ->). by do 2 eexists.
  - destruct (expirationHandler_step now t) as [[t' r] e]. by do 2 eexists.
  - by do 2 eexists.
Qed.

#[local] Instance dials_ok_dec ev : Decision (dials_ok ev).
Proof. destruct ev; cbn; apply _. Defined.

#[local] Instance permanent_dec t : Decision (permanent t).
Proof. unfold permanent. apply _. Defined.

Lemma failure_not_err redial t e : onTransportFailure redial t <> Err e.
Proof. unfold onTransportFailure. destruct (_ =? _); [by destruct redial|done]. Qed.

Lemma receive_not_err now reads e : forall t, runReceive udpLifetime tcpLifetime now reads t <> Err e.
Proof.
  induction reads as [|[bs| |redial] reads IH]; intros t; cbn [runReceive]; [done| | |].
  - set (t1 := on_base _ _). specialize (IH t1). by destruct (runReceive _ _ now reads t1) as [[[[]]]| |].
  - destruct (changeState Down t). by destruct (kind t).
  - pose proof (failure_not_err redial t) as Hf. destruct (onTransportFailure redial t) as [[t1 r1]|e1|]; [|by specialize (Hf e1)|done].
    cbn. specialize (IH t1). destruct (_ =? _); [destruct (runReceive _ _ now reads t1) as [[[[t2 fr] r2] ended]| |]; cbn; try done|cbn];
      destruct (changeState Down _); destruct (kind t); try done; by destruct ended.
Qed.

Lemma step_not_err ev t e : transport_step ev t <> Err e.
Proof.
  destruct ev as [now written redial frame|now reads|now|p]; cbn [transport_step].
  - assert (Hs : ft_sendFrame udpLifetime tcpLifetime now written redial frame t <> Err e).
    { pose proof (failure_not_err redial t e). unfold ft_sendFrame, udp_sendFrame, tcp_sendFrame, multicast_sendFrame.
      by destruct (kind t), (over_mtu frame t), written, redial. }
    destruct (ft_sendFrame _ _ _ _ _ _ _) as [[t1 r]|e1|]; cbn; try done. intros [= ->]. by apply Hs.
  - pose proof (receive_not_err now reads e t) as Hr. destruct (runReceive _ _ _ _ _) as [[[[t1 fr] m] ended]|e1|]; cbn; try done. intros [= ->]. by apply Hr.
  - by destruct (expirationHandler_step now t) as [[]].
  - done.
Qed.

(** A run that stops, stops at a failed dial of a permanent face. *)
Lemma run_stops evs : forall t, is_unicast (kind t) -> is_ok (transport_run evs t) = false ->
  transport_run evs t = Panic /\
  exists before ev after t1 n1, evs = before ++ ev :: after /\ transport_run before t = Ok (t1, n1) /\ permanent t1 /\ ~ dials_ok ev.
Proof.
  induction evs as [|ev evs IH]; intros t Hk Hstop; [done|]. cbn [transport_run] in *.
  destruct (transport_step ev t) as [[t1 n1]|e|] eqn:E1; [|by apply step_not_err in E1|].
  - cbn [outcome_bind] in *. pose proof (step_went _ _ _ _ Hk E1) as (K1 & _).
    destruct (IH t1) as (E2 & before & ev' & after & t2 & n2 & -> & Er & Hp & Hd); [by rewrite K1|by destruct (transport_run evs t1) as [[]| |]|].
    rewrite E2. split; [done|]. exists (ev :: before), ev', after, t2, (n1 + n2)%nat. split_and!; [done| |done|done].
    cbn [transport_run]. rewrite E1. cbn. by rewrite Er.
  - split; [done|]. exists [], ev, evs, t, 0%nat.
    assert (Hbad : ~ (dials_ok ev \/ ~ permanent t)) by (intros Hok; destruct (step_ok ev t Hk Hok) as (? & ? & ?); congruence).
    split_and!; [done|done| |naive_solver]. destruct (decide (permanent t)); naive_solver.
Qed.

(** The life of a unicast face's transport, whatever is sent, read, expires
    or is configured.  Its type and URIs stay; it goes down at most once, never
    comes up again, and is removed from the face table exactly when it goes
    down.  Nothing but a failed dial of a permanent face stops the forwarder;
    but that does, at the first frame that cannot be written: the error is only
    logged, and the type assertion on the nil connection panics. *)
Lemma unicast_transport_life (evs : list transport_event) (t : FaceTransport) :
  is_unicast (kind t) -> state (tbase t) = Up ->
  match transport_run evs t with
  | Ok (t', n) => kind t' = kind t /\ remoteURI (tbase t') = remoteURI (tbase t) /\
                  (state (tbase t') = Up /\ n = 0%nat \/ state (tbase t') = Down /\ n = 1%nat)
  | Err _ => False
  | Panic => exists before ev after t1 n1, evs = before ++ ev :: after /\ transport_run before t = Ok (t1, n1) /\
               permanent t1 /\ ~ dials_ok ev
  end /\
  forall now frame, permanent t -> Z.of_nat (length frame) <= mtu (tbase t) ->
    transport_run (TSend now false false frame :: evs) t = Panic.
Proof.
  intros Hk Hup. split.
  - pose proof (run_stops evs t Hk) as Hs. destruct (transport_run evs t) as [[t' n]|e|] eqn:E.
    + destruct (run_went _ _ _ _ Hk E) as (K & R & _ & S). split_and!; [done|done|]. rewrite Hup in S.
      destruct S as [?|(_ & ? & ?)]; auto.
    + by destruct Hs.
    + by apply Hs.
  - intros now frame Hp Hl. unfold permanent in Hp. cbn [transport_run transport_step]. rewrite unicast_sendFrame by done.
    unfold over_mtu. replace (mtu (tbase t) <? Z.of_nat (length frame)) with false by lia. unfold onTransportFailure. by rewrite Hp.
Qed.

End life.

Module SocketsExamples.
#[local] Existing Instance UriExamples.ex_env.

(** Every dial succeeds, from port 50000. *)
Definition ex_dial (_ _ : list byte) (_ : option Z) : option (list byte) := Some (gs "10.0.0.1:50000").
Definition ex_remote : URI := MakeTCPFaceURI 4 (gs "192.0.2.1") 6363.
Definition ex_tcp : FaceTransport :=
  default MakeNullTransport (MakeUnicastTCPTransport 600 ex_dial 0 ex_remote None PersistencyPermanent).

Example ex_tcp_made : kind ex_tcp = UnicastTCP /\ localURI (tbase ex_tcp) = MakeTCPFaceURI 4 (gs "10.0.0.1") 50000.
Proof. vm_compute. split; reflexivity. Qed.

(** A permanent TCP face whose peer is gone, and one whose peer comes back and
    closes. *)
Lemma unicast_transport_witness :
  transport_run 600 600 [TSend 5 false false [x05]; TTick 10] ex_tcp = Panic /\
  match transport_run 600 600 [TSend 5 false true [x05]; TReceive 6 [ReadData [x06]; ReadEOF]] ex_tcp with
  | Ok (t, n) => state (tbase t) = Down /\ n = 1%nat
  | _ => False
  end.
Proof.
  assert (Hk : is_unicast (kind ex_tcp)) by (right; reflexivity). assert (Hup : state (tbase ex_tcp) = Up) by reflexivity.
  split; [apply (unicast_transport_life 600 600 [TTick 10] ex_tcp Hk Hup); [reflexivity|vm_compute; discriminate]|].
  pose proof (proj1 (unicast_transport_life 600 600 [TSend 5 false true [x05]; TReceive 6 [ReadData [x06]; ReadEOF]] ex_tcp Hk Hup)) as Hl.
  revert Hl. vm_compute. intros (_ & _ & [[Hs _]|Hl]); [discriminate Hs|exact Hl].
Defined.

End SocketsExamples.
