(* ===== verification/Stream.v ===== *)
(** * The Unix stream transport's receive loop: face/unix-stream-transport.go

    A stream socket does not keep packets apart: the loop reads into a buffer
    of 8800 bytes and cuts it at the TLV headers.  [recvBuf] keeps the bytes of
    earlier reads behind [startPos], and the code reads headers from it without
    regard to [startPos], so they are part of the model.  The frames handed to
    the link service (which copies them) are returned.  [None] is fuel running
    out; with more fuel than buffered bytes that means the loop never ends. *)
From S2P Require Import Prelude.
From S2P Require Import Tlv Transport Sockets.
Local Open Scope Z_scope.

(** ** The loop *)

(** [copy(recvBuf, recvBuf[lo:hi])]. *)
Definition move_down (lo hi : Z) (buf : list byte) : list byte :=
  let part := take (Z.to_nat (hi - lo)) (drop (Z.to_nat lo) buf) in part ++ drop (length part) buf.

(** The inner loop: frames, buffer and [startPos] after it.  A slice whose end is
    before its start panics. *)
Fixpoint deframe (fuel : nat) (recvBuf : list byte) (startPos tlvPos : Z) : option (outcome (list (list byte) * list byte * Z)) :=
  match fuel with
  | O => None
  | S fuel =>
      if startPos <=? tlvPos then Some (Ok ([], recvBuf, 0))
      else
        match DecodeTypeLength (drop (Z.to_nat tlvPos) recvBuf) with
        | Panic => Some Panic
        | Err _ => Some (Ok ([], recvBuf, 0))
        | Ok (_, _, tlvSize) =>
            let hi := i64 (tlvPos + tlvSize) in
            if hi <=? startPos then
              if hi <? tlvPos then Some Panic
              else
                match deframe fuel recvBuf startPos hi with
                | Some (Ok (frames, buf, p)) =>
                    Some (Ok (take (Z.to_nat (hi - tlvPos)) (drop (Z.to_nat tlvPos) recvBuf) :: frames, buf, p))
                | r => r
                end
            else if 0 <? tlvPos then Some (Ok ([], move_down tlvPos startPos recvBuf, startPos - tlvPos))
            else Some (Ok ([], recvBuf, startPos))
        end
  end.

(** The state between reads. *)
Record Buffer := mkBuffer { recvBuf : list byte; startPos : Z }.
Definition empty_buffer : Buffer := mkBuffer (replicate (Z.to_nat MaxNDNPacketSize) x00) 0.

(** A read of [data] into [recvBuf[startPos:]], and the inner loop after it. *)
Definition receive_read (fuel : nat) (data : list byte) (b : Buffer) : option (outcome (list (list byte) * Buffer)) :=
  let s := Z.to_nat (startPos b) in
  let buf := take s (recvBuf b) ++ data ++ drop (s + length data) (recvBuf b) in
  let startPos := startPos b + Z.of_nat (length data) in
  if MaxNDNPacketSize <? startPos then Some (Ok ([], mkBuffer buf startPos))
  else
    match deframe fuel buf startPos 0 with
    | None => None
    | Some Panic => Some Panic
    | Some (Err e) => Some (Err e)
    | Some (Ok (frames, buf, p)) => Some (Ok (frames, mkBuffer buf p))
    end.

(** Reads one after the other. *)
Fixpoint receive_all (fuel : nat) (chunks : list (list byte)) (b : Buffer) : option (outcome (list (list byte) * Buffer)) :=
  match chunks with
  | [] => Some (Ok ([], b))
  | data :: chunks =>
      match receive_read fuel data b with
      | Some (Ok (frames, b1)) =>
          match receive_all fuel chunks b1 with
          | Some (Ok (frames', b2)) => Some (Ok (frames ++ frames', b2))
          | r => r
          end
      | r => r
      end
  end.

(** [runReceive] until an error or the end of the stream, which takes the face
    down; the boolean says that the loop ended. *)
Fixpoint stream_runReceive (fuel : nat) (reads : list read_result) (t : FaceTransport) (b : Buffer)
    : option (outcome (FaceTransport * list (list byte) * bool)) :=
  match reads with
  | [] => Some (Ok (t, [], false))
  | ReadData data :: reads =>
      match receive_read fuel data b with
      | Some (Ok (frames, b1)) =>
          match stream_runReceive fuel reads (on_base (count_bytes (Z.of_nat (length data)) 0) t) b1 with
          | Some (Ok (t', frames', ended)) => Some (Ok (t', frames ++ frames', ended))
          | r => r
          end
      | Some (Err e) => Some (Err e)
      | Some Panic => Some Panic
      | None => None
      end
  | _ :: _ => Some (Ok ((changeState Down t).1, [], true))
  end.

(** ** Packets on a stream *)

(** The first [h] bytes of a packet tell its size, whatever follows them. *)
Definition header_of (p : list byte) (h : nat) : Prop :=
  (1 <= h <= length p)%nat /\
  forall rest, exists ty len, DecodeTypeLength (take h p ++ rest) = Ok (ty, len, Z.of_nat (length p)).

(** A packet that fits the buffer. *)
Definition stream_packet (p : list byte) : Prop := Z.of_nat (length p) <= MaxNDNPacketSize /\ exists h, header_of p h.

(** Any TLV block is one. *)
Lemma stream_packet_block (t : Z) (v : list byte) : 0 <= t < 2 ^ 32 ->
  let p := EncodeVarNum t ++ EncodeVarNum (Z.of_nat (length v)) ++ v in
  Z.of_nat (length p) < 2 ^ 62 -> header_of p (length (EncodeVarNum t) + length (EncodeVarNum (Z.of_nat (length v)))).
Proof.
  intros Ht p Hp. unfold p in *. rewrite !length_app in Hp. remember (Z.of_nat (length v)) as n eqn:Hn.
  assert (Hl : (1 <= length (EncodeVarNum t))%nat).
  { pose proof (length_EncodeVarNum t) as H. unfold varSize in H. repeat case_match; lia. }
  split; [rewrite !length_app; lia|]. intros rest. rewrite app_assoc, <- length_app, take_app_length, <- app_assoc.
  exists t, n. unfold DecodeTypeLength. rewrite DecodeVarNum_encode by lia. cbn [outcome_bind].
  replace (0xFFFFFFFF <? t) with false by lia. rewrite drop_app_length, DecodeVarNum_encode by lia. cbn [outcome_bind].
  unfold u32. rewrite Z.mod_small, i64_small by lia. rewrite i64_small by lia. do 2 f_equal. rewrite !length_app. lia.
Qed.

(** The packets complete after [n] bytes, the packets left, and the bytes of the
    next one that are there. *)
Fixpoint deliver (packets : list (list byte)) (n : nat) : list (list byte) * list (list byte) * nat :=
  match packets with
  | [] => ([], [], n)
  | p :: ps =>
      if (length p <=? n)%nat then let '(d, ps', r) := deliver ps (n - length p) in (p :: d, ps', r)
      else ([], p :: ps, n)
  end.

(** The reads leave room, and none ends within a header. *)
Fixpoint good_cuts (chunks packets : list (list byte)) (r : nat) : Prop :=
  match chunks with
  | [] => True
  | c :: cs =>
      Z.of_nat (r + length c) <= MaxNDNPacketSize /\
      let '(_, ps, r') := deliver packets (r + length c) in
      (r' = 0%nat \/ exists p ps' h, ps = p :: ps' /\ header_of p h /\ (h <= r')%nat) /\ good_cuts cs ps r'
  end.

(** ** The loop delivers the packets *)

(** The header of the next packet is read, once it is there. *)
Lemma decode_header p h n buf t : header_of p h -> (h <= n)%nat -> take n buf = take n (p ++ t) ->
  exists ty len, DecodeTypeLength buf = Ok (ty, len, Z.of_nat (length p)).
Proof.
  intros [Hh1 Hh] Hn Hb. destruct (Hh (drop h buf)) as (ty & len & E). exists ty, len. rewrite <- E. f_equal.
  rewrite <- (take_drop h buf) at 1. f_equal. apply (f_equal (take h)) in Hb. rewrite !take_take, !Nat.min_l in Hb by lia.
  by rewrite Hb, take_app_le by lia.
Qed.

Lemma deframe_packets fuel : forall ps buf start pos n, Forall stream_packet ps ->
  0 <= pos -> start = pos + Z.of_nat n -> start <= MaxNDNPacketSize -> length buf = Z.to_nat MaxNDNPacketSize ->
  take n (drop (Z.to_nat pos) buf) = take n (concat ps) -> (n <= length (concat ps))%nat -> (n < fuel)%nat ->
  let '(d, ps', r) := deliver ps n in
  (r = 0%nat \/ exists p ps'' h, ps' = p :: ps'' /\ header_of p h /\ (h <= r)%nat) ->
  exists buf', deframe fuel buf start pos = Some (Ok (d, buf', Z.of_nat r)) /\ length buf' = length buf /\
    take r buf' = take r (concat ps') /\ (r <= length (concat ps'))%nat.
Proof.
  induction fuel as [|fuel IH]; intros ps buf start pos n Hps Hpos Hstart Hmax Hlen Hbytes Hn Hf; [lia|].
  destruct (decide (n = 0%nat)) as [->|Hn0].
  - assert (Hd : deliver ps 0 = ([], ps, 0%nat)).
    { destruct ps as [|p ps]; [done|]. cbn. apply Forall_cons in Hps as [(_ & h & Hh & _) _].
      destruct p; [cbn in Hh; lia|done]. }
    rewrite Hd. intros _. exists buf. cbn [deframe]. replace (start <=? pos) with true by lia. split_and!; [done|done|done|lia].
  - destruct ps as [|p ps]; [cbn in Hn; lia|]. apply Forall_cons in Hps as [(Hp & h & [Hh1 Hh2] & Hh) Hps].
    cbn [deliver]. cbn [concat] in Hbytes, Hn. rewrite length_app in Hn.
    cbn [deframe]. replace (start <=? pos) with false by lia.
    destruct (Nat.leb_spec (length p) n) as [Hle|Hgt].
    + pose proof (decode_header p h n _ (concat ps) (conj (conj Hh1 Hh2) Hh) ltac:(lia) Hbytes) as (ty & len & ->).
      unfold MaxNDNPacketSize in *. rewrite i64_small by lia.
      replace (pos + Z.of_nat (length p) <=? start) with true by lia. replace (pos + Z.of_nat (length p) <? pos) with false by lia.
      destruct (deliver ps (n - length p)) as [[d ps'] r] eqn:Ed. intros Hr.
      pose proof (IH ps buf start (pos + Z.of_nat (length p)) (n - length p)%nat Hps) as IHp. rewrite Ed in IHp.
      destruct IHp as (buf' & E & Hl & Ht & Hr'); [lia|lia|lia|done| |lia|lia|done|].
      { rewrite Z2Nat.inj_add, Nat2Z.id by lia. rewrite <- drop_drop.
        apply (f_equal (drop (length p))) in Hbytes. rewrite !skipn_firstn_comm, drop_app_length in Hbytes. exact Hbytes. }
      exists buf'. rewrite E. split; [|done].
      replace (pos + Z.of_nat (length p) - pos) with (Z.of_nat (length p)) by lia. rewrite Nat2Z.id.
      apply (f_equal (take (length p))) in Hbytes. rewrite !take_take, !Nat.min_l, take_app_length in Hbytes by lia. by rewrite Hbytes.
    + intros [?|(p' & ps'' & h' & [= <- <-] & Hh' & Hr)]; [lia|].
      pose proof (decode_header p h' n _ (concat ps) Hh' Hr Hbytes) as (ty & len & ->).
      unfold MaxNDNPacketSize in *. rewrite i64_small by lia. replace (pos + Z.of_nat (length p) <=? start) with false by lia.
      assert (Hslice : length (take n (drop (Z.to_nat pos) buf)) = n) by (rewrite length_take, length_drop; lia).
      destruct (Z.ltb_spec 0 pos) as [Hp0|Hp0].
      * unfold move_down. replace (Z.to_nat (start - pos)) with n by lia. eexists. replace (start - pos) with (Z.of_nat n) by lia.
        split; [done|]. split; [rewrite length_app, length_drop, Hslice; lia|]. split; [|cbn [concat]; rewrite length_app; lia].
        rewrite take_app_le by lia. rewrite take_take, Nat.min_id. exact Hbytes.
      * exists buf. replace start with (Z.of_nat n) by lia. replace (Z.to_nat pos) with 0%nat in Hbytes by lia. rewrite drop_0 in Hbytes.
        split; [done|]. split; [done|]. split; [exact Hbytes|cbn [concat]; rewrite length_app; lia].
Qed.

Lemma deliver_spec ps : forall n d ps' r, deliver ps n = (d, ps', r) -> (n <= length (concat ps))%nat ->
  ps = d ++ ps' /\ n = (length (concat d) + r)%nat.
Proof.
  induction ps as [|p ps IH]; intros n d ps' r; cbn [deliver concat]; [intros [= <- <- <-] _; split; [done|cbn; lia]|].
  destruct (Nat.leb_spec (length p) n) as [Hle|Hgt].
  - destruct (deliver ps (n - length p)) as [[d1 ps1] r1] eqn:E. intros [= <- <- <-] Hn. rewrite length_app in Hn.
    destruct (IH _ _ _ _ E) as [-> Hr]; [lia|]. split; [done|]. cbn. rewrite length_app. lia.
  - intros [= <- <- <-] _. split; [done|cbn; lia].
Qed.

Lemma deliver_add ps : forall n m d1 ps1 r1, deliver ps n = (d1, ps1, r1) ->
  deliver ps (n + m) = let '(d2, ps2, r2) := deliver ps1 (r1 + m) in (d1 ++ d2, ps2, r2).
Proof.
  induction ps as [|p ps IH]; intros n m d1 ps1 r1; cbn [deliver]; [intros [= <- <- <-]; done|].
  destruct (Nat.leb_spec (length p) n) as [Hle|Hgt].
  - destruct (deliver ps (n - length p)) as [[d ps'] r] eqn:E. intros [= <- <- <-].
    rewrite (proj2 (Nat.leb_le (length p) (n + m))) by lia. replace (n + m - length p)%nat with (n - length p + m)%nat by lia.
    rewrite (IH _ m _ _ _ E). by destruct (deliver ps' (r + m)) as [[d2 ps2] r2].
  - intros [= <- <- <-]. cbn [deliver]. destruct (Nat.leb_spec (length p) (n + m)); [|done].
    by destruct (deliver ps (n + m - length p)) as [[d2 ps2] r2].
Qed.

(** Between reads the buffer holds the beginning of the rest of the stream. *)
Record holds (b : Buffer) (ps : list (list byte)) (r : nat) : Prop := {
  holds_length : length (recvBuf b) = Z.to_nat MaxNDNPacketSize;
  holds_start : startPos b = Z.of_nat r;
  holds_bytes : take r (recvBuf b) = take r (concat ps);
  holds_le : (r <= length (concat ps))%nat }.

Lemma receive_read_ok fuel ps data b r : Forall stream_packet ps -> holds b ps r ->
  data `prefix_of` drop r (concat ps) -> Z.of_nat (r + length data) <= MaxNDNPacketSize -> (Z.to_nat MaxNDNPacketSize < fuel)%nat ->
  let '(d, ps', r') := deliver ps (r + length data) in
  (r' = 0%nat \/ exists p ps'' h, ps' = p :: ps'' /\ header_of p h /\ (h <= r')%nat) ->
  exists b', receive_read fuel data b = Some (Ok (d, b')) /\ holds b' ps' r'.
Proof.
  intros Hps [Hl Hs Hb Hr] [tl Htl] Hfit Hfuel. unfold MaxNDNPacketSize in *.
  unfold receive_read. rewrite Hs, Nat2Z.id. unfold MaxNDNPacketSize.
  replace (8800 <? Z.of_nat r + Z.of_nat (length data)) with false by lia.
  set (buf := take r (recvBuf b) ++ data ++ drop (r + length data) (recvBuf b)).
  assert (Hlr : length (take r (recvBuf b)) = r) by (rewrite length_take; lia).
  assert (Hlt : (r + length data <= length (concat ps))%nat).
  { apply (f_equal length) in Htl. rewrite length_drop, length_app in Htl. lia. }
  pose proof (deframe_packets fuel ps buf (Z.of_nat r + Z.of_nat (length data)) 0 (r + length data) Hps) as Hd.
  destruct (deliver ps (r + length data)) as [[d ps'] r'] eqn:Ed. intros Hcut.
  destruct Hd as (buf' & E & Hlb & Htb & Hrb); [lia|lia|unfold MaxNDNPacketSize; lia| | |lia|lia|exact Hcut|].
  - unfold MaxNDNPacketSize, buf. rewrite !length_app, Hlr, length_drop. lia.
  - cbn [Z.to_nat]. rewrite drop_0. unfold buf. rewrite app_assoc, take_app_le by (rewrite length_app; lia).
    rewrite take_ge by (rewrite length_app; lia). rewrite Hb.
    rewrite <- (take_drop r (concat ps)) at 2. rewrite Htl, app_assoc, take_app_le; [|rewrite length_app, length_take; lia].
    symmetry. apply take_ge. rewrite length_app, length_take. lia.
  - rewrite E. exists (mkBuffer buf' (Z.of_nat r')). split; [done|]. split; cbn; [|done|done|done].
    rewrite Hlb. unfold MaxNDNPacketSize, buf. rewrite !length_app, Hlr, length_drop. lia.
Qed.

(** What is left after [deliver] has no complete packet. *)
Lemma deliver_again ps n d ps' r : deliver ps n = (d, ps', r) -> deliver ps' r = ([], ps', r).
Proof.
  intros E. pose proof (deliver_add ps n 0 _ _ _ E) as H. rewrite !Nat.add_0_r, E in H.
  destruct (deliver ps' r) as [[d2 ps2] r2]. injection H as Hd <- <-. f_equal. f_equal.
  apply (app_inv_head d). by rewrite app_nil_r.
Qed.

Lemma receive_all_ok fuel chunks : forall ps b r, Forall stream_packet ps -> holds b ps r -> deliver ps r = ([], ps, r) ->
  concat chunks `prefix_of` drop r (concat ps) -> (Z.to_nat MaxNDNPacketSize < fuel)%nat -> good_cuts chunks ps r ->
  let '(d, ps', r') := deliver ps (r + length (concat chunks)) in
  exists b', receive_all fuel chunks b = Some (Ok (d, b')) /\ holds b' ps' r'.
Proof.
  induction chunks as [|c cs IH]; intros ps b r Hps Hb Hr Hpre Hfuel Hcuts.
  - cbn [concat length]. rewrite Nat.add_0_r, Hr. by exists b.
  - cbn [receive_all concat good_cuts] in *. destruct Hcuts as [Hfit Hcuts].
    destruct (deliver ps (r + length c)) as [[d ps'] r'] eqn:Ed. destruct Hcuts as [Hcut Hcuts].
    assert (Hc : c `prefix_of` drop r (concat ps)) by (etransitivity; [by eexists|exact Hpre]).
    pose proof (receive_read_ok fuel ps c b r Hps Hb Hc Hfit Hfuel) as Hread. rewrite Ed in Hread.
    destruct (Hread Hcut) as (b1 & E1 & Hb1). rewrite E1.
    assert (Hle : (r + length c <= length (concat ps))%nat).
    { destruct Hc as [tl Htl]. apply (f_equal length) in Htl. rewrite length_drop, length_app in Htl. destruct Hb as [_ _ _ Hr']. lia. }
    destruct (deliver_spec ps _ _ _ _ Ed Hle) as [-> Hn]. apply Forall_app in Hps as [_ Hps'].
    rewrite length_app, Nat.add_assoc, (deliver_add _ _ _ _ _ _ Ed).
    assert (Hpre' : concat cs `prefix_of` drop r' (concat ps')).
    { destruct Hpre as [tl Htl]. exists tl. rewrite concat_app in Htl. apply (f_equal (drop (length c))) in Htl.
      rewrite <- app_assoc, drop_app_length, drop_drop in Htl. rewrite <- Htl, Hn.
      rewrite <- drop_drop, drop_app_length. done. }
    specialize (IH ps' b1 r' Hps' Hb1 (deliver_again _ _ _ _ _ Ed) Hpre' Hfuel Hcuts).
    destruct (deliver ps' (r' + length (concat cs))) as [[d2 ps2] r2]. destruct IH as (b2 & E2 & Hb2). exists b2. by rewrite E2.
Qed.

Lemma deliver_all ps : deliver ps (length (concat ps)) = (ps, [], 0%nat).
Proof.
  induction ps as [|p ps IH]; [done|]. cbn [concat deliver]. rewrite length_app.
  rewrite (proj2 (Nat.leb_le _ _)) by lia. by replace (length p + length (concat ps) - length p)%nat with (length (concat ps)) by lia; rewrite IH.
Qed.

Lemma deliver_none ps : Forall stream_packet ps -> deliver ps 0 = ([], ps, 0%nat).
Proof.
  intros Hps. destruct ps as [|p ps]; [done|]. cbn. apply Forall_cons in Hps as [(_ & h & Hh & _) _].
  destruct p; [cbn in Hh; lia|done].
Qed.

(** C31: packets on a Unix stream.  However the stream of some packets is cut into
    reads, as long as no read ends within the header of a packet, the link
    service is handed exactly these packets, each once, whole and in order, and
    nothing is left in the buffer. *)
Theorem unix_stream_frames (packets chunks : list (list byte)) (fuel : nat) :
  Forall stream_packet packets -> concat chunks = concat packets -> good_cuts chunks packets 0 ->
  (Z.to_nat MaxNDNPacketSize < fuel)%nat ->
  exists b, receive_all fuel chunks empty_buffer = Some (Ok (packets, b)) /\ startPos b = 0.
Proof.
  intros Hps Hc Hcuts Hfuel.
  pose proof (receive_all_ok fuel chunks packets empty_buffer 0 Hps) as H. rewrite Nat.add_0_l, Hc, deliver_all in H.
  destruct H as (b & E & Hb); [|by apply deliver_none|by rewrite drop_0|done|done|exists b; split; [done|apply Hb]].
  split; cbn; [by rewrite length_replicate|done|done|lia].
Qed.

(** Two packets and the beginning of a third, and what is read of them. *)
Definition long_packet : list byte := [x06; x0a; x00; xff; x80; x00; x00; x00; x00; x00; x00; x00].
Definition stale_packets : list (list byte) := [long_packet; [x06; x00]; [x05; x00]].
Definition stale_chunks : list (list byte) := [long_packet; [x06; x00; x05]].

Lemma decode_one_byte x : DecodeTypeLength [x] = Err ErrTooShort.
Proof.
  unfold DecodeTypeLength, DecodeVarNum. destruct (Z.leb_spec (b2z x) 0xFC); [|by destruct (b2z x =? 0xFD), (b2z x =? 0xFE)].
  cbn [outcome_bind drop]. pose proof (b2z_range x). by replace (0xFFFFFFFF <? b2z x) with false by lia.
Qed.

(** A block whose length makes its size zero. *)
Definition zero_block (ty : byte) : list byte := [ty; xff; xff; xff; xff; xff; xff; xff; xff; xf6].

Lemma decode_small ty rest : b2z ty <= 252 -> DecodeVarNum (ty :: rest) = Ok (b2z ty, 1%nat).
Proof. intros Ht. unfold DecodeVarNum. by replace (b2z ty <=? 252) with true by lia. Qed.

Lemma decode_zero_block ty rest : b2z ty <= 252 -> exists len, DecodeTypeLength (zero_block ty ++ rest) = Ok (b2z ty, len, 0).
Proof.
  intros Ht. pose proof (b2z_range ty). unfold DecodeTypeLength, zero_block. cbn [app]. rewrite decode_small by done.
  cbn [outcome_bind drop]. replace (0xFFFFFFFF <? b2z ty) with false by lia.
  change (DecodeVarNum (drop 0 (xff :: xff :: xff :: xff :: xff :: xff :: xff :: xff :: xf6 :: rest))) with (Ok (2 ^ 64 - 10, 9%nat)).
  cbn [outcome_bind]. assert (Hu : u32 (b2z ty) = b2z ty) by (apply Z.mod_small; lia). rewrite Hu. by eexists.
Qed.

Lemma zero_block_diverges fuel ty rest start : b2z ty <= 252 -> 0 < start -> deframe fuel (zero_block ty ++ rest) start 0 = None.
Proof.
  intros Ht Hs. induction fuel as [|fuel IH]; [done|]. cbn [deframe]. replace (start <=? 0) with false by lia.
  cbn [Z.to_nat]. rewrite drop_0. destruct (decode_zero_block ty rest Ht) as [len ->].
  change (i64 (0 + 0)) with 0. replace (0 <=? start) with true by lia. cbn [Z.ltb Z.compare]. by rewrite IH.
Qed.

(** Where the loop goes wrong.  A read that fills the buffer and ends one
    byte into a header loses that byte, so the stream is out of step from then
    on.  A read that ends within a header takes the rest of the header from
    what older reads left in the buffer: well-formed packets can make it panic.
    A sender can also make it run for ever: a length that wraps to a size of
    zero is handed up as an empty frame again and again, and after a block
    larger than the buffer it reads zero bytes again and again. *)
Lemma unix_stream_hazards (p big : list byte) (hp hbig : nat) (x ty : byte) (fuel : nat) :
  header_of p hp -> Z.of_nat (length p) = MaxNDNPacketSize - 1 ->
  header_of big hbig -> MaxNDNPacketSize < Z.of_nat (length big) < 2 ^ 63 -> Z.of_nat hbig <= MaxNDNPacketSize ->
  b2z ty <= 252 -> (3 <= fuel)%nat ->
  receive_read fuel (p ++ [x]) empty_buffer = Some (Ok ([p], mkBuffer (p ++ [x]) 0)) /\
  (Forall (fun p => exists h, header_of p h) stale_packets /\ concat stale_chunks `prefix_of` concat stale_packets /\
   receive_all fuel stale_chunks empty_buffer = Some Panic) /\
  (forall fuel, receive_read fuel (zero_block ty) empty_buffer = None) /\
  (let full := mkBuffer (take (Z.to_nat MaxNDNPacketSize) big) MaxNDNPacketSize in
   receive_read fuel [] full = Some (Ok ([], full))).
Proof.
  intros Hp Hlp Hbig Hlb Hhb Hty Hfuel.
  destruct fuel as [|[|[|fuel]]]; [lia..|]. unfold MaxNDNPacketSize in *. split_and!.
  - unfold receive_read, empty_buffer, MaxNDNPacketSize. cbn [startPos recvBuf]. change (Z.to_nat 0) with 0%nat. rewrite take_0. cbn [app].
    rewrite drop_ge by (rewrite length_replicate, length_app; cbn; lia). rewrite app_nil_r, Z.add_0_l, length_app. cbn [length].
    assert (Hsz : Z.of_nat (length p + 1) = 8800) by lia. rewrite Hsz. cbn [deframe]. change (8800 <? 8800) with false. change (8800 <=? 0) with false.
    cbn [Z.to_nat]. rewrite drop_0.
    destruct (decode_header p hp (length p) (p ++ [x]) [] Hp) as (t & l & ->); [destruct Hp; lia|by rewrite app_nil_r, take_app_length, take_ge|].
    rewrite Hlp. change (i64 (0 + (8800 - 1))) with 8799. change (8799 <=? 8800) with true. change (8799 <? 0) with false.
    change (8800 <=? 8799) with false.
    assert (Hl : Z.to_nat 8799 = length p) by lia. rewrite Hl, drop_app_length, decode_one_byte.
    change (8799 - 0) with 8799. by rewrite Hl, take_app_length.
  - repeat constructor; [exists 2%nat|exists 2%nat|exists 2%nat];
      (split; [cbn; lia|intros rest; eexists; eexists; reflexivity]).
  - exists [x00]. reflexivity.
  - vm_compute. reflexivity.
  - intros f. unfold receive_read, empty_buffer, MaxNDNPacketSize. cbn [startPos recvBuf]. change (Z.to_nat 0) with 0%nat.
    rewrite take_0. cbn [app]. by rewrite (zero_block_diverges f ty) by (done || cbn; lia).
  - unfold receive_read. cbn [startPos recvBuf length app]. rewrite Nat.add_0_r, take_drop, Z.add_0_r. cbn [Z.ltb Z.compare Pos.compare].
    unfold MaxNDNPacketSize. change (8800 <? 8800) with false. cbn [deframe]. change (8800 <=? 0) with false.
    change (Z.to_nat 0) with 0%nat. rewrite drop_0.
    destruct (decode_header big hbig (Z.to_nat 8800) (take (Z.to_nat 8800) big) [] Hbig) as (t & l & E); [lia|by rewrite app_nil_r, take_take, Nat.min_id|].
    rewrite E, Z.add_0_l, i64_small by lia. replace (Z.of_nat (length big) <=? 8800) with false by lia. reflexivity.
Qed.

Module StreamExamples.

(** Two packets in three reads, cut in their values. *)
Definition ex_packets : list (list byte) := [[x06; x03; x01; x02; x03]; [x05; x02; x0a; x0b]].
Definition ex_chunks : list (list byte) := [[x06; x03]; [x01; x02; x03; x05; x02; x0a]; [x0b]].

Lemma ex_header ty n : b2z ty <= 252 -> b2z n <= 252 -> forall v, length v = Z.to_nat (b2z n) -> header_of (ty :: n :: v) 2.
Proof.
  intros Ht Hn v Hv. pose proof (b2z_range ty). pose proof (b2z_range n). split; [cbn; lia|]. intros rest. cbn [take app].
  exists (b2z ty), (b2z n). unfold DecodeTypeLength. rewrite decode_small by done. cbn [outcome_bind drop].
  replace (0xFFFFFFFF <? b2z ty) with false by lia. rewrite ?drop_0, decode_small by done. cbn [outcome_bind].
  unfold u32. rewrite Z.mod_small, !i64_small by (rewrite ?i64_small by lia; lia). do 2 f_equal. cbn [length]. lia.
Qed.

Lemma unix_stream_frames_witness :
  exists b, receive_all 8801 ex_chunks empty_buffer = Some (Ok (ex_packets, b)) /\ startPos b = 0.
Proof.
  assert (H1 : header_of [x06; x03; x01; x02; x03] 2) by (apply ex_header; [vm_compute; discriminate..|reflexivity]).
  assert (H2 : header_of [x05; x02; x0a; x0b] 2) by (apply ex_header; [vm_compute; discriminate..|reflexivity]).
  apply (unix_stream_frames ex_packets ex_chunks 8801).
  - apply Forall_cons. split; [split; [unfold MaxNDNPacketSize; cbn; lia|by exists 2%nat]|].
    apply Forall_cons. split; [split; [unfold MaxNDNPacketSize; cbn; lia|by exists 2%nat]|constructor].
  - reflexivity.
  - cbn. split; [vm_compute; discriminate|]. split; [right; do 3 eexists; split; [reflexivity|split; [exact H1|lia]]|].
    split; [vm_compute; discriminate|]. split; [right; do 3 eexists; split; [reflexivity|split; [exact H2|lia]]|].
    split; [vm_compute; discriminate|]. split; [by left|done].
  - apply Nat.ltb_lt. vm_compute. reflexivity.
Defined.

Definition zeros (n : Z) : list byte := replicate (Z.to_nat n) x00.
Definition block_of (n : Z) : list byte := EncodeVarNum 6 ++ EncodeVarNum (Z.of_nat (length (zeros n))) ++ zeros n.

(** A packet that leaves one byte of the buffer, and one that exceeds it. *)
Lemma unix_stream_hazards_witness :
  receive_read 3 (block_of 8795 ++ [x06]) empty_buffer = Some (Ok ([block_of 8795], mkBuffer (block_of 8795 ++ [x06]) 0)) /\
  receive_read 3 (zero_block x06) empty_buffer = None.
Proof.
  assert (Hlen : forall n, 0 <= n -> Z.of_nat (length (zeros n)) = n) by (intros n Hn; unfold zeros; rewrite length_replicate; lia).
  assert (Hsize : forall n, 0 <= n -> Z.of_nat (length (block_of n)) = varSize 6 + varSize n + n).
  { intros n Hn. unfold block_of. rewrite !length_app, !Nat2Z.inj_add, !length_EncodeVarNum, Hlen by lia. lia. }
  assert (Hh : forall n, 0 <= n < 2 ^ 32 -> exists h, header_of (block_of n) h /\ Z.of_nat h <= 10).
  { intros n Hn. eexists. split; [apply stream_packet_block; [lia|]|].
    - fold (block_of n). rewrite Hsize by lia. unfold varSize. repeat case_match; lia.
    - rewrite Nat2Z.inj_add, !length_EncodeVarNum. unfold varSize. repeat case_match; lia. }
  destruct (Hh 8795) as (hp & Hp & _); [lia|]. destruct (Hh 9000) as (hb & Hb & Hb'); [lia|].
  destruct (unix_stream_hazards (block_of 8795) (block_of 9000) hp hb x06 x06 3 Hp) as (H1 & _ & H3 & _);
    [rewrite Hsize by lia; reflexivity|exact Hb|rewrite Hsize by lia; cbn; unfold MaxNDNPacketSize; lia|unfold MaxNDNPacketSize; lia|
     vm_compute; discriminate|lia|].
  split; [exact H1|exact (H3 3%nat)].
Defined.

End StreamExamples.
