(* ===== verification/Receive.v ===== *)
(** * Receive loops: face/multicast-udp-transport.go,
    face/multicast-ethernet-transport.go, face/web-socket-transport.go,
    face/null-transport.go

    What each loop makes of what it reads, one read after the other: datagrams of
    a multicast group, Ethernet frames of a packet capture, messages of a web
    socket.  The unicast transports' loops are in Sockets.v, the stream's in
    Stream.v.  The frames handed to the link service, which copies them, are
    returned. *)
From S2P Require Import Prelude.
From S2P Require Import Tlv Fw Uri Transport Sockets Stream.
Local Open Scope Z_scope.

(** A loop over what a round makes of each read: the transport, what is handed
    up, and whether the loop ended. *)
Section loop.
Context {T R : Type} (round : R -> T -> outcome (T * option (list byte) * bool)).

Fixpoint loop (reads : list R) (t : T) : outcome (T * list (list byte) * bool) :=
  match reads with
  | [] => Ok (t, [], false)
  | r :: reads =>
      let* (t1, frame, ended) := round r t in
      if ended : bool then Ok (t1, option_list frame, true)
      else let* (t2, frames, ended) := loop reads t1 in Ok (t2, option_list frame ++ frames, ended)
  end.

Lemma loop_cons r reads t t1 frame : round r t = Ok (t1, frame, false) ->
  loop (r :: reads) t = (let* (t2, frames, ended) := loop reads t1 in Ok (t2, option_list frame ++ frames, ended)).
Proof. intros E. cbn [loop]. by rewrite E. Qed.

Lemma loop_ends r reads t t1 frame : round r t = Ok (t1, frame, true) -> loop (r :: reads) t = Ok (t1, option_list frame, true).
Proof. intros E. cbn [loop]. by rewrite E. Qed.

Lemma loop_panics r reads t : round r t = Panic -> loop (r :: reads) t = Panic.
Proof. intros E. cbn [loop]. by rewrite E. Qed.

(** Rounds that leave the transport as [f] makes it. *)
Lemma loop_all (f : R -> T -> T) (out : R -> option (list byte)) (good : R -> Prop) reads more : forall t,
  (forall r t, good r -> round r t = Ok (f r t, out r, false)) -> Forall good reads ->
  loop (reads ++ more) t =
  (let* (t', frames, ended) := loop more (foldl (flip f) t reads) in Ok (t', omap out reads ++ frames, ended)).
Proof.
  induction reads as [|r reads IH]; intros t Hround Hgood; cbn [app foldl omap list_omap].
  - by destruct (loop more t) as [[[]]| |].
  - apply Forall_cons in Hgood as [Hr Hgood]. rewrite (loop_cons _ _ _ _ _ (Hround r t Hr)), IH by done. unfold flip at 2.
    destruct (loop more _) as [[[]]| |]; cbn; [|done|done]. by destruct (out r).
Qed.
End loop.

(** ** Multicast UDP *)

(** The transport, and whether it has a connection to receive from. *)
Record MulticastUDPTransport := mkMulticast { mt : FaceTransport; listening : bool }.

(** A round of [runReceive].  The buffer takes no more than its size of a
    datagram.  An error opens the connection anew ([redial]: whether that
    succeeds is not checked), and the round goes on with nothing read. *)
Definition multicast_round (r : read_result) (t : MulticastUDPTransport)
    : outcome (MulticastUDPTransport * option (list byte) * bool) :=
  match r with
  | ReadEOF => Ok (mkMulticast (changeState Down (mt t)).1 (listening t), None, true)
  | ReadError redial => Ok (mkMulticast (mt t) redial, None, false)
  | ReadData datagram =>
      let recvBuf := take (Z.to_nat MaxNDNPacketSize) datagram in
      let readSize := Z.of_nat (length recvBuf) in
      let t := mkMulticast (on_base (count_bytes readSize 0) (mt t)) (listening t) in
      if readSize <=? 0 then Ok (t, None, false)
      else
        match DecodeTypeLength recvBuf with
        | Ok (_, _, tlvSize) =>
            if tlvSize <=? readSize then
              if tlvSize <? 0 then Panic else Ok (t, Some (take (Z.to_nat tlvSize) recvBuf), false)
            else Ok (t, None, false)
        | Err _ => Ok (t, None, false)
        | Panic => Panic
        end
  end.
Definition multicast_runReceive := loop multicast_round.

(** [GetSendQueueSize] asks the connection it receives from; without one there
    is no raw connection either, and asking it panics. *)
Definition multicast_GetSendQueueSize (queued : Z) (t : MulticastUDPTransport) : outcome Z :=
  if listening t then Ok (u64 queued) else Panic.

(** ** Multicast Ethernet *)

(** What the loop selects: a captured frame (its payload; [None] when its link
    layer could not be decoded), the end of the capture, which closes the
    channel, [shouldQuit], [restartReceive]. *)
Inductive ethernet_event := Captured (ndnLayer : option (list byte)) | CaptureEnds | ShouldQuit | RestartReceive.

(** The link flow of a packet without a link layer, and the data of the nil
    packet of a closed channel, panic. *)
Definition ethernet_round (ev : ethernet_event) (t : FaceTransport) : outcome (FaceTransport * option (list byte) * bool) :=
  match ev with
  | Captured None | CaptureEnds => Panic
  | Captured (Some ndnLayer) =>
      let t := on_base (count_bytes (Z.of_nat (length ndnLayer)) 0) t in
      if MaxNDNPacketSize <? Z.of_nat (length ndnLayer) then Ok (t, None, false) else Ok (t, Some ndnLayer, false)
  | ShouldQuit => Ok (t, None, true)
  | RestartReceive => Ok (t, None, false)
  end.
Definition ethernet_runReceive := loop ethernet_round.

(** The transport with the address of its interface and the signals in
    [restartReceive], which has room for one. *)
Record EthernetTransport := mkEthernet { et : FaceTransport; localAddr : list byte; restarts : nat }.

(** [activateHandle]: [iface] is the address of the interface, [None] an error;
    [opened] says whether the capture could be opened.  The boolean says whether
    there was no error; [None] is a send on the full channel, which blocks. *)
Definition activateHandle (iface : option (list byte)) (opened : bool) (t : EthernetTransport) : option (EthernetTransport * bool) :=
  match iface with
  | None => Some (t, false)
  | Some addr =>
      if opened then
        if (restarts t <? 1)%nat then Some (mkEthernet (et t) addr (S (restarts t)), true) else None
      else Some (mkEthernet (et t) addr (restarts t), false)
  end.

(** [sendFrame] with what it does to the capture; the error is dropped. *)
Definition ethernet_send (written : bool) (iface : option (list byte)) (opened : bool) (frame : list byte) (t : EthernetTransport)
    : option EthernetTransport :=
  if over_mtu frame (et t) then Some t
  else if written then Some (mkEthernet (count_sent frame (et t)) (localAddr t) (restarts t))
  else fst <$> activateHandle iface opened t.

(** It does to the transport what Sockets.v says, and blocks only when the loop
    has not seen the last restart. *)
Lemma ethernet_send_spec written iface opened frame t :
  match ethernet_send written iface opened frame t with
  | Some t' => et t' = ethernet_sendFrame written frame (et t)
  | None => written = false /\ opened = true /\ (0 < restarts t)%nat /\ ethernet_sendFrame written frame (et t) = et t
  end.
Proof.
  unfold ethernet_send, ethernet_sendFrame, activateHandle. destruct (over_mtu _ _); [done|]. destruct written; [done|].
  destruct iface as [addr|]; [|done]. destruct opened; [|done]. destruct (Nat.ltb_spec (restarts t) 1); cbn; [done|].
  split_and!; [done|done|lia|done].
Qed.

(** ** Web sockets *)

(** [ReadMessage]: a message, binary or not, or an error. *)
Inductive message_read := Message (binary : bool) (message : list byte) | MessageError.

Definition websocket_round (r : message_read) (t : FaceTransport) : outcome (FaceTransport * option (list byte) * bool) :=
  match r with
  | MessageError => Ok ((changeState Down t).1, None, true)
  | Message false _ => Ok (t, None, false)
  | Message true message =>
      let t := on_base (count_bytes (Z.of_nat (length message)) 0) t in
      if MaxNDNPacketSize <? Z.of_nat (length message) then Ok (t, None, false) else Ok (t, Some message, false)
  end.
Definition websocket_runReceive := loop websocket_round.

(** ** Counting *)

Definition received_bytes (n : Z) (t : FaceTransport) : FaceTransport := on_base (count_bytes n 0) t.
Definition counters_ok (t : FaceTransport) : Prop := 0 <= nInBytes (tbase t) < 2 ^ 64 /\ 0 <= nOutBytes (tbase t) < 2 ^ 64.

Lemma received_0 t : counters_ok t -> received_bytes 0 t = t.
Proof.
  intros [Hi Ho]. destruct t as [k [fid r l s p lt m e st ni no] c]. unfold received_bytes, on_base, count_bytes. cbn in *.
  unfold u64. by rewrite !Z.add_0_r, !Z.mod_small by lia.
Qed.

Lemma received_add n m t : received_bytes m (received_bytes n t) = received_bytes (n + m) t.
Proof.
  destruct t as [k [fid r l s p lt mt e st ni no] c]. unfold received_bytes, on_base, count_bytes. cbn. unfold u64.
  rewrite !Z.add_0_r, Zplus_mod_idemp_l, Zmod_mod. do 2 f_equal. f_equal. lia.
Qed.

Lemma foldl_received {R} (size : R -> Z) l : forall n t,
  foldl (fun t r => received_bytes (size r) t) (received_bytes n t) l = received_bytes (n + foldr (fun r => Z.add (size r)) 0 l) t.
Proof.
  induction l as [|r l IH]; intros n t; cbn [foldl foldr]; [by rewrite Z.add_0_r|]. rewrite received_add, IH. f_equal. lia.
Qed.

(** Bytes of some reads. *)
Definition total (l : list (list byte)) : Z := foldr (fun d => Z.add (Z.of_nat (length d))) 0 l.

Lemma foldl_received_0 l t : counters_ok t -> foldl (fun t d => received_bytes (Z.of_nat (length d)) t) t l = received_bytes (total l) t.
Proof. intros Ht. rewrite <- (received_0 t) at 1 by done. by rewrite foldl_received. Qed.

(** ** What is handed up *)

Definition fits (frame : list byte) : bool := Z.of_nat (length frame) <=? MaxNDNPacketSize.

(** What the multicast loop makes of a datagram: it begins with a packet, which
    is handed up without what follows; or with a part of one, or with no TLV
    header, and is dropped. *)
Inductive datagram : list byte -> option (list byte) -> Prop :=
| begins p h rest : header_of p h -> fits p = true -> datagram (p ++ rest) (Some p)
| cut_off p h d rest : header_of p h -> p = d ++ rest -> (h <= length d)%nat -> rest <> [] -> fits d = true -> datagram d None
| too_long p h rest : header_of p h -> Z.of_nat h <= MaxNDNPacketSize -> fits p = false -> datagram (p ++ rest) None
| no_header d e : DecodeTypeLength (take (Z.to_nat MaxNDNPacketSize) d) = Err e -> datagram d None.

(** The header is read whatever follows the first [h] bytes. *)
Lemma decode_beginning p h d : header_of p h -> take h d = take h p -> exists ty len, DecodeTypeLength d = Ok (ty, len, Z.of_nat (length p)).
Proof. intros [_ Hh] E. destruct (Hh (drop h d)) as (ty & len & E'). exists ty, len. by rewrite <- E', <- E, take_drop. Qed.

Definition cut_to_buffer (d : list byte) : list byte := take (Z.to_nat MaxNDNPacketSize) d.

Lemma fits_spec d : fits d = true <-> (length d <= Z.to_nat MaxNDNPacketSize)%nat.
Proof. unfold fits, MaxNDNPacketSize. rewrite Z.leb_le. lia. Qed.

(** What the loop reads of such a datagram, and what it makes of that. *)
Lemma datagram_read d out : datagram d out -> cut_to_buffer d <> [] ->
  match DecodeTypeLength (cut_to_buffer d) with
  | Ok (_, _, tlvSize) =>
      0 <= tlvSize /\ out = if tlvSize <=? Z.of_nat (length (cut_to_buffer d)) then Some (take (Z.to_nat tlvSize) (cut_to_buffer d)) else None
  | Err _ => out = None
  | Panic => False
  end.
Proof.
  intros Hd Hne. unfold cut_to_buffer in *.
  destruct Hd as [p h rest Hh Hf%fits_spec|p h d rest Hh -> Hle Hr Hf%fits_spec|p h rest Hh Hle Hf|d e E].
  - rewrite take_app_ge in * by done. destruct (decode_beginning p h (p ++ take (Z.to_nat MaxNDNPacketSize - length p) rest) Hh)
      as (ty & len & ->); [apply take_app_le, Hh|]. split; [lia|].
    rewrite (proj2 (Z.leb_le _ _)) by (rewrite length_app; lia). by rewrite Nat2Z.id, take_app_length.
  - rewrite take_ge in * by done. destruct (decode_beginning (d ++ rest) h d Hh) as (ty & len & ->); [by rewrite take_app_le|].
    split; [lia|]. rewrite (proj2 (Z.leb_gt _ _)); [done|]. rewrite length_app. destruct rest; [done|cbn; lia].
  - assert (Hn : (Z.to_nat MaxNDNPacketSize < length p)%nat).
    { pose proof (fits_spec p) as Hs. rewrite Hf in Hs. destruct (Nat.lt_ge_cases (Z.to_nat MaxNDNPacketSize) (length p)); [done|]. by apply Hs in H. }
    rewrite take_app_le in * by lia. destruct (decode_beginning p h (take (Z.to_nat MaxNDNPacketSize) p) Hh) as (ty & len & ->).
    { rewrite take_take. f_equal. lia. }
    split; [lia|]. rewrite (proj2 (Z.leb_gt _ _)); [done|]. rewrite length_take. lia.
  - by rewrite E.
Qed.

Lemma multicast_datagram d out t : datagram d out ->
  multicast_round (ReadData d) t =
  Ok (mkMulticast (received_bytes (Z.of_nat (length (cut_to_buffer d))) (mt t)) (listening t), out, false).
Proof.
  intros Hd. cbn [multicast_round]. fold (cut_to_buffer d). fold (received_bytes (Z.of_nat (length (cut_to_buffer d))) (mt t)).
  destruct (Z.leb_spec (Z.of_nat (length (cut_to_buffer d))) 0) as [H0|H0].
  - assert (E : d = []).
    { unfold cut_to_buffer, MaxNDNPacketSize in H0. rewrite length_take in H0. destruct d; [done|cbn in H0; lia]. }
    do 3 f_equal. destruct Hd as [p h rest Hh Hf|p h d rest Hh E1 Hle Hne Hf|p h rest Hh Hle Hf|]; try done.
    apply (f_equal length) in E. rewrite length_app in E. destruct Hh as [Hh _]. cbn in E. lia.
  - pose proof (datagram_read d out Hd) as Hr. destruct (DecodeTypeLength (cut_to_buffer d)) as [[[ty len] n]|e|].
    + destruct Hr as [Hn ->]; [by destruct (cut_to_buffer d)|]. destruct (n <=? _); [|done]. by replace (n <? 0) with false by lia.
    + by rewrite Hr by (by destruct (cut_to_buffer d)).
    + by destruct Hr; destruct (cut_to_buffer d).
Qed.

Lemma multicast_datagrams ds outs more : Forall2 datagram ds outs -> forall t, counters_ok (mt t) ->
  multicast_runReceive (map ReadData ds ++ more) t =
  (let* (t', frames, ended) := multicast_runReceive more (mkMulticast (received_bytes (total (map cut_to_buffer ds)) (mt t)) (listening t)) in
   Ok (t', omap id outs ++ frames, ended)).
Proof.
  unfold multicast_runReceive. intros Hds t Ht.
  assert (H : loop multicast_round (map ReadData ds ++ more) t =
    (let* (t', frames, ended) := loop multicast_round more
       (mkMulticast (foldl (fun t d => received_bytes (Z.of_nat (length d)) t) (mt t) (map cut_to_buffer ds)) (listening t)) in
     Ok (t', omap id outs ++ frames, ended))).
  { clear Ht. revert t. induction Hds as [|d out ds outs Hd _ IH]; intros t; cbn [map app foldl omap list_omap].
    - destruct t. by destruct (loop multicast_round more _) as [[[]]| |].
    - rewrite (loop_cons _ _ _ _ _ _ (multicast_datagram d out t Hd)), IH. cbn [mt listening].
      destruct (loop multicast_round more _) as [[[]]| |]; cbn; [|done|done]. by destruct out. }
  by rewrite H, foldl_received_0.
Qed.

Lemma ethernet_frames payloads more t : counters_ok t ->
  ethernet_runReceive (map (fun p => Captured (Some p)) payloads ++ more) t =
  (let* (t', frames, ended) := ethernet_runReceive more (received_bytes (total payloads) t) in
   Ok (t', filter fits payloads ++ frames, ended)).
Proof.
  intros Ht. rewrite <- (foldl_received_0 payloads t Ht). clear Ht. unfold ethernet_runReceive. revert t.
  induction payloads as [|p ps IH]; intros t; cbn [map app foldl].
  - by destruct (loop ethernet_round more t) as [[[]]| |].
  - rewrite (loop_cons _ _ _ _ (received_bytes (Z.of_nat (length p)) t) (if fits p then Some p else None)).
    + rewrite IH. destruct (loop ethernet_round more _) as [[[]]| |]; cbn [outcome_bind]; [|done|done]. rewrite filter_cons. by destruct (fits p).
    + cbn [ethernet_round]. unfold fits. rewrite Z.ltb_antisym. by destruct (_ <=? _).
Qed.

(** The binary messages among some. *)
Definition binary_messages (ms : list (bool * list byte)) : list (list byte) := omap (fun '(binary, m) => if binary : bool then Some m else None) ms.

Lemma websocket_messages ms more t : counters_ok t ->
  websocket_runReceive (map (fun '(binary, m) => Message binary m) ms ++ more) t =
  (let* (t', frames, ended) := websocket_runReceive more (received_bytes (total (binary_messages ms)) t) in
   Ok (t', filter fits (binary_messages ms) ++ frames, ended)).
Proof.
  intros Ht. rewrite <- (foldl_received_0 (binary_messages ms) t Ht). clear Ht. unfold websocket_runReceive. revert t.
  induction ms as [|[[|] m] ms IH]; intros t; cbn [map app foldl binary_messages omap list_omap].
  - by destruct (loop websocket_round more t) as [[[]]| |].
  - fold (binary_messages ms). rewrite (loop_cons _ _ _ _ (received_bytes (Z.of_nat (length m)) t) (if fits m then Some m else None)).
    + rewrite IH. cbn [foldl]. destruct (loop websocket_round more _) as [[[]]| |]; cbn [outcome_bind]; [|done|done]. rewrite filter_cons. by destruct (fits m).
    + cbn [websocket_round]. unfold fits. rewrite Z.ltb_antisym. by destruct (_ <=? _).
  - fold (binary_messages ms). rewrite (loop_cons _ _ _ _ t None) by done. rewrite IH. by destruct (loop websocket_round more _) as [[[]]| |].
Qed.

(** C27: what the receive loops hand up.  Of the datagrams of a multicast group
    the packets they begin with, whole, once and in order, and nothing of a
    datagram that is cut off, too long or has no header; of an Ethernet capture
    the payloads that are not too long, until the loop is told to quit; of a web
    socket the binary messages that are not too long, until the first error,
    which takes the face down and removes it.  The bytes are counted, and the
    transport stays as it was otherwise. *)
Theorem receive_loops t : counters_ok t ->
  (forall l ds outs, Forall2 datagram ds outs ->
    multicast_runReceive (map ReadData ds) (mkMulticast t l) =
    Ok (mkMulticast (received_bytes (total (map cut_to_buffer ds)) t) l, omap id outs, false)) /\
  (forall payloads later, ethernet_runReceive (map (fun p => Captured (Some p)) payloads ++ ShouldQuit :: later) t =
    Ok (received_bytes (total payloads) t, filter fits payloads, true)) /\
  (forall ms later, state (tbase t) = Up -> exists t',
    websocket_runReceive (map (fun '(binary, m) => Message binary m) ms ++ MessageError :: later) t =
      Ok (t', filter fits (binary_messages ms), true) /\
    changeState Down (received_bytes (total (binary_messages ms)) t) = (t', true) /\ state (tbase t') = Down).
Proof.
  intros Ht. split; [|split].
  - intros l ds outs Hds. rewrite <- (app_nil_r (map ReadData ds)), (multicast_datagrams ds outs [] Hds) by done.
    cbn. by rewrite app_nil_r.
  - intros payloads later. rewrite ethernet_frames by done. cbn. by rewrite app_nil_r.
  - intros ms later Hup. exists (changeState Down (received_bytes (total (binary_messages ms)) t)).1. rewrite websocket_messages by done.
    unfold websocket_runReceive. erewrite loop_ends by done. cbn [outcome_bind option_list]. rewrite app_nil_r. split; [done|].
    destruct (changeState_cases Down (received_bytes (total (binary_messages ms)) t)) as [c ->].
    rewrite decide_False by (cbn; by rewrite Hup). done.
Qed.

(** ** Hazards *)

(** A datagram whose length field is 2^64 - 16. *)
Definition negative_size (ty : byte) : list byte := [ty; xff; xff; xff; xff; xff; xff; xff; xff; xf0].

Lemma decode_negative_size ty : b2z ty <= 252 -> exists len, DecodeTypeLength (negative_size ty) = Ok (b2z ty, len, -6).
Proof.
  intros Ht. pose proof (b2z_range ty). unfold DecodeTypeLength, negative_size. rewrite decode_small by done.
  cbn [outcome_bind drop]. replace (0xFFFFFFFF <? b2z ty) with false by lia.
  change (DecodeVarNum (drop 0 [xff; xff; xff; xff; xff; xff; xff; xff; xf0])) with (Ok (2 ^ 64 - 16, 9%nat)).
  cbn [outcome_bind]. assert (Hu : u32 (b2z ty) = b2z ty) by (apply Z.mod_small; lia). rewrite Hu. by eexists.
Qed.

(** What the loops do not survive.  A datagram of the group of ten bytes
    whose length field is close to 2^64 stops the process: the size of the packet
    is negative.  So does the end of a capture, or a frame whose link layer is
    not decoded.  The loop of a multicast face does not end when the face is
    closed: the read that fails then opens the connection anew, and what arrives
    is handed up as before; and when that fails, the next question for the length
    of the send queue stops the process. *)
Lemma receive_hazards t more reads :
  (forall l ty, b2z ty <= 252 -> multicast_runReceive (ReadData (negative_size ty) :: more) (mkMulticast t l) = Panic) /\
  ethernet_runReceive (CaptureEnds :: reads) t = Panic /\ ethernet_runReceive (Captured None :: reads) t = Panic /\
  (counters_ok t -> forall l ds outs, Forall2 datagram ds outs ->
    multicast_runReceive (ReadError true :: map ReadData ds) (mkMulticast (changeState Down t).1 l) =
    Ok (mkMulticast (received_bytes (total (map cut_to_buffer ds)) (changeState Down t).1) true, omap id outs, false)) /\
  (forall l queued, exists t', multicast_runReceive [ReadError false] (mkMulticast t l) = Ok (t', [], false) /\
    multicast_GetSendQueueSize queued t' = Panic).
Proof.
  split; [|split; [|split; [|split]]].
  - intros l ty Hty. apply loop_panics. unfold multicast_round. change (take (Z.to_nat MaxNDNPacketSize) (negative_size ty)) with (negative_size ty).
    change (Z.of_nat (length (negative_size ty))) with 10. by destruct (decode_negative_size ty Hty) as (len & ->).
  - done.
  - done.
  - intros Ht l ds outs Hds. unfold multicast_runReceive. erewrite loop_cons by done.
    rewrite <- (app_nil_r (map ReadData ds)). fold multicast_runReceive. rewrite (multicast_datagrams ds outs [] Hds).
    + cbn. by rewrite app_nil_r.
    + cbn. destruct (changeState_cases Down t) as [c ->]. by case_decide.
  - intros l queued. by eexists.
Qed.

(** ** Witnesses *)

Module ReceiveExamples.
#[local] Existing Instance UriExamples.ex_env.
Definition ex_transport : FaceTransport :=
  (changeState Up (mkFT MulticastUDP (makeTransportBase MakeNullFaceURI MakeNullFaceURI PersistencyPermanent NonLocal MultiAccess MaxNDNPacketSize) false)).1.

(** A block of two bytes of value, and its header. *)
Definition ex_packet : list byte := [x05; x02; x07; x00].
Lemma packet_header : header_of ex_packet 2.
Proof.
  pose proof (stream_packet_block 5 [x07; x00] ltac:(lia) ltac:(vm_compute; reflexivity)) as Hh. exact Hh.
Qed.

(** A packet with a byte behind it, a part of a packet, a byte. *)
Lemma receive_loops_witness :
  multicast_runReceive (map ReadData [ex_packet ++ [x00]; [x05; x02; x07]; [x05]]) (mkMulticast ex_transport true) =
    Ok (mkMulticast (received_bytes 9 ex_transport) true, [ex_packet], false) /\
  ethernet_runReceive [Captured (Some ex_packet); ShouldQuit; CaptureEnds] ex_transport =
    Ok (received_bytes 4 ex_transport, [ex_packet], true).
Proof.
  destruct (receive_loops ex_transport) as (Hm & He & _); [split; vm_compute; split; congruence|]. split.
  - apply (Hm true [ex_packet ++ [x00]; [x05; x02; x07]; [x05]] [Some ex_packet; None; None]).
    constructor; [apply (begins ex_packet 2 [x00] packet_header); reflexivity|].
    constructor; [apply (cut_off ex_packet 2 [x05; x02; x07] [x00] packet_header); [reflexivity|cbn; lia|discriminate|reflexivity]|].
    constructor; [|constructor]. eapply no_header. reflexivity.
  - apply (He [ex_packet] [CaptureEnds]).
Defined.
End ReceiveExamples.
