(* ===== verification/LinkService.v ===== *)
(** * The NDNLPv2 link service: face/ndnlp-link-service.go, face/link-service.go

    The way of a packet from the forwarder to the transport (fragmentation,
    sequence numbers, congestion marks, acknowledgement tracking, the send
    mutex) and of a frame from the transport to the forwarding threads
    (reassembly, link fields, dispatch by name hash or PIT token).

    The codec of go-ndn ([spec.ReadPacket], [spec.PacketEncoder]) and its wires
    ([enc.Wire], [enc.WireReader]) are a parameter ([LpCodec]); [LpCodecLaws]
    is what the code relies on: a wire is a sequence of buffers, and reading
    the encoding of a link packet gives its fields back.

    A call runs to its end, to a blocking operation or to a panic ([finish]
    inside [outcome]); what runs concurrently (one goroutine per packet and per
    frame) is a sequence of such calls.  [held] is the state of
    [sendFrameMutex]. *)
From S2P Require Import Prelude.
From S2P Require Import Enc Packet Fw Transport.
From stdpp Require Import sorting.

(** ** Link packets *)

(** [enc.Wire] is a slice of buffers. *)
Definition Wire := list (list byte).

(** [spec.LpPacket]; [LpCachePolicy] is [CachePolicy.CachePolicyType]. *)
Record LpPacket := mkLp {
  Sequence : option Z;
  FragIndex : option Z;
  FragCount : option Z;
  LpPitToken : list byte;
  NextHopFaceId : option Z;
  IncomingFaceId : option Z;
  LpCachePolicy : option Z;
  LpCongestionMark : option Z;
  Ack : option Z;
  TxSequence : option Z;
  Fragment : Wire }.

Definition no_lp : LpPacket := mkLp None None None [] None None None None None None [].
Definition lp_of_fragment (w : Wire) : LpPacket := mkLp None None None [] None None None None None None w.
Definition set_Sequence (s : Z) (p : LpPacket) : LpPacket :=
  mkLp (Some s) (FragIndex p) (FragCount p) (LpPitToken p) (NextHopFaceId p) (IncomingFaceId p) (LpCachePolicy p)
    (LpCongestionMark p) (Ack p) (TxSequence p) (Fragment p).
Definition set_TxSequence (s : Z) (p : LpPacket) : LpPacket :=
  mkLp (Sequence p) (FragIndex p) (FragCount p) (LpPitToken p) (NextHopFaceId p) (IncomingFaceId p) (LpCachePolicy p)
    (LpCongestionMark p) (Ack p) (Some s) (Fragment p).
Definition set_LpPitToken (t : list byte) (p : LpPacket) : LpPacket :=
  mkLp (Sequence p) (FragIndex p) (FragCount p) t (NextHopFaceId p) (IncomingFaceId p) (LpCachePolicy p)
    (LpCongestionMark p) (Ack p) (TxSequence p) (Fragment p).
Definition set_IncomingFaceId (f : option Z) (p : LpPacket) : LpPacket :=
  mkLp (Sequence p) (FragIndex p) (FragCount p) (LpPitToken p) (NextHopFaceId p) f (LpCachePolicy p)
    (LpCongestionMark p) (Ack p) (TxSequence p) (Fragment p).
Definition set_LpCongestionMark (m : option Z) (p : LpPacket) : LpPacket :=
  mkLp (Sequence p) (FragIndex p) (FragCount p) (LpPitToken p) (NextHopFaceId p) (IncomingFaceId p) (LpCachePolicy p)
    m (Ack p) (TxSequence p) (Fragment p).
Definition set_Ack (a : option Z) (p : LpPacket) : LpPacket :=
  mkLp (Sequence p) (FragIndex p) (FragCount p) (LpPitToken p) (NextHopFaceId p) (IncomingFaceId p) (LpCachePolicy p)
    (LpCongestionMark p) a (TxSequence p) (Fragment p).
Definition set_NextHopFaceId (f : option Z) (p : LpPacket) : LpPacket :=
  mkLp (Sequence p) (FragIndex p) (FragCount p) (LpPitToken p) f (IncomingFaceId p) (LpCachePolicy p)
    (LpCongestionMark p) (Ack p) (TxSequence p) (Fragment p).

(** [spec.Packet]. *)
Record SpecPacket := mkSpec { sp_interest : option Interest; sp_data : option Data; sp_lp : option LpPacket }.
Definition lp_packet (p : LpPacket) : SpecPacket := mkSpec None None (Some p).

(** The network packet in it, as the code's [switch] and [if] read it. *)
Definition net_of (s : SpecPacket) : option EncPacket :=
  match sp_interest s, sp_data s with
  | Some i, _ => Some (EncInterest i)
  | None, Some d => Some (EncData d)
  | None, None => None
  end.

(** The calls into go-ndn: [None] is an error, a nil wire, or too few bytes. *)
Class LpCodec := {
  ReadPacket : Wire -> option SpecPacket;
  EncodePacket : SpecPacket -> option Wire;
  Wire_Length : Wire -> Z;
  Wire_Join : Wire -> list byte;
  ReadWire : Wire -> Z -> option (Wire * Wire);
  Name_String : Name -> list byte }.

(** The fields of a packet the encoder can represent. *)
Definition u64_field (v : option Z) : Prop := from_option (fun z => 0 <= z < 2 ^ 64)%Z True v.
Definition lp_ok (p : LpPacket) : Prop :=
  u64_field (Sequence p) /\ u64_field (FragIndex p) /\ u64_field (FragCount p) /\ u64_field (NextHopFaceId p) /\
  u64_field (IncomingFaceId p) /\ u64_field (LpCachePolicy p) /\ u64_field (LpCongestionMark p) /\ u64_field (Ack p) /\
  u64_field (TxSequence p) /\ concat (Fragment p) <> [].

Definition with_fragment (w : Wire) (p : LpPacket) : LpPacket :=
  mkLp (Sequence p) (FragIndex p) (FragCount p) (LpPitToken p) (NextHopFaceId p) (IncomingFaceId p) (LpCachePolicy p)
    (LpCongestionMark p) (Ack p) (TxSequence p) w.

Class LpCodecLaws `{LpCodec} := {
  Wire_Length_spec : forall w, Wire_Length w = Z.of_nat (length (concat w));
  Wire_Join_spec : forall w, Wire_Join w = concat w;
  ReadWire_spec : forall w n, (0 <= n <= Z.of_nat (length (concat w)))%Z ->
    exists a b, ReadWire w n = Some (a, b) /\ concat a = take (Z.to_nat n) (concat w) /\
      concat b = drop (Z.to_nat n) (concat w);
  EncodePacket_lp : forall p, lp_ok p -> exists w w', EncodePacket (lp_packet p) = Some w /\
    ReadPacket [concat w] = Some (lp_packet (with_fragment w' p)) /\ concat w' = concat (Fragment p);
  ReadPacket_net : forall w w', concat w = concat w' -> option_map net_of (ReadPacket w) = option_map net_of (ReadPacket w') }.

(** ** State *)

(** [partialMessageStore]. *)
Abbreviation store := (gmap Z (list (list byte))) (only parsing).

Record Options := mkOptions {
  IsFragmentationEnabled : bool;
  IsReassemblyEnabled : bool;
  IsReliabilityEnabled : bool;
  MaxRetransmissions : Z;
  ReservedAckSpace : Z;
  IsConsumerControlledForwardingEnabled : bool;
  IsIncomingFaceIndicationEnabled : bool;
  IsLocalCachePolicyEnabled : bool;
  IsCongestionMarkingEnabled : bool;
  BaseCongestionMarkingInterval : Z;
  DefaultCongestionThresholdBytes : Z }.

(** Nanoseconds and bytes. *)
Definition MakeNDNLPLinkServiceOptions : Options :=
  mkOptions false false false 0 0 false false false false (100 * 1000000) (2 ^ 16).

Definition FaceFlagLocalFields : Z := 1.
Definition FaceFlagLpReliabilityEnabled : Z := 2.
Definition FaceFlagCongestionMarking : Z := 4.

Definition Flags (o : Options) : Z :=
  Z.lor (Z.lor (if IsConsumerControlledForwardingEnabled o then FaceFlagLocalFields else 0)
               (if IsReliabilityEnabled o then FaceFlagLpReliabilityEnabled else 0))
        (if IsCongestionMarkingEnabled o then FaceFlagCongestionMarking else 0).

Definition lpPacketOverhead : Z := 1 + 3.
Definition pitTokenOverhead : Z := 1 + 1 + 6.
Definition congestionMarkOverhead : Z := 3 + 1 + 8.
Definition ackOverhead : Z := 3 + 1 + 8.

(** [computeHeaderOverhead], in Go's [int]. *)
Definition computeHeaderOverhead (o : Options) : Z :=
  i64 (lpPacketOverhead +
    (if IsFragmentationEnabled o || IsReliabilityEnabled o then 1 + 1 + 8 else 0) +
    (if IsFragmentationEnabled o then 1 + 1 + 2 + 1 + 1 + 2 else 0) +
    (if IsReliabilityEnabled o then (3 + 1 + 8) + (3 + 1 + 8) * ReservedAckSpace o else 0) +
    (if IsIncomingFaceIndicationEnabled o then 3 + 1 + 8 else 0))%Z.

(** [ndnlpUnacknowledgedFrame]. *)
Record UnackFrame := mkUnackFrame { ua_frame : LpPacket; ua_netPacket : Z; numRetransmissions : Z; sentTime : Z }.

(** [unacknowledgedFragments] is a Go map, nil in a new value. *)
Definition go_set := option (gset Z).
Definition set_write (k : Z) (s : go_set) : outcome go_set :=
  match s with None => Panic | Some s => Ok (Some ({[k]} ∪ s)) end.

Record LinkService (T : Type) := mkLink {
  faceID : Z;
  transport : T;
  options : Options;
  headerOverhead : Z;
  partialMessageStore : gmap Z (list (list byte));
  pendingAcksToSend : list Z;
  nextSequence : Z;
  unacknowledgedFrames : gmap Z UnackFrame;
  unacknowledgedPackets : gmap Z go_set;
  retransmitQueue : list Z;
  rto : Z;
  nextTxSequence : Z;
  lastTimeCongestionMarked : Z;
  held : bool;
  l_sendQueue : list nat;
  nInInterests : Z;
  nInData : Z;
  nOutInterests : Z;
  nOutData : Z }.
Arguments mkLink {T}.
Arguments faceID {T}. Arguments transport {T}. Arguments options {T}. Arguments headerOverhead {T}.
Arguments partialMessageStore {T}. Arguments pendingAcksToSend {T}. Arguments nextSequence {T}.
Arguments unacknowledgedFrames {T}. Arguments unacknowledgedPackets {T}. Arguments retransmitQueue {T}.
Arguments rto {T}. Arguments nextTxSequence {T}. Arguments lastTimeCongestionMarked {T}. Arguments held {T}.
Arguments l_sendQueue {T}. Arguments nInInterests {T}. Arguments nInData {T}. Arguments nOutInterests {T}.
Arguments nOutData {T}.

(** How a call stops: it returned, it waits for ever, or it offers the quit
    signal to [Run] and returns. *)
Inductive finish := Returns | Blocks | OffersQuit.

(** ** Updates of one or two fields *)

Section setters.
Context {T : Type}.

Definition set_transport (x0 : T) (l : LinkService T) : LinkService T :=
  mkLink (faceID l) x0 (options l) (headerOverhead l) (partialMessageStore l) (pendingAcksToSend l) (nextSequence l)
    (unacknowledgedFrames l) (unacknowledgedPackets l) (retransmitQueue l) (rto l) (nextTxSequence l)
    (lastTimeCongestionMarked l) (held l) (l_sendQueue l) (nInInterests l) (nInData l) (nOutInterests l) (nOutData
    l).
Definition set_options (x0 : Options) (x1 : Z) (l : LinkService T) : LinkService T :=
  mkLink (faceID l) (transport l) x0 x1 (partialMessageStore l) (pendingAcksToSend l) (nextSequence l)
    (unacknowledgedFrames l) (unacknowledgedPackets l) (retransmitQueue l) (rto l) (nextTxSequence l)
    (lastTimeCongestionMarked l) (held l) (l_sendQueue l) (nInInterests l) (nInData l) (nOutInterests l) (nOutData
    l).
Definition set_store (x0 : gmap Z (list (list byte))) (l : LinkService T) : LinkService T :=
  mkLink (faceID l) (transport l) (options l) (headerOverhead l) x0 (pendingAcksToSend l) (nextSequence l)
    (unacknowledgedFrames l) (unacknowledgedPackets l) (retransmitQueue l) (rto l) (nextTxSequence l)
    (lastTimeCongestionMarked l) (held l) (l_sendQueue l) (nInInterests l) (nInData l) (nOutInterests l) (nOutData
    l).
Definition set_acks (x0 : list Z) (l : LinkService T) : LinkService T :=
  mkLink (faceID l) (transport l) (options l) (headerOverhead l) (partialMessageStore l) x0 (nextSequence l)
    (unacknowledgedFrames l) (unacknowledgedPackets l) (retransmitQueue l) (rto l) (nextTxSequence l)
    (lastTimeCongestionMarked l) (held l) (l_sendQueue l) (nInInterests l) (nInData l) (nOutInterests l) (nOutData
    l).
Definition set_nextSequence (x0 : Z) (l : LinkService T) : LinkService T :=
  mkLink (faceID l) (transport l) (options l) (headerOverhead l) (partialMessageStore l) (pendingAcksToSend l) x0
    (unacknowledgedFrames l) (unacknowledgedPackets l) (retransmitQueue l) (rto l) (nextTxSequence l)
    (lastTimeCongestionMarked l) (held l) (l_sendQueue l) (nInInterests l) (nInData l) (nOutInterests l) (nOutData
    l).
Definition set_unack (x0 : gmap Z UnackFrame) (x1 : gmap Z go_set) (l : LinkService T) : LinkService T :=
  mkLink (faceID l) (transport l) (options l) (headerOverhead l) (partialMessageStore l) (pendingAcksToSend l)
    (nextSequence l) x0 x1 (retransmitQueue l) (rto l) (nextTxSequence l) (lastTimeCongestionMarked l) (held l)
    (l_sendQueue l) (nInInterests l) (nInData l) (nOutInterests l) (nOutData l).
Definition set_retransmitQueue (x0 : list Z) (l : LinkService T) : LinkService T :=
  mkLink (faceID l) (transport l) (options l) (headerOverhead l) (partialMessageStore l) (pendingAcksToSend l)
    (nextSequence l) (unacknowledgedFrames l) (unacknowledgedPackets l) x0 (rto l) (nextTxSequence l)
    (lastTimeCongestionMarked l) (held l) (l_sendQueue l) (nInInterests l) (nInData l) (nOutInterests l) (nOutData
    l).
Definition set_nextTxSequence (x0 : Z) (l : LinkService T) : LinkService T :=
  mkLink (faceID l) (transport l) (options l) (headerOverhead l) (partialMessageStore l) (pendingAcksToSend l)
    (nextSequence l) (unacknowledgedFrames l) (unacknowledgedPackets l) (retransmitQueue l) (rto l) x0
    (lastTimeCongestionMarked l) (held l) (l_sendQueue l) (nInInterests l) (nInData l) (nOutInterests l) (nOutData
    l).
Definition set_marked (x0 : Z) (l : LinkService T) : LinkService T :=
  mkLink (faceID l) (transport l) (options l) (headerOverhead l) (partialMessageStore l) (pendingAcksToSend l)
    (nextSequence l) (unacknowledgedFrames l) (unacknowledgedPackets l) (retransmitQueue l) (rto l)
    (nextTxSequence l) x0 (held l) (l_sendQueue l) (nInInterests l) (nInData l) (nOutInterests l) (nOutData l).
Definition set_held (x0 : bool) (l : LinkService T) : LinkService T :=
  mkLink (faceID l) (transport l) (options l) (headerOverhead l) (partialMessageStore l) (pendingAcksToSend l)
    (nextSequence l) (unacknowledgedFrames l) (unacknowledgedPackets l) (retransmitQueue l) (rto l)
    (nextTxSequence l) (lastTimeCongestionMarked l) x0 (l_sendQueue l) (nInInterests l) (nInData l) (nOutInterests
    l) (nOutData l).
Definition set_sendQueue (x0 : list nat) (l : LinkService T) : LinkService T :=
  mkLink (faceID l) (transport l) (options l) (headerOverhead l) (partialMessageStore l) (pendingAcksToSend l)
    (nextSequence l) (unacknowledgedFrames l) (unacknowledgedPackets l) (retransmitQueue l) (rto l)
    (nextTxSequence l) (lastTimeCongestionMarked l) (held l) x0 (nInInterests l) (nInData l) (nOutInterests l)
    (nOutData l).
Definition count_in (x0 : Z) (x1 : Z) (l : LinkService T) : LinkService T :=
  mkLink (faceID l) (transport l) (options l) (headerOverhead l) (partialMessageStore l) (pendingAcksToSend l)
    (nextSequence l) (unacknowledgedFrames l) (unacknowledgedPackets l) (retransmitQueue l) (rto l)
    (nextTxSequence l) (lastTimeCongestionMarked l) (held l) (l_sendQueue l) x0 x1 (nOutInterests l) (nOutData l).
Definition count_out (x0 : Z) (x1 : Z) (l : LinkService T) : LinkService T :=
  mkLink (faceID l) (transport l) (options l) (headerOverhead l) (partialMessageStore l) (pendingAcksToSend l)
    (nextSequence l) (unacknowledgedFrames l) (unacknowledgedPackets l) (retransmitQueue l) (rto l)
    (nextTxSequence l) (lastTimeCongestionMarked l) (held l) (l_sendQueue l) (nInInterests l) (nInData l) x0 x1.
End setters.

(** ** Sending *)

Section link.
Context `{LpCodec} {T : Type} {TR : Transport T}.
Context (congestionMarking : bool) (faceQueueSize : nat).

(** [MakeNDNLPLinkService] and [SetOptions]; the boolean says whether the
    retransmission and acknowledgement timers are started. *)
Definition MakeNDNLPLinkService (t : T) (o : Options) : LinkService T :=
  mkLink 0 t o (computeHeaderOverhead o) ∅ [] 0 ∅ ∅ [] 0 0 0 false [] 0 0 0 0.

Definition SetOptions (o : Options) (l : LinkService T) : LinkService T * bool :=
  (set_options o (computeHeaderOverhead o) l, negb (IsReliabilityEnabled (options l)) && IsReliabilityEnabled o).

(** [SendPacket]: a full queue drops the packet. *)
Definition SendPacket (pp : nat) (l : LinkService T) : LinkService T :=
  if length (l_sendQueue l) <? faceQueueSize then set_sendQueue (l_sendQueue l ++ [pp]) l else l.

Definition count_sent (p : PendingPacket) (l : LinkService T) : LinkService T :=
  match Enc p with
  | EncInterest _ => count_out (u64 (nOutInterests l + 1)) (nOutData l) l
  | EncData _ => count_out (nOutInterests l) (u64 (nOutData l + 1)) l
  end.

(** [tok] says that the PIT token slice is not nil although it is empty. *)
Definition effectiveMtu (l : LinkService T) (tok : bool) (p : PendingPacket) : Z :=
  i64 (tr_mtu (transport l) - headerOverhead l
       - (if tok || negb (bool_decide (PitToken p = [])) then pitTokenOverhead else 0)
       - (match CongestionMark p with Some _ => congestionMarkOverhead | None => 0 end))%Z.

(** The reading loop; an error of the reader ends the process. *)
Fixpoint split_loop (n : nat) (e last : Z) (rd : Wire) : outcome (list LpPacket) :=
  match n with
  | 0 => Ok []
  | 1 => match ReadWire rd last with Some (frag, _) => Ok [lp_of_fragment frag] | None => Panic end
  | S n' =>
      match ReadWire rd e with
      | Some (frag, rd') => let* rest := split_loop n' e last rd' in Ok (lp_of_fragment frag :: rest)
      | None => Panic
      end
  end.

(** The fragments of a wire; [None] when it is dropped. *)
Definition fragments_of (o : Options) (e : Z) (wire : Wire) : outcome (option (list LpPacket)) :=
  if (e <? i64 (Wire_Length wire))%Z then
    if negb (IsFragmentationEnabled o) then Ok None
    else if (u64 e =? 0)%Z then Panic
    else
      let nFragments := i64 (u64 (Wire_Length wire + u64 e - 1) / u64 e) in
      let lastFragSize := i64 (Wire_Length wire - e * (nFragments - 1)) in
      if (nFragments <? 0)%Z then Panic
      else let* frs := split_loop (Z.to_nat nFragments) e lastFragSize wire in Ok (Some frs)
  else Ok (Some [lp_of_fragment wire]).

Fixpoint number_loop (s : Z) (frs : list LpPacket) : list LpPacket * Z :=
  match frs with
  | [] => ([], s)
  | f :: rest => let r := number_loop (u64 (s + 1)) rest in (set_Sequence s f :: r.1, r.2)
  end.

Definition number (frs : list LpPacket) (l : LinkService T) : list LpPacket * LinkService T :=
  if (1 <? length frs) || IsReliabilityEnabled (options l) then
    let r := number_loop (nextSequence l) frs in (r.1, set_nextSequence r.2 l)
  else (frs, l).

(** [fragments[0].field = ...]. *)
Definition on_first (g : LpPacket -> LpPacket) (frs : list LpPacket) : outcome (list LpPacket) :=
  match frs with [] => Panic | f :: rest => Ok (g f :: rest) end.
Definition on_first_if (b : bool) (g : LpPacket -> LpPacket) (frs : list LpPacket) : outcome (list LpPacket) :=
  if b then on_first g frs else Ok frs.

Definition congested (now : Z) (l : LinkService T) : bool :=
  congestionMarking && (DefaultCongestionThresholdBytes (options l) <? tr_sendQueueSize (transport l))%Z
  && (lastTimeCongestionMarked l + BaseCongestionMarkingInterval (options l) <? now)%Z.

Definition mark_congestion (now : Z) (frs : list LpPacket) (l : LinkService T) : outcome (list LpPacket * LinkService T) :=
  if congested now l then let* frs := on_first (set_LpCongestionMark (Some 1%Z)) frs in Ok (frs, set_marked now l)
  else Ok (frs, l).

Fixpoint track_loop (now first : Z) (frs : list LpPacket) (unacked : go_set) (l : LinkService T)
    : outcome (list LpPacket * go_set * LinkService T) :=
  match frs with
  | [] => Ok ([], unacked, l)
  | f :: rest =>
      let f' := set_TxSequence (nextTxSequence l) f in
      let l1 := set_unack (<[nextTxSequence l := mkUnackFrame f' first 0 now]> (unacknowledgedFrames l))
                  (unacknowledgedPackets l) l in
      let* unacked' := set_write (nextTxSequence l) unacked in
      let* r := track_loop now first rest unacked' (set_nextTxSequence (u64 (nextTxSequence l + 1)) l1) in
      Ok (f' :: r.1.1, r.1.2, r.2)
  end.

Definition track (now : Z) (frs : list LpPacket) (l : LinkService T) : outcome (list LpPacket * LinkService T) :=
  if IsReliabilityEnabled (options l) then
    match frs with
    | f :: _ =>
        match Sequence f with
        | Some firstSequence =>
            let* r := track_loop now firstSequence frs None l in
            Ok (r.1.1, set_unack (unacknowledgedFrames r.2) (<[firstSequence := r.1.2]> (unacknowledgedPackets r.2)) r.2)
        | None => Panic
        end
    | [] => Panic
    end
  else Ok (frs, l).

(** The send loop: locking the mutex a second time, or while another call
    holds it, waits for ever. *)
Fixpoint send_loop (frs : list LpPacket) (l : LinkService T) : finish * LinkService T :=
  match frs with
  | [] => (Returns, l)
  | f :: rest =>
      match EncodePacket (lp_packet f) with
      | None => (Returns, l)
      | Some frameWire =>
          if held l then (Blocks, l)
          else match tr_sendFrame (Wire_Join frameWire) (transport l) with
               | None => (Blocks, set_held true l)
               | Some t => send_loop rest (set_held true (set_transport t l))
               end
      end
  end.

(** The deferred unlocks run when the function returns. *)
Definition send_fragments (frs : list LpPacket) (l : LinkService T) : finish * LinkService T :=
  match send_loop frs l with
  | (Returns, l') => (Returns, set_held (held l) l')
  | r => r
  end.

Definition sendPacket (now : Z) (tok : bool) (p : PendingPacket) (l : LinkService T) : outcome (finish * LinkService T) :=
  if negb (bool_decide (tr_state (transport l) = Up)) then Ok (OffersQuit, l)
  else
    let l1 := count_sent p l in
    let* fo := fragments_of (options l1) (effectiveMtu l1 tok p) [RawBytes p] in
    match fo with
    | None => Ok (Returns, l1)
    | Some frs0 =>
        let r := number frs0 l1 in
        let* (frs2, l3) := mark_congestion now r.1 r.2 in
        let* (frs3, l4) := track now frs2 l3 in
        let* frs4 := on_first_if (negb (bool_decide (PitToken p = []))) (set_LpPitToken (PitToken p)) frs3 in
        let* frs5 := on_first_if (IsIncomingFaceIndicationEnabled (options l4) && bool_decide (is_Some (IncomingFaceID p)))
                       (set_IncomingFaceId (IncomingFaceID p)) frs4 in
        let* frs6 := on_first_if (bool_decide (is_Some (CongestionMark p))) (set_LpCongestionMark (CongestionMark p)) frs5 in
        Ok (send_fragments frs6 l4)
    end.

(** ** The send thread and the reliability goroutines *)

(** Sending idle frames with the pending acknowledgements: the mutex taken in
    a round is released only when [runSend] returns. *)
Fixpoint idle_loop (remainingAcks : nat) (acks : list Z) (l : LinkService T) : finish * LinkService T :=
  match remainingAcks, acks with
  | S r, a :: acks' =>
      let l1 := set_acks acks' l in
      match EncodePacket (lp_packet (set_Ack (Some a) no_lp)) with
      | None => (Returns, l1)
      | Some frameWire =>
          if held l1 then (Blocks, l1)
          else match tr_sendFrame (Wire_Join frameWire) (transport l1) with
               | None => (Blocks, set_held true l1)
               | Some t => idle_loop r acks' (set_held true (set_transport t l1))
               end
      end
  | _, _ => (Returns, l)
  end.

(** The cases of the [select] of [runSend]; a packet of the queue is sent by a
    goroutine of its own, so that its blocking does not block [runSend]. *)
Inductive send_event :=
| EvSend (now : Z) (tok : bool)
| EvRetransmit
| EvIdleAck
| EvTransportQuit.

Definition runSend_step (pkt : nat -> option PendingPacket) (ev : send_event) (l : LinkService T)
    : outcome (finish * LinkService T) :=
  match ev with
  | EvSend now tok =>
      match l_sendQueue l with
      | [] => Ok (Returns, l)
      | pp :: rest =>
          match pkt pp with
          | None => Panic
          | Some p => let* r := sendPacket now tok p (set_sendQueue rest l) in Ok (Returns, r.2)
          end
      end
  | EvRetransmit => Ok (Returns, set_retransmitQueue (drop 1 (retransmitQueue l)) l)
  | EvIdleAck =>
      Ok (idle_loop (Z.to_nat ((tr_mtu (transport l) - lpPacketOverhead) ÷ ackOverhead)) (pendingAcksToSend l) l)
  | EvTransportQuit => Ok (OffersQuit, l)
  end.

(** [order]: the order in which the map is walked. *)
Definition removeUnacknowledgedPacket (sequence : Z) (l : LinkService T) : LinkService T :=
  match unacknowledgedPackets l !! sequence with
  | None => l
  | Some s =>
      let txs := default ∅ s in
      set_unack (filter (fun kv : Z * UnackFrame => kv.1 ∉ txs) (unacknowledgedFrames l))
        (delete sequence (unacknowledgedPackets l)) l
  end.

(** A pass of [runRetransmit]: the walk skips frames deleted on the way, and
    waits when the queue is full. *)
Fixpoint retransmit_pass (curTime : Z) (order : list Z) (l : LinkService T) : finish * LinkService T :=
  match order with
  | [] => (Returns, l)
  | txSequence :: rest =>
      match unacknowledgedFrames l !! txSequence with
      | None => retransmit_pass curTime rest l
      | Some frame =>
          if (sentTime frame + rto l <? curTime)%Z then
            if (MaxRetransmissions (options l) <=? numRetransmissions frame)%Z then
              retransmit_pass curTime rest (removeUnacknowledgedPacket (ua_netPacket frame) l)
            else if length (retransmitQueue l) <? faceQueueSize then
              retransmit_pass curTime rest (set_retransmitQueue (retransmitQueue l ++ [txSequence]) l)
            else (Blocks, l)
          else retransmit_pass curTime rest l
      end
  end.

(** ** Reassembly *)

(** [make([][]byte, n)]: more than the 2^48 bytes the runtime can address
    panic. *)
Definition make_buffers (n : Z) : outcome (list (list byte)) :=
  if (2 ^ 48 <? n * 24)%Z then Panic else Ok (replicate (Z.to_nat n) []).

(** [s[i] = v]. *)
Definition go_set_index {A} (i : Z) (v : A) (s : list A) : outcome (list A) :=
  if bool_decide (0 <= i < Z.of_nat (length s))%Z then Ok (<[Z.to_nat i := v]> s) else Panic.

Definition received (s : list (list byte)) : nat := length (filter (fun f => f <> []) s).

(** [reassemblePacket]: the new store, and the packet when it is complete. *)
Definition reassemblePacket (fragment : Wire) (baseSequence fragIndex fragCount : Z) (st : store)
    : outcome (store * option Wire) :=
  let* slots := (match st !! baseSequence with Some s => Ok s | None => make_buffers fragCount end) in
  let* slots' := go_set_index fragIndex (Wire_Join fragment) slots in
  if received slots' =? length slots' then Ok (delete baseSequence st, Some slots')
  else Ok (<[baseSequence := slots']> st, None).

End link.

(** ** Receiving *)

(** What the threads share: the table [FWDispatch], the packets. *)
Record Net := mkNet { FWDispatch : list Thread; net_packets : gmap nat PendingPacket }.

(** [GetFWThread] (dispatch/fw.go): nil, a thread, or an index out of range. *)
Definition GetFWThread (id : Z) (n : Net) : outcome (option Thread) :=
  if ((id <? 0) || (Z.of_nat (length (FWDispatch n)) <? id))%Z then Ok None
  else match FWDispatch n !! Z.to_nat id with Some t => Ok (Some t) | None => Panic end.

Definition set_NameCache (s : list byte) (p : PendingPacket) : PendingPacket :=
  mkPending (PitToken p) (CongestionMark p) (Packet.IncomingFaceID p) (NextHopFaceID p) (CachePolicy p) (Enc p) (RawBytes p) s.

Section receive.
Context `{LpCodec} `{EncOps} {T : Type} {TR : Transport T}.
Context (config : Config) (fwThreads : Z).

(** A method of a nil thread panics. *)
Definition queue_to (q : nat -> Thread -> Thread) (pp : nat) (id : Z) (n : Net) : outcome Net :=
  let* t := GetFWThread id n in
  match t with
  | None => Panic
  | Some t => Ok (mkNet (<[Z.to_nat id := q pp t]> (FWDispatch n)) (net_packets n))
  end.

Fixpoint queue_to_all (q : nat -> Thread -> Thread) (pp : nat) (ids : list Z) (n : Net) : outcome Net :=
  match ids with
  | [] => Ok n
  | id :: rest => let* n' := queue_to q pp id n in queue_to_all q pp rest n'
  end.

Definition keep_packet (pp : nat) (p : PendingPacket) (n : Net) : Net :=
  mkNet (FWDispatch n) (<[pp := p]> (net_packets n)).

(** [dispatchIncomingPacket]: [pp] is the packet's address. *)
Definition dispatchIncomingPacket (l : LinkService T) (pp : nat) (p : PendingPacket) (n : Net) : outcome Net :=
  match Enc p with
  | EncInterest i =>
      let n1 := keep_packet pp (set_NameCache (Name_String (NameV i)) p) n in
      let* thread := HashNameToFwThread fwThreads (NameV i) in
      queue_to (QueueInterest config) pp thread n1
  | EncData d =>
      let p1 := set_NameCache (Name_String (DataNameV d)) p in
      if length (PitToken p1) =? 6 then
        let pitTokenThread := be_get (take 2 (PitToken p1)) in
        let* fwThread := GetFWThread pitTokenThread n in
        match fwThread with
        | None => Ok (keep_packet pp p1 n)
        | Some _ => queue_to (QueueData config) pp pitTokenThread (keep_packet pp p1 n)
        end
      else if bool_decide (tr_scope (transport l) = Local) then
        let n1 := keep_packet pp (set_PitToken [] p1) n in
        let* threads := HashNameToAllPrefixFwThreads fwThreads (DataNameV d) in
        queue_to_all (QueueData config) pp threads n1
      else Ok (keep_packet pp p1 n)
  end.

(** The counters and the hand-over; packets of neither kind are dropped. *)
Definition deliver (pp : nat) (mk : EncPacket -> PendingPacket) (e : option EncPacket) (l : LinkService T) (n : Net)
    : outcome (LinkService T * Net) :=
  match e with
  | None => Ok (l, n)
  | Some e =>
      let l1 := match e with
                | EncInterest _ => count_in (u64 (nInInterests l + 1)) (nInData l) l
                | EncData _ => count_in (nInInterests l) (u64 (nInData l + 1)) l
                end in
      let* n1 := dispatchIncomingPacket l1 pp (mk e) n in
      Ok (l1, n1)
  end.

(** The fields the link service takes over from the frame. *)
Definition with_link_fields (l : LinkService T) (lp : LpPacket) (fragment : Wire) (e : EncPacket) : PendingPacket :=
  mkPending (LpPitToken lp) (LpCongestionMark lp) (Some (faceID l))
    (if IsConsumerControlledForwardingEnabled (options l) then NextHopFaceId lp else None)
    (if IsLocalCachePolicyEnabled (options l) then LpCachePolicy lp else None)
    e (concat fragment) [].

(** Reassembly of a frame: [None] drops it. *)
Definition reassemble_frame (l : LinkService T) (lp : LpPacket) : outcome (LinkService T * option Wire) :=
  if IsReassemblyEnabled (options l) then
    match Sequence lp with
    | None => Ok (l, None)
    | Some seq =>
        let fragIndex := default 0%Z (FragIndex lp) in
        let fragCount := default 1%Z (FragCount lp) in
        let baseSequence := u64 (seq - fragIndex) in
        if (fragIndex =? 0)%Z && (fragCount =? 1)%Z then Ok (l, Some (Fragment lp))
        else
          let* (st, w) := reassemblePacket (Fragment lp) baseSequence fragIndex fragCount (partialMessageStore l) in
          Ok (set_store st l, w)
    end
  else if bool_decide (is_Some (FragCount lp) \/ is_Some (FragIndex lp)) then Ok (l, None)
  else Ok (l, Some (Fragment lp)).

Definition processIncomingFrame (pp : nat) (wire : list byte) (l : LinkService T) (n : Net) : outcome (LinkService T * Net) :=
  match ReadPacket [wire] with
  | None => Ok (l, n)
  | Some packet =>
      match sp_lp packet with
      | None => deliver pp (fun e => mkPending [] None (Some (faceID l)) None None e wire []) (net_of packet) l n
      | Some lp =>
          if length (Fragment lp) =? 0 then Ok (l, n)
          else
            let* (l1, w) := reassemble_frame l lp in
            match w with
            | None => Ok (l1, n)
            | Some fragment =>
                match ReadPacket fragment with
                | None => Ok (l1, n)
                | Some inner => deliver pp (with_link_fields l1 lp fragment) (net_of inner) l1 n
                end
            end
      end
  end.

End receive.

(** ** Lemmas on sending *)

Section send_lemmas.
Context `{LpCodecLaws} {T : Type} {TR : Transport T}.
Context (congestionMarking : bool).

Definition content (f : LpPacket) : list byte := concat (Fragment f).

Lemma ReadWire_take (rd : Wire) (n : nat) : n <= length (concat rd) ->
  exists a b, ReadWire rd (Z.of_nat n) = Some (a, b) /\ concat a = take n (concat rd) /\ concat b = drop n (concat rd).
Proof.
  intros Hn. destruct (ReadWire_spec rd (Z.of_nat n) ltac:(lia)) as (a & b & E & Ea & Eb).
  rewrite Nat2Z.id in Ea, Eb. by exists a, b.
Qed.

(** What a fragment made by the split looks like. *)
Definition plain (f : LpPacket) : Prop := exists w, f = lp_of_fragment w.

Lemma split_loop_spec (n e last : nat) (rd : Wire) :
  0 < e -> 0 < last <= e -> length (concat rd) = e * n + last ->
  exists frs, split_loop (S n) (Z.of_nat e) (Z.of_nat last) rd = Ok frs /\ concat (content <$> frs) = concat rd /\
    length frs = S n /\ Forall (fun f => plain f /\ 0 < length (content f) <= e) frs /\
    (0 < n -> exists f rest, frs = f :: rest /\ content f = take e (concat rd)).
Proof.
  intros He Hlast. revert rd. induction n as [|n IH]; intros rd Hl.
  - destruct (ReadWire_take rd last ltac:(lia)) as (a & b & E & Ea & _). exists [lp_of_fragment a]. cbn. rewrite E.
    assert (Ha : concat a = concat rd) by (rewrite Ea; apply take_ge; lia).
    split_and!; [done|by rewrite app_nil_r|done| |lia]. constructor; [|done].
    split; [by exists a|]. unfold content. cbn. rewrite Ha. lia.
  - destruct (ReadWire_take rd e ltac:(lia)) as (a & b & E & Ea & Eb).
    destruct (IH b) as (frs & Es & Hc & Hlen & Hf & _); [rewrite Eb, length_drop; lia|].
    exists (lp_of_fragment a :: frs). cbn [split_loop]. rewrite E. cbn [split_loop] in Es. rewrite Es. cbn [outcome_bind].
    split_and!; [done| |cbn; lia| |].
    + cbn [fmap list_fmap]. change (content (lp_of_fragment a)) with (concat a). rewrite concat_cons, Hc, Ea, Eb. apply take_drop.
    + constructor; [|done]. split; [by exists a|]. unfold content. cbn. rewrite Ea, length_take. lia.
    + intros _. exists (lp_of_fragment a), frs. split; [done|exact Ea].
Qed.

(** The number of fragments and the size of the last, in unbounded integers. *)
Lemma ceil_div (L e : Z) : (0 < e < L)%Z ->
  let n := ((L + e - 1) / e)%Z in (2 <= n /\ 0 < L - e * (n - 1) <= e /\ n <= L)%Z.
Proof.
  intros Hle n. pose proof (Z.div_mod (L + e - 1) e ltac:(lia)) as Hd. fold n in Hd.
  pose proof (Z.mod_pos_bound (L + e - 1) e ltac:(lia)). split_and!; nia.
Qed.

Definition small (z : Z) : Prop := (0 <= z < 2 ^ 62)%Z.

Lemma fragments_of_spec (o : Options) (e : Z) (w : list byte) :
  IsFragmentationEnabled o = true -> (0 < e < Z.of_nat (length w))%Z -> small (Z.of_nat (length w)) ->
  exists f rest, fragments_of o e [w] = Ok (Some (f :: rest)) /\ rest <> [] /\
    concat (content <$> (f :: rest)) = w /\ content f = take (Z.to_nat e) w /\
    Forall (fun g => plain g /\ 0 < length (content g) <= Z.to_nat e) (f :: rest).
Proof.
  intros Ho He Hs. unfold small in Hs. unfold fragments_of. rewrite Wire_Length_spec. cbn [concat]. rewrite app_nil_r.
  set (L := Z.of_nat (length w)) in *.
  rewrite (i64_small L) by lia. rewrite (u64_small e) by lia. rewrite (u64_small (L + e - 1)) by lia.
  destruct (ceil_div L e He) as (Hn & Hlast & HnL). set (n := ((L + e - 1) / e)%Z) in *.
  rewrite (i64_small n) by lia. rewrite (i64_small (L - e * (n - 1))) by lia.
  replace (e <? L)%Z with true by lia. rewrite Ho. cbn [negb].
  replace (e =? 0)%Z with false by lia. replace (n <? 0)%Z with false by lia.
  destruct (split_loop_spec (Z.to_nat (n - 1)) (Z.to_nat e) (Z.to_nat (L - e * (n - 1))) [w])
    as (frs & Es & Hc & Hlen & Hf & Hfst); [lia|lia|cbn; rewrite app_nil_r; nia|].
  destruct (Hfst ltac:(lia)) as (f & rest & -> & Ef). cbn [concat] in Hc, Ef. rewrite app_nil_r in Hc, Ef.
  exists f, rest. replace (Z.to_nat n) with (S (Z.to_nat (n - 1))) by lia. rewrite !Z2Nat.id in Es by lia.
  rewrite Es. cbn [outcome_bind]. split_and!; [done| |done|done|done].
  intros ->. cbn in Hlen. lia.
Qed.

(** A held mutex keeps every later packet from the transport. *)
Lemma send_loop_held frs l r l' : held l = true -> send_loop frs l = (r, l') -> l' = l.
Proof.
  intros Hh. destruct frs as [|f frs]; cbn; [by intros [= _ <-]|].
  destruct (EncodePacket _); [rewrite Hh|]; by intros [= _ <-].
Qed.

Lemma send_fragments_held frs l : held l = true ->
  transport (send_fragments frs l).2 = transport l /\ held (send_fragments frs l).2 = true.
Proof.
  intros Hh. unfold send_fragments. destruct (send_loop frs l) as [r l'] eqn:E.
  apply send_loop_held in E; [|done]. subst l'. by destruct r.
Qed.

Definition same_io (l l' : LinkService T) : Prop := transport l' = transport l /\ held l' = held l.

Lemma count_sent_io p l : same_io l (count_sent p l).
Proof. unfold count_sent. by destruct (Enc p). Qed.
Lemma number_io frs l : same_io l (number frs l).2.
Proof. unfold number. by case_match. Qed.
Lemma mark_io now frs l frs' l' : mark_congestion congestionMarking now frs l = Ok (frs', l') -> same_io l l'.
Proof.
  unfold mark_congestion. case_match; [|by intros [= _ <-]]. destruct (on_first _ frs); cbn; try done. by intros [= _ <-].
Qed.
Lemma track_io now frs l frs' l' : track now frs l = Ok (frs', l') -> same_io l l'.
Proof.
  unfold track. case_match; [|by intros [= _ <-]]. destruct frs as [|f frs]; [done|]. by destruct (Sequence f).
Qed.

Lemma held_blocks now tok p l r : held l = true -> sendPacket congestionMarking now tok p l = Ok r ->
  transport r.2 = transport l /\ held r.2 = true.
Proof.
  intros Hh. unfold sendPacket. case_match; [by intros [= <-]|].
  destruct (count_sent_io p l) as [C1 C2]. set (l1 := count_sent p l) in *.
  destruct (fragments_of _ _ _) as [[frs0|]| |]; cbn [outcome_bind]; try done.
  2: { intros [= <-]. cbn. by rewrite C1, C2. }
  destruct (number_io frs0 l1) as [N1 N2].
  destruct (mark_congestion _ _ _ _) as [[frs2 l3]| |] eqn:Em; cbn [outcome_bind]; try done.
  apply mark_io in Em as [M1 M2].
  destruct (track _ _ _) as [[frs3 l4]| |] eqn:Et; cbn [outcome_bind]; try done. apply track_io in Et as [T1 T2].
  destruct (on_first_if _ _ frs3) as [frs4| |]; cbn [outcome_bind]; try done.
  destruct (on_first_if _ _ frs4) as [frs5| |]; cbn [outcome_bind]; try done.
  destruct (on_first_if _ _ frs5) as [frs6| |]; cbn [outcome_bind]; try done. intros [= <-].
  destruct (send_fragments_held frs6 l4) as [S1 S2]; [congruence|]. split; [congruence|done].
Qed.

(** The headers of the first fragment. *)
Definition decorate (now : Z) (p : PendingPacket) (l : LinkService T) (f : LpPacket) : LpPacket :=
  let f1 := if congested congestionMarking now l then set_LpCongestionMark (Some 1%Z) f else f in
  let f2 := if negb (bool_decide (PitToken p = [])) then set_LpPitToken (PitToken p) f1 else f1 in
  let f3 := if IsIncomingFaceIndicationEnabled (options l) && bool_decide (is_Some (Packet.IncomingFaceID p))
            then set_IncomingFaceId (Packet.IncomingFaceID p) f2 else f2 in
  if bool_decide (is_Some (CongestionMark p)) then set_LpCongestionMark (CongestionMark p) f3 else f3.

Lemma on_first_if_cons b g f rest : on_first_if b g (f :: rest) = Ok ((if b then g f else f) :: rest).
Proof. by destruct b. Qed.

(** The numbering keeps everything but the sequence numbers, which are left
    out for a single fragment without reliability. *)
Definition renumbered (f g : LpPacket) : Prop := exists s, g = set_Sequence s f /\ (0 <= s < 2 ^ 64)%Z.

Lemma number_loop_spec s frs : (0 <= s < 2 ^ 64)%Z -> Forall2 renumbered frs (number_loop s frs).1.
Proof.
  revert s. induction frs as [|f frs IH]; intros s Hs; cbn [number_loop fst]; [constructor|].
  constructor; [by exists s|]. apply IH. apply u64_range.
Qed.

Lemma number_spec frs (l : LinkService T) : (0 <= nextSequence l < 2 ^ 64)%Z -> IsReliabilityEnabled (options l) = false ->
  if decide (1 < length frs) then Forall2 renumbered frs (number frs l).1 else number frs l = (frs, l).
Proof.
  intros Hs Hr. unfold number. rewrite Hr, orb_false_r.
  case_decide as Hl; [|by replace (1 <? length frs) with false by (symmetry; apply Nat.ltb_ge; lia)].
  apply Nat.ltb_lt in Hl. rewrite Hl. cbn [fst]. by apply number_loop_spec.
Qed.

Lemma number_fields frs (l : LinkService T) : options (number frs l).2 = options l /\
  forall now, congested congestionMarking now (number frs l).2 = congested congestionMarking now l.
Proof. unfold number. by case_match. Qed.

Lemma count_sent_fields p (l : LinkService T) : options (count_sent p l) = options l /\ nextSequence (count_sent p l) = nextSequence l /\
  (forall tok q, effectiveMtu (count_sent p l) tok q = effectiveMtu l tok q) /\
  forall now, congested congestionMarking now (count_sent p l) = congested congestionMarking now l.
Proof. unfold count_sent. by destruct (Enc p). Qed.

(** Without reliability, a packet that is not dropped is sent as its numbered
    fragments, the first of which carries the headers. *)
Lemma sendPacket_sends now tok p (l : LinkService T) f rest :
  tr_state (transport l) = Up -> IsReliabilityEnabled (options l) = false ->
  fragments_of (options l) (effectiveMtu l tok p) [RawBytes p] = Ok (Some (f :: rest)) ->
  exists l4 f1 rest1, sendPacket congestionMarking now tok p l = Ok (send_fragments (decorate now p l f1 :: rest1) l4) /\
    same_io l l4 /\ (number (f :: rest) (count_sent p l)).1 = f1 :: rest1.
Proof.
  intros Hup Hrel Hfrs. unfold sendPacket. rewrite bool_decide_true by done. cbn [negb].
  destruct (count_sent_fields p l) as (Co & _ & Ce & Cc). rewrite Co, Ce, Hfrs. cbn [outcome_bind].
  destruct (number_fields (f :: rest) (count_sent p l)) as (No & Nc).
  destruct (number_io (f :: rest) (count_sent p l)) as [N1 N2]. destruct (count_sent_io p l) as [C1 C2].
  destruct (number (f :: rest) (count_sent p l)) as [frs2 l2] eqn:En. cbn [fst snd] in *.
  assert (exists f1 rest1, frs2 = f1 :: rest1) as (f1 & rest1 & ->).
  { unfold number in En. case_match; injection En as <- _; cbn; eauto. }
  unfold mark_congestion. rewrite Nc, Cc.
  set (m := congested congestionMarking now l). 
  assert (Hm : (if m then let* frs := on_first (set_LpCongestionMark (Some 1%Z)) (f1 :: rest1) in Ok (frs, set_marked now l2)
    else Ok (f1 :: rest1, l2)) = Ok ((if m then set_LpCongestionMark (Some 1%Z) f1 else f1) :: rest1,
      if m then set_marked now l2 else l2)) by (by destruct m).
  rewrite Hm. cbn [outcome_bind]. unfold track.
  replace (options (if m then set_marked now l2 else l2)) with (options l) by (destruct m; cbn; congruence).
  rewrite Hrel. cbn [outcome_bind]. rewrite on_first_if_cons. cbn [outcome_bind].
  replace (options (if m then set_marked now l2 else l2)) with (options l) by (destruct m; cbn; congruence).
  rewrite !on_first_if_cons. cbn [outcome_bind]. rewrite on_first_if_cons. cbn [outcome_bind].
  exists (if m then set_marked now l2 else l2), f1, rest1. split; [done|]. split; [|done].
  unfold same_io in *. destruct m; cbn; split; congruence.
Qed.

(** The numbers of a packet fit their fields. *)
Definition packet_u64 (p : PendingPacket) : Prop := u64_field (Packet.IncomingFaceID p) /\ u64_field (CongestionMark p).

Lemma decorate_ok now p l f : packet_u64 p -> plain f \/ (exists g, plain g /\ renumbered g f) -> content f <> [] ->
  lp_ok (decorate now p l f) /\ Fragment (decorate now p l f) = Fragment f.
Proof.
  intros [Hi Hc] Hf Hne. 
  assert (lp_ok f) as Hok.
  { unfold lp_ok. destruct Hf as [[w ->]|(g & [w ->] & s & -> & Hs)]; cbn; split_and!; try done; lia. }
  unfold lp_ok in *. destruct Hok as (?&?&?&?&?&?&?&?&?&?). unfold decorate.
  destruct (congested _ now l), (negb _), (_ && _), (bool_decide (is_Some (CongestionMark p))); cbn; split_and!; try done; lia.
Qed.

End send_lemmas.

(** ** The component's side of the internal transport *)

Section component.
Context `{LpCodec} (faceQueueSize : nat).

(** [Send]: a frame that cannot be encoded is dropped; [None] when the channel
    is full. *)
Definition Send (netWire : Wire) (pitToken : list byte) (nextHopFaceID : option Z) (t : InternalTransport)
    : option InternalTransport :=
  let lp := set_NextHopFaceId nextHopFaceID (set_LpPitToken pitToken (lp_of_fragment netWire)) in
  match EncodePacket (lp_packet lp) with
  | None => Some t
  | Some w =>
      if length (sendQueue t) <? faceQueueSize
      then Some (mkInternal (base t) (recvQueue t) (sendQueue t ++ [Wire_Join w]) (quits t)) else None
  end.

(** [Receive]: invalid frames are skipped; a bare packet, or one without
    IncomingFaceId, panics; [None] when it has to wait. *)
Fixpoint Receive_loop (frames : list (list byte)) : option (outcome (Wire * list byte * Z) * list (list byte)) :=
  match frames with
  | [] => None
  | frame :: rest =>
      match ReadPacket [frame] with
      | None => Receive_loop rest
      | Some pkt =>
          match sp_lp pkt with
          | None => Some (Panic, rest)
          | Some lp =>
              if (Wire_Length (Fragment lp) =? 0)%Z then Receive_loop rest
              else match IncomingFaceId lp with
                   | None => Some (Panic, rest)
                   | Some f => Some (Ok (Fragment lp, LpPitToken lp, f), rest)
                   end
          end
      end
  end.

Definition Receive (t : InternalTransport) : option (outcome (Wire * list byte * Z) * InternalTransport) :=
  match Receive_loop (recvQueue t) with
  | None => None
  | Some (r, rest) => Some (r, mkInternal (base t) rest (sendQueue t) (quits t))
  end.

End component.

(** ** A concrete codec, for examples *)

#[export] Instance LpPacket_eq_dec : EqDecision LpPacket.
Proof. solve_decision. Defined.
#[export] Instance SpecPacket_eq_dec : EqDecision SpecPacket.
Proof. solve_decision. Defined.

#[export] Instance Interest_countable : Countable Interest.
Proof.
  refine (inj_countable' (fun i => (NameV i, CanBePrefixV i, MustBeFreshV i, ForwardingHintV i, NonceV i, HopLimitV i))
    (fun '(a, b, c, d, e, f) => mkInterest a b c d e f) _). by intros [].
Defined.
#[export] Instance Data_countable : Countable Data.
Proof.
  refine (inj_countable' (fun d => (DataNameV d, FreshnessPeriod d)) (fun '(a, b) => mkData a b) _). by intros [].
Defined.
#[export] Instance LpPacket_countable : Countable LpPacket.
Proof.
  refine (inj_countable' (fun p => (Sequence p, FragIndex p, FragCount p, LpPitToken p, NextHopFaceId p, IncomingFaceId p,
      LpCachePolicy p, LpCongestionMark p, Ack p, TxSequence p, Fragment p))
    (fun '(a, b, c, d, e, f, g, h, i, j, k) => mkLp a b c d e f g h i j k) _). by intros [].
Defined.
#[export] Instance SpecPacket_countable : Countable SpecPacket.
Proof.
  refine (inj_countable' (fun s => (sp_interest s, sp_data s, sp_lp s)) (fun '(a, b, c) => mkSpec a b c) _). by intros [].
Defined.

Fixpoint bytes_pos (l : list byte) : positive :=
  match l with
  | [] => xH
  | b :: l => if bool_decide (b = x01) then xI (bytes_pos l) else xO (bytes_pos l)
  end.

Lemma bytes_pos_bytes p : bytes_pos (pos_bytes p) = p.
Proof. induction p as [p IH|p IH|]; cbn; [by rewrite IH|by rewrite IH|done]. Qed.

(** A link packet is encoded with its fragment in one buffer. *)
Definition joined (s : SpecPacket) : SpecPacket :=
  mkSpec (sp_interest s) (sp_data s) (option_map (fun p => with_fragment [concat (Fragment p)] p) (sp_lp s)).

Definition ref_codec : LpCodec := {|
  ReadPacket w := decode (bytes_pos (concat w));
  EncodePacket s := Some [pos_bytes (encode (joined s))];
  Wire_Length w := Z.of_nat (length (concat w));
  Wire_Join w := concat w;
  ReadWire w n := if bool_decide (0 <= n <= Z.of_nat (length (concat w)))%Z
                  then Some ([take (Z.to_nat n) (concat w)], [drop (Z.to_nat n) (concat w)]) else None;
  Name_String := Name_Bytes (EncOps := ref_ops) |}.

Definition ref_codec_laws : @LpCodecLaws ref_codec.
Proof.
  refine (@Build_LpCodecLaws ref_codec _ _ _ _ _); cbn [ReadPacket EncodePacket Wire_Length Wire_Join ReadWire ref_codec].
  - done.
  - done.
  - intros w n Hn. rewrite bool_decide_true by done. eexists _, _. split; [done|]. cbn. by rewrite !app_nil_r.
  - intros p _. eexists _, [concat (Fragment p)]. split; [done|]. cbn [concat]. rewrite !app_nil_r, bytes_pos_bytes, decode_encode.
    by split.
  - intros w w' E. by rewrite E.
Defined.

Lemma ref_codec_read (s : SpecPacket) : @ReadPacket ref_codec [pos_bytes (encode s)] = Some s.
Proof. cbn. by rewrite app_nil_r, bytes_pos_bytes, decode_encode. Qed.
