(* ===== verification/LinkProps.v ===== *)
(** * Properties of the link service

    What reaches the transport and the peer when a packet is sent, what the
    fragmentation does, reassembly in any order and interleaving, the dispatch
    to threads, and the inputs that stop the process. *)
From S2P Require Import Prelude.
From S2P Require Import Enc Packet Fw Transport LinkService.

(** ** Crossing a link *)

Section crossing.
Context `{LpCodecLaws} `{EncOps} {T : Type} {TR : Transport T}.
Context (congestionMarking : bool) (config : Config) (fwThreads : Z).

(** The mark the peer sees: the packet's own, or the one set for congestion. *)
Definition final_mark (now : Z) (p : PendingPacket) (l : LinkService T) : option Z :=
  match CongestionMark p with
  | Some m => Some m
  | None => if congested congestionMarking now l then Some 1%Z else None
  end.

(** The packet the peer's link service hands over. *)
Definition arrives {R} (r : LinkService R) (p : PendingPacket) (mark : option Z) (e : EncPacket) : PendingPacket :=
  mkPending (PitToken p) mark (Some (faceID r)) None None e (RawBytes p) [].

Lemma fits_single (o : Options) e w : (Z.of_nat (length w) <= e)%Z -> small (Z.of_nat (length w)) ->
  fragments_of o e [w] = Ok (Some [lp_of_fragment [w]]).
Proof.
  intros Hle Hs. unfold small in Hs. unfold fragments_of. rewrite Wire_Length_spec. cbn [concat]. rewrite app_nil_r.
  rewrite i64_small by lia. by replace (e <? Z.of_nat (length w))%Z with false by lia.
Qed.

Lemma decorate_fields now p (l : LinkService T) w :
  let d := decorate congestionMarking now p l (lp_of_fragment w) in
  LpPitToken d = PitToken p /\ LpCongestionMark d = final_mark now p l /\ NextHopFaceId d = None /\
  LpCachePolicy d = None /\ FragIndex d = None /\ FragCount d = None /\ Sequence d = None.
Proof.
  unfold decorate, final_mark. destruct (PitToken p) as [|b t]; destruct (CongestionMark p) as [m|];
    destruct (congested _ now l), (IsIncomingFaceIndicationEnabled _), (bool_decide (is_Some (Packet.IncomingFaceID p)));
    cbn; done.
Qed.

(** C17: a packet crosses a link.  When the face is up, the packet's bytes fit
    the effective MTU, the send mutex is free and reliability is off,
    [sendPacket] hands the transport exactly one frame and returns with the
    mutex free, the sequence number unused; and a peer without reassembly that
    processes that frame hands over a packet with the same bytes, PIT token and
    network packet, the congestion mark set on the way, and its own face as the
    incoming face. *)
Theorem packet_crosses_link now tok p (l : LinkService T) s e :
  tr_state (transport l) = Up -> held l = false -> IsReliabilityEnabled (options l) = false ->
  RawBytes p <> [] -> packet_u64 p -> small (Z.of_nat (length (RawBytes p))) ->
  (Z.of_nat (length (RawBytes p)) <= effectiveMtu l tok p)%Z ->
  ReadPacket [RawBytes p] = Some s -> net_of s = Some e ->
  exists frame,
    (forall t, tr_sendFrame frame (transport l) = Some t ->
      exists l', sendPacket congestionMarking now tok p l = Ok (Returns, l') /\ transport l' = t /\ held l' = false) /\
    forall R (TR2 : Transport R) (r : LinkService R) pp n, IsReassemblyEnabled (options r) = false ->
      processIncomingFrame config fwThreads pp frame r n
      = deliver config fwThreads pp (fun e => arrives r p (final_mark now p l) e) (Some e) r n.
Proof.
  intros Hup Hheld Hrel Hne Hp Hs Hfit Hread He.
  destruct (sendPacket_sends congestionMarking now tok p l (lp_of_fragment [RawBytes p]) [] Hup Hrel)
    as (l4 & f1 & rest1 & Es & [Ht Hh] & En); [by apply fits_single|].
  unfold number in En. destruct (count_sent_fields congestionMarking p l) as (Co & _). rewrite Co, Hrel in En.
  cbn in En. injection En as <- <-.
  destruct (decorate_ok congestionMarking now p l (lp_of_fragment [RawBytes p]) Hp) as [Hok Hfr].
  { left. by eexists. } { unfold content. cbn. by rewrite app_nil_r. }
  destruct (decorate_fields now p l [RawBytes p]) as (D1 & D2 & D3 & D4 & D5 & D6 & D7).
  set (d := decorate congestionMarking now p l (lp_of_fragment [RawBytes p])) in *.
  destruct (EncodePacket_lp d Hok) as (w & w' & Ew & Er & Ew').
  exists (concat w). split.
  - intros t Hsend. exists (set_held (held l4) (set_held true (set_transport t l4))). rewrite Es.
    unfold send_fragments. cbn [send_loop]. rewrite Ew, Wire_Join_spec, Hh, Hheld, Ht, Hsend.
    split_and!; [done|done|cbn; congruence].
  - intros R TR2 r pp n Hr. unfold processIncomingFrame. rewrite Er. cbn [sp_lp lp_packet].
    assert (Hcw : concat w' = RawBytes p) by (rewrite Ew', Hfr; cbn; apply app_nil_r).
    destruct w' as [|b w']; [cbn in Hcw; congruence|]. cbn [Fragment with_fragment length Nat.eqb].
    unfold reassemble_frame. rewrite Hr. cbn [FragIndex FragCount with_fragment]. rewrite D5, D6.
    rewrite bool_decide_false by (intros [[? [=]]|[? [=]]]). cbn [outcome_bind Fragment with_fragment].
    pose proof (ReadPacket_net (b :: w') [RawBytes p] ltac:(cbn; rewrite app_nil_r; exact Hcw)) as Hn.
    rewrite Hread in Hn. cbn [option_map] in Hn. rewrite He in Hn.
    destruct (ReadPacket (b :: w')) as [s'|]; [|done]. cbn [option_map] in Hn. injection Hn as ->.
    unfold deliver, with_link_fields, arrives. cbn [LpPitToken LpCongestionMark NextHopFaceId LpCachePolicy with_fragment].
    rewrite D1, D2, D3, D4, Hcw. by destruct (IsConsumerControlledForwardingEnabled _), (IsLocalCachePolicyEnabled _).
Qed.

(** ** Fragmentation *)

(** C21: fragmentation cuts a packet that does not fit into nonempty pieces that
    do, in order and without loss; but the loop that sends them defers the
    unlocking of the send mutex to its end, so the second round waits for the
    lock of the first: only the first piece is sent, as a frame without
    FragIndex and FragCount, and from then on no packet reaches the transport.
    With fragmentation disabled the packet is dropped. *)
Theorem fragmentation_blocks now tok p (l : LinkService T) :
  let e := effectiveMtu l tok p in
  tr_state (transport l) = Up -> held l = false -> IsReliabilityEnabled (options l) = false ->
  packet_u64 p -> small (Z.of_nat (length (RawBytes p))) -> (0 <= nextSequence l < 2 ^ 64)%Z ->
  (forall f t, is_Some (tr_sendFrame f t)) -> (0 < e < Z.of_nat (length (RawBytes p)))%Z ->
  if IsFragmentationEnabled (options l) then
    exists f rest frame d w l', fragments_of (options l) e [RawBytes p] = Ok (Some (f :: rest)) /\
      concat (content <$> f :: rest) = RawBytes p /\
      Forall (fun g => (0 < Z.of_nat (length (content g)) <= e)%Z) (f :: rest) /\
      sendPacket congestionMarking now tok p l = Ok (Blocks, l') /\
      Some (transport l') = tr_sendFrame frame (transport l) /\ ReadPacket [frame] = Some (lp_packet (with_fragment w d)) /\
      concat w = take (Z.to_nat e) (RawBytes p) /\ FragIndex d = None /\ FragCount d = None /\
      forall now' tok' q r, sendPacket congestionMarking now' tok' q l' = Ok r -> transport r.2 = transport l'
  else exists l', sendPacket congestionMarking now tok p l = Ok (Returns, l') /\ transport l' = transport l.
Proof.
  intros e Hup Hheld Hrel Hp Hs Hseq Hsend He. destruct (IsFragmentationEnabled (options l)) eqn:Hf.
  2: { unfold sendPacket. rewrite bool_decide_true by done. cbn [negb].
       destruct (count_sent_fields congestionMarking p l) as (Co & _ & Ce & _). destruct (count_sent_io p l) as [C1 _].
       rewrite Co, Ce. fold e. unfold fragments_of. rewrite Wire_Length_spec. cbn [concat]. rewrite app_nil_r.
       unfold small in Hs. rewrite i64_small by lia. rewrite Hf. 
       replace (e <? Z.of_nat (length (RawBytes p)))%Z with true by lia. cbn. by eexists. }
  destruct (fragments_of_spec (options l) e (RawBytes p) Hf He Hs) as (f & rest & Efr & Hrest & Hcat & Hfst & Hall).
  destruct (sendPacket_sends congestionMarking now tok p l f rest Hup Hrel Efr) as (l4 & f1 & rest1 & Es & [Ht Hh] & En).
  destruct (count_sent_fields congestionMarking p l) as (Co & Cs & _).
  pose proof (number_spec (f :: rest) (count_sent p l)) as Hnum. rewrite Cs, Co in Hnum. specialize (Hnum Hseq Hrel).
  destruct rest as [|f2 rest]; [done|]. rewrite decide_True in Hnum by (cbn; lia). rewrite En in Hnum.
  apply Forall2_cons_inv_l in Hnum as (f1' & r1' & [s1 [Hf1 Hs1]] & Hnum & [= <- <-]).
  apply Forall2_cons_inv_l in Hnum as (f3 & rest2 & [s2 [Hf2 Hs2]] & _ & ->).
  apply Forall_cons in Hall as [[Hpl1 Hl1] Hall]. pose proof Hall as [[Hpl2 Hl2] _]%Forall_cons.
  assert (Hc1 : content f1 = content f) by (by rewrite Hf1).
  assert (Hc2 : content f3 = content f2) by (by rewrite Hf2).
  destruct (decorate_ok congestionMarking now p l f1 Hp) as [Hok1 Hfr1].
  { right. exists f. split; [done|]. by exists s1. } { rewrite Hc1. intros E0. rewrite E0 in Hl1. cbn in Hl1. lia. }
  set (d := decorate congestionMarking now p l f1) in *.
  destruct (EncodePacket_lp d Hok1) as (w & w' & Ew & Er & Ew').
  destruct (Hsend (concat w) (transport l)) as [t Et].
  assert (Hok2 : lp_ok f3).
  { destruct Hpl2 as [v ->]. rewrite Hf2. unfold lp_ok. cbn. split_and!; try done; [lia|lia|].
    unfold content in Hl2. cbn in Hl2. intros E0. rewrite E0 in Hl2. cbn in Hl2. lia. }
  destruct (EncodePacket_lp f3 Hok2) as (w2 & w2' & Ew2 & _ & _).
  exists f, (f2 :: rest), (concat w), d, w', (set_held true (set_transport t l4)).
  split_and!; [done|done| | |done|exact Er| | | |].
  - constructor; [lia|]. eapply Forall_impl; [exact Hall|]. cbn. intros g [_ Hg]. lia.
  - rewrite Es. unfold send_fragments. cbn [send_loop]. rewrite Ew, Wire_Join_spec, Hh, Hheld, Ht, Et, Ew2. done.
  - rewrite Ew', Hfr1. change (concat (Fragment f1)) with (content f1). by rewrite Hc1.
  - subst d f1. destruct Hpl1 as [v ->]. unfold decorate. by repeat case_match.
  - subst d f1. destruct Hpl1 as [v ->]. unfold decorate. by repeat case_match.
  - intros now' tok' q r Hq. by eapply held_blocks in Hq as [? _].
Qed.

End crossing.

(** ** Reassembly *)

Section reassembly.
Context `{LpCodecLaws}.

(** A received fragment: the sequence number of the message's first fragment,
    its position, the announced number of fragments, the bytes. *)
Record fragment := mkFragment { fr_base : Z; fr_index : Z; fr_count : Z; fr_wire : Wire }.

(** Receiving fragments one after another; the messages completed, in order. *)
Fixpoint run_reassembly (fs : list fragment) (st : store) : outcome (store * list (Z * Wire)) :=
  match fs with
  | [] => Ok (st, [])
  | f :: rest =>
      let* (st', w) := reassemblePacket (fr_wire f) (fr_base f) (fr_index f) (fr_count f) st in
      let* (st'', out) := run_reassembly rest st' in
      Ok (st'', match w with Some w => (fr_base f, w) :: out | None => out end)
  end.

(** Senders announce the number of fragments of each of their messages. *)
Definition honest (counts : Z -> Z) (f : fragment) : Prop :=
  fr_count f = counts (fr_base f) /\ (0 <= fr_index f < fr_count f)%Z /\ (fr_count f * 24 <= 2 ^ 48)%Z.

Definition sized (counts : Z -> Z) (st : store) : Prop :=
  forall b s, st !! b = Some s -> Z.of_nat (length s) = counts b.

(** The slots of a message after the fragments at [seen] arrived. *)
Definition slots_of (ps : list (list byte)) (seen : list nat) : list (list byte) :=
  imap (fun i p => if decide (i ∈ seen) then p else []) ps.

Lemma length_filter_all {A} (P : A -> Prop) `{!forall x, Decision (P x)} l :
  length (filter P l) = length l <-> Forall P l.
Proof.
  induction l as [|x l IH]; [by split|]. rewrite Forall_cons. destruct (decide (P x)).
  - rewrite filter_cons_True by done. cbn. rewrite <- IH. naive_solver lia.
  - rewrite filter_cons_False by done. cbn. pose proof (length_filter P l). naive_solver lia.
Qed.

Lemma slots_of_nil ps : slots_of ps [] = replicate (length ps) [].
Proof.
  unfold slots_of. apply list_eq. intros i. rewrite list_lookup_imap. destruct (ps !! i) eqn:E.
  - symmetry. apply lookup_replicate_2. by eapply lookup_lt_Some.
  - symmetry. apply lookup_replicate_None. by apply lookup_ge_None in E.
Qed.

Lemma slots_of_insert ps seen i p : ps !! i = Some p -> <[i := p]> (slots_of ps seen) = slots_of ps (i :: seen).
Proof.
  intros Hp. unfold slots_of. apply list_eq. intros j. pose proof (lookup_lt_Some _ _ _ Hp).
  destruct (decide (i = j)) as [<-|Hne].
  - rewrite list_lookup_insert_eq by (by rewrite length_imap). rewrite list_lookup_imap, Hp. cbn.
    by rewrite decide_True by (by left).
  - rewrite list_lookup_insert_ne by done. rewrite !list_lookup_imap. destruct (ps !! j); [|done]. cbn. f_equal.
    destruct (decide (j ∈ seen)); [by rewrite decide_True by (by right)|]. rewrite decide_False; [done|].
    intros [->|?]%elem_of_cons; done.
Qed.

Lemma slots_of_complete ps seen : Forall (fun p => p <> []) ps ->
  (received (slots_of ps seen) = length (slots_of ps seen) <-> forall i, i < length ps -> i ∈ seen).
Proof.
  intros Hne. unfold received. rewrite length_filter_all, Forall_lookup. unfold slots_of. split.
  - intros Hf i [p Hp]%lookup_lt_is_Some_2. specialize (Hf i). rewrite list_lookup_imap, Hp in Hf. cbn in Hf.
    specialize (Hf _ eq_refl). by destruct (decide (i ∈ seen)).
  - intros Hs i q. rewrite list_lookup_imap. destruct (ps !! i) as [p|] eqn:Hp; [|done]. cbn. intros [= <-].
    rewrite decide_True by (apply Hs; by eapply lookup_lt_Some). by eapply Forall_lookup in Hne.
Qed.

Lemma slots_of_all ps seen : (forall i, i < length ps -> i ∈ seen) -> slots_of ps seen = ps.
Proof.
  intros Hs. unfold slots_of. apply list_eq. intros i. rewrite list_lookup_imap. destruct (ps !! i) as [p|] eqn:Hp; [|done].
  cbn. by rewrite decide_True by (apply Hs; by eapply lookup_lt_Some).
Qed.

(** One fragment, from an empty or a started message. *)
Lemma reassemble_step counts st f : honest counts f -> sized counts st ->
  exists slots, slots = <[Z.to_nat (fr_index f) := concat (fr_wire f)]>
      (default (replicate (Z.to_nat (fr_count f)) []) (st !! fr_base f)) /\
    Z.of_nat (length slots) = fr_count f /\
    reassemblePacket (fr_wire f) (fr_base f) (fr_index f) (fr_count f) st =
      Ok (if received slots =? length slots then (delete (fr_base f) st, Some slots)
          else (<[fr_base f := slots]> st, None)).
Proof.
  intros (Hc & Hi & Hm) Hs. eexists. split; [done|]. unfold reassemblePacket.
  assert (Hl : forall s, st !! fr_base f = Some s -> Z.of_nat (length s) = fr_count f) by (intros s Es; rewrite Hc; by apply Hs).
  unfold make_buffers. replace (2 ^ 48 <? fr_count f * 24)%Z with false by lia.
  destruct (st !! fr_base f) as [s|] eqn:Es; cbn [default outcome_bind from_option id].
  - specialize (Hl s eq_refl). unfold go_set_index. rewrite bool_decide_true by lia. cbn [outcome_bind].
    rewrite Wire_Join_spec, length_insert. split; [done|]. by case_match.
  - unfold go_set_index. rewrite length_replicate, bool_decide_true by lia. cbn [outcome_bind].
    rewrite Wire_Join_spec, length_insert, length_replicate. split; [lia|]. by case_match.
Qed.

Lemma sized_delete counts b st : sized counts st -> sized counts (delete b st).
Proof. intros Hs c s [_ Hc]%lookup_delete_Some. by apply Hs. Qed.

Lemma sized_insert counts b s st : Z.of_nat (length s) = counts b -> sized counts st -> sized counts (<[b := s]> st).
Proof. intros Hl Hs c t [[<- <-]|[_ Hc]]%lookup_insert_Some; [done|by apply Hs]. Qed.

(** Honest fragments never panic, and messages do not disturb each other. *)
Lemma reassemble_one counts st f : honest counts f -> sized counts st ->
  exists st' w, reassemblePacket (fr_wire f) (fr_base f) (fr_index f) (fr_count f) st = Ok (st', w) /\ sized counts st' /\
    forall b, b <> fr_base f -> st' !! b = st !! b.
Proof.
  intros Hh Hs. destruct (reassemble_step counts st f Hh Hs) as (slots & _ & Hl & E). rewrite E. destruct Hh as (Hc & _).
  case_match; eexists _, _; (split; [done|split]).
  - by apply sized_delete.
  - intros b Hb. by apply lookup_delete_ne.
  - apply sized_insert; [congruence|done].
  - intros b Hb. by apply lookup_insert_ne.
Qed.

(** What the pending slots of message [b] are. *)
Definition progress (ps : list (list byte)) (seen : list nat) (slots : option (list (list byte))) : Prop :=
  slots = match seen with [] => None | _ => Some (slots_of ps seen) end.

Definition of_message (b : Z) (f : fragment) : Prop := fr_base f = b.
#[export] Instance of_message_dec b f : Decision (of_message b f).
Proof. unfold of_message. apply _. Defined.

Lemma run_others counts b fs : Forall (honest counts) fs -> filter (of_message b) fs = [] -> forall st, sized counts st ->
  exists st' out, run_reassembly fs st = Ok (st', out) /\ st' !! b = st !! b /\ filter (fun o => o.1 = b) out = [].
Proof.
  induction 1 as [|f fs Hh Hf IH]; intros Hfil st Hs; [by exists st, []|].
  assert (Hb : fr_base f <> b).
  { intros E. rewrite filter_cons_True in Hfil by exact E. done. }
  rewrite filter_cons_False in Hfil by exact Hb. cbn [run_reassembly].
  destruct (reassemble_one counts st f Hh Hs) as (st1 & w & E & Hs1 & Hk). rewrite E. cbn [outcome_bind].
  destruct (IH Hfil st1 Hs1) as (st' & out & E' & Hk' & Ho). rewrite E'. cbn [outcome_bind].
  eexists _, _. split; [done|]. rewrite Hk', Hk by done. split; [done|].
  destruct w; [|done]. rewrite filter_cons_False by (cbn; congruence). done.
Qed.

Lemma run_message counts b ps fs : Forall (honest counts) fs -> Z.of_nat (length ps) = counts b ->
  Forall (fun p => p <> []) ps ->
  Forall (fun f => ps !! Z.to_nat (fr_index f) = Some (concat (fr_wire f))) (filter (of_message b) fs) ->
  forall st seen, sized counts st -> progress ps seen (st !! b) ->
  seen ++ (Z.to_nat ∘ fr_index <$> filter (of_message b) fs) ≡ₚ seq 0 (length ps) ->
  filter (of_message b) fs <> [] ->
  exists st' out, run_reassembly fs st = Ok (st', out) /\ filter (fun o => o.1 = b) out = [(b, ps)] /\ st' !! b = None.
Proof.
  intros Hh Hn Hne. induction Hh as [|f fs Hf Hh IH]; intros Hps st seen Hs Hpr Hperm Hsome; [done|].
  cbn [run_reassembly]. destruct (decide (fr_base f = b)) as [Eb|Eb].
  - rewrite filter_cons_True in Hps, Hperm by exact Eb. apply Forall_cons in Hps as [Hp Hps].
    destruct (reassemble_step counts st f Hf Hs) as (slots & Hslots & Hl & E). rewrite E.
    assert (Hsl : slots = slots_of ps (Z.to_nat (fr_index f) :: seen)).
    { rewrite Hslots, Eb, Hpr. destruct Hf as (Hc & _). rewrite <- (slots_of_insert ps seen _ _ Hp). f_equal.
      destruct seen; cbn; [|done]. rewrite slots_of_nil. f_equal. rewrite Hc, Eb. lia. }
    set (seen' := Z.to_nat (fr_index f) :: seen) in *.
    assert (Hperm' : seen' ++ (Z.to_nat ∘ fr_index <$> filter (of_message b) fs) ≡ₚ seq 0 (length ps)).
    { rewrite <- Hperm. unfold seen'. cbn. by rewrite Permutation_middle. }
    pose proof (slots_of_complete ps seen' Hne) as Hcomp. rewrite <- Hsl in Hcomp.
    destruct (filter (of_message b) fs) as [|g gs] eqn:Eg.
    + rewrite app_nil_r in Hperm'. assert (Hall : forall i, i < length ps -> i ∈ seen').
      { intros i Hi. rewrite Hperm'. apply elem_of_seq. lia. }
      apply Hcomp in Hall as Hr. apply Nat.eqb_eq in Hr. rewrite Hr. cbn [outcome_bind].
      destruct (run_others counts b fs Hh Eg (delete (fr_base f) st)) as (st' & out & E' & Hk & Ho); [by apply sized_delete|].
      rewrite E'. cbn [outcome_bind]. eexists _, _. split; [done|].
      rewrite filter_cons_True by exact Eb. rewrite Ho, Hk, Hsl, slots_of_all, Eb by done. split; [done|apply lookup_delete_eq].
    + assert (Hnot : (received slots =? length slots) = false).
      { apply Nat.eqb_neq. intros Hr. pose proof (proj1 Hcomp Hr) as Hin. pose proof (NoDup_seq 0 (length ps)) as Hnd. rewrite <- Hperm' in Hnd.
        apply NoDup_app in Hnd as (_ & Hdis & _). eapply (Hdis (Z.to_nat (fr_index g))); [|by left].
        apply Hin. apply Forall_inv in Hps. exact (lookup_lt_Some _ _ _ Hps). }
      rewrite Hnot. cbn [outcome_bind].
      destruct (IH Hps (<[fr_base f := slots]> st) seen') as (st' & out & E' & Ho & Hk); [| |done|done|].
      { destruct Hf as (Hc & _). apply sized_insert; [congruence|done]. }
      { unfold progress. rewrite Eb. transitivity (Some slots); [apply lookup_insert_eq|by rewrite Hsl]. }
      rewrite E'. cbn [outcome_bind]. eexists _, _. by split_and!.
  - rewrite filter_cons_False in Hps, Hperm, Hsome by exact Eb.
    destruct (reassemble_one counts st f Hf Hs) as (st1 & w & E & Hs1 & Hk). rewrite E. cbn [outcome_bind].
    destruct (IH Hps st1 seen Hs1) as (st' & out & E' & Ho & Hk'); [by rewrite Hk|done|done|].
    rewrite E'. cbn [outcome_bind]. eexists _, _. split; [done|]. split; [|done].
    destruct w; [|done]. by rewrite filter_cons_False by (cbn; congruence).
Qed.

(** C18: reassembly in any order.  Fragments of any number of messages arrive
    interleaved, in any order, those of message [b] each once and with the
    number of fragments its sender announced.  Then no fragment makes
    [reassemblePacket] panic, message [b] is completed exactly once, as the
    sequence of its pieces in order, and its entry of the store is gone. *)
Theorem reassembly_any_order (counts : Z -> Z) (fs : list fragment) (b : Z) (ps : list (list byte)) :
  Forall (honest counts) fs -> Z.of_nat (length ps) = counts b -> ps <> [] -> Forall (fun p => p <> []) ps ->
  Forall (fun f => ps !! Z.to_nat (fr_index f) = Some (concat (fr_wire f))) (filter (of_message b) fs) ->
  (Z.to_nat ∘ fr_index <$> filter (of_message b) fs) ≡ₚ seq 0 (length ps) ->
  exists st out, run_reassembly fs ∅ = Ok (st, out) /\ filter (fun o => o.1 = b) out = [(b, ps)] /\ st !! b = None.
Proof.
  intros Hh Hn Hnil Hne Hps Hperm. apply (run_message counts b ps fs Hh Hn Hne Hps ∅ []); [done|done|done|].
  intros E. rewrite E in Hperm. cbn in Hperm. apply Permutation_nil_l in Hperm. by destruct ps.
Qed.

End reassembly.

(** ** Dispatching and panics *)

Section dispatching.
Context `{LpCodec} `{EncLaws} {T : Type} {TR : Transport T}.
Context (congestionMarking : bool) (config : Config) (fwThreads : Z).

(** Queueing a packet to several threads, one after the other. *)
Definition queue_many (q : nat -> Thread -> Thread) (pp : nat) (ids : list Z) (ts : list Thread) : list Thread :=
  fold_left (fun ts id => alter (q pp) (Z.to_nat id) ts) ids ts.

Lemma GetFWThread_in id n : (0 <= id < Z.of_nat (length (FWDispatch n)))%Z ->
  exists t, GetFWThread id n = Ok (Some t) /\ FWDispatch n !! Z.to_nat id = Some t.
Proof.
  intros Hid. unfold GetFWThread. replace ((id <? 0) || (Z.of_nat (length (FWDispatch n)) <? id))%Z with false by lia.
  destruct (lookup_lt_is_Some_2 (FWDispatch n) (Z.to_nat id) ltac:(lia)) as [t Ht]. rewrite Ht. by exists t.
Qed.

Lemma queue_to_in q pp id n : (0 <= id < Z.of_nat (length (FWDispatch n)))%Z ->
  queue_to q pp id n = Ok (mkNet (alter (q pp) (Z.to_nat id) (FWDispatch n)) (net_packets n)).
Proof.
  intros Hid. destruct (GetFWThread_in id n Hid) as (t & Et & Hl). unfold queue_to. rewrite Et. cbn [outcome_bind].
  do 2 f_equal. apply list_eq. intros i. destruct (decide (i = Z.to_nat id)) as [->|Hne].
  - rewrite list_lookup_insert_eq by lia. by rewrite list_lookup_alter_eq, Hl.
  - by rewrite list_lookup_insert_ne, list_lookup_alter_ne by done.
Qed.

Lemma queue_to_all_in q pp ids n : Forall (fun id => 0 <= id < Z.of_nat (length (FWDispatch n)))%Z ids ->
  queue_to_all q pp ids n = Ok (mkNet (queue_many q pp ids (FWDispatch n)) (net_packets n)).
Proof.
  revert n. induction ids as [|id ids IH]; intros n Hf; cbn [queue_to_all]; [by destruct n|].
  apply Forall_cons in Hf as [Hid Hf]. rewrite queue_to_in by done. cbn [outcome_bind].
  rewrite IH; [done|]. cbn [FWDispatch]. by rewrite length_alter.
Qed.

(** Where an incoming packet goes.  With as many threads as names are
    hashed to, an Interest is queued to the one thread its name hashes to; Data
    with a 6-byte PIT token to the thread in its first two bytes, dropped when
    there is no such thread, except that the number of threads itself passes
    the check of [GetFWThread] and panics; other Data of local faces, its token
    erased, once per prefix to the thread of that prefix; other Data of
    non-local faces is dropped. *)
Lemma incoming_dispatch_spec (l : LinkService T) pp p n :
  (0 < fwThreads)%Z -> Z.of_nat (length (FWDispatch n)) = fwThreads ->
  match Enc p with
  | EncInterest i =>
      exists h, HashNameToFwThread fwThreads (NameV i) = Ok h /\ (0 <= h < fwThreads)%Z /\
        dispatchIncomingPacket config fwThreads l pp p n =
          Ok (mkNet (alter (QueueInterest config pp) (Z.to_nat h) (FWDispatch n))
                (<[pp := set_NameCache (Name_String (NameV i)) p]> (net_packets n)))
  | EncData d =>
      let p' := set_NameCache (Name_String (DataNameV d)) p in
      let id := be_get (take 2 (PitToken p)) in
      if decide (length (PitToken p) = 6) then
        dispatchIncomingPacket config fwThreads l pp p n =
          if (id <? fwThreads)%Z then
            Ok (mkNet (alter (QueueData config pp) (Z.to_nat id) (FWDispatch n)) (<[pp := p']> (net_packets n)))
          else if (id =? fwThreads)%Z then Panic
          else Ok (keep_packet pp p' n)
      else if decide (tr_scope (transport l) = Local) then
        exists ids, HashNameToAllPrefixFwThreads fwThreads (DataNameV d) = Ok ids /\
          dispatchIncomingPacket config fwThreads l pp p n =
            Ok (mkNet (queue_many (QueueData config) pp ids (FWDispatch n)) (<[pp := set_PitToken [] p']> (net_packets n)))
      else dispatchIncomingPacket config fwThreads l pp p n = Ok (keep_packet pp p' n)
  end.
Proof.
  intros Hpos Hlen. unfold dispatchIncomingPacket. destruct (Enc p) as [i|d].
  - assert (exists h, HashNameToFwThread fwThreads (NameV i) = Ok h /\ (0 <= h < fwThreads)%Z) as (h & Eh & Hh).
    { unfold HashNameToFwThread. case_match; [exists 0%Z; split; [done|lia]|].
      replace (fwThreads =? 0)%Z with false by lia. eexists. split; [done|]. by apply Z.mod_pos_bound. }
    exists h. split_and!; [done|lia|lia|]. rewrite Eh. cbn [outcome_bind]. rewrite queue_to_in by (cbn; lia). done.
  - cbn [PitToken set_NameCache]. destruct (decide (length (PitToken p) = 6)) as [E6|E6].
    + rewrite E6. cbn [Nat.eqb]. set (id := be_get (take 2 (PitToken p))).
      assert (0 <= id)%Z by (unfold id; pose proof (be_get_range (take 2 (PitToken p))); lia).
      destruct (Z.ltb_spec id fwThreads).
      * destruct (GetFWThread_in id n) as (t & Et & _); [lia|]. rewrite Et. cbn [outcome_bind].
        rewrite queue_to_in by (cbn; lia). done.
      * unfold GetFWThread. rewrite Hlen. destruct (Z.eqb_spec id fwThreads) as [->|].
        -- replace ((fwThreads <? 0) || (fwThreads <? fwThreads))%Z with false by lia.
           rewrite (lookup_ge_None_2 (FWDispatch n)) by lia. done.
        -- replace ((id <? 0) || (fwThreads <? id))%Z with true by lia. done.
    + replace (length (PitToken p) =? 6) with false by (symmetry; by apply Nat.eqb_neq).
      destruct (decide (tr_scope (transport l) = Local)) as [Hs|Hs]; [rewrite bool_decide_true by done|by rewrite bool_decide_false].
      assert (exists ids, HashNameToAllPrefixFwThreads fwThreads (DataNameV d) = Ok ids /\
        Forall (fun id => 0 <= id < fwThreads)%Z ids) as (ids & Eids & Hids).
      { unfold HashNameToAllPrefixFwThreads. case_match; [eexists; split; [done|]; constructor; [lia|done]|].
        replace (fwThreads =? 0)%Z with false by lia. cbn [andb]. eexists. split; [done|].
        apply Forall_fmap, Forall_true. intros h. cbn. by apply Z.mod_pos_bound. }
      exists ids. split; [done|]. rewrite Eids. cbn [outcome_bind]. rewrite queue_to_all_in; [done|]. cbn. by rewrite Hlen.
Qed.

(** Inputs that stop the process.  With reliability enabled every packet
    that would be sent panics: the map of its unacknowledged fragments is never
    made.  With reassembly enabled a frame whose fragment index is not below
    the number of fragments it announces panics when it is the first of its
    message. *)
Lemma link_inputs_panic now tok p (l : LinkService T) f rest pp wire n lp i s :
  (tr_state (transport l) = Up -> IsReliabilityEnabled (options l) = true ->
   fragments_of (options l) (effectiveMtu l tok p) [RawBytes p] = Ok (Some (f :: rest)) ->
   sendPacket congestionMarking now tok p l = Panic) /\
  (IsReassemblyEnabled (options l) = true -> ReadPacket [wire] = Some (lp_packet lp) -> Fragment lp <> [] ->
   Sequence lp = Some s -> FragIndex lp = Some i -> (0 < i)%Z -> (0 <= default 1 (FragCount lp) <= i)%Z ->
   partialMessageStore l !! u64 (s - i) = None ->
   processIncomingFrame config fwThreads pp wire l n = Panic).
Proof.
  split.
  - intros Hup Hrel Hfr. unfold sendPacket. rewrite bool_decide_true by done. cbn [negb].
    destruct (count_sent_fields congestionMarking p l) as (Co & _ & Ce & _). rewrite Co, Ce, Hfr. cbn [outcome_bind].
    unfold number. rewrite Co, Hrel, orb_true_r. cbn [number_loop fst snd].
    unfold mark_congestion. set (l2 := set_nextSequence _ _).
    assert (Ho : IsReliabilityEnabled (options l2) = true) by (unfold l2; cbn; by rewrite Co).
    case_match; cbn [on_first outcome_bind]; unfold track; cbn [options set_marked]; rewrite Ho; done.
  - intros Hr Hread Hne Hseq Hi Hpos Hc Hst. unfold processIncomingFrame. rewrite Hread. cbn [sp_lp lp_packet].
    destruct (Fragment lp) as [|b bs] eqn:Ef; [done|]. cbn [length Nat.eqb]. unfold reassemble_frame.
    rewrite Hr, Hseq, Hi. cbn [default from_option id]. replace (i =? 0)%Z with false by lia. cbn [andb].
    unfold reassemblePacket. rewrite Hst. unfold make_buffers. case_match; [done|]. cbn [outcome_bind].
    unfold go_set_index. rewrite length_replicate, bool_decide_false by lia. done.
Qed.

End dispatching.

(** ** Examples *)

Module LinkExamples.
#[local] Existing Instance ref_ops.
#[local] Existing Instance ref_laws.
#[local] Existing Instance ref_codec.
#[local] Existing Instance ref_codec_laws.

(** A transport with a given MTU that records the frames and never blocks. *)
Definition Sink := list (list byte).
Definition sink (m : Z) : Transport Sink := {|
  tr_state _ := Up; tr_mtu _ := m; tr_scope _ := NonLocal; tr_sendQueueSize _ := 0%Z;
  tr_sendFrame f t := Some (t ++ [f]) |}.

Definition interest : Interest := mkInterest [gc ""] false false None (Some 7%Z) None.
Definition interest_spec : SpecPacket := mkSpec (Some interest) None None.
Definition raw : list byte := pos_bytes (encode interest_spec).
Definition packet : PendingPacket :=
  mkPending [x00; x01; x00; x00; x00; x05] None (Some 3%Z) None None (EncInterest interest) raw [].
Definition opts (frag reassembly reliability : bool) : Options :=
  mkOptions frag reassembly reliability 0 0 true true false false (100 * 1000000) (2 ^ 16).
Definition link (o : Options) : LinkService Sink := MakeNDNLPLinkService [] o.
Definition net : Net := mkNet [NewThread 0; NewThread 1] ∅.
Definition cfg : Config := mkConfig true true 10 6000 100.

Lemma raw_length : length raw = 2304.
Proof. vm_compute. reflexivity. Qed.
Lemma raw_small : small (Z.of_nat (length raw)).
Proof. rewrite raw_length. vm_compute. split; congruence. Qed.
Lemma raw_nonempty : raw <> [].
Proof. intros E. pose proof raw_length as Hl. by rewrite E in Hl. Qed.

Lemma packet_crosses_link_witness :
  exists frame l', sendPacket (TR := sink 100000) false 0 false packet (link (opts false false false)) = Ok (Returns, l') /\
    transport l' = [frame].
Proof.
  destruct (packet_crosses_link (TR := sink 100000) false cfg 2 0 false packet (link (opts false false false))
    interest_spec (EncInterest interest)) as (frame & Hsend & _).
  - reflexivity.
  - reflexivity.
  - reflexivity.
  - exact raw_nonempty.
  - split; [cbn; lia|exact I].
  - exact raw_small.
  - cbn [RawBytes packet]. rewrite raw_length. vm_compute. discriminate.
  - exact (ref_codec_read _).
  - reflexivity.
  - destruct (Hsend [frame] eq_refl) as (l' & E & Et & _). by exists frame, l'.
Defined.

Lemma fragmentation_blocks_witness :
  exists f rest frame l', fragments_of (opts true false false) 958 [raw] = Ok (Some (f :: rest)) /\
    sendPacket (TR := sink 1000) false 0 false packet (link (opts true false false)) = Ok (Blocks, l') /\
    transport l' = [frame].
Proof.
  pose proof (fragmentation_blocks (TR := sink 1000) false 0 false packet (link (opts true false false))) as Hf.
  cbv zeta in Hf.
  assert (He : effectiveMtu (TR := sink 1000) (link (opts true false false)) false packet = 958%Z) by reflexivity.
  rewrite He in Hf. cbn [IsFragmentationEnabled options link MakeNDNLPLinkService opts] in Hf.
  destruct Hf as (f & rest & frame & d & w & l' & Efr & _ & _ & Es & Et & _).
  - reflexivity.
  - reflexivity.
  - reflexivity.
  - split; [cbn; lia|exact I].
  - exact raw_small.
  - cbn. lia.
  - intros g t. by exists (t ++ [g]).
  - cbn [RawBytes packet]. rewrite raw_length. lia.
  - exists f, rest, frame, l'. split_and!; [exact Efr|exact Es|]. by injection Et.
Defined.

(** Two interleaved messages, the first out of order. *)
Definition arrivals : list fragment :=
  [mkFragment 10 1 2 [[x02]]; mkFragment 20 0 2 [[x03]]; mkFragment 10 0 2 [[x01]]].

Lemma reassembly_any_order_witness :
  exists st out, run_reassembly arrivals ∅ = Ok (st, out) /\ filter (fun o => o.1 = 10%Z) out = [(10%Z, [[x01]; [x02]])] /\
    st !! 10%Z = None.
Proof.
  apply (reassembly_any_order (fun _ => 2%Z) arrivals 10 [[x01]; [x02]]).
  - repeat constructor; cbn; lia.
  - reflexivity.
  - discriminate.
  - repeat constructor; discriminate.
  - change (filter (of_message 10) arrivals) with [mkFragment 10 1 2 [[x02]]; mkFragment 10 0 2 [[x01]]].
    repeat constructor.
  - change (filter (of_message 10) arrivals) with [mkFragment 10 1 2 [[x02]]; mkFragment 10 0 2 [[x01]]].
    cbn. apply Permutation_swap.
Defined.

Lemma incoming_dispatch_witness :
  exists h, HashNameToFwThread 2 (NameV interest) = Ok h /\ (0 <= h < 2)%Z.
Proof.
  destruct (incoming_dispatch_spec (TR := sink 100000) cfg 2 (link (opts false false false)) 0 packet net)
    as (h & Eh & Hh & _); [lia|reflexivity|]. by exists h.
Defined.

(** The first fragment of a message claims to be its third of two. *)
Definition bad_frame : LpPacket := mkLp (Some 12%Z) (Some 2%Z) (Some 2%Z) [] None None None None None None [[x01]].

Lemma link_inputs_panic_witness :
  sendPacket (TR := sink 100000) false 0 false packet (link (opts false false true)) = Panic /\
  processIncomingFrame (TR := sink 100000) cfg 2 0 (pos_bytes (encode (lp_packet bad_frame)))
    (link (opts false true false)) net = Panic.
Proof.
  split.
  - apply (link_inputs_panic (TR := sink 100000) false cfg 2 0 false packet (link (opts false false true))
      (lp_of_fragment [raw]) [] 0 [] net bad_frame 0 0); [reflexivity|reflexivity|].
    vm_compute. reflexivity.
  - apply (link_inputs_panic (TR := sink 100000) false cfg 2 0 false packet (link (opts false true false))
      (lp_of_fragment [raw]) [] 0 (pos_bytes (encode (lp_packet bad_frame))) net bad_frame 2 12);
      [reflexivity|exact (ref_codec_read _)|discriminate|reflexivity|reflexivity|lia|cbn; lia|reflexivity].
Defined.

End LinkExamples.
