(* ===== verification/Reassembly.v ===== *)
(** * Reassembly by concurrent goroutines: face/ndnlp-link-service.go

    [handleIncomingFrame] starts a goroutine for every frame, and nothing guards
    the map [partialMessageStore].  LinkService.v treats [reassemblePacket] as one
    step; here its accesses of the map are steps of their own and the goroutines
    of the fragments interleave.  Each access is one atomic step here.  In the
    program it is not: the map is not synchronised, and when the runtime detects
    two goroutines in it at once, one of them writing, it ends the process
    ("concurrent map writes", which nothing recovers from); [writers_meet] shows
    that the schedules below come to that point.  The theorems are on what the
    goroutines compute when the runtime does not step in. *)
From S2P Require Import Prelude.
From stdpp Require Import relations.
From S2P Require Import Enc Packet PitCs Fw Transport LinkService LinkProps.

(** ** Goroutines *)

(** Where the goroutine of a fragment is in [reassemblePacket]: before the lookup
    of the entry, its creation, the store of the fragment, the loop that counts;
    before the comparison of what was counted; before the allocation of the
    result, the loop that fills it (its length known), the deletion of the entry;
    returned. *)
Inductive pc :=
| AtLookup | AtCreate | AtStore | AtCount
| AtCompare (receivedCount : nat) | AtMake | AtCopy (n : nat) | AtDelete (reassembled : list (list byte))
| Returned (result : option (list (list byte))).

Record Reassembling := mkReassembling { partial : store; procs : list (fragment * pc) }.

Section steps.
Context `{LpCodec}.

(** An entry that is not there reads as a nil slice. *)
Definition entry (b : Z) (st : store) : list (list byte) := default [] (st !! b).

(** The next step of a goroutine; [None] when it has returned. *)
Definition pc_step (f : fragment) (p : pc) (st : store) : option (outcome (pc * store)) :=
  let b := fr_base f in
  match p with
  | AtLookup => Some (Ok (match st !! b with Some _ => AtStore | None => AtCreate end, st))
  | AtCreate => Some (let* s := make_buffers (fr_count f) in Ok (AtStore, <[b := s]> st))
  | AtStore => Some (let* s := go_set_index (fr_index f) (Wire_Join (fr_wire f)) (entry b st) in Ok (AtCount, <[b := s]> st))
  | AtCount => Some (Ok (AtCompare (received (entry b st)), st))
  | AtCompare receivedCount => Some (Ok (if receivedCount =? length (entry b st) then AtMake else Returned None, st))
  | AtMake => Some (Ok (AtCopy (length (entry b st)), st))
  | AtCopy n =>
      Some (if n <? length (entry b st) then Panic
            else Ok (AtDelete (entry b st ++ replicate (n - length (entry b st)) []), st))
  | AtDelete w => Some (Ok (Returned (Some w), delete b st))
  | Returned _ => None
  end.

(** Goroutine [i] goes on: [None] when there is none or it has returned. *)
Definition exec (i : nat) (s : Reassembling) : option (outcome Reassembling) :=
  '(f, p) ← procs s !! i;
  r ← pc_step f p (partial s);
  Some (let* (p', st) := r in Ok (mkReassembling st (<[i := (f, p')]> (procs s)))).

(** A schedule: which goroutine goes on; one that cannot is passed over. *)
Fixpoint run (schedule : list nat) (s : Reassembling) : outcome Reassembling :=
  match schedule with
  | [] => Ok s
  | i :: schedule => let* s := default (Ok s) (exec i s) in run schedule s
  end.

Definition arrived (fs : list fragment) (st : store) : Reassembling := mkReassembling st ((fun f => (f, AtLookup)) <$> fs).

(** What was reassembled for a message. *)
Definition results (b : Z) (s : Reassembling) : list (list (list byte)) :=
  omap (fun '(f, p) => match p with Returned (Some w) => if decide (fr_base f = b) then Some w else None | _ => None end) (procs s).

End steps.

(** ** One goroutine alone *)

Section alone.
Context `{LpCodec}.

Lemma run_cons i ks s : run (i :: ks) s = (let* s := default (Ok s) (exec i s) in run ks s).
Proof. done. Qed.

Lemma exec_alone f p st : exec 0 (mkReassembling st [(f, p)]) =
  (r ← pc_step f p st; Some (let* (p', st) := r in Ok (mkReassembling st [(f, p')]))).
Proof. done. Qed.

Lemma run_returned k f w st : run (replicate k 0) (mkReassembling st [(f, Returned w)]) = Ok (mkReassembling st [(f, Returned w)]).
Proof. induction k as [|k IH]; [done|exact IH]. Qed.

#[local] Ltac go_on b := rewrite run_cons, exec_alone; cbn [pc_step]; fold b; unfold entry; rewrite ?lookup_insert_eq;
  cbn [mbind option_bind default from_option id outcome_bind]; rewrite ?Nat.ltb_irrefl, ?Nat.sub_diag; cbn [replicate];
  rewrite ?app_nil_r; cbn [mbind option_bind default from_option id outcome_bind].

Lemma run_from_store f st st0 slots k : st0 !! fr_base f = Some slots -> (forall s, <[fr_base f := s]> st0 = <[fr_base f := s]> st) ->
  run (replicate (6 + k) 0) (mkReassembling st0 [(f, AtStore)]) =
  (let* slots' := go_set_index (fr_index f) (Wire_Join (fr_wire f)) slots in
   Ok (if received slots' =? length slots' then mkReassembling (delete (fr_base f) st) [(f, Returned (Some slots'))]
       else mkReassembling (<[fr_base f := slots']> st) [(f, Returned None)])).
Proof.
  intros Hst Heq. set (b := fr_base f) in *. cbn [replicate Nat.add].
  rewrite run_cons, exec_alone. cbn [pc_step]. fold b. unfold entry. rewrite Hst.
  cbn [mbind option_bind default from_option id]. destruct (go_set_index _ _ _) as [slots'| |]; cbn [outcome_bind]; [|done|done].
  rewrite Heq. do 2 go_on b. destruct (received slots' =? length slots').
  - do 3 go_on b. rewrite run_returned. by rewrite delete_insert_eq.
  - do 3 go_on b. by rewrite run_returned.
Qed.

(** Alone, a goroutine does what [reassemblePacket] does as one step. *)
Lemma run_alone f st :
  run (replicate 8 0) (arrived [f] st) =
  (let* (st', w) := reassemblePacket (fr_wire f) (fr_base f) (fr_index f) (fr_count f) st in
   Ok (mkReassembling st' [(f, Returned w)])).
Proof.
  unfold arrived, reassemblePacket. cbn [fmap list_fmap]. change (replicate 8 0) with (0 :: 0 :: replicate 6 0).
  rewrite run_cons, exec_alone. cbn [pc_step mbind option_bind default from_option id outcome_bind].
  destruct (st !! fr_base f) as [slots|] eqn:Eb; cbn [outcome_bind].
  - change (0 :: replicate 6 0) with (replicate (6 + 1) 0). rewrite (run_from_store f st st slots 1 Eb) by done.
    destruct (go_set_index _ _ _) as [slots'| |]; [|done|done]. cbn [outcome_bind]. by destruct (_ =? _).
  - rewrite run_cons, exec_alone. cbn [pc_step mbind option_bind default from_option id].
    destruct (make_buffers (fr_count f)) as [s| |]; cbn [outcome_bind]; [|done|done].
    change (replicate 6 0) with (replicate (6 + 0) 0).
    rewrite (run_from_store f st (<[fr_base f := s]> st) s 0); [|apply lookup_insert_eq|intros; apply insert_insert_eq].
    destruct (go_set_index _ _ _) as [slots'| |]; [|done|done]. cbn [outcome_bind]. by destruct (_ =? _).
Qed.
End alone.

(** ** Any schedule *)

Section interleaved.
Context `{LpCodecLaws}.
(** The pieces of the messages by their first sequence numbers, and their
    fragments: each piece comes once at most. *)
Context (pieces : Z -> list (list byte)) (fs : list fragment).

Definition good_fragment (f : fragment) : Prop :=
  fr_count f = Z.of_nat (length (pieces (fr_base f))) /\ (fr_count f * 24 <= 2 ^ 48)%Z /\ (0 <= fr_index f)%Z /\
  pieces (fr_base f) !! Z.to_nat (fr_index f) = Some (concat (fr_wire f)) /\ concat (fr_wire f) <> [].

Context (Hgood : Forall good_fragment fs) (Hnodup : NoDup ((fun f => (fr_base f, fr_index f)) <$> fs)).

Definition stored_pc (p : pc) : bool := match p with AtLookup | AtCreate | AtStore => false | _ => true end.

(** Piece [i] of message [b] has been stored by its goroutine; all have. *)
Definition has_stored (b : Z) (i : nat) (s : Reassembling) : Prop :=
  exists k f p, procs s !! k = Some (f, p) /\ fr_base f = b /\ Z.to_nat (fr_index f) = i /\ stored_pc p = true.
Definition all_stored (b : Z) (s : Reassembling) : Prop := forall i, i < length (pieces b) -> has_stored b i s.

(** The entry is gone, or it is gone or whole. *)
Definition gone (b : Z) (s : Reassembling) : Prop := partial s !! b = None.
Definition whole (b : Z) (s : Reassembling) : Prop := partial s !! b = Some (pieces b).

Definition result_ok (b : Z) (w : list (list byte)) : Prop := w = pieces b \/ concat w = [].

Definition pc_ok (b : Z) (p : pc) (s : Reassembling) : Prop :=
  match p with
  | AtLookup | AtCreate | Returned None => True
  | AtStore => ~ gone b s
  | AtCount => gone b s -> all_stored b s
  | AtCompare r => (gone b s -> all_stored b s) /\ (r = length (pieces b) -> all_stored b s /\ (gone b s \/ whole b s))
  | AtMake => all_stored b s /\ (gone b s \/ whole b s)
  | AtCopy n => all_stored b s /\ (gone b s \/ whole b s) /\ (n = length (pieces b) \/ n = 0 /\ gone b s)
  | AtDelete w => all_stored b s /\ result_ok b w
  | Returned (Some w) => all_stored b s /\ result_ok b w
  end.

Record inv (s : Reassembling) : Prop := {
  i_fragments : (procs s).*1 = fs;
  i_entries : forall b sl, partial s !! b = Some sl -> length sl = length (pieces b) /\
    forall i x, sl !! i = Some x -> x = [] \/ (pieces b !! i = Some x /\ has_stored b i s);
  i_procs : forall k f p, procs s !! k = Some (f, p) -> pc_ok (fr_base f) p s }.

Lemma proc_good s k f p : inv s -> procs s !! k = Some (f, p) -> good_fragment f.
Proof.
  intros Hi Hk. rewrite Forall_lookup in Hgood. apply (Hgood k). rewrite <- (i_fragments s Hi).
  by rewrite list_lookup_fmap, Hk.
Qed.

(** A goroutine that has not stored its piece keeps the message from being
    stored in full. *)
Lemma not_all_stored s k f p : inv s -> procs s !! k = Some (f, p) -> stored_pc p = false -> ~ all_stored (fr_base f) s.
Proof.
  intros Hi Hk Hp Hall. destruct (proc_good s k f p Hi Hk) as (_ & _ & H0' & Hl & _). apply lookup_lt_Some in Hl.
  destruct (Hall _ Hl) as (k' & f' & p' & Hk' & Hb & Hidx & Hp').
  destruct (proc_good s k' f' p' Hi Hk') as (_ & _ & H0'' & _).
  assert (k' = k); [|subst; rewrite Hk in Hk'; congruence].
  eapply (NoDup_lookup _ k' k (fr_base f, fr_index f) Hnodup).
  - rewrite <- (i_fragments s Hi), !list_lookup_fmap, Hk'. cbn. f_equal. f_equal; [done|lia].
  - rewrite <- (i_fragments s Hi), !list_lookup_fmap, Hk. done.
Qed.

(** A step of goroutine [k] of message [b]. *)
Section step.
Context (s : Reassembling) (k : nat) (f : fragment) (p p' : pc) (st : store).
Context (Hinv : inv s) (Hk : procs s !! k = Some (f, p)) (Hmono : stored_pc p = true -> stored_pc p' = true).
Let b := fr_base f.
Let s' := mkReassembling st (<[k := (f, p')]> (procs s)).

Lemma stored_mono c i : has_stored c i s -> has_stored c i s'.
Proof.
  intros (k' & f' & q & Hk' & Hb & Hi & Hq). destruct (decide (k' = k)) as [->|Hne].
  - rewrite Hk in Hk'. injection Hk' as <- <-. exists k, f, p'. cbn. rewrite list_lookup_insert_eq by (by eapply lookup_lt_Some).
    auto.
  - exists k', f', q. cbn. rewrite list_lookup_insert_ne by done. done.
Qed.

Lemma all_stored_mono c : all_stored c s -> all_stored c s'.
Proof. intros Ha i Hi. apply stored_mono, Ha, Hi. Qed.

(** What must be shown of the step: the entries of other messages are as they
    were, that of [b] is right, the goroutine is, and the others of [b] are. *)
Lemma step_inv :
  (forall c, c <> b -> st !! c = partial s !! c) ->
  (forall sl, st !! b = Some sl -> length sl = length (pieces b) /\
    forall i x, sl !! i = Some x -> x = [] \/ (pieces b !! i = Some x /\ has_stored b i s')) ->
  pc_ok b p' s' -> (forall q, pc_ok b q s -> (stored_pc q = false -> ~ all_stored b s) -> pc_ok b q s') -> inv s'.
Proof.
  intros Hother Hentry Hp' Hq. split.
  - cbn. rewrite list_fmap_insert. cbn. rewrite list_insert_id; [apply (i_fragments s Hinv)|]. by rewrite list_lookup_fmap, Hk.
  - intros c sl Hc. cbn in Hc. destruct (decide (c = b)) as [->|Hne]; [by apply Hentry|]. rewrite Hother in Hc by done.
    destruct (i_entries s Hinv c sl Hc) as [Hl Hx]. split; [done|]. intros i x Hi. destruct (Hx i x Hi) as [?|[? ?]]; [by left|right].
    split; [done|]. by apply stored_mono.
  - intros k' f' q Hk'. cbn in Hk'. destruct (decide (k' = k)) as [->|Hne].
    + rewrite list_lookup_insert_eq in Hk' by (by eapply lookup_lt_Some). by injection Hk' as <- <-.
    + rewrite list_lookup_insert_ne in Hk' by done. pose proof (i_procs s Hinv k' f' q Hk') as Hok.
      destruct (decide (fr_base f' = b)) as [Hb|Hb].
      * rewrite Hb in *. apply Hq; [done|]. intros Hs Hall. rewrite <- Hb in Hall. by apply (not_all_stored s k' f' q).
      * assert (Hg : gone (fr_base f') s' <-> gone (fr_base f') s) by (unfold gone; cbn; by rewrite Hother).
        assert (Hw : whole (fr_base f') s' <-> whole (fr_base f') s) by (unfold whole; cbn; by rewrite Hother).
        pose proof (all_stored_mono (fr_base f')) as Ha. destruct q as [| | | |r| |m|w|[w|]]; cbn in *; rewrite ?Hg, ?Hw; tauto.
Qed.
End step.

(** ** The other goroutines of the message *)

Section others.
Context (b : Z) (s s' : Reassembling) (Hmono : all_stored b s -> all_stored b s').

Lemma pc_ok_kept q : partial s' !! b = partial s !! b -> pc_ok b q s -> pc_ok b q s'.
Proof.
  intros E. assert (Hg : gone b s' <-> gone b s) by (unfold gone; by rewrite E).
  assert (Hw : whole b s' <-> whole b s) by (unfold whole; by rewrite E).
  destruct q as [| | | |r| |m|w|[w|]]; cbn; rewrite ?Hg, ?Hw; tauto.
Qed.

Lemma pc_ok_written q : ~ gone b s' -> ~ all_stored b s -> pc_ok b q s -> pc_ok b q s'.
Proof. intros Hg Ha. destruct q as [| | | |r| |m|w|[w|]]; cbn; tauto. Qed.

Lemma pc_ok_deleted q : gone b s' -> all_stored b s -> (stored_pc q = false -> ~ all_stored b s) -> pc_ok b q s -> pc_ok b q s'.
Proof.
  intros Hg Ha Hq. destruct q as [| | | |r| |m|w|[w|]]; cbn in *; try tauto; try (destruct (Hq eq_refl Ha)).
Qed.
End others.

(** When as many pieces are counted as there are, the entry is the message. *)
Lemma counted s f : inv s -> good_fragment f -> (gone (fr_base f) s -> all_stored (fr_base f) s) ->
  pc_ok (fr_base f) (AtCompare (received (entry (fr_base f) (partial s)))) s.
Proof.
  intros Hi (_ & _ & _ & Hl & _) Hg. set (b := fr_base f) in *. cbn. split; [done|]. apply lookup_lt_Some in Hl.
  unfold entry. destruct (partial s !! b) as [sl|] eqn:Eb; cbn [default from_option id].
  2: { intros E. unfold received in E. cbn in E. lia. }
  destruct (i_entries s Hi b sl Eb) as [Hlen Hx]. intros E. rewrite <- Hlen in E. apply length_filter_all in E.
  rewrite Forall_lookup in E.
  assert (Hall : forall i x, sl !! i = Some x -> pieces b !! i = Some x /\ has_stored b i s).
  { intros i x Hx'. destruct (Hx i x Hx') as [->|?]; [by destruct (E i [] Hx')|done]. }
  split.
  - intros i Hlt. rewrite <- Hlen in Hlt. apply lookup_lt_is_Some in Hlt as [x Hx']. apply (Hall i x Hx').
  - right. unfold whole. rewrite Eb. f_equal. apply list_eq_same_length with (length sl); [lia|done|].
    intros i x y _ Hx' Hy. destruct (Hall i x Hx') as [E' _]. congruence.
Qed.

(** The copy does not go past what was allocated, and gives the message or
    nothing. *)
Lemma copied s b n : inv s -> pc_ok b (AtCopy n) s ->
  (n <? length (entry b (partial s))) = false /\
  result_ok b (entry b (partial s) ++ replicate (n - length (entry b (partial s))) []).
Proof.
  intros Hi (Ha & Hgw & Hn). unfold gone, whole, entry, result_ok in *.
  assert (Hnil : forall k, concat (replicate k []) = ([] : list byte)) by (induction k; done).
  destruct Hgw as [E|E]; rewrite E in *; cbn [default from_option id].
  - split; [by destruct n|]. right. apply Hnil.
  - destruct Hn as [->|[_ ?]]; [|done]. split; [apply Nat.ltb_irrefl|]. left. rewrite Nat.sub_diag. by rewrite app_nil_r.
Qed.

(** ** The invariant is kept *)

#[local] Ltac step_cases Hinv Hk := eapply (step_inv _ _ _ _ _ _ Hinv Hk).

(** A step that leaves the map as it was. *)
Lemma step_reads s k f p p' : inv s -> procs s !! k = Some (f, p) -> stored_pc p' = stored_pc p ->
  (forall s', (all_stored (fr_base f) s -> all_stored (fr_base f) s') -> partial s' = partial s -> pc_ok (fr_base f) p' s') ->
  inv (mkReassembling (partial s) (<[k := (f, p')]> (procs s))).
Proof.
  intros Hi Hk Hp Hok. assert (Hm : stored_pc p = true -> stored_pc p' = true) by congruence.
  pose proof (all_stored_mono s k f p p' (partial s) Hk Hm) as Ha. step_cases Hi Hk; [done|done| | |].
  - intros sl Hb. destruct (i_entries s Hi _ sl Hb) as [Hl Hx]. split; [done|]. intros i x Hix.
    destruct (Hx i x Hix) as [?|[? ?]]; [by left|right]. split; [done|]. by eapply stored_mono.
  - by apply Hok; [apply Ha|].
  - intros q Hq _. by apply (pc_ok_kept _ s); [apply Ha| |].
Qed.

(** A step that writes an entry of the right form, by a goroutine that had not
    stored its piece. *)
Lemma step_writes s k f p p' sl : inv s -> procs s !! k = Some (f, p) -> stored_pc p = false ->
  let s' := mkReassembling (<[fr_base f := sl]> (partial s)) (<[k := (f, p')]> (procs s)) in
  length sl = length (pieces (fr_base f)) ->
  (forall i x, sl !! i = Some x -> x = [] \/ (pieces (fr_base f) !! i = Some x /\ has_stored (fr_base f) i s')) ->
  pc_ok (fr_base f) p' s' -> inv s'.
Proof.
  intros Hi Hk Hp s' Hlen Hx Hok. assert (Hm : stored_pc p = true -> stored_pc p' = true) by congruence.
  pose proof (not_all_stored s k f p Hi Hk Hp) as Hnot. step_cases Hi Hk; [done| | |done|].
  - intros c Hc. by rewrite lookup_insert_ne.
  - intros sl' Hb. rewrite lookup_insert_eq in Hb. injection Hb as <-. by split.
  - intros q Hq _. apply (pc_ok_written _ s); [by intros ?%Hnot| |exact Hnot|exact Hq]. unfold gone. cbn. by rewrite lookup_insert_eq.
Qed.

Lemma step_deletes s k f w : inv s -> procs s !! k = Some (f, AtDelete w) ->
  inv (mkReassembling (delete (fr_base f) (partial s)) (<[k := (f, Returned (Some w))]> (procs s))).
Proof.
  intros Hi Hk. destruct (i_procs s Hi k f _ Hk) as [Ha Hw].
  pose proof (all_stored_mono s k f (AtDelete w) (Returned (Some w)) (delete (fr_base f) (partial s)) Hk (fun H => H)) as Hm.
  step_cases Hi Hk; [done| | | |].
  - intros c Hc. by rewrite lookup_delete_ne.
  - intros sl Hb. by rewrite lookup_delete_eq in Hb.
  - split; [by apply Hm|done].
  - intros q Hq Hs. apply (pc_ok_deleted _ s); [by apply Hm| |done|done|done]. unfold gone. cbn. by rewrite lookup_delete_eq.
Qed.

(** Every step keeps the invariant, and none stops the process. *)
Lemma exec_keeps i s r : inv s -> exec i s = Some r -> exists s', r = Ok s' /\ inv s'.
Proof.
  intros Hi. unfold exec. destruct (procs s !! i) as [[f p]|] eqn:Hk; [|done]. cbn [mbind option_bind].
  pose proof (proc_good s i f p Hi Hk) as Hf. pose proof Hf as (Hcount & Hsize & H0' & Hl & Hne).
  pose proof (lookup_lt_Some _ _ _ Hl) as Hlt. pose proof (i_procs s Hi i f p Hk) as Hok.
  destruct p as [| | | |r'| |n|w|w]; cbn [pc_step mbind option_bind]; [..|done]; intros [= <-].
  - cbn [outcome_bind]. eexists. split; [done|]. destruct (partial s !! fr_base f) eqn:Eb; apply (step_reads s i f AtLookup); try done.
    intros s' _ E. unfold pc_ok, gone. rewrite E, Eb. done.
  - unfold make_buffers. replace (2 ^ 48 <? fr_count f * 24)%Z with false by lia. cbn [outcome_bind].
    eexists. split; [done|]. apply (step_writes s i f AtCreate); try done.
    + rewrite length_replicate. lia.
    + intros j x [-> _]%lookup_replicate. by left.
    + cbn. unfold gone. cbn. by rewrite lookup_insert_eq.
  - unfold gone in Hok. cbn in Hok. destruct (partial s !! fr_base f) as [sl|] eqn:Eb; [|done].
    destruct (i_entries s Hi _ sl Eb) as [Hlen Hx]. unfold entry. rewrite Eb. cbn [default from_option id].
    unfold go_set_index. rewrite bool_decide_true by lia. cbn [outcome_bind]. eexists. split; [done|].
    apply (step_writes s i f AtStore); try done.
    + by rewrite length_insert.
    + intros j x Hj. apply list_lookup_insert_Some in Hj as [(<- & <- & _)|[_ Hj]].
      * right. rewrite Wire_Join_spec. split; [done|]. exists i, f, AtCount. cbn. rewrite list_lookup_insert_eq by (by eapply lookup_lt_Some). done.
      * destruct (Hx j x Hj) as [?|[? ?]]; [by left|right]. split; [done|]. by apply (stored_mono s i f AtStore).
    + unfold pc_ok, gone. cbn. by rewrite lookup_insert_eq.
  - cbn [outcome_bind]. eexists. split; [done|]. apply (step_reads s i f AtCount); try done.
    intros s' Ha E. pose proof (counted s f Hi Hf Hok) as Hc. by apply (pc_ok_kept _ s); [|rewrite E|].
  - cbn [outcome_bind]. eexists. split; [done|]. destruct (r' =? length (entry (fr_base f) (partial s))) eqn:Er; apply (step_reads s i f (AtCompare r')); try done.
    intros s' Ha E. apply (pc_ok_kept _ s); [done|by rewrite E|]. destruct Hok as [Hg Hr]. unfold entry in Er. cbn.
    destruct (partial s !! fr_base f) as [sl|] eqn:Eb; cbn [default from_option id] in Er; [|by split; [apply Hg|left]].
    apply Hr. destruct (i_entries s Hi _ sl Eb) as [Hlen _]. apply Nat.eqb_eq in Er. lia.
  - cbn [outcome_bind]. eexists. split; [done|]. apply (step_reads s i f AtMake); try done.
    intros s' Ha E. apply (pc_ok_kept _ s); [done|by rewrite E|]. destruct Hok as [Hall Hgw]. split; [done|]. split; [done|].
    unfold entry, gone, whole in *. destruct Hgw as [Eb|Eb]; rewrite Eb; [by right|by left].
  - destruct (copied s _ n Hi Hok) as [-> Hw]. cbn [outcome_bind]. eexists. split; [done|]. apply (step_reads s i f (AtCopy n)); try done.
    intros s' Ha E. split; [apply Ha, Hok|done].
  - cbn [outcome_bind]. eexists. split; [done|]. by apply step_deletes.
Qed.

Lemma run_inv schedule : forall s, inv s -> exists s', run schedule s = Ok s' /\ inv s'.
Proof.
  induction schedule as [|i schedule IH]; intros s Hi; [by eexists|]. rewrite run_cons.
  destruct (exec i s) as [r|] eqn:E; [|exact (IH s Hi)]. destruct (exec_keeps i s r Hi E) as (s' & -> & Hi'). exact (IH s' Hi').
Qed.

Lemma arrived_inv : inv (arrived fs ∅).
Proof.
  split.
  - cbn. rewrite <- list_fmap_compose. apply list_fmap_id.
  - intros b sl Hb. done.
  - intros k f p Hk. cbn in Hk. rewrite list_lookup_fmap in Hk. destruct (fs !! k); [|done]. by injection Hk as <- <-.
Qed.

Lemma results_ok b w s : inv s -> w ∈ results b s -> result_ok b w.
Proof.
  intros Hi (x & Hx & Hw)%list_elem_of_omap. apply list_elem_of_lookup in Hx as [k Hk]. destruct x as [f p].
  pose proof (i_procs s Hi k f p Hk) as Hok. destruct p as [| | | |r| |n|w'|[w'|]]; try done. case_decide; [|done].
  injection Hw as ->. destruct Hok as [_ Hok]. subst b. exact Hok.
Qed.

(** C19: whatever the order of the goroutines' accesses to the map, each taken as
    atomic, when every piece of every message arrives once at most and none is
    empty, no goroutine indexes out of a slice, and all that is passed on for a
    message is the message, or nothing: never a part of it, nor pieces of two.
    (The runtime may end the process when accesses coincide, which the theorem
    leaves out, see [writers_meet].) *)
Theorem reassembly_interleaved schedule :
  exists s, run schedule (arrived fs ∅) = Ok s /\
    forall b w, w ∈ results b s -> w = pieces b \/ concat w = [].
Proof.
  destruct (run_inv schedule _ arrived_inv) as (s & Hs & Hi). exists s. split; [done|].
  intros b w. by apply results_ok.
Qed.
End interleaved.

(** ** Races *)

(** Two fragments of a message of two pieces. *)
Section races.
Context `{LpCodecLaws} (b : Z) (x y : list byte) (Hx : x <> []) (Hy : y <> []).

Definition piece (i : Z) (w : list byte) : fragment := mkFragment b i 2 [w].

Lemma piece_store i w l : 0 <= i < 2 -> length l = 2 -> go_set_index (Z.of_nat i) (Wire_Join [w]) l = Ok (<[i := w]> l).
Proof.
  intros Hi Hl. unfold go_set_index. rewrite bool_decide_true by lia. rewrite Wire_Join_spec. cbn [concat].
  by rewrite app_nil_r, Nat2Z.id.
Qed.

(** Two goroutines of a message are both about to create its entry: the runtime ends
    the process if it sees their writes of the map coincide. *)
Lemma writers_meet : run [0; 1] (arrived [piece 0 x; piece 1 y] ∅) =
  Ok (mkReassembling ∅ [(piece 0 x, AtCreate); (piece 1 y, AtCreate)]).
Proof using Type. done. Qed.

Lemma received_pieces : received [x; []] = 1 /\ received [[]; y] = 1 /\ received [x; y] = 2.
Proof using Hx Hy. unfold received. by destruct x, y. Qed.

#[local] Ltac step := rewrite run_cons; unfold exec;
  cbn [procs partial lookup list_lookup mbind option_bind pc_step piece fr_base fr_count fr_index fr_wire]; unfold entry;
  rewrite ?lookup_empty, ?lookup_insert_eq, ?lookup_delete_eq, ?insert_insert_eq, ?insert_delete_eq, ?delete_insert_eq, ?delete_delete_eq;
  change 0%Z with (Z.of_nat 0); change 1%Z with (Z.of_nat 1);
  rewrite ?piece_store by (rewrite ?length_insert, ?length_replicate; cbn; lia);
  change (make_buffers 2) with (Ok (replicate 2 ([] : list byte)));
  cbn [default from_option id outcome_bind replicate insert list_insert length];
  rewrite ?(proj1 received_pieces), ?(proj1 (proj2 received_pieces)), ?(proj2 (proj2 received_pieces));
  cbn [Nat.eqb Nat.ltb Nat.leb Nat.sub app replicate default from_option id outcome_bind].

(** C20: nothing orders the goroutines of a message's fragments, and the races
    show, for a message of two pieces: it is lost when both goroutines find no
    entry before either makes it; it is passed on twice when both count after
    both have stored; and when the first fragment comes twice, the process stops
    when the copy stores its piece in the entry the others have deleted, or a
    packet that lacks the second piece is passed on, when it makes the entry anew
    before the goroutine that found the message complete copies it. *)
Theorem reassembly_races :
  (exists ks s, run ks (arrived [piece 0 x; piece 1 y] ∅) = Ok s /\ (procs s).*2 = [Returned None; Returned None]) /\
  (exists ks s, run ks (arrived [piece 0 x; piece 1 y] ∅) = Ok s /\ results b s = [[x; y]; [x; y]]) /\
  (exists ks, run ks (arrived [piece 0 x; piece 1 y; piece 0 x] ∅) = Panic) /\
  (exists ks s, run ks (arrived [piece 0 x; piece 1 y; piece 0 x] ∅) = Ok s /\ results b s = [[x; y]; [x; []]]).
Proof using All.
  unfold arrived. cbn [fmap list_fmap]. split; [|split; [|split]].
  - exists [0; 1; 0; 0; 0; 0; 1; 1; 1; 1]. eexists. do 10 step. done.
  - exists [0; 0; 1; 0; 1; 0; 1; 0; 1; 0; 1; 0; 1; 0; 1]. eexists. do 15 step.
    split; [done|]. unfold results. cbn. by rewrite !decide_True by done.
  - exists [0; 0; 2; 0; 1; 1; 1; 1; 1; 1; 1; 2]. do 12 step. done.
  - exists [0; 0; 0; 1; 1; 0; 1; 0; 1; 0; 1; 0; 0; 2; 2; 2; 1; 1]. eexists. do 18 step.
    split; [done|]. unfold results. cbn. by rewrite !decide_True by done.
Qed.
End races.

(** ** Witnesses *)

Module ReassemblyExamples.
#[local] Existing Instance ref_codec.
#[local] Existing Instance ref_codec_laws.

Definition ex_pieces (b : Z) : list (list byte) := if (b =? 10)%Z then [[x01]; [x02]] else [[x03]].
Definition ex_fragments : list fragment := [mkFragment 10 1 2 [[x02]]; mkFragment 20 0 1 [[x03]]; mkFragment 10 0 2 [[x01]]].

Lemma reassembly_interleaved_witness :
  exists s, run [0; 2; 1; 0; 2; 0; 1; 2; 1; 0; 2; 0; 2; 1] (arrived ex_fragments ∅) = Ok s /\
    forall b w, w ∈ results b s -> w = ex_pieces b \/ concat w = [].
Proof.
  apply (reassembly_interleaved ex_pieces ex_fragments).
  - repeat constructor; cbn; try lia; try reflexivity; discriminate.
  - apply (bool_decide_unpack _). vm_compute. exact I.
Defined.

Lemma reassembly_races_witness :
  (exists ks s, run ks (arrived [piece 10 0 [x01]; piece 10 1 [x02]] ∅) = Ok s /\ (procs s).*2 = [Returned None; Returned None]) /\
  exists ks, run ks (arrived [piece 10 0 [x01]; piece 10 1 [x02]; piece 10 0 [x01]] ∅) = Panic.
Proof.
  destruct (reassembly_races 10 [x01] [x02] ltac:(discriminate) ltac:(discriminate)) as (H1 & _ & H2 & _).
  split; [exact H1|exact H2].
Defined.

(** Without a race the message is passed on. *)
Example in_turn : (fun s => results 10 s) <$> (match run (replicate 8 0 ++ replicate 8 2) (arrived ex_fragments ∅) with Ok s => Some s | _ => None end)
  = Some [[[x01]; [x02]]].
Proof. vm_compute. reflexivity. Qed.
End ReassemblyExamples.
