(* ===== verification/Forwarder.v ===== *)
(** * The forwarder: faces and threads together

    The parts that carry a packet through the daemon, composed as they run: a
    face's receive loop hands frames to its link service, which decodes them and
    puts packets into the queues of threads; a thread works on a packet and the
    shared packets, and hands packets to the link services of other faces, which
    queue them; a face's send loop takes a packet from that queue, as it is by then,
    and sends it.  Each of these is one step, and steps come in any order.  The
    tables that management changes, and Go's iteration orders, may be different in
    every step of a thread. *)
From S2P Require Import Prelude.
From S2P Require Import Enc.
From S2P Require Import FibSpec.
From S2P Require Import Packet.
From S2P Require Import PitCs.
From S2P Require Import Pit.
From S2P Require Import PitCsRun.
From S2P Require Import Fw.
From S2P Require Import FwInv.
From S2P Require Import FwRun.
From S2P Require Import FwSteady.
From S2P Require Import FwProps.
From S2P Require Import FwExchange.
From S2P Require Import Transport.
From S2P Require Import LinkService.

Section forwarder.
Context `{LpCodec} `{EncOps} {T : Type} {TR : Transport T} {F : Type} `{FibStrategy F}.
Context (config : Config) (congestionMarking : bool) (faceQueueSize : nat).
Context (linkType_of : T -> LinkType).

(** ** State *)

Record Forwarder := mkForwarder { links : gmap Z (LinkService T); net : Net }.

(** What a thread sees of the faces. *)
Definition faces_of (ls : gmap Z (LinkService T)) : gmap Z Face :=
  (fun l => mkFace (faceID l) (tr_scope (transport l)) (linkType_of (transport l))) <$> ls.

Definition env_with (ls : gmap Z (LinkService T)) (env : Env F) : Env F :=
  mkEnv (faces_of ls) (env_regions env) (env_fib env) (env_strategies env) (env_children_order env) (env_face_order env)
    (env_sort env).

(** ** Steps *)

(** A frame arrives at a face; [pp] is the address of the packet made of it. *)
Definition frame_in (face : Z) (pp : nat) (wire : list byte) (s : Forwarder) : outcome Forwarder :=
  match links s !! face with
  | None => Ok s
  | Some l =>
      let* (l', n') := processIncomingFrame config (Z.of_nat (length (FWDispatch (net s)))) pp wire l (net s) in
      Ok (mkForwarder (<[face := l']> (links s)) n')
  end.

(** The calls of [SendPacket] of a thread's step. *)
Definition hand_over (l : list send) (ls : gmap Z (LinkService T)) : gmap Z (LinkService T) :=
  fold_left (fun ls x => alter (LinkService.SendPacket faceQueueSize (send_ptr x)) (send_face x) ls) l ls.

(** A round of the loop of thread [i]. *)
Definition thread_runs (i : nat) (env : Env F) (ev : event) (s : Forwarder) : option (outcome Forwarder) :=
  match FWDispatch (net s) !! i with
  | None => Some (Ok s)
  | Some t =>
      match step config (env_with (links s) env) ev (mkWorld t (net_packets (net s)) []) with
      | None => None
      | Some r =>
          Some (let* w := r in
                Ok (mkForwarder (hand_over (sent w) (links s)) (mkNet (<[i := thread w]> (FWDispatch (net s))) (packets w))))
      end
  end.

(** A round of the send loop of a face. *)
Definition face_sends (face : Z) (ev : send_event) (s : Forwarder) : outcome Forwarder :=
  match links s !! face with
  | None => Ok s
  | Some l =>
      let* (_, l') := runSend_step congestionMarking (fun pp => net_packets (net s) !! pp) ev l in
      Ok (mkForwarder (<[face := l']> (links s)) (net s))
  end.

Inductive sys_event :=
| FrameIn (face : Z) (pp : nat) (wire : list byte)
| ThreadRuns (i : nat) (env : Env F) (ev : event)
| FaceSends (face : Z) (ev : send_event).

Definition sys_step (ev : sys_event) (s : Forwarder) : option (outcome Forwarder) :=
  match ev with
  | FrameIn face pp wire => Some (frame_in face pp wire s)
  | ThreadRuns i env ev => thread_runs i env ev s
  | FaceSends face ev => Some (face_sends face ev s)
  end.

(** ** What a frame brings *)

(** The packet a link service makes of a frame, if any. *)
Definition received_packet (wire : list byte) (l : LinkService T) : outcome (LinkService T * option PendingPacket) :=
  match ReadPacket [wire] with
  | None => Ok (l, None)
  | Some packet =>
      match sp_lp packet with
      | None => Ok (l, (fun e => mkPending [] None (Some (faceID l)) None None e wire []) <$> net_of packet)
      | Some lp =>
          if length (Fragment lp) =? 0 then Ok (l, None)
          else
            let* (l1, w) := reassemble_frame l lp in
            Ok (l1, w ≫= fun fragment => ReadPacket fragment ≫= fun inner => with_link_fields l1 lp fragment <$> net_of inner)
      end
  end.

Lemma processIncomingFrame_received fwThreads pp wire l n :
  processIncomingFrame config fwThreads pp wire l n =
    let* (l1, po) := received_packet wire l in
    deliver config fwThreads pp (fun e => match po with Some p => set_Enc e p | None => mkPending [] None None None None e [] [] end)
      (Enc <$> po) l1 n.
Proof.
  unfold processIncomingFrame, received_packet. destruct (ReadPacket [wire]) as [packet|]; [|done].
  destruct (sp_lp packet) as [lp|].
  - destruct (_ =? 0); [done|]. destruct (reassemble_frame l lp) as [[l1 [fragment|]]| |]; cbn [outcome_bind mbind option_bind]; try done.
    destruct (ReadPacket fragment) as [inner|]; [|done]. cbn [mbind option_bind]. by destruct (net_of inner).
  - cbn [outcome_bind]. by destruct (net_of packet).
Qed.

End forwarder.

(** ** The invariant *)

Section invariant.
Context `{EncLaws}.
Context (config : Config).

(** A packet that can be handed to one of [n] threads: an Interest has a nonce,
    and a token, if it has one, that Data can bring back; Data has a name and no
    token that names the thread [n]. *)
Definition packet_fit (n : nat) (p : PendingPacket) : Prop :=
  match Enc p with
  | EncInterest i => universe (NameV i) /\ NonceV i <> None /\ tok_ok (PitToken p)
  | EncData d => universe (DataNameV d) /\ DataNameV d <> [] /\
      (length (PitToken p) = 6 -> be_get (take 2 (PitToken p)) <> Z.of_nat n)
  end.

(** A packet in a queue. *)
Definition interest_ready (ps : gmap nat PendingPacket) (pp : nat) : Prop :=
  exists p i, ps !! pp = Some p /\ Enc p = EncInterest i /\ universe (NameV i) /\ NonceV i <> None /\ tok_ok (PitToken p).
Definition data_ready (ps : gmap nat PendingPacket) (pp : nat) : Prop :=
  exists p d, ps !! pp = Some p /\ Enc p = EncData d /\ universe (DataNameV d) /\ DataNameV d <> [] /\ tok_ok (PitToken p).

Record thread_ok (ps : gmap nat PendingPacket) (t : Thread) : Prop := {
  ok_inv : inv config (mkWorld t ps []);
  ok_toks : toks_ok (pitCS t);
  ok_interests : Forall (interest_ready ps) (pendingInterests t);
  ok_datas : Forall (data_ready ps) (pendingDatas t);
  ok_bounds : length (pendingInterests t) <= fwQueueSize config /\ length (pendingDatas t) <= fwQueueSize config }.

Record net_ok (n : nat) (m : Net) : Prop := {
  net_threads : length (FWDispatch m) = n;
  net_each : Forall (thread_ok (net_packets m)) (FWDispatch m);
  net_ids : forall i t, FWDispatch m !! i = Some t -> threadID t = Z.of_nat i }.

(** The store of packets grew, and its packets kept what they are. *)
Definition store_le (ps ps' : gmap nat PendingPacket) : Prop :=
  forall pp p, ps !! pp = Some p -> exists p', ps' !! pp = Some p' /\ evolved p p'.

Lemma evolves_le ps ps' : evolves ps ps' -> store_le ps ps'.
Proof using Type. intros E pp p Hp. by eapply evolves_lookup. Qed.

Lemma fresh_le ps pp p : ps !! pp = None -> store_le ps (<[pp := p]> ps).
Proof using Type.
  intros Hn q p' Hq. exists p'. split; [|apply evolved_refl]. rewrite lookup_insert_ne; [done|]. intros ->. congruence.
Qed.

Lemma evolved_tok p p' : evolved p p' -> tok_ok (PitToken p) -> tok_ok (PitToken p').
Proof using Type. intros (_ & _ & [->|?]); done. Qed.

Lemma interest_ready_le ps ps' pp : store_le ps ps' -> interest_ready ps pp -> interest_ready ps' pp.
Proof.
  intros HS (p & i & Hp & He & Hu & Hn & Ht). destruct (HS pp p Hp) as (p' & Hp' & Hev). pose proof (evolved_tok _ _ Hev Ht) as Ht'.
  destruct Hev as (Hc & _). rewrite He in Hc. destruct (Enc p') as [i'|] eqn:He'; cbn in Hc; [|done]. injection Hc as En Eo.
  exists p', i'. rewrite En, Eo. by split_and!.
Qed.

Lemma data_ready_le ps ps' pp : store_le ps ps' -> data_ready ps pp -> data_ready ps' pp.
Proof.
  intros HS (p & d & Hp & He & Hu & Hn & Ht). destruct (HS pp p Hp) as (p' & Hp' & Hev). pose proof (evolved_tok _ _ Hev Ht) as Ht'.
  destruct Hev as (Hc & _). rewrite He in Hc. destruct (Enc p') as [|d'] eqn:He'; cbn in Hc; [done|]. injection Hc as ->.
  exists p', d. by split_and!.
Qed.

Lemma inv_le ps ps' t l l' : store_le ps ps' -> inv config (mkWorld t ps l) -> inv config (mkWorld t ps' l').
Proof.
  intros HS [os HI]. exists os. eapply inv_kind; [|exact HI]. intros pp Hk. unfold kind in *. cbn [packets] in *.
  destruct (ps !! pp) as [p|] eqn:Ep; [|done].
  destruct (HS pp p Ep) as (p' & Hp' & (Hc & _)). rewrite Hp'. cbn. destruct (Enc p), (Enc p'); done.
Qed.

Lemma thread_ok_le ps ps' t : store_le ps ps' -> thread_ok ps t -> thread_ok ps' t.
Proof.
  intros HS [A B C D E]. split; [by eapply inv_le|done| | |done].
  - eapply Forall_impl; [exact C|]. intros pp. by apply interest_ready_le.
  - eapply Forall_impl; [exact D|]. intros pp. by apply data_ready_le.
Qed.

Lemma net_ok_le n threads ps ps' : store_le ps ps' -> net_ok n (mkNet threads ps) -> net_ok n (mkNet threads ps').
Proof.
  intros HS [A B C]. split; [done| |done]. eapply Forall_impl; [exact B|]. intros t. by apply thread_ok_le.
Qed.

Lemma net_ok_set n m i t t0 : net_ok n m -> FWDispatch m !! i = Some t0 -> threadID t = threadID t0 ->
  thread_ok (net_packets m) t -> net_ok n (mkNet (<[i := t]> (FWDispatch m)) (net_packets m)).
Proof. intros [A B C] Ht0 Hid Ht. split; cbn [FWDispatch net_packets]; [by rewrite length_insert|by apply Forall_insert|].
  intros j t' Hj. apply list_lookup_insert_Some in Hj as [(<- & -> & _)|[_ Hj]]; [|by apply C]. rewrite Hid. by apply C. Qed.

(** *** Putting packets into queues *)

Lemma QueueInterest_id pp t : threadID (QueueInterest config pp t) = threadID t.
Proof using Type. unfold QueueInterest. by goal_ifs. Qed.
Lemma QueueData_id pp t : threadID (QueueData config pp t) = threadID t.
Proof using Type. unfold QueueData. by goal_ifs. Qed.

Lemma QueueInterest_ok ps pp t : interest_ready ps pp -> thread_ok ps t -> thread_ok ps (QueueInterest config pp t).
Proof.
  intros Hr HT. unfold QueueInterest. destruct (Nat.ltb_spec (length (pendingInterests t)) (fwQueueSize config)) as [Hl|]; [|done].
  destruct HT as [A B C D [E1 E2]]. split; [exact A|exact B| |exact D|].
  - cbn. apply Forall_app. by split; [|constructor].
  - cbn. rewrite length_app. cbn. lia.
Qed.

Lemma QueueData_ok ps pp t : data_ready ps pp -> thread_ok ps t -> thread_ok ps (QueueData config pp t).
Proof.
  intros Hr HT. unfold QueueData. destruct (Nat.ltb_spec (length (pendingDatas t)) (fwQueueSize config)) as [Hl|]; [|done].
  destruct HT as [A B C D [E1 E2]]. split; [exact A|exact B|exact C| |].
  - cbn. apply Forall_app. by split; [|constructor].
  - cbn. rewrite length_app. cbn. lia.
Qed.

Lemma thread_at id n m : net_ok n m -> (0 <= id < Z.of_nat n)%Z ->
  exists t, GetFWThread id m = Ok (Some t) /\ thread_ok (net_packets m) t /\ FWDispatch m !! Z.to_nat id = Some t.
Proof.
  intros [A B _] Hid. unfold GetFWThread. rewrite A. replace ((id <? 0) || (Z.of_nat n <? id))%Z with false by lia.
  destruct (FWDispatch m !! Z.to_nat id) as [t|] eqn:Et; [|apply lookup_ge_None in Et; lia]. exists t. split; [done|].
  split; [by eapply Forall_lookup_1|done].
Qed.

Lemma queue_to_ok (q : nat -> Thread -> Thread) pp id n m : net_ok n m -> (0 <= id < Z.of_nat n)%Z ->
  (forall t, thread_ok (net_packets m) t -> thread_ok (net_packets m) (q pp t)) -> (forall t, threadID (q pp t) = threadID t) ->
  exists m', queue_to q pp id m = Ok m' /\ net_ok n m' /\ net_packets m' = net_packets m.
Proof.
  intros Hm Hid Hq Hqi. destruct (thread_at id n m Hm Hid) as (t & E & Ht & Hl). unfold queue_to. rewrite E. cbn [outcome_bind].
  eexists. split; [done|]. split; [|done]. by eapply net_ok_set; [|exact Hl|apply Hqi|apply Hq].
Qed.

Lemma queue_to_all_ok (q : nat -> Thread -> Thread) pp n ids : forall m, net_ok n m -> Forall (fun id => 0 <= id < Z.of_nat n)%Z ids ->
  (forall t, thread_ok (net_packets m) t -> thread_ok (net_packets m) (q pp t)) -> (forall t, threadID (q pp t) = threadID t) ->
  exists m', queue_to_all q pp ids m = Ok m' /\ net_ok n m' /\ net_packets m' = net_packets m.
Proof.
  induction ids as [|id ids IH]; intros m Hm Hids Hq Hqi; cbn [queue_to_all]; [by exists m|].
  apply Forall_cons in Hids as [Hid Hids]. destruct (queue_to_ok q pp id n m Hm Hid Hq Hqi) as (m1 & -> & Hm1 & Ep). cbn [outcome_bind].
  destruct (IH m1 Hm1 Hids) as (m2 & E & Hm2 & Ep2); [by rewrite Ep|done|]. exists m2. by rewrite Ep2.
Qed.

(** *** Frames *)

Context `{LpCodec} {T : Type} {TR : Transport T}.

Lemma HashNameToFwThread_in n name : (0 < n)%Z -> exists t, HashNameToFwThread n name = Ok t /\ (0 <= t < n)%Z.
Proof using Type.
  intros Hn. unfold HashNameToFwThread. destruct (is_localhost name); [exists 0%Z; split; [done|lia]|].
  destruct (Z.eqb_spec n 0) as [|_]; [lia|]. eexists. split; [done|]. by apply Z.mod_pos_bound.
Qed.

Lemma HashNameToAllPrefixFwThreads_in n name : (0 < n)%Z ->
  exists l, HashNameToAllPrefixFwThreads n name = Ok l /\ Forall (fun t => 0 <= t < n)%Z l.
Proof using Type.
  intros Hn. unfold HashNameToAllPrefixFwThreads. destruct (is_localhost name); [exists [0%Z]; split; [done|repeat constructor; lia]|].
  destruct (Z.eqb_spec n 0) as [|_]; [lia|]. eexists. split; [done|]. apply Forall_fmap, Forall_true. intros h.
  by apply Z.mod_pos_bound.
Qed.

Lemma keep_packet_ok n pp p m : net_ok n m -> net_packets m !! pp = None -> net_ok n (keep_packet pp p m) /\
  store_le (net_packets m) (net_packets (keep_packet pp p m)).
Proof using Type.
  intros Hm Hpp. pose proof (fresh_le (net_packets m) pp p Hpp) as HS. split; [|done]. eapply net_ok_le; [exact HS|by destruct m].
Qed.

(** A fit packet reaches the queues of its threads or is dropped. *)
Lemma dispatch_ok n (l : LinkService T) pp p m : 0 < n -> net_ok n m -> packet_fit n p -> net_packets m !! pp = None ->
  exists m', dispatchIncomingPacket config (Z.of_nat n) l pp p m = Ok m' /\ net_ok n m' /\ store_le (net_packets m) (net_packets m').
Proof.
  intros Hn Hm Hfit Hpp. unfold dispatchIncomingPacket, packet_fit in *. destruct (Enc p) as [i|d] eqn:He.
  - destruct Hfit as (Hu & Hno & Ht). set (p1 := set_NameCache _ p). destruct (keep_packet_ok n pp p1 m Hm Hpp) as [Hm1 Hle].
    destruct (HashNameToFwThread_in (Z.of_nat n) (NameV i) ltac:(lia)) as (t & -> & Ht2). cbn [outcome_bind].
    destruct (queue_to_ok (QueueInterest config) pp t n _ Hm1 Ht2) as (m' & E & Hm' & Ep).
    { intros th. apply QueueInterest_ok. exists p1, i. split_and!; try done. cbn. by rewrite lookup_insert_eq. }
    { apply QueueInterest_id. }
    exists m'. by rewrite Ep.
  - destruct Hfit as (Hu & Hne & Hthread). set (p1 := set_NameCache _ p).
    assert (Hready : forall q, Enc q = EncData d -> tok_ok (PitToken q) -> forall th,
      thread_ok (net_packets (keep_packet pp q m)) th -> thread_ok (net_packets (keep_packet pp q m)) (QueueData config pp th)).
    { intros q Hq Ht th. apply QueueData_ok. exists q, d. split_and!; try done. cbn. by rewrite lookup_insert_eq. }
    change (PitToken p1) with (PitToken p). destruct (Nat.eqb_spec (length (PitToken p)) 6) as [H6|H6].
    + destruct (keep_packet_ok n pp p1 m Hm Hpp) as [Hm1 Hle]. specialize (Hthread H6).
      pose proof (be_get_range (take 2 (PitToken p))) as Hr. set (id := be_get _) in *.
      destruct (decide (id < Z.of_nat n)%Z) as [Hlt|Hge].
      * destruct (thread_at id n m Hm ltac:(lia)) as (t & -> & _ & _). cbn [outcome_bind].
        destruct (queue_to_ok (QueueData config) pp id n _ Hm1 ltac:(lia)) as (m' & E & Hm' & Ep); [apply Hready; [done|right; cbn; lia]|apply QueueData_id|].
        exists m'. by rewrite Ep.
      * unfold GetFWThread. rewrite (net_threads _ _ Hm). replace ((id <? 0) || (Z.of_nat n <? id))%Z with true by lia.
        cbn [outcome_bind]. by eexists.
    + destruct (bool_decide _).
      * destruct (keep_packet_ok n pp (set_PitToken [] p1) m Hm Hpp) as [Hm1 Hle].
        destruct (HashNameToAllPrefixFwThreads_in (Z.of_nat n) (DataNameV d) ltac:(lia)) as (ids & -> & Hids). cbn [outcome_bind].
        destruct (queue_to_all_ok (QueueData config) pp n ids _ Hm1 Hids) as (m' & E & Hm' & Ep); [apply Hready; [done|by left]|apply QueueData_id|].
        exists m'. by rewrite Ep.
      * destruct (keep_packet_ok n pp p1 m Hm Hpp) as [Hm1 Hle]. by eexists.
Qed.

Lemma deliver_ok n pp mk e (l : LinkService T) m : 0 < n -> net_ok n m -> net_packets m !! pp = None ->
  (forall c, e = Some c -> packet_fit n (mk c)) ->
  exists l' m', deliver config (Z.of_nat n) pp mk e l m = Ok (l', m') /\ l_sendQueue l' = l_sendQueue l /\
    options l' = options l /\ transport l' = transport l /\ faceID l' = faceID l /\ net_ok n m' /\ store_le (net_packets m) (net_packets m').
Proof.
  intros Hn Hm Hpp Hfit. unfold deliver. destruct e as [c|].
  - specialize (Hfit c eq_refl). set (l1 := match c with EncInterest _ => _ | EncData _ => _ end).
    destruct (dispatch_ok n l1 pp (mk c) m Hn Hm Hfit Hpp) as (m' & -> & Hm' & Hle). cbn [outcome_bind].
    exists l1, m'. split_and!; try done; unfold l1; by destruct c.
  - exists l, m. split_and!; try done. intros q p Hq. exists p. split; [done|apply evolved_refl].
Qed.

Lemma received_packet_queue wire (l l1 : LinkService T) po : received_packet wire l = Ok (l1, po) ->
  l_sendQueue l1 = l_sendQueue l /\ options l1 = options l /\ transport l1 = transport l /\ faceID l1 = faceID l /\
  forall p, po = Some p -> Packet.IncomingFaceID p = Some (faceID l).
Proof using Type.
  unfold received_packet. destruct (ReadPacket [wire]) as [packet|]; [|by intros [= <- <-]].
  destruct (sp_lp packet) as [lp|].
  2: { intros [= <- <-]. split_and!; try done. intros p (e & _ & ->)%fmap_Some. done. }
  destruct (_ =? 0); [by intros [= <- <-]|].
  assert (HR : forall l2 w, reassemble_frame l lp = Ok (l2, w) -> l_sendQueue l2 = l_sendQueue l /\ options l2 = options l /\
    transport l2 = transport l /\ faceID l2 = faceID l).
  { unfold reassemble_frame. intros l2 w. destruct (IsReassemblyEnabled _); [|by destruct (bool_decide _); intros [= <- _]].
    destruct (Sequence lp) as [seq|]; [|by intros [= <- _]]. cbn zeta. destruct (_ && _); [by intros [= <- _]|].
    destruct (reassemblePacket _ _ _ _ _) as [[st w']| |]; cbn; try done. by intros [= <- _]. }
  destruct (reassemble_frame l lp) as [[l2 w]| |]; try done. destruct (HR l2 w eq_refl) as (R1 & R2 & R3 & R4).
  cbn [outcome_bind]. intros [= -> <-]. split_and!; try done.
  intros p (fr & _ & (inner & _ & (e & _ & ->)%fmap_Some)%bind_Some)%bind_Some. cbn. by rewrite R4.
Qed.

End invariant.

(** *** Sending *)

Section sending.
Context `{LpCodecLaws} {T : Type} {TR : Transport T}.
Context (congestionMarking : bool).

Lemma send_fragments_queue frs (l : LinkService T) : l_sendQueue (send_fragments frs l).2 = l_sendQueue l /\
  options (send_fragments frs l).2 = options l.
Proof using Type.
  assert (HL : forall frs (l : LinkService T), l_sendQueue (send_loop frs l).2 = l_sendQueue l /\
    options (send_loop frs l).2 = options l).
  { clear. induction frs as [|f frs IH]; intros l; cbn [send_loop]; [done|]. destruct (EncodePacket _); [|done].
    destruct (held l); [done|]. destruct (tr_sendFrame _ _) as [t|]; [|done]. by destruct (IH (set_held true (set_transport t l))) as [-> ->]. }
  unfold send_fragments. specialize (HL frs l). by destruct (send_loop frs l) as [[] l'].
Qed.

(** Without fragmentation and reliability a packet is sent or dropped. *)
Lemma sendPacket_plain now tok p (l : LinkService T) : IsFragmentationEnabled (options l) = false ->
  IsReliabilityEnabled (options l) = false ->
  exists r, sendPacket congestionMarking now tok p l = Ok r /\ l_sendQueue r.2 = l_sendQueue l /\ options r.2 = options l.
Proof using Type.
  intros Hf Hr. unfold sendPacket. destruct (negb _); [by eexists|].
  destruct (count_sent_fields congestionMarking p l) as (Co & _ & Ce & _). rewrite Co, Ce.
  assert (Cq : l_sendQueue (count_sent p l) = l_sendQueue l) by (unfold count_sent; by destruct (Enc p)).
  set (l1 := count_sent p l) in *. clearbody l1. unfold fragments_of. destruct (_ <? _)%Z; [rewrite Hf; cbn; by eexists|].
  cbn [outcome_bind]. unfold number. rewrite Co, Hr. cbn [length Nat.ltb Nat.leb orb fst snd].
  set (f := lp_of_fragment _). unfold mark_congestion.
  assert (HM : exists f1 l3, (if congested congestionMarking now l1 then let* frs := on_first (set_LpCongestionMark (Some 1%Z)) [f] in
      Ok (frs, set_marked now l1) else Ok ([f], l1)) = Ok ([f1], l3) /\ options l3 = options l1 /\ l_sendQueue l3 = l_sendQueue l1).
  { destruct (congested _ _ _); cbn [on_first outcome_bind]; by eexists _, _. }
  destruct HM as (f1 & l3 & -> & O3 & Q3). cbn [outcome_bind]. unfold track. rewrite O3, Co, Hr. cbn [outcome_bind].
  rewrite on_first_if_cons. cbn [outcome_bind]. rewrite O3, Co, on_first_if_cons. cbn [outcome_bind]. rewrite on_first_if_cons.
  cbn [outcome_bind]. eexists. split; [done|]. match goal with |- context [send_fragments ?x l3] => destruct (send_fragments_queue x l3) as [-> ->] end.
  split; congruence.
Qed.

Lemma idle_loop_queue n acks : forall l : LinkService T, l_sendQueue (idle_loop n acks l).2 = l_sendQueue l /\
  options (idle_loop n acks l).2 = options l.
Proof using Type.
  revert acks. induction n as [|n IH]; intros [|a acks] l; cbn [idle_loop]; try done.
  destruct (EncodePacket _); [|done]. destruct (held _); [done|]. destruct (tr_sendFrame _ _) as [t|]; [|done].
  by destruct (IH acks (set_held true (set_transport t (set_acks acks l)))) as [-> ->].
Qed.

Lemma runSend_plain pkt ev (l : LinkService T) : IsFragmentationEnabled (options l) = false ->
  IsReliabilityEnabled (options l) = false -> Forall (fun pp => is_Some (pkt pp)) (l_sendQueue l) ->
  exists r, runSend_step congestionMarking pkt ev l = Ok r /\ options r.2 = options l /\
    (l_sendQueue r.2 = l_sendQueue l \/ l_sendQueue r.2 = drop 1 (l_sendQueue l)).
Proof using Type.
  intros Hf Hr Hq. unfold runSend_step. destruct ev as [now tok| | |].
  - destruct (l_sendQueue l) as [|pp rest] eqn:El; [eexists; split_and!; [done|done|left; exact El]|].
    apply Forall_cons in Hq as [[p ->] _]. destruct (sendPacket_plain now tok p (set_sendQueue rest l) Hf Hr) as (r & -> & Er & Eo).
    cbn [outcome_bind]. eexists. split_and!; [done|exact Eo|]. right. exact Er.
  - eexists. split_and!; [done|done|by left].
  - eexists. split; [done|]. cbn [snd]. destruct (idle_loop_queue (Z.to_nat ((tr_mtu (transport l) - lpPacketOverhead) ÷ ackOverhead))
      (pendingAcksToSend l) l) as [-> ->]. split; [done|by left].
  - eexists. split_and!; [done|done|by left].
Qed.

End sending.

(** ** The system's runs *)

Section system.
Context `{LpCodecLaws} `{EncLaws} {T : Type} {TR : Transport T} {F : Type} `{FibStrategy F}.
Context (config : Config) (congestionMarking : bool) (faceQueueSize : nat) (linkType_of : T -> LinkType) (n : nat).

Definition plain_options (o : Options) : Prop := IsFragmentationEnabled o = false /\ IsReliabilityEnabled o = false.

Record link_ok (ps : gmap nat PendingPacket) (l : LinkService T) : Prop := {
  link_plain : plain_options (options l);
  link_queue : Forall (fun pp => is_Some (ps !! pp)) (l_sendQueue l);
  link_bound : length (l_sendQueue l) <= faceQueueSize }.

Record fwd_ok (s : Forwarder (T := T)) : Prop := {
  fwd_net : net_ok config n (net s);
  fwd_links : map_Forall (fun _ => link_ok (net_packets (net s))) (links s) }.

(** What may happen: a frame is decoded without the panics of reassembly into
    nothing or a fit packet, at a new address; a thread finds tables in order. *)
Definition admissible (ev : sys_event (F := F)) (s : Forwarder (T := T)) : Prop :=
  match ev with
  | FrameIn face pp wire => net_packets (net s) !! pp = None /\
      forall l, links s !! face = Some l -> exists l1 po, received_packet wire l = Ok (l1, po) /\
        forall p, po = Some p -> packet_fit n p
  | ThreadRuns _ env _ => env_ok env
  | FaceSends _ _ => True
  end.

Abbreviation sys := (sys_step config congestionMarking faceQueueSize linkType_of).

(** The link services [ls] are the faces that the daemon starts with. *)
Inductive runs (ls : gmap Z (LinkService T)) : Forwarder (T := T) -> Prop :=
| runs_start : map_Forall (fun _ l => l_sendQueue l = []) ls ->
    runs ls (mkForwarder ls (mkNet ((fun i => NewThread (Z.of_nat i)) <$> seq 0 n) ∅))
| runs_step s ev s' : runs ls s -> admissible ev s -> sys ev s = Some (Ok s') -> runs ls s'.

(** Fragmentation and reliability are off on every face. *)
Definition plain_faces (ls : gmap Z (LinkService T)) : Prop := map_Forall (fun _ l => plain_options (options l)) ls.

Lemma link_ok_le ps ps' l : store_le ps ps' -> link_ok ps l -> link_ok ps' l.
Proof using Type.
  intros HS [A B C]. split; [done| |done]. eapply Forall_impl; [exact B|]. intros pp [p Hp].
  destruct (HS pp p Hp) as (p' & Hp' & _). by exists p'.
Qed.

Lemma links_ok_le ps ps' (ls : gmap Z (LinkService T)) : store_le ps ps' -> map_Forall (fun _ => link_ok ps) ls ->
  map_Forall (fun _ => link_ok ps') ls.
Proof using Type. intros HS HL i l Hl. eapply link_ok_le; [done|]. by eapply HL. Qed.

Lemma start_ok ls : plain_faces ls -> map_Forall (fun _ l => l_sendQueue l = []) ls ->
  fwd_ok (mkForwarder ls (mkNet ((fun i => NewThread (Z.of_nat i)) <$> seq 0 n) ∅)).
Proof using Type.
  intros HP HL. split; [split|]; cbn [net links FWDispatch net_packets].
  - by rewrite length_fmap, length_seq.
  - apply Forall_fmap, Forall_true. intros i. split; [apply new_inv|by intros e p|constructor|constructor|cbn; lia].
  - intros i t Ht. rewrite list_lookup_fmap in Ht. destruct (seq 0 n !! i) as [j|] eqn:Ej; [|done]. cbn in Ht. injection Ht as <-.
    apply lookup_seq in Ej as [-> _]. done.
  - intros i l Hl. pose proof (HL i l Hl) as Hq. cbn in Hq. split; [by apply (HP i)|rewrite Hq; constructor|rewrite Hq; cbn; lia].
Qed.

Lemma hand_over_ok ps l : forall ls : gmap Z (LinkService T), Forall (fun x => is_Some (ps !! send_ptr x)) l ->
  map_Forall (fun _ => link_ok ps) ls -> map_Forall (fun _ => link_ok ps) (hand_over faceQueueSize l ls).
Proof using Type.
  unfold hand_over. induction l as [|x l IH]; intros ls Hl HL; cbn [fold_left]; [done|]. apply Forall_cons in Hl as [Hx Hl].
  apply IH; [done|]. intros i k Hk. destruct (decide (send_face x = i)) as [<-|Hne].
  - rewrite lookup_alter_eq in Hk. destruct (ls !! send_face x) as [k0|] eqn:E; [|done]. injection Hk as <-.
    destruct (HL _ _ E) as [A B C]. unfold LinkService.SendPacket. destruct (Nat.ltb_spec (length (l_sendQueue k0)) faceQueueSize) as [Hlt|];
      [|done]. split; [done| |cbn; rewrite length_app; cbn; lia]. apply Forall_app. split; [done|by constructor].
  - rewrite lookup_alter_ne in Hk by done. by eapply HL.
Qed.

Context (Hcap : (0 <= csCapacity config)%Z).

Lemma in_rest {A} (x : A) k l : x ∈ drop k l -> x ∈ l.
Proof using Type. intros Hx. rewrite <- (take_drop k l). apply elem_of_app. by right. Qed.

(** A thread's step. *)
Lemma thread_step_ok t env ev ps : thread_ok config ps t -> env_ok (F := F) env ->
  match step config env ev (mkWorld t ps []) with
  | Some r => exists w, r = Ok w /\ thread_ok config (packets w) (thread w) /\ evolves ps (packets w) /\ threadID (thread w) = threadID t /\
      Forall (fun x => is_Some (packets w !! send_ptr x)) (sent w)
  | None => exists now draws, ev = EvInterest now draws /\ forall k, k ∈ draws -> is_Some (pitTokenMap (pitCS t) !! k)
  end.
Proof using Hcap.
  intros [A B C D E] Henv. assert (Hev : event_ok (mkWorld t ps []) ev).
  { destruct ev; cbn; try done.
    - destruct (pendingInterests t); [done|]. apply Forall_cons in C as [(p & i & Hp & He & Hu & Hn & _) _]. by exists p, i.
    - destruct (pendingDatas t); [done|]. apply Forall_cons in D as [(p & d & Hp & He & Hu & Hn & Ht) _]. exists p, d.
      split_and!; try done. by left. }
  pose proof (step_good config Hcap env ev _ A Henv Hev) as HS. unfold step in *.
  destruct (Run_step _ _ _ _ _ _ _ _ _ _) as [r|] eqn:Er; [|done]. destruct HS as (w & -> & K).
  assert (Htok : forall pp p, pp ∈ pendingInterests t -> ps !! pp = Some p -> tok_ok (PitToken p)).
  { intros pp p Hpp Hp. rewrite Forall_forall in C. destruct (C pp Hpp) as (p0 & i & Hp0 & _ & _ & _ & Ht). congruence. }
  destruct (Run_step_steady config _ _ _ _ _ _ _ ev (mkWorld t ps []) w B Htok Er) as (T1 & T2 & T3 & T5 & T4).
  exists w. split; [done|]. assert (Hsub : forall pp, (pp ∈ pendingInterests (thread w) -> pp ∈ pendingInterests t) /\
      (pp ∈ pendingDatas (thread w) -> pp ∈ pendingDatas t)).
  { intros pp. destruct ev; cbn in T4; injection T4 as -> ->; split; try done; apply in_rest. }
  assert (Hlen : length (pendingInterests (thread w)) <= length (pendingInterests t) /\
      length (pendingDatas (thread w)) <= length (pendingDatas t))
    by (destruct ev; cbn in T4; injection T4 as -> ->; rewrite ?length_drop; lia).
  split_and!; [split|exact T2|exact T5|apply T3; by constructor].
  - destruct (kept_inv _ _ _ _ K) as [os HI]. by exists os.
  - done.
  - rewrite Forall_forall in C |- *. intros pp Hpp%Hsub. eapply interest_ready_le; [by apply evolves_le|by apply C].
  - rewrite Forall_forall in D |- *. intros pp Hpp%Hsub. eapply data_ready_le; [by apply evolves_le|by apply D].
  - lia.
Qed.

Lemma sys_step_ok ev s : 0 < n -> fwd_ok s -> admissible ev s ->
  match sys ev s with
  | Some r => exists s', r = Ok s' /\ fwd_ok s' /\ store_le (net_packets (net s)) (net_packets (net s'))
  | None => exists i t env now draws, ev = ThreadRuns i env (EvInterest now draws) /\ FWDispatch (net s) !! i = Some t /\
      forall k, k ∈ draws -> is_Some (pitTokenMap (pitCS t) !! k)
  end.
Proof using Hcap.
  intros Hn [HN HL] Hadm.
  assert (Hid : store_le (net_packets (net s)) (net_packets (net s))) by (intros q p Hq; exists p; split; [done|apply evolved_refl]).
  assert (Hsame : exists s', Ok s = Ok s' /\ fwd_ok s' /\ store_le (net_packets (net s)) (net_packets (net s'))) by by exists s.
  destruct ev as [face pp wire|i env ev|face ev]; cbn [sys_step admissible] in *.
  - unfold frame_in. destruct (links s !! face) as [l|] eqn:El; [|done]. destruct Hadm as [Hpp Hfr].
    destruct (Hfr l eq_refl) as (l1 & po & Er & Hfit). rewrite (net_threads _ _ _ HN), processIncomingFrame_received, Er.
    cbn [outcome_bind]. destruct (received_packet_queue wire l l1 po Er) as (Q1 & O1 & _).
    edestruct (deliver_ok config n pp) with (e := Enc <$> po) (l := l1) (m := net s) as (l' & m' & -> & Q2 & O2 & _ & _ & Hm' & Hle);
      [done|done|done| |].
    { intros c Hc. destruct po as [p|]; [|done]. cbn in Hc. injection Hc as <-. specialize (Hfit p eq_refl).
      unfold packet_fit in *. exact Hfit. }
    cbn [outcome_bind]. eexists. split; [done|]. split; [|done]. split; [done|]. cbn [links net].
    apply map_Forall_insert_2; [|by eapply links_ok_le]. destruct (HL _ _ El) as [A B C]. eapply link_ok_le; [exact Hle|].
    split; by rewrite ?Q2, ?O2, ?Q1, ?O1.
  - unfold thread_runs. destruct (FWDispatch (net s) !! i) as [t|] eqn:Et; [|done].
    assert (Ht : thread_ok config (net_packets (net s)) t) by (eapply Forall_lookup_1; [apply HN|exact Et]).
    assert (Henv : env_ok (env_with linkType_of (links s) env)) by (destruct Hadm; by split).
    pose proof (thread_step_ok t _ ev _ Ht Henv) as HS. destruct (step _ _ _ _) as [r|].
    + destruct HS as (w & -> & Hw & Hev & Hid' & Hs). cbn [outcome_bind]. pose proof (evolves_le _ _ Hev) as Hle.
      eexists. split; [done|]. split; [|done]. split; cbn [net links].
      * apply (net_ok_set config n (mkNet (FWDispatch (net s)) (packets w)) i _ t); [|done|done|done].
        eapply net_ok_le; [exact Hle|]. by destruct (net s).
      * apply hand_over_ok; [done|]. by eapply links_ok_le.
    + destruct HS as (now & draws & -> & Hd). by exists i, t, env, now, draws.
  - unfold face_sends. destruct (links s !! face) as [l|] eqn:El; [|done]. destruct (HL _ _ El) as [[A1 A2] B C].
    destruct (runSend_plain congestionMarking (fun pp => net_packets (net s) !! pp) ev l A1 A2 B) as ([fin l'] & -> & Eo & Eq).
    cbn [outcome_bind snd] in *. eexists. split; [done|]. split; [|done]. split; [done|]. cbn [links net].
    apply map_Forall_insert_2; [|done]. split; [by rewrite Eo| |].
    + destruct Eq as [->| ->]; [done|by apply Forall_drop].
    + destruct Eq as [->| ->]; [done|rewrite length_drop; lia].
Qed.

Lemma runs_ok ls s : 0 < n -> plain_faces ls -> runs ls s -> fwd_ok s.
Proof using Hcap.
  intros Hn HP. induction 1 as [HL|s ev s' _ IH Hadm E]; [by apply start_ok|].
  pose proof (sys_step_ok ev s Hn IH Hadm) as HS. rewrite E in HS. by destruct HS as (s2 & [= <-] & ? & _).
Qed.

(** *** An answer on its way *)

(** Data under /localhost does not cross a non-local face. *)
Definition may_cross (l : LinkService T) (d : Data) : Prop :=
  tr_scope (transport l) = NonLocal -> is_localhost (DataNameV d) = false.

(** The frame that the face [up] received is Data. *)
Record data_frame (s : Forwarder (T := T)) (up : Z) (pp : nat) (wire : list byte) (p : PendingPacket) (d : Data) : Prop := {
  df_link : exists l l1, links s !! up = Some l /\ faceID l = up /\ received_packet wire l = Ok (l1, Some p) /\ may_cross l d;
  df_new : net_packets (net s) !! pp = None;
  df_data : Enc p = EncData d;
  df_name : universe (DataNameV d) /\ DataNameV d <> [] }.

(** The face [down] waits for the entry [e] of thread [i], which has nothing
    else to do; there is room in the queues. *)
Record awaited (s : Forwarder (T := T)) (i : nat) (t : Thread) (down : Z) (e : nat) (q : nameTreePitEntry) (r : PitInRecord) : Prop := {
  aw_thread : FWDispatch (net s) !! i = Some t;
  aw_idle : pendingDatas t = [] /\ 0 < fwQueueSize config;
  aw_entry : live (pitCS t) e /\ pits (pitCS t) !! e = Some q;
  aw_record : inRecords q = {[down := r]};
  aw_room : exists l, links s !! down = Some l /\ length (l_sendQueue l) < faceQueueSize }.

(** A frame of Data with a thread's token lands in that thread's queue. *)
Lemma data_frame_in s up pp wire p d i t tok : 0 < n -> (Z.of_nat n <= 2 ^ 16)%Z -> fwd_ok s -> data_frame s up pp wire p d ->
  FWDispatch (net s) !! i = Some t -> pendingDatas t = [] -> 0 < fwQueueSize config ->
  PitToken p = outgoing_token (Z.of_nat i) tok ->
  exists l l' t1 p1, links s !! up = Some l /\ 
    frame_in config up pp wire s = Ok (mkForwarder (<[up := l']> (links s))
      (mkNet (<[i := t1]> (FWDispatch (net s))) (<[pp := p1]> (net_packets (net s))))) /\
    l_sendQueue l' = l_sendQueue l /\ transport l' = transport l /\ faceID l' = up /\
    pendingDatas t1 = [pp] /\ pitCS t1 = pitCS t /\
    Enc p1 = EncData d /\ PitToken p1 = PitToken p /\ Packet.IncomingFaceID p1 = Some up.
Proof using Type.
  intros Hn H16 [HN _] [(l & l1 & Hl & Hid & Er & _) Hpp He [Hu Hne]] Ht Hq Hsz Htok.
  destruct (received_packet_queue wire l l1 _ Er) as (Q1 & _ & T1 & I1 & Hface). specialize (Hface p eq_refl).
  unfold frame_in. rewrite Hl, (net_threads _ _ _ HN), processIncomingFrame_received, Er. cbn [outcome_bind fmap option_fmap option_map].
  unfold deliver. rewrite He. set (l2 := count_in _ _ l1).
  replace (set_Enc (EncData d) p) with p by (rewrite <- He; by destruct p).
  unfold dispatchIncomingPacket. rewrite He. set (p1 := set_NameCache _ p).
  change (PitToken p1) with (PitToken p). rewrite Htok.
  assert (Hlen : length (outgoing_token (Z.of_nat i) tok) = 6) by (unfold outgoing_token; by rewrite length_app, !length_be_put).
  assert (Hi : i < n) by (rewrite <- (net_threads _ _ _ HN); by eapply lookup_lt_Some).
  assert (Hget : be_get (take 2 (outgoing_token (Z.of_nat i) tok)) = Z.of_nat i).
  { unfold outgoing_token. rewrite take_app_length' by (symmetry; apply length_be_put). apply be_get_put_small. lia. }
  rewrite Hlen, Hget. cbn [Nat.eqb]. unfold queue_to, GetFWThread, keep_packet. cbn [FWDispatch net_packets].
  rewrite (net_threads _ _ _ HN). replace ((Z.of_nat i <? 0) || (Z.of_nat n <? Z.of_nat i))%Z with false by lia.
  rewrite Nat2Z.id, Ht. cbn [outcome_bind].
  exists l, l2, (QueueData config pp t), p1. split; [done|]. split; [done|].
  assert (EQ : pendingDatas (QueueData config pp t) = [pp] /\ pitCS (QueueData config pp t) = pitCS t).
  { unfold QueueData. rewrite Hq. cbn [length app]. destruct (Nat.ltb_spec 0 (fwQueueSize config)); [done|lia]. }
  destruct EQ as [EQ1 EQ2]. rewrite Hid in Hface. split_and!; try done. by rewrite <- Hid, <- I1.
Qed.


(** The thread's round: the Data is queued at the waiting face. *)
Lemma awaited_data_goes down env now i t1 e q r up pp p1 d ls threads ps ld lu :
  env_ok (F := F) env -> thread_ok config ps t1 -> threads !! i = Some t1 -> pendingDatas t1 = [pp] ->
  live (pitCS t1) e -> pits (pitCS t1) !! e = Some q -> inRecords q = {[down := r]} -> (0 <= token q < 2 ^ 32)%Z ->
  ps !! pp = Some p1 -> Enc p1 = EncData d -> PitToken p1 = outgoing_token (Z.of_nat i) (token q) ->
  Packet.IncomingFaceID p1 = Some up -> ls !! up = Some lu -> may_cross lu d -> ls !! down = Some ld -> may_cross ld d ->
  length (l_sendQueue ld) < faceQueueSize ->
  exists s2 ld' p2 t2 q2, thread_runs config faceQueueSize linkType_of i env (EvData now) (mkForwarder ls (mkNet threads ps)) = Some (Ok s2) /\
    links s2 !! down = Some ld' /\ l_sendQueue ld' = l_sendQueue ld ++ [pp] /\
    net_packets (net s2) !! pp = Some p2 /\ Enc p2 = EncData d /\ (in_PitToken r <> [] -> PitToken p2 = in_PitToken r) /\
    FWDispatch (net s2) !! i = Some t2 /\ pits (pitCS t2) !! e = Some q2 /\ satisfied_entry now q2.
Proof using Hcap.
  intros Henv HT Ht Hqueue Hl Hq Hrec Htok Hp1 He1 HP Hid Hup Hcu Hdown Hcd Hroom.
  unfold thread_runs. cbn [net links FWDispatch net_packets]. rewrite Ht. unfold step, Run_step. cbn [thread]. rewrite Hqueue.
  set (w := set_thread _ _). set (env' := env_with linkType_of ls env).
  assert (Henv' : env_ok env') by (destruct Henv; by split).
  assert (Hface : forall id l, ls !! id = Some l -> env_faces env' !! id =
      Some (mkFace (faceID l) (tr_scope (transport l)) (linkType_of (transport l))))
    by (intros id l Hl'; cbn; unfold faces_of; by rewrite lookup_fmap, Hl').
  assert (Hpk : data_packet w pp).
  { destruct HT as [_ _ _ D _]. rewrite Hqueue in D. apply Forall_cons in D as [(p & d' & Hp & He & Hu & Hn & Ht') _].
    exists p, d'. split_and!; try done. by left. }
  destruct (data_returns config env' now pp w p1 d up _ e q (Z.of_nat i) Hcap (ok_inv _ _ _ HT) Henv' Hpk Hp1 He1 Hid (Hface _ _ Hup))
    as (w' & l & E & S & D & (q2 & Hq2 & Hsat) & Hsync); try done.
  { unfold violates_localhost. cbn [face_scope]. destruct (is_localhost (DataNameV d)) eqn:El; [|by rewrite andb_false_r].
    rewrite bool_decide_false; [done|]. intros Hs. specialize (Hcu Hs). congruence. }
  change (processIncomingData _ _ _ _ _ _ _ w) with (on_data config env' now pp w). rewrite E. cbn [outcome_bind].
  assert (Hids : env_face_order env' (face_ids (inRecords q)) = [down]).
  { apply Permutation_singleton_r. rewrite (env_face_perm _ Henv'), Hrec. unfold face_ids. by rewrite map_to_list_singleton. }
  rewrite Hids in D. cbn [List.filter] in D. unfold deliverable in D at 1. rewrite (Hface _ _ Hdown) in D. cbn [face_scope] in D.
  rewrite bool_decide_true in D by exact Hcd. inversion D as [|? x ? ? (X1 & X2 & X3 & X4) D' E1 E2]. subst. inversion D'; subst. clear D D'.
  cbn in S. specialize (X4 r). rewrite Hrec, lookup_singleton_eq in X4.
  assert (Hlast : packets w' !! send_ptr x = Some (send_packet x)) by (apply Hsync; [done|]; by rewrite S).
  eexists _, (LinkService.SendPacket faceQueueSize (send_ptr x) ld), (send_packet x), (thread w'), q2. split; [done|].
  cbn [links net net_packets FWDispatch]. rewrite S. unfold hand_over. cbn [fold_left].
  rewrite lookup_alter_eq, Hdown. split; [done|]. split_and!; try done.
  - unfold LinkService.SendPacket. by destruct (Nat.ltb_spec (length (l_sendQueue ld)) faceQueueSize); [|lia].
  - intros Hne. by apply X4.
  - apply list_lookup_insert_eq. by eapply lookup_lt_Some.
Qed.

End system.

(** ** Properties *)

(** C10: The daemon's forwarding plane is safe, with fragmentation and reliability
    off on all faces ([plain_faces]: the default; management can turn reliability on,
    with which the first packet sent panics, and with fragmentation a packet that
    does not fit blocks its face, see [fragmentation_blocks]): faces receive frames, threads work and faces send,
    in any order and with tables that change in between; as long as the frames
    carry fit packets, no step panics and none returns an error (a thread may still
    be drawing a token when all draws are taken).  Every thread keeps its number and a PIT-CS that was only
    used through its operations, no queue of a thread or a face exceeds its size,
    and a pointer in a face's queue is that of a packet. *)
Theorem forwarder_safe `{LpCodecLaws} `{EncLaws} {T} `{Transport T} {F} `{FibStrategy F} config congestionMarking faceQueueSize
    (linkType_of : T -> LinkType) n ls (s : Forwarder (T := T)) (ev : sys_event (F := F)) :
  (0 <= csCapacity config)%Z -> 0 < n -> plain_faces ls ->
  runs (F := F) config congestionMarking faceQueueSize linkType_of n ls s -> admissible n ev s ->
  match sys_step config congestionMarking faceQueueSize linkType_of ev s with
  | Some r => exists s', r = Ok s' /\ length (FWDispatch (net s')) = n /\
      (forall i t, FWDispatch (net s') !! i = Some t -> threadID t = Z.of_nat i /\
        (exists os, at_work (cap config) os (pitCS t)) /\
        length (pendingInterests t) <= fwQueueSize config /\ length (pendingDatas t) <= fwQueueSize config) /\
      (forall face l, links s' !! face = Some l -> length (l_sendQueue l) <= faceQueueSize /\
        forall pp, pp ∈ l_sendQueue l -> is_Some (net_packets (net s') !! pp))
  | None => exists i t env now draws, ev = ThreadRuns i env (EvInterest now draws) /\ FWDispatch (net s) !! i = Some t /\
      forall k, k ∈ draws -> is_Some (pitTokenMap (pitCS t) !! k)
  end.
Proof.
  intros Hcap Hn HP Hr Hadm. pose proof (runs_ok _ _ _ _ _ Hcap ls s Hn HP Hr) as Hok.
  pose proof (sys_step_ok config congestionMarking faceQueueSize linkType_of n Hcap ev s Hn Hok Hadm) as HS.
  destruct (sys_step _ _ _ _ _ _) as [r|]; [|done]. destruct HS as (s' & -> & [[A B C] HL] & _).
  exists s'. split_and!; [done|done| |].
  - intros i t Ht. destruct (Forall_lookup_1 _ _ _ _ B Ht) as [[os HI] _ _ _ [E1 E2]]. split_and!; try done; [by apply C|].
    exists os. apply HI.
  - intros face l Hl. destruct (HL face l Hl) as [_ X Y]. split; [done|]. by apply Forall_forall.
Qed.

(** C11: An answer finds its way back through the daemon: when a face receives
    Data that carries a thread's token for a pending entry, the frame's packet is
    put into that thread's queue, and the thread's next round queues it, with the
    token of the downstream's Interest, at the face that waits for the entry, which
    ends satisfied (on faces without fragmentation and reliability). *)
Theorem answer_returns `{LpCodecLaws} `{EncLaws} {T} `{Transport T} {F} `{FibStrategy F} config congestionMarking faceQueueSize
    (linkType_of : T -> LinkType) n ls (s : Forwarder (T := T)) (env : Env F) now up pp wire p d i t down e q r :
  (0 <= csCapacity config)%Z -> 0 < n -> (Z.of_nat n <= 2 ^ 16)%Z ->
  plain_faces ls -> runs (F := F) config congestionMarking faceQueueSize linkType_of n ls s -> env_ok env ->
  data_frame s up pp wire p d -> awaited config faceQueueSize s i t down e q r ->
  (forall l, links s !! down = Some l -> may_cross l d) ->
  (0 <= token q < 2 ^ 32)%Z -> PitToken p = outgoing_token (Z.of_nat i) (token q) ->
  exists s1 s2,
    sys_step config congestionMarking faceQueueSize linkType_of (FrameIn (F := F) up pp wire) s = Some (Ok s1) /\
    sys_step config congestionMarking faceQueueSize linkType_of (ThreadRuns i env (EvData now)) s1 = Some (Ok s2) /\
    (exists l l2, links s !! down = Some l /\ links s2 !! down = Some l2 /\ l_sendQueue l2 = l_sendQueue l ++ [pp]) /\
    (exists p2, net_packets (net s2) !! pp = Some p2 /\ Enc p2 = EncData d /\ (in_PitToken r <> [] -> PitToken p2 = in_PitToken r)) /\
    exists t2 q2, FWDispatch (net s2) !! i = Some t2 /\ pits (pitCS t2) !! e = Some q2 /\ satisfied_entry now q2.
Proof.
  intros Hcap Hn H16 HPl Hr Henv Hdf [At [Ai1 Ai2] [Al Aq] Ar (ld & Hld & Hroom)] Hdown Htok HP.
  pose proof (runs_ok _ _ _ _ _ Hcap ls s Hn HPl Hr) as Hok.
  destruct (data_frame_in config faceQueueSize n s up pp wire p d i t (token q) Hn H16 Hok Hdf At Ai1 Ai2 HP)
    as (l & l' & t1 & p1 & Hl & E1 & Q' & T' & I' & Ht1 & Hp1 & He1 & HP1 & Hid1).
  pose proof (sys_step_ok config congestionMarking faceQueueSize linkType_of n Hcap (FrameIn (F := F) up pp wire) s Hn Hok) as HS.
  cbn [sys_step] in *. rewrite E1 in HS. pose proof Hdf as [(l0 & l1 & Hl0 & _ & Er & Hcross) Hnew Hd [Hu Hne]].
  assert (l0 = l) as -> by congruence.
  destruct HS as (s1 & [= <-] & [HN1 _] & _).
  { split; [done|]. intros k Hk. assert (k = l) as -> by congruence. exists l1, (Some p). split; [done|]. intros ? [= <-].
    unfold packet_fit. rewrite Hd. split_and!; [done|done|]. intros _. rewrite HP. unfold outgoing_token.
    rewrite take_app_length' by (symmetry; apply length_be_put).
    assert (Hi : i < n) by (rewrite <- (net_threads _ _ _ (fwd_net _ _ _ _ Hok)); by eapply lookup_lt_Some).
    rewrite be_get_put_small by lia. lia. }
  assert (Hi1 : <[i := t1]> (FWDispatch (net s)) !! i = Some t1) by (apply list_lookup_insert_eq; by eapply lookup_lt_Some).
  assert (Hd1 : exists ld1, <[up := l']> (links s) !! down = Some ld1 /\ l_sendQueue ld1 = l_sendQueue ld /\ transport ld1 = transport ld).
  { destruct (decide (up = down)) as [<-|Hud]; [exists l'; rewrite lookup_insert_eq|exists ld; by rewrite lookup_insert_ne].
    by replace ld with l by congruence. }
  destruct Hd1 as (ld1 & Hld1 & Qd & Td).
  destruct (awaited_data_goes config faceQueueSize linkType_of Hcap down env now i t1 e q r up pp p1 d (<[up := l']> (links s))
    (<[i := t1]> (FWDispatch (net s))) (<[pp := p1]> (net_packets (net s))) ld1 l')
    as (s2 & ld' & p2 & t2 & q2 & E2 & L2 & Q2 & P2 & D2 & R2 & T2 & S2); try done; rewrite ?Ht1, ?Hp1, ?HP1, ?Qd; try done.
  1: by eapply Forall_lookup_1; [apply (net_each _ _ _ HN1)|].
  all: try (apply lookup_insert_eq); try exact Hld1; try exact Hroom.
  all: try (unfold may_cross; rewrite T'; exact Hcross).
  all: try (unfold may_cross; rewrite Td; by apply Hdown).
  eexists _, s2. split; [by rewrite E1|]. split; [exact E2|]. split; [exists ld, ld'; by rewrite Q2, Qd|]. split; [by exists p2|by exists t2, q2].
Qed.
