(* ===== verification/ForwarderExamples.v ===== *)
(** * The forwarder at work

    Three threads and four faces: instances of the properties of [Forwarder], and
    how a downstream with a short PIT token stops the daemon. *)
From S2P Require Import Prelude.
From S2P Require Import Enc.
From S2P Require Import FibSpec.
From S2P Require Import Packet.
From S2P Require Import PitCs.
From S2P Require Import PitTree.
From S2P Require Import Pit.
From S2P Require Import PitCsRun.
From S2P Require Import Fw.
From S2P Require Import FwInv.
From S2P Require Import FwSteady.
From S2P Require FibTree.
From S2P Require Import FwProps.
From S2P Require Import FwExamples.
From S2P Require Import Transport.
From S2P Require Import LinkService.
From S2P Require Import Forwarder.

#[local] Existing Instance ref_ops.
#[local] Existing Instance ref_laws.
#[local] Existing Instance ref_codec.
#[local] Existing Instance ref_codec_laws.
#[local] Existing Instance FibTree.FibTree_ops.

(** A transport with a scope that records its frames and never blocks. *)
Definition Port := (Scope * list (list byte))%type.
#[local] Instance port : Transport Port := {|
  tr_state _ := Up; tr_mtu _ := 8800%Z; tr_scope t := t.1; tr_sendQueueSize _ := 0%Z;
  tr_sendFrame f t := Some (t.1, t.2 ++ [f]) |}.

Definition port_link (face : Z) (sc : Scope) : LinkService Port :=
  mkLink face (sc, []) MakeNDNLPLinkServiceOptions (computeHeaderOverhead MakeNDNLPLinkServiceOptions) ∅ [] 0 ∅ ∅ [] 0 0 0 false [] 0 0 0 0.

(** A consumer, two upstreams and a local application. *)
Definition ex_links : gmap Z (LinkService Port) :=
  list_to_map [(10, port_link 10 NonLocal); (20, port_link 20 NonLocal); (21, port_link 21 NonLocal); (30, port_link 30 Local)]%Z.

Definition ex_start : Forwarder := mkForwarder ex_links (mkNet ((fun i => NewThread (Z.of_nat i)) <$> seq 0 3) ∅).

Definition frame_of (tok : list byte) (s : SpecPacket) : list byte :=
  pos_bytes (encode (lp_packet (set_LpPitToken tok (lp_of_fragment [pos_bytes (encode s)])))).
Definition interest_frame (name : Name) (tok : list byte) : list byte :=
  frame_of tok (mkSpec (Some (mkInterest name false false None (Some 1%Z) None)) None None).
Definition data_frame_of (name : Name) (tok : list byte) : list byte :=
  frame_of tok (mkSpec None (Some (mkData name (Some 1000%Z))) None).

Abbreviation ex_step := (sys_step ex_config false 8 (fun _ => PointToPoint)).

(** ** Runs *)

Inductive ex_act := Frame (face : Z) (pp : nat) (wire : list byte) | Round (i : nat) (ev : event) | Sends (face : Z) (ev : send_event).

Definition sys_of (a : ex_act) : sys_event :=
  match a with
  | Frame face pp wire => FrameIn face pp wire
  | Round i ev => ThreadRuns i ex_env ev
  | Sends face ev => FaceSends face ev
  end.

Definition fitb (p : PendingPacket) : bool :=
  match Enc p with
  | EncInterest i => bool_decide (NonceV i <> None /\ (PitToken p = [] \/ 6 <= length (PitToken p)))
  | EncData d => bool_decide (DataNameV d <> []) && (negb (length (PitToken p) =? 6) || negb (be_get (take 2 (PitToken p)) =? 3)%Z)
  end.

Lemma fitb_ok p : fitb p = true -> packet_fit 3 p.
Proof.
  unfold fitb, packet_fit. destruct (Enc p) as [i|d].
  - intros [Hn Ht]%bool_decide_eq_true. by split_and!.
  - intros [Hn%bool_decide_eq_true Ht]%andb_true_iff. split_and!; [done|done|]. intros E. rewrite E in Ht. cbn in Ht.
    by apply negb_true_iff, Z.eqb_neq in Ht.
Qed.

Definition admissibleb (a : ex_act) (s : Forwarder (T := Port)) : bool :=
  match a with
  | Frame face pp wire =>
      bool_decide (net_packets (net s) !! pp = None) &&
      match links s !! face with
      | None => true
      | Some l => match received_packet wire l with Ok (_, Some p) => fitb p | Ok (_, None) => true | _ => false end
      end
  | _ => true
  end.

Lemma admissibleb_ok a s : admissibleb a s = true -> admissible 3 (sys_of a) s.
Proof.
  destruct a as [face pp wire|i ev|face ev]; cbn [admissibleb sys_of admissible]; [|intros _; exact ex_env_ok|done].
  intros [Hp%bool_decide_eq_true Hl]%andb_true_iff. split; [done|]. intros l El. rewrite El in Hl.
  destruct (received_packet wire l) as [[l1 po]| |]; [|done|done]. exists l1, po. split; [done|]. intros p ->. by apply fitb_ok.
Qed.

Fixpoint sys_acts (l : list ex_act) (s : Forwarder (T := Port)) : option Forwarder :=
  match l with
  | [] => Some s
  | a :: l' => match ex_step (sys_of a) s with Some (Ok s') => sys_acts l' s' | _ => None end
  end.

Fixpoint acts_admissible (l : list ex_act) (s : Forwarder (T := Port)) : bool :=
  match l with
  | [] => true
  | a :: l' => admissibleb a s && match ex_step (sys_of a) s with Some (Ok s') => acts_admissible l' s' | _ => false end
  end.

Abbreviation ex_runs := (runs (F := FibTree.FibStrategyTree) ex_config false 8 (fun _ : Port => PointToPoint) 3 ex_links).

Lemma sys_acts_runs l : forall s s', ex_runs s -> acts_admissible l s = true -> sys_acts l s = Some s' -> ex_runs s'.
Proof.
  induction l as [|a l IH]; intros s s' Hr Ea E; cbn [sys_acts acts_admissible] in *; [by injection E as <-|].
  apply andb_true_iff in Ea as [Ha Ea]. destruct (ex_step (sys_of a) s) as [[s1| |]|] eqn:Es; try done.
  eapply IH; [|exact Ea|exact E]. eapply runs_step; [exact Hr|by apply admissibleb_ok|exact Es].
Qed.

Definition after_acts (l : list ex_act) : Forwarder := default ex_start (sys_acts l ex_start).

Lemma ex_links_spec : plain_faces ex_links /\ map_Forall (fun _ l => l_sendQueue l = []) ex_links.
Proof.
  split; intros id l Hl; unfold ex_links in Hl; apply elem_of_list_to_map_2 in Hl;
  repeat (apply elem_of_cons in Hl as [[= -> ->]|Hl]; [done|]); by apply elem_of_nil in Hl.
Qed.

Lemma ex_start_runs : ex_runs ex_start.
Proof. apply runs_start, ex_links_spec. Qed.

Lemma after_acts_runs l : acts_admissible l ex_start = true -> ex_runs (after_acts l).
Proof.
  intros Ha. unfold after_acts. destruct (sys_acts l ex_start) as [s|] eqn:E; [|apply ex_start_runs]. cbn.
  by apply (sys_acts_runs l ex_start s ex_start_runs).
Qed.

(** The consumer asks for /a/x, with a token or without, and thread 2 forwards
    the Interest. *)
Definition asks (tok : list byte) : list ex_act := [Frame 10 0 (interest_frame ax tok); Round 2 (EvInterest 100 [7%Z])].

(** *** A short token stops the daemon *)

(** PIT tokens are up to 32 bytes that a downstream chooses.  A local application
    sends Data without a token, which is queued at the threads of all its
    prefixes, as one packet.  The thread where the Interest is pending writes the
    downstream's token into the packet; the next thread takes it for a token of
    its own and slices bytes 2 to 6 out of it, which panics if the downstream's
    token is shorter. *)
Lemma short_token_stops_daemon :
  let s := after_acts (asks [x01] ++ [Frame 30 1 (data_frame_of ax [])]) in
  exists s', ex_step (ThreadRuns 2 ex_env (EvData 200)) s = Some (Ok s') /\
    (pendingDatas <$> FWDispatch (net s)) = [[1]; []; [1]] /\
    ex_step (ThreadRuns 0 ex_env (EvData 300)) s' = Some Panic.
Proof.
  cbn zeta. set (r := ex_step (ThreadRuns 2 ex_env (EvData 200)) (after_acts (asks [x01] ++ [Frame 30 1 (data_frame_of ax [])]))).
  assert (Hr : match r with Some (Ok s') => match ex_step (ThreadRuns 0 ex_env (EvData 300)) s' with Some Panic => true | _ => false end | _ => false end = true)
    by (vm_compute; reflexivity).
  destruct r as [[s'| |]|]; try discriminate Hr. exists s'. split; [reflexivity|]. split; [vm_compute; reflexivity|].
  destruct (ex_step (ThreadRuns 0 ex_env (EvData 300)) s') as [[| |]|]; done.
Qed.

(** *** Instances *)

Definition waiting : Forwarder := after_acts (asks token_a).

Lemma waiting_runs : ex_runs waiting.
Proof. apply after_acts_runs. vm_compute. reflexivity. Qed.

Definition answer : list byte := data_frame_of ax (outgoing_token 2 7).

Lemma forwarder_safe_witness :
  exists s', ex_step (FrameIn 21 1 answer) waiting = Some (Ok s') /\ length (FWDispatch (net s')) = 3.
Proof.
  pose proof (forwarder_safe ex_config false 8 (fun _ : Port => PointToPoint) 3 ex_links waiting (FrameIn 21 1 answer)
    ltac:(vm_compute; discriminate) ltac:(lia) (proj1 ex_links_spec) waiting_runs
    (admissibleb_ok (Frame 21 1 answer) waiting ltac:(vm_compute; reflexivity))) as HS.
  destruct (ex_step (FrameIn 21 1 answer) waiting) as [r|].
  - destruct HS as (s' & -> & Hlen & _). exists s'. split; [reflexivity|exact Hlen].
  - destruct HS as (i & t & env & now & draws & Hev & _). discriminate Hev.
Defined.

(** The packet made of the answer's frame. *)
Definition packet_of (r : outcome (LinkService Port * option PendingPacket)) : PendingPacket :=
  match r with Ok (_, Some p) => p | _ => data_from 0 [] end.

Lemma packet_of_spec r : match r with Ok (_, Some _) => true | _ => false end = true -> exists l1, r = Ok (l1, Some (packet_of r)).
Proof. destruct r as [[l1 [p|]]| |]; try done. by exists l1. Qed.

Definition answer_link : LinkService Port := default (port_link 21 NonLocal) (links waiting !! 21%Z).
Definition answer_packet : PendingPacket := packet_of (received_packet answer answer_link).

Definition waiting_thread : Thread := default (NewThread 2) (FWDispatch (net waiting) !! 2).
Definition waiting_entry : nameTreePitEntry := default (new_entry (mkInterest [] false false None None None) None 0 0) (pits (pitCS waiting_thread) !! 0).
Definition waiting_record : PitInRecord := default (mkInRecord 0 0 0 0 0 []) (inRecords waiting_entry !! 10%Z).

Lemma answer_frame : data_frame waiting 21 1 answer answer_packet (mkData ax (Some 1000%Z)).
Proof.
  split.
  - destruct (packet_of_spec (received_packet answer answer_link)) as [l1 E]; [vm_compute; reflexivity|].
    exists answer_link, l1. split; [vm_compute; reflexivity|]. split; [vm_compute; reflexivity|]. split; [exact E|].
    intros _. vm_compute. reflexivity.
  - vm_compute. reflexivity.
  - vm_compute. reflexivity.
  - split; [exact I|discriminate].
Qed.

Lemma waiting_awaited : awaited ex_config 8 waiting 2 waiting_thread 10 0 waiting_entry waiting_record.
Proof.
  split.
  - vm_compute. reflexivity.
  - split; [vm_compute; reflexivity|vm_compute; lia].
  - split; [|vm_compute; reflexivity].
    destruct (runs_ok ex_config false 8 (fun _ : Port => PointToPoint) 3 ltac:(vm_compute; discriminate) ex_links waiting ltac:(lia) (proj1 ex_links_spec) waiting_runs) as [[_ Hall _] _].
    assert (Ht : FWDispatch (net waiting) !! 2 = Some waiting_thread) by (vm_compute; reflexivity).
    destruct (Forall_lookup_1 _ _ _ _ Hall Ht) as [[os HI] _ _ _ _]. destruct (at_work_ok _ _ _ (tinv_work _ _ _ _ HI)) as [Hpit _ _].
    assert (Hk : pitTokenMap (pitCS waiting_thread) !! 7%Z = Some 0) by (vm_compute; reflexivity).
    by apply (pit_tokens _ Hpit) in Hk as (p & ? & _).
  - vm_compute. reflexivity.
  - exists (default (port_link 10 NonLocal) (links waiting !! 10%Z)). split; [vm_compute; reflexivity|vm_compute; lia].
Qed.

Lemma answer_returns_witness :
  exists s1 s2, ex_step (FrameIn 21 1 answer) waiting = Some (Ok s1) /\
    ex_step (ThreadRuns 2 ex_env (EvData 200)) s1 = Some (Ok s2) /\
    (l_sendQueue <$> links s2 !! 10%Z) = Some [1] /\ (PitToken <$> net_packets (net s2) !! 1) = Some token_a.
Proof.
  destruct (answer_returns ex_config false 8 (fun _ : Port => PointToPoint) 3 ex_links waiting ex_env 200 21 1 answer answer_packet
    (mkData ax (Some 1000%Z)) 2 waiting_thread 10 0 waiting_entry waiting_record ltac:(vm_compute; discriminate) ltac:(lia)
    ltac:(lia) (proj1 ex_links_spec) waiting_runs ex_env_ok answer_frame waiting_awaited) as (s1 & s2 & E1 & E2 & (l & l2 & Hl & Hl2 & Hq) & (p2 & Hp2 & _ & Ht) & _).
  - intros l _ _. vm_compute. reflexivity.
  - vm_compute. split; congruence.
  - vm_compute. reflexivity.
  - exists s1, s2. split; [exact E1|]. split; [exact E2|]. rewrite Hl2, Hp2. cbn [fmap option_fmap option_map]. split.
    + rewrite Hq. assert (Ew : (l_sendQueue <$> links waiting !! 10%Z) = Some []) by (vm_compute; reflexivity).
      rewrite Hl in Ew. cbn in Ew. injection Ew as ->. reflexivity.
    + rewrite Ht by (vm_compute; discriminate). vm_compute. reflexivity.
Defined.
