(* ===== verification/Faces.v ===== *)
(** * The face table: face/table.go, face/events.go, dispatch/face.go

    Faces are shared by pointer: [links] is the store of link services, and the
    face table and the dispatch map hold pointers into it.  Events are kept in
    a ring of 100 slots.  Removing a face also cleans the RIB (module [Rib]).
    The mutexes are not modelled: every operation takes them for its whole
    run, so operations are atomic. *)
From S2P Require Import Prelude.
From S2P Require Import Enc FibSpec Rib Packet Fw Uri Transport Sockets LinkService.

(** ** Face events *)

Inductive FaceEventKind := FaceEventCreated | FaceEventDestroyed | FaceEventUp | FaceEventDown.

#[export] Instance FaceEventKind_eq_dec : EqDecision FaceEventKind.
Proof. solve_decision. Defined.

(** A link service: its transport and counters; the options are those of an
    NDNLPLinkService, [None] for a NullLinkService. *)
Record LinkFace := mkLinkFace {
  lf_faceID : Z;
  lf_transport : FaceTransport;
  lf_options : option Options;
  lf_nInInterests : Z;
  lf_nInData : Z;
  lf_nOutInterests : Z;
  lf_nOutData : Z }.

(** The getters of [linkServiceBase]. *)
Definition lf_remoteURI (f : LinkFace) : URI := remoteURI (tbase (lf_transport f)).
Definition lf_localURI (f : LinkFace) : URI := localURI (tbase (lf_transport f)).
Definition lf_scope (f : LinkFace) : Scope := t_scope (tbase (lf_transport f)).
Definition lf_persistency (f : LinkFace) : Z := persistency (tbase (lf_transport f)).
Definition lf_linkType (f : LinkFace) : LinkType := t_linkType (tbase (lf_transport f)).
Definition lf_mtu (f : LinkFace) : Z := mtu (tbase (lf_transport f)).

(** [SetFaceID], on the link service and its transport; changes of the
    transport and of the options; a new link service. *)
Definition lf_SetFaceID (id : Z) (f : LinkFace) : LinkFace :=
  mkLinkFace id (on_base (setFaceID id) (lf_transport f)) (lf_options f) (lf_nInInterests f) (lf_nInData f)
    (lf_nOutInterests f) (lf_nOutData f).
Definition lf_on_transport (g : FaceTransport -> FaceTransport) (f : LinkFace) : LinkFace :=
  mkLinkFace (lf_faceID f) (g (lf_transport f)) (lf_options f) (lf_nInInterests f) (lf_nInData f) (lf_nOutInterests f)
    (lf_nOutData f).
Definition lf_SetOptions (o : Options) (f : LinkFace) : LinkFace :=
  mkLinkFace (lf_faceID f) (lf_transport f) (Some o) (lf_nInInterests f) (lf_nInData f) (lf_nOutInterests f) (lf_nOutData f).
Definition new_face (t : FaceTransport) (o : option Options) : LinkFace := mkLinkFace 0 t o 0 0 0 0.

(** [FaceEvent]; nil URIs are [None]. *)
Record FaceEvent := mkFaceEvent {
  eventId : Z;
  faceEventKind : FaceEventKind;
  ev_faceId : Z;
  ev_remoteURI : option URI;
  ev_localURI : option URI;
  ev_scope : Scope;
  ev_persistency : Z;
  ev_linkType : LinkType;
  ev_flags : Z }.

Definition FaceEventsCacheSize : Z := 100.

(** The ring, its next slot, the next identifier, and the identifiers handed to
    [FaceEventSendFunc] (nothing while it is nil). *)
Record Events := mkEvents {
  faceEvents : list FaceEvent;
  faceEventsIdx : Z;
  faceEventsNextId : Z;
  sendFunc : bool;
  notified : list Z }.

Definition zero_event : FaceEvent := mkFaceEvent 0 FaceEventCreated 0 None None NonLocal 0 PointToPoint 0.
Definition no_events : Events := mkEvents (replicate 100 zero_event) 0 0 false [].

(** The slot after an event: a nil face leaves the face fields as they were. *)
Definition fill_event (id : Z) (kind : FaceEventKind) (face : option LinkFace) (old : FaceEvent) : FaceEvent :=
  let flags := match face with
               | Some f => match lf_options f with Some o => Flags o | None => 0%Z end
               | None => 0%Z
               end in
  match face with
  | Some f => mkFaceEvent id kind (lf_faceID f) (Some (lf_remoteURI f)) (Some (lf_localURI f)) (lf_scope f)
                (lf_persistency f) (lf_linkType f) flags
  | None => mkFaceEvent id kind (ev_faceId old) (ev_remoteURI old) (ev_localURI old) (ev_scope old) (ev_persistency old)
              (ev_linkType old) flags
  end.

Definition EmitFaceEvent (kind : FaceEventKind) (face : option LinkFace) (E : Events) : Events :=
  let i := Z.to_nat (faceEventsIdx E) in
  let next := u64 (faceEventsNextId E + 1) in
  mkEvents (alter (fill_event (faceEventsNextId E) kind face) i (faceEvents E))
    ((faceEventsIdx E + 1) mod FaceEventsCacheSize)%Z next (sendFunc E)
    (if sendFunc E then notified E ++ [u64 (next - 1)] else notified E).

(** [GetFaceEvent]: [Ok None] is nil; the index cannot be out of range. *)
Definition GetFaceEvent (id : Z) (E : Events) : outcome (option FaceEvent) :=
  if ((faceEventsNextId E <=? id) || (id <? u64 (faceEventsNextId E - FaceEventsCacheSize)))%Z then Ok None
  else
    let idx := (u64 (faceEventsIdx E + u64 (id + FaceEventsCacheSize - faceEventsNextId E)) mod FaceEventsCacheSize)%Z in
    let* e := go_index (faceEvents E) idx in Ok (Some e).

Definition FaceEventLastId (E : Events) : Z := u64 (faceEventsNextId E - 1).

(** ** The table *)

Section table.
Context `{EncOps} {F : Type} `{FibStrategy F}.

Record FaceWorld := mkFaceWorld {
  links : gmap nat LinkFace;
  Faces : gmap Z nat;
  nextFaceID : Z;
  FaceDispatch : gmap Z nat;
  events : Events;
  w_rib : RibTable F }.

(** Nothing but the RIB at start. *)
Definition no_faces (R : RibTable F) : FaceWorld := mkFaceWorld ∅ ∅ 1 ∅ no_events R.

(** The loop of [Add]; [None] when the fuel ends. *)
Fixpoint next_id (fuel : nat) (used : gmap Z nat) (next : Z) : option (Z * Z) :=
  match fuel with
  | 0 => None
  | S fuel =>
      let faceID := next in
      let next' := u64 (next + 1) in
      match used !! faceID with
      | None => Some (faceID, next')
      | Some _ => next_id fuel used next'
      end
  end.

(** [AddFace], [GetFace] and [RemoveFace] of the dispatch package. *)
Definition AddFace (id : Z) (p : nat) (w : FaceWorld) : FaceWorld :=
  mkFaceWorld (links w) (Faces w) (nextFaceID w) (<[id := p]> (FaceDispatch w)) (events w) (w_rib w).
Definition GetFace (id : Z) (w : FaceWorld) : option nat := FaceDispatch w !! id.
Definition RemoveFace (id : Z) (w : FaceWorld) : FaceWorld :=
  mkFaceWorld (links w) (Faces w) (nextFaceID w) (delete id (FaceDispatch w)) (events w) (w_rib w).

Definition emit (kind : FaceEventKind) (p : option nat) (w : FaceWorld) : FaceWorld :=
  mkFaceWorld (links w) (Faces w) (nextFaceID w) (FaceDispatch w)
    (EmitFaceEvent kind (p ≫= fun p => links w !! p) (events w)) (w_rib w).

(** [Add]: with one more round than faces the loop ends. *)
Definition Add (p : nat) (w : FaceWorld) : option FaceWorld :=
  match next_id (S (size (Faces w))) (Faces w) (nextFaceID w) with
  | None => None
  | Some (faceID, next) =>
      let w1 := mkFaceWorld (alter (lf_SetFaceID faceID) p (links w)) (<[faceID := p]> (Faces w)) next
                  (FaceDispatch w) (events w) (w_rib w) in
      Some (emit FaceEventCreated (Some p) (AddFace faceID p w1))
  end.

(** A new link service, that is in no table yet; a new one put into the table. *)
Definition new_link (f : LinkFace) (w : FaceWorld) : FaceWorld :=
  mkFaceWorld (<[fresh (dom (links w)) := f]> (links w)) (Faces w) (nextFaceID w) (FaceDispatch w) (events w) (w_rib w).
Definition add_link (f : LinkFace) (w : FaceWorld) : option FaceWorld := Add (fresh (dom (links w))) (new_link f w).

Definition Get (id : Z) (w : FaceWorld) : option nat := Faces w !! id.

(** [GetByURI]: the first face of the walk with the URI; [order] is the order of
    the map iteration. *)
Fixpoint GetByURI (order : list Z) (uri : URI) (w : FaceWorld) : option nat :=
  match order with
  | [] => None
  | id :: rest =>
      match Faces w !! id ≫= (fun p => links w !! p ≫= fun f => Some (p, f)) with
      | Some (p, f) => if bool_decide (URI_String (lf_remoteURI f) = URI_String uri) then Some p else GetByURI rest uri w
      | None => GetByURI rest uri w
      end
  end.

Definition GetAll (w : FaceWorld) : list nat := (map_to_list (Faces w)).*2.

Definition Remove (id : Z) (w : FaceWorld) : FaceWorld :=
  let w1 := emit FaceEventDestroyed (Faces w !! id) w in
  let w2 := RemoveFace id (mkFaceWorld (links w1) (delete id (Faces w1)) (nextFaceID w1) (FaceDispatch w1) (events w1)
              (w_rib w1)) in
  mkFaceWorld (links w2) (Faces w2) (nextFaceID w2) (FaceDispatch w2) (events w2) (CleanUpFace (w_rib w2) id).

End table.
Arguments mkFaceWorld {F}. Arguments links {F}. Arguments Faces {F}. Arguments nextFaceID {F}.
Arguments FaceDispatch {F}. Arguments events {F}. Arguments w_rib {F}. Arguments FaceWorld F : clear implicits.

(** ** Events: the ring buffer *)

(** An emitted event in its slot: everything but what a nil face leaves of the
    slot's previous event. *)
Definition recorded (id : Z) (ev : FaceEventKind * option LinkFace) (e : FaceEvent) : Prop :=
  exists old, e = fill_event id ev.1 ev.2 old.

Definition emit_all (evs : list (FaceEventKind * option LinkFace)) (E : Events) : Events :=
  fold_left (fun E ev => EmitFaceEvent ev.1 ev.2 E) evs E.

(** The ring after the events [evs]: slot [j mod 100] holds event [j] of the
    last hundred. *)
Record ring_ok (evs : list (FaceEventKind * option LinkFace)) (E : Events) : Prop := {
  ring_next : faceEventsNextId E = Z.of_nat (length evs);
  ring_idx : faceEventsIdx E = (Z.of_nat (length evs) mod 100)%Z;
  ring_length : length (faceEvents E) = 100;
  ring_slots : forall j ev, evs !! j = Some ev -> (length evs <= j + 100)%nat ->
    exists e, faceEvents E !! (j mod 100) = Some e /\ recorded (Z.of_nat j) ev e }.

Lemma ring_initial : ring_ok [] no_events.
Proof. split; [done|done|done|]. intros j ev Hj. by rewrite lookup_nil in Hj. Qed.

Lemma ring_emit evs ev E : ring_ok evs E -> (Z.of_nat (length evs) < 2 ^ 63)%Z ->
  ring_ok (evs ++ [ev]) (EmitFaceEvent ev.1 ev.2 E).
Proof.
  intros [Hn Hi Hl Hs] Hsmall. unfold EmitFaceEvent. rewrite Hn, Hi.
  assert (Hslot : Z.to_nat (Z.of_nat (length evs) mod 100) = length evs mod 100).
  { change 100%Z with (Z.of_nat 100). by rewrite <- Nat2Z.inj_mod, Nat2Z.id. }
  rewrite Hslot. split; cbn [faceEventsNextId faceEventsIdx faceEvents].
  - rewrite length_app, u64_small by lia. cbn. lia.
  - rewrite length_app. cbn. unfold FaceEventsCacheSize. rewrite Z.add_mod_idemp_l by lia. f_equal. lia.
  - by rewrite length_alter.
  - intros j ev' Hj Hr. rewrite length_app in Hr. cbn in Hr.
    assert (Hin : length evs mod 100 < 100) by (apply Nat.mod_upper_bound; lia).
    apply lookup_app_Some in Hj as [Hj|[Hge Hj]].
    + pose proof (lookup_lt_Some _ _ _ Hj). destruct (Hs j ev' Hj) as (e & He & Hrec); [lia|].
      exists e. rewrite list_lookup_alter_ne; [done|]. intros E0.
      pose proof (Nat.div_mod (length evs) 100 ltac:(lia)). pose proof (Nat.div_mod j 100 ltac:(lia)). nia.
    + apply list_lookup_singleton_Some in Hj as [Hj <-].
      replace j with (length evs) by lia. rewrite list_lookup_alter_eq.
      destruct (lookup_lt_is_Some_2 (faceEvents E) (length evs mod 100)) as [old Hold]; [lia|]. rewrite Hold.
      eexists. split; [done|]. by exists old.
Qed.

Lemma ring_emit_all evs : (Z.of_nat (length evs) < 2 ^ 63)%Z -> ring_ok evs (emit_all evs no_events).
Proof.
  induction evs as [|ev evs IH] using rev_ind; intros Hl; [apply ring_initial|].
  rewrite length_app in Hl. unfold emit_all. rewrite fold_left_app. cbn [fold_left]. apply ring_emit; [apply IH; lia|lia].
Qed.

(** C23: the event stream of the faces.  Events are numbered from 0 in the order
    they are emitted.  Once 100 events were emitted, [GetFaceEvent] answers for
    exactly the last hundred, with the event of that number as it was emitted;
    before that the unsigned subtraction of its range check wraps around and it
    answers nil for every event, although none has been discarded. *)
Theorem face_events_spec (evs : list (FaceEventKind * option LinkFace)) (id : Z) :
  let n := Z.of_nat (length evs) in
  (n < 2 ^ 63)%Z -> (0 <= id < 2 ^ 64)%Z ->
  let E := emit_all evs no_events in
  faceEventsNextId E = n /\
  if decide (100 <= n /\ n - 100 <= id < n)%Z then
    exists ev e, evs !! Z.to_nat id = Some ev /\ GetFaceEvent id E = Ok (Some e) /\ recorded id ev e
  else GetFaceEvent id E = Ok None.
Proof.
  intros n Hn Hid E. destruct (ring_emit_all evs Hn) as [Hnext Hidx Hlen Hslots]. fold E n in Hnext, Hidx, Hlen, Hslots.
  split; [done|]. unfold GetFaceEvent. rewrite Hnext, Hidx. unfold FaceEventsCacheSize. case_decide as Hr.
  - replace (u64 (n - 100)) with (n - 100)%Z by (rewrite u64_small; lia).
    replace ((n <=? id) || (id <? n - 100))%Z with false by lia.
    pose proof (Z.mod_pos_bound n 100 ltac:(lia)).
    assert (Hix : (u64 (n mod 100 + u64 (id + 100 - n)) mod 100 = id mod 100)%Z).
    { rewrite (u64_small (id + 100 - n)) by lia. rewrite u64_small by lia. rewrite Z.add_mod_idemp_l by lia.
      replace (n + (id + 100 - n))%Z with (id + 1 * 100)%Z by lia. by rewrite Z.mod_add by lia. }
    rewrite Hix. destruct (lookup_lt_is_Some_2 evs (Z.to_nat id)) as [ev Hev]; [lia|].
    destruct (Hslots (Z.to_nat id) ev Hev) as (e & He & Hrec); [lia|].
    exists ev, e. split; [done|]. rewrite Z2Nat.id in Hrec by lia. split; [|done].
    unfold go_index. pose proof (Z.mod_pos_bound id 100 ltac:(lia)). rewrite bool_decide_true by lia.
    replace (Z.to_nat (id mod 100)) with (Z.to_nat id mod 100); [by rewrite He|].
    apply Nat2Z.inj. rewrite Nat2Z.inj_mod, !Z2Nat.id by lia. done.
  - destruct (decide (100 <= n)%Z).
    + replace (u64 (n - 100)) with (n - 100)%Z by (rewrite u64_small; lia).
      by replace ((n <=? id) || (id <? n - 100))%Z with true by lia.
    + assert (Hw : u64 (n - 100) = (n - 100 + 2 ^ 64)%Z).
      { unfold u64. symmetry. apply Z.mod_unique with (-1)%Z; lia. }
      rewrite Hw. by replace ((n <=? id) || (id <? n - 100 + 2 ^ 64))%Z with true by lia.
Qed.

(** ** The table: invariant and operations *)

Section table_laws.
Context `{EncLaws} {F : Type} `{FibStrategyLaws F}.
Implicit Types (w : FaceWorld F).

Lemma next_id_fuel fuel used next : (0 <= next < 2 ^ 64)%Z -> next_id fuel used next = None ->
  forall i, (i < fuel)%nat -> is_Some (used !! u64 (next + Z.of_nat i)).
Proof.
  revert next. induction fuel as [|fuel IH]; intros next Hn Hnone i Hi; [lia|]. cbn [next_id] in Hnone.
  destruct (used !! next) as [p|] eqn:E; [|done]. destruct i as [|i].
  - rewrite Z.add_0_r, u64_small by lia. by exists p.
  - specialize (IH (u64 (next + 1)) (u64_range _) Hnone i ltac:(lia)).
    replace (u64 (next + Z.of_nat (S i))) with (u64 (u64 (next + 1) + Z.of_nat i)); [done|].
    unfold u64. rewrite Z.add_mod_idemp_l by lia. f_equal. lia.
Qed.

Lemma next_id_total used next : (0 <= next < 2 ^ 64)%Z -> (Z.of_nat (size used) < 2 ^ 64)%Z ->
  is_Some (next_id (S (size used)) used next).
Proof.
  intros Hn Hs. destruct (next_id _ _ _) eqn:E; [done|]. exfalso.
  pose proof (next_id_fuel _ _ _ Hn E) as Hall.
  set (ids := (fun i => u64 (next + Z.of_nat i)) <$> seq 0 (S (size used))).
  assert (Hnd : NoDup ids).
  { apply NoDup_fmap_2_strong; [|apply NoDup_seq]. intros i j Hi Hj Eij. apply elem_of_seq in Hi, Hj. unfold u64 in Eij.
    pose proof (Z.div_mod (next + Z.of_nat i) (2 ^ 64) ltac:(lia)). pose proof (Z.div_mod (next + Z.of_nat j) (2 ^ 64) ltac:(lia)).
    nia. }
  assert (Hsub : list_to_set ids ⊆ dom used).
  { intros x Hx. apply elem_of_list_to_set in Hx. apply list_elem_of_fmap in Hx as (i & -> & Hi). apply elem_of_seq in Hi.
    apply elem_of_dom. apply Hall. lia. }
  apply subseteq_size in Hsub. rewrite size_list_to_set, size_dom in Hsub by done.
  unfold ids in Hsub. rewrite length_fmap, length_seq in Hsub. lia.
Qed.

Lemma next_id_spec fuel used next id next' : (0 <= next < 2 ^ 64)%Z -> next_id fuel used next = Some (id, next') ->
  used !! id = None /\ (0 <= id < 2 ^ 64)%Z /\ next' = u64 (id + 1).
Proof.
  revert next. induction fuel as [|fuel IH]; intros next Hn; cbn [next_id]; [done|].
  destruct (used !! next) eqn:E; [|intros [= <- <-]; done]. intros Hid. by apply (IH _ (u64_range _)) in Hid.
Qed.

(** The dispatch map is the table; the faces in it are distinct and know their
    identifiers; the RIB and the FIB agree but for the names [D]. *)
Record table_ok (D : Name -> Prop) w : Prop := {
  tab_dispatch : FaceDispatch w = Faces w;
  tab_next : (0 <= nextFaceID w < 2 ^ 64)%Z;
  tab_ids : forall id p, Faces w !! id = Some p -> exists f, links w !! p = Some f /\ lf_faceID f = id;
  tab_rib : rib_ok (rib (w_rib w));
  tab_fib : agrees D (rib (w_rib w)) (fib (w_rib w)) }.

Lemma tab_inj D w id1 id2 p : table_ok D w -> Faces w !! id1 = Some p -> Faces w !! id2 = Some p -> id1 = id2.
Proof.
  intros Hok Ha Hb. destruct (tab_ids D w Hok _ _ Ha) as (f1 & L1 & <-). destruct (tab_ids D w Hok _ _ Hb) as (f2 & L2 & <-).
  congruence.
Qed.

Lemma no_faces_ok (f : F) : fib_ok f -> (forall n, fib_nh f n = []) -> table_ok (fun _ => False) (no_faces (newRib f)).
Proof.
  intros Hf Hnh. destruct (new_rib_ok f Hf Hnh) as (Hok & Hc & _). split; cbn; [done|lia| |done|done].
  intros id p Hid. by rewrite lookup_empty in Hid.
Qed.

Lemma Add_ok D w p f :
  table_ok D w -> (Z.of_nat (size (Faces w)) < 2 ^ 64)%Z -> links w !! p = Some f -> (forall i, Faces w !! i <> Some p) ->
  exists w' new, Add p w = Some w' /\ table_ok D w' /\ Faces w !! new = None /\ (0 <= new < 2 ^ 64)%Z /\
    nextFaceID w' = u64 (new + 1) /\ Faces w' = <[new := p]> (Faces w) /\
    links w' = alter (lf_SetFaceID new) p (links w) /\ w_rib w' = w_rib w /\
    events w' = EmitFaceEvent FaceEventCreated (Some (lf_SetFaceID new f)) (events w).
Proof.
  intros [Hd Hn Hids Hrib Hfib] Hsize Hp Hnot. unfold Add.
  destruct (next_id_total (Faces w) (nextFaceID w) Hn Hsize) as [[new next] E]. rewrite E.
  destruct (next_id_spec _ _ _ _ _ Hn E) as (Hfree & [Hlo Hhi] & ->). eexists _, new. split; [done|].
  cbn. rewrite lookup_alter_eq, Hp, Hd. cbn. split_and!; try done.
  split; cbn; [done|apply u64_range| |done|done].
  intros i q [[<- <-]|[Hne Hi]]%lookup_insert_Some.
  - rewrite lookup_alter_eq, Hp. by eexists.
  - destruct (Hids i q Hi) as (g & Hg & Hgi). exists g. rewrite lookup_alter_ne; [done|]. intros <-. by apply (Hnot i).
Qed.

Lemma add_link_ok D w f : table_ok D w -> (Z.of_nat (size (Faces w)) < 2 ^ 64)%Z ->
  let p := fresh (dom (links w)) in
  exists w' new, add_link f w = Some w' /\ table_ok D w' /\ links w !! p = None /\ Faces w !! new = None /\
    (0 <= new < 2 ^ 64)%Z /\ nextFaceID w' = u64 (new + 1) /\ Faces w' = <[new := p]> (Faces w) /\
    links w' = <[p := lf_SetFaceID new f]> (links w) /\
    w_rib w' = w_rib w /\ events w' = EmitFaceEvent FaceEventCreated (Some (lf_SetFaceID new f)) (events w).
Proof.
  intros Ht Hs p. assert (Hfr : links w !! p = None) by (apply not_elem_of_dom, is_fresh).
  assert (Hnot : forall i, Faces w !! i <> Some p).
  { intros i Hi. destruct (tab_ids D _ Ht i p Hi) as (g & Hg & _). congruence. }
  assert (Ht1 : table_ok D (new_link f w)).
  { destruct Ht as [Hd Hn Hids Hr Hf]. split; try done. intros i q Hi. destruct (Hids i q Hi) as (g & Hg & Hgi).
    exists g. split; [|done]. cbn. rewrite lookup_insert_ne; [done|]. intros <-. unfold p in Hfr. congruence. }
  destruct (Add_ok D (new_link f w) p f Ht1 Hs (lookup_insert_eq _ _ _) Hnot) as (w' & new & E & Ht2 & Hnew & Hr & Hnx & Hf2 & Hl2 & Hrb & He).
  exists w', new. split_and!; try done; [apply Hr..|]. rewrite Hl2. cbn. by rewrite alter_insert_eq.
Qed.

Lemma Remove_ok D w id : table_ok D w ->
  let w' := Remove id w in
  table_ok D w' /\ Faces w' = delete id (Faces w) /\ links w' = links w /\
  events w' = EmitFaceEvent FaceEventDestroyed (Get id w ≫= fun p => links w !! p) (events w) /\
  (forall n, routes_at (rib (w_rib w')) n = drop_face id (routes_at (rib (w_rib w)) n)) /\
  (forall n, fib_st (fib (w_rib w')) n = fib_st (fib (w_rib w)) n).
Proof.
  intros [Hd Hn Hids Hrib Hfib]. cbv zeta.
  destruct (CleanUpFace_ok id (w_rib w) Hrib Hfib) as [Cok Ccon Croutes _ _ _ Cst].
  unfold Remove, Get, emit, RemoveFace. cbn. split_and!; try done.
  split; cbn; [by rewrite Hd|done| |exact Cok|exact Ccon]. intros i q [_ Hi]%lookup_delete_Some. by apply Hids.
Qed.

(** C22: the face table.  Adding a link service that is not in the table always
    ends (the search for a free identifier terminates), under an identifier no
    face has, which the service and the dispatch map learn and the Created
    event carries; removing one forgets it in both maps, emits Destroyed, and
    drops from every name of the RIB the first route through it.  Both keep the
    two maps equal, the faces of distinct identifiers distinct, every face
    aware of its identifier and the FIB the minimum cost per face of the RIB
    (but for names [D] whose next hops were not written by the RIB). *)
Theorem face_table_spec D w p f id :
  table_ok D w -> (Z.of_nat (size (Faces w)) < 2 ^ 64)%Z ->
  links w !! p = Some f -> (forall i, Faces w !! i <> Some p) ->
  (exists w' new, Add p w = Some w' /\ table_ok D w' /\ Faces w !! new = None /\ (0 <= new < 2 ^ 64)%Z /\
    nextFaceID w' = u64 (new + 1) /\ Get new w' = Some p /\ GetFace new w' = Some p /\
    links w' !! p = Some (lf_SetFaceID new f) /\ (forall i, i <> new -> Get i w' = Get i w) /\
    events w' = EmitFaceEvent FaceEventCreated (Some (lf_SetFaceID new f)) (events w)) /\
  (let w' := Remove id w in
   table_ok D w' /\ Get id w' = None /\ GetFace id w' = None /\ (forall i, i <> id -> Get i w' = Get i w) /\
   events w' = EmitFaceEvent FaceEventDestroyed (Get id w ≫= fun p => links w !! p) (events w) /\
   forall n, routes_at (rib (w_rib w')) n = drop_face id (routes_at (rib (w_rib w)) n)).
Proof.
  intros Hok Hsize Hp Hnot. split.
  - destruct (Add_ok D w p f Hok Hsize Hp Hnot) as (w' & new & E & Hok' & Hfree & Hr & Hnext & Hf & Hl & _ & He).
    exists w', new. unfold Get, GetFace. rewrite (tab_dispatch D w' Hok'), Hf, Hl, lookup_insert_eq, lookup_alter_eq, Hp.
    split_and!; try done; [apply Hr..|]. intros i Hi. by rewrite lookup_insert_ne.
  - cbv zeta. destruct (Remove_ok D w id Hok) as (Hok' & Hf & Hl & He & Hrt & _).
    unfold Get, GetFace in *. rewrite (tab_dispatch D _ Hok'), Hf. split_and!; try done; [apply lookup_delete_eq..|].
    intros i Hi. by apply lookup_delete_ne.
Qed.

End table_laws.

(** ** Examples *)

From S2P Require Import FibTree.

Module FacesExamples.
#[local] Existing Instance UriExamples.ex_env.
#[local] Existing Instance ref_ops.
#[local] Existing Instance ref_laws.

Definition ex_face : LinkFace := new_face MakeNullTransport None.
Definition ex_world : FaceWorld FibStrategyTree :=
  mkFaceWorld {[7 := ex_face; 8 := lf_SetFaceID 1 ex_face]} {[1%Z := 8]} 1 {[1%Z := 8]} no_events (newRib ex_fib).

Lemma ex_world_ok : table_ok (fun _ => False) ex_world.
Proof.
  destruct (new_rib_ok ex_fib) as (Hok & Hc & _); [apply new_ok|exact ex_fib_empty|]. split; cbn; [done|lia| |done|done].
  intros id p [<- <-]%lookup_singleton_Some. by exists (lf_SetFaceID 1 ex_face).
Qed.

(** The identifier 1 is taken: the search goes on to 2. *)
Lemma face_table_witness :
  exists w', Add 7 ex_world = Some w' /\ Get 2 w' = Some 7 /\ Get 1 w' = Some 8 /\
    Get 1 (Remove 1 ex_world) = None.
Proof.
  assert (Hnot : forall i, Faces ex_world !! i <> Some 7).
  { intros i Hi. cbn in Hi. apply lookup_singleton_Some in Hi as [_ Hi]. discriminate. }
  destruct (face_table_spec (fun _ => False) ex_world 7 ex_face 1 ex_world_ok ltac:(vm_compute; reflexivity) eq_refl Hnot)
    as ((w' & new & E & _ & _ & _ & _ & Hg & _ & _ & Ho & _) & (_ & Hr & _)).
  exists w'. split; [exact E|]. vm_compute in E. injection E as <-. split; [reflexivity|]. split; [reflexivity|exact Hr].
Defined.

Definition up (_ : nat) : FaceEventKind * option LinkFace := (FaceEventUp, Some ex_face).

(** Event 3 of the first 5 cannot be read, event 103 of 105 can. *)
Lemma face_events_witness :
  GetFaceEvent 3 (emit_all (up <$> seq 0 5) no_events) = Ok None /\
  exists e, GetFaceEvent 103 (emit_all (up <$> seq 0 105) no_events) = Ok (Some e) /\ eventId e = 103%Z.
Proof.
  split.
  - pose proof (face_events_spec (up <$> seq 0 5) 3) as Hs. cbv zeta in Hs. rewrite length_fmap, length_seq in Hs.
    destruct Hs as [_ Hs]; [lia|lia|]. rewrite decide_False in Hs by lia. exact Hs.
  - pose proof (face_events_spec (up <$> seq 0 105) 103) as Hs. cbv zeta in Hs. rewrite length_fmap, length_seq in Hs.
    destruct Hs as [_ Hs]; [lia|lia|]. rewrite decide_True in Hs by lia.
    destruct Hs as ([k [f|]] & e & _ & Hg & old & ->); eexists; (split; [exact Hg|reflexivity]).
Defined.

End FacesExamples.
