(* ===== verification/MgmtBase.v ===== *)
(** * Management: data, encoders and the sending of responses
    (mgmt/thread.go, mgmt/helpers.go)

    Management runs as one thread behind an internal face: it receives Interests
    from the [InternalTransport] and sends Data packets through it.  The control
    parameters, responses and datasets are structures of the go-ndn module; its
    parsers and encoders are the class [MgmtCodec].  The state is the face
    table with the RIB and FIB ([FaceWorld]), the capacity of the Content
    Store, the transport and the version counters of the datasets. *)
From S2P Require Import Prelude.
From S2P Require Import Tlv Enc FibSpec Rib Packet Fw Uri Transport Sockets LinkService Faces.
Local Open Scope Z_scope.

(** ** Structures of go-ndn *)

(** [mgmt.ControlArgs]: the optional fields the modules use. *)
Record ControlArgs := mkArgs {
  pName : goname;
  pFaceId : option Z;
  pUri : option (list byte);
  pLocalUri : option (list byte);
  pOrigin : option Z;
  pCost : option Z;
  pCapacity : option Z;
  pBaseCongestionMarkInterval : option Z;
  pDefaultCongestionThreshold : option Z;
  pMtu : option Z;
  pFlags : option Z;
  pMask : option Z;
  pStrategy : option goname;
  pExpirationPeriod : option Z;
  pFacePersistency : option Z }.

(** The values of a [map[string]any]. *)
Inductive dval := DName (n : goname) | DUint (z : Z) | DInt (z : Z) | DString (s : list byte) | DStrategy (n : goname).
Abbreviation dict := (gmap string dval) (only parsing).

Record ControlResponse := mkResponse { StatusCode : Z; StatusText : String.string; Params : ControlArgs }.

Record FaceQueryFilter := mkFilter {
  qFaceId : option Z;
  qUriScheme : option (list byte);
  qUri : option (list byte);
  qLocalUri : option (list byte);
  qFaceScope : option Z;
  qFacePersistency : option Z;
  qLinkType : option Z }.

Record FaceStatus := mkFaceStatus {
  fsFaceId : Z;
  fsUri : list byte;
  fsLocalUri : list byte;
  fsExpirationPeriod : option Z;
  fsFaceScope : Z;
  fsFacePersistency : Z;
  fsLinkType : Z;
  fsBaseCongestionMarkInterval : option Z;
  fsDefaultCongestionThreshold : option Z;
  fsMtu : Z;
  fsNInInterests : Z;
  fsNInData : Z;
  fsNOutInterests : Z;
  fsNOutData : Z;
  fsNInBytes : Z;
  fsNOutBytes : Z;
  fsFlags : Z }.

Record GeneralStatus := mkGeneralStatus {
  NfdVersion : list byte;
  StartTimestamp : Z;
  CurrentTimestamp : Z;
  NFibEntries : Z;
  gNPitEntries : Z;
  gNCsEntries : Z;
  gNInInterests : Z;
  gNInData : Z;
  gNOutInterests : Z;
  gNOutData : Z;
  gNSatisfiedInterests : Z;
  gNUnsatisfiedInterests : Z }.

(** A notification ([mgmt.FaceEventNotification]). *)
Record Notification := mkNotification {
  nKind : Z; nFaceId : Z; nUri : list byte; nLocalUri : list byte; nScope : Z; nPersistency : Z; nLinkType : Z; nFlags : Z }.

(** What is put into Data packets. *)
Inductive Payload :=
| PResponse (r : ControlResponse)
| PRibStatus (entries : list (goname * list Route))
| PFibStatus (entries : list (goname * list FibNextHopEntry))
| PStrategies (entries : list (goname * goname))
| PCsInfo (capacity flags entries : Z)
| PGeneralStatus (s : GeneralStatus)
| PFaces (l : list FaceStatus)
| PNotification (n : Notification).

(** The module's parsers and encoders: the outer [None] of a parser is an error,
    the inner one a missing structure.  [MakeData name freshness finalBlock
    content] makes the signed Data packet.  [AppParam] is the application
    parameters of the Interest of a fragment, [ReadData] whether they are a
    Data packet. *)
Class MgmtCodec := {
  ParseControlParameters : list byte -> option (option ControlArgs);
  ParseFaceQueryFilter : list byte -> option (option FaceQueryFilter);
  DictToControlArgs : gmap string dval -> option ControlArgs;
  ToDict : ControlArgs -> gmap string dval;
  Payload_Encode : Payload -> Wire;
  MakeData : Name -> Z -> option Component -> Wire -> option Wire;
  NewVersionComponent : Z -> Component;
  NewSegmentComponent : Z -> Component;
  NewSequenceNumComponent : Z -> Component;
  Component_String : Component -> list byte;
  TypeParametersSha256DigestComponent : Z;
  TypeSegmentNameComponent : Z;
  TypeVersionNameComponent : Z;
  AppParam : Wire -> Wire;
  ReadData : Wire -> bool }.

(** An Interest for management: its application parameters, PIT token and
    incoming face. *)
Record Request := mkRequest { interest : Interest; appParam : Wire; pitToken : list byte; inFace : Z }.

(** The configuration: [faceQueueSize] (face/init.go) and
    [enableLocalhopManagement] (mgmt/init.go). *)
Class MgmtConfig := { faceQueueSize : nat; enableLocalhopManagement : bool }.

(** ** State *)

(** The next dataset versions. *)
Record Versions := mkVersions {
  nextRIBDatasetVersion : Z;
  nextFIBDatasetVersion : Z;
  nextCsDatasetVersion : Z;
  nextStrategyDatasetVersion : Z;
  nextGeneralDatasetVersion : Z;
  nextFaceDatasetVersion : Z }.

Section base.
Context `{EncOps} {F : Type} `{FibStrategy F} `{LpCodec} `{MgmtCodec} `{MgmtConfig}.

Record Mgmt := mkMgmt {
  faces : FaceWorld F;
  csCapacity : Z;
  mtransport : InternalTransport;
  versions : Versions }.

Definition set_faces (f : FaceWorld F) (w : Mgmt) : Mgmt := mkMgmt f (csCapacity w) (mtransport w) (versions w).
Definition set_transport (t : InternalTransport) (w : Mgmt) : Mgmt := mkMgmt (faces w) (csCapacity w) t (versions w).
Definition SetCsCapacity (c : Z) (w : Mgmt) : Mgmt := mkMgmt (faces w) c (mtransport w) (versions w).
Definition set_versions (v : Versions) (w : Mgmt) : Mgmt := mkMgmt (faces w) (csCapacity w) (mtransport w) v.
Definition set_rib (R : RibTable F) (w : Mgmt) : Mgmt :=
  let f := faces w in set_faces (mkFaceWorld (links f) (Faces f) (nextFaceID f) (FaceDispatch f) (events f) R) w.
Definition the_rib (w : Mgmt) : RibTable F := w_rib (faces w).
Definition the_fib (w : Mgmt) : F := fib (the_rib w).
Definition set_fib (f : F) (w : Mgmt) : Mgmt := set_rib (mkRib (rib (the_rib w)) f) w.

(** How a handler ends: it returns, it waits for room in the transport's queue,
    or the thread panics. *)
Inductive res := Done (w : Mgmt) | Blocked | Crash.

Definition res_bind (x : res) (k : Mgmt -> res) : res :=
  match x with Done w => k w | Blocked => Blocked | Crash => Crash end.

(** [m.transport.Send]. *)
Definition transport_Send (wire : Wire) (pitToken : list byte) (nextHop : option Z) (w : Mgmt) : res :=
  match LinkService.Send faceQueueSize wire pitToken nextHop (mtransport w) with
  | Some t => Done (set_transport t w)
  | None => Blocked
  end.

Definition second : Z := 1000000000.

Definition makeControlResponse (statusCode : Z) (statusText : String.string) (args : gmap string dval) : option ControlResponse :=
  mkResponse statusCode statusText <$> DictToControlArgs args.

(** [sendResponse]: a nil response is dereferenced. *)
Definition sendResponse (response : option ControlResponse) (rq : Request) (w : Mgmt) : res :=
  match response with
  | None => Crash
  | Some r =>
      match MakeData (NameV (interest rq)) second None (Payload_Encode (PResponse r)) with
      | None => Done w
      | Some dataWire => transport_Send dataWire (pitToken rq) (Some (inFace rq)) w
      end
  end.

(** [makeStatusDataset]: the wire to send, nil when the dataset has more than
    8000 buffers (not bytes) or cannot be encoded. *)
Definition makeStatusDataset (name : Name) (version : Z) (dataset : Wire) : Wire :=
  if 8000 <? Z.of_nat (length dataset) then []
  else default [] (MakeData (name ++ [NewVersionComponent version; NewSegmentComponent 0]) second
                     (Some (NewSegmentComponent 0)) dataset).

(** [localPrefix] and [nonLocalPrefix]. *)
Definition localPrefix : Name := [gc "localhost"; gc "nfd"].
Definition nonLocalPrefix : Name := [gc "localhop"; gc "nfd"].
Definition prefixLength : nat := length localPrefix.

Definition decodeControlParameters (rq : Request) : option ControlArgs :=
  c ← NameV (interest rq) !! (prefixLength + 2)%nat; mjoin (ParseControlParameters (Val c)).

(** A response and the end of the handler. *)
Definition respond (code : Z) (text : String.string) (args : gmap string dval) (rq : Request) (w : Mgmt) : res :=
  sendResponse (makeControlResponse code text args) rq w.

Definition bad_parameters := respond 400 "ControlParameters is incorrect" ∅.

(** The beginning of every command: the name must have parameters, and they
    must parse. *)
Definition with_parameters (rq : Request) (w : Mgmt) (k : ControlArgs -> res) : res :=
  if (length (NameV (interest rq)) <? prefixLength + 3)%nat then bad_parameters rq w
  else match decodeControlParameters rq with
       | None => bad_parameters rq w
       | Some params => k params
       end.

(** The same, with the name they must have. *)
Definition with_name (rq : Request) (w : Mgmt) (k : ControlArgs -> Name -> res) : res :=
  with_parameters rq w (fun params =>
    match pName params with
    | None => bad_parameters rq w
    | Some name => k params name
    end).

(** The face of a command: that of the Interest unless given. *)
Definition command_face (params : ControlArgs) (rq : Request) : Z :=
  match pFaceId params with Some f => if f =? 0 then inFace rq else f | None => inFace rq end.

(** Whether the face of a command is given and not in the table. *)
Definition face_missing (params : ControlArgs) (w : Mgmt) : bool :=
  match pFaceId params with Some f => negb (f =? 0) && bool_decide (Get f (faces w) = None) | None => false end.

(** The verb of a command. *)
Definition verb (rq : Request) : list byte := from_option Component_String [] (NameV (interest rq) !! (prefixLength + 1)%nat).
Definition unknown_verb := respond 501 "Unknown verb" ∅.
Definition from_localhost (rq : Request) : bool := Name_IsPrefix localPrefix (NameV (interest rq)).

(** Datasets are not made for names with a version or segment; [publish] sends
    one and counts the version up. *)
Definition is_dataset_request (rq : Request) : bool := (length (NameV (interest rq)) <=? prefixLength + 2)%nat.
Definition publish (name : Name) (version : Z) (payload : Payload) (next : Versions -> Versions) (rq : Request) (w : Mgmt) : res :=
  res_bind (transport_Send (makeStatusDataset name version (Payload_Encode payload)) (pitToken rq) None w)
    (fun w => Done (set_versions (next (versions w)) w)).

(** ** Notifications *)

Definition scope_number (s : Scope) : Z := match s with Local => 1 | NonLocal => 0 end.
Definition linktype_number (l : LinkType) : Z := match l with PointToPoint => 0 | MultiAccess => 1 | AdHoc => 2 end.
Definition event_number (k : FaceEventKind) : Z :=
  match k with FaceEventCreated => 1 | FaceEventDestroyed => 2 | FaceEventUp => 3 | FaceEventDown => 4 end.

(** [FaceEvent.Encode]; [None] is an error. *)
Definition FaceEvent_Encode (e : FaceEvent) : option Payload :=
  remote ← ev_remoteURI e; local ← ev_localURI e;
  Some (PNotification (mkNotification (event_number (faceEventKind e)) (ev_faceId e) (URI_String remote) (URI_String local)
    (scope_number (ev_scope e)) (u64 (ev_persistency e)) (linktype_number (ev_linkType e)) (ev_flags e))).

(** [sendFaceEventNotification]: the freshness is one millisecond. *)
Definition sendFaceEventNotification (id : Z) (pitToken : list byte) (w : Mgmt) : res :=
  match GetFaceEvent id (events (faces w)) with
  | Ok None => Done w
  | Ok (Some event) =>
      match FaceEvent_Encode event with
      | None => Done w
      | Some payload =>
          match MakeData (localPrefix ++ [gc "faces"; gc "events"; NewSequenceNumComponent id]) 1000000 None (Payload_Encode payload) with
          | None => Done w
          | Some dataWire => transport_Send dataWire pitToken None w
          end
      end
  | _ => Crash
  end.

(** [FaceEventSendFunc] is the function above: it is called for each event the
    face table emits.  [notify_since n] sends those after the first [n]. *)
Fixpoint notify_all (ids : list Z) (w : Mgmt) : res :=
  match ids with
  | [] => Done w
  | id :: ids => res_bind (sendFaceEventNotification id [] w) (notify_all ids)
  end.
Definition notify_since (n : nat) (w : Mgmt) : res := notify_all (drop n (notified (events (faces w)))) w.

End base.
Arguments Mgmt F : clear implicits. Arguments res F : clear implicits.
Arguments Done {F}. Arguments Blocked {F}. Arguments Crash {F}.
Arguments mkMgmt {F}. Arguments faces {F}. Arguments csCapacity {F}. Arguments mtransport {F}. Arguments versions {F}.
