(* ===== verification/MgmtTables.v ===== *)
(** * Management of the tables: mgmt/rib.go, mgmt/fib.go,
    mgmt/strategy-choice.go, mgmt/cs.go, mgmt/forwarder-status.go

    Each handler is a function from the Interest, its PIT token, its incoming
    face and the state of management to how the handler ends.  Sending happens
    in the handlers, so a full queue of the transport holds them up ([Blocked]). *)
From S2P Require Import Prelude.
From S2P Require Import Tlv Enc FibSpec Rib Packet PitCs Fw Uri Transport Sockets LinkService Faces MgmtBase.
Local Open Scope Z_scope.

Definition RouteFlagChildInherit : Z := 1.
Definition RouteOriginApp : Z := 0.
Definition CsFlagEnableAdmit : Z := 1.
Definition CsFlagEnableServe : Z := 2.
Definition Millisecond : Z := 1000000.

(** [fw.StrategyVersions], which the strategies fill when they are loaded. *)
Definition StrategyVersions : list (list byte * list Z) := [(gs "best-route", [1]); (gs "multicast", [1])].

Definition handler (F : Type) : Type := Request -> Mgmt F -> res F.

Section handlers.
Context `{EncOps} {F : Type} `{FibStrategy F} `{LpCodec} `{MgmtCodec} `{MgmtConfig}.

(** The first verb of a list that is the verb of the Interest; 501 when there
    is none. *)
Fixpoint dispatch_verb (handlers : list (String.string * handler F)) : handler F := fun rq w =>
  match handlers with
  | [] => unknown_verb rq w
  | (v, h) :: rest =>
      if bool_decide (verb rq = gs v) then h rq w else dispatch_verb rest rq w
  end.

(** Modules other than the RIB's drop what does not come from /localhost. *)
Definition local_only (h : handler F) : handler F := fun rq w =>
  if from_localhost rq then h rq w else Done w.

End handlers.

(** ** The RIB *)

Module RIBModule.
Section ops.
Context `{EncOps} {F : Type} `{FibStrategy F} `{LpCodec} `{MgmtCodec} `{MgmtConfig}.

(** [time.Duration( *params.ExpirationPeriod) * time.Millisecond]. *)
Definition expiration (params : ControlArgs) : option Z := (fun e => i64 (i64 e * Millisecond)) <$> pExpirationPeriod params.
Definition milliseconds (d : Z) : Z := u64 (Z.quot d Millisecond).

Definition register : handler F := fun rq w =>
  with_name rq w (fun params name =>
    if face_missing params w then respond 410 "Face does not exist" ∅ rq w
    else
      let faceID := command_face params rq in
      let origin := default RouteOriginApp (pOrigin params) in
      let cost := default 0 (pCost params) in
      let flags := default RouteFlagChildInherit (MgmtBase.pFlags params) in
      let expirationPeriod := expiration params in
      let w := set_rib (AddEncRoute (the_rib w) (Some name) faceID origin cost flags expirationPeriod) w in
      let responseParams : gmap string dval :=
        <["Name" := DName (Some name)]> (<["FaceId" := DUint faceID]> (<["Origin" := DUint origin]>
          (<["Cost" := DUint cost]> {["Flags" := DUint flags]}))) in
      let responseParams := match expirationPeriod with
                            | Some e => <["ExpirationPeriod" := DUint (milliseconds e)]> responseParams
                            | None => responseParams
                            end in
      respond 200 "OK" responseParams rq w).

Definition unregister : handler F := fun rq w =>
  with_name rq w (fun params name =>
    let faceID := command_face params rq in
    let origin := default RouteOriginApp (pOrigin params) in
    let w := set_rib (RemoveRouteEnc (the_rib w) name faceID origin) w in
    respond 200 "OK" (<["Name" := DName (Some name)]> (<["FaceId" := DUint faceID]> {["Origin" := DUint origin]})) rq w).

(** [announce]: prefix announcements are checked and refused. *)
Definition announce : handler F := fun rq w =>
  match NameV (interest rq) !! (prefixLength + 2)%nat with
  | Some c =>
      if negb (length (NameV (interest rq)) =? prefixLength + 3)%nat || negb (Typ c =? TypeParametersSha256DigestComponent)
      then respond 400 "Name is incorrect" ∅ rq w
      else if Wire_Length (appParam rq) =? 0 then
        respond 400 "PrefixAnnouncement is missing" ∅ rq w
      else if ReadData (appParam rq) then
        respond 501 "YaNFD does not support PrefixAnnouncement" ∅ rq w
      else respond 400 "PrefixAnnouncement is invalid" ∅ rq w
  | None => respond 400 "Name is incorrect" ∅ rq w
  end.

(** The routes of the dataset, with their periods in milliseconds. *)
Definition dataset_route (r : Route) : Route :=
  mkRoute (Rib.FaceID r) (Origin r) (RCost r) (Rib.Flags r) (milliseconds <$> Rib.ExpirationPeriod r).
Definition dataset (w : Mgmt F) : Payload :=
  PRibStatus ((fun d => (RName d, dataset_route <$> GetRoutes d)) <$> GetAllEntries (the_rib w)).

(** [list]: under the prefix of the Interest. *)
Definition rib_list : handler F := fun rq w =>
  if negb (is_dataset_request rq) then Done w
  else publish (take prefixLength (NameV (interest rq)) ++ [gc "rib"; gc "list"]) (nextRIBDatasetVersion (versions w)) (dataset w)
         (fun v => mkVersions (u64 (nextRIBDatasetVersion v + 1)) (nextFIBDatasetVersion v) (nextCsDatasetVersion v)
            (nextStrategyDatasetVersion v) (nextGeneralDatasetVersion v) (nextFaceDatasetVersion v)) rq w.

Definition rib_handleIncomingInterest : handler F :=
  dispatch_verb [("register", register); ("unregister", unregister); ("announce", announce); ("list", rib_list)].

End ops.
End RIBModule.

(** ** The FIB *)

Module FIBModule.
Section ops.
Context `{EncOps} {F : Type} `{FibStrategy F} `{LpCodec} `{MgmtCodec} `{MgmtConfig}.

Definition add : handler F := fun rq w =>
  with_name rq w (fun params name =>
    if face_missing params w then respond 410 "Face does not exist" ∅ rq w
    else
      let faceID := command_face params rq in
      let cost := default 0 (pCost params) in
      let w := set_fib (InsertNextHopEnc (the_fib w) (Some name) faceID cost) w in
      respond 200 "OK" (<["Name" := DName (Some name)]> (<["FaceId" := DUint faceID]> {["Cost" := DUint cost]})) rq w).

Definition remove : handler F := fun rq w =>
  with_name rq w (fun params name =>
    let faceID := command_face params rq in
    let w := set_fib (RemoveNextHopEnc (the_fib w) name faceID) w in
    respond 200 "OK" (<["Name" := DName (Some name)]> {["FaceId" := DUint faceID]}) rq w).

Definition fib_list : handler F := fun rq w =>
  if negb (is_dataset_request rq) then Done w
  else publish (localPrefix ++ [gc "fib"; gc "list"]) (nextFIBDatasetVersion (versions w))
         (PFibStatus (fst <$> GetAllFIBEntries (the_fib w)))
         (fun v => mkVersions (nextRIBDatasetVersion v) (u64 (nextFIBDatasetVersion v + 1)) (nextCsDatasetVersion v)
            (nextStrategyDatasetVersion v) (nextGeneralDatasetVersion v) (nextFaceDatasetVersion v)) rq w.

Definition fib_handleIncomingInterest : handler F :=
  local_only (dispatch_verb [("add-nexthop", add); ("remove-nexthop", remove); ("list", fib_list)]).

End ops.
End FIBModule.

(** ** Strategy choice *)

Module StrategyChoiceModule.
Section ops.
Context `{EncOps} {F : Type} `{FibStrategy F} `{LpCodec} `{MgmtCodec} `{MgmtConfig}.

(** [strategyPrefix], set by [registerManager]. *)
Definition strategyPrefix : Name := localPrefix ++ [gc "strategy"].

Definition lookup_versions (s : list byte) : option (list Z) :=
  snd <$> head (filter (fun e => bool_decide (e.1 = s)) StrategyVersions).

(** The largest version; the list is not empty. *)
Definition latest (versions : list Z) : Z := foldl Z.max (default 0 (head versions)) versions.

(** What [set] makes of the strategy's name: the name to set, a response code
    and text, or a panic when it is the prefix alone. *)
Inductive choice := Chosen (strategy : Name) | Refused (text : String.string) | IndexPanic.

Definition choose (strategy : Name) : choice :=
  if negb (Name_IsPrefix strategyPrefix strategy) then Refused "Unknown strategy"
  else match strategy !! length strategyPrefix with
  | None => IndexPanic
  | Some c =>
      match lookup_versions (Component_String c) with
      | None => Refused "Unknown strategy"
      | Some availableVersions =>
          match strategy !! S (length strategyPrefix) with
          | None => Chosen (strategy ++ [NewVersionComponent (latest availableVersions)])
          | Some v =>
              if negb (Typ v =? TypeVersionNameComponent) then Refused "Unknown strategy version"
              else match DecodeNNI (Val v) with
                   | Ok version =>
                       if bool_decide (version ∈ availableVersions) then Chosen strategy else Refused "Unknown strategy version"
                   | _ => Refused "Unknown strategy version"
                   end
          end
      end
  end.

Definition set_ : handler F := fun rq w =>
  with_name rq w (fun params name =>
    match pStrategy params with
    | None => bad_parameters rq w
    | Some strategy =>
        match choose (nm strategy) with
        | IndexPanic => Crash
        | Refused text => respond 404 text ∅ rq w
        | Chosen strategy =>
            let w := set_fib (SetStrategyEnc (the_fib w) (Some name) (Some strategy)) w in
            respond 200 "OK" (<["Name" := DName (Some name)]> {["Strategy" := DStrategy (Some strategy)]}) rq w
        end
    end).

Definition unset : handler F := fun rq w =>
  with_name rq w (fun params name =>
    if bool_decide (name = []) then bad_parameters rq w
    else
      let w := set_fib (UnSetStrategyEnc (the_fib w) name) w in
      respond 200 "OK" {["Name" := DName (Some name)]} rq w).

Definition strategy_list : handler F := fun rq w =>
  if negb (is_dataset_request rq) then Done w
  else publish (localPrefix ++ [gc "strategy-choice"; gc "list"]) (nextStrategyDatasetVersion (versions w))
         (PStrategies ((fun e => (e.1.1, e.2)) <$> GetAllForwardingStrategies (the_fib w)))
         (fun v => mkVersions (nextRIBDatasetVersion v) (nextFIBDatasetVersion v) (nextCsDatasetVersion v)
            (u64 (nextStrategyDatasetVersion v + 1)) (nextGeneralDatasetVersion v) (nextFaceDatasetVersion v)) rq w.

Definition strategy_handleIncomingInterest : handler F :=
  local_only (dispatch_verb [("set", set_); ("unset", unset); ("list", strategy_list)]).

End ops.
End StrategyChoiceModule.

(** ** The Content Store *)

Module ContentStoreModule.
Section ops.
Context `{EncOps} {F : Type} `{FibStrategy F} `{LpCodec} `{MgmtCodec} `{MgmtConfig}.
Context (threads : list Thread).

Definition config : handler F := fun rq w =>
  with_parameters rq w (fun params =>
    if xorb (bool_decide (is_Some (MgmtBase.pFlags params))) (bool_decide (is_Some (pMask params)))
    then respond 409 "ControlParameters are incorrect" ∅ rq w
    else
      let w := match pCapacity params with Some c => SetCsCapacity (i64 c) w | None => w end in
      let responseParams : gmap string dval := {["Flags" := DUint 0]} in
      let responseParams := match pCapacity params with
                            | Some c => <["Capacity" := DUint c]> responseParams
                            | None => responseParams
                            end in
      respond 200 "OK" responseParams rq w).

Definition NCsEntries : Z := foldl (fun n t => u64 (n + u64 (CsSize (pitCS t)))) 0 threads.

Definition info : handler F := fun rq w =>
  if negb (is_dataset_request rq) then Done w
  else publish (localPrefix ++ [gc "cs"; gc "info"]) (nextCsDatasetVersion (versions w))
         (PCsInfo (u64 (csCapacity w)) (Z.lor CsFlagEnableAdmit CsFlagEnableServe) NCsEntries)
         (fun v => mkVersions (nextRIBDatasetVersion v) (nextFIBDatasetVersion v) (u64 (nextCsDatasetVersion v + 1))
            (nextStrategyDatasetVersion v) (nextGeneralDatasetVersion v) (nextFaceDatasetVersion v)) rq w.

(** [erase] and [query] are not implemented: nothing is done or sent. *)
Definition cs_handleIncomingInterest : handler F :=
  local_only (dispatch_verb
    [("config", config); ("erase", fun _ w => Done w); ("info", info); ("query", fun _ w => Done w)]).

End ops.
End ContentStoreModule.

(** ** Forwarder status *)

Module ForwarderStatusModule.
Section ops.
Context `{EncOps} {F : Type} `{FibStrategy F} `{LpCodec} `{MgmtCodec} `{MgmtConfig}.

(** [start] ([core.StartTimestamp]) and [now] in nanoseconds. *)
Context (threads : list Thread) (Version : list byte) (start now : Z).

Definition sum (g : Thread -> Z) : Z := foldl (fun n t => u64 (n + u64 (g t))) 0 threads.

Definition status (w : Mgmt F) : GeneralStatus :=
  mkGeneralStatus Version
    (u64 (Z.quot (Z.quot start 1000) 1000)) (u64 (Z.quot (Z.quot now 1000) 1000))
    (Z.of_nat (length (GetAllFIBEntries (the_fib w))))
    (sum (fun t => PitSize (pitCS t))) (sum (fun t => CsSize (pitCS t)))
    (sum Fw.NInInterests) (sum Fw.NInData) (sum Fw.NOutInterests) (sum Fw.NOutData)
    (sum Fw.NSatisfiedInterests) (sum Fw.NUnsatisfiedInterests).

Definition general : handler F := fun rq w =>
  if negb (is_dataset_request rq) then Done w
  else publish (localPrefix ++ [gc "status"; gc "general"]) (nextGeneralDatasetVersion (versions w)) (PGeneralStatus (status w))
         (fun v => mkVersions (nextRIBDatasetVersion v) (nextFIBDatasetVersion v) (nextCsDatasetVersion v)
            (nextStrategyDatasetVersion v) (u64 (nextGeneralDatasetVersion v + 1)) (nextFaceDatasetVersion v)) rq w.

Definition status_handleIncomingInterest : handler F := local_only (dispatch_verb [("general", general)]).

End ops.
End ForwarderStatusModule.
