(* ===== verification/MgmtFaces.v ===== *)
(** * Management of faces: mgmt/face.go

    The handlers of the face module.  The answers of the operating system that
    making a transport needs, the time, and the order in which the face table's
    map is walked are arguments; the new link service's goroutines are not
    part of the handler.  [FaceEventSendFunc] is
    [sendFaceEventNotification]: the events a handler's change of the face
    table emits are sent before the handler goes on. *)
From stdpp Require Import sorting.
From S2P Require Import Prelude.
From S2P Require Import Tlv Enc FibSpec Rib Packet Fw Text NetAddr Uri Transport Sockets LinkService Faces MgmtBase MgmtTables.
Local Open Scope Z_scope.

(** The NDNLP options of a face after [flags] under [mask], as [create] and
    [update] apply them. *)
Definition has_flag (x flag : Z) : bool := 0 <? Z.land x flag.
Definition set_local_fields (b : bool) (o : Options) : Options :=
  mkOptions (IsFragmentationEnabled o) (IsReassemblyEnabled o) (IsReliabilityEnabled o) (MaxRetransmissions o)
    (ReservedAckSpace o) b b b (IsCongestionMarkingEnabled o) (BaseCongestionMarkingInterval o) (DefaultCongestionThresholdBytes o).
Definition set_reliability (b : bool) (o : Options) : Options :=
  mkOptions (IsFragmentationEnabled o) (IsReassemblyEnabled o) b (MaxRetransmissions o)
    (ReservedAckSpace o) (IsConsumerControlledForwardingEnabled o) (IsIncomingFaceIndicationEnabled o)
    (IsLocalCachePolicyEnabled o) (IsCongestionMarkingEnabled o) (BaseCongestionMarkingInterval o) (DefaultCongestionThresholdBytes o).
Definition set_marking (b : bool) (o : Options) : Options :=
  mkOptions (IsFragmentationEnabled o) (IsReassemblyEnabled o) (IsReliabilityEnabled o) (MaxRetransmissions o)
    (ReservedAckSpace o) (IsConsumerControlledForwardingEnabled o) (IsIncomingFaceIndicationEnabled o)
    (IsLocalCachePolicyEnabled o) b (BaseCongestionMarkingInterval o) (DefaultCongestionThresholdBytes o).
Definition set_congestion (interval threshold : Z) (o : Options) : Options :=
  mkOptions (IsFragmentationEnabled o) (IsReassemblyEnabled o) (IsReliabilityEnabled o) (MaxRetransmissions o)
    (ReservedAckSpace o) (IsConsumerControlledForwardingEnabled o) (IsIncomingFaceIndicationEnabled o)
    (IsLocalCachePolicyEnabled o) (IsCongestionMarkingEnabled o) interval threshold.

Definition apply_flags (flags mask : Z) (o : Options) : Options :=
  let o := if has_flag mask FaceFlagLocalFields then set_local_fields (has_flag flags FaceFlagLocalFields) o else o in
  let o := if has_flag mask FaceFlagLpReliabilityEnabled then set_reliability (has_flag flags FaceFlagLpReliabilityEnabled) o else o in
  if has_flag mask FaceFlagCongestionMarking then set_marking (has_flag flags FaceFlagCongestionMarking) o else o.

(** The MTU of a command. *)
Definition command_mtu (m : Z) : Z := if MaxNDNPacketSize <? m then MaxNDNPacketSize else i64 m.

(** One of Flags and Mask without the other. *)
Definition flags_without_mask (params : ControlArgs) : bool :=
  xorb (bool_decide (is_Some (MgmtBase.pFlags params))) (bool_decide (is_Some (pMask params))).

Definition fillFaceProperties (f : LinkFace) (params : gmap string dval) : gmap string dval :=
  let params := <["FaceId" := DUint (lf_faceID f)]> params in
  let params := <["Uri" := DString (URI_String (lf_remoteURI f))]> params in
  let params := <["LocalUri" := DString (URI_String (lf_localURI f))]> params in
  let params := <["FacePersistency" := DUint (lf_persistency f)]> params in
  let params := <["Mtu" := DUint (u64 (lf_mtu f))]> params in
  let params := <["Flags" := DInt 0]> params in
  match lf_options f with
  | None => params
  | Some options =>
      <["Flags" := DUint (LinkService.Flags options)]>
      (<["DefaultCongestionThreshold" := DUint (DefaultCongestionThresholdBytes options)]>
      (<["BaseCongestionMarkInterval" := DUint (u64 (BaseCongestionMarkingInterval options))]> params))
  end.

Section datasets.
Context (now : Z).

(** [createDataset]; NOutBytes is taken from NInBytes. *)
Definition createDataset (f : LinkFace) : FaceStatus :=
  let b := tbase (lf_transport f) in
  mkFaceStatus (lf_faceID f) (URI_String (lf_remoteURI f)) (URI_String (lf_localURI f))
    (let e := Transport.ExpirationPeriod now b in if e =? 0 then None else Some (u64 (Z.quot e Millisecond)))
    (scope_number (lf_scope f)) (lf_persistency f) (linktype_number (lf_linkType f))
    ((fun o => u64 (BaseCongestionMarkingInterval o)) <$> lf_options f)
    (DefaultCongestionThresholdBytes <$> lf_options f)
    (u64 (lf_mtu f)) (lf_nInInterests f) (lf_nInData f) (lf_nOutInterests f) (lf_nOutData f)
    (nInBytes b) (nInBytes b)
    (match lf_options f with
     | None => 0
     | Some o =>
         let fl := LinkService.Flags o in
         let fl := if IsConsumerControlledForwardingEnabled o then Z.lor fl FaceFlagLocalFields else fl in
         let fl := if IsReliabilityEnabled o then Z.lor fl FaceFlagLpReliabilityEnabled else fl in
         if IsCongestionMarkingEnabled o then Z.lor fl FaceFlagCongestionMarking else fl
     end).

(** The tests of [query]. *)
Definition matches_filter (q : FaceQueryFilter) (f : LinkFace) : bool :=
  let wants {A} `{EqDecision A} (field : option A) (ok : A -> bool) := match field with Some x => ok x | None => true end in
  wants (qFaceId q) (fun x => x =? lf_faceID f)
  && wants (qUriScheme q) (fun x => bool_decide (x = scheme (lf_localURI f)) || bool_decide (x = scheme (lf_remoteURI f)))
  && wants (qUri q) (fun x => bool_decide (x = URI_String (lf_remoteURI f)))
  && wants (qLocalUri q) (fun x => bool_decide (x = URI_String (lf_localURI f)))
  && wants (qFaceScope q) (fun x => x =? u64 (scope_number (lf_scope f)))
  && wants (qFacePersistency q) (fun x => x =? lf_persistency f)
  && wants (qLinkType q) (fun x => x =? u64 (linktype_number (lf_linkType f))).

End datasets.

Module FaceModule.
Section ops.
Context `{EncOps} {F : Type} `{FibStrategy F} `{LpCodec} `{MgmtCodec} `{MgmtConfig} `{NetEnv}.
Context (udpLifetime tcpLifetime UDPUnicastPort : Z).
Context (dial : list byte -> list byte -> option Z -> option (list byte)).
Context (now : Z) (walk : list Z).

(** ** create *)

Definition congestion (params : ControlArgs) : Z * Z :=
  (from_option i64 (100 * Millisecond) (pBaseCongestionMarkInterval params), default (2 ^ 16) (pDefaultCongestionThreshold params)).

(** The options of a new face: the congestion parameters count only with
    flags. *)
Definition create_options (params : ControlArgs) : Options :=
  match MgmtBase.pFlags params, pMask params with
  | Some flags, Some mask =>
      let '(interval, threshold) := congestion params in
      set_congestion interval threshold (apply_flags flags mask MakeNDNLPLinkServiceOptions)
  | _, _ => MakeNDNLPLinkServiceOptions
  end.

(** The branch of UDP or of TCP. *)
Definition create_unicast (make : URI -> option URI -> Z -> option FaceTransport) (params : ControlArgs) (uri : URI) : handler F := fun rq w =>
  if match ParseIP (path uri) with Some a => negb (IsGlobalUnicast a) && negb (IsLinkLocalUnicast a) | None => false end
  then respond 406 "URI must be unicast" ∅ rq w
  else
    let acceptable p := (p =? PersistencyPersistent) || (p =? PersistencyPermanent) in
    let persistency := default PersistencyPersistent (pFacePersistency params) in
    if negb (acceptable persistency) then respond 406 "Unacceptable persistency" ∅ rq w
    else match make uri None persistency with
    | None => respond 406 "Transport error" ∅ rq w
    | Some transport =>
        let transport := match pMtu params with Some m => on_base (SetMTU (command_mtu m)) transport | None => transport end in
        let f := faces w in
        let p := fresh (dom (links f)) in
        let f1 := mkFaceWorld (<[p := new_face transport (Some (create_options params))]> (links f)) (Faces f) (nextFaceID f)
                    (FaceDispatch f) (events f) (w_rib f) in
        match Add p f1 with
        | None => Blocked
        | Some f2 =>
            res_bind (notify_since (length (notified (events f))) (set_faces f2 w)) (fun w =>
              match links (faces w) !! p with
              | Some linkService => respond 200 "OK" (fillFaceProperties linkService ∅) rq w
              | None => Crash
              end)
        end
    end.

Definition create : handler F := fun rq w =>
  with_parameters rq w (fun params =>
    match pUri params with
    | None => bad_parameters rq w
    | Some text =>
        match DecodeURIString text with
        | None => respond 406 "URI could not be canonized" ∅ rq w
        | Some u =>
            let '(uri, ok) := Canonize u in
            if negb ok then respond 406 "URI could not be canonized" ∅ rq w
            else if flags_without_mask params then respond 409 "Incomplete Flags/Mask combination" ∅ rq w
            else match GetByURI walk uri (faces w) ≫= (fun p => links (faces w) !! p) with
            | Some existingFace => respond 409 "Conflicts with existing face" (fillFaceProperties existingFace ∅) rq w
            | None =>
                if scheme_in uri "udp4" "udp6" then create_unicast (MakeUnicastUDPTransport udpLifetime UDPUnicastPort dial now) params uri rq w
                else if scheme_in uri "tcp4" "tcp6" then create_unicast (MakeUnicastTCPTransport tcpLifetime dial now) params uri rq w
                else respond 406 ("Unsupported scheme " ++ Stdlib.Strings.String.string_of_list_byte (scheme uri)) ∅ rq w
            end
        end
    end).

(** ** update *)

Definition invalid_persistency (f : LinkFace) (p : Z) : bool :=
  let remote := scheme (lf_remoteURI f) in
  if bool_decide (remote = gs "ether") && negb (p =? PersistencyPermanent) then true
  else if scheme_in (lf_remoteURI f) "udp4" "udp6" && negb (p =? PersistencyPersistent) && negb (p =? PersistencyPermanent) then true
  else bool_decide (scheme (lf_localURI f) = gs "unix") && negb (p =? PersistencyPersistent).

(** The options and transport after the update: [None] is the panic of the type
    assertion on a link service that is not an NDNLPLinkService. *)
Definition update_face (params : ControlArgs) (f : LinkFace) : option LinkFace :=
  let f := match pFacePersistency params with
           | Some p => lf_on_transport (fun t => (ft_SetPersistency p t).1) f
           | None => f
           end in
  options ← lf_options f;
  let options := set_congestion (from_option i64 (BaseCongestionMarkingInterval options) (pBaseCongestionMarkInterval params))
    (default (DefaultCongestionThresholdBytes options) (pDefaultCongestionThreshold params)) options in
  let f := match pMtu params with Some m => lf_on_transport (on_base (SetMTU (command_mtu m))) f | None => f end in
  let options := match MgmtBase.pFlags params, pMask params with
                 | Some flags, Some mask => apply_flags flags mask options
                 | _, _ => options
                 end in
  Some (lf_SetOptions options f).

Definition update : handler F := fun rq w =>
  with_parameters rq w (fun params =>
    let faceID := command_face params rq in
    let p := Get faceID (faces w) in
    match p ≫= (fun p => links (faces w) !! p) with
    | None => respond 404 "Face does not exist" {["FaceId" := DUint faceID]} rq w
    | Some selectedFace =>
        if scheme_in (lf_remoteURI selectedFace) "null" "internal"
        then respond 401 "Face cannot be updated via management" {["FaceId" := DUint faceID]} rq w
        else if match pFacePersistency params with Some q => invalid_persistency selectedFace q | None => false end
                || flags_without_mask params
        then respond 409 "ControlParameters are incorrect" ∅ rq w
        else match update_face params selectedFace with
        | None => Crash
        | Some selectedFace =>
            let f := faces w in
            let f := mkFaceWorld (from_option (fun p => <[p := selectedFace]> (links f)) (links f) p) (Faces f) (nextFaceID f)
                       (FaceDispatch f) (events f) (w_rib f) in
            respond 200 "OK" (delete "LocalUri" (delete "Uri" (fillFaceProperties selectedFace ∅))) rq (set_faces f w)
        end
    end).

(** ** destroy, list, query, events *)

Definition destroy : handler F := fun rq w =>
  with_parameters rq w (fun params =>
    match pFaceId params with
    | None => bad_parameters rq w
    | Some id =>
        let answer := respond 200 "OK" (ToDict params) rq in
        match Get id (faces w) with
        | Some _ =>
            res_bind (notify_since (length (notified (events (faces w)))) (set_faces (Remove id (faces w)) w)) answer
        | None => answer w
        end
    end).

Definition next_version (v : Versions) : Versions :=
  mkVersions (nextRIBDatasetVersion v) (nextFIBDatasetVersion v) (nextCsDatasetVersion v)
    (nextStrategyDatasetVersion v) (nextGeneralDatasetVersion v) (u64 (nextFaceDatasetVersion v + 1)).

(** [list]: the faces by their own identifiers, sorted. *)
Definition all_faces (w : Mgmt F) : list LinkFace := omap (fun p => links (faces w) !! p) (GetAll (faces w)).
Definition sorted_faces (l : list LinkFace) : list LinkFace :=
  let byID : gmap Z LinkFace := foldl (fun m f => <[lf_faceID f := f]> m) ∅ l in
  omap (fun id => byID !! id) (merge_sort Z.le (lf_faceID <$> l)).

Definition list_ : handler F := fun rq w =>
  if negb (is_dataset_request rq) then Done w
  else publish (localPrefix ++ [gc "faces"; gc "list"]) (nextFaceDatasetVersion (versions w))
         (PFaces (createDataset now <$> sorted_faces (all_faces w))) next_version rq w.

(** [query]: the matching faces in the order of the walk; a missing filter is
    dereferenced as soon as there is a face. *)
Definition walked_faces (w : Mgmt F) : list LinkFace :=
  omap (fun id => Get id (faces w) ≫= fun p => links (faces w) !! p) walk.

Definition query : handler F := fun rq w =>
  match NameV (interest rq) !! (prefixLength + 2)%nat with
  | None => Done w
  | Some c =>
      match ParseFaceQueryFilter (Val c) with
      | None => Done w
      | Some filterV =>
          let send l := publish (NameV (interest rq)) (nextFaceDatasetVersion (versions w))
                          (PFaces (createDataset now <$> l)) next_version rq w in
          match filterV, walked_faces w with
          | None, _ :: _ => Crash
          | None, [] => send []
          | Some q, l => send (filter (fun f => matches_filter q f) l)
          end
      end
  end.

Definition events : handler F := fun rq w =>
  match NameV (interest rq) !! (prefixLength + 2)%nat with
  | None =>
      if CanBePrefixV (interest rq) then sendFaceEventNotification (FaceEventLastId (Faces.events (faces w))) (pitToken rq) w
      else Done w
  | Some seg =>
      if negb (Typ seg =? TypeSegmentNameComponent) then Done w
      else match DecodeNNI (Val seg) with
           | Ok id => sendFaceEventNotification id (pitToken rq) w
           | _ => Done w
           end
  end.

Definition handleIncomingInterest : handler F :=
  local_only (dispatch_verb [("create", create); ("update", update); ("destroy", destroy); ("list", list_);
    ("query", query); ("events", events)]).

End ops.
End FaceModule.
