(* ===== verification/Mgmt.v ===== *)
(** * The management thread: mgmt/thread.go

    Registration of the internal face, the main loop and the dispatch to the
    modules (MgmtTables.v, MgmtFaces.v).  What the thread reads from the rest of
    the forwarder in a round (the forwarding threads' counters, the time, the
    order of a map's iteration, the answer to dialing) is a [Round]. *)
From S2P Require Import Prelude.
From S2P Require Import Tlv Enc FibSpec Rib Packet Fw Text NetAddr Uri Transport Sockets LinkService Faces MgmtBase MgmtTables MgmtFaces.
Local Open Scope Z_scope.

Record Round := mkRound {
  r_threads : list Thread;
  r_now : Z;
  r_walk : list Z;
  r_dial : list byte -> list byte -> option Z -> option (list byte) }.

Section thread.
Context `{EncOps} {F : Type} `{FibStrategy F} `{LpCodec} `{MgmtCodec} `{MgmtConfig} `{NetEnv}.
(** Configuration (face/init.go) and build information (core). *)
Context (udpLifetime tcpLifetime UDPUnicastPort : Z) (Version : list byte) (start : Z).

(** [m.modules]. *)
Definition modules (r : Round) : list (String.string * handler F) :=
  [("cs", ContentStoreModule.cs_handleIncomingInterest (r_threads r));
   ("faces", FaceModule.handleIncomingInterest udpLifetime tcpLifetime UDPUnicastPort (r_dial r) (r_now r) (r_walk r));
   ("fib", FIBModule.fib_handleIncomingInterest);
   ("rib", RIBModule.rib_handleIncomingInterest);
   ("status", ForwarderStatusModule.status_handleIncomingInterest (r_threads r) Version start (r_now r));
   ("strategy-choice", StrategyChoiceModule.strategy_handleIncomingInterest)].

Fixpoint find_module (name : list byte) (ms : list (String.string * handler F)) : option (handler F) :=
  match ms with
  | [] => None
  | (n, h) :: ms => if bool_decide (name = gs n) then Some h else find_module name ms
  end.

Definition moduleName (rq : Request) : list byte := from_option Component_String [] (NameV (interest rq) !! prefixLength).

(** The checks and the dispatch of an Interest.  A response that cannot be made
    for an unknown module is not sent. *)
Definition handle_interest (r : Round) (rq : Request) (w : Mgmt F) : res F :=
  if (length (NameV (interest rq)) <? prefixLength + 2)%nat then Done w
  else if negb (Name_IsPrefix localPrefix (NameV (interest rq))) && negb (Name_IsPrefix nonLocalPrefix (NameV (interest rq)))
  then Done w
  else match find_module (moduleName rq) (modules r) with
  | Some m => m rq w
  | None =>
      match makeControlResponse 501 "Unknown module" ∅ with
      | None => Done w
      | Some response => sendResponse (Some response) rq w
      end
  end.

(** The loop's body after [Receive]. *)
Definition handle_fragment (r : Round) (fragment : Wire) (pitToken : list byte) (inFace : Z) (w : Mgmt F) : res F :=
  match ReadPacket fragment with
  | None => Done w
  | Some pkt =>
      match sp_interest pkt with
      | None => Done w
      | Some i => handle_interest r (mkRequest i (AppParam fragment) pitToken inFace) w
      end
  end.

(** One round; [None] when [Receive] waits. *)
Definition mgmt_round (r : Round) (w : Mgmt F) : option (res F) :=
  match Receive (mtransport w) with
  | None => None
  | Some (Ok (fragment, token, inFace), t) => Some (handle_fragment r fragment token inFace (set_transport t w))
  | Some (_, _) => Some Crash
  end.

Fixpoint mgmt_run (rounds : list Round) (w : Mgmt F) : res F :=
  match rounds with
  | [] => Done w
  | r :: rounds =>
      match mgmt_round r w with
      | None => Done w
      | Some x => res_bind x (mgmt_run rounds)
      end
  end.

(** [RegisterInternalTransport]: the face table's new entry, its identifier and
    the transport.  No notification is sent: management's transport is not set
    yet. *)
Definition internal_options : Options :=
  mkOptions false false false 0 0 true true false false 0 0.
Definition RegisterInternalTransport (f : FaceWorld F) : option (FaceWorld F * Z * InternalTransport) :=
  let t := MakeInternalTransport in
  let p := fresh (dom (links f)) in
  let f := mkFaceWorld (<[p := new_face (mkFT InternalKind (base t) false) (Some internal_options)]> (links f)) (Faces f) (nextFaceID f)
             (FaceDispatch f) (events f) (w_rib f) in
  f' ← Add p f;
  l ← links f' !! p;
  Some (f', lf_faceID l, mkInternal (setFaceID (lf_faceID l) (base t)) [] [] 0).

(** The beginning of [Run]: the routes of management go into the FIB, not the
    RIB. *)
Definition mgmt_start (f : FaceWorld F) (csCapacity : Z) : option (Mgmt F) :=
  '(f, id, t) ← RegisterInternalTransport f;
  let w := mkMgmt f csCapacity t (mkVersions 0 0 0 0 0 0) in
  let w := set_fib (InsertNextHopEnc (the_fib w) (Some localPrefix) id 0) w in
  Some (if enableLocalhopManagement then set_fib (InsertNextHopEnc (the_fib w) (Some nonLocalPrefix) id 0) w else w).

End thread.
