(* ===== verification/MgmtProps.v ===== *)
(** * Management: what its commands do

    Lemmas on sending, on commands and on the tables' operations, the invariant
    of the management thread, and its survival: no request but two kinds
    panics it.  The effects of the commands are in MgmtEffects.v. *)
From S2P Require Import Prelude.
From S2P Require Import Tlv NameTree Enc FibSpec Rib Packet Fw Text NetAddr Uri Transport Sockets LinkService Faces MgmtBase MgmtTables MgmtFaces Mgmt.
Local Open Scope Z_scope.

(** The types of the fields that [DictToControlArgs] expects. *)
Definition typed (k : string) (v : dval) : Prop :=
  match v with
  | DName _ => k = "Name"%string
  | DStrategy _ => k = "Strategy"%string
  | DString _ => k = "Uri"%string \/ k = "LocalUri"%string
  | DUint _ => k ∈ ["FaceId"; "Origin"; "Cost"; "Capacity"; "BaseCongestionMarkInterval"; "DefaultCongestionThreshold";
                    "Mtu"; "Flags"; "Mask"; "ExpirationPeriod"; "FacePersistency"]%string
  | DInt _ => False
  end.
Definition dict_ok (d : gmap string dval) : Prop := map_Forall typed d.

(** What management relies on: dictionaries of the right types make control
    arguments, and [ToDict] makes such a dictionary. *)
Class MgmtLaws `{MgmtCodec} := {
  DictToControlArgs_ok : forall d, dict_ok d -> is_Some (DictToControlArgs d);
  ToDict_ok : forall a, dict_ok (ToDict a) }.

(** go-ndn's text of a generic component of letters and hyphens, and its version
    components. *)
Class MgmtNameLaws `{MgmtCodec} := {
  Component_String_plain : forall s, Forall (fun b => is_alpha b = true \/ b = x2d) (gs s) -> Component_String (gc s) = gs s;
  NewVersionComponent_spec : forall v, 0 <= v < 2 ^ 64 ->
    Typ (NewVersionComponent v) = TypeVersionNameComponent /\ DecodeNNI (Val (NewVersionComponent v)) = Ok v }.

Create HintDb mgmt.

Lemma dict_ok_insert k v d : typed k v -> dict_ok d -> dict_ok (<[k:=v]> d).
Proof. apply map_Forall_insert_2. Qed.
Lemma dict_ok_empty : dict_ok ∅.
Proof. apply map_Forall_empty. Qed.
Lemma dict_ok_singleton k v : typed k v -> dict_ok {[k := v]}.
Proof. intros Ht. by apply map_Forall_singleton. Qed.
Lemma dict_ok_delete k d : dict_ok d -> dict_ok (delete k d).
Proof. apply map_Forall_delete. Qed.
#[export] Hint Resolve dict_ok_insert dict_ok_empty dict_ok_singleton dict_ok_delete ToDict_ok : mgmt.
#[export] Hint Extern 1 (typed _ _) =>
  cbn [typed]; first [reflexivity | left; reflexivity | right; reflexivity | refine (bool_decide_unpack _ _); vm_compute; exact I] : mgmt.

Section sending.
Context `{EncOps} {F : Type} `{FibStrategy F} `{LpCodec} `{MgmtLaws} `{MgmtConfig}.
Implicit Types (w : Mgmt F) (rq : Request) (x : res F).

(** The transport has room for [n] more frames. *)
Definition room (n : nat) w : Prop := (length (sendQueue (mtransport w)) + n <= faceQueueSize)%nat.

(** [settles k x w]: [x] ends in [w] but for at most [k] more frames in the
    transport's queue; it waits only when there is no room for [k]. *)
Definition settles (k : nat) (x : res F) w : Prop :=
  (x = Blocked /\ ~ room k w) \/
  exists t, x = Done (set_transport t w) /\ (length (sendQueue t) <= length (sendQueue (mtransport w)) + k)%nat.

Lemma settles_crash k x w : settles k x w -> x <> Crash.
Proof. intros [[-> _]|(t & -> & _)]; done. Qed.

Lemma settles_done w : settles 0 (Done w) w.
Proof. right. exists (mtransport w). split; [by destruct w|lia]. Qed.

Lemma settles_weaken k k' x w : (k <= k')%nat -> settles k x w -> settles k' x w.
Proof.
  intros Hk [[-> Hr]|(t & -> & Hl)]; [left|right].
  - split; [done|]. unfold room in *. lia.
  - exists t. split; [done|lia].
Qed.

Lemma settles_bind k k' x w (f : Mgmt F -> res F) w1 :
  settles k x w -> (forall t, settles k' (f (set_transport t w)) (set_transport t w1)) -> mtransport w1 = mtransport w ->
  settles (k + k') (res_bind x f) w1.
Proof.
  intros [[-> Hr]|(t & -> & Hl)] Hf Et; cbn.
  - left. split; [done|]. unfold room in *. rewrite Et. lia.
  - destruct (Hf t) as [[E Hr]|(t' & E & Hl')]; rewrite E.
    + left. split; [done|]. unfold room in *. cbn in Hr. rewrite Et. lia.
    + right. exists t'. split; [by destruct w1|]. cbn in Hl'. rewrite Et. lia.
Qed.

Lemma transport_Send_settles wire tok hop w : settles 1 (transport_Send wire tok hop w) w.
Proof.
  unfold transport_Send, LinkService.Send. destruct (EncodePacket _) as [b|].
  - destruct (Nat.ltb_spec (length (sendQueue (mtransport w))) faceQueueSize) as [Hlt|Hge].
    + right. eexists. split; [done|]. cbn. rewrite length_app. cbn. lia.
    + left. split; [done|]. unfold room. lia.
  - right. exists (mtransport w). split; [by destruct w|lia].
Qed.

Lemma respond_settles code text args rq w : dict_ok args -> settles 1 (respond code text args rq w) w.
Proof.
  intros Hd. unfold respond, makeControlResponse. destruct (DictToControlArgs_ok _ Hd) as [a ->]. cbn.
  destruct (MakeData _ _ _ _); [apply transport_Send_settles|].
  eapply settles_weaken; [|apply settles_done]. lia.
Qed.

Lemma publish_settles name v payload next rq w :
  exists v', settles 1 (publish name v payload next rq w) (set_versions v' w).
Proof.
  exists (next (versions w)). unfold publish.
  destruct (transport_Send_settles (makeStatusDataset name v (Payload_Encode payload)) (pitToken rq) None w)
    as [[-> Hr]|(t & -> & Hl)]; cbn; [by left|]. right. exists t. done.
Qed.

(** ** Events *)

Lemma GetFaceEvent_total id E : length (faceEvents E) = 100%nat -> exists o, GetFaceEvent id E = Ok o.
Proof.
  intros Hl. unfold GetFaceEvent. goal_if E0; [by eexists|]. unfold go_index, FaceEventsCacheSize.
  match goal with |- context [(?a mod 100)%Z] => pose proof (Z.mod_pos_bound a 100 ltac:(lia)) as Hb; set (ix := (a mod 100)%Z) in * end.
  rewrite bool_decide_true by lia. destruct (lookup_lt_is_Some_2 (faceEvents E) (Z.to_nat ix)) as [e ->]; [lia|]. by eexists.
Qed.

Lemma notification_settles id tok w : length (faceEvents (events (faces w))) = 100%nat ->
  settles 1 (sendFaceEventNotification id tok w) w.
Proof.
  intros Hl. destruct (GetFaceEvent_total id _ Hl) as [o E]. unfold sendFaceEventNotification. rewrite E.
  assert (Hd : settles 1 (Done w) w) by (eapply settles_weaken; [|apply settles_done]; lia).
  destruct o as [e|]; [|done]. destruct (FaceEvent_Encode e); [|done].
  destruct (MakeData _ _ _ _); [|done]. apply transport_Send_settles.
Qed.

Lemma notify_all_settles ids : forall w, length (faceEvents (events (faces w))) = 100%nat ->
  settles (length ids) (notify_all ids w) w.
Proof.
  induction ids as [|id ids IH]; intros w Hl; cbn [notify_all]; [apply settles_done|].
  apply (settles_bind 1 (length ids) _ w); [by apply notification_settles| |done]. intros t. by apply IH.
Qed.

Lemma EmitFaceEvent_length kind f E : length (faceEvents (EmitFaceEvent kind f E)) = length (faceEvents E).
Proof. apply length_alter. Qed.

(** The notification of one event emitted after [w]. *)
Lemma notify_emitted_settles w w1 kind f : length (faceEvents (events (faces w))) = 100%nat ->
  events (faces w1) = EmitFaceEvent kind f (events (faces w)) ->
  settles 1 (notify_since (length (notified (events (faces w)))) w1) w1.
Proof.
  intros Hl He. unfold notify_since. rewrite He. cbn [EmitFaceEvent notified].
  destruct (sendFunc _).
  - rewrite drop_app_length. apply (notify_all_settles [_]). by rewrite He, EmitFaceEvent_length.
  - rewrite drop_all. eapply settles_weaken; [|apply notify_all_settles]; [cbn; lia|]. by rewrite He, EmitFaceEvent_length.
Qed.

End sending.

(** ** Invariant *)

Section invariant.
Context `{EncLaws} {F : Type} `{FibStrategyLaws F} `{LpCodec} `{MgmtLaws} `{MgmtConfig} `{NetEnv}.
Implicit Types (w : Mgmt F) (rq : Request) (x : res F) (D : Name -> Prop).

(** The face table's invariant; every face that is not null has an NDNLP link
    service; the ring of events has its 100 slots. *)
Record mgmt_ok D w : Prop := {
  mg_table : table_ok D (faces w);
  mg_events : length (faceEvents (events (faces w))) = 100%nat;
  mg_options : forall id p f, Faces (faces w) !! id = Some p -> links (faces w) !! p = Some f ->
    lf_options f = None -> uriType (lf_remoteURI f) = nullURI /\ scheme (lf_remoteURI f) = gs "null" }.

(** [x] ends well: in a state with the invariant, with at most two frames more
    than [t] in the transport. *)
Definition good D x (t : InternalTransport) : Prop := exists w1, settles 2 x w1 /\ mgmt_ok D w1 /\ mtransport w1 = t.

Lemma good_done D w : mgmt_ok D w -> good D (Done w) (mtransport w).
Proof. intros Hok. exists w. split; [|by split]. eapply settles_weaken; [|apply settles_done]. lia. Qed.
Lemma good_respond D code text args rq w t : mgmt_ok D w -> dict_ok args -> mtransport w = t -> good D (respond code text args rq w) t.
Proof. intros Hok Hd Ht. exists w. split; [|by split]. eapply settles_weaken; [|by apply respond_settles]. lia. Qed.
Lemma good_publish D name v payload next rq w : mgmt_ok D w -> good D (publish name v payload next rq w) (mtransport w).
Proof.
  intros [Ht He Ho]. destruct (publish_settles name v payload next rq w) as [v' Hs]. exists (set_versions v' w).
  split; [|by split; [split|]]. eapply settles_weaken; [|exact Hs]. lia.
Qed.

Lemma mgmt_ok_mono D D' w : (forall n, D n -> D' n) -> mgmt_ok D w -> mgmt_ok D' w.
Proof.
  intros HD [[Hd Hn Hi Hr [Hf Hc]] He Ho]. split; [split; [done..|split; [done|]]|done|done].
  intros n Hn'. apply Hc. intros Hx. by apply Hn', HD.
Qed.

Lemma set_rib_ok D0 D R w : mgmt_ok D0 w -> rib_ok (rib R) -> agrees D (rib R) (fib R) -> mgmt_ok D (set_rib R w).
Proof. intros [[Hd Hn Hi _ _] He Ho] Hr Hc. split; [by split|done|done]. Qed.

Lemma set_fib_ok D f w : mgmt_ok D w -> agrees D (rib (the_rib w)) f -> mgmt_ok D (set_fib f w).
Proof. intros Hok Hc. apply (set_rib_ok D); [done|apply Hok|done]. Qed.

Lemma mgmt_agrees D w : mgmt_ok D w -> agrees D (rib (the_rib w)) (the_fib w).
Proof. intros Hok. apply Hok. Qed.
Lemma mgmt_rib D w : mgmt_ok D w -> rib_ok (rib (the_rib w)).
Proof. intros Hok. apply Hok. Qed.

(** Writing next hops past the RIB. *)
Lemma fib_write_ok D n (f' : F) w : mgmt_ok D w -> fib_ok f' ->
  (forall m, m <> n -> hops_map (fib_nh f' m) = hops_map (fib_nh (the_fib w) m)) ->
  mgmt_ok (fun m => D m \/ m = n) (set_fib f' w).
Proof.
  intros Hok Hf Hnh. apply set_fib_ok; [eapply mgmt_ok_mono; [|done]; auto|]. split; [done|].
  intros m Hm. apply (hops_right_same (the_fib w)); [left; apply Hnh; intros ->; apply Hm; auto|].
  apply (mgmt_agrees D w Hok). intros Hx. apply Hm. auto.
Qed.

(** ** Commands *)

Lemma with_parameters_eq rq w (k : ControlArgs -> res F) :
  with_parameters rq w k = match decodeControlParameters rq with Some p => k p | None => bad_parameters rq w end.
Proof.
  unfold with_parameters. destruct (Nat.ltb_spec (length (NameV (interest rq))) (prefixLength + 3)) as [Hl|]; [|by destruct (decodeControlParameters rq)].
  assert (E : NameV (interest rq) !! (prefixLength + 2)%nat = None) by (apply lookup_ge_None_2; lia).
  unfold decodeControlParameters. by rewrite E.
Qed.

(** The parameters and name of a command that needs a name. *)
Definition command rq : option (ControlArgs * Name) :=
  params ← decodeControlParameters rq; name ← pName params; Some (params, name).

Lemma with_name_eq rq w (k : ControlArgs -> Name -> res F) :
  with_name rq w k = match command rq with Some (p, n) => k p n | None => bad_parameters rq w end.
Proof.
  unfold with_name. rewrite with_parameters_eq. unfold command.
  destruct (decodeControlParameters rq) as [p|]; [|done]. cbn. by destruct (pName p).
Qed.

(** The FIB can hold the name of the command: always for the name tree, and for the
    hash table when it has no collision with the names in use. *)
Definition in_dom rq : Prop := forall params n, command rq = Some (params, n) -> fib_dom n.

(** ** No handler panics but two *)

Hint Resolve good_done good_respond good_publish : mgmt.

Lemma bad_parameters_good D rq w : mgmt_ok D w -> good D (bad_parameters rq w) (mtransport w).
Proof. intros Hok. unfold bad_parameters. auto with mgmt. Qed.
Hint Resolve bad_parameters_good : mgmt.

Lemma rib_register_good D rq w : in_dom rq -> mgmt_ok D w -> good D (RIBModule.register rq w) (mtransport w).
Proof.
  intros Hdom Hok. unfold RIBModule.register. rewrite with_name_eq. destruct (command rq) as [[params n]|] eqn:Ec; [|auto with mgmt].
  goal_if E; [auto with mgmt|]. cbv zeta.
  destruct (AddEncRoute_ok (the_rib w) n (command_face params rq) (default RouteOriginApp (pOrigin params))
    (default 0 (pCost params)) (default RouteFlagChildInherit (MgmtBase.pFlags params)) (RIBModule.expiration params)
    (Hdom _ _ Ec) (mgmt_rib D w Hok) (mgmt_agrees D w Hok)) as (Hr & Hc & _).
  apply good_respond; [by apply (set_rib_ok D)| |done]. destruct (RIBModule.expiration params); auto 8 with mgmt.
Qed.

Lemma rib_unregister_good D rq w : mgmt_ok D w -> good D (RIBModule.unregister rq w) (mtransport w).
Proof.
  intros Hok. unfold RIBModule.unregister. rewrite with_name_eq. destruct (command rq) as [[params n]|]; [|auto with mgmt].
  destruct (RemoveRouteEnc_ok (the_rib w) n (command_face params rq) (default RouteOriginApp (pOrigin params))
    (mgmt_rib D w Hok) (mgmt_agrees D w Hok)) as (Hr & Hc & _).
  apply good_respond; [by apply (set_rib_ok D)| |done]. auto 8 with mgmt.
Qed.

Lemma dispatch_verb_good (P : res F -> Prop) (hs : list (String.string * handler F)) rq w :
  P (unknown_verb rq w) -> Forall (fun h => verb rq = gs h.1 -> P (h.2 rq w)) hs -> P (dispatch_verb hs rq w).
Proof.
  intros Hu. induction 1 as [|[v h] hs Hh _ IH]; [done|]. cbn. case_bool_decide; [by apply Hh|done].
Qed.

Lemma unknown_verb_good D rq w : mgmt_ok D w -> good D (unknown_verb rq w) (mtransport w).
Proof. intros Hok. unfold unknown_verb. auto with mgmt. Qed.
Hint Resolve unknown_verb_good rib_register_good rib_unregister_good : mgmt.

Lemma rib_good D rq w : in_dom rq -> mgmt_ok D w -> good D (RIBModule.rib_handleIncomingInterest rq w) (mtransport w).
Proof.
  intros Hdom Hok. unfold RIBModule.rib_handleIncomingInterest. apply (dispatch_verb_good (fun x => good D x (mtransport w))); [auto with mgmt|]. repeat constructor; cbn [fst snd]; intros _; [auto with mgmt..| |].
  - unfold RIBModule.announce. goal_match E; [|auto with mgmt]. goal_ifs; auto with mgmt.
  - unfold RIBModule.rib_list. goal_if E; auto with mgmt.
Qed.

(** The names whose next hops a command writes past the RIB. *)
Definition written rq (n : Name) : Prop := exists params, command rq = Some (params, n).
Definition also D rq (n : Name) : Prop := D n \/ written rq n.

Lemma mgmt_ok_also D rq w : mgmt_ok D w -> mgmt_ok (also D rq) w.
Proof. apply mgmt_ok_mono. by left. Qed.
Hint Resolve mgmt_ok_also : mgmt.

Lemma fib_write_also D rq params n (f' : F) w : mgmt_ok D w -> command rq = Some (params, n) -> fib_ok f' ->
  (forall m, m <> n -> hops_map (fib_nh f' m) = hops_map (fib_nh (the_fib w) m)) -> mgmt_ok (also D rq) (set_fib f' w).
Proof.
  intros Hok Hc Hf Hnh. eapply mgmt_ok_mono; [|by apply (fib_write_ok D n)].
  intros m [Hm| ->]; [by left|right; by eexists].
Qed.

Lemma fib_good D rq w : in_dom rq -> mgmt_ok D w -> good (also D rq) (FIBModule.fib_handleIncomingInterest rq w) (mtransport w).
Proof.
  intros Hdom Hok. pose proof (proj1 (mgmt_agrees D w Hok)) as Hf. unfold FIBModule.fib_handleIncomingInterest, local_only.
  goal_if El; [|auto with mgmt]. apply (dispatch_verb_good (fun x => good (also D rq) x (mtransport w))); [auto with mgmt|].
  repeat constructor; cbn [fst snd]; intros _.
  - unfold FIBModule.add. rewrite with_name_eq. destruct (command rq) as [[params n]|] eqn:Ec; [|auto with mgmt].
    goal_if E; [auto with mgmt|]. cbv zeta. apply good_respond; [|auto 8 with mgmt|done].
    destruct (InsertNextHop_spec (the_fib w) n (command_face params rq) (default 0 (pCost params)) Hf (Hdom _ _ Ec)) as (Hf' & Hnh & _).
    eapply fib_write_also; [done..|]. intros m Hm. rewrite Hnh. unfold at_name. by rewrite decide_False.
  - unfold FIBModule.remove. rewrite with_name_eq. destruct (command rq) as [[params n]|] eqn:Ec; [|auto with mgmt].
    apply good_respond; [|auto 8 with mgmt|done].
    destruct (RemoveNextHop_spec (the_fib w) n (command_face params rq) Hf (Hdom _ _ Ec)) as (Hf' & Hnh & _).
    eapply fib_write_also; [done..|]. intros m Hm. specialize (Hnh m). unfold at_name in Hnh. rewrite decide_False in Hnh by done.
    apply hops_map_perm; [by apply fib_hops_ok|done].
  - unfold FIBModule.fib_list. goal_if E; auto with mgmt.
Qed.

(** *** Strategy choice: the name of the strategy must not be the prefix *)

Definition strategy_is_prefix rq : Prop :=
  exists params n s, command rq = Some (params, n) /\ pStrategy params = Some s /\ nm s = StrategyChoiceModule.strategyPrefix.

Lemma choose_panics s :
  StrategyChoiceModule.choose s = StrategyChoiceModule.IndexPanic <-> s = StrategyChoiceModule.strategyPrefix.
Proof.
  unfold StrategyChoiceModule.choose. rewrite Name_IsPrefix_spec. split.
  - case_bool_decide as Hp; cbn [negb]; [|done]. destruct Hp as [r ->]. goal_match E.
    + repeat match goal with |- context [match ?c with _ => _ end] => destruct c end; done.
    + intros _. apply lookup_ge_None in E. rewrite length_app in E. destruct r; [by rewrite app_nil_r|cbn in E; lia].
  - intros ->. rewrite bool_decide_true by done. cbn [negb].
    assert (E : StrategyChoiceModule.strategyPrefix !! length StrategyChoiceModule.strategyPrefix = None) by (apply lookup_ge_None_2; lia).
    by rewrite E.
Qed.

Lemma set_strategy_ok D n s w : fib_dom n -> mgmt_ok D w -> mgmt_ok D (set_fib (SetStrategyEnc (the_fib w) (Some n) (Some s)) w).
Proof.
  intros Hn Hok. pose proof (mgmt_agrees D w Hok) as [Hf Hc]. destruct (SetStrategy_spec (the_fib w) n s Hf Hn) as (Hf' & Hnh & _).
  apply set_fib_ok; [done|]. split; [done|]. intros m Hm. apply (hops_right_same (the_fib w)); [left; by rewrite Hnh|by apply Hc].
Qed.
Lemma unset_strategy_ok D n w : fib_dom n -> mgmt_ok D w -> mgmt_ok D (set_fib (UnSetStrategyEnc (the_fib w) n) w).
Proof.
  intros Hn Hok. pose proof (mgmt_agrees D w Hok) as [Hf Hc]. destruct (UnSetStrategy_spec (the_fib w) n Hf Hn) as (Hf' & Hnh & _).
  apply set_fib_ok; [done|]. split; [done|]. intros m Hm. apply (hops_right_same (the_fib w)); [left; by rewrite Hnh|by apply Hc].
Qed.
Hint Resolve set_strategy_ok unset_strategy_ok : mgmt.

Lemma strategy_set D rq w : in_dom rq -> mgmt_ok D w ->
  (strategy_is_prefix rq -> StrategyChoiceModule.set_ rq w = Crash) /\
  (~ strategy_is_prefix rq -> good D (StrategyChoiceModule.set_ rq w) (mtransport w)).
Proof.
  intros Hdom Hok. unfold StrategyChoiceModule.set_. rewrite with_name_eq. split.
  - intros (params & n & s & -> & -> & Hs). apply choose_panics in Hs. by rewrite Hs.
  - intros Hn. destruct (command rq) as [[params n]|] eqn:Ec; [|auto with mgmt].
    destruct (pStrategy params) as [s|] eqn:Es; [|auto with mgmt].
    destruct (StrategyChoiceModule.choose (nm s)) eqn:E; [eauto 8 with mgmt..|].
    exfalso. apply Hn. exists params, n, s. by apply choose_panics in E.
Qed.

Lemma strategy_good D rq w : in_dom rq -> mgmt_ok D w -> (verb rq = gs "set" -> from_localhost rq = true -> ~ strategy_is_prefix rq) ->
  good D (StrategyChoiceModule.strategy_handleIncomingInterest rq w) (mtransport w).
Proof.
  intros Hdom Hok Hs. unfold StrategyChoiceModule.strategy_handleIncomingInterest, local_only. goal_if El; [|auto with mgmt].
  apply (dispatch_verb_good (fun x => good D x (mtransport w))); [auto with mgmt|]. repeat constructor; cbn [fst snd]; intros Hv.
  - apply strategy_set; auto.
  - unfold StrategyChoiceModule.unset. rewrite with_name_eq. destruct (command rq) as [[params n]|] eqn:Ec; [|auto with mgmt].
    goal_if E; eauto 8 with mgmt.
  - unfold StrategyChoiceModule.strategy_list. goal_if E; auto with mgmt.
Qed.

(** *** Content Store and status *)

Lemma cs_good D threads rq w : mgmt_ok D w -> good D (ContentStoreModule.cs_handleIncomingInterest threads rq w) (mtransport w).
Proof.
  intros Hok. unfold ContentStoreModule.cs_handleIncomingInterest, local_only. goal_if El; [|auto with mgmt].
  apply (dispatch_verb_good (fun x => good D x (mtransport w))); [auto with mgmt|]. repeat constructor; cbn [fst snd]; intros Hv; auto with mgmt.
  - unfold ContentStoreModule.config. rewrite with_parameters_eq. destruct (decodeControlParameters rq) as [params|]; [|auto with mgmt].
    goal_if E; [auto with mgmt|]. cbv zeta. destruct (pCapacity params); apply good_respond; auto 8 with mgmt.
    by destruct Hok; split.
  - unfold ContentStoreModule.info. goal_if E; auto with mgmt.
Qed.

Lemma status_good D threads Version start now rq w : mgmt_ok D w ->
  good D (ForwarderStatusModule.status_handleIncomingInterest threads Version start now rq w) (mtransport w).
Proof.
  intros Hok. unfold ForwarderStatusModule.status_handleIncomingInterest, local_only. goal_if El; [|auto with mgmt].
  apply (dispatch_verb_good (fun x => good D x (mtransport w))); [auto with mgmt|]. repeat constructor; cbn [fst snd]; intros Hv.
  unfold ForwarderStatusModule.general. goal_if E; auto with mgmt.
Qed.

(** *** Faces *)

Section face_module.
Context (udpLifetime tcpLifetime UDPUnicastPort now : Z) (walk : list Z).
Context (dial : list byte -> list byte -> option Z -> option (list byte)).

Lemma fill_dict_ok f d o : lf_options f = Some o -> dict_ok d -> dict_ok (fillFaceProperties f d).
Proof.
  intros Ho Hd k v. unfold fillFaceProperties. rewrite Ho. cbv zeta. intros Hk.
  repeat (apply lookup_insert_Some in Hk as [[<- <-]|[? Hk]]; [try done; cbn [typed]; first [left; reflexivity|right; reflexivity|refine (bool_decide_unpack _ _); vm_compute; exact I]|]). by apply Hd.
Qed.
Hint Resolve fill_dict_ok : mgmt.

(** A face whose link service is in the table, or may be put into it. *)
Lemma add_face_good D w (f : LinkFace) : mgmt_ok D w -> Z.of_nat (size (Faces (faces w))) < 2 ^ 64 ->
  is_Some (lf_options f) ->
  let f0 := faces w in
  let p := fresh (dom (links f0)) in
  let f1 := mkFaceWorld (<[p := f]> (links f0)) (Faces f0) (nextFaceID f0) (FaceDispatch f0) (events f0) (w_rib f0) in
  exists f2 new, Add p f1 = Some f2 /\ mgmt_ok D (set_faces f2 w) /\
    Faces f0 !! new = None /\ Faces f2 = <[new := p]> (Faces f0) /\ links f2 = <[p := lf_SetFaceID new f]> (links f0) /\
    w_rib f2 = w_rib f0 /\
    events f2 = EmitFaceEvent FaceEventCreated (Some (lf_SetFaceID new f)) (events f0).
Proof.
  intros [Ht He Ho] Hs Hopt f0 p f1.
  destruct (add_link_ok D f0 f Ht Hs) as (f2 & new & E & Ht2 & Hfr & Hnew & _ & _ & Hf2 & Hl & Hr2 & He2).
  fold p in Hfr, Hf2, Hl.
  exists f2, new. split_and!; try done. split; cbn; [done|by rewrite He2, EmitFaceEvent_length|].
  intros i q g Hi Hg Hnone. rewrite Hf2 in Hi. rewrite Hl in Hg. apply lookup_insert_Some in Hi as [[<- <-]|[Hne Hi]].
  - rewrite lookup_insert_eq in Hg. injection Hg as <-. destruct Hopt as [o Hopt]. cbn in Hnone. congruence.
  - apply lookup_insert_Some in Hg as [[<- _]|[_ Hg]]; [|by apply (Ho i q g)].
    destruct (tab_ids D _ Ht i p Hi) as (g' & Hg' & _). unfold f0 in Hfr. congruence.
Qed.

(** A notification of the event emitted, and a response. *)
Lemma notify_respond_good D w w1 kind f (k : Mgmt F -> res F) code text args rq t0 :
  length (faceEvents (events (faces w))) = 100%nat ->
  events (faces w1) = EmitFaceEvent kind f (events (faces w)) -> mgmt_ok D w1 -> dict_ok args -> mtransport w1 = t0 ->
  (forall t, k (set_transport t w1) = respond code text args rq (set_transport t w1)) ->
  good D (res_bind (notify_since (length (notified (events (faces w)))) w1) k) t0.
Proof.
  intros Hl He Hok Hd Ht Hk. exists w1. split; [|by split]. apply (settles_bind 1 1 _ w1); [by eapply notify_emitted_settles| |done].
  intros t. rewrite Hk. by apply respond_settles.
Qed.

Lemma create_unicast_good D make params uri rq w : mgmt_ok D w -> Z.of_nat (size (Faces (faces w))) < 2 ^ 64 ->
  good D (FaceModule.create_unicast make params uri rq w) (mtransport w).
Proof.
  intros Hok Hs. unfold FaceModule.create_unicast. cbv zeta. goal_if E1; [auto with mgmt|]. goal_if E2; [auto with mgmt|].
  destruct (make _ _ _) as [t|]; [|auto with mgmt].
  match goal with |- context [new_face ?t0 ?o] => set (f := new_face t0 o) end.
  destruct (add_face_good D w f Hok Hs) as (f2 & new & E & Hok2 & _ & _ & Hl & _ & He); [by eexists|]. cbv zeta in E. rewrite E.
  eapply (notify_respond_good D w (set_faces f2 w)); [apply Hok|exact He|done|by eapply (fill_dict_ok (lf_SetFaceID new f)); [reflexivity|apply dict_ok_empty]|done|].
  intros t'. cbn [set_transport set_faces faces]. rewrite Hl, lookup_insert_eq. done.
Qed.

Lemma GetByURI_found order uri (f : FaceWorld F) p : GetByURI order uri f = Some p ->
  exists id g, Faces f !! id = Some p /\ links f !! p = Some g /\ URI_String (lf_remoteURI g) = URI_String uri.
Proof.
  induction order as [|id order IH]; cbn [GetByURI]; [done|].
  destruct (Faces f !! id) as [q|] eqn:Eq; cbn [mbind option_bind]; [|done].
  destruct (links f !! q) as [g|] eqn:Eg; cbn; [|done]. case_bool_decide as Eu; [|done]. intros [= ->]. by exists id, g.
Qed.

Lemma GetByURI_none order uri (f : FaceWorld F) id p g : GetByURI order uri f = None -> id ∈ order ->
  Faces f !! id = Some p -> links f !! p = Some g -> URI_String (lf_remoteURI g) <> URI_String uri.
Proof.
  intros Hn Hin Hp Hg. induction order as [|i order IH]; [by apply elem_of_nil in Hin|]. cbn [GetByURI] in Hn.
  apply elem_of_cons in Hin as [<-|Hin].
  - rewrite Hp in Hn. cbn in Hn. rewrite Hg in Hn. cbn in Hn. by case_bool_decide.
  - apply IH; [|done]. revert Hn. destruct (Faces f !! i ≫= _) as [[q g']|]; [|done]. by case_bool_decide.
Qed.

Lemma canonized_not_null u uri : Canonize u = (uri, true) -> URI_String uri <> gs "null://".
Proof.
  unfold Canonize, URI_String. destruct (uriType u) eqn:Ety; try (intros [= <-]; rewrite ?Ety; done).
  - destruct (ParseMAC _); [|done]. intros [= <-]. done.
  - destruct (if _ : bool then _ else _) as [a z]. destruct (resolve a) as [ip|]; [|done]. intros [= <-]. cbn. by destruct (To4 ip).
  - destruct (if _ : bool then _ else _) as [a z]. destruct (resolve a) as [ip|]; [|done]. intros [= <-]. cbn. by destruct (To4 ip).
  - cbv zeta. destruct (os_Stat _); try done; intros [= <-]; cbn; by rewrite Ety.
Qed.

Lemma create_good D rq w : mgmt_ok D w -> Z.of_nat (size (Faces (faces w))) < 2 ^ 64 ->
  good D (FaceModule.create udpLifetime tcpLifetime UDPUnicastPort dial now walk rq w) (mtransport w).
Proof.
  intros Hok Hs. unfold FaceModule.create. rewrite with_parameters_eq. destruct (decodeControlParameters rq) as [params|]; [|auto with mgmt].
  destruct (pUri params); [|auto with mgmt]. destruct (DecodeURIString _) as [u|]; [|auto with mgmt].
  destruct (Canonize u) as [uri ok] eqn:Ec. destruct ok; cbn [negb]; [|auto with mgmt].
  goal_if E1; [auto with mgmt|]. goal_match E2.
  - apply bind_Some in E2 as (p & Hp & Hg). apply GetByURI_found in Hp as (id & g & Hid & Hg' & Hu).
    assert (g = l0) as -> by congruence. destruct (lf_options l0) as [o|] eqn:Eo; [eauto with mgmt|].
    exfalso. destruct (mg_options D w Hok id p l0 Hid Hg Eo) as [Hty _]. apply (canonized_not_null _ _ Ec). rewrite <- Hu.
    unfold URI_String. by rewrite Hty.
  - goal_if E3; [by apply create_unicast_good|]. goal_if E4; [by apply create_unicast_good|]. auto with mgmt.
Qed.

Lemma update_face_keeps params f f' : FaceModule.update_face params f = Some f' ->
  lf_faceID f' = lf_faceID f /\ is_Some (lf_options f').
Proof.
  unfold FaceModule.update_face. set (f0 := match pFacePersistency params with Some _ => _ | None => f end).
  assert (E0 : lf_faceID f0 = lf_faceID f) by (unfold f0; by destruct (pFacePersistency params)). rewrite <- E0.
  destruct (lf_options f0) as [o|]; [|done]. cbn [mbind option_bind]. intros [= <-].
  split; [by destruct (pMtu params)|by eexists].
Qed.

Lemma update_good D rq w : mgmt_ok D w -> good D (FaceModule.update rq w) (mtransport w).
Proof.
  intros Hok. unfold FaceModule.update. rewrite with_parameters_eq. destruct (decodeControlParameters rq) as [params|]; [|auto with mgmt].
  cbv zeta. destruct (Get (command_face params rq) (faces w)) as [p|] eqn:Ep; cbn [mbind option_bind]; [|auto with mgmt].
  destruct (links (faces w) !! p) as [f|] eqn:Ef; [|auto with mgmt]. goal_if E1; [auto with mgmt|]. goal_if E2; [auto with mgmt|].
  assert (Hop : is_Some (lf_options f)).
  { destruct (lf_options f) eqn:Eo; [by eexists|]. destruct (mg_options D w Hok _ _ _ Ep Ef Eo) as [_ Hn].
    unfold scheme_in in E1. by rewrite Hn, bool_decide_true in E1. }
  destruct (FaceModule.update_face params f) as [f'|] eqn:Eu.
  - apply update_face_keeps in Eu as [Hid [o Ho]]. apply good_respond; [|eauto with mgmt|done].
    destruct Hok as [[Hd Hn Hids Hr Hfib] He Hopt]. split; [split; cbn; try done| |].
    + intros i q Hi. destruct (Hids i q Hi) as (g & Hg & Hgi). destruct (decide (p = q)) as [->|Hne].
      * exists f'. rewrite lookup_insert_eq. split; [done|]. congruence.
      * exists g. by rewrite lookup_insert_ne.
    + done.
    + cbn. intros i q g Hi Hg Hnone. apply lookup_insert_Some in Hg as [[<- <-]|[_ Hg]]; [congruence|by apply (Hopt i q g)].
  - exfalso. unfold FaceModule.update_face in Eu. destruct Hop as [o Ho].
    destruct (pFacePersistency params); cbn in Eu; rewrite Ho in Eu; done.
Qed.

Lemma remove_face_ok D w id : mgmt_ok D w -> mgmt_ok D (set_faces (Remove id (faces w)) w).
Proof.
  intros [Ht He Ho]. destruct (Remove_ok D (faces w) id Ht) as (Ht' & Hf & Hl & Hev & _).
  split; cbn [set_faces faces]; [done|by rewrite Hev, EmitFaceEvent_length|]. intros i p f Hi Hp. rewrite Hf in Hi. rewrite Hl in Hp.
  apply lookup_delete_Some in Hi as [_ Hi]. by apply (Ho i p f).
Qed.

Lemma destroy_good D rq w : mgmt_ok D w -> good D (FaceModule.destroy rq w) (mtransport w).
Proof.
  intros Hok. unfold FaceModule.destroy. rewrite with_parameters_eq. destruct (decodeControlParameters rq) as [params|]; [|auto with mgmt].
  destruct (pFaceId params) as [id|]; [|auto with mgmt]. destruct (Get id (faces w)) eqn:Eg; [|auto with mgmt].
  eapply (notify_respond_good D w (set_faces (Remove id (faces w)) w)); [apply Hok| |by apply remove_face_ok| | |].
  - cbn [set_faces faces]. destruct (Remove_ok D (faces w) id (mg_table D w Hok)) as (_ & _ & _ & Hev & _). exact Hev.
  - apply (ToDict_ok params).
  - done.
  - done.
Qed.

(** A query without a filter, when there is a face. *)
Definition query_without_filter rq w : Prop :=
  exists c, NameV (interest rq) !! (prefixLength + 2)%nat = Some c /\ ParseFaceQueryFilter (Val c) = Some None /\
    FaceModule.walked_faces walk w <> [].

Lemma query_face D rq w : mgmt_ok D w ->
  (query_without_filter rq w -> FaceModule.query now walk rq w = Crash) /\
  (~ query_without_filter rq w -> good D (FaceModule.query now walk rq w) (mtransport w)).
Proof.
  intros Hok. unfold FaceModule.query. split.
  - intros (c & -> & -> & Hne). by destruct (FaceModule.walked_faces walk w).
  - intros Hn. destruct (NameV (interest rq) !! _) as [c|] eqn:Ec; [|auto with mgmt].
    destruct (ParseFaceQueryFilter (Val c)) as [[q|]|] eqn:Eq; cbv zeta; [auto with mgmt| |auto with mgmt].
    destruct (FaceModule.walked_faces walk w) eqn:El; [auto with mgmt|]. exfalso. apply Hn. exists c. by rewrite El.
Qed.

Lemma events_good D rq w : mgmt_ok D w -> good D (FaceModule.events rq w) (mtransport w).
Proof.
  intros Hok. assert (Hs : forall id, good D (sendFaceEventNotification id (pitToken rq) w) (mtransport w)).
  { intros id. exists w. split; [|by split]. eapply settles_weaken; [|apply notification_settles, Hok]. lia. }
  unfold FaceModule.events. destruct (NameV (interest rq) !! _) as [c|].
  - goal_if E; [auto with mgmt|]. destruct (DecodeNNI _); auto with mgmt.
  - goal_if E; auto with mgmt.
Qed.

Lemma faces_good D rq w : mgmt_ok D w -> Z.of_nat (size (Faces (faces w))) < 2 ^ 64 ->
  (verb rq = gs "query" -> from_localhost rq = true -> ~ query_without_filter rq w) ->
  good D (FaceModule.handleIncomingInterest udpLifetime tcpLifetime UDPUnicastPort dial now walk rq w) (mtransport w).
Proof.
  intros Hok Hs Hq. unfold FaceModule.handleIncomingInterest, local_only. goal_if El; [|auto with mgmt].
  apply (dispatch_verb_good (fun x => good D x (mtransport w))); [auto with mgmt|]. repeat constructor; cbn [fst snd]; intros Hv.
  - by apply create_good.
  - by apply update_good.
  - by apply destroy_good.
  - unfold FaceModule.list_. goal_if E; auto with mgmt.
  - apply query_face; auto.
  - by apply events_good.
Qed.

End face_module.

(** ** The thread *)

Section thread.
Context (udpLifetime tcpLifetime UDPUnicastPort : Z) (Version : list byte) (start : Z).
Abbreviation handle_interest := (handle_interest udpLifetime tcpLifetime UDPUnicastPort Version start).

(** The requests that panic management. *)
Definition fatal (r : Round) rq w : Prop :=
  from_localhost rq = true /\
  ((moduleName rq = gs "strategy-choice" /\ verb rq = gs "set" /\ strategy_is_prefix rq) \/
   (moduleName rq = gs "faces" /\ verb rq = gs "query" /\ query_without_filter (r_walk r) rq w)).

(** The names whose next hops are not the RIB's after a request. *)
Definition touched D rq (n : Name) : Prop := D n \/ (moduleName rq = gs "fib" /\ written rq n).

Lemma good_mono D D' x t : (forall n, D n -> D' n) -> good D x t -> good D' x t.
Proof. intros HD (w1 & Hs & Hok & Ht). exists w1. split; [done|]. split; [by eapply mgmt_ok_mono|done]. Qed.

Lemma long_name rq c : NameV (interest rq) !! (prefixLength + 2)%nat = Some c -> (prefixLength + 3 <= length (NameV (interest rq)))%nat.
Proof. intros Hc. apply lookup_lt_Some in Hc. lia. Qed.

Lemma command_long rq p n : command rq = Some (p, n) -> (prefixLength + 3 <= length (NameV (interest rq)))%nat.
Proof.
  unfold command, decodeControlParameters. destruct (NameV (interest rq) !! (prefixLength + 2)%nat) as [c|] eqn:Ec; [|done].
  intros _. by eapply long_name.
Qed.

(** The Interests that reach a module. *)
Lemma handle_interest_module r rq w m : (prefixLength + 3 <= length (NameV (interest rq)))%nat -> from_localhost rq = true ->
  find_module (moduleName rq) (modules udpLifetime tcpLifetime UDPUnicastPort Version start r) = Some m ->
  handle_interest r rq w = m rq w.
Proof.
  intros Hl Hf Hm. unfold Mgmt.handle_interest. unfold from_localhost in Hf.
  replace (length (NameV (interest rq)) <? prefixLength + 2)%nat with false by (symmetry; apply Nat.ltb_ge; lia).
  by rewrite Hf, Hm.
Qed.

Lemma handle_interest_good D r rq w : in_dom rq -> mgmt_ok D w -> Z.of_nat (size (Faces (faces w))) < 2 ^ 64 ->
  ~ fatal r rq w -> good (touched D rq) (handle_interest r rq w) (mtransport w).
Proof.
  intros Hdom Hok Hs Hn. unfold Mgmt.handle_interest. assert (Hok' : mgmt_ok (touched D rq) w) by (eapply mgmt_ok_mono; [|done]; by left).
  goal_if E1; [auto with mgmt|]. goal_if E2; [auto with mgmt|]. unfold modules. cbn [find_module].
  repeat (case_bool_decide as Em; [|clear Em]).
  - by apply cs_good.
  - apply faces_good; [done..|]. intros Hv Hl Hq. apply Hn. split; [done|]. by right.
  - eapply good_mono; [|by apply (fib_good D)]. intros n [Hd|Hw]; [by left|by right].
  - by apply rib_good.
  - by apply status_good.
  - apply strategy_good; [done..|]. intros Hv Hl Hq. apply Hn. split; [done|]. by left.
  - destruct (makeControlResponse 501 "Unknown module" ∅) eqn:E; [|auto with mgmt].
    assert (Hr : good (touched D rq) (respond 501 "Unknown module" ∅ rq w) (mtransport w)) by auto with mgmt.
    unfold respond in Hr. by rewrite E in Hr.
Qed.

Lemma fatal_dec r rq w : fatal r rq w \/ ~ fatal r rq w.
Proof.
  assert (Hs : strategy_is_prefix rq \/ ~ strategy_is_prefix rq).
  { unfold strategy_is_prefix. destruct (command rq) as [[p n]|]; [|right; intros (? & ? & ? & ? & _); done].
    destruct (pStrategy p) as [s|] eqn:Es; [|right; intros (? & ? & ? & [= <- <-] & ? & _); congruence].
    destruct (decide (nm s = StrategyChoiceModule.strategyPrefix)) as [E|E]; [left; by exists p, n, s|right].
    intros (? & ? & ? & [= <- <-] & Hs & ?). congruence. }
  assert (Hq : query_without_filter (r_walk r) rq w \/ ~ query_without_filter (r_walk r) rq w).
  { unfold query_without_filter. destruct (NameV (interest rq) !! _) as [c|]; [|right; intros (? & ? & _); done].
    destruct (ParseFaceQueryFilter (Val c)) as [[q|]|] eqn:E;
      [right; intros (? & [= <-] & ? & _); congruence| |right; intros (? & [= <-] & ? & _); congruence].
    destruct (FaceModule.walked_faces (r_walk r) w) eqn:El; [right; intros (? & _ & _ & Hn); by apply Hn|left; by exists c]. }
  unfold fatal. destruct (decide (from_localhost rq = true)), (decide (moduleName rq = gs "strategy-choice")),
    (decide (moduleName rq = gs "faces")), (decide (verb rq = gs "set")), (decide (verb rq = gs "query")); tauto.
Qed.

Lemma handle_interest_fatal D r rq w : in_dom rq -> mgmt_ok D w -> fatal r rq w -> handle_interest r rq w = Crash.
Proof.
  intros Hdom Hok [Hl [(Hm & Hv & Hs)|(Hm & Hv & Hq)]].
  - destruct Hs as (params & n & s & Hc & Hs). erewrite handle_interest_module; [|by eapply command_long|done|by rewrite Hm].
    unfold StrategyChoiceModule.strategy_handleIncomingInterest, local_only, dispatch_verb. rewrite Hl, Hv, bool_decide_true by done.
    apply (strategy_set D); [done|done|]. by exists params, n, s.
  - destruct Hq as (c & Hc & Hq). erewrite handle_interest_module; [|by eapply long_name|done|by rewrite Hm].
    unfold FaceModule.handleIncomingInterest, local_only, dispatch_verb. rewrite Hl, Hv.
    do 4 (rewrite bool_decide_false by done). rewrite bool_decide_true by done.
    apply (query_face (r_now r) (r_walk r) D); [done|]. by exists c.
Qed.

(** C5: management survives what it is sent, but for two kinds of Interest.
    In a state where every face that is not null has an NDNLP link service, the
    event ring has its slots and the face table's invariant holds, an Interest
    of /localhost/nfd/strategy-choice/set whose strategy is the bare prefix
    /localhost/nfd/strategy, or of faces/query whose component holds no filter
    while a face exists, panics the thread; no other Interest does.  All
    others are handled in full when the transport has room for two frames (a
    response and an event notification at most), and leave a state with the
    same invariant: the FIB is what the RIB says but for the names [D] whose next
    hops were written past the RIB, to which an Interest of the fib module adds
    its own.  This holds with both FIBs, for a command whose name the FIB can hold
    ([in_dom]: any name with the name tree, a name without a hash collision with
    the hash table); with the hash table ([fib_nil_clears]) the invariant also
    admits a root that has lost its next hops, which [rib/unregister] of an entry
    without a name does to it ([root_lost]). *)
Theorem management_survives D r rq w : in_dom rq -> mgmt_ok D w -> Z.of_nat (size (Faces (faces w))) < 2 ^ 64 ->
  (handle_interest r rq w = Crash <-> fatal r rq w) /\
  (~ fatal r rq w -> room 2 w -> exists w', handle_interest r rq w = Done w' /\ mgmt_ok (touched D rq) w' /\
     (length (sendQueue (mtransport w')) <= length (sendQueue (mtransport w)) + 2)%nat) .
Proof.
  intros Hdom Hok Hs. pose proof (handle_interest_good D r rq w Hdom Hok Hs) as Hg. split; [split|].
  - intros Hc. destruct (fatal_dec r rq w) as [Hf|Hf]; [done|]. destruct (Hg Hf) as (w1 & Hw & _).
    by apply settles_crash in Hw.
  - by eapply handle_interest_fatal.
  - intros Hf Hr. destruct (Hg Hf) as (w1 & [[_ Hn]|(t & E & Hl)] & Hok1 & Ht).
    + exfalso. apply Hn. unfold room in *. by rewrite Ht.
    + exists (set_transport t w1). split; [done|]. split; [by destruct Hok1; split|]. cbn. by rewrite <- Ht.
Qed.

End thread.
End invariant.
