(* ===== verification/MgmtEffects.v ===== *)
(** * Management: the effect of its commands

    The commands of the RIB, FIB, strategy and face modules on the tables, what
    an Interest from another host can change, and what becomes of management's
    own routes. *)
From S2P Require Import Prelude.
From S2P Require Import Tlv NameTree Enc FibSpec Rib Packet Fw Text NetAddr Uri Transport Sockets LinkService Faces MgmtBase MgmtTables MgmtFaces Mgmt MgmtProps.
Local Open Scope Z_scope.

Section effects.
Context `{EncLaws} {F : Type} `{FibStrategyLaws F} `{LpCodec} `{MgmtLaws} `{MgmtConfig} `{NetEnv}.
Implicit Types (w : Mgmt F) (rq : Request) (x : res F) (D : Name -> Prop).

(** The next hops the FIB has at a name, and the routes of the RIB. *)
Definition hops w (n : Name) : gmap Z Z := hops_map (fib_nh (the_fib w) n).
Definition routes_of w (n : Name) : list Route := routes_at (rib (the_rib w)) n.

(** ** The RIB's commands *)

(** The route a command registers. *)
Definition new_route (params : ControlArgs) rq : Route :=
  mkRoute (command_face params rq) (default RouteOriginApp (pOrigin params)) (default 0 (pCost params))
    (default RouteFlagChildInherit (MgmtBase.pFlags params)) (RIBModule.expiration params).

(** No next hops but those at [n] differ. *)
Definition only_hops (n : Name) w w' : Prop := forall m, m <> n -> hops w' m = hops w m.

(** The next hops of the root are lost: what the hash table does when the entry
    of a name without routes is updated. *)
Definition root_emptied (n m : Name) w w' : Prop :=
  fib_nil_clears = true /\ m = [] /\ hops w' m = ∅ /\ routes_of w n = [].

(** Nothing but routes at [n], and next hops, differs. *)
Record only_routes (n : Name) w w' : Prop := {
  or_strategies : forall m, fib_dom m -> FindStrategyEnc (the_fib w') m = FindStrategyEnc (the_fib w) m;
  or_routes : forall m, m <> n -> routes_of w' m = routes_of w m;
  or_faces : Faces (faces w') = Faces (faces w) /\ links (faces w') = links (faces w) /\ events (faces w') = events (faces w);
  or_capacity : csCapacity w' = csCapacity w }.

Lemma strategies_same (f f' : F) : fib_ok f -> fib_ok f' -> (forall m, fib_st f' m = fib_st f m) ->
  forall m, fib_dom m -> FindStrategyEnc f' m = FindStrategyEnc f m.
Proof. intros Hf Hf' Hst m Hm. rewrite !FindStrategy_lpm by done. by apply lpm_ext. Qed.

Lemma register_effect D n params rq w : fib_dom n -> mgmt_ok D w ->
  let r := new_route params rq in
  let w' := set_rib (AddEncRoute (the_rib w) (Some n) (Rib.FaceID r) (Origin r) (RCost r) (Rib.Flags r) (Rib.ExpirationPeriod r)) w in
  mgmt_ok (fun m => D m /\ m <> n) w' /\ only_hops n w w' /\ only_routes n w w' /\ routes_of w' n = add_route (routes_of w n) r /\
  hops w' n = minCostRoutes (routes_of w' n).
Proof.
  intros Hdom Hok r w'. pose proof (mgmt_agrees D w Hok) as Ha. pose proof (mgmt_rib D w Hok) as Hr.
  destruct (AddEncRoute_ok (the_rib w) n (Rib.FaceID r) (Origin r) (RCost r) (Rib.Flags r) (Rib.ExpirationPeriod r) Hdom Hr Ha)
    as (Hr' & [Hf' Hc'] & Hrt & Hst).
  pose proof (AddEncRoute_fib (the_rib w) n (Rib.FaceID r) (Origin r) (RCost r) (Rib.Flags r) (Rib.ExpirationPeriod r) Hdom Hr (proj1 Ha)) as Hnh.
  cbv zeta in Hnh. split; [|split; [|split; [split|split]]].
  - apply (set_rib_ok D); [done|done|]. split; [done|]. intros m Hm. destruct (decide (m = n)) as [->|Hne].
    + left. rewrite Hnh. by rewrite decide_True.
    + apply Hc'. tauto.
  - intros m Hm. unfold hops, w'. cbn. rewrite Hnh. by rewrite decide_False.
  - apply strategies_same; [apply Ha|done|done].
  - intros m Hm. unfold routes_of, w'. cbn. rewrite Hrt. unfold at_name. by rewrite decide_False.
  - done.
  - done.
  - unfold routes_of, w'. cbn. rewrite Hrt. unfold at_name. by rewrite decide_True.
  - unfold hops, routes_of, w'. cbn. rewrite Hnh. by rewrite decide_True.
Qed.

Lemma unregister_effect D n params rq w : mgmt_ok D w ->
  let w' := set_rib (RemoveRouteEnc (the_rib w) n (command_face params rq) (default RouteOriginApp (pOrigin params))) w in
  mgmt_ok D w' /\ (forall m, m <> n -> hops w' m = hops w m \/ root_emptied n m w w') /\ only_routes n w w' /\
  routes_of w' n = remove_first (same_route (command_face params rq) (default RouteOriginApp (pOrigin params))) (routes_of w n) /\
  (~ D n -> hops_right (the_fib w') n (routes_of w' n)).
Proof.
  intros Hok w'. pose proof (mgmt_agrees D w Hok) as Ha. pose proof (mgmt_rib D w Hok) as Hr.
  destruct (RemoveRouteEnc_ok (the_rib w) n (command_face params rq) (default RouteOriginApp (pOrigin params)) Hr Ha)
    as (Hr' & Ha' & Hrt & Hst). split; [by apply (set_rib_ok D)|]. split; [|split; [split|split]].
  - intros m Hm. unfold hops, root_emptied, routes_of, w'. cbn.
    destruct (RemoveRouteEnc_fib (the_rib w) n (command_face params rq) (default RouteOriginApp (pOrigin params)) m Hr (proj1 Ha) Hm)
      as [|[(? & ? & ?) ?]]; [by left|by right].
  - apply strategies_same; [apply Ha|apply Ha'|done].
  - intros m Hm. unfold routes_of, w'. cbn. rewrite Hrt. unfold at_name. by rewrite decide_False.
  - done.
  - done.
  - unfold routes_of, w'. cbn. rewrite Hrt. unfold at_name. by rewrite decide_True.
  - intros Hn. by apply Ha'.
Qed.


(** C7: the RIB's commands.  Without a name (or parameters that parse) [register]
    and [unregister] answer 400, and [register] of a route to a given face that
    does not exist answers 410; nothing changes then.  Otherwise [register]
    puts the route (for the given face, or that of the Interest when none or 0
    is given; origin "app", cost 0 and child inheritance by default) in the
    place of the one of the same face and origin at the name, and the next hops
    of the FIB at the name become the cheapest cost per face of its routes,
    whatever they were; [unregister] drops the route of the face and origin if
    there is one.  Both answer 200 with what they did, the expiration period in
    milliseconds as it was given; no other name, strategy or face changes, and
    the invariant of management holds afterwards.  This is so for both FIBs (for a
    name the FIB can hold: any with the name tree, one without a hash collision
    with the hash table), with one exception for the hash table ([root_emptied],
    impossible for the name tree): [unregister] of a name whose entry in the RIB
    has no routes removes the next hops of the root. *)
Theorem rib_commands D rq w : in_dom rq -> mgmt_ok D w ->
  match command rq with
  | None =>
      RIBModule.register rq w = respond 400 "ControlParameters is incorrect" ∅ rq w /\
      RIBModule.unregister rq w = respond 400 "ControlParameters is incorrect" ∅ rq w
  | Some (params, n) =>
      let r := new_route params rq in
      (if face_missing params w then RIBModule.register rq w = respond 410 "Face does not exist" ∅ rq w
       else exists w' args, RIBModule.register rq w = respond 200 "OK" args rq w' /\
         args !! "Name"%string = Some (DName (Some n)) /\ args !! "FaceId"%string = Some (DUint (Rib.FaceID r)) /\
         args !! "Origin"%string = Some (DUint (Origin r)) /\ args !! "Cost"%string = Some (DUint (RCost r)) /\
         args !! "Flags"%string = Some (DUint (Rib.Flags r)) /\
         (forall e, pExpirationPeriod params = Some e -> 0 <= e < 2 ^ 43 ->
            Rib.ExpirationPeriod r = Some (e * Millisecond) /\ args !! "ExpirationPeriod"%string = Some (DUint e)) /\
         mgmt_ok (fun m => D m /\ m <> n) w' /\ only_hops n w w' /\ only_routes n w w' /\
         routes_of w' n = add_route (routes_of w n) r /\ hops w' n = minCostRoutes (routes_of w' n)) /\
      exists w', RIBModule.unregister rq w =
          respond 200 "OK" (<["Name" := DName (Some n)]> (<["FaceId" := DUint (Rib.FaceID r)]> {["Origin" := DUint (Origin r)]})) rq w' /\
        mgmt_ok D w' /\ (forall m, m <> n -> hops w' m = hops w m \/ root_emptied n m w w') /\ only_routes n w w' /\
        routes_of w' n = remove_first (same_route (Rib.FaceID r) (Origin r)) (routes_of w n) /\
        (~ D n -> hops_right (the_fib w') n (routes_of w' n))
  end.
Proof.
  intros Hdom Hok. unfold RIBModule.register, RIBModule.unregister. rewrite !with_name_eq.
  destruct (command rq) as [[params n]|] eqn:Ec; [|done]. cbv zeta. set (r := new_route params rq). split.
  - goal_if E; [done|]. destruct (register_effect D n params rq w (Hdom _ _ Ec) Hok) as (Hok' & Hoh & Ho & Hrt & Hh).
    eexists _, _. split; [reflexivity|]. split_and!; try done; try (destruct (RIBModule.expiration params); done).
    intros e He Hr. assert (Hx : RIBModule.expiration params = Some (e * Millisecond)).
    { unfold RIBModule.expiration. rewrite He. cbn. unfold Millisecond. rewrite (i64_small e) by lia. by rewrite i64_small by lia. }
    split; [done|]. rewrite Hx, lookup_insert_eq. unfold RIBModule.milliseconds, Millisecond. rewrite Z.quot_mul by done.
    by rewrite u64_small by lia.
  - eexists. split; [reflexivity|]. by apply unregister_effect.
Qed.

(** ** The FIB's commands *)

(** The FIB's commands.  [add-nexthop] (400 without a name, 410 for a given
    face that does not exist) sets the cost of the face among the next hops at
    the name, [remove-nexthop] removes it; no other name's next hops, no
    strategy, no route of the RIB and no face changes, and afterwards the next
    hops at that name need no longer be those of the RIB. *)
Lemma fib_commands D rq w : in_dom rq -> mgmt_ok D w ->
  match command rq with
  | None =>
      FIBModule.add rq w = respond 400 "ControlParameters is incorrect" ∅ rq w /\
      FIBModule.remove rq w = respond 400 "ControlParameters is incorrect" ∅ rq w
  | Some (params, n) =>
      let face := command_face params rq in
      let touched := fun m => D m \/ m = n in
      (if face_missing params w then FIBModule.add rq w = respond 410 "Face does not exist" ∅ rq w
       else exists w', FIBModule.add rq w = respond 200 "OK"
           (<["Name" := DName (Some n)]> (<["FaceId" := DUint face]> {["Cost" := DUint (default 0 (pCost params))]})) rq w' /\
         mgmt_ok touched w' /\ only_hops n w w' /\ only_routes n w w' /\ routes_of w' n = routes_of w n /\
         hops w' n = <[face := default 0 (pCost params)]> (hops w n)) /\
      exists w', FIBModule.remove rq w = respond 200 "OK" (<["Name" := DName (Some n)]> {["FaceId" := DUint face]}) rq w' /\
        mgmt_ok touched w' /\ only_hops n w w' /\ only_routes n w w' /\ routes_of w' n = routes_of w n /\ hops w' n = delete face (hops w n)
  end.
Proof.
  intros Hdom Hok. pose proof (proj1 (mgmt_agrees D w Hok)) as Hf. unfold FIBModule.add, FIBModule.remove. rewrite !with_name_eq.
  destruct (command rq) as [[params n]|] eqn:Ec; [|done]. cbv zeta. set (face := command_face params rq). split.
  - goal_if E; [done|]. destruct (InsertNextHop_spec (the_fib w) n face (default 0 (pCost params)) Hf (Hdom _ _ Ec)) as (Hf' & Hnh & Hst).
    eexists. split; [reflexivity|]. split_and!.
    + apply fib_write_ok; [done|done|]. intros m Hm. rewrite Hnh. unfold at_name. by rewrite decide_False.
    + intros m Hm. unfold hops. cbn. rewrite Hnh. unfold at_name. by rewrite decide_False.
    + split; try done. by apply strategies_same.
    + done.
    + unfold hops. cbn. rewrite Hnh. unfold at_name. rewrite decide_True by done. by rewrite hops_map_upsert by (by apply fib_hops_ok).
  - destruct (RemoveNextHop_spec (the_fib w) n face Hf (Hdom _ _ Ec)) as (Hf' & Hnh & Hst).
    assert (Hh : forall m, hops_map (fib_nh (RemoveNextHopEnc (the_fib w) n face) m) =
      if decide (m = n) then delete face (hops w n) else hops w m).
    { intros m. specialize (Hnh m). unfold at_name in Hnh. case_decide as Hm.
      - unfold hops. rewrite <- hops_map_filter by (by apply fib_hops_ok). apply hops_map_perm; [|done].
        by apply hops_ok_filter, fib_hops_ok.
      - apply hops_map_perm; [by apply fib_hops_ok|done]. }
    eexists. split; [reflexivity|]. split_and!.
    + apply fib_write_ok; [done|done|]. intros m Hm. rewrite Hh. by rewrite decide_False.
    + intros m Hm. unfold hops at 1. cbn. rewrite Hh. by rewrite decide_False.
    + split; try done. by apply strategies_same.
    + done.
    + unfold hops at 1. cbn. rewrite Hh. by rewrite decide_True.
Qed.

(** ** Strategies *)

Section strategy.
Context `{!MgmtNameLaws}.
Abbreviation prefix := StrategyChoiceModule.strategyPrefix.
Abbreviation name_of := (strategy_name prefix NewVersionComponent).
Abbreviation installed := (InstantiateStrategies prefix NewVersionComponent).

Lemma name_of_inj s s' : name_of s = name_of s' -> s = s'.
Proof. by destruct s, s'. Qed.

Lemma installed_spec s : universe (name_of BestRoute) -> universe (name_of Multicast) -> installed !! Name_Hash (name_of s) = Some s.
Proof.
  intros Hb Hm. unfold InstantiateStrategies. cbn [fold_left]. destruct s.
  - rewrite lookup_insert_ne, lookup_insert_eq; [done|]. by intros E%Name_Hash_inj.
  - by rewrite lookup_insert_eq.
Qed.

Lemma not_installed n : universe n -> universe (name_of BestRoute) -> universe (name_of Multicast) ->
  (forall s, n <> name_of s) -> installed !! Name_Hash n = None.
Proof.
  intros Hu Hb Hm Hn. unfold InstantiateStrategies. cbn [fold_left].
  rewrite !lookup_insert_ne; [apply lookup_empty|..]; intros E%Name_Hash_inj; try done; by eapply Hn.
Qed.

Lemma lookup_versions_of s : StrategyChoiceModule.lookup_versions (Component_String (strategy_component s)) = Some [1].
Proof.
  destruct s; [rewrite (Component_String_plain "best-route")|rewrite (Component_String_plain "multicast")]; try reflexivity.
  all: cbn; repeat (apply Forall_cons; split; [first [by left|by right]|]); apply Forall_nil_2.
Qed.

Lemma after_prefix (l n : Name) : n = prefix ++ l -> n !! length prefix = head l /\ n !! S (length prefix) = head (tail l).
Proof. intros ->. destruct l as [|a [|b l]]; done. Qed.

(** A strategy with or without its version, and with more components. *)
Lemma choose_strategy s : StrategyChoiceModule.choose (prefix ++ [strategy_component s]) = StrategyChoiceModule.Chosen (name_of s).
Proof.
  unfold StrategyChoiceModule.choose. rewrite Name_IsPrefix_spec, bool_decide_true by (by eexists). cbn [negb].
  destruct (after_prefix [strategy_component s] _ eq_refl) as [-> ->]. cbn [head tail]. by rewrite lookup_versions_of, <- app_assoc.
Qed.

Lemma choose_strategy_version s r : StrategyChoiceModule.choose (name_of s ++ r) = StrategyChoiceModule.Chosen (name_of s ++ r).
Proof.
  destruct (NewVersionComponent_spec 1) as [Ht Hd]; [lia|].
  unfold StrategyChoiceModule.choose, strategy_name. rewrite <- app_assoc, Name_IsPrefix_spec, bool_decide_true by (by eexists).
  cbn [negb]. destruct (after_prefix ([strategy_component s; NewVersionComponent 1] ++ r) _ eq_refl) as [-> ->]. cbn [app head tail].
  by rewrite lookup_versions_of, Ht, Hd, Z.eqb_refl.
Qed.

Lemma lpm_at_self {A} n v (f : Name -> option A) : lpm (at_name n (Some v) f) n = Some v.
Proof.
  unfold lpm. assert (E : at_name n (Some v) f (take (length n) n) = Some v) by (rewrite firstn_all; unfold at_name; by rewrite decide_True).
  destruct (length n); cbn [lpm_upto]; by rewrite E.
Qed.

Lemma lpm_at_name {A} n v (f : Name -> option A) m : lpm (at_name n (Some v) f) m = Some v \/ lpm (at_name n (Some v) f) m = lpm f m.
Proof.
  unfold lpm. generalize (length m) as k. assert (E : forall k, at_name n (Some v) f (take k m) = Some v \/ at_name n (Some v) f (take k m) = f (take k m)).
  { intros k. unfold at_name. case_decide; auto. }
  induction k as [|k IH]; cbn [lpm_upto]; [destruct (E 0%nat) as [->| ->]; auto|destruct (E (S k)) as [->| ->]; [auto|]].
  destruct (f (take (S k) m)); auto.
Qed.

(** What [set] does with an accepted name. *)
Lemma set_effect D params n g s rq w : fib_dom n -> mgmt_ok D w -> command rq = Some (params, n) -> pStrategy params = Some g ->
  StrategyChoiceModule.choose (nm g) = StrategyChoiceModule.Chosen s ->
  let w' := set_fib (SetStrategyEnc (the_fib w) (Some n) (Some s)) w in
  StrategyChoiceModule.set_ rq w =
    respond 200 "OK" (<["Name" := DName (Some n)]> {["Strategy" := DStrategy (Some s)]}) rq w' /\
  mgmt_ok D w' /\ (forall m, hops w' m = hops w m) /\ (forall m, routes_of w' m = routes_of w m) /\
  forall m, fib_dom m -> FindStrategyEnc (the_fib w') m = lpm (at_name n (Some s) (fib_st (the_fib w))) m.
Proof.
  intros Hdom Hok Hc Hs Hch w'. destruct (mgmt_agrees D w Hok) as [Hf _].
  destruct (SetStrategy_spec (the_fib w) n s Hf Hdom) as (Hf' & Hnh & Hst). split; [|split_and!].
  - unfold StrategyChoiceModule.set_. by rewrite with_name_eq, Hc, Hs, Hch.
  - by apply set_strategy_ok.
  - intros m. unfold hops. cbn. by rewrite Hnh.
  - done.
  - intros m Hm. cbn. rewrite FindStrategy_lpm by done. by apply lpm_ext.
Qed.

(** Strategy choice.  A command that names a strategy of the forwarder, with
    its version or without, is answered 200 with the name including the version;
    the strategy of a name is then the one set at its longest prefix, the
    command's name included, and nothing else changes.  In particular a
    forwarding thread that finds an installed strategy for every name before
    still does afterwards, and finds the chosen one at the command's name.  A
    name that is not under /localhost/nfd/strategy is answered 404 and changes
    nothing. *)
Lemma strategy_choice D params n g rq w : fib_dom n -> mgmt_ok D w -> command rq = Some (params, n) -> pStrategy params = Some g ->
  universe (name_of BestRoute) -> universe (name_of Multicast) ->
  (forall s, nm g = prefix ++ [strategy_component s] \/ nm g = name_of s ->
    exists w', StrategyChoiceModule.set_ rq w =
        respond 200 "OK" (<["Name" := DName (Some n)]> {["Strategy" := DStrategy (Some (name_of s))]}) rq w' /\
      mgmt_ok D w' /\ (forall m, hops w' m = hops w m) /\ (forall m, routes_of w' m = routes_of w m) /\
      (forall m, fib_dom m -> FindStrategyEnc (the_fib w') m = lpm (at_name n (Some (name_of s)) (fib_st (the_fib w))) m) /\
      FindStrategy (the_fib w') installed n = Some s /\
      (forall m, fib_dom m -> is_Some (FindStrategy (the_fib w) installed m) -> is_Some (FindStrategy (the_fib w') installed m))) /\
  (~ prefix `prefix_of` nm g -> StrategyChoiceModule.set_ rq w = respond 404 "Unknown strategy" ∅ rq w).
Proof.
  intros Hdom Hok Hc Hs Hb Hm. split.
  - intros s Hg. assert (Hch : StrategyChoiceModule.choose (nm g) = StrategyChoiceModule.Chosen (name_of s)).
    { destruct Hg as [-> | ->]; [apply choose_strategy|]. pose proof (choose_strategy_version s []) as E. by rewrite app_nil_r in E. }
    destruct (set_effect D params n g _ rq w Hdom Hok Hc Hs Hch) as (E & Hok' & Hh & Hr & Hst).
    eexists. split; [exact E|]. split_and!; try done.
    + unfold FindStrategy. rewrite Hst, lpm_at_self by done. by apply installed_spec.
    + intros m Hmd Hall. unfold FindStrategy. rewrite Hst by done. unfold FindStrategy in Hall.
      rewrite FindStrategy_lpm in Hall by (by apply Hok || done).
      destruct (lpm_at_name n (name_of s) (fib_st (the_fib w)) m) as [->| ->]; [|done].
      change (nm (Some (name_of s))) with (name_of s). by rewrite installed_spec.
  - intros Hn. unfold StrategyChoiceModule.set_. rewrite with_name_eq, Hc, Hs. unfold StrategyChoiceModule.choose.
    by rewrite Name_IsPrefix_spec, bool_decide_false.
Qed.

(** A strategy name with more components is accepted, and stops forwarding.
    [set] does not look behind the version: the name of a strategy with any
    components after it is answered 200 and becomes the strategy of the
    command's name, but no forwarding thread has a strategy of that name.  An
    Interest of that name without a NextHopFaceId then panics the forwarding
    thread once it is in the PIT, whether the Content Store has an answer or
    not. *)
Lemma strategy_choice_unchecked D params n g s c rest rq w : fib_dom n -> mgmt_ok D w -> command rq = Some (params, n) -> pStrategy params = Some g ->
  nm g = name_of s ++ c :: rest ->
  universe (nm g) -> universe (name_of BestRoute) -> universe (name_of Multicast) ->
  exists w', StrategyChoiceModule.set_ rq w =
      respond 200 "OK" (<["Name" := DName (Some n)]> {["Strategy" := DStrategy (Some (nm g))]}) rq w' /\
    FindStrategy (the_fib w') installed n = None /\
    forall config faces children_order sortSlice now pp e inFace i fhName pending (w0 : World), NameV i = n ->
      after_in_record config faces (the_fib w') installed children_order sortSlice now pp e inFace i fhName pending None w0 = Panic.
Proof.
  intros Hdom Hok Hc Hs Hg Hu Hb Hm.
  assert (Hch : StrategyChoiceModule.choose (nm g) = StrategyChoiceModule.Chosen (nm g)) by (rewrite Hg; apply choose_strategy_version).
  destruct (set_effect D params n g _ rq w Hdom Hok Hc Hs Hch) as (E & Hok' & _ & _ & Hst). eexists. split; [exact E|].
  assert (Hnone : FindStrategy (the_fib (set_fib (SetStrategyEnc (the_fib w) (Some n) (Some (nm g))) w)) installed n = None).
  { unfold FindStrategy. rewrite Hst, lpm_at_self by done. change (nm (Some (nm g))) with (nm g). apply not_installed; [done..|]. intros s' E'. rewrite Hg in E'.
    apply (f_equal length) in E'. unfold strategy_name in E'. rewrite !length_app in E'. cbn in E'. lia. }
  split; [done|]. intros config faces children_order sortSlice now pp e inFace i fhName pending w0 Hi.
  unfold after_in_record. rewrite Hi, Hnone.
  destruct (if _ : bool then _ else _) as [T1 [k|]]; [|done]. by goal_match Ec.
Qed.

End strategy.

(** ** Management's own routes *)

Definition looked_up w (n : Name) : gmap Z Z := hops_map (FindNextHopsEnc (the_fib w) n).

(** The next hops of the longest prefix that has any. *)
Lemma looked_up_at w p n : fib_dom n -> fib_ok (the_fib w) -> p `prefix_of` n -> hops w p <> ∅ ->
  (forall q, q `prefix_of` n -> (length p < length q)%nat -> hops w q = ∅) -> looked_up w n = hops w p.
Proof.
  intros Hdom Hf Hp Hne Hlong. unfold looked_up. rewrite FindNextHops_lpm by done.
  assert (Hsome : forall q, is_Some (nonempty (fib_nh (the_fib w) q)) <-> hops w q <> ∅).
  { intros q. unfold hops. pose proof (hops_map_nonempty (fib_nh (the_fib w) q)) as E. unfold nonempty_map in E.
    destruct (nonempty _), (decide (hops_map (fib_nh (the_fib w) q) = ∅)); cbn in E; try done; split; try done; by intros []. }
  pose proof (lpm_spec (fun m => nonempty (fib_nh (the_fib w) m)) n) as Hl. destruct (lpm _ n) as [nhs|].
  - destruct Hl as (q & Hq & Eq & Hmax). assert (q = p) as ->.
    { assert (Hqn : hops w q <> ∅) by (apply Hsome; by eexists). specialize (Hmax p Hp (proj2 (Hsome p) Hne)).
      assert (length q = length p) by (destruct (decide (length p < length q)%nat); [by rewrite Hlong in Hqn|lia]).
      destruct (prefix_weak_total q p n Hq Hp) as [Hpq|Hpq]; [|symmetry]; apply prefix_length_eq; first [done|lia]. }
    apply nonempty_Some in Eq as [-> _]. done.
  - exfalso. specialize (Hl p Hp). apply Hsome in Hne as [x Hx]. congruence.
Qed.

Lemma insert_hop_ok D n h c w : fib_dom n -> mgmt_ok D w ->
  let w' := set_fib (InsertNextHopEnc (the_fib w) (Some n) h c) w in
  mgmt_ok (fun m => D m \/ m = n) w' /\ forall m, hops w' m = if decide (m = n) then <[h := c]> (hops w n) else hops w m.
Proof.
  intros Hdom Hok w'. destruct (mgmt_agrees D w Hok) as [Hf _]. destruct (InsertNextHop_spec (the_fib w) n h c Hf Hdom) as (Hf' & Hnh & _).
  assert (Hh : forall m, hops w' m = if decide (m = n) then <[h := c]> (hops w n) else hops w m).
  { intros m. unfold hops, w'. cbn. rewrite Hnh. unfold at_name. case_decide; [|done]. by rewrite hops_map_upsert by (by apply fib_hops_ok). }
  split; [|done]. apply fib_write_ok; [done|done|]. intros m Hm. specialize (Hh m). unfold hops, w' in Hh. cbn in Hh.
  rewrite Hh. by rewrite decide_False.
Qed.

(** The names under which the thread registers itself. *)
Definition own (n : Name) : Prop := n = localPrefix \/ n = nonLocalPrefix.

Lemma mgmt_start_ok (f : FaceWorld F) cap t v : fib_dom localPrefix -> fib_dom nonLocalPrefix -> mgmt_ok (fun _ => False) (mkMgmt f cap t v) ->
  Z.of_nat (size (Faces f)) < 2 ^ 64 ->
  exists w id, mgmt_start f cap = Some w /\ mgmt_ok own w /\ Faces f !! id = None /\ is_Some (Faces (faces w) !! id) /\
    (forall m, routes_of w m = routes_at (rib (w_rib f)) m) /\
    forall m : Name, m <> [] -> hops w m = if decide (m = localPrefix) then <[id := 0]> (minCostRoutes (routes_of w m))
                         else if decide (enableLocalhopManagement = true /\ m = nonLocalPrefix)
                              then <[id := 0]> (minCostRoutes (routes_of w m)) else minCostRoutes (routes_of w m).
Proof.
  intros Hd1 Hd2 Hok Hs. assert (Hlp : localPrefix <> []) by discriminate. assert (Hnlp : nonLocalPrefix <> []) by discriminate.
  unfold mgmt_start, RegisterInternalTransport. cbv zeta.
  match goal with |- context [new_face ?a ?b] => set (l := new_face a b) end.
  destruct (add_face_good _ _ l Hok Hs) as (f2 & id & E & Hok2 & Hnew & Hf2 & Hl2 & Hr2 & _); [by eexists|].
  cbv zeta in E. cbn [faces] in *. rewrite E. cbn [mbind option_bind]. rewrite Hl2, lookup_insert_eq. cbn [mbind option_bind lf_faceID lf_SetFaceID].
  set (w0 := mkMgmt f2 cap _ _). assert (Hok0 : mgmt_ok (fun _ => False) w0) by (destruct Hok2; by split).
  destruct (insert_hop_ok _ localPrefix id 0 w0 Hd1 Hok0) as [Hok1 Hh1]. set (w1 := set_fib _ w0) in *.
  destruct (insert_hop_ok _ nonLocalPrefix id 0 w1 Hd2 Hok1) as [Hok1' Hh1']. set (w2 := set_fib _ w1) in *.
  assert (Hr : forall m, routes_of w0 m = routes_at (rib (w_rib f)) m) by (intros m; change (routes_of w0 m) with (routes_at (rib (w_rib f2)) m); by rewrite Hr2).
  assert (Hh0 : forall m : Name, m <> [] -> hops w0 m = minCostRoutes (routes_of w0 m)) by (intros m Hm; apply (hops_right_named (the_fib w0) m _ Hm), (mgmt_agrees _ w0 Hok0); tauto).
  exists (if enableLocalhopManagement then w2 else w1), id. split; [done|].
  assert (Hx : forall (P : Mgmt F -> Prop), P w1 -> P w2 -> P (if enableLocalhopManagement then w2 else w1)) by (by destruct enableLocalhopManagement).
  split; [|split; [done|split; [|split]]].
  - apply Hx; [eapply mgmt_ok_mono; [|exact Hok1]|eapply mgmt_ok_mono; [|exact Hok1']]; unfold own; intros m; tauto.
  - assert (Hfc : is_Some (Faces f2 !! id)) by (rewrite Hf2, lookup_insert_eq; by eexists). by apply Hx.
  - intros m. apply (Hx (fun w => routes_of w m = _)); apply Hr.
  - intros m Hne. assert (Hh1m : hops w1 m = if decide (m = localPrefix) then <[id := 0]> (minCostRoutes (routes_of w0 m)) else minCostRoutes (routes_of w0 m)).
    { rewrite Hh1, (Hh0 m Hne), (Hh0 _ Hlp). by case_decide; subst. }
    destruct enableLocalhopManagement; [change (routes_of w2 m) with (routes_of w0 m)|change (routes_of w1 m) with (routes_of w0 m)].
    + rewrite Hh1', Hh1m, Hh1, (Hh0 _ Hlp), (Hh0 _ Hnlp). repeat case_decide; subst; tauto || naive_solver.
    + rewrite Hh1m. repeat case_decide; naive_solver.
Qed.

(** C8: a route for /localhost/nfd cuts management off.  When management
    starts, an Interest for it (under /localhost/nfd, with no longer prefix in
    the FIB) is forwarded to its internal face only.  The thread wrote that next
    hop into the FIB but has no route in the RIB: as soon as any face registers
    a route for the name /localhost/nfd (which also a command under
    /localhop/nfd may do), the FIB gets the next hops of the RIB there, and such
    Interests go to the registering face only. *)
Theorem management_cut_off (f : FaceWorld F) cap t v : fib_dom localPrefix -> fib_dom nonLocalPrefix -> mgmt_ok (fun _ => False) (mkMgmt f cap t v) ->
  Z.of_nat (size (Faces f)) < 2 ^ 64 -> routes_at (rib (w_rib f)) localPrefix = [] ->
  exists w id, mgmt_start f cap = Some w /\ Faces f !! id = None /\ is_Some (Faces (faces w) !! id) /\
  forall rq params n, fib_dom n -> command rq = Some (params, localPrefix) -> face_missing params w = false ->
    localPrefix `prefix_of` n -> (forall q, q `prefix_of` n -> (length localPrefix < length q)%nat -> hops w q = ∅) ->
    looked_up w n = {[id := 0]} /\
    exists w' args, RIBModule.register rq w = respond 200 "OK" args rq w' /\
      looked_up w' n = {[command_face params rq := default 0 (pCost params)]}.
Proof.
  intros Hd1 Hd2 Hok Hs Hno. destruct (mgmt_start_ok f cap t v Hd1 Hd2 Hok Hs) as (w & id & E & Hokw & Hnew & Hin & Hr & Hh).
  exists w, id. split; [done|]. split; [done|]. split; [done|]. intros rq params n Hdn Hc Hm Hn Hlong.
  assert (Hrl : routes_of w localPrefix = []) by (by rewrite Hr).
  assert (Hhl : hops w localPrefix = {[id := 0]}) by (rewrite Hh by discriminate; rewrite decide_True, Hrl by done; done).
  split; [rewrite (looked_up_at w localPrefix); [done|done|apply (mgmt_agrees _ w Hokw)|done| |done]; rewrite Hhl; apply insert_non_empty|].
  destruct (register_effect own localPrefix params rq w Hd1 Hokw) as (Hok' & Ho & _ & Hrt & Hhw).
  unfold RIBModule.register. rewrite with_name_eq, Hc, Hm. cbv zeta. set (w' := set_rib _ w) in Hok', Ho, Hrt, Hhw.
  exists w'. eexists. split; [reflexivity|]. rewrite Hrt, Hrl in Hhw.
  assert (Hhl' : hops w' localPrefix = {[command_face params rq := default 0 (pCost params)]}) by (rewrite Hhw; reflexivity).
  rewrite (looked_up_at w' localPrefix); [done|done|apply (mgmt_agrees _ w' Hok')|done| |].
  - rewrite Hhl'. apply insert_non_empty.
  - intros q Hq Hl. rewrite Ho; [by apply Hlong|]. intros ->. lia.
Qed.

(** ** What another host can do *)

(** [x] ends as [w] but for the routes and next hops of the name of the command
    (and, with the hash table, the next hops of the root when that name had no
    routes), the versions of datasets and frames in the transport's queue. *)
Definition confined rq w x : Prop :=
  exists w1, settles 2 x w1 /\ mtransport w1 = mtransport w /\
    (forall n, ~ written rq n ->
       (hops w1 n = hops w n \/ exists m, written rq m /\ root_emptied m n w w1) /\ routes_of w1 n = routes_of w n) /\
    (forall n, fib_dom n -> FindStrategyEnc (the_fib w1) n = FindStrategyEnc (the_fib w) n) /\
    Faces (faces w1) = Faces (faces w) /\ links (faces w1) = links (faces w) /\ FaceDispatch (faces w1) = FaceDispatch (faces w) /\
    events (faces w1) = events (faces w) /\ csCapacity w1 = csCapacity w.

Lemma confined_done rq w : confined rq w (Done w).
Proof. exists w. split; [eapply settles_weaken; [|apply settles_done]; lia|]. split_and!; auto. Qed.

Lemma confined_respond rq w code text args : dict_ok args -> confined rq w (respond code text args rq w).
Proof. intros Hd. exists w. split; [eapply settles_weaken; [|by apply respond_settles]; lia|]. split_and!; auto. Qed.

Lemma confined_command rq w n params w1 code text args : command rq = Some (params, n) ->
  (forall m, m <> n -> hops w1 m = hops w m \/ root_emptied n m w w1) -> only_routes n w w1 ->
  FaceDispatch (faces w1) = FaceDispatch (faces w) -> mtransport w1 = mtransport w -> dict_ok args ->
  confined rq w (respond code text args rq w1).
Proof.
  intros Hc Hh [Hst Hr (Hf & Hl & He) Hcs] Hfd Ht Hd. exists w1.
  split; [eapply settles_weaken; [|by apply respond_settles]; lia|]. split_and!; try done.
  intros m Hm. assert (Hmn : m <> n) by (intros ->; apply Hm; by exists params). split; [|by apply Hr].
  destruct (Hh m Hmn); [by left|right]. exists n. split; [by exists params|done].
Qed.

Lemma confined_publish rq w name v payload next : confined rq w (publish name v payload next rq w).
Proof.
  destruct (publish_settles name v payload next rq w) as [v' Hs]. exists (set_versions v' w).
  split; [eapply settles_weaken; [|exact Hs]; lia|]. split_and!; auto.
Qed.
Hint Resolve confined_done confined_respond confined_publish : mgmt.

Lemma rib_confined D rq w : in_dom rq -> mgmt_ok D w -> confined rq w (RIBModule.rib_handleIncomingInterest rq w).
Proof.
  intros Hdom Hok. unfold RIBModule.rib_handleIncomingInterest. apply (dispatch_verb_good (confined rq w)).
  { unfold unknown_verb. auto with mgmt. }
  repeat constructor; cbn [fst snd]; intros _.
  - unfold RIBModule.register. rewrite with_name_eq. destruct (command rq) as [[params n]|] eqn:Ec; [|unfold bad_parameters; auto with mgmt].
    goal_if Em; [auto with mgmt|]. cbv zeta.
    destruct (register_effect D n params rq w (Hdom _ _ Ec) Hok) as (_ & Hh & Ho & _).
    eapply confined_command; [done|intros m Hm; left; by apply Hh|exact Ho|done|done|].
    destruct (RIBModule.expiration params); auto 8 with mgmt.
  - unfold RIBModule.unregister. rewrite with_name_eq. destruct (command rq) as [[params n]|] eqn:Ec; [|unfold bad_parameters; auto with mgmt].
    destruct (unregister_effect D n params rq w Hok) as (_ & Hh & Ho & _). eapply confined_command; [done|exact Hh|exact Ho|done|done|].
    auto 8 with mgmt.
  - unfold RIBModule.announce. goal_match E; [|auto with mgmt]. goal_ifs; auto with mgmt.
  - unfold RIBModule.rib_list. goal_if E; auto with mgmt.
Qed.

Section thread.
Context (udpLifetime tcpLifetime UDPUnicastPort : Z) (Version : list byte) (start : Z).
Abbreviation handle_interest := (handle_interest udpLifetime tcpLifetime UDPUnicastPort Version start).

(** C6: what does not come from this host is confined.  An Interest that is not
    under /localhost/nfd is dropped without an effect unless it is under
    /localhop/nfd; and such an Interest changes no strategy, no face, no event,
    not the capacity of the Content Store, and no route or next hop but those
    of the name in its command, whatever module and verb it names.  This is so for
    both FIBs (for a command whose name the FIB can hold), with one exception for
    the hash table: rib/unregister of a name that has no routes can remove the
    next hops of the root ([root_emptied]). *)
Theorem management_confinement D r rq w : in_dom rq -> mgmt_ok D w -> ~ localPrefix `prefix_of` NameV (interest rq) ->
  (~ nonLocalPrefix `prefix_of` NameV (interest rq) -> handle_interest r rq w = Done w) /\
  confined rq w (handle_interest r rq w).
Proof.
  intros Hdom Hok Hl. assert (Hf : from_localhost rq = false) by (unfold from_localhost; by rewrite Name_IsPrefix_spec, bool_decide_false).
  unfold Mgmt.handle_interest. split.
  - intros Hn. goal_if E; [done|]. rewrite !Name_IsPrefix_spec. by rewrite !bool_decide_false by done.
  - goal_if E1; [auto with mgmt|]. goal_if E2; [auto with mgmt|]. unfold modules. cbn [find_module].
    repeat (case_bool_decide as Em; [|clear Em]).
    1-3, 5-6: cbv beta delta [ContentStoreModule.cs_handleIncomingInterest FaceModule.handleIncomingInterest
      FIBModule.fib_handleIncomingInterest ForwarderStatusModule.status_handleIncomingInterest StrategyChoiceModule.strategy_handleIncomingInterest
      local_only]; rewrite Hf; auto with mgmt.
    + by eapply rib_confined.
    + destruct (makeControlResponse 501 "Unknown module" ∅) eqn:E; [|auto with mgmt].
      assert (Hr : confined rq w (respond 501 "Unknown module" ∅ rq w)) by auto with mgmt.
      unfold respond in Hr. by rewrite E in Hr.
Qed.

End thread.

(** ** Faces *)

Section faces.
Context (udpLifetime tcpLifetime UDPUnicastPort now : Z) (walk : list Z).
Context (dial : list byte -> list byte -> option Z -> option (list byte)).
Abbreviation create := (FaceModule.create udpLifetime tcpLifetime UDPUnicastPort dial now walk).

(** A response that is sent after the notification of the event that made [w1]
    from [w]. *)
Definition notifies code text args rq w w1 x : Prop :=
  exists k, x = res_bind (notify_since (length (notified (events (faces w)))) w1) k /\
    forall t, k (set_transport t w1) = respond code text args rq (set_transport t w1).

(** The transports [create] makes: connected to a canonical URI, up, persistent
    or permanent. *)
Definition good_transport uri (t : FaceTransport) : Prop :=
  remoteURI (tbase t) = uri /\ IsCanonical uri = true /\ (kind t = UnicastUDP \/ kind t = UnicastTCP) /\
  state (tbase t) = Up /\ closed t = false /\
  (persistency (tbase t) = PersistencyPersistent \/ persistency (tbase t) = PersistencyPermanent).

(** A face is added: under an identifier no face has, with a transport for a URI
    no face has, and the event of its creation. *)
Definition created params uri (transport : FaceTransport) w w1 : Prop :=
  exists new p, let l := lf_SetFaceID new (new_face transport (Some (FaceModule.create_options params))) in
    good_transport uri transport /\
    (from_option (fun m => 0 <= m) True (pMtu params) -> mtu (tbase transport) <= MaxNDNPacketSize) /\
    Faces (faces w) !! new = None /\ links (faces w) !! p = None /\
    Faces (faces w1) = <[new := p]> (Faces (faces w)) /\ links (faces w1) = <[p := l]> (links (faces w)) /\
    (forall id q g, id ∈ walk -> Faces (faces w) !! id = Some q -> links (faces w) !! q = Some g ->
       URI_String (lf_remoteURI g) <> URI_String uri) /\
    events (faces w1) = EmitFaceEvent FaceEventCreated (Some l) (events (faces w)) /\
    (forall n, hops w1 n = hops w n) /\ (forall n, routes_of w1 n = routes_of w n).

Definition making (make : URI -> option URI -> Z -> option FaceTransport) : Prop :=
  forall uri p t, make uri None p = Some t -> p = PersistencyPersistent \/ p = PersistencyPermanent ->
    good_transport uri t /\ mtu (tbase t) = MaxNDNPacketSize.

Lemma udp_making : making (MakeUnicastUDPTransport udpLifetime UDPUnicastPort dial now).
Proof.
  intros uri p t. unfold MakeUnicastUDPTransport. goal_if E; [done|]. apply orb_false_iff in E as [E _].
  apply orb_false_iff in E as [Ec _]. apply negb_false_iff in Ec. destruct (dial _ _ _); [|done]. cbn [mbind option_bind].
  intros [= <-] Hp. split; [|done]. by split_and!; [| |left|..].
Qed.

Lemma tcp_making : making (MakeUnicastTCPTransport tcpLifetime dial now).
Proof.
  intros uri p t. unfold MakeUnicastTCPTransport. goal_if E; [done|].
  apply orb_false_iff in E as [Ec _]. apply negb_false_iff in Ec. destruct (dial _ _ _); [|done]. cbn [mbind option_bind].
  intros [= <-] Hp. split; [|done]. by split_and!; [| |right|..].
Qed.

Lemma command_mtu_max m : 0 <= m -> command_mtu m <= MaxNDNPacketSize.
Proof.
  intros Hm. unfold command_mtu, MaxNDNPacketSize. destruct (Z.ltb_spec 8800 m); [lia|]. rewrite i64_small; lia.
Qed.

(** [x] refuses: a response with a code of 400 or more, and nothing else. *)
Definition refuses rq w x : Prop := exists code text args, x = respond code text args rq w /\ 400 <= code.

Lemma create_unicast_effect D make params uri rq w : mgmt_ok D w -> Z.of_nat (size (Faces (faces w))) < 2 ^ 64 ->
  making make -> GetByURI walk uri (faces w) ≫= (fun p => links (faces w) !! p) = None ->
  refuses rq w (FaceModule.create_unicast make params uri rq w) \/
  exists w1 args, notifies 200 "OK" args rq w w1 (FaceModule.create_unicast make params uri rq w) /\ dict_ok args /\
    mgmt_ok D w1 /\ exists transport, created params uri transport w w1.
Proof.
  intros Hok Hs Hmake Hnone. unfold FaceModule.create_unicast. cbv zeta.
  goal_if E1; [left; eexists _, _, _; split; [reflexivity|lia]|].
  goal_if E2; [left; eexists _, _, _; split; [reflexivity|lia]|]. apply negb_false_iff, orb_true_iff in E2.
  destruct (make _ _ _) as [t|] eqn:Et; [|left; eexists _, _, _; split; [reflexivity|lia]]. right.
  destruct (Hmake uri _ t Et) as [Ht Hmtu]; [by destruct E2 as [E2%Z.eqb_eq|E2%Z.eqb_eq]; [left|right]|].
  set (t1 := match pMtu params with Some _ => _ | None => t end).
  destruct (add_face_good D w (new_face t1 (Some (FaceModule.create_options params))) Hok Hs)
    as (f2 & new & E & Hok2 & Hnew & Hf & Hl & Hr & He); [by eexists|]. cbv zeta in E. rewrite E.
  exists (set_faces f2 w), (fillFaceProperties (lf_SetFaceID new (new_face t1 (Some (FaceModule.create_options params)))) ∅).
  split_and!; [|by eapply fill_dict_ok; [reflexivity|apply dict_ok_empty]|done|].
  - eexists. split; [reflexivity|]. intros t'. cbn [set_transport set_faces faces]. by rewrite Hl, lookup_insert_eq.
  - exists t1, new, (fresh (dom (links (faces w)))). split_and!; try done.
    + unfold t1. destruct (pMtu params); [|done]. by destruct Ht as (? & ? & ? & ? & ? & ?); split_and!.
    + unfold t1. destruct (pMtu params) as [m|]; [intros Hm; by apply command_mtu_max|intros _; by rewrite Hmtu].
    + apply not_elem_of_dom, is_fresh.
    + intros id q g Hin Hq Hg. destruct (GetByURI walk uri (faces w)) as [q'|] eqn:Eg; [|by eapply GetByURI_none].
      apply GetByURI_found in Eg as (id' & g' & _ & Hg' & _). cbn in Hnone. congruence.
    + intros n. unfold hops, the_fib, the_rib. cbn. by rewrite Hr.
    + intros n. unfold routes_of, the_rib. cbn. by rewrite Hr.
Qed.

Lemma refuses_respond rq w code text args : 400 <= code -> refuses rq w (respond code text args rq w).
Proof. intros Hc. by exists code, text, args. Qed.

(** C9: making faces.  A create command either is refused, with a code of 400 or
    more and without any effect, or adds one face: then its URI was given,
    canonized and is held by no other face of the table; its transport is up,
    connected to that canonical UDP or TCP URI, persistent or permanent, with
    an MTU of at most 8800; its identifier is new; nothing else changes, the
    Created event is notified before the response 200 with the face's
    properties, and the invariant of management holds. *)
Theorem face_create D rq w : mgmt_ok D w -> Z.of_nat (size (Faces (faces w))) < 2 ^ 64 ->
  refuses rq w (create rq w) \/
  exists params text u uri transport w1 args,
    decodeControlParameters rq = Some params /\ pUri params = Some text /\ DecodeURIString text = Some u /\
    Canonize u = (uri, true) /\ flags_without_mask params = false /\
    notifies 200 "OK" args rq w w1 (create rq w) /\ dict_ok args /\ mgmt_ok D w1 /\ created params uri transport w w1.
Proof.
  intros Hok Hs. unfold FaceModule.create. rewrite with_parameters_eq. unfold bad_parameters.
  destruct (decodeControlParameters rq) as [params|]; [|left; by apply refuses_respond].
  destruct (pUri params) as [text|] eqn:Eu; [|left; by apply refuses_respond].
  destruct (DecodeURIString text) as [u|] eqn:Ed; [|left; by apply refuses_respond].
  destruct (Canonize u) as [uri ok] eqn:Ec. destruct ok; cbn [negb]; [|left; by apply refuses_respond].
  goal_if E1; [left; by apply refuses_respond|].
  destruct (GetByURI walk uri (faces w) ≫= _) as [g|] eqn:Eg; [left; by apply refuses_respond|].
  assert (Hdone : forall make, making make -> refuses rq w (FaceModule.create_unicast make params uri rq w) \/
    exists params' text' u' uri' transport w1 args,
      Some params = Some params' /\ pUri params' = Some text' /\ DecodeURIString text' = Some u' /\
      Canonize u' = (uri', true) /\ flags_without_mask params' = false /\
      notifies 200 "OK" args rq w w1 (FaceModule.create_unicast make params uri rq w) /\ dict_ok args /\ mgmt_ok D w1 /\
      created params' uri' transport w w1).
  { intros make Hmake. destruct (create_unicast_effect D make params uri rq w Hok Hs Hmake Eg)
      as [|(w1 & args & ? & ? & ? & transport & ?)]; [by left|right]. by exists params, text, u, uri, transport, w1, args. }
  goal_if E3; [by apply Hdone, udp_making|]. goal_if E4; [by apply Hdone, tcp_making|]. left. by apply refuses_respond.
Qed.

(** Destroying a face.  The command with a FaceId is answered 200; a face
    of that identifier is gone from the table and the dispatch map afterwards,
    the Destroyed event is notified first, and every name of the RIB has lost
    the first route through the face (a second one, of another origin, stays).
    But the face's link service and transport are as they were: the command
    does not close them, so a face that is up goes on receiving. *)
Lemma face_destroy D rq w params id : mgmt_ok D w ->
  decodeControlParameters rq = Some params -> pFaceId params = Some id ->
  match Get id (faces w) with
  | None => FaceModule.destroy rq w = respond 200 "OK" (ToDict params) rq w
  | Some p =>
      exists w1, notifies 200 "OK" (ToDict params) rq w w1 (FaceModule.destroy rq w) /\ mgmt_ok D w1 /\
        Get id (faces w1) = None /\ GetFace id (faces w1) = None /\
        (forall i, i <> id -> Get i (faces w1) = Get i (faces w)) /\
        events (faces w1) = EmitFaceEvent FaceEventDestroyed (links (faces w) !! p) (events (faces w)) /\
        (forall n, routes_of w1 n = drop_face id (routes_of w n)) /\
        (forall n, fib_dom n -> FindStrategyEnc (the_fib w1) n = FindStrategyEnc (the_fib w) n) /\
        links (faces w1) !! p = links (faces w) !! p
  end.
Proof.
  intros Hok Hc Hid. unfold FaceModule.destroy. rewrite with_parameters_eq, Hc, Hid. cbv zeta.
  destruct (Get id (faces w)) as [p|] eqn:Ep; [|done]. exists (set_faces (Remove id (faces w)) w).
  destruct (Remove_ok D (faces w) id (mg_table D w Hok)) as (Ht & Hf & Hl & He & Hr & Hst).
  pose proof (remove_face_ok D w id Hok) as Hok'. split_and!; try done.
  - by eexists.
  - unfold Get. cbn [set_faces faces]. rewrite Hf. apply lookup_delete_eq.
  - unfold GetFace. cbn [set_faces faces]. rewrite (tab_dispatch D _ Ht), Hf. apply lookup_delete_eq.
  - intros i Hi. unfold Get. cbn [set_faces faces]. rewrite Hf. by apply lookup_delete_ne.
  - cbn [set_faces faces]. by rewrite He, Ep.
  - apply strategies_same; [apply (mgmt_agrees D w Hok)|apply (mgmt_agrees D _ Hok')|exact Hst].
Qed.

End faces.
End effects.
