(* ===== verification/MgmtExamples.v ===== *)
(** * Management at concrete states: witnesses of the properties of MgmtProps.v
    and MgmtEffects.v, over the name-tree FIB and a codec of a few commands. *)
From S2P Require Import Prelude.
From S2P Require Import Tlv NameTree Enc FibSpec FibTree Rib Packet Fw Text NetAddr Uri Transport Sockets LinkService Faces MgmtBase MgmtTables MgmtFaces Mgmt MgmtProps MgmtEffects.
Local Open Scope Z_scope.

Module MgmtExamples.
#[local] Existing Instance UriExamples.ex_env.
#[local] Existing Instance ref_ops.
#[local] Existing Instance ref_laws.
#[local] Existing Instance ref_codec.

(** Commands with a name only, for the strategies, and for faces. *)
Definition no_params : ControlArgs := mkArgs None None None None None None None None None None None None None None None.
Definition named (n : Name) (face : option Z) (strategy : option goname) : ControlArgs :=
  mkArgs (Some n) face None None None None None None None None None None strategy None None.
Definition with_uri (u : list byte) : ControlArgs :=
  mkArgs None None (Some u) None None None None None None None None None None None None.
Definition with_id (f : Z) : ControlArgs :=
  mkArgs None (Some f) None None None None None None None None None None None None None.
Definition version (v : Z) : Component := mkComponent 54 (EncodeNNI v).

Definition prefix : Name := StrategyChoiceModule.strategyPrefix.
Definition parse (bs : list byte) : option ControlArgs :=
  if bool_decide (bs = gs "own") then Some (named localPrefix None None)
  else if bool_decide (bs = gs "a") then Some (named [gc "a"] (Some 1) None)
  else if bool_decide (bs = gs "prefix") then Some (named [gc "a"] None (Some (Some prefix)))
  else if bool_decide (bs = gs "multicast") then Some (named [gc "a"] None (Some (Some (prefix ++ [gc "multicast"]))))
  else if bool_decide (bs = gs "more") then Some (named [gc "a"] None (Some (Some (prefix ++ [gc "multicast"; version 1; gc "x"]))))
  else if bool_decide (bs = gs "uri") then Some (with_uri (gs "udp4://192.0.2.1:6363"))
  else if bool_decide (bs = gs "face1") then Some (with_id 1)
  else None.

Definition args_of (d : gmap string dval) : ControlArgs :=
  mkArgs (match d !! "Name"%string with Some (DName n) => n | _ => None end)
    (match d !! "FaceId"%string with Some (DUint z) => Some z | _ => None end)
    None None None None None None None None None None None None None.

#[local] Instance ex_codec : MgmtCodec := {|
  ParseControlParameters bs := Some <$> parse bs;
  ParseFaceQueryFilter bs := if bool_decide (bs = []) then Some None else None;
  DictToControlArgs d := Some (args_of d);
  ToDict a := from_option (fun f => {["FaceId" := DUint f]}) ∅ (pFaceId a);
  Payload_Encode _ := [gs "payload"];
  MakeData _ _ _ w := Some w;
  NewVersionComponent v := version v;
  NewSegmentComponent v := mkComponent 50 (EncodeNNI v);
  NewSequenceNumComponent v := mkComponent 58 (EncodeNNI v);
  Component_String c := Val c;
  TypeParametersSha256DigestComponent := 2;
  TypeSegmentNameComponent := 50;
  TypeVersionNameComponent := 54;
  AppParam w := w;
  ReadData _ := true |}.

#[local] Instance ex_laws : MgmtLaws.
Proof. split; [by eexists|]. intros a. cbn. destruct (pFaceId a); [apply dict_ok_singleton|apply dict_ok_empty]. auto with mgmt. Qed.

#[local] Instance ex_name_laws : MgmtNameLaws.
Proof. split; [done|]. intros v Hv. split; [done|by apply DecodeNNI_encode]. Qed.

#[local] Instance ex_config : MgmtConfig := {| faceQueueSize := 8; enableLocalhopManagement := true |}.

(** One null face, of identifier 1. *)
Definition ex_world : FaceWorld FibStrategyTree := FacesExamples.ex_world.
Definition ex_w : Mgmt FibStrategyTree := mkMgmt ex_world 1024 MakeInternalTransport (mkVersions 0 0 0 0 0 0).
Definition none (_ : Name) : Prop := False.

Lemma ex_ok : mgmt_ok none ex_w.
Proof.
  split; [exact FacesExamples.ex_world_ok|done|]. intros id p f Hp Hf _. cbn in Hp.
  apply lookup_singleton_Some in Hp as [<- <-]. vm_compute in Hf. injection Hf as <-. done.
Qed.

Lemma ex_size : Z.of_nat (size (Faces ex_world)) < 2 ^ 64.
Proof. vm_compute. done. Qed.

(** The name tree holds any name. *)
Lemma ex_name (n : Name) : fib_dom n.
Proof. done. Qed.
Lemma ex_dom rq : in_dom rq.
Proof. intros params n _. apply ex_name. Qed.

(** A request for a module and verb with parameters, from face 5. *)
Definition request (host module verb params : String.string) : Request :=
  mkRequest (mkInterest [gc host; gc "nfd"; gc module; gc verb; gc params] false false None None None) [] [] 5.
Definition ex_round : Round := mkRound [] 0 [1] (fun _ _ _ => Some (gs "10.0.0.1:6363")).
Definition handle (rq : Request) : res FibStrategyTree := handle_interest 600 600 6363 [] 0 ex_round rq ex_w.

Lemma management_survives_witness :
  handle (request "localhost" "strategy-choice" "set" "prefix") = Crash /\
  exists w', handle (request "localhost" "faces" "create" "uri") = Done w' /\ mgmt_ok (touched none (request "localhost" "faces" "create" "uri")) w'.
Proof.
  split.
  - apply (management_survives 600 600 6363 [] 0 none ex_round _ ex_w (ex_dom _) ex_ok ex_size).
    split; [reflexivity|]. left. split; [reflexivity|]. split; [reflexivity|]. by eexists _, _, _.
  - destruct (proj2 (management_survives 600 600 6363 [] 0 none ex_round (request "localhost" "faces" "create" "uri") ex_w (ex_dom _) ex_ok ex_size))
      as (w' & E & Hok & _).
    + intros [_ [(Hm & _)|(_ & Hv & _)]]; [vm_compute in Hm|vm_compute in Hv]; discriminate.
    + vm_compute. lia.
    + by exists w'.
Defined.

Definition own_request : Request := request "localhop" "rib" "register" "own".
Definition fib_request : Request := request "localhost" "fib" "add-nexthop" "a".

(** A route for /localhost/nfd, from another host. *)
Lemma rib_commands_witness :
  exists w' args, RIBModule.register own_request ex_w = respond 200 "OK" args own_request w' /\
    hops w' localPrefix = {[5 := 0]}.
Proof.
  pose proof (rib_commands none own_request ex_w (ex_dom _) ex_ok) as Hc.
  change (command own_request) with (Some (named localPrefix None None, localPrefix)) in Hc. cbv zeta in Hc.
  destruct Hc as [(w' & args & E & _ & _ & _ & _ & _ & _ & _ & _ & _ & Hr & Hh) _]. exists w', args. split; [exact E|].
  rewrite Hh, Hr. vm_compute. reflexivity.
Defined.

Lemma fib_commands_witness :
  exists w' args, FIBModule.add fib_request ex_w = respond 200 "OK" args fib_request w' /\ hops w' [gc "a"] = {[1 := 0]}.
Proof.
  pose proof (fib_commands none fib_request ex_w (ex_dom _) ex_ok) as Hc.
  change (command fib_request) with (Some (named [gc "a"] (Some 1) None, [gc "a"])) in Hc. cbv zeta in Hc.
  change (face_missing (named [gc "a"] (Some 1) None) ex_w) with false in Hc.
  destruct Hc as [(w' & E & _ & _ & _ & _ & Hh) _]. eexists w', _. split; [exact E|]. rewrite Hh. vm_compute. reflexivity.
Defined.

Definition installed : gmap Z Strategy := InstantiateStrategies prefix NewVersionComponent.
Definition set_request (name : String.string) : Request := request "localhost" "strategy-choice" "set" name.

Definition multicast_name : Name := prefix ++ [gc "multicast"].
Definition more_name : Name := prefix ++ [gc "multicast"; version 1; gc "x"].
Lemma set_command name params strategy : parse (gs name) = Some params -> params = named [gc "a"] None (Some (Some strategy)) ->
  command (set_request name) = Some (named [gc "a"] None (Some (Some strategy)), [gc "a"]).
Proof. intros Hp ->. unfold command, decodeControlParameters. cbn. by rewrite Hp. Qed.

Lemma strategy_choice_witness :
  exists w' args, StrategyChoiceModule.set_ (set_request "multicast") ex_w = respond 200 "OK" args (set_request "multicast") w' /\
    FindStrategy (the_fib w') installed [gc "a"] = Some Multicast.
Proof.
  destruct (strategy_choice none _ [gc "a"] (Some multicast_name) (set_request "multicast") ex_w (ex_name _) ex_ok
    (set_command "multicast" _ multicast_name eq_refl eq_refl) eq_refl (ref_universe _) (ref_universe _))
    as [Hc _]. destruct (Hc Multicast (or_introl eq_refl)) as (w' & E & _ & _ & _ & _ & Hf & _). eexists w', _. by split.
Defined.

Lemma strategy_choice_unchecked_witness :
  exists w' args, StrategyChoiceModule.set_ (set_request "more") ex_w = respond 200 "OK" args (set_request "more") w' /\
    FindStrategy (the_fib w') installed [gc "a"] = None.
Proof.
  destruct (strategy_choice_unchecked none _ [gc "a"] (Some more_name) Multicast (gc "x") [] (set_request "more") ex_w (ex_name _) ex_ok
    (set_command "more" _ more_name eq_refl eq_refl) eq_refl eq_refl
    (ref_universe _) (ref_universe _) (ref_universe _)) as (w' & E & Hf & _). eexists w', _. by split.
Defined.

Definition destroy_request (host : String.string) : Request := request host "faces" "destroy" "face1".

Lemma management_confinement_witness :
  confined (destroy_request "localhop") ex_w (handle (destroy_request "localhop")).
Proof.
  apply (management_confinement 600 600 6363 [] 0 none ex_round (destroy_request "localhop") ex_w (ex_dom _) ex_ok).
  intros [l E]. vm_compute in E. discriminate.
Defined.

Lemma management_cut_off_witness :
  exists w id, mgmt_start ex_world 1024 = Some w /\ looked_up w localPrefix = {[id := 0]} /\
    exists w' args, RIBModule.register own_request w = respond 200 "OK" args own_request w' /\
      looked_up w' localPrefix = {[5 := 0]}.
Proof.
  destruct (management_cut_off ex_world 1024 _ _ (ex_name _) (ex_name _) ex_ok ex_size eq_refl) as (w & id & E & _ & _ & Hc).
  exists w, id. split; [exact E|].
  apply (Hc own_request (named localPrefix None None) localPrefix (ex_name _) eq_refl eq_refl); [by exists []|].
  intros q [l El] Hl. apply (f_equal length) in El. rewrite length_app in El. cbn in El, Hl. lia.
Defined.

(** How many faces there are at the end. *)
Definition faces_after (x : res FibStrategyTree) : nat := match x with Done w => size (Faces (faces w)) | _ => 0%nat end.
Definition create_request : Request := request "localhost" "faces" "create" "uri".
Definition create_result : res FibStrategyTree := FaceModule.create 600 600 6363 (r_dial ex_round) 0 [1] create_request ex_w.

Lemma face_create_witness :
  exists w1 args params uri transport, notifies 200 "OK" args create_request ex_w w1 create_result /\
    created [1] params uri transport ex_w w1.
Proof.
  destruct (face_create 600 600 6363 0 [1] (r_dial ex_round) none create_request ex_w ex_ok ex_size)
    as [(code & text & args & E & _)|(params & text & u & uri & t & w1 & args & _ & _ & _ & _ & _ & Hn & _ & _ & Hc)].
  - exfalso. apply (f_equal faces_after) in E. revert E. vm_compute. discriminate.
  - by exists w1, args, params, uri, t.
Defined.

Lemma face_destroy_witness :
  exists w1 : Mgmt FibStrategyTree, Get 1 (faces w1) = None /\ links (faces w1) !! 8%nat = links ex_world !! 8%nat.
Proof.
  pose proof (face_destroy none (destroy_request "localhost") ex_w (with_id 1) 1 ex_ok eq_refl eq_refl) as Hd.
  change (Get 1 (faces ex_w)) with (Some 8%nat) in Hd. destruct Hd as (w1 & _ & _ & Hg & _ & _ & _ & _ & _ & Hl).
  exists w1. by split.
Defined.

End MgmtExamples.
