(* ===== verification/Sha256.v ===== *)
(** * SHA-256: what the code uses of Go's crypto/sha256 and crypto/subtle

    The hash of FIPS 180-4 on byte lists, executable, and the comparison of
    digests. *)
From S2P Require Import Prelude.
Local Open Scope Z_scope.

(** The constants are the first 32 bits of the fractional parts of the cube
    roots (of the square roots) of the first primes. *)
Definition is_prime (p : Z) : bool := forallb (fun d => negb (p mod Z.of_nat d =? 0)) (seq 2 (Z.to_nat p - 2)).
Definition primes (limit : nat) : list Z := List.filter is_prime (map Z.of_nat (seq 2 limit)).
Fixpoint cube_root (bits : nat) (root n : Z) : Z :=
  match bits with
  | O => root
  | S bits =>
      let next := root + Z.shiftl 1 (Z.of_nat bits) in
      cube_root bits (if next * next * next <=? n then next else root) n
  end.

Definition K : list Z := Eval vm_compute in map (fun p => u32 (cube_root 40 0 (Z.shiftl p 96))) (primes 310).

(** The eight working variables. *)
Record digest := mkDigest { da : Z; db : Z; dc : Z; dd : Z; de : Z; df : Z; dg : Z; dh : Z }.

Definition initial : digest := Eval vm_compute in
  match map (fun p => u32 (Z.sqrt (Z.shiftl p 64))) (primes 18) with
  | [a; b; c; d; e; f; g; h] => mkDigest a b c d e f g h
  | _ => mkDigest 0 0 0 0 0 0 0 0
  end.

(** *** Word operations *)

Definition rotr (n x : Z) : Z := Z.lor (Z.shiftr x n) (u32 (Z.shiftl x (32 - n))).
Definition xor3 (x y z : Z) : Z := Z.lxor (Z.lxor x y) z.
Definition ch (x y z : Z) : Z := Z.lxor (Z.land x y) (Z.land (0xffffffff - x) z).
Definition maj (x y z : Z) : Z := xor3 (Z.land x y) (Z.land x z) (Z.land y z).
Definition Sigma0 (x : Z) : Z := xor3 (rotr 2 x) (rotr 13 x) (rotr 22 x).
Definition Sigma1 (x : Z) : Z := xor3 (rotr 6 x) (rotr 11 x) (rotr 25 x).
Definition sigma0 (x : Z) : Z := xor3 (rotr 7 x) (rotr 18 x) (Z.shiftr x 3).
Definition sigma1 (x : Z) : Z := xor3 (rotr 17 x) (rotr 19 x) (Z.shiftr x 10).

(** *** Message *)

(** The bit 1, zeros up to 56 bytes modulo 64, and the length in bits. *)
Definition pad (m : list byte) : list byte :=
  let l := Z.of_nat (length m) in
  m ++ x80 :: replicate (Z.to_nat ((55 - l) mod 64)) x00 ++ be_put 8 (8 * l).

(** The schedule of a block, the last word first. *)
Fixpoint extend (n : nat) (ws : list Z) : list Z :=
  match n with
  | O => ws
  | S n => extend n (u32 (sigma1 (nth 1 ws 0) + nth 6 ws 0 + sigma0 (nth 14 ws 0) + nth 15 ws 0) :: ws)
  end.
Fixpoint words (n : nat) (bs : list byte) : list Z :=
  match n with O => [] | S n => be_get (take 4 bs) :: words n (drop 4 bs) end.
Definition schedule (block : list byte) : list Z := rev (extend 48 (rev (words 16 block))).

Definition round (s : digest) (kw : Z * Z) : digest :=
  let '(k, w) := kw in
  let t1 := dh s + Sigma1 (de s) + ch (de s) (df s) (dg s) + k + w in
  let t2 := Sigma0 (da s) + maj (da s) (db s) (dc s) in
  mkDigest (u32 (t1 + t2)) (da s) (db s) (dc s) (u32 (dd s + t1)) (de s) (df s) (dg s).

Definition compress (s : digest) (block : list byte) : digest :=
  let r := fold_left round (combine K (schedule block)) s in
  mkDigest (u32 (da s + da r)) (u32 (db s + db r)) (u32 (dc s + dc r)) (u32 (dd s + dd r))
    (u32 (de s + de r)) (u32 (df s + df r)) (u32 (dg s + dg r)) (u32 (dh s + dh r)).

Fixpoint compress_all (n : nat) (s : digest) (bs : list byte) : digest :=
  match n with O => s | S n => compress_all n (compress s (take 64 bs)) (drop 64 bs) end.

Definition Sum256 (m : list byte) : list byte :=
  let p := pad m in
  let s := compress_all (length p / 64) initial p in
  concat (map (be_put 4) [da s; db s; dc s; dd s; de s; df s; dg s; dh s]).

(** [subtle.ConstantTimeCompare(x, y) == 1]. *)
Definition ConstantTimeCompare (x y : list byte) : bool := bool_decide (x = y).

Lemma length_Sum256 m : length (Sum256 m) = 32%nat.
Proof. reflexivity. Qed.

#[global] Opaque Sum256.

(** The padded message is a sequence of whole blocks. *)
Lemma length_pad m : Z.of_nat (length (pad m)) mod 64 = 0.
Proof.
  unfold pad. rewrite length_app. cbn [length]. rewrite length_app, length_replicate, length_be_put.
  pose proof (Z.mod_pos_bound (55 - Z.of_nat (length m)) 64 ltac:(lia)) as Hb.
  pose proof (Z.div_mod (55 - Z.of_nat (length m)) 64 ltac:(lia)).
  replace (Z.of_nat _) with ((1 - (55 - Z.of_nat (length m)) / 64) * 64) by lia.
  apply Z.mod_mul. lia.
Qed.

(** The vectors of the code's own tests. *)
Example sum_abc :
  Sum256 (gs "abcdbcdecdefdefgefghfghighijhijkijkljklmklmnlmnomnopnopq") =
  be_put 32 0x248d6a61d20638b8e5c026930c3e6039a33ce45964ff2167f6ecedd419db06c1.
Proof. vm_compute. reflexivity. Qed.
Example sum_nothing :
  Sum256 [] = be_put 32 0xe3b0c44298fc1c149afbf4c8996fb92427ae41e4649b934ca495991b7852b855.
Proof. vm_compute. reflexivity. Qed.
