(* ===== verification/NdnComponent.v ===== *)
(** * Name components: ndn/name.go (components, escaping, decoding)

    A component is a structure of one of ten Go types that share
    [BaseNameComponent] ([kind] is the Go type); a value of the interface
    [NameComponent] is nil, a typed nil pointer, or a component.  Methods of a
    nil interface or pointer panic.  Components are modelled by value; their
    cached wire is the block [Encode] built. *)
From S2P Require Import Prelude Tlv Block Text.
Local Open Scope Z_scope.

Inductive Kind :=
| KBase
| KImplicitSha256Digest
| KParametersSha256Digest
| KGeneric
| KKeyword
| KSegment
| KByteOffset
| KVersion
| KTimestamp
| KSequenceNum.

#[export] Instance Kind_eq_dec : EqDecision Kind.
Proof. solve_decision. Defined.

(** [tlvType] is a [uint16]; [rawValue] is the number of the numeric kinds. *)
Record Component := mkComp {
  kind : Kind;
  ctype : Z;
  cvalue : list byte;
  rawValue : Z;
  cwire : option Block }.

Inductive NameComponent := NilInterface | NilPointer (k : Kind) | Comp (c : Component).

Definition new_component (k : Kind) (t : Z) (v : list byte) (raw : Z) : Component := mkComp k t v raw None.

(** The TLV type of a kind. *)
Definition kind_type (k : Kind) : Z :=
  match k with
  | KBase => 0
  | KImplicitSha256Digest => T.ImplicitSha256DigestComponent
  | KParametersSha256Digest => T.ParametersSha256DigestComponent
  | KGeneric => T.GenericNameComponent
  | KKeyword => T.KeywordNameComponent
  | KSegment => T.SegmentNameComponent
  | KByteOffset => T.ByteOffsetNameComponent
  | KVersion => T.VersionNameComponent
  | KTimestamp => T.TimestampNameComponent
  | KSequenceNum => T.SequenceNumNameComponent
  end.

(** ** Constructors and setters *)

Definition NewBaseNameComponent (t : Z) (v : list byte) : Component := new_component KBase (u16 t) v 0.

(** *** ImplicitSha256DigestComponent *)

Definition NewImplicitSha256DigestComponent (v : list byte) : NameComponent :=
  if (length v =? 32)%nat then Comp (new_component KImplicitSha256Digest T.ImplicitSha256DigestComponent v 0) else NilPointer KImplicitSha256Digest.
Definition ImplicitSha256Digest_SetValue (v : list byte) (c : Component) : outcome Component :=
  if (length v =? 32)%nat then Ok (mkComp (kind c) (ctype c) v (rawValue c) None) else Err ErrOutOfRange.

(** *** ParametersSha256DigestComponent *)

Definition NewParametersSha256DigestComponent (v : list byte) : NameComponent :=
  if (length v =? 32)%nat then Comp (new_component KParametersSha256Digest T.ParametersSha256DigestComponent v 0) else NilPointer KParametersSha256Digest.
Definition ParametersSha256Digest_SetValue (v : list byte) (c : Component) : outcome Component :=
  if (length v =? 32)%nat then Ok (mkComp (kind c) (ctype c) v (rawValue c) None) else Err ErrOutOfRange.

(** *** GenericNameComponent *)

Definition NewGenericNameComponent (v : list byte) : Component := new_component KGeneric T.GenericNameComponent v 0.
Definition Generic_SetValue (v : list byte) (c : Component) : Component := mkComp (kind c) (ctype c) v (rawValue c) None.

(** *** KeywordNameComponent *)

Definition NewKeywordNameComponent (v : list byte) : Component := new_component KKeyword T.KeywordNameComponent v 0.
Definition Keyword_SetValue (v : list byte) (c : Component) : Component := mkComp (kind c) (ctype c) v (rawValue c) None.

(** *** SegmentNameComponent *)

Definition NewSegmentNameComponent (n : Z) : Component := new_component KSegment T.SegmentNameComponent (EncodeNNI n) n.
Definition DecodeSegmentNameComponent (v : list byte) : NameComponent :=
  match DecodeNNI v with
  | Ok n => Comp (new_component KSegment T.SegmentNameComponent v n)
  | _ => NilPointer KSegment
  end.
Definition Segment_SetValue (n : Z) (c : Component) : Component := mkComp (kind c) (ctype c) (EncodeNNI n) n None.

(** *** ByteOffsetNameComponent *)

Definition NewByteOffsetNameComponent (n : Z) : Component := new_component KByteOffset T.ByteOffsetNameComponent (EncodeNNI n) n.
Definition DecodeByteOffsetNameComponent (v : list byte) : NameComponent :=
  match DecodeNNI v with
  | Ok n => Comp (new_component KByteOffset T.ByteOffsetNameComponent v n)
  | _ => NilPointer KByteOffset
  end.
Definition ByteOffset_SetValue (n : Z) (c : Component) : Component := mkComp (kind c) (ctype c) (EncodeNNI n) n None.

(** *** VersionNameComponent *)

Definition NewVersionNameComponent (n : Z) : Component := new_component KVersion T.VersionNameComponent (EncodeNNI n) n.
Definition DecodeVersionNameComponent (v : list byte) : NameComponent :=
  match DecodeNNI v with
  | Ok n => Comp (new_component KVersion T.VersionNameComponent v n)
  | _ => NilPointer KVersion
  end.
Definition Version_SetValue (n : Z) (c : Component) : Component := mkComp (kind c) (ctype c) (EncodeNNI n) n None.

(** *** TimestampNameComponent *)

Definition NewTimestampNameComponent (n : Z) : Component := new_component KTimestamp T.TimestampNameComponent (EncodeNNI n) n.
Definition DecodeTimestampNameComponent (v : list byte) : NameComponent :=
  match DecodeNNI v with
  | Ok n => Comp (new_component KTimestamp T.TimestampNameComponent v n)
  | _ => NilPointer KTimestamp
  end.
Definition Timestamp_SetValue (n : Z) (c : Component) : Component := mkComp (kind c) (ctype c) (EncodeNNI n) n None.

(** *** SequenceNumNameComponent *)

Definition NewSequenceNumNameComponent (n : Z) : Component := new_component KSequenceNum T.SequenceNumNameComponent (EncodeNNI n) n.
Definition DecodeSequenceNumNameComponent (v : list byte) : NameComponent :=
  match DecodeNNI v with
  | Ok n => Comp (new_component KSequenceNum T.SequenceNumNameComponent v n)
  | _ => NilPointer KSequenceNum
  end.
Definition SequenceNum_SetValue (n : Z) (c : Component) : Component := mkComp (kind c) (ctype c) (EncodeNNI n) n None.

(** ** Escaping *)

Definition is_unescaped (b : byte) : bool :=
  let z := b2z b in
  ((65 <=? z) && (z <=? 90)) || ((97 <=? z) && (z <=? 122)) || ((48 <=? z) && (z <=? 57)) ||
  (z =? 45) || (z =? 95) || (z =? 126).

(** One character of [escapeComponent]: periods fall through to the plain case. *)
Definition escape_byte (b : byte) : list byte :=
  if (b2z b =? 46) || is_unescaped b then [b] else x25 :: hex_byte b.

Definition periods (bs : list byte) : nat := length (filter (fun b => b = x2e) bs).

Definition escapeComponent (bs : list byte) : list byte :=
  concat (map escape_byte bs) ++ (if (periods bs =? length bs)%nat then [x2e; x2e; x2e] else []).

Fixpoint unescapeComponent (s : list byte) : outcome (list byte) :=
  match s with
  | [] => Ok []
  | b :: s1 =>
      if decide (b = x25) then
        match s1 with
        | h1 :: h2 :: s2 =>
            match hex_decode [h1; h2] with
            | Some u => let* r := unescapeComponent s2 in Ok (u ++ r)
            | None => Err (ErrNew "could not decode escape sequence"%string)
            end
        | _ => Err (ErrNew "incomplete escape sequence"%string)
        end
      else let* r := unescapeComponent s1 in Ok (b :: r)
  end.

(** ** Methods *)

Definition component_String (c : Component) : list byte :=
  match kind c with
  | KBase => FormatUint (ctype c) ++ gs "=" ++ escapeComponent (cvalue c)
  | KImplicitSha256Digest => gs "sha256digest=" ++ hex_encode (cvalue c)
  | KParametersSha256Digest => gs "params-sha256=" ++ hex_encode (cvalue c)
  | KGeneric => escapeComponent (cvalue c)
  | KKeyword => escapeComponent (cvalue c)
  | KSegment => gs "seg=" ++ FormatUint (rawValue c)
  | KByteOffset => gs "off=" ++ FormatUint (rawValue c)
  | KVersion => gs "v=" ++ FormatUint (rawValue c)
  | KTimestamp => gs "t=" ++ FormatUint (rawValue c)
  | KSequenceNum => gs "seq=" ++ FormatUint (rawValue c)
  end.

(** [String] of an interface value. *)
Definition NameComponent_String (n : NameComponent) : outcome (list byte) :=
  match n with Comp c => Ok (component_String c) | _ => Panic end.

Definition component_DeepCopy (c : Component) : Component := mkComp (kind c) (ctype c) (cvalue c) (rawValue c) None.

Definition component_Equals (c other : Component) : bool :=
  (ctype c =? ctype other) && bool_decide (cvalue c = cvalue other).

(** [Encode]: the block, and the component with the block cached. *)
Definition component_Encode (c : Component) : Component * Block :=
  match cwire c with
  | Some b => (c, b)
  | None =>
      let b := Wire (NewBlock (ctype c) (cvalue c)) in
      (mkComp (kind c) (ctype c) (cvalue c) (rawValue c) (Some b), b)
  end.

(** ** Decoding *)

(** [DecodeNameComponent]: a constructor that fails returns a typed nil, which
    the final [n == nil] does not see. *)
Definition DecodeNameComponent (w : option Block) : outcome NameComponent :=
  match w with
  | None => Err ErrNonExistent
  | Some b =>
      let t := tlvType b in
      let v := value b in
      if t =? T.ImplicitSha256DigestComponent then Ok (NewImplicitSha256DigestComponent v)
      else if t =? T.ParametersSha256DigestComponent then Ok (NewParametersSha256DigestComponent v)
      else if t =? T.GenericNameComponent then Ok (Comp (NewGenericNameComponent v))
      else if t =? T.KeywordNameComponent then Ok (Comp (NewKeywordNameComponent v))
      else if t =? T.SegmentNameComponent then Ok (DecodeSegmentNameComponent v)
      else if t =? T.ByteOffsetNameComponent then Ok (DecodeByteOffsetNameComponent v)
      else if t =? T.VersionNameComponent then Ok (DecodeVersionNameComponent v)
      else if t =? T.TimestampNameComponent then Ok (DecodeTimestampNameComponent v)
      else if t =? T.SequenceNumNameComponent then Ok (DecodeSequenceNumNameComponent v)
      else if 0xFFFF <? t then Err ErrDecodeNameComponent
      else Ok (Comp (NewBaseNameComponent t v))
  end.

(** ** Parsing a component of a URI *)

(** The numeric cases of [NameFromString]. *)
Definition parse_number (mk : Z -> Component) (msg : String.string) (s : list byte) : outcome NameComponent :=
  match ParseUint 64 s with Some n => Ok (Comp (mk n)) | None => Err (ErrNew msg) end.

Definition parse_digest (mk : list byte -> NameComponent) (msg : String.string) (s : list byte) : outcome NameComponent :=
  match hex_decode s with Some d => Ok (mk d) | None => Err (ErrNew msg) end.

(** The component with a type prefix. *)
Definition parse_typed (t s : list byte) : outcome NameComponent :=
  if decide (t = gs "sha256digest") then
    parse_digest NewImplicitSha256DigestComponent "ImplicitSha256DigestComponent is not a hex string" s
  else if decide (t = gs "params-sha256") then
    parse_digest NewParametersSha256DigestComponent "ParametersSha256DigestComponent is not a hex string" s
  else if decide (t = gs "8") then Ok (Comp (NewGenericNameComponent s))
  else if decide (t = gs "seg") then parse_number NewSegmentNameComponent "SegmentNameComponent is not a decimal string" s
  else if decide (t = gs "off") then
    parse_number NewByteOffsetNameComponent "ByteOffsetNameComponent is not a decimal string" s
  else if decide (t = gs "v") then parse_number NewVersionNameComponent "VersionNameComponent is not a decimal string" s
  else if decide (t = gs "t") then parse_number NewTimestampNameComponent "TimestampNameComponent is not a decimal string" s
  else if decide (t = gs "seq") then
    parse_number NewSequenceNumNameComponent "SequenceNumNameComponent is not a decimal string" s
  else match ParseUint 16 t with
       | Some n => Ok (Comp (NewBaseNameComponent n s))
       | None => Err (ErrNew "unable to decode component type"%string)
       end.

Definition unescape_or (s : list byte) : outcome (list byte) :=
  match unescapeComponent s with
  | Err _ => Err (ErrNew "error unescaping component value"%string)
  | r => r
  end.

Definition parse_component (s : list byte) : outcome NameComponent :=
  if contains x3d s then
    match split_at x3d s with
    | [t; v] => let* u := unescape_or v in parse_typed t u
    | _ => Err (ErrNew "Name component has extraneous ="%string)
    end
  else let* u := unescape_or s in Ok (Comp (NewGenericNameComponent u)).

(** ** Lemmas: escaping *)

Definition plain_char (b : byte) : Prop := b <> x25 /\ b <> x3d /\ b <> x2f.

Lemma b2z_neq b c : b2z b <> b2z c -> b <> c.
Proof. by intros H ->. Qed.

Lemma digit_plain b : is_digit b = true -> plain_char b.
Proof. unfold is_digit. intros H. unfold plain_char. split_and!; apply b2z_neq; vm_compute (b2z x25); vm_compute (b2z x3d); vm_compute (b2z x2f); lia. Qed.

Lemma hex_plain b : is_hex b = true -> plain_char b.
Proof.
  unfold is_hex. intros [Hd|Hh]%orb_true_iff; [by apply digit_plain|].
  unfold plain_char. split_and!; apply b2z_neq; vm_compute (b2z x25); vm_compute (b2z x3d); vm_compute (b2z x2f); lia.
Qed.

Lemma unescape_plain s t : Forall plain_char s ->
  unescapeComponent (s ++ t) = (let* r := unescapeComponent t in Ok (s ++ r)).
Proof.
  induction 1 as [|b s [Hb _] Hs IH]; cbn [app unescapeComponent].
  - by destruct (unescapeComponent t).
  - rewrite decide_False by done. rewrite IH. by destruct (unescapeComponent t).
Qed.

Lemma unescape_plain_id s : Forall plain_char s -> unescapeComponent s = Ok s.
Proof. intros Hs. rewrite <- (app_nil_r s) at 1. rewrite unescape_plain by done. cbn. by rewrite app_nil_r. Qed.

Lemma escape_byte_plain b : (b2z b =? 46) || is_unescaped b = true -> plain_char b.
Proof.
  unfold is_unescaped, plain_char. intros H. split_and!; apply b2z_neq; vm_compute (b2z x25); vm_compute (b2z x3d); vm_compute (b2z x2f); lia.
Qed.

(** Unescaping undoes the escaping of characters. *)
Lemma unescape_chars bs t :
  unescapeComponent (concat (map escape_byte bs) ++ t) = (let* r := unescapeComponent t in Ok (bs ++ r)).
Proof.
  induction bs as [|b bs IH]; cbn [map concat app]; [by destruct (unescapeComponent t)|].
  unfold escape_byte at 1. destruct (_ || _) eqn:E.
  - cbn [app unescapeComponent]. rewrite decide_False by (by apply escape_byte_plain in E as [? _]).
    rewrite IH. by destruct (unescapeComponent t).
  - rewrite <- app_assoc. cbn [app hex_byte unescapeComponent]. rewrite decide_True by done.
    pose proof (hex_decode_byte b []) as Hd. rewrite app_nil_r in Hd. cbn [hex_byte fmap option_fmap option_map hex_decode] in Hd.
    cbn [hex_decode] in *. rewrite Hd. cbn [outcome_bind]. rewrite IH. by destruct (unescapeComponent t).
Qed.

(** Escaped text has no '=' and no '/'. *)
Lemma escape_separators bs : (x3d ∉ escapeComponent bs) /\ (x2f ∉ escapeComponent bs).
Proof.
  assert (Hb : forall b c, c ∈ escape_byte b -> c = x25 \/ plain_char c).
  { intros b c. unfold escape_byte. destruct (_ || _) eqn:E.
    - intros ->%list_elem_of_singleton. right. by apply escape_byte_plain.
    - destruct (hex_byte_range b). intros [->|Hc]%elem_of_cons; [by left|]. right. apply hex_plain.
      unfold hex_byte in Hc. apply elem_of_cons in Hc as [->|Hc]; [by apply hex_digit_is_hex|].
      apply list_elem_of_singleton in Hc as ->. by apply hex_digit_is_hex. }
  assert (Hall : forall c, c ∈ escapeComponent bs -> c <> x3d /\ c <> x2f).
  { intros c. unfold escapeComponent. intros [Hc|Hc]%elem_of_app.
    - apply list_elem_of_In, in_concat in Hc as (l & Hl & Hc). apply in_map_iff in Hl as (b & <- & _).
      apply list_elem_of_In, Hb in Hc as [->|(_ & ? & ?)]; done.
    - destruct (_ =? _)%nat; [|by apply elem_of_nil in Hc].
      repeat (apply elem_of_cons in Hc as [->|Hc]; [done|]). by apply elem_of_nil in Hc. }
  split; intros Hin; by apply Hall in Hin as [??].
Qed.

(** The value is not a sequence of periods (the empty one included). *)
Definition not_periods (bs : list byte) : Prop := periods bs <> length bs.

Lemma unescape_escape bs :
  unescapeComponent (escapeComponent bs) = Ok (if decide (not_periods bs) then bs else bs ++ [x2e; x2e; x2e]).
Proof.
  unfold escapeComponent. rewrite unescape_chars. unfold not_periods. case_decide as Hd.
  - rewrite (proj2 (Nat.eqb_neq _ _)) by done. cbn. by rewrite app_nil_r.
  - rewrite (proj2 (Nat.eqb_eq _ _)) by lia. done.
Qed.

(** ** Lemmas: printing and parsing a component *)

(** Components whose text can be read back: not keywords (their text is that of
    a generic component), not sequences of periods, of a shape the constructors
    give. *)
Definition printable (c : Component) : Prop :=
  match kind c with
  | KBase => 0 <= ctype c < 2 ^ 16 /\ ctype c <> 8 /\ not_periods (cvalue c) /\ rawValue c = 0
  | KGeneric => ctype c = T.GenericNameComponent /\ not_periods (cvalue c) /\ rawValue c = 0
  | KKeyword => False
  | KImplicitSha256Digest | KParametersSha256Digest =>
      ctype c = kind_type (kind c) /\ length (cvalue c) = 32%nat /\ rawValue c = 0
  | _ => ctype c = kind_type (kind c) /\ 0 <= rawValue c < 2 ^ 64 /\ cvalue c = EncodeNNI (rawValue c)
  end.

Lemma parse_component_typed t v u : x3d ∉ t -> x3d ∉ v -> unescapeComponent v = Ok u ->
  parse_component (t ++ gs "=" ++ v) = parse_typed t u.
Proof.
  intros Ht Hv Hu. unfold parse_component. change (gs "=" ++ v) with (x3d :: v).
  assert (Hc : contains x3d (t ++ x3d :: v) = true).
  { apply bool_decide_eq_true. apply elem_of_app. right. by left. }
  rewrite Hc, split_at_app, split_at_none by done. unfold unescape_or. by rewrite Hu.
Qed.

Lemma plain_no_eq s : Forall plain_char s -> x3d ∉ s.
Proof. intros Hs Hin. rewrite Forall_forall in Hs. by destruct (Hs _ Hin) as (_ & ? & _). Qed.

Lemma Forall_plain_digits s : Forall (fun b => is_digit b = true) s -> Forall plain_char s.
Proof. intros Hs. eapply Forall_impl; [exact Hs|]. intros b. apply digit_plain. Qed.

Lemma Forall_plain_hex s : Forall (fun b => is_hex b = true) s -> Forall plain_char s.
Proof. intros Hs. eapply Forall_impl; [exact Hs|]. intros b. apply hex_plain. Qed.

(** A decimal text is none of the words, and is "8" only for 8. *)
Lemma FormatUint_word v c w : 0 <= v < 2 ^ 64 -> is_digit c = false -> FormatUint v <> c :: w.
Proof.
  intros Hv Hc E. destruct (FormatUint_spec v Hv) as (_ & Hd & _). rewrite E in Hd. apply Forall_inv in Hd. congruence.
Qed.

Lemma parse_typed_base t u : 0 <= t < 2 ^ 16 -> t <> 8 ->
  parse_typed (FormatUint t) u = Ok (Comp (NewBaseNameComponent t u)).
Proof.
  intros Ht H8. unfold parse_typed.
  assert (Hw : forall w, match gs w with c :: _ => is_digit c = false | [] => True end -> FormatUint t <> gs w).
  { intros w Hw E. destruct (FormatUint_spec t ltac:(lia)) as (Hne & _). destruct (gs w) as [|c s]; [done|].
    by eapply FormatUint_word in E; [|lia|]. }
  rewrite !decide_False by (first [by apply Hw | intros E;
    destruct (FormatUint_spec t ltac:(lia)) as (_ & _ & Hp); rewrite E in Hp; vm_compute in Hp; congruence]).
  by rewrite ParseUint_FormatUint by lia.
Qed.

Lemma parse_number_spec mk msg n : 0 <= n < 2 ^ 64 -> parse_number mk msg (FormatUint n) = Ok (Comp (mk n)).
Proof. intros Hn. unfold parse_number. by rewrite ParseUint_FormatUint by lia. Qed.

Lemma parse_digest_spec mk msg d : parse_digest mk msg (hex_encode d) = Ok (mk d).
Proof. unfold parse_digest. by rewrite hex_decode_encode. Qed.

Lemma parse_component_number w n : x3d ∉ gs w -> 0 <= n < 2 ^ 64 ->
  parse_component (gs w ++ gs "=" ++ FormatUint n) = parse_typed (gs w) (FormatUint n).
Proof.
  intros Hw Hn. destruct (FormatUint_spec n Hn) as (_ & Hd & _). apply Forall_plain_digits in Hd.
  apply parse_component_typed; [done|by apply plain_no_eq|by apply unescape_plain_id].
Qed.

Lemma parse_component_digest w d : x3d ∉ gs w ->
  parse_component (gs w ++ gs "=" ++ hex_encode d) = parse_typed (gs w) (hex_encode d).
Proof.
  intros Hw. pose proof (Forall_plain_hex _ (hex_encode_is_hex d)) as Hd.
  apply parse_component_typed; [done|by apply plain_no_eq|by apply unescape_plain_id].
Qed.

Ltac no_eq_word := apply (bool_decide_unpack (x3d ∉ _)); vm_compute; exact I.
Ltac pick_word :=
  unfold parse_typed; rewrite ?decide_False by discriminate; rewrite decide_True by done.

Ltac number_case w :=
  intros (-> & Hn & ->);
  match goal with
  | |- parse_component (?p ++ FormatUint ?n) = _ =>
      change (p ++ FormatUint n) with (gs w ++ gs "=" ++ FormatUint n)
  end;
  rewrite parse_component_number by (first [done|no_eq_word]); pick_word; by rewrite parse_number_spec.

Lemma parse_component_String c : printable c -> parse_component (component_String c) = Ok (Comp (component_DeepCopy c)).
Proof.
  destruct c as [k t v n w]. unfold printable, component_String, component_DeepCopy. cbn [kind ctype cvalue rawValue].
  assert (Hesc : not_periods v -> unescapeComponent (escapeComponent v) = Ok v).
  { intros Hp. rewrite unescape_escape. by rewrite decide_True. }
  destruct (escape_separators v) as [Heq _].
  destruct k.
  - intros (Ht & H8 & Hp & ->). destruct (FormatUint_spec t ltac:(lia)) as (_ & Hd & _).
    rewrite (parse_component_typed _ _ v); [|by apply plain_no_eq, Forall_plain_digits|done|by apply Hesc].
    rewrite parse_typed_base by done. unfold NewBaseNameComponent, new_component. unfold u16. by rewrite Z.mod_small.
  - intros (-> & Hn & ->). change (gs "sha256digest=" ++ hex_encode v) with (gs "sha256digest" ++ gs "=" ++ hex_encode v).
    rewrite parse_component_digest by no_eq_word. pick_word. rewrite parse_digest_spec.
    unfold NewImplicitSha256DigestComponent. by rewrite Hn.
  - intros (-> & Hn & ->). change (gs "params-sha256=" ++ hex_encode v) with (gs "params-sha256" ++ gs "=" ++ hex_encode v).
    rewrite parse_component_digest by no_eq_word. pick_word. rewrite parse_digest_spec.
    unfold NewParametersSha256DigestComponent. by rewrite Hn.
  - intros (-> & Hn & ->). unfold parse_component, contains. rewrite bool_decide_false by done.
    unfold unescape_or. by rewrite (Hesc Hn).
  - intros [].
  - number_case "seg"%string.
  - number_case "off"%string.
  - number_case "v"%string.
  - number_case "t"%string.
  - number_case "seq"%string.
Qed.

Lemma component_String_no_slash c : printable c -> x2f ∉ component_String c.
Proof.
  assert (Hw : forall w s, x2f ∉ gs w -> Forall plain_char s -> x2f ∉ gs w ++ s).
  { intros w s Hw Hs [Hin|Hin]%elem_of_app; [done|]. rewrite Forall_forall in Hs. by destruct (Hs _ Hin) as (_ & _ & ?). }
  destruct c as [k t v n w]. unfold printable, component_String. cbn [kind ctype cvalue rawValue].
  assert (Hnum : 0 <= n < 2 ^ 64 -> Forall plain_char (FormatUint n)).
  { intros Hn. by apply Forall_plain_digits, (FormatUint_spec n). }
  destruct (escape_separators v) as [_ Hsl].
  destruct k; try (intros (_ & Hn & _); apply Hw; [apply (bool_decide_unpack (x2f ∉ _)); vm_compute; exact I|]; by apply Hnum).
  - intros (Ht & _). intros [Hin|[Hin|Hin]%elem_of_app]%elem_of_app; [| |done].
    + destruct (FormatUint_spec t ltac:(lia)) as (_ & Hd & _). apply Forall_plain_digits in Hd.
      rewrite Forall_forall in Hd. by destruct (Hd _ Hin) as (_ & _ & ?).
    + revert Hin. apply (bool_decide_unpack (x2f ∉ _)). vm_compute. exact I.
  - intros _. apply Hw; [apply (bool_decide_unpack (x2f ∉ _)); vm_compute; exact I|apply Forall_plain_hex, hex_encode_is_hex].
  - intros _. apply Hw; [apply (bool_decide_unpack (x2f ∉ _)); vm_compute; exact I|apply Forall_plain_hex, hex_encode_is_hex].
  - done.
  - done.
Qed.

Lemma component_String_nonempty c : printable c -> component_String c <> [].
Proof.
  destruct c as [k t v n w]. unfold printable, component_String. cbn [kind ctype cvalue rawValue].
  destruct k; try done.
  - intros _ E. apply app_eq_nil in E as [_ E]. discriminate.
  - intros (_ & Hp & _) E. pose proof (unescape_escape v) as Hu. rewrite E in Hu. rewrite decide_True in Hu by done.
    injection Hu as <-. by apply Hp.
Qed.

(** ** Lemmas: wire *)

(** Components [DecodeNameComponent] gives back as they were. *)
Definition decodable (c : Component) : Prop :=
  match kind c with
  | KBase => 0 <= ctype c < 2 ^ 16 /\ Forall (fun t => ctype c <> t) [1; 2; 8; 0x20; 0x32; 0x34; 0x36; 0x38; 0x3A] /\
      rawValue c = 0
  | KGeneric | KKeyword => ctype c = kind_type (kind c) /\ rawValue c = 0
  | KImplicitSha256Digest | KParametersSha256Digest =>
      ctype c = kind_type (kind c) /\ length (cvalue c) = 32%nat /\ rawValue c = 0
  | _ => ctype c = kind_type (kind c) /\ DecodeNNI (cvalue c) = Ok (rawValue c)
  end.

Lemma DecodeNameComponent_decodable c b : decodable c -> tlvType b = ctype c -> value b = cvalue c ->
  DecodeNameComponent (Some b) = Ok (Comp (component_DeepCopy c)).
Proof.
  intros Hd Ht Hv. unfold DecodeNameComponent. rewrite Ht, Hv. clear Ht Hv b.
  destruct c as [k t v n w]. unfold decodable, component_DeepCopy in *. cbn [kind ctype cvalue rawValue] in *.
  destruct k; cbn [kind_type] in Hd.
  - destruct Hd as (Ht & Hall & ->). repeat (apply Forall_cons in Hall as [? Hall]).
    unfold T.ImplicitSha256DigestComponent, T.ParametersSha256DigestComponent, T.GenericNameComponent, T.KeywordNameComponent,
      T.SegmentNameComponent, T.ByteOffsetNameComponent, T.VersionNameComponent, T.TimestampNameComponent, T.SequenceNumNameComponent.
    rewrite !(proj2 (Z.eqb_neq _ _)) by done. replace (0xFFFF <? t) with false by lia.
    unfold NewBaseNameComponent, u16. by rewrite Z.mod_small.
  - destruct Hd as (-> & Hl & ->). cbn. unfold NewImplicitSha256DigestComponent. by rewrite Hl.
  - destruct Hd as (-> & Hl & ->). cbn. unfold NewParametersSha256DigestComponent. by rewrite Hl.
  - by destruct Hd as (-> & ->).
  - by destruct Hd as (-> & ->).
  - destruct Hd as (-> & Hn). cbn. unfold DecodeSegmentNameComponent. by rewrite Hn.
  - destruct Hd as (-> & Hn). cbn. unfold DecodeByteOffsetNameComponent. by rewrite Hn.
  - destruct Hd as (-> & Hn). cbn. unfold DecodeVersionNameComponent. by rewrite Hn.
  - destruct Hd as (-> & Hn). cbn. unfold DecodeTimestampNameComponent. by rewrite Hn.
  - destruct Hd as (-> & Hn). cbn. unfold DecodeSequenceNumNameComponent. by rewrite Hn.
Qed.
