(* ===== verification/NdnName.v ===== *)
(** * Names: ndn/name.go (the type [Name])

    A name is its components, its cached wire and its cached URI.  [*tlv.Block]
    and [*Name] are modelled by value; components given to [Append], [Set] and
    [Insert] are not shared with the caller afterwards. *)
From S2P Require Import Prelude Tlv Block Text NdnComponent.
Local Open Scope Z_scope.

Record Name := mkName { components : list Component; nwire : option Block; cachedString : list byte }.

Definition NewName : Name := mkName [] None [].

(** ** Building *)

Definition Append (c : NameComponent) (n : Name) : outcome Name :=
  let* s := NameComponent_String c in
  match c with
  | Comp c => Ok (mkName (components n ++ [c]) None (cachedString n ++ x2f :: s))
  | _ => Panic
  end.

Definition Clear (n : Name) : Name :=
  match components n with [] => n | _ :: _ => mkName [] None [] end.

Definition DeepCopy (n : Name) : Name := mkName (component_DeepCopy <$> components n) None [].

Definition Erase (index : Z) (n : Name) : outcome Name :=
  if (index <? 0) || (Z.of_nat (length (components n)) <=? index) then Err ErrOutOfRange
  else Ok (mkName (take (Z.to_nat index) (components n) ++ drop (S (Z.to_nat index)) (components n)) None []).

Definition Insert (index : Z) (c : Component) (n : Name) : outcome Name :=
  if (index <? 0) || (Z.of_nat (length (components n)) <=? index) then Err ErrOutOfRange
  else Ok (mkName (take (Z.to_nat index) (components n) ++ component_DeepCopy c :: drop (Z.to_nat index) (components n)) None []).

Definition Set_ (index : Z) (c : Component) (n : Name) : outcome Name :=
  if (index <? 0) || (Z.of_nat (length (components n)) <=? index) then Err ErrOutOfRange
  else Ok (mkName (<[Z.to_nat index := c]> (components n)) None []).

(** [Prefix]: an index out of range panics; the wire is reset to a new, empty
    block, not to nil. *)
Definition Prefix (size : Z) (n : Name) : outcome Name :=
  if Z.of_nat (length (components n)) <? size then Panic
  else Ok (mkName (component_DeepCopy <$> take (Z.to_nat size) (components n)) (Some (mkBlock 0 [] [] [])) []).

(** ** Reading *)

Definition Size (n : Name) : nat := length (components n).
Definition HasWire (n : Name) : bool := bool_decide (is_Some (nwire n)).

(** [At]: negative indices count from the end. *)
Definition At (index : Z) (n : Name) : option Component :=
  let len := Z.of_nat (length (components n)) in
  if (index <? - len) || (len <=? index) then None
  else components n !! Z.to_nat (if index <? 0 then len + index else index).

Definition Find (t : Z) (n : Name) : Z * option Component :=
  match list_find (fun c => ctype c = t) (components n) with
  | Some (i, c) => (Z.of_nat i, Some c)
  | None => (-1, None)
  end.

(** The test the comparisons make at each index. *)
Definition same_component (a b : Component) : bool := (ctype a =? ctype b) && bool_decide (cvalue a = cvalue b).

Fixpoint same_at_all (l m : list Component) : bool :=
  match l, m with
  | a :: l, b :: m => same_component a b && same_at_all l m
  | _, _ => true
  end.

Definition Equals (n other : Name) : bool :=
  if (Size n =? Size other)%nat then same_at_all (components n) (components other) else false.

(** [other] may be nil. *)
Definition PrefixOf (n : Name) (other : option Name) : bool :=
  match other with
  | None => false
  | Some other => if (Size other <? Size n)%nat then false else same_at_all (components n) (components other)
  end.

(** The byte loop of [Compare] on values of one length. *)
Fixpoint compare_bytes (v w : list byte) : option Z :=
  match v, w with
  | a :: v, b :: w =>
      if b2z a <? b2z b then Some (-1) else if b2z b <? b2z a then Some 1 else compare_bytes v w
  | _, _ => None
  end.

(** A round of the loop of [Compare]: [None] goes on. *)
Definition compare_component (a b : Component) : option Z :=
  if ctype a <? ctype b then Some (-1)
  else if ctype b <? ctype a then Some 1
  else if (length (cvalue a) <? length (cvalue b))%nat then Some (-1)
  else if (length (cvalue b) <? length (cvalue a))%nat then Some 1
  else if bool_decide (cvalue a = cvalue b) then None
  else compare_bytes (cvalue a) (cvalue b).

Fixpoint compare_loop (l m : list Component) : Z :=
  match l, m with
  | a :: l, b :: m => match compare_component a b with Some r => r | None => compare_loop l m end
  | _, _ => 0
  end.

Definition Compare (n other : Name) : Z :=
  if Equals n other then 0
  else if PrefixOf n (Some other) then -1
  else if PrefixOf other (Some n) then 1
  else compare_loop (components n) (components other).

(** ** URIs *)

(** [String]: the name with its URI cached, and the URI. *)
Definition uri_of (cs : list Component) : list byte := concat (map (fun c => x2f :: component_String c) cs).
Definition Name_String (n : Name) : Name * list byte :=
  match cachedString n with
  | _ :: _ => (n, cachedString n)
  | [] =>
      match components n with
      | [] => (n, [x2f])
      | cs => (mkName cs (nwire n) (uri_of cs), uri_of cs)
      end
  end.

Fixpoint append_parsed (parts : list (list byte)) (n : Name) : outcome Name :=
  match parts with
  | [] => Ok n
  | part :: parts => let* c := parse_component part in let* n' := Append c n in append_parsed parts n'
  end.

(** [NameFromString]: the first part of the split is skipped, and the second
    one read without asking whether there is one. *)
Definition NameFromString (str : list byte) : outcome Name :=
  match str with
  | [] => Ok NewName
  | _ =>
      match drop 1 (split_at x2f str) with
      | [] => Panic
      | [] :: _ => Ok NewName
      | parts => append_parsed parts NewName
      end
  end.

(** ** Wire *)

(** [Encode]: the name with the block cached, and the block. *)
Definition Name_Encode (n : Name) : Name * Block :=
  match nwire n with
  | Some b => (n, b)
  | None =>
      let encoded := component_Encode <$> components n in
      let b := Wire (fold_left Block.Append encoded.*2 (SetType (mkBlock 0 [] [] []) T.Name)) in
      (mkName encoded.*1 (Some b) (cachedString n), b)
  end.

Fixpoint decode_components (elems : list Block) (cs : list Component) (s : list byte) : outcome (list Component * list byte) :=
  match elems with
  | [] => Ok (cs, s)
  | e :: elems =>
      let* c := DecodeNameComponent (Some e) in
      let* cstr := NameComponent_String c in
      match c with
      | Comp c => decode_components elems (cs ++ [c]) (s ++ x2f :: cstr)
      | _ => Panic
      end
  end.

(** [DecodeName]: the error of [Parse] is not looked at. *)
Definition DecodeName (b : option Block) : outcome Name :=
  match b with
  | None => Err ErrNonExistent
  | Some b =>
      let b1 := Wire b in
      if negb (tlvType b1 =? T.Name) then Err ErrUnexpected
      else
        let* b2 := match subelements b1 with
                   | [] => let* (b2, _) := Parse b1 in Ok b2
                   | _ :: _ => Ok b1
                   end in
        let* (cs, s) := decode_components (subelements b2) [] [] in
        Ok (mkName cs (Some b2) s)
  end.

(** ** Lemmas: comparison *)

(** The key of a component in the canonical order: type, length, bytes. *)
Definition key (c : Component) : Z * list byte := (ctype c, cvalue c).
Definition name_key (n : Name) : list (Z * list byte) := key <$> components n.

(** Reference order: shorter values first, then bytes; a proper prefix first. *)
Definition key_order (a b : Z * list byte) : comparison :=
  match Z.compare a.1 b.1 with
  | Eq => match Nat.compare (length a.2) (length b.2) with Eq => lex byte_order a.2 b.2 | r => r end
  | r => r
  end.
Definition names_order : list (Z * list byte) -> list (Z * list byte) -> comparison := lex key_order.
Definition order_Z (c : comparison) : Z := match c with Lt => -1 | Eq => 0 | Gt => 1 end.

Lemma same_component_key a b : same_component a b = bool_decide (key a = key b).
Proof.
  unfold same_component, key. destruct (Z.eqb_spec (ctype a) (ctype b)) as [E|E]; cbn.
  - apply bool_decide_ext. rewrite E. split; [by intros ->|by intros [=]].
  - symmetry. apply bool_decide_false. by intros [=].
Qed.

Lemma same_at_all_spec l m : (length l <= length m)%nat -> same_at_all l m = bool_decide (key <$> l `prefix_of` key <$> m).
Proof.
  revert m. induction l as [|a l IH]; intros [|b m] Hl; cbn in Hl; try lia; cbn [same_at_all fmap list_fmap].
  - symmetry. apply bool_decide_true, prefix_nil.
  - symmetry. apply bool_decide_true, prefix_nil.
  - rewrite IH, same_component_key by lia. destruct (decide (key a = key b)) as [E|E].
    + rewrite bool_decide_true by done. cbn. apply bool_decide_ext. rewrite E. split; [apply prefix_cons|apply prefix_cons_inv_2].
    + rewrite bool_decide_false by done. cbn. symmetry. apply bool_decide_false. by intros Hp%prefix_cons_inv_1.
Qed.

Lemma PrefixOf_spec n m : PrefixOf n (Some m) = bool_decide (name_key n `prefix_of` name_key m).
Proof.
  unfold PrefixOf, Size, name_key. destruct (Nat.ltb_spec (length (components m)) (length (components n))).
  - symmetry. apply bool_decide_false. intros Hp%prefix_length. rewrite !length_fmap in Hp. lia.
  - by apply same_at_all_spec.
Qed.

Lemma Equals_spec n m : Equals n m = bool_decide (name_key n = name_key m).
Proof.
  unfold Equals, Size, name_key. destruct (Nat.eqb_spec (length (components n)) (length (components m))) as [E|E].
  - rewrite same_at_all_spec by lia. apply bool_decide_ext. split; [|by intros ->].
    intros Hp. apply prefix_length_eq; [done|]. rewrite !length_fmap. lia.
  - symmetry. apply bool_decide_false. intros Hk%(f_equal length). by rewrite !length_fmap in Hk.
Qed.

Lemma key_order_eq a b : key_order a b = Eq <-> a = b.
Proof.
  unfold key_order. destruct a as [t v], b as [u w]. cbn [fst snd]. destruct (Z.compare_spec t u) as [->|?|?].
  - destruct (Nat.compare_spec (length v) (length w)) as [E|E|E].
    + rewrite (lex_eq _ byte_order_eq). split; [by intros ->|by intros [=]].
    + split; [done|]. intros [= ->]. lia.
    + split; [done|]. intros [= ->]. lia.
  - split; [done|]. intros [= -> ->]. lia.
  - split; [done|]. intros [= -> ->]. lia.
Qed.

Lemma key_order_opp a b : key_order b a = CompOpp (key_order a b).
Proof.
  unfold key_order. rewrite (Z.compare_antisym a.1 b.1), (Nat.compare_antisym (length a.2) (length b.2)).
  destruct (a.1 ?= b.1); cbn; [|done..]. destruct (Nat.compare _ _); cbn; [|done..]. apply lex_opp, byte_order_opp.
Qed.

Lemma key_order_trans a b c : key_order a b = Lt -> key_order b c = Lt -> key_order a c = Lt.
Proof.
  unfold key_order.
  destruct (Z.compare_spec a.1 b.1), (Z.compare_spec b.1 c.1), (Z.compare_spec a.1 c.1); try done; try lia.
  destruct (Nat.compare_spec (length a.2) (length b.2)), (Nat.compare_spec (length b.2) (length c.2)),
    (Nat.compare_spec (length a.2) (length c.2)); try done; try lia.
  apply (lex_trans _ byte_order_eq), byte_order_trans.
Qed.

Lemma compare_bytes_spec v w : length v = length w -> v <> w -> compare_bytes v w = Some (order_Z (lex byte_order v w)).
Proof.
  revert w. induction v as [|a v IH]; intros [|b w] Hl Hne; cbn in Hl; try done. cbn [compare_bytes lex]. unfold byte_order at 1.
  destruct (Z.compare_spec (b2z a) (b2z b)) as [E|E|E].
  - replace (b2z a <? b2z b) with false by lia. replace (b2z b <? b2z a) with false by lia. apply IH; [lia|].
    intros ->. apply Hne. f_equal. by apply b2z_inj.
  - by replace (b2z a <? b2z b) with true by lia.
  - replace (b2z a <? b2z b) with false by lia. by replace (b2z b <? b2z a) with true by lia.
Qed.

Lemma compare_component_spec a b :
  compare_component a b = match key_order (key a) (key b) with Eq => None | r => Some (order_Z r) end.
Proof.
  unfold compare_component, key_order, key. cbn [fst snd]. destruct (Z.compare_spec (ctype a) (ctype b)) as [E|E|E].
  - replace (ctype a <? ctype b) with false by lia. replace (ctype b <? ctype a) with false by lia.
    destruct (Nat.compare_spec (length (cvalue a)) (length (cvalue b))) as [F|F|F].
    + rewrite !(proj2 (Nat.ltb_ge _ _)) by lia. destruct (decide (cvalue a = cvalue b)) as [G|G].
      * rewrite bool_decide_true by done. by rewrite (proj2 (lex_eq _ byte_order_eq _ _) G).
      * rewrite bool_decide_false by done. rewrite compare_bytes_spec by done.
        destruct (lex byte_order _ _) eqn:Eo; [by apply (lex_eq _ byte_order_eq) in Eo|done|done].
    + by rewrite (proj2 (Nat.ltb_lt _ _)) by lia.
    + rewrite (proj2 (Nat.ltb_ge _ _)) by lia. by rewrite (proj2 (Nat.ltb_lt _ _)) by lia.
  - by replace (ctype a <? ctype b) with true by lia.
  - replace (ctype a <? ctype b) with false by lia. by replace (ctype b <? ctype a) with true by lia.
Qed.

(** The loop of [Compare] computes the reference order when neither name is a
    prefix of the other. *)
Lemma compare_loop_spec l m : ~ (key <$> l `prefix_of` key <$> m) -> ~ (key <$> m `prefix_of` key <$> l) ->
  compare_loop l m = order_Z (names_order (key <$> l) (key <$> m)).
Proof.
  unfold names_order. revert m. induction l as [|a l IH]; intros [|b m] H1 H2; cbn [compare_loop fmap list_fmap lex].
  - done.
  - destruct H1. apply prefix_nil.
  - destruct H2. apply prefix_nil.
  - rewrite compare_component_spec. destruct (key_order (key a) (key b)) eqn:E; [|done|done].
    apply key_order_eq in E. apply IH.
    + intros Hp. apply H1. cbn. rewrite E. by apply prefix_cons.
    + intros Hp. apply H2. cbn. rewrite E. by apply prefix_cons.
Qed.

Lemma Compare_order n m : Compare n m = order_Z (names_order (name_key n) (name_key m)).
Proof.
  unfold Compare. rewrite Equals_spec, !PrefixOf_spec. unfold names_order.
  case_bool_decide as E1; [by rewrite (proj2 (lex_eq _ key_order_eq _ _) E1)|].
  case_bool_decide as E2; [by rewrite (lex_prefix _ key_order_eq _ _ E2 E1)|].
  case_bool_decide as E3.
  - rewrite (lex_opp _ key_order_opp). by rewrite (lex_prefix _ key_order_eq _ _ E3 (not_eq_sym E1)).
  - by apply compare_loop_spec.
Qed.

(** ** Lemmas: URIs *)

Lemma append_parsed_spec cs n : Forall printable cs ->
  append_parsed (component_String <$> cs) n =
    Ok (mkName (components n ++ (component_DeepCopy <$> cs)) (match cs with [] => nwire n | _ => None end)
          (cachedString n ++ uri_of cs)).
Proof.
  intros Hf. revert n. induction Hf as [|c cs Hc Hf IH]; intros n; cbn [append_parsed fmap list_fmap].
  - unfold uri_of. cbn. rewrite !app_nil_r. by destruct n.
  - rewrite parse_component_String by done. cbn [outcome_bind Append NameComponent_String].
    rewrite IH. cbn [components nwire cachedString]. rewrite <- !app_assoc. cbn [app].
    assert (E : component_String (component_DeepCopy c) = component_String c) by (by destruct c).
    rewrite E. f_equal. f_equal. by destruct cs.
Qed.

(** Splitting a URI gives the texts of the components back. *)
Lemma split_uri cs : cs <> [] -> Forall printable cs -> drop 1 (split_at x2f (uri_of cs)) = component_String <$> cs.
Proof.
  intros Hne Hf. unfold uri_of.
  assert (E : map (fun c => x2f :: component_String c) cs = map (cons x2f) (map component_String cs)) by (by rewrite map_map).
  rewrite E, split_at_concat; [done|by destruct cs|]. apply Forall_map. eapply Forall_impl; [exact Hf|].
  apply component_String_no_slash.
Qed.

Lemma NameFromString_uri cs : cs <> [] -> Forall printable cs ->
  NameFromString (uri_of cs) = Ok (mkName (component_DeepCopy <$> cs) None (uri_of cs)).
Proof.
  intros Hne Hf. unfold NameFromString. pose proof (split_uri cs Hne Hf) as Hs.
  destruct cs as [|c cs]; [done|]. pose proof (Forall_inv Hf) as Hc.
  destruct (uri_of (c :: cs)) as [|u us] eqn:Eu; [by unfold uri_of in Eu|]. rewrite Hs.
  cbn [fmap list_fmap]. destruct (component_String c) as [|s ss] eqn:Es; [by apply component_String_nonempty in Es|].
  rewrite <- Es. change (component_String c :: (component_String <$> cs)) with (component_String <$> (c :: cs)).
  rewrite append_parsed_spec by done. rewrite Eu. done.
Qed.

(** ** Lemmas: wire *)

(** The block of a component; a cached one is that block. *)
Definition component_block (c : Component) : Block := NewBlock (ctype c) (cvalue c).
Definition cache_ok (c : Component) : Prop := cwire c = None \/ cwire c = Some (Wire (component_block c)).

Lemma component_Encode_block c : cache_ok c -> (component_Encode c).2 = Wire (component_block c).
Proof. unfold component_Encode. by intros [->| ->]. Qed.

Lemma fold_Append bs b : fold_left Block.Append bs b =
  match bs with [] => b | _ => mkBlock (tlvType b) (value b) (subelements b ++ bs) [] end.
Proof.
  revert b. induction bs as [|x bs IH]; intros b; [done|]. cbn [fold_left]. rewrite IH.
  destruct bs; cbn; [done|]. by rewrite <- app_assoc.
Qed.

(** The block of a name. *)
Definition name_block (cs : list Component) : Block := mkBlock T.Name [] (component_block <$> cs) [].

Lemma Wire_new t v : Wire (NewBlock t v) = mkBlock t v [] (enc (NewBlock t v)).
Proof. reflexivity. Qed.

Lemma coherent_blocks cs : coherent (name_block cs).
Proof.
  constructor; [by left|]. cbn. apply Forall_fmap, Forall_true. intros c. apply coherent_new.
Qed.

Lemma enc_wired (bs : list Block) : Forall coherent bs -> concat (map enc (map Wire bs)) = concat (map enc bs).
Proof.
  intros Hf. f_equal. rewrite map_map. apply map_Forall_ext. eapply Forall_impl; [exact Hf|].
  intros b Hb. by destruct (Wire_coherent b Hb) as (_ & E & _).
Qed.

Lemma Name_Encode_enc n : nwire n = None -> Forall cache_ok (components n) ->
  wire (Name_Encode n).2 = enc (name_block (components n)).
Proof.
  intros Hn Hf. unfold Name_Encode. rewrite Hn. cbn [snd].
  assert (E : (component_Encode <$> components n).*2 = map Wire (component_block <$> components n)).
  { clear Hn. induction Hf as [|c cs Hc Hf IH]; [done|]. cbn. by rewrite component_Encode_block, IH. }
  rewrite E. clear E. change (SetType (mkBlock 0 [] [] []) T.Name) with (mkBlock T.Name [] [] []). rewrite fold_Append.
  assert (Hco : Forall coherent (component_block <$> components n)).
  { apply Forall_fmap, Forall_true. intros c. apply coherent_new. }
  destruct (component_block <$> components n) as [|b bs] eqn:Eb.
  - apply fmap_nil_inv in Eb. by rewrite Eb.
  - unfold name_block. rewrite Eb.
    change (wire (Wire (mkBlock T.Name [] (map Wire (b :: bs)) [])) = enc (mkBlock T.Name [] (b :: bs) [])).
    assert (Hcw : coherent (mkBlock T.Name [] (map Wire (b :: bs)) [])).
    { constructor; [by left|]. cbn [subelements]. apply Forall_map. eapply Forall_impl; [exact Hco|].
      intros x Hx. by destruct (Wire_coherent x Hx) as (_ & _ & ? & _). }
    destruct (Wire_coherent _ Hcw) as (-> & _).
    rewrite !enc_unfold. unfold body. cbn [subelements tlvType value map].
    pose proof (enc_wired (b :: bs) Hco) as Hw. cbn [map] in Hw. by rewrite Hw.
Qed.

Lemma decode_components_spec cs acc s : Forall decodable cs ->
  decode_components (map flat (component_block <$> cs)) acc s =
    Ok (acc ++ (component_DeepCopy <$> cs), s ++ uri_of cs).
Proof.
  intros Hf. revert acc s. induction Hf as [|c cs Hc Hf IH]; intros acc s; cbn [decode_components map fmap list_fmap].
  - unfold uri_of. cbn. by rewrite !app_nil_r.
  - rewrite (DecodeNameComponent_decodable c) by done. cbn [outcome_bind NameComponent_String]. rewrite IH.
    unfold uri_of. cbn [map concat]. rewrite <- !app_assoc. cbn [app].
    assert (E : component_String (component_DeepCopy c) = component_String c) by (by destruct c). by rewrite E.
Qed.

Lemma decodable_type c : decodable c -> 0 <= ctype c < 2 ^ 32.
Proof.
  unfold decodable. destruct (kind c); cbn [kind_type]; intros H; try (destruct H as (-> & _); vm_compute; split; congruence).
  destruct H as (Ht & _). lia.
Qed.

Lemma in_concat_length (l : list Block) b : b ∈ l -> (length (enc b) <= length (concat (map enc l)))%nat.
Proof.
  induction l as [|x l IH]; [by intros ?%elem_of_nil|]. cbn. rewrite length_app. intros [->|Hb]%elem_of_cons; [lia|].
  specialize (IH Hb). lia.
Qed.

Lemma name_block_wf cs : Forall decodable cs -> Z.of_nat (length (enc (name_block cs))) < 2 ^ 64 -> wf (name_block cs).
Proof.
  intros Hf Hl. constructor; [vm_compute; split; congruence|done|]. cbn [name_block subelements].
  apply Forall_forall. intros b Hb. pose proof (in_concat_length _ _ Hb) as Hle.
  assert (Hlb : Z.of_nat (length (enc b)) < 2 ^ 64).
  { rewrite enc_unfold, !length_app in Hl. unfold body in Hl. cbn [name_block subelements] in Hl.
    destruct (component_block <$> cs) eqn:E; [by apply elem_of_nil in Hb|]. lia. }
  apply list_elem_of_fmap in Hb as (c & -> & Hc). rewrite Forall_forall in Hf.
  constructor; [exact (decodable_type c (Hf c Hc))|done|constructor].
Qed.

(** ** Properties *)

(** The canonical order.  [Compare] is the order of the component sequences
    (type, then length, then bytes; a prefix first), [Equals] and [PrefixOf]
    are equality and prefix of the sequences; so 0 means equal, exchanging the
    names negates the result, and the order is transitive. *)
Lemma name_compare_spec n m k :
  Compare n m = order_Z (names_order (name_key n) (name_key m)) /\
  Equals n m = bool_decide (name_key n = name_key m) /\
  PrefixOf n (Some m) = bool_decide (name_key n `prefix_of` name_key m) /\
  (Compare n m = 0 <-> Equals n m = true) /\
  Compare m n = - Compare n m /\
  (Compare n m <= 0 -> Compare m k <= 0 -> Compare n k <= 0).
Proof.
  rewrite !Compare_order, Equals_spec, PrefixOf_spec. unfold names_order.
  pose proof (lex_eq _ key_order_eq (name_key n) (name_key m)) as Heq.
  pose proof (lex_opp _ key_order_opp (name_key n) (name_key m)) as Hopp.
  split_and!; [done|done|done| | |].
  - rewrite bool_decide_eq_true, <- Heq. by destruct (lex _ _ _).
  - rewrite Hopp. by destruct (lex key_order (name_key n) (name_key m)).
  - pose proof (lex_trans _ key_order_eq key_order_trans (name_key n) (name_key m) (name_key k)) as Ht.
    pose proof (lex_eq _ key_order_eq (name_key m) (name_key k)) as Heq2.
    destruct (lex key_order (name_key n) (name_key m)) eqn:E1; [| |done].
    + by rewrite (proj1 Heq eq_refl).
    + destruct (lex key_order (name_key m) (name_key k)) eqn:E2; [| |done].
      * rewrite <- (proj1 Heq2 eq_refl), E1. done.
      * by rewrite Ht.
Qed.

Lemma name_compare_witness :
  let ab := mkName [NewGenericNameComponent (gs "a"); NewGenericNameComponent (gs "b")] None [] in
  let b := mkName [NewGenericNameComponent (gs "b")] None [] in
  let bb := mkName [NewGenericNameComponent (gs "bb")] None [] in
  Compare ab b = -1 /\ Compare b bb = -1 /\ Compare ab bb <= 0.
Proof.
  cbv zeta. split; [reflexivity|]. split; [reflexivity|].
  refine (proj2 (proj2 (proj2 (proj2 (proj2 (name_compare_spec _
    (mkName [NewGenericNameComponent (gs "b")] None []) _))))) _ _); vm_compute; discriminate.
Defined.

(** C40: URIs round-trip.  For a name whose components are of the shapes the
    constructors give, are not keywords (printed like generic components) and
    not sequences of periods (their escaping, three more periods, is not
    undone), parsing the URI [String] prints gives a name with the same
    components, which prints the same URI. *)
Theorem name_uri_roundtrip n :
  Forall printable (components n) -> cachedString n = [] \/ cachedString n = uri_of (components n) ->
  exists n', NameFromString (Name_String n).2 = Ok n' /\ components n' = component_DeepCopy <$> components n /\
    (Name_String n').2 = (Name_String n).2.
Proof.
  intros Hf Hc. destruct n as [cs w s]. cbn [components cachedString] in *.
  destruct (decide (cs = [])) as [->|Hne].
  - assert (s = []) as -> by (by destruct Hc). by exists NewName.
  - assert (Es : (Name_String (mkName cs w s)).2 = uri_of cs).
    { unfold Name_String. cbn [cachedString components]. destruct s as [|x s].
      - by destruct cs.
      - by destruct Hc as [|Hc]; [|cbn; rewrite Hc]. }
    rewrite Es. eexists. split; [by apply NameFromString_uri|]. split; [done|].
    unfold Name_String. cbn [cachedString components nwire]. destruct (uri_of cs) eqn:E; [|done].
    destruct cs; [done|]. by unfold uri_of in E.
Qed.

Definition ex_name : Name :=
  mkName [NewGenericNameComponent (gs "a b"); NewSegmentNameComponent 300; NewBaseNameComponent 70 (gs "x=/")] None [].

Lemma name_uri_witness :
  (Name_String ex_name).2 = gs "/a%20b/seg=300/70=x%3d%2f" /\
  exists n', NameFromString (gs "/a%20b/seg=300/70=x%3d%2f") = Ok n' /\ components n' = components ex_name.
Proof.
  split; [vm_compute; reflexivity|].
  destruct (name_uri_roundtrip ex_name) as (n' & E & Hc & _); [|by left|by exists n'].
  repeat constructor; cbn; try lia; try discriminate; intros E; vm_compute in E; discriminate.
Defined.

(** Wires round-trip.  For a name without a cached wire whose components
    [DecodeNameComponent] can tell, [DecodeBlock] on the bytes [Encode]
    produces, followed by anything, finds one block, and [DecodeName] of it a
    name with the same components and the same URI. *)
Lemma name_wire_roundtrip n rest :
  nwire n = None -> Forall cache_ok (components n) -> Forall decodable (components n) ->
  let w := wire (Name_Encode n).2 in
  Z.of_nat (length w) < 2 ^ 64 ->
  exists b n', DecodeBlock (w ++ rest) = Ok (b, Z.of_nat (length w)) /\ DecodeName (Some b) = Ok n' /\
    components n' = component_DeepCopy <$> components n /\ cachedString n' = uri_of (components n).
Proof.
  intros Hn Hc Hd w. unfold w. rewrite Name_Encode_enc by done. intros Hl. set (cs := components n) in *.
  pose proof (name_block_wf cs Hd Hl) as Hwf. exists (flat (name_block cs)).
  assert (Hw : Wire (flat (name_block cs)) = flat (name_block cs)).
  { unfold flat. destruct (enc (name_block cs)) eqn:E; [by apply enc_nonempty in E|done]. }
  assert (Hp : exists sub, Parse (flat (name_block cs)) = Ok (mkBlock T.Name (body (name_block cs)) (map flat (component_block <$> cs)) (enc (name_block cs)), sub)).
  { destruct (decide (cs = [])) as [E|E].
    - rewrite E. by eexists.
    - exists None. rewrite (Parse_flat _ Hwf); [done|]. cbn. intros F. by apply fmap_nil_inv in F. }
  destruct Hp as [err Hp]. eexists. split; [by apply DecodeBlock_enc|]. split.
  - unfold DecodeName. rewrite Hw. change (subelements (flat (name_block cs))) with (@nil Block).
    change (negb (tlvType (flat (name_block cs)) =? T.Name)) with false. cbv iota. rewrite Hp. cbn [outcome_bind subelements].
    rewrite decode_components_spec by done. cbn [outcome_bind app]. done.
  - done.
Qed.

Lemma name_wire_witness :
  exists b n', DecodeBlock (wire (Name_Encode ex_name).2 ++ [xff]) = Ok (b, 16) /\ DecodeName (Some b) = Ok n' /\
    components n' = components ex_name.
Proof.
  destruct (name_wire_roundtrip ex_name [xff]) as (b & n' & E & En & Hc & _).
  - reflexivity.
  - repeat constructor; by left.
  - repeat constructor; cbn; try lia; try discriminate; intros E; discriminate.
  - vm_compute. reflexivity.
  - exists b, n'. split; [exact E|]. split; [exact En|exact Hc].
Defined.

(** Caches that are not what they seem.  A name whose URI cache was dropped
    ([Erase]; [Insert], [Set] and [DeepCopy] drop it the same way) and that is
    then appended to prints the appended component alone, however many others
    it has; and the name [Prefix] returns encodes to an empty block of type 0,
    whatever its components. *)
Lemma name_caches_stale n index n1 c n2 size p :
  (Erase index n = Ok n1 -> components n1 <> [] -> Append (Comp c) n1 = Ok n2 ->
   components n2 = components n1 ++ [c] /\ (Name_String n2).2 = x2f :: component_String c /\
   (Name_String n2).2 <> uri_of (components n2)) /\
  (Prefix size n = Ok p -> (Name_Encode p).2 = mkBlock 0 [] [] []).
Proof.
  split.
  - unfold Erase. case_match; [done|]. intros [= <-] Hne. cbn [Append NameComponent_String outcome_bind]. intros [= <-].
    cbn [components cachedString app] in *. split; [done|]. cbn. split; [done|]. intros E.
    unfold uri_of in E. rewrite map_app, concat_app in E. cbn [map concat] in E. rewrite app_nil_r in E.
    apply (f_equal length) in E. rewrite length_app in E. destruct (take _ _ ++ _) as [|x l]; [done|]. cbn in E. lia.
  - unfold Prefix. case_match; [done|]. by intros [= <-].
Qed.

Lemma name_caches_witness :
  exists n1 n2, Erase 0 ex_name = Ok n1 /\ Append (Comp (NewGenericNameComponent (gs "z"))) n1 = Ok n2 /\
    (Name_String n2).2 = gs "/z" /\ length (components n2) = 3%nat /\
    exists p, Prefix 2 ex_name = Ok p /\ (Name_Encode p).2 = mkBlock 0 [] [] [].
Proof.
  eexists _, _. split; [reflexivity|]. split; [reflexivity|].
  destruct (name_caches_stale ex_name 0 (mkName (drop 1 (components ex_name)) None []) (NewGenericNameComponent (gs "z"))
    (mkName (drop 1 (components ex_name) ++ [NewGenericNameComponent (gs "z")]) None (gs "/z")) 2
    (mkName (take 2 (components ex_name)) (Some (mkBlock 0 [] [] [])) [])) as [H1 H2].
  split; [exact (proj1 (proj2 (H1 eq_refl ltac:(discriminate) eq_refl)))|]. split; [reflexivity|].
  eexists. split; [reflexivity|]. exact (H2 eq_refl).
Defined.

(** Inputs that panic instead of being rejected.  A nonempty text without
    '/', and a digest component whose value is not 32 bytes long, in a URI or
    on the wire: the typed nil of the failed constructor passes the check for
    nil, and printing it dereferences it. *)
Lemma name_inputs_panic (s d : list byte) b :
  (s <> [] -> x2f ∉ s -> NameFromString s = Panic) /\
  (length d <> 32%nat -> NameFromString (gs "/sha256digest=" ++ hex_encode d) = Panic) /\
  (length d <> 32%nat -> tlvType b = T.Name -> wire b <> [] -> subelements b = [NewBlock T.ImplicitSha256DigestComponent d] ->
   DecodeName (Some b) = Panic).
Proof.
  split_and!.
  - intros Hne Hs. unfold NameFromString. rewrite split_at_none by done. by destruct s.
  - intros Hd. change (gs "/sha256digest=" ++ hex_encode d) with ([] ++ x2f :: gs "sha256digest" ++ gs "=" ++ hex_encode d).
    unfold NameFromString. rewrite split_at_app by apply not_elem_of_nil.
    rewrite split_at_none.
    + cbn [drop app]. change (drop 0 ?x) with x.
      change (append_parsed [gs "sha256digest" ++ gs "=" ++ hex_encode d] NewName = Panic).
      cbn [append_parsed]. rewrite parse_component_digest by no_eq_word. pick_word. rewrite parse_digest_spec.
      unfold NewImplicitSha256DigestComponent. by rewrite (proj2 (Nat.eqb_neq _ _) Hd).
    + rewrite app_assoc. intros [Hin|Hin]%elem_of_app; [revert Hin; apply (bool_decide_unpack (x2f ∉ _)); vm_compute; exact I|].
      pose proof (Forall_plain_hex _ (hex_encode_is_hex d)) as Hp. rewrite Forall_forall in Hp.
      by destruct (Hp _ Hin) as (_ & _ & ?).
  - intros Hd Ht Hw Hs. unfold DecodeName.
    assert (Wire b = b) as -> by (destruct b as [t v sb w]; cbn in *; by destruct w).
    rewrite Ht, Hs. cbn. rewrite Hs. cbn. unfold NewImplicitSha256DigestComponent.
    by rewrite (proj2 (Nat.eqb_neq _ _) Hd).
Qed.

Lemma name_inputs_panic_witness :
  NameFromString (gs "abc") = Panic /\ NameFromString (gs "/sha256digest=00") = Panic /\
  DecodeName (Some (mkBlock 7 [] [NewBlock 1 [x00]] [x07])) = Panic.
Proof.
  destruct (name_inputs_panic (gs "abc") [x00] (mkBlock 7 [] [NewBlock 1 [x00]] [x07])) as (H1 & H2 & H3).
  split; [|split].
  - apply H1; [discriminate|]. apply (bool_decide_unpack (x2f ∉ _)). vm_compute. exact I.
  - apply H2. discriminate.
  - apply H3; [discriminate|reflexivity|discriminate|reflexivity].
Defined.
