(* ===== verification/NdnCodec.v ===== *)
(** * Encoding and decoding packets as blocks

    What the packet types of package ndn share: a decoder parses a block (if it
    has no sub-elements yet) and goes through the sub-elements with the state
    of the packet so far; an encoder appends blocks and builds the wire.  The
    lemmas give a decoder's input for an encoder's output.

    A decoder parses the sub-elements of the block it is given in place; the
    packets keep that block as their wire.  Only its bytes matter afterwards,
    so the sub-elements' own sub-elements are not written back. *)
From S2P Require Import Prelude Tlv Block Text NdnComponent NdnName.
Local Open Scope Z_scope.

Definition Millisecond : Z := 1000000.

(** [time.Duration(v) * time.Millisecond] of a [uint64], and
    [uint64(d.Milliseconds())]. *)
Definition ms_duration (v : Z) : Z := i64 (i64 v * Millisecond).
Definition duration_ms (d : Z) : Z := u64 (Z.quot d Millisecond).

(** ** Decoding *)

(** [if len(wire.Subelements()) == 0 { wire.Parse() }]: the error is not looked
    at. *)
Definition parse_if_empty (b : Block) : outcome Block :=
  match subelements b with
  | [] => let* (b, _) := Parse b in Ok b
  | _ :: _ => Ok b
  end.

(** A literal TLV type is in range. *)
Ltac type_range := solve [vm_compute; split; congruence].

(** The block of an optional field. *)
Definition opt_block {A} (f : A -> Block) (x : option A) : list Block := match x with Some x => [f x] | None => [] end.

Section decode.
Context {S : Type} (step : Block -> S -> outcome S).
Fixpoint decode_elems (elems : list Block) (s : S) : outcome S :=
  match elems with
  | [] => Ok s
  | e :: elems => let* s := step e s in decode_elems elems s
  end.

Lemma decode_elems_cons e l s : decode_elems (e :: l) s = let* s := step e s in decode_elems l s.
Proof. done. Qed.

Lemma decode_elems_app l1 l2 s :
  decode_elems (l1 ++ l2) s = let* s := decode_elems l1 s in decode_elems l2 s.
Proof.
  revert s. induction l1 as [|e l1 IH]; intros s; [done|]. cbn. destruct (step e s); cbn; [apply IH|done|done].
Qed.

(** One part of the fields after the other. *)
Lemma decode_then l1 l2 s s1 r : decode_elems (map flat l1) s = Ok s1 ->
  decode_elems (map flat l2) s1 = r -> decode_elems (map flat (l1 ++ l2)) s = r.
Proof. intros H1 H2. by rewrite map_app, decode_elems_app, H1. Qed.

(** An optional field: nothing, or one block. *)
Lemma decode_opt {A} (f : A -> Block) (x : option A) s0 (upd : option A -> S) :
  upd None = s0 -> (forall a, x = Some a -> step (flat (f a)) s0 = Ok (upd (Some a))) ->
  decode_elems (map flat (opt_block f x)) s0 = Ok (upd x).
Proof. intros H0 H. destruct x as [a|]; cbn; [by rewrite H|by rewrite H0]. Qed.
End decode.

(** The position in the order of fields after an optional one. *)
Definition past {A} (k before : Z) (x : option A) : Z := match x with Some _ => k | None => before end.

Lemma past_range {A} (x : option A) k before : before <= k -> before <= past k before x <= k.
Proof. intros. destruct x; cbn; lia. Qed.

(** ** Encoding *)

(** A block of a type with sub-elements, without a wire. *)
Definition parent (t : Z) (subs : list Block) : Block := mkBlock t [] subs [].

Lemma Append_parent t subs b : Block.Append (parent t subs) b = parent t (subs ++ [b]).
Proof. done. Qed.

Lemma flat_new t v : flat (NewBlock t v) = mkBlock t v [] (enc (NewBlock t v)).
Proof. done. Qed.

Lemma flat_eq a b : tlvType a = tlvType b -> body a = body b -> flat a = flat b.
Proof. intros Ht Hb. unfold flat. by rewrite !enc_unfold, Ht, Hb. Qed.

Lemma enc_flat b : enc (flat b) = enc b.
Proof. rewrite !enc_unfold. done. Qed.

Lemma flat_flat b : flat (flat b) = flat b.
Proof. unfold flat at 1. rewrite enc_flat. done. Qed.

Lemma body_Wire b : coherent b -> body (Wire b) = body b.
Proof.
  intros Hc. destruct b as [t v subs w]. destruct w as [|x w]; [|done].
  apply coherent_inv in Hc as [_ Hs]. cbn [subelements] in Hs. unfold body. cbn [Wire subelements value wire].
  pose proof (enc_wired subs Hs) as He. destruct subs; [done|]. cbn [map] in *. exact He.
Qed.

(** Caching the wire of a coherent block changes nothing else. *)
Lemma flat_Wire b : coherent b -> flat (Wire b) = flat b.
Proof.
  intros Hc. destruct (Wire_coherent b Hc) as (_ & _ & _ & Ht). apply flat_eq; [done|by apply body_Wire].
Qed.

Lemma coherent_Wire b : coherent b -> coherent (Wire b).
Proof. intros Hc. by destruct (Wire_coherent b Hc) as (_ & _ & ? & _). Qed.

Lemma coherent_parent t subs : Forall coherent subs -> coherent (parent t subs).
Proof. constructor; [by left|done]. Qed.

#[export] Hint Resolve coherent_Wire coherent_parent : tlv.

Lemma EncodeNNIBlock_new t v : EncodeNNIBlock t v = NewBlock t (EncodeNNI v).
Proof.
  assert (E : EncodeNNIBlock t v = SetValue (NewBlock t []) (EncodeNNI v)).
  { unfold EncodeNNIBlock, SetType. cbn [tlvType]. change (mkBlock t [] [] []) with (NewBlock t []).
    unfold EncodeNNI. destruct (Z.eqb_spec 0 t) as [<-|]; repeat case_match; reflexivity. }
  rewrite E. unfold SetValue. destruct (decide _) as [Ev|]; [|done].
  cbn in Ev. pose proof (length_EncodeNNI v) as Hl. rewrite <- Ev in Hl. pose proof (nniSize_bounds v). cbn in Hl. lia.
Qed.

Lemma DecodeNNIBlock_new t v w : 0 <= v < 2 ^ 64 -> DecodeNNIBlock (Some (mkBlock t (EncodeNNI v) [] w)) = Ok v.
Proof.
  intros Hv. unfold DecodeNNIBlock. cbn [value]. pose proof (DecodeNNI_encode v Hv) as H. unfold DecodeNNI in H.
  pose proof (nniSize_bounds v). rewrite length_EncodeNNI in *.
  replace (nniSize v <? 1)%nat with false by (symmetry; apply Nat.ltb_ge; lia).
  replace (8 <? nniSize v)%nat with false in * by (symmetry; apply Nat.ltb_ge; lia).
  revert H. goal_if E; [by apply Nat.eqb_eq in E; lia|done].
Qed.

(** A sub-element is no longer than the block. *)
Lemma length_enc_sub t subs b : b ∈ subs -> (length (enc b) <= length (enc (parent t subs)))%nat.
Proof.
  intros Hin. pose proof (in_concat_length subs b Hin) as Hle. rewrite (enc_unfold (parent t subs)), !length_app.
  unfold body. cbn [parent subelements]. destruct subs; [by apply elem_of_nil in Hin|]. lia.
Qed.

Lemma enc_sub_bound t subs b : b ∈ subs -> Z.of_nat (length (enc (parent t subs))) < 2 ^ 64 ->
  Z.of_nat (length (enc b)) < 2 ^ 64.
Proof. intros Hin Hl. pose proof (length_enc_sub t subs b Hin). lia. Qed.

(** Blocks are told apart by their flat forms only. *)
Lemma enc_of_flat b : enc b = wire (flat b).
Proof. done. Qed.

Lemma concat_enc_flat l1 l2 : map flat l1 = map flat l2 -> concat (map enc l1) = concat (map enc l2).
Proof.
  intros H. f_equal. rewrite !(map_ext enc (fun b => wire (flat b))) by done.
  rewrite <- !(map_map flat wire). by rewrite H.
Qed.

Lemma flat_parent_eq t l1 l2 : map flat l1 = map flat l2 -> flat (parent t l1) = flat (parent t l2).
Proof.
  intros H. apply flat_eq; [done|]. unfold body. cbn [parent subelements value].
  pose proof (concat_enc_flat l1 l2 H). by destruct l1, l2.
Qed.

Lemma enc_parent_eq t l1 l2 : map flat l1 = map flat l2 -> enc (parent t l1) = enc (parent t l2).
Proof. intros H. rewrite !enc_of_flat. by rewrite (flat_parent_eq t l1 l2 H). Qed.

Lemma map_flat_Wire l : Forall coherent l -> map flat (map Wire l) = map flat l.
Proof. intros H. rewrite map_map. apply map_Forall_ext. eapply Forall_impl; [exact H|]. intros b. apply flat_Wire. Qed.

(** A flat block keeps its wire. *)
Lemma Wire_flat b : Wire (flat b) = flat b.
Proof. unfold flat. destruct (enc b) eqn:E; [by apply enc_nonempty in E|done]. Qed.

(** Parsing again gives the same sub-elements. *)
Lemma Parse_again b b' e : Parse b = Ok (b', e) -> Parse b' = Ok (b', e).
Proof.
  unfold Parse. destruct (Parse_loop _ (value b) _ _) as [[subs err]| |] eqn:E; try done. cbn. intros [= <- <-].
  cbn [value tlvType wire]. by rewrite E.
Qed.

Lemma parse_if_empty_Parse b b' : subelements b = [] -> parse_if_empty b = Ok b' -> exists e, Parse b = Ok (b', e).
Proof.
  unfold parse_if_empty. intros ->. destruct (Parse b) as [[b1 e]| |]; try done. cbn. intros [= <-]. by exists e.
Qed.

Lemma Find_some t (b e : Block) : e ∈ subelements b -> tlvType e = t -> is_Some (Block.Find b t).
Proof.
  intros Hin Ht. unfold Block.Find. destruct (list_find_elem_of (fun e => tlvType e = t) _ _ Hin Ht) as [[i x] E].
  rewrite E. by eexists.
Qed.

(** A block with sub-elements and its flat form, as the decoder sees them. *)
Lemma body_map_flat t subs : body (parent t (map flat subs)) = body (parent t subs).
Proof.
  unfold body. cbn [parent subelements value]. destruct subs as [|e subs]; [done|]. cbn [map].
  rewrite map_map. f_equal. f_equal; [apply enc_flat|]. apply map_ext. intros x. apply enc_flat.
Qed.

Lemma wf_map_flat t subs :
  0 <= t < 2 ^ 32 -> Forall (fun e => 0 <= tlvType e < 2 ^ 32) subs ->
  Z.of_nat (length (enc (parent t subs))) < 2 ^ 64 -> wf (parent t (map flat subs)).
Proof.
  intros Ht Hsub Hl. assert (He : enc (parent t (map flat subs)) = enc (parent t subs)) by (by rewrite !enc_unfold, body_map_flat).
  constructor; [done|by rewrite He|]. cbn [parent subelements]. apply Forall_map, Forall_forall. intros e Hin.
  rewrite Forall_forall in Hsub. constructor; [exact (Hsub e Hin)| |constructor].
  rewrite enc_flat. exact (enc_sub_bound t subs e Hin Hl).
Qed.

Lemma parent_Parse t subs :
  0 <= t < 2 ^ 32 -> Forall (fun e => 0 <= tlvType e < 2 ^ 32) subs ->
  Z.of_nat (length (enc (parent t subs))) < 2 ^ 64 ->
  Parse (flat (parent t subs)) = Ok (mkBlock t (body (parent t subs)) (map flat subs) (enc (parent t subs)), None).
Proof.
  intros Ht Hsub Hl. pose proof (wf_map_flat t subs Ht Hsub Hl) as Hw.
  assert (He : enc (parent t (map flat subs)) = enc (parent t subs)) by (by rewrite !enc_unfold, body_map_flat).
  assert (Hf : flat (parent t (map flat subs)) = flat (parent t subs)) by (apply flat_eq; [done|apply body_map_flat]).
  rewrite <- Hf, <- He. destruct subs as [|e subs]; [reflexivity|].
  rewrite Parse_flat by (first [exact Hw|done]). cbn [parent subelements tlvType]. rewrite body_map_flat, !map_map.
  do 3 f_equal. apply map_ext. intros x. apply flat_flat.
Qed.

(** The bytes of a block with sub-elements decode to its flat form, which
    parses into the flat forms of the sub-elements. *)
Lemma parent_decodes t subs rest :
  0 <= t < 2 ^ 32 -> Forall (fun e => 0 <= tlvType e < 2 ^ 32) subs ->
  Z.of_nat (length (enc (parent t subs))) < 2 ^ 64 ->
  DecodeBlock (enc (parent t subs) ++ rest) = Ok (flat (parent t subs), Z.of_nat (length (enc (parent t subs)))) /\
  parse_if_empty (flat (parent t subs)) =
    Ok (mkBlock t (body (parent t subs)) (map flat subs) (enc (parent t subs))).
Proof.
  intros Ht Hsub Hl. pose proof (wf_map_flat t subs Ht Hsub Hl) as Hw. split.
  - assert (He : enc (parent t (map flat subs)) = enc (parent t subs)) by (by rewrite !enc_unfold, body_map_flat).
    assert (Hf : flat (parent t (map flat subs)) = flat (parent t subs)) by (apply flat_eq; [done|apply body_map_flat]).
    rewrite <- He, <- Hf. by apply DecodeBlock_enc.
  - unfold parse_if_empty. cbn [flat subelements]. by rewrite parent_Parse.
Qed.

(** The bytes of a block that [Encode] has moved into its value. *)
Lemma encoded_decodes t subs rest :
  0 <= t < 2 ^ 32 -> Forall (fun e => 0 <= tlvType e < 2 ^ 32) subs -> Forall coherent subs ->
  Z.of_nat (length (enc (parent t subs))) < 2 ^ 64 ->
  let w := wire (Wire (Encode (parent t subs))) in
  DecodeBlock (w ++ rest) = Ok (flat (parent t subs), Z.of_nat (length w)) /\
  Parse (flat (parent t subs)) = Ok (mkBlock t (body (parent t subs)) (map flat subs) (enc (parent t subs)), None).
Proof.
  intros Ht Hsub Hco Hl w. assert (Hw : w = enc (parent t subs)).
  { unfold w. pose proof (coherent_parent t subs Hco) as Hp.
    destruct (Wire_coherent _ (coherent_Encode _ Hp)) as (-> & _). by apply Encode_enc. }
  rewrite Hw. split; [by destruct (parent_decodes t subs rest Ht Hsub Hl)|by apply parent_Parse].
Qed.

(** Types of optional fields. *)
Lemma opt_block_types {A} (f : A -> Block) (x : option A) t : 0 <= t < 2 ^ 32 -> (forall a, tlvType (f a) = t) ->
  Forall (fun e => 0 <= tlvType e < 2 ^ 32) (opt_block f x).
Proof. intros Ht H. destruct x; constructor; [by rewrite H|done]. Qed.

Lemma opt_block_coherent {A} (f : A -> Block) (x : option A) : (forall a, coherent (f a)) -> Forall coherent (opt_block f x).
Proof. intros H. destruct x; [apply Forall_cons_2; [apply H|]|]; apply Forall_nil_2. Qed.

Lemma nni_type t v : tlvType (EncodeNNIBlock t v) = t.
Proof. by rewrite EncodeNNIBlock_new. Qed.

Lemma nni_coherent t v : coherent (EncodeNNIBlock t v).
Proof. rewrite EncodeNNIBlock_new. apply coherent_new. Qed.

Definition in_u64 (v : Z) : Prop := 0 <= v < 2 ^ 64.
Definition field_ok (o : option Z) : Prop := match o with Some v => in_u64 v | None => True end.

(** ** Names *)

Lemma fold_Append_parent t bs : fold_left Block.Append bs (parent t []) = parent t bs.
Proof. rewrite fold_Append. by destruct bs. Qed.

Lemma component_Encode_blocks cs : Forall cache_ok cs ->
  (component_Encode <$> cs).*2 = map Wire (component_block <$> cs).
Proof. induction 1 as [|c cs Hc Hf IH]; [done|]. cbn. by rewrite component_Encode_block, IH. Qed.

(** A name that can be sent: its caches are right and its components are told
    by the decoder. *)
Definition sendable (n : Name) : Prop :=
  nwire n = None /\ Forall cache_ok (components n) /\ Forall decodable (components n).

Lemma coherent_components cs : Forall coherent (component_block <$> cs).
Proof. apply Forall_fmap, Forall_true. intros c. apply coherent_new. Qed.

(** The block of a name, and the name that is read from it. *)
Definition name_of (n : Name) : Block := name_block (components n).
Definition read_name (n : Name) : Name :=
  mkName (component_DeepCopy <$> components n)
    (Some (mkBlock T.Name (body (name_of n)) (map flat (component_block <$> components n)) (enc (name_of n))))
    (uri_of (components n)).

Lemma Name_Encode_block n : sendable n ->
  (Name_Encode n).2 = Wire (parent T.Name (map Wire (component_block <$> components n))) /\
  coherent (Name_Encode n).2 /\ flat (Name_Encode n).2 = flat (name_of n).
Proof.
  intros (Hw & Hc & _). unfold Name_Encode. rewrite Hw. cbn [snd]. rewrite component_Encode_blocks by done.
  change (SetType (mkBlock 0 [] [] []) T.Name) with (parent T.Name []). rewrite fold_Append_parent.
  set (bs := component_block <$> components n). pose proof (coherent_components (components n)) as Hco. fold bs in Hco.
  assert (Hcw : Forall coherent (map Wire bs)).
  { apply Forall_map. eapply Forall_impl; [exact Hco|]. auto with tlv. }
  split; [done|]. split; [auto with tlv|]. rewrite flat_Wire by auto with tlv.
  assert (Hb : body (parent T.Name (map Wire bs)) = body (name_block (components n))).
  { unfold body, name_block. cbn [parent subelements value]. fold bs. pose proof (enc_wired bs Hco) as He. destruct bs; [done|]. exact He. }
  by apply flat_eq.
Qed.

Lemma DecodeName_flat n : Forall decodable (components n) -> Z.of_nat (length (enc (name_of n))) < 2 ^ 64 ->
  DecodeName (Some (flat (name_of n))) = Ok (read_name n).
Proof.
  intros Hd Hl. unfold DecodeName. rewrite Wire_flat.
  change (negb (tlvType (flat (name_of n)) =? T.Name)) with false. cbv iota.
  destruct (parent_decodes T.Name (component_block <$> components n) []) as [_ Hp]; [type_range| |done|].
  { apply Forall_fmap. eapply Forall_impl; [exact Hd|]. intros c Hc. exact (decodable_type c Hc). }
  change (parent T.Name (component_block <$> components n)) with (name_of n) in Hp. unfold parse_if_empty in Hp.
  change (subelements (flat (name_of n))) with (@nil Block) in *. cbv iota in Hp |- *. rewrite Hp.
  cbn [outcome_bind subelements]. rewrite decode_components_spec by done. done.
Qed.
