(* ===== verification/NdnMeta.v ===== *)
(** * MetaInfo, SignatureInfo, Delegation and signatures: ndn/metainfo.go,
    ndn/signature-info.go, ndn/delegation.go, ndn/security

    Encoders cache the wire in their receiver, so they return it with the
    result.  A [time.Time] is its Unix time in nanoseconds.  A byte slice that
    is tested against nil is an option; the value of a block is taken to be a
    slice that is not nil, as those of decoded blocks are. *)
From S2P Require Import Prelude Tlv Block Text Sha256 NdnComponent NdnName NdnCodec.
Local Open Scope Z_scope.

(** ** Signatures (ndn/security) *)

Definition DigestSha256Type : Z := 0.
Definition SignatureSha256WithRsaType : Z := 1.
Definition SignatureSha256WithEcdsaType : Z := 3.
Definition SignatureHmacWithSha256Type : Z := 4.
Definition SignatureNullType : Z := 200.

Definition Sign (signatureType : Z) (buffer : list byte) : outcome (list byte) :=
  if signatureType =? DigestSha256Type then Ok (Sum256 buffer)
  else if signatureType =? SignatureSha256WithRsaType then Err (ErrNew "cannot sign SignatureSha256WithRsa")
  else if signatureType =? SignatureSha256WithEcdsaType then Err (ErrNew "cannot sign SignatureSha256WithEcdsaType")
  else if signatureType =? SignatureHmacWithSha256Type then Err (ErrNew "cannot sign SignatureHmacWithSha256Type")
  else if signatureType =? SignatureNullType then Ok []
  else Err (ErrNew "unknown SignatureType").

Definition Verify (signatureType : Z) (buffer signature : list byte) : outcome bool :=
  if signatureType =? DigestSha256Type then Ok (ConstantTimeCompare (Sum256 buffer) signature)
  else if signatureType =? SignatureSha256WithRsaType then Err (ErrNew "cannot validate SignatureSha256WithRsa")
  else if signatureType =? SignatureSha256WithEcdsaType then Err (ErrNew "cannot validate SignatureSha256WithEcdsaType")
  else if signatureType =? SignatureHmacWithSha256Type then Err (ErrNew "cannot validate SignatureHmacWithSha256Type")
  else if signatureType =? SignatureNullType then Ok true
  else Err (ErrNew "unknown SignatureType").

(** ** MetaInfo *)

Record MetaInfo := mkMetaInfo {
  contentType : option Z;
  freshnessPeriod : option Z;
  finalBlockID : NameComponent;
  mwire : option Block
}.

Definition NewMetaInfo : MetaInfo := mkMetaInfo None None NilInterface None.

(** One sub-element; the number is [mostRecentElem]. *)
Definition MetaInfo_elem (elem : Block) (s : Z * MetaInfo) : outcome (Z * MetaInfo) :=
  let '(mostRecentElem, m) := s in
  if tlvType elem =? T.ContentType then
    if 1 <=? mostRecentElem then Err (ErrNew "ContentType is duplicate or out-of-order")
    else match DecodeNNIBlock (Some elem) with
         | Ok v => Ok (1, mkMetaInfo (Some v) (freshnessPeriod m) (finalBlockID m) (mwire m))
         | _ => Err (ErrNew "error decoding ContentType")
         end
  else if tlvType elem =? T.FreshnessPeriod then
    if 2 <=? mostRecentElem then Err (ErrNew "FreshnessPeriod is duplicate or out-of-order")
    else match DecodeNNIBlock (Some elem) with
         | Ok v => Ok (2, mkMetaInfo (contentType m) (Some (ms_duration v)) (finalBlockID m) (mwire m))
         | _ => Err (ErrNew "error decoding FreshnessPeriod")
         end
  else if tlvType elem =? T.FinalBlockID then
    if mostRecentElem =? 3 then Err (ErrNew "FinalBlockId is duplicate or out-or-order")
    else
      let* elem := parse_if_empty elem in
      match subelements elem with
      | [c] =>
          match DecodeNameComponent (Some c) with
          | Ok f => Ok (3, mkMetaInfo (contentType m) (freshnessPeriod m) f (mwire m))
          | _ => Err (ErrNew "error decoding FinalBlockId")
          end
      | _ => Err (ErrNew "FinalBlockId must contain exactly one name component")
      end
  else if IsCritical (tlvType elem) then Err ErrUnrecognizedCritical
  else Ok s.

Definition DecodeMetaInfo (wire : option Block) : outcome MetaInfo :=
  match wire with
  | None => Err ErrNonExistent
  | Some wire =>
      let* wire := parse_if_empty wire in
      let* (_, m) := decode_elems MetaInfo_elem (subelements wire) (0, mkMetaInfo None None NilInterface (Some wire)) in
      Ok m
  end.

Definition SetContentType (v : Z) (m : MetaInfo) : MetaInfo := mkMetaInfo (Some v) (freshnessPeriod m) (finalBlockID m) None.
Definition UnsetContentType (m : MetaInfo) : MetaInfo := mkMetaInfo None (freshnessPeriod m) (finalBlockID m) None.
Definition SetFreshnessPeriod (d : Z) (m : MetaInfo) : MetaInfo := mkMetaInfo (contentType m) (Some d) (finalBlockID m) None.
Definition UnsetFreshnessPeriod (m : MetaInfo) : MetaInfo := mkMetaInfo (contentType m) None (finalBlockID m) None.
Definition SetFinalBlockID (c : NameComponent) (m : MetaInfo) : MetaInfo := mkMetaInfo (contentType m) (freshnessPeriod m) c None.
Definition UnsetFinalBlockID (m : MetaInfo) : MetaInfo := mkMetaInfo (contentType m) (freshnessPeriod m) NilInterface None.

Definition MetaInfo_Encode (m : MetaInfo) : outcome (MetaInfo * Block) :=
  match mwire m with
  | Some b => Ok (m, b)
  | None =>
      let w := parent T.MetaInfo
        (opt_block (EncodeNNIBlock T.ContentType) (contentType m)
         ++ opt_block (fun d => EncodeNNIBlock T.FreshnessPeriod (duration_ms d)) (freshnessPeriod m)) in
      match finalBlockID m with
      | NilInterface => Ok (mkMetaInfo (contentType m) (freshnessPeriod m) NilInterface (Some (Wire w)), Wire w)
      | NilPointer _ => Panic
      | Comp c =>
          let '(c, b) := component_Encode c in
          let w := Wire (Block.Append w (NewBlock T.FinalBlockID (wire (Wire b)))) in
          Ok (mkMetaInfo (contentType m) (freshnessPeriod m) (Comp c) (Some w), w)
      end
  end.

(** Decimal text of a signed integer ([strconv.FormatInt]). *)
Definition FormatInt (z : Z) : list byte := if z <? 0 then gs "-" ++ FormatUint (- z) else FormatUint z.

(** [String]: a comma comes after the content type only. *)
Definition MetaInfo_String (m : MetaInfo) : outcome (list byte) :=
  let sep := match contentType m with Some _ => gs ", " | None => [] end in
  let* f := match finalBlockID m with
            | NilInterface => Ok []
            | f => let* s := NameComponent_String f in Ok (sep ++ gs "FinalBlockId=" ++ s)
            end in
  Ok (gs "MetaInfo(" ++ from_option (fun v => gs "ContentType=" ++ FormatUint v) [] (contentType m)
      ++ from_option (fun d => sep ++ gs "FreshnessPeriod=" ++ FormatInt (Z.quot d Millisecond) ++ gs "ms") [] (freshnessPeriod m)
      ++ f ++ gs ")").

(** ** SignatureInfo *)

Record SignatureInfo := mkSignatureInfo {
  signatureType : Z;
  keyLocator : option Block;
  snonce : option (list byte);
  stime : option Z;
  seqNum : option Z;
  isInterest : bool;
  swire : option Block
}.

Definition NewSignatureInfo (t : Z) : SignatureInfo := mkSignatureInfo t None None None None false None.
Definition NewInterestSignatureInfo (t : Z) : SignatureInfo := mkSignatureInfo t None None None None true None.

(** [time.Unix(sec, nsec)]. *)
Definition time_Unix (sec nsec : Z) : Z := sec * 1000000000 + nsec.
(** [t.Unix()], [t.UnixNano()]. *)
Definition Unix (t : Z) : Z := t / 1000000000.
Definition UnixNano (t : Z) : Z := i64 t.

Definition SignatureInfo_elem (elem : Block) (st : Z * SignatureInfo) : outcome (Z * SignatureInfo) :=
  let '(mostRecentElem, s) := st in
  let '(mkSignatureInfo ty kl no ti sq int w) := s in
  if tlvType elem =? T.SignatureType then
    if 1 <=? mostRecentElem then Err (ErrNew "SignatureType is duplicate or out-of-order")
    else match DecodeNNIBlock (Some elem) with
         | Ok v => Ok (1, mkSignatureInfo v kl no ti sq int w)
         | _ => Err (ErrNew "error decoding SignatureType")
         end
  else if tlvType elem =? T.KeyLocator then
    if 2 <=? mostRecentElem then Err (ErrNew "KeyLocator is duplicate or out-of-order")
    else Ok (2, mkSignatureInfo ty (Some elem) no ti sq int w)
  else if tlvType elem =? T.SignatureNonce then
    if 3 <=? mostRecentElem then Err (ErrNew "SignatureNonce is duplicate or out-or-order")
    else if negb int then Err (ErrNew "SignatureNonce cannot be present in SignatureInfo for Data")
    else Ok (3, mkSignatureInfo ty kl (Some (value elem)) ti sq int w)
  else if tlvType elem =? T.SignatureTime then
    if 4 <=? mostRecentElem then Err (ErrNew "SignatureTime is duplicate or out-or-order")
    else if negb int then Err (ErrNew "SignatureTime cannot be present in SignatureInfo for Data")
    else match DecodeNNIBlock (Some elem) with
         | Ok timeMS =>
             Ok (4, mkSignatureInfo ty kl no (Some (time_Unix (i64 (timeMS / 1000)) (i64 (timeMS * 1000000)))) sq int w)
         | _ => Err (ErrNew "error decoding SignatureTime")
         end
  else if tlvType elem =? T.SignatureSeqNum then
    if 5 <=? mostRecentElem then Err (ErrNew "SignatureSeqNum is duplicate or out-or-order")
    else if negb int then Err (ErrNew "SignatureSeqNum cannot be present in SignatureInfo for Data")
    else match DecodeNNIBlock (Some elem) with
         | Ok v => Ok (5, mkSignatureInfo ty kl no ti (Some v) int w)
         | _ => Err (ErrNew "error decoding SignatureSeqNum")
         end
  else if tlvType elem =? T.ValidityPeriod then Ok st
  else if IsCritical (tlvType elem) then Err ErrUnrecognizedCritical
  else Ok st.

Definition DecodeSignatureInfo (wire : option Block) : outcome SignatureInfo :=
  match wire with
  | None => Err ErrNonExistent
  | Some wire =>
      if negb (tlvType wire =? T.SignatureInfo) && negb (tlvType wire =? T.InterestSignatureInfo)
      then Err (ErrNew "block must be SignatureInfo or InterestSignatureInfo")
      else
        let int := tlvType wire =? T.InterestSignatureInfo in
        let* wire := parse_if_empty wire in
        let* (_, s) := decode_elems SignatureInfo_elem (subelements wire)
                         (0, mkSignatureInfo 0 None None None None int (Some wire)) in
        Ok s
  end.

Definition SetSignatureType (t : Z) (s : SignatureInfo) : SignatureInfo :=
  mkSignatureInfo t (keyLocator s) (snonce s) (stime s) (seqNum s) (isInterest s) None.
Definition SetKeyLocator (k : option Block) (s : SignatureInfo) : SignatureInfo :=
  mkSignatureInfo (signatureType s) k (snonce s) (stime s) (seqNum s) (isInterest s) None.
Definition UnsetKeyLocator (s : SignatureInfo) : SignatureInfo := SetKeyLocator None s.
Definition SetSignatureNonce (n : option (list byte)) (s : SignatureInfo) : SignatureInfo :=
  mkSignatureInfo (signatureType s) (keyLocator s) n (stime s) (seqNum s) (isInterest s) None.
(** [UnsetNonce]: an empty slice, which is not nil. *)
Definition UnsetSignatureNonce (s : SignatureInfo) : SignatureInfo := SetSignatureNonce (Some []) s.

(** [Time]: answers nil without a key locator, not without a time; [SetTime]
    adds the nanoseconds since 1970 to the seconds since 1970, and so does
    [Time]. *)
Definition Time (s : SignatureInfo) : outcome (option Z) :=
  match keyLocator s, stime s with
  | None, _ => Ok None
  | Some _, None => Panic
  | Some _, Some t => Ok (Some (time_Unix (Unix t) (UnixNano t)))
  end.
Definition SetTime (t : option Z) (s : SignatureInfo) : SignatureInfo :=
  mkSignatureInfo (signatureType s) (keyLocator s) (snonce s) ((fun t => time_Unix (Unix t) (UnixNano t)) <$> t)
    (seqNum s) (isInterest s) None.
Definition UnsetTime (s : SignatureInfo) : SignatureInfo := SetTime None s.
Definition SetSeqNum (n : Z) (s : SignatureInfo) : SignatureInfo :=
  mkSignatureInfo (signatureType s) (keyLocator s) (snonce s) (stime s) (Some n) (isInterest s) None.
Definition UnsetSeqNum (s : SignatureInfo) : SignatureInfo :=
  mkSignatureInfo (signatureType s) (keyLocator s) (snonce s) (stime s) None (isInterest s) None.

(** [Encode]: the block of the key locator is put into another block of that
    type. *)
Definition SignatureInfo_Encode (s : SignatureInfo) : SignatureInfo * Block :=
  match swire s with
  | Some w =>
      (mkSignatureInfo (signatureType s) (keyLocator s) (snonce s) (stime s) (seqNum s) (isInterest s) (Some (Wire w)), Wire w)
  | None =>
      let w := parent (if isInterest s then T.InterestSignatureInfo else T.SignatureInfo)
        (EncodeNNIBlock T.SignatureType (signatureType s)
         :: opt_block (fun k => NewBlock T.KeyLocator (wire (Wire k))) (keyLocator s)
         ++ (if isInterest s then
               opt_block (NewBlock T.SignatureNonce) (snonce s)
               ++ opt_block (fun t => EncodeNNIBlock T.SignatureTime (u64 (Z.quot (UnixNano t) 1000000))) (stime s)
               ++ opt_block (EncodeNNIBlock T.SignatureSeqNum) (seqNum s)
             else [])) in
      (mkSignatureInfo (signatureType s) (Wire <$> keyLocator s) (snonce s) (stime s) (seqNum s) (isInterest s) (Some (Wire w)), Wire w)
  end.

(** ** Delegation *)

Record Delegation := mkDelegation { preference : Z; delname : Name; delwire : option Block }.

Definition NewDelegation (preference : Z) (name : Name) : Delegation := mkDelegation preference name None.

Definition DecodeDelegation (wire : option Block) : outcome Delegation :=
  match wire with
  | None => Err ErrNonExistent
  | Some wire =>
      let* (wire, _) := Parse wire in
      match Block.Find wire T.Preference, Block.Find wire T.Name with
      | Some p, Some n =>
          let* preference := DecodeNNIBlock (Some p) in
          let* name := DecodeName (Some n) in
          Ok (mkDelegation preference name (Some wire))
      | _, _ => Err ErrNonExistent
      end
  end.

Definition SetPreference (p : Z) (d : Delegation) : Delegation := mkDelegation p (delname d) None.
Definition SetDelegationName (n : Name) (d : Delegation) : Delegation := mkDelegation (preference d) n None.

(** [Encode]: builds on the wire it has found to be nil. *)
Definition Delegation_Encode (d : Delegation) : outcome Block :=
  match delwire d with Some w => Ok w | None => Panic end.

Definition Delegation_String (d : Delegation) : list byte :=
  gs "Delegation(" ++ FormatUint (preference d) ++ gs ", " ++ (Name_String (delname d)).2 ++ gs ")".

(** ** Lemmas *)

(** The flat form of a block whose value is the encoding of another one. *)
Lemma flat_nested t b : flat (NewBlock t (enc b)) = flat (parent t [b]).
Proof. apply flat_eq; [done|]. unfold body. cbn. by rewrite app_nil_r. Qed.

Lemma wire_Wire b : coherent b -> wire (Wire b) = enc b.
Proof. intros Hc. by destruct (Wire_coherent b Hc) as (? & _). Qed.

Lemma wire_Wire_Wire b : coherent b -> wire (Wire (Wire b)) = enc b.
Proof.
  intros Hc. rewrite wire_Wire by auto with tlv. by destruct (Wire_coherent b Hc) as (_ & ? & _).
Qed.

(** Durations of whole milliseconds that fit survive. *)
Definition whole_ms (d : Z) : Prop := d mod Millisecond = 0 /\ 0 <= d < 2 ^ 63.

Lemma ms_roundtrip d : whole_ms d -> 0 <= duration_ms d < 2 ^ 64 /\ ms_duration (duration_ms d) = d.
Proof.
  unfold whole_ms, duration_ms, ms_duration, Millisecond. intros [Hm Hd].
  apply Z.mod_divide in Hm as [k ->]; [|lia]. rewrite Z.quot_mul by lia.
  rewrite u64_small by lia. rewrite (i64_small k) by lia. rewrite i64_small by lia. lia.
Qed.

Definition final_ok (f : NameComponent) : Prop :=
  match f with NilInterface => True | NilPointer _ => False | Comp c => cache_ok c /\ decodable c end.

(** A MetaInfo without a cached wire whose fields can be sent. *)
Record meta_ok (m : MetaInfo) : Prop := {
  meta_wire : mwire m = None;
  meta_type : forall v, contentType m = Some v -> 0 <= v < 2 ^ 64;
  meta_fresh : forall d, freshnessPeriod m = Some d -> whole_ms d;
  meta_final : final_ok (finalBlockID m) }.

Definition copy_component (f : NameComponent) : NameComponent :=
  match f with Comp c => Comp (component_DeepCopy c) | f => f end.

(** The same fields, the caches apart. *)
Definition same_meta (m m' : MetaInfo) : Prop :=
  contentType m' = contentType m /\ freshnessPeriod m' = freshnessPeriod m /\ finalBlockID m' = copy_component (finalBlockID m).

Definition final_blocks (f : NameComponent) : list Block :=
  match f with Comp c => [NewBlock T.FinalBlockID (enc (component_block c))] | _ => [] end.
Definition meta_blocks (m : MetaInfo) : list Block :=
  opt_block (fun v => NewBlock T.ContentType (EncodeNNI v)) (contentType m)
  ++ opt_block (fun d => NewBlock T.FreshnessPeriod (EncodeNNI (duration_ms d))) (freshnessPeriod m)
  ++ final_blocks (finalBlockID m).

Lemma meta_blocks_coherent m : Forall coherent (meta_blocks m).
Proof.
  unfold meta_blocks. destruct (contentType m), (freshnessPeriod m), (finalBlockID m); repeat constructor.
Qed.

Lemma meta_blocks_types m : Forall (fun e => 0 <= tlvType e < 2 ^ 32) (meta_blocks m).
Proof.
  unfold meta_blocks. destruct (contentType m), (freshnessPeriod m), (finalBlockID m); repeat constructor; done.
Qed.

Lemma MetaInfo_Encode_ok m : meta_ok m ->
  exists m', MetaInfo_Encode m = Ok (m', Wire (parent T.MetaInfo (meta_blocks m))).
Proof.
  intros [Hw _ _ Hf]. unfold MetaInfo_Encode, meta_blocks, final_ok, final_blocks in *. rewrite Hw.
  replace (opt_block (EncodeNNIBlock T.ContentType) (contentType m))
    with (opt_block (fun v => NewBlock T.ContentType (EncodeNNI v)) (contentType m))
    by (destruct (contentType m); [cbn; by rewrite EncodeNNIBlock_new|done]).
  replace (opt_block (fun d => EncodeNNIBlock _ _) (freshnessPeriod m))
    with (opt_block (fun d => NewBlock T.FreshnessPeriod (EncodeNNI (duration_ms d))) (freshnessPeriod m))
    by (destruct (freshnessPeriod m); [cbn; by rewrite EncodeNNIBlock_new|done]).
  destruct (finalBlockID m) as [|k|c]; [rewrite app_nil_r; by eexists|done|].
  destruct Hf as [Hc _]. pose proof (component_Encode_block c Hc) as E.
  destruct (component_Encode c) as [c' b]. cbn [snd] in E. subst b.
  rewrite wire_Wire_Wire by apply coherent_new. rewrite Append_parent, <- app_assoc. by eexists.
Qed.

Lemma decode_final c st m : decodable c -> st <> 3 -> Z.of_nat (length (enc (NewBlock T.FinalBlockID (enc (component_block c))))) < 2 ^ 64 ->
  MetaInfo_elem (flat (NewBlock T.FinalBlockID (enc (component_block c)))) (st, m) =
    Ok (3, mkMetaInfo (contentType m) (freshnessPeriod m) (Comp (component_DeepCopy c)) (mwire m)).
Proof.
  intros Hd Hst Hl. rewrite <- (enc_flat (NewBlock _ _)) in Hl. rewrite flat_nested in Hl |- *. rewrite enc_flat in Hl.
  destruct (parent_decodes T.FinalBlockID [component_block c] []) as [_ Hp]; [type_range| |done|].
  { constructor; [exact (decodable_type c Hd)|done]. }
  unfold MetaInfo_elem. change (tlvType (flat _)) with T.FinalBlockID.
  change (T.FinalBlockID =? T.ContentType) with false. change (T.FinalBlockID =? T.FreshnessPeriod) with false.
  change (T.FinalBlockID =? T.FinalBlockID) with true. cbv iota. rewrite (proj2 (Z.eqb_neq st 3)) by done.
  rewrite Hp. cbn [outcome_bind subelements map]. rewrite (DecodeNameComponent_decodable c) by done. done.
Qed.

(** What the decoder makes of an encoded MetaInfo. *)
Lemma DecodeMetaInfo_flat m : meta_ok m ->
  Z.of_nat (length (enc (parent T.MetaInfo (meta_blocks m)))) < 2 ^ 64 ->
  exists m', DecodeMetaInfo (Some (flat (parent T.MetaInfo (meta_blocks m)))) = Ok m' /\ same_meta m m'.
Proof.
  intros [_ Ht Hfr Hf] Hl.
  destruct (parent_decodes T.MetaInfo (meta_blocks m) []) as [_ Hp]; [type_range|apply meta_blocks_types|done|].
  unfold DecodeMetaInfo. rewrite Hp. cbn [outcome_bind subelements]. clear Hp.
  set (w := Some (mkBlock _ _ _ _)). clearbody w. unfold meta_blocks.
  rewrite !map_app, decode_elems_app.
  rewrite (decode_opt _ _ _ _ (fun x => (past 1 0 x, mkMetaInfo x None NilInterface w))); [|done|].
  2: { intros v Hv. unfold MetaInfo_elem. rewrite flat_new. rewrite DecodeNNIBlock_new by auto. done. }
  cbn [outcome_bind]. rewrite decode_elems_app.
  rewrite (decode_opt _ _ _ _ (fun x => (past 2 (past 1 0 (contentType m)) x, mkMetaInfo (contentType m) x NilInterface w))); [|done|].
  2: { intros d Hd. unfold MetaInfo_elem. rewrite flat_new. destruct (ms_roundtrip d (Hfr d Hd)) as [Hr Hm].
       rewrite DecodeNNIBlock_new by done. rewrite Hm. by destruct (contentType m). }
  cbn [outcome_bind]. unfold same_meta, final_blocks, final_ok in *.
  destruct (finalBlockID m) as [|k|c] eqn:Ef; [by eexists|done|]. cbn [map decode_elems]. rewrite decode_final.
  - by eexists.
  - apply Hf.
  - by destruct (contentType m), (freshnessPeriod m).
  - apply (enc_sub_bound T.MetaInfo (meta_blocks m)); [|done]. unfold meta_blocks. rewrite Ef, !elem_of_app.
    right; right. by apply list_elem_of_singleton.
Qed.

(** A SignatureInfo without a cached wire whose fields can be sent. *)
Record sig_ok (s : SignatureInfo) : Prop := {
  sig_wire : swire s = None;
  sig_type : 0 <= signatureType s < 2 ^ 64;
  sig_key : forall k, keyLocator s = Some k -> coherent k;
  sig_time : forall t, stime s = Some t -> whole_ms t;
  sig_seq : forall n, seqNum s = Some n -> 0 <= n < 2 ^ 64 }.

Definition sig_tlv (s : SignatureInfo) : Z := if isInterest s then T.InterestSignatureInfo else T.SignatureInfo.
Definition sig_blocks (s : SignatureInfo) : list Block :=
  opt_block (fun v => NewBlock T.SignatureType (EncodeNNI v)) (Some (signatureType s))
  ++ opt_block (fun k => NewBlock T.KeyLocator (enc k)) (keyLocator s)
  ++ if isInterest s then
       opt_block (NewBlock T.SignatureNonce) (snonce s)
       ++ opt_block (fun t => NewBlock T.SignatureTime (EncodeNNI (duration_ms t))) (stime s)
       ++ opt_block (fun n => NewBlock T.SignatureSeqNum (EncodeNNI n)) (seqNum s)
     else [].

Lemma sig_blocks_coherent s : Forall coherent (sig_blocks s).
Proof. unfold sig_blocks. destruct (keyLocator s), (isInterest s), (snonce s), (stime s), (seqNum s); repeat constructor. Qed.

Lemma sig_blocks_types s : Forall (fun e => 0 <= tlvType e < 2 ^ 32) (sig_blocks s).
Proof. unfold sig_blocks. destruct (keyLocator s), (isInterest s), (snonce s), (stime s), (seqNum s); repeat constructor; done. Qed.

Lemma SignatureInfo_Encode_ok s : sig_ok s ->
  (SignatureInfo_Encode s).2 = Wire (parent (sig_tlv s) (sig_blocks s)) /\
  signatureType (SignatureInfo_Encode s).1 = signatureType s.
Proof.
  intros [Hw _ Hk Ht _]. unfold SignatureInfo_Encode. rewrite Hw. cbn [fst snd signatureType]. split; [|done].
  unfold sig_tlv, sig_blocks. f_equal. f_equal. cbn [opt_block app]. rewrite EncodeNNIBlock_new. f_equal. f_equal.
  - destruct (keyLocator s) as [k|] eqn:E; [|done]. cbn. by rewrite wire_Wire by auto.
  - destruct (isInterest s); [|done]. f_equal. f_equal.
    + destruct (stime s) as [t|] eqn:E; [|done]. cbn. rewrite EncodeNNIBlock_new. unfold UnixNano, duration_ms.
      destruct (Ht t eq_refl) as [_ Hr]. by rewrite i64_small by lia.
    + destruct (seqNum s); [|done]. cbn. by rewrite EncodeNNIBlock_new.
Qed.

(** The time that [SetTime] stores and that the decoder reads for the time [t]:
    the seconds are counted twice. *)
Definition skewed (t : Z) : Z := t + Unix t * 1000000000.

(** What is read back: the key locator inside the block added around it, and
    the skewed time; for Data, nothing else. *)
Definition read_sig (s s' : SignatureInfo) : Prop :=
  signatureType s' = signatureType s /\ isInterest s' = isInterest s /\
  keyLocator s' = (fun k => flat (NewBlock T.KeyLocator (enc k))) <$> keyLocator s /\
  (if isInterest s then snonce s' = snonce s /\ stime s' = skewed <$> stime s /\ seqNum s' = seqNum s
   else snonce s' = None /\ stime s' = None /\ seqNum s' = None).

Lemma skewed_ms t : whole_ms t ->
  time_Unix (i64 (duration_ms t / 1000)) (i64 (duration_ms t * 1000000)) = skewed t.
Proof.
  unfold whole_ms, duration_ms, skewed, time_Unix, Unix, Millisecond. intros [Hm Ht].
  apply Z.mod_divide in Hm as [k ->]; [|lia]. rewrite Z.quot_mul by lia. rewrite u64_small by lia.
  assert (0 <= k / 1000 <= k) by (split; [apply Z.div_pos; lia|apply Z.div_le_upper_bound; lia]).
  rewrite !i64_small by lia. replace (k * 1000000 / 1000000000) with (k / 1000); [lia|].
  replace 1000000000 with (1000 * 1000000) by lia. by rewrite Z.div_mul_cancel_r by lia.
Qed.

Lemma DecodeSignatureInfo_flat s : sig_ok s ->
  Z.of_nat (length (enc (parent (sig_tlv s) (sig_blocks s)))) < 2 ^ 64 ->
  exists s', DecodeSignatureInfo (Some (flat (parent (sig_tlv s) (sig_blocks s)))) = Ok s' /\ read_sig s s'.
Proof.
  intros [_ Hty _ Hti Hsq] Hl.
  destruct (parent_decodes (sig_tlv s) (sig_blocks s) []) as [_ Hp];
    [unfold sig_tlv; destruct (isInterest s); type_range|apply sig_blocks_types|done|].
  unfold DecodeSignatureInfo. change (tlvType (flat _)) with (sig_tlv s).
  assert (Hc : negb (sig_tlv s =? T.SignatureInfo) && negb (sig_tlv s =? T.InterestSignatureInfo) = false)
    by (unfold sig_tlv; by destruct (isInterest s)).
  assert (Hi : (sig_tlv s =? T.InterestSignatureInfo) = isInterest s) by (unfold sig_tlv; by destruct (isInterest s)).
  rewrite Hc, Hi, Hp. cbn [outcome_bind subelements]. clear Hp Hc Hi Hl.
  set (w := Some (mkBlock _ _ _ _)). clearbody w. unfold sig_blocks, read_sig.
  destruct s as [ty kl no ti sq int sw]. cbn [signatureType keyLocator snonce stime seqNum isInterest] in *.
  rewrite map_app, decode_elems_app.
  rewrite (decode_opt _ _ _ _ (fun x => (past 1 0 x, mkSignatureInfo (default 0 x) None None None None int w))); [|done|].
  2: { intros v [= <-]. unfold SignatureInfo_elem. rewrite flat_new. rewrite DecodeNNIBlock_new by auto. done. }
  cbn [outcome_bind default past]. rewrite map_app, decode_elems_app.
  rewrite (decode_opt _ _ _ _ (fun x => (past 2 1 x,
    mkSignatureInfo ty ((fun k => flat (NewBlock T.KeyLocator (enc k))) <$> x) None None None int w))); [|done|].
  2: { intros k _. reflexivity. }
  cbn [outcome_bind]. destruct int; [|eexists; split; [reflexivity|done]].
  set (kl' := _ <$> kl). rewrite map_app, decode_elems_app.
  rewrite (decode_opt _ _ _ _ (fun x => (past 3 (past 2 1 kl) x, mkSignatureInfo ty kl' x None None true w))); [|done|].
  2: { intros n _. by destruct kl. }
  cbn [outcome_bind]. rewrite map_app, decode_elems_app.
  rewrite (decode_opt _ _ _ _ (fun x => (past 4 (past 3 (past 2 1 kl) no) x,
    mkSignatureInfo ty kl' no (skewed <$> x) None true w))); [|done|].
  2: { intros t Ht. unfold SignatureInfo_elem. rewrite flat_new.
       rewrite DecodeNNIBlock_new by (by destruct (ms_roundtrip t (Hti t Ht))). rewrite skewed_ms by auto. by destruct kl, no. }
  cbn [outcome_bind].
  rewrite (decode_opt _ _ _ _ (fun x => (past 5 (past 4 (past 3 (past 2 1 kl) no) ti) x,
    mkSignatureInfo ty kl' no (skewed <$> ti) x true w))); [|done|].
  2: { intros n Hn. unfold SignatureInfo_elem. rewrite flat_new. rewrite DecodeNNIBlock_new by auto. by destruct kl, no, ti. }
  eexists. split; [reflexivity|done].
Qed.
