(* ===== verification/NdnData.v ===== *)
(** * Data packets: ndn/data.go, ndn/prefix-announcement.go, ndn/link-object.go

    Encoding and signing work on the wire kept in the packet; each returns the
    packet afterwards with its result.  [computeSignatureValue] and [Encode]
    call each other, but never more than once around: the one finds the wire
    the other has set. *)
From S2P Require Import Prelude Tlv Block Text Sha256 NdnComponent NdnName NdnCodec NdnMeta.
Local Open Scope Z_scope.

Record Data := mkData {
  dname : option Name;
  metaInfo : option MetaInfo;
  content : list byte;
  sigInfo : option SignatureInfo;
  sigValue : option (list byte);
  shouldValidateSignature : bool;
  dwire : option Block;
  dpitToken : Z
}.

Definition set_dwire (w : option Block) (d : Data) : Data :=
  mkData (dname d) (metaInfo d) (content d) (sigInfo d) (sigValue d) (shouldValidateSignature d) w (dpitToken d).
Definition set_sigValue (v : option (list byte)) (d : Data) : Data :=
  mkData (dname d) (metaInfo d) (content d) (sigInfo d) v (shouldValidateSignature d) (dwire d) (dpitToken d).

Definition NewData (name : option Name) (content : list byte) : option Data :=
  match name with
  | None => None
  | Some _ => Some (mkData name (Some NewMetaInfo) content (Some (NewSignatureInfo DigestSha256Type)) None false None 0)
  end.

(** The setters drop the wire and the signature; the packet's name and so on may
    be set to nil. *)
Definition SetName (n : option Name) (d : Data) : Data :=
  mkData n (metaInfo d) (content d) (sigInfo d) (Some []) (shouldValidateSignature d) None (dpitToken d).
Definition SetMetaInfo (m : option MetaInfo) (d : Data) : Data :=
  mkData (dname d) m (content d) (sigInfo d) (Some []) (shouldValidateSignature d) None (dpitToken d).
Definition SetContent (c : list byte) (d : Data) : Data :=
  mkData (dname d) (metaInfo d) c (sigInfo d) (Some []) (shouldValidateSignature d) None (dpitToken d).
Definition SetSignatureInfo (s : option SignatureInfo) (d : Data) : Data :=
  mkData (dname d) (metaInfo d) (content d) s (Some []) (shouldValidateSignature d) None (dpitToken d).
Definition SetPitToken (t : Z) (d : Data) : Data :=
  mkData (dname d) (metaInfo d) (content d) (sigInfo d) (sigValue d) (shouldValidateSignature d) (dwire d) t.

(** ** Signing *)

(** The wires of the sub-elements before the signature value. *)
Fixpoint signed_portion (elems : list Block) : list byte :=
  match elems with
  | [] => []
  | e :: elems => if tlvType e =? T.SignatureValue then [] else wire (Wire e) ++ signed_portion elems
  end.

(** [computeSignatureValue] with the wire [w]. *)
Definition sign_wire (w : Block) (d : Data) : Data * outcome unit :=
  match Block.Find w T.SignatureInfo with
  | None => (d, Err (ErrNew "SignatureInfo missing"))
  | Some _ =>
      let w := Wire w in
      let d := set_dwire (Some w) d in
      match sigInfo d with
      | None => (d, Panic)
      | Some s =>
          match Sign (signatureType s) (signed_portion (subelements w)) with
          | Ok signature => (set_sigValue (Some signature) d, Ok ())
          | Err e => (d, Err e)
          | Panic => (d, Panic)
          end
      end
  end.

(** [Encode].  A nil name, MetaInfo or SignatureInfo panics. *)
Definition has_meta (m : MetaInfo) : bool :=
  match contentType m, freshnessPeriod m, finalBlockID m with
  | None, None, NilInterface => false
  | _, _, _ => true
  end.

Definition encode_unsigned (d : Data) : outcome (Data * Block) :=
  match dname d, metaInfo d, sigInfo d with
  | Some n, Some m, Some s =>
      let '(n, nb) := Name_Encode n in
      let* (m, mbs) := if has_meta m then let* (m, mb) := MetaInfo_Encode m in Ok (m, [mb]) else Ok (m, []) in
      let '(s, sb) := SignatureInfo_Encode s in
      Ok (mkData (Some n) (Some m) (content d) (Some s) (sigValue d) (shouldValidateSignature d) (dwire d) (dpitToken d),
          parent T.Data (nb :: mbs ++ [NewBlock T.Content (content d); sb]))
  | _, _, _ => Panic
  end.

Definition Data_Encode (d : Data) : Data * outcome Block :=
  match dwire d with
  | Some w => (set_dwire (Some (Wire w)) d, Ok (Wire w))
  | None =>
      match encode_unsigned d with
      | Ok (d1, w) =>
          match sign_wire w (set_dwire (Some w) d1) with
          | (d2, Ok _) =>
              let w := Wire (Block.Append (default w (dwire d2)) (NewBlock T.SignatureValue (default [] (sigValue d2)))) in
              (set_dwire (Some w) d2, Ok w)
          | (d2, Err _) => (set_dwire None d2, Err (ErrNew "unable to encode SignatureValue"))
          | (d2, Panic) => (d2, Panic)
          end
      | Err e => (d, Err e)
      | Panic => (d, Panic)
      end
  end.

Definition computeSignatureValue (d : Data) : Data * outcome unit :=
  match dwire d with
  | Some w => sign_wire w d
  | None =>
      match Data_Encode d with
      | (d, Ok w) => sign_wire w d
      | (d, Err e) => (d, Err e)
      | (d, Panic) => (d, Panic)
      end
  end.

(** [SignatureValue]: an empty signature is computed. *)
Definition SignatureValue (d : Data) : Data * outcome (list byte) :=
  match default [] (sigValue d) with
  | [] =>
      match computeSignatureValue d with
      | (d, Ok _) => (d, Ok (default [] (sigValue d)))
      | (d, Err _) => (d, Ok [])
      | (d, Panic) => (d, Panic)
      end
  | v => (d, Ok v)
  end.

(** [validateSignature], as [DecodeData] calls it: the wire is set.  The parse
    starts from the value of the wire again. *)
Definition validateSignature (w : Block) (d : Data) : outcome (Data * bool) :=
  match Block.Find w T.SignatureInfo with
  | None => Err (ErrNew "SignatureInfo not present")
  | Some _ =>
      let* (w, _) := Parse w in
      let w := Wire w in
      let buffer := signed_portion (subelements w) in
      match sigInfo d, SignatureValue (set_dwire (Some w) d) with
      | Some s, (d, Ok v) => let* valid := Verify (signatureType s) buffer v in Ok (d, valid)
      | Some _, (_, Err e) => Err e
      | _, _ => Panic
      end
  end.

(** ** Decoding *)

Definition Data_elem (elem : Block) (st : Z * Data) : outcome (Z * Data) :=
  let '(mostRecentElem, d) := st in
  let '(mkData na me co si sv va w pt) := d in
  if tlvType elem =? T.Name then
    if 1 <=? mostRecentElem then Err (ErrNew "Name is duplicate or out-of-order")
    else match DecodeName (Some elem) with
         | Ok n => Ok (1, mkData (Some n) me co si sv va w pt)
         | Err _ => Err (ErrNew "error decoding Name")
         | Panic => Panic
         end
  else if tlvType elem =? T.MetaInfo then
    if 2 <=? mostRecentElem then Err (ErrNew "MetaInfo is duplicate or out-of-order")
    else let* m := DecodeMetaInfo (Some elem) in Ok (2, mkData na (Some m) co si sv va w pt)
  else if tlvType elem =? T.Content then
    if 3 <=? mostRecentElem then Err (ErrNew "Content is duplicate or out-or-order")
    else Ok (3, mkData na me (value elem) si sv va w pt)
  else if tlvType elem =? T.SignatureInfo then
    if 4 <=? mostRecentElem then Err (ErrNew "SignatureInfo is duplicate or out-of-order")
    else match DecodeSignatureInfo (Some elem) with
         | Ok s => Ok (4, mkData na me co (Some s) sv va w pt)
         | Err _ => Err (ErrNew "error decoding SignatureInfo")
         | Panic => Panic
         end
  else if tlvType elem =? T.SignatureValue then
    if 5 <=? mostRecentElem then Err (ErrNew "SignatureValue is duplicate or out-of-order")
    else Ok (5, mkData na me co si (Some (value elem)) va w pt)
  else if IsCritical (tlvType elem) then Err ErrUnrecognizedCritical
  else Ok st.

Definition DecodeData (wire : option Block) (validate : bool) : outcome Data :=
  match wire with
  | None => Err ErrNonExistent
  | Some wire =>
      let* wire := parse_if_empty wire in
      let* (_, d) := decode_elems Data_elem (subelements wire) (0, mkData None None [] None None validate (Some wire) 0) in
      match dname d, sigInfo d, sigValue d with
      | Some _, Some _, Some _ =>
          if validate then
            let* (d, valid) := validateSignature wire d in
            if (valid : bool) then Ok d else Err (ErrNew "unable to validate signature in decoded Data")
          else Ok d
      | _, _, _ => Err (ErrNew "Data missing required field")
      end
  end.

Definition Data_String (d : Data) : outcome (list byte) :=
  match dname d with
  | None => Panic
  | Some n =>
      let* m := match metaInfo d with Some m => let* s := MetaInfo_String m in Ok (gs ", " ++ s) | None => Ok [] end in
      Ok (gs "Data(" ++ (Name_String n).2 ++ m ++ gs ", ContentLen=" ++ FormatInt (Z.of_nat (length (content d))) ++ gs ")")
  end.

(** ** Prefix announcements *)

(** [Valid] may sign the packet on the way ([SignatureValue]); the value that
    gives is never nil. *)
Definition has_kind (k : Kind) (ok : Component -> bool) (c : option Component) : bool :=
  match c with Some c => bool_decide (kind c = k) && ok c | None => false end.

Definition Valid (d : Data) : Data * outcome bool :=
  match dname d with
  | None => (d, Panic)
  | Some n =>
      if (Size n <? 4)%nat then (d, Ok false)
      else if negb (has_kind KKeyword (fun c => bool_decide (cvalue c = gs "PA")) (At (-3) n)) then (d, Ok false)
      else if negb (has_kind KVersion (fun _ => true) (At (-2) n)) then (d, Ok false)
      else if negb (has_kind KSegment (fun c => rawValue c =? 0) (At (-1) n)) then (d, Ok false)
      else match metaInfo d ≫= contentType with
      | None => (d, Ok false)
      | Some t =>
          if negb (t =? 5) then (d, Ok false)
          else match sigInfo d with
          | None => (d, Ok false)
          | Some _ =>
              match SignatureValue d with
              | (d, Panic) => (d, Panic)
              | (d, Err e) => (d, Err e)
              | (d, Ok _) =>
                  match Parse (NewBlock T.Content (content d)) with
                  | Ok (b, None) => (d, Ok (bool_decide (is_Some (Block.Find b T.ExpirationPeriod))))
                  | Ok (_, Some _) => (d, Ok false)
                  | Err e => (d, Err e)
                  | Panic => (d, Panic)
                  end
              end
          end
      end
  end.

Definition NewPrefixAnnouncement (d : Data) : outcome Data :=
  match Valid d with
  | (d, Ok true) => Ok d
  | (_, Ok false) => Err (ErrNew "PrefixAnnouncement name does not meet requirements")
  | (_, Err e) => Err e
  | (_, Panic) => Panic
  end.

Definition DecodePrefixAnnouncement (wire : option Block) : outcome Data :=
  let* d := DecodeData wire false in NewPrefixAnnouncement d.

Definition announcement_Prefix (d : Data) : outcome Name :=
  match dname d with Some n => Prefix (Z.of_nat (Size n) - 3) n | None => Panic end.

(** The parsed content of a valid announcement, or the answer for an invalid
    one. *)
Definition with_content {A} (d : Data) (invalid : A) (k : Block -> outcome A) : outcome A :=
  match Valid d with
  | (d, Ok true) =>
      let* (b, err) := Parse (NewBlock T.Content (content d)) in
      match err with None => k b | Some _ => Ok invalid end
  | (_, Ok false) => Ok invalid
  | (_, Err e) => Err e
  | (_, Panic) => Panic
  end.

Definition announcement_ExpirationPeriod (d : Data) : outcome Z :=
  with_content d 0 (fun b => match DecodeNNIBlock (Block.Find b T.ExpirationPeriod) with Ok v => Ok v | _ => Ok 0 end).

(** [ValidityPeriod]: two times as Unix nanoseconds.  The test of the block is
    the wrong way around: nothing is read of one that is there, and one that
    is not is dereferenced ([Parse] of a nil block). *)
Definition announcement_ValidityPeriod (d : Data) : outcome (Z * Z) :=
  with_content d (0, 0) (fun b =>
    match Block.Find b T.ValidityPeriod with
    | Some _ => Ok (0, 0)
    | None => Panic
    end).

(** ** Lemmas *)

(** A Data packet without a cached wire whose fields can be sent. *)
Record data_ok (d : Data) (n : Name) (m : MetaInfo) (s : SignatureInfo) : Prop := {
  do_wire : dwire d = None;
  do_name : dname d = Some n; do_sendable : sendable n;
  do_meta : metaInfo d = Some m; do_meta_ok : meta_ok m;
  do_sig : sigInfo d = Some s; do_sig_ok : sig_ok s; do_data : isInterest s = false }.

(** The blocks of a packet before the signature value. *)
Definition unsigned_blocks (n : Name) (m : MetaInfo) (c : list byte) (s : SignatureInfo) : list Block :=
  name_of n :: (if has_meta m then [parent T.MetaInfo (meta_blocks m)] else [])
  ++ [NewBlock T.Content c; parent T.SignatureInfo (sig_blocks s)].
Definition signed_bytes (n : Name) (m : MetaInfo) (c : list byte) (s : SignatureInfo) : list byte :=
  concat (map enc (unsigned_blocks n m c s)).
Definition data_blocks (n : Name) (m : MetaInfo) (c : list byte) (s : SignatureInfo) (sv : list byte) : list Block :=
  unsigned_blocks n m c s ++ [NewBlock T.SignatureValue sv].
Definition data_bytes n m c s sv : list byte := enc (parent T.Data (data_blocks n m c s sv)).

Lemma data_blocks_types n m c s sv : Forall (fun e => 0 <= tlvType e < 2 ^ 32) (data_blocks n m c s sv).
Proof. unfold data_blocks, unsigned_blocks. destruct (has_meta m); repeat constructor; done. Qed.

Lemma unsigned_types n m c s : Forall (fun e => tlvType e <> T.SignatureValue) (unsigned_blocks n m c s).
Proof. unfold unsigned_blocks. destruct (has_meta m); repeat constructor; done. Qed.

Lemma signed_portion_app l rest : Forall (fun e => tlvType e <> T.SignatureValue) l ->
  signed_portion (l ++ rest) = concat (map (fun e => wire (Wire e)) l) ++ signed_portion rest.
Proof.
  induction 1 as [|e l He Hl IH]; [done|]. cbn. rewrite (proj2 (Z.eqb_neq _ _) He), IH. by rewrite app_assoc.
Qed.

Lemma encode_unsigned_ok d n m s : data_ok d n m s ->
  exists n' m' s' us,
    encode_unsigned d = Ok (mkData (Some n') (Some m') (content d) (Some s') (sigValue d) (shouldValidateSignature d) (dwire d) (dpitToken d),
                            parent T.Data us) /\
    signatureType s' = signatureType s /\
    map flat us = map flat (unsigned_blocks n m (content d) s) /\ Forall coherent us.
Proof.
  intros [Hw Hn Hsn Hm Hmo Hs Hso Hint]. unfold encode_unsigned. rewrite Hn, Hm, Hs.
  destruct (Name_Encode_block n Hsn) as (_ & Hco & Hfl). destruct (Name_Encode n) as [n' nb]. cbn [snd] in Hco, Hfl.
  destruct (SignatureInfo_Encode_ok s Hso) as [Hsb Hty]. destruct (SignatureInfo_Encode s) as [s' sb]. cbn [fst snd] in Hsb, Hty.
  unfold sig_tlv in Hsb. rewrite Hint in Hsb.
  pose proof (coherent_parent T.SignatureInfo _ (sig_blocks_coherent s)) as Hcs.
  destruct (MetaInfo_Encode_ok m Hmo) as [m' Hmb].
  pose proof (coherent_parent T.MetaInfo _ (meta_blocks_coherent m)) as Hcm.
  unfold unsigned_blocks, name_of. destruct (has_meta m).
  - rewrite Hmb. cbn [outcome_bind]. eexists n', m', s', _. split; [reflexivity|]. split; [done|]. split.
    + cbn [map app]. rewrite Hfl, Hsb. by rewrite !flat_Wire by done.
    + rewrite Hsb. repeat first [apply Forall_nil_2 | apply Forall_cons_2]; auto using coherent_Wire, coherent_new.
  - cbn [outcome_bind app]. eexists n', m, s', _. split; [reflexivity|]. split; [done|]. split.
    + cbn [map app]. rewrite Hfl, Hsb. by rewrite !flat_Wire by done.
    + rewrite Hsb. repeat first [apply Forall_nil_2 | apply Forall_cons_2]; auto using coherent_Wire, coherent_new.
Qed.

Lemma concat_wires l : Forall coherent l -> concat (map (fun e => wire (Wire e)) l) = concat (map enc l).
Proof. intros H. f_equal. apply map_Forall_ext. eapply Forall_impl; [exact H|]. intros b. apply wire_Wire. Qed.

Lemma types_of_flat l1 l2 : map flat l1 = map flat l2 -> map tlvType l1 = map tlvType l2.
Proof.
  intros H. assert (E : forall l, map tlvType l = map tlvType (map flat l)) by (intros l; by rewrite map_map).
  by rewrite (E l1), (E l2), H.
Qed.

(** Encoding signs the packet and gives its bytes. *)
Lemma Data_Encode_ok d n m s sig : data_ok d n m s ->
  Sign (signatureType s) (signed_bytes n m (content d) s) = Ok sig ->
  exists d' b, Data_Encode d = (d', Ok b) /\ sigValue d' = Some sig /\ dwire d' = Some b /\
    coherent b /\ flat b = flat (parent T.Data (data_blocks n m (content d) s sig)) /\
    wire b = data_bytes n m (content d) s sig.
Proof.
  intros Hok Hsign. destruct (encode_unsigned_ok d n m s Hok) as (n' & m' & s' & us & He & Hty & Hfl & Hco).
  unfold Data_Encode. rewrite (do_wire _ _ _ _ Hok), He. unfold sign_wire.
  pose proof (types_of_flat _ _ Hfl) as Ht.
  assert (Hf : exists e, Block.Find (parent T.Data us) T.SignatureInfo = Some e).
  { assert (Hin : T.SignatureInfo ∈ map tlvType us).
    { rewrite Ht. unfold unsigned_blocks. destruct (has_meta m); cbn; set_solver. }
    apply list_elem_of_fmap in Hin as (e & Hte & Hin). exact (Find_some _ (parent T.Data us) e Hin (eq_sym Hte)). }
  destruct Hf as [e ->]. cbn [set_dwire sigInfo].
  assert (Hsub : subelements (Wire (parent T.Data us)) = map Wire us) by done.
  assert (Hnsv : Forall (fun e => tlvType e <> T.SignatureValue) us).
  { pose proof (unsigned_types n m (content d) s) as Hu.
    apply (Forall_map tlvType (fun t => t <> T.SignatureValue)). rewrite Ht. by apply Forall_map. }
  assert (Hcw : Forall coherent (map Wire us)) by (apply Forall_map; eapply Forall_impl; [exact Hco|]; auto with tlv).
  assert (Hsp : signed_portion (map Wire us) = signed_bytes n m (content d) s).
  { rewrite <- (app_nil_r (map Wire us)), signed_portion_app.
    - change (signed_portion []) with (@nil byte). rewrite app_nil_r, concat_wires by done.
      unfold signed_bytes. apply concat_enc_flat. by rewrite map_flat_Wire.
    - apply Forall_map. rewrite Forall_forall in Hnsv, Hco |- *. intros x Hx.
      destruct (Wire_coherent x (Hco x Hx)) as (_ & _ & _ & ->). by apply Hnsv. }
  rewrite Hsub, Hsp, Hty, Hsign. cbn [set_sigValue sigValue dwire set_dwire default].
  set (b := Wire _). assert (Hb : b = Wire (parent T.Data (map Wire us ++ [NewBlock T.SignatureValue sig]))) by done.
  assert (Hcb : coherent (parent T.Data (map Wire us ++ [NewBlock T.SignatureValue sig]))).
  { apply coherent_parent, Forall_app. split; [done|]. constructor; [apply coherent_new|done]. }
  assert (Hfb : map flat (map Wire us ++ [NewBlock T.SignatureValue sig]) = map flat (data_blocks n m (content d) s sig)).
  { unfold data_blocks. rewrite !map_app, map_flat_Wire by done. by rewrite Hfl. }
  eexists _, b. split; [reflexivity|]. split; [done|]. split; [done|]. rewrite Hb. split; [auto with tlv|]. split.
  - rewrite flat_Wire by done. by apply flat_parent_eq.
  - rewrite wire_Wire by done. by apply enc_parent_eq.
Qed.

(** The fields that are read back. *)
Record data_read (n : Name) (m : MetaInfo) (c : list byte) (s : SignatureInfo) (d : Data) : Prop := {
  dr_name : exists n', dname d = Some n' /\ components n' = component_DeepCopy <$> components n;
  dr_meta : if has_meta m then exists m', metaInfo d = Some m' /\ same_meta m m' else metaInfo d = None;
  dr_content : content d = c;
  dr_sig : exists s', sigInfo d = Some s' /\ read_sig s s' }.

Lemma decode_data_elems n m c s sv va w :
  sendable n -> meta_ok m -> sig_ok s -> isInterest s = false ->
  Z.of_nat (length (data_bytes n m c s sv)) < 2 ^ 64 ->
  exists d, decode_elems Data_elem (map flat (data_blocks n m c s sv)) (0, mkData None None [] None None va w 0) = Ok (5, d) /\
    data_read n m c s d /\ sigValue d = Some sv /\ dwire d = w /\ shouldValidateSignature d = va.
Proof.
  intros (_ & _ & Hd) Hm Hs Hint Hl. unfold data_bytes in Hl.
  assert (Hsub : forall b, b ∈ data_blocks n m c s sv -> Z.of_nat (length (enc b)) < 2 ^ 64).
  { intros b Hb. exact (enc_sub_bound _ _ _ Hb Hl). }
  pose proof (DecodeName_flat n Hd) as Hn. specialize (Hn ltac:(apply Hsub; left)).
  destruct (DecodeSignatureInfo_flat s Hs) as (s' & Es & Hrs).
  { apply (Hsub (parent (sig_tlv s) (sig_blocks s))). unfold data_blocks, unsigned_blocks, sig_tlv. rewrite Hint. set_solver. }
  assert (Htlv : sig_tlv s = T.SignatureInfo) by (unfold sig_tlv; by rewrite Hint). rewrite Htlv in Es.
  set (nm := read_name n) in Hn.
  assert (Hmeta : exists mo st, decode_elems Data_elem (map flat (if has_meta m then [parent T.MetaInfo (meta_blocks m)] else []))
      (1, mkData (Some nm) None [] None None va w 0) = Ok (st, mkData (Some nm) mo [] None None va w 0) /\ st < 3 /\
      if has_meta m then exists m', mo = Some m' /\ same_meta m m' else mo = None).
  { destruct (has_meta m) eqn:Em; [|by exists None, 1]. destruct (DecodeMetaInfo_flat m Hm) as (m' & Em' & Hm').
    - apply Hsub. unfold data_blocks, unsigned_blocks. rewrite Em. set_solver.
    - exists (Some m'), 2. split; [|split; [done|by exists m']]. cbn [map decode_elems]. unfold Data_elem.
      change (tlvType (flat (parent T.MetaInfo _))) with T.MetaInfo. cbn -[DecodeMetaInfo flat meta_blocks parent].
      rewrite Em'. done. }
  destruct Hmeta as (mo & st & Emo & Hst & Hmo).
  unfold data_blocks, unsigned_blocks. cbn [map app decode_elems].
  assert (E1 : Data_elem (flat (name_of n)) (0, mkData None None [] None None va w 0) = Ok (1, mkData (Some nm) None [] None None va w 0)).
  { unfold Data_elem. change (tlvType (flat (name_of n))) with T.Name. cbn -[DecodeName flat name_of]. by rewrite Hn. }
  rewrite E1. cbn [outcome_bind]. rewrite <- app_assoc, map_app, decode_elems_app, Emo. cbn [outcome_bind app map decode_elems].
  assert (E2 : Data_elem (flat (NewBlock T.Content c)) (st, mkData (Some nm) mo [] None None va w 0) =
                 Ok (3, mkData (Some nm) mo c None None va w 0)).
  { unfold Data_elem. change (tlvType (flat (NewBlock T.Content c))) with T.Content. cbn -[flat Z.leb].
    replace (3 <=? st) with false by lia. done. }
  rewrite E2. cbn [outcome_bind].
  assert (E3 : Data_elem (flat (parent T.SignatureInfo (sig_blocks s))) (3, mkData (Some nm) mo c None None va w 0) =
                 Ok (4, mkData (Some nm) mo c (Some s') None va w 0)).
  { unfold Data_elem. change (tlvType (flat (parent T.SignatureInfo (sig_blocks s)))) with T.SignatureInfo.
    cbn -[DecodeSignatureInfo flat sig_blocks parent]. by rewrite Es. }
  rewrite E3. cbn [outcome_bind]. eexists. split; [reflexivity|]. split; [|done].
  split; cbn [dname metaInfo content sigInfo]; [by eexists|done|done|by exists s'].
Qed.

Lemma signed_flat n m c s sv : signed_portion (map flat (data_blocks n m c s sv)) = signed_bytes n m c s.
Proof.
  unfold data_blocks. rewrite map_app, signed_portion_app.
  - change (signed_portion (map flat [NewBlock T.SignatureValue sv])) with (@nil byte). rewrite app_nil_r.
    unfold signed_bytes. f_equal. rewrite map_map. apply map_ext. intros b. by rewrite Wire_flat.
  - apply Forall_map. eapply Forall_impl; [apply unsigned_types|]. done.
Qed.

(** The parsed block of a packet's bytes. *)
Definition parsed n m c s sv : Block :=
  mkBlock T.Data (body (parent T.Data (data_blocks n m c s sv))) (map flat (data_blocks n m c s sv)) (data_bytes n m c s sv).

Lemma parsed_facts n m c s sv rest : Z.of_nat (length (data_bytes n m c s sv)) < 2 ^ 64 ->
  DecodeBlock (data_bytes n m c s sv ++ rest) =
    Ok (flat (parent T.Data (data_blocks n m c s sv)), Z.of_nat (length (data_bytes n m c s sv))) /\
  parse_if_empty (flat (parent T.Data (data_blocks n m c s sv))) = Ok (parsed n m c s sv) /\
  (exists e, Parse (parsed n m c s sv) = Ok (parsed n m c s sv, e)) /\
  Wire (parsed n m c s sv) = parsed n m c s sv /\
  is_Some (Block.Find (parsed n m c s sv) T.SignatureInfo).
Proof.
  intros Hl. destruct (parent_decodes T.Data (data_blocks n m c s sv) rest) as [H1 H2]; [type_range|apply data_blocks_types|done|].
  split; [done|]. split; [done|]. split; [|split].
  - destruct (parse_if_empty_Parse (flat (parent T.Data (data_blocks n m c s sv))) _ eq_refl H2) as [e He]. exists e. exact (Parse_again _ _ _ He).
  - unfold parsed, data_bytes. destruct (enc _) eqn:E; [by apply enc_nonempty in E|done].
  - apply (Find_some _ _ (flat (parent T.SignatureInfo (sig_blocks s)))); [|done].
    cbn [parsed subelements]. apply list_elem_of_fmap. exists (parent T.SignatureInfo (sig_blocks s)). split; [done|].
    unfold data_blocks, unsigned_blocks. set_solver.
Qed.

(** Validation: an empty signature value is replaced by the right one first. *)
Lemma validate_parsed n m c s sv sig d s' : Z.of_nat (length (data_bytes n m c s sv)) < 2 ^ 64 ->
  sigInfo d = Some s' -> signatureType s' = signatureType s -> sigValue d = Some sv ->
  Sign (signatureType s) (signed_bytes n m c s) = Ok sig ->
  let d1 := set_dwire (Some (parsed n m c s sv)) d in
  validateSignature (parsed n m c s sv) d =
    let '(d2, v) := match sv with [] => (set_sigValue (Some sig) d1, sig) | _ => (d1, sv) end in
    let* valid := Verify (signatureType s) (signed_bytes n m c s) v in Ok (d2, valid).
Proof.
  intros Hl Hs Hty Hsv Hsign d1. destruct (parsed_facts n m c s sv [] Hl) as (_ & _ & (e & Hp) & Hw & (x & Hf)).
  unfold validateSignature. rewrite Hf, Hp. cbn [outcome_bind]. rewrite Hw. cbn [parsed subelements]. rewrite signed_flat.
  rewrite Hs. change (mkBlock _ _ _ _) with (parsed n m c s sv). fold d1. unfold SignatureValue.
  assert (Hsv1 : default [] (sigValue d1) = sv) by (unfold d1; cbn; by rewrite Hsv). rewrite Hsv1.
  destruct sv as [|y sv]; [|by rewrite Hty].
  unfold computeSignatureValue. change (dwire d1) with (Some (parsed n m c s [])). cbv beta iota. unfold sign_wire. rewrite Hf, Hw.
  change (sigInfo (set_dwire _ d1)) with (sigInfo d). rewrite Hs, Hty. cbn [parsed subelements]. by rewrite signed_flat, Hsign.
Qed.

(** ** Properties *)

Section properties.
Variables (n : Name) (m : MetaInfo) (c : list byte) (s : SignatureInfo).
Hypotheses (Hn : sendable n) (Hm : meta_ok m) (Hs : sig_ok s) (Hd : isInterest s = false).

Lemma DecodeData_parsed sv validate : Z.of_nat (length (data_bytes n m c s sv)) < 2 ^ 64 ->
  exists d s', data_read n m c s d /\ sigInfo d = Some s' /\ signatureType s' = signatureType s /\ sigValue d = Some sv /\
    DecodeData (Some (flat (parent T.Data (data_blocks n m c s sv)))) validate =
      if validate then
        let* (d, valid) := validateSignature (parsed n m c s sv) d in
        if (valid : bool) then Ok d else Err (ErrNew "unable to validate signature in decoded Data")
      else Ok d.
Proof.
  intros Hl. destruct (parsed_facts n m c s sv [] Hl) as (_ & Hp & _).
  destruct (decode_data_elems n m c s sv validate (Some (parsed n m c s sv)) Hn Hm Hs Hd Hl) as (d & E & Hr & Hsv & _).
  destruct (dr_sig _ _ _ _ _ Hr) as (s' & Hs' & Hrs). destruct (dr_name _ _ _ _ _ Hr) as (n' & Hn' & _).
  exists d, s'. split; [done|]. split; [done|]. split; [exact (proj1 Hrs)|]. split; [done|].
  unfold DecodeData. rewrite Hp. cbn [outcome_bind parsed subelements]. change (mkBlock _ _ _ _) with (parsed n m c s sv).
  rewrite E. cbn [outcome_bind]. by rewrite Hn', Hs', Hsv.
Qed.

Lemma data_read_dwire w d : data_read n m c s d -> data_read n m c s (set_dwire w d).
Proof. by intros [? ? ? ?]. Qed.
Lemma data_read_sigValue v d : data_read n m c s d -> data_read n m c s (set_sigValue v d).
Proof. by intros [? ? ? ?]. Qed.

(** Without validation the fields are read whatever the signature. *)
Lemma DecodeData_unchecked sv : Z.of_nat (length (data_bytes n m c s sv)) < 2 ^ 64 ->
  exists d, DecodeData (Some (flat (parent T.Data (data_blocks n m c s sv)))) false = Ok d /\
    data_read n m c s d /\ sigValue d = Some sv.
Proof. intros Hl. destruct (DecodeData_parsed sv false Hl) as (d & s' & Hr & _ & _ & Hsv & E). eauto. Qed.

(** The right signature, and an empty one, pass. *)
Lemma DecodeData_signed sv sig : Z.of_nat (length (data_bytes n m c s sv)) < 2 ^ 64 ->
  Sign (signatureType s) (signed_bytes n m c s) = Ok sig -> sv = sig \/ sv = [] ->
  exists d, DecodeData (Some (flat (parent T.Data (data_blocks n m c s sv)))) true = Ok d /\
    data_read n m c s d /\ sigValue d = Some sig.
Proof.
  intros Hl Hsign Hsv. destruct (DecodeData_parsed sv true Hl) as (d & s' & Hr & Hs' & Hty & Hv & E).
  rewrite E, (validate_parsed _ _ _ _ _ sig _ s') by done.
  assert (Hver : Verify (signatureType s) (signed_bytes n m c s) sig = Ok true).
  { revert Hsign. unfold Sign, Verify, ConstantTimeCompare. goal_if E1; [intros [= <-]; by rewrite bool_decide_true|].
    by goal_ifs. }
  destruct sv as [|y sv].
  - rewrite Hver. cbn [outcome_bind]. eexists. split; [reflexivity|]. split; [by apply data_read_sigValue, data_read_dwire|done].
  - destruct Hsv as [<-|]; [|done]. rewrite Hver. cbn [outcome_bind]. eexists. split; [reflexivity|].
    split; [by apply data_read_dwire|done].
Qed.
End properties.

(** C36: A Data packet survives encoding.  For a packet whose name, MetaInfo and
    SignatureInfo can be sent (no stale caches, numbers in range, whole
    milliseconds) and whose signature type can be signed, [Encode] signs it,
    and [DecodeBlock] and [DecodeData], with validation, read back the name,
    the MetaInfo (left out when it is empty), the content and the signature
    exactly.  The SignatureInfo comes back as [read_sig] says: with the same
    type and, without a key locator, nonce, time and sequence number, as it was;
    a key locator comes back wrapped in one KeyLocator block more, and a Data
    packet's nonce, time and sequence number are not sent. *)
Theorem data_roundtrip d n m s sig rest :
  data_ok d n m s -> Sign (signatureType s) (signed_bytes n m (content d) s) = Ok sig ->
  Z.of_nat (length (data_bytes n m (content d) s sig)) < 2 ^ 64 ->
  exists d1 b b' d2, Data_Encode d = (d1, Ok b) /\ sigValue d1 = Some sig /\
    DecodeBlock (wire b ++ rest) = Ok (b', Z.of_nat (length (wire b))) /\
    DecodeData (Some b') true = Ok d2 /\ data_read n m (content d) s d2 /\ sigValue d2 = Some sig.
Proof.
  intros Hok Hsign Hl. destruct (Data_Encode_ok d n m s sig Hok Hsign) as (d1 & b & He & Hsv & _ & _ & _ & Hw).
  destruct Hok as [_ _ Hn _ Hm _ Hs Hd].
  destruct (parsed_facts n m (content d) s sig rest Hl) as (Hdb & _).
  destruct (DecodeData_signed n m (content d) s Hn Hm Hs Hd sig sig Hl Hsign (or_introl eq_refl)) as (d2 & E2 & Hr & Hv).
  exists d1, b, (flat (parent T.Data (data_blocks n m (content d) s sig))), d2. rewrite Hw. auto 10.
Qed.

(** C37: What validation accepts.  Whoever makes the bytes: for any name,
    MetaInfo, content and SignatureInfo of type DigestSha256, [DecodeData]
    with validation accepts exactly the SHA-256 digest of the signed portion
    and the empty signature value, which it replaces by the digest; so a
    packet without a signature passes for a signed one.  Without validation
    every signature value is accepted. *)
Theorem signature_check n m c s sv rest :
  sendable n -> meta_ok m -> sig_ok s -> isInterest s = false -> signatureType s = DigestSha256Type ->
  Z.of_nat (length (data_bytes n m c s sv)) < 2 ^ 64 ->
  let sum := Sum256 (signed_bytes n m c s) in
  exists b, DecodeBlock (data_bytes n m c s sv ++ rest) = Ok (b, Z.of_nat (length (data_bytes n m c s sv))) /\
    (exists d, DecodeData (Some b) false = Ok d /\ data_read n m c s d /\ sigValue d = Some sv) /\
    (sv = sum \/ sv = [] -> exists d, DecodeData (Some b) true = Ok d /\ data_read n m c s d /\ sigValue d = Some sum) /\
    (sv <> sum -> sv <> [] -> DecodeData (Some b) true = Err (ErrNew "unable to validate signature in decoded Data")).
Proof.
  intros Hn Hm Hs Hd Hty Hl sum. destruct (parsed_facts n m c s sv rest Hl) as (Hdb & _).
  assert (Hsign : Sign (signatureType s) (signed_bytes n m c s) = Ok sum) by (by rewrite Hty).
  eexists. split; [exact Hdb|]. split; [|split].
  - by apply DecodeData_unchecked.
  - by apply DecodeData_signed.
  - intros H1 H2. destruct (DecodeData_parsed n m c s Hn Hm Hs Hd sv true Hl) as (d & s' & Hr & Hs' & Hty' & Hv & E).
    rewrite E, (validate_parsed n m c s sv sum d s') by done. destruct sv as [|y sv]; [done|].
    rewrite Hty. unfold Verify, ConstantTimeCompare. cbn. by rewrite bool_decide_false by (intros F; apply H1; by rewrite <- F).
Qed.

(** A packet read without MetaInfo cannot be changed and encoded again, and
    the validity period of an announcement is never read. *)
Lemma data_hazards d c :
  (metaInfo d = None -> (Data_Encode (SetContent c d)).2 = Panic) /\
  (forall p, announcement_ValidityPeriod d = Ok p -> p = (0, 0)).
Proof.
  split.
  - intros Hm. unfold Data_Encode, encode_unsigned. cbn [SetContent dwire metaInfo dname]. rewrite Hm. by destruct (dname d).
  - intros p. unfold announcement_ValidityPeriod, with_content.
    destruct (Valid d) as [d' [[]| |]]; try done; [|by intros [= <-]].
    destruct (Parse _) as [[b [e|]]| |]; cbn [outcome_bind]; try done; [by intros [= <-]|].
    by destruct (Block.Find _ _); [intros [= <-]|].
Qed.

(** ** Examples: the packet of the code's tests *)

Module DataExamples.

Definition name : Name := mkName [NewGenericNameComponent (gs "go"); NewGenericNameComponent (gs "ndn"); NewGenericNameComponent (gs "2020")] None [].
Definition meta : MetaInfo := mkMetaInfo (Some 4) (Some (5000 * Millisecond)) (Comp (NewGenericNameComponent (gs "ndn"))) None.
Definition sig : SignatureInfo := NewSignatureInfo DigestSha256Type.
Definition body : list byte := [x01; x02; x03; x04].
Definition packet : Data := mkData (Some name) (Some meta) body (Some sig) None false None 0.
Definition signature : list byte := be_put 32 0xbd047c5ea5eaca16405d56ff3832f9954c16c5f161ac3c5a344b599962d889b7.

Lemma name_sendable : sendable name.
Proof. split; [done|]. split; repeat constructor. Qed.
Lemma meta_sendable : meta_ok meta.
Proof. split; [done| | |by split; [left|]]; intros ? [= <-]; vm_compute; intuition congruence. Qed.
Lemma sig_sendable : sig_ok sig.
Proof. split; [done|vm_compute; intuition congruence|done|done|done]. Qed.

Lemma data_roundtrip_witness :
  exists d1 b b' d2, Data_Encode packet = (d1, Ok b) /\ sigValue d1 = Some signature /\ length (wire b) = 80%nat /\
    DecodeBlock (wire b ++ [xff]) = Ok (b', 80) /\ DecodeData (Some b') true = Ok d2 /\
    data_read name meta body sig d2 /\ sigValue d2 = Some signature.
Proof.
  assert (Hs : Sign (signatureType sig) (signed_bytes name meta (content packet) sig) = Ok signature) by (vm_compute; reflexivity).
  assert (Hl : Z.of_nat (length (data_bytes name meta (content packet) sig signature)) < 2 ^ 64) by (vm_compute; reflexivity).
  assert (Hok : data_ok packet name meta sig) by (split; auto using name_sendable, meta_sendable, sig_sendable).
  destruct (data_roundtrip packet name meta sig signature [xff] Hok Hs Hl) as (d1 & b & b' & d2 & He & Hv & Hd & Hr).
  assert (Hw : length (wire b) = 80%nat).
  { assert (Eb : (Data_Encode packet).2 = Ok b) by (by rewrite He). vm_compute in Eb. injection Eb as <-. reflexivity. }
  exists d1, b, b', d2. rewrite Hw in Hd. destruct Hr as (? & ? & ?). auto 10.
Defined.

Lemma signature_check_witness :
  exists b d, DecodeBlock (data_bytes name meta body sig [] ++ [xff]) = Ok (b, 48) /\
    DecodeData (Some b) true = Ok d /\ data_read name meta body sig d /\ sigValue d = Some signature.
Proof.
  assert (Hl : Z.of_nat (length (data_bytes name meta body sig [])) < 2 ^ 64) by (vm_compute; reflexivity).
  destruct (signature_check name meta body sig [] [xff] name_sendable meta_sendable sig_sendable eq_refl eq_refl Hl)
    as (b & Hb & _ & Ha & _).
  destruct (Ha (or_intror eq_refl)) as (d & Hd & Hr & Hv). exists b, d. split; [exact Hb|]. split; [exact Hd|].
  split; [exact Hr|]. rewrite Hv. vm_compute. reflexivity.
Defined.

(** An announcement without a validity period panics its reader. *)
Definition announcement : Data :=
  mkData (Some (mkName [NewGenericNameComponent (gs "p"); NewKeywordNameComponent (gs "PA"); NewVersionNameComponent 1;
                        NewSegmentNameComponent 0] None []))
    (Some (mkMetaInfo (Some 5) None NilInterface None)) [x6d; x01; x0a] (Some sig) None false None 0.
Example announcement_valid : (Valid announcement).2 = Ok true /\ announcement_ExpirationPeriod announcement = Ok 10 /\
  announcement_ValidityPeriod announcement = Panic.
Proof. vm_compute. auto. Qed.

End DataExamples.
