(* ===== verification/NdnInterest.v ===== *)
(** * Interest packets: ndn/interest.go

    [draw] is the value [rand.Uint32] returns.  Names and parameters are values:
    the caches that encoding fills in them are filled in the Interest's. *)
From S2P Require Import Prelude Tlv Block Text Sha256 NdnComponent NdnName NdnCodec NdnMeta.
Local Open Scope Z_scope.

Record Interest := mkInterest {
  iname : Name;
  canBePrefix : bool;
  mustBeFresh : bool;
  forwardingHint : list Name;
  inonce : list byte;
  lifetime : Z;
  hopLimit : option Z;
  parameters : list Block;
  iwire : option Block
}.

(** [binary.LittleEndian.PutUint32]. *)
Definition le_put4 (v : Z) : list byte := rev (be_put 4 v).

Definition NewInterest (draw : Z) (name : Name) : Interest :=
  mkInterest name false false [] (le_put4 draw) (4000 * Millisecond) None [] None.

(** ** Setters *)

Definition SetName (n : Name) (i : Interest) : Interest :=
  mkInterest n (canBePrefix i) (mustBeFresh i) (forwardingHint i) (inonce i) (lifetime i) (hopLimit i) (parameters i) None.
Definition SetCanBePrefix (b : bool) (i : Interest) : Interest :=
  mkInterest (iname i) b (mustBeFresh i) (forwardingHint i) (inonce i) (lifetime i) (hopLimit i) (parameters i) None.
Definition SetMustBeFresh (b : bool) (i : Interest) : Interest :=
  mkInterest (iname i) (canBePrefix i) b (forwardingHint i) (inonce i) (lifetime i) (hopLimit i) (parameters i) None.
Definition SetForwardingHint (fh : list Name) (i : Interest) : Interest :=
  mkInterest (iname i) (canBePrefix i) (mustBeFresh i) fh (inonce i) (lifetime i) (hopLimit i) (parameters i) None.
Definition set_nonce (n : list byte) (i : Interest) : Interest :=
  mkInterest (iname i) (canBePrefix i) (mustBeFresh i) (forwardingHint i) n (lifetime i) (hopLimit i) (parameters i) None.
Definition ResetNonce (draw : Z) (i : Interest) : Interest := set_nonce (le_put4 draw) i.
Definition SetNonce (n : list byte) (i : Interest) : outcome Interest :=
  if (length n =? 4)%nat then Ok (set_nonce n i) else Err ErrTooShort.
Definition SetLifetime (d : Z) (i : Interest) : Interest :=
  mkInterest (iname i) (canBePrefix i) (mustBeFresh i) (forwardingHint i) (inonce i) d (hopLimit i) (parameters i) None.
Definition SetHopLimit (h : Z) (i : Interest) : Interest :=
  mkInterest (iname i) (canBePrefix i) (mustBeFresh i) (forwardingHint i) (inonce i) (lifetime i) (Some h) (parameters i) None.
Definition UnsetHopLimit (i : Interest) : Interest :=
  match hopLimit i with
  | None => i
  | Some _ => mkInterest (iname i) (canBePrefix i) (mustBeFresh i) (forwardingHint i) (inonce i) (lifetime i) None (parameters i) None
  end.
Definition set_parameters (ps : list Block) (i : Interest) : Interest :=
  mkInterest (iname i) (canBePrefix i) (mustBeFresh i) (forwardingHint i) (inonce i) (lifetime i) (hopLimit i) ps None.
Definition ClearApplicationParameters (i : Interest) : Interest := set_parameters [] i.

(** ** Application parameters *)

(** The digest of the parameters. *)
Definition parameters_digest (ps : list Block) : list byte := Sum256 (concat (map (fun p => wire (Wire p)) ps)).

(** The search for the last generic component: it asks for the type of the
    component behind the last one too.  It goes around once per component and
    once more at most. *)
Fixpoint last_generic (fuel : nat) (n : Name) (lastGenericComponent : Z) : outcome Z :=
  match fuel with
  | O => Ok lastGenericComponent
  | S fuel =>
      if lastGenericComponent <? Z.of_nat (Size n) then
        match At (lastGenericComponent + 1) n with
        | None => Panic
        | Some c => if negb (ctype c =? T.GenericNameComponent) then Ok lastGenericComponent
                    else last_generic fuel n (lastGenericComponent + 1)
        end
      else Ok lastGenericComponent
  end.

(** The errors of [Set] and [Insert] are not looked at. *)
Definition or_same (n : Name) (r : outcome Name) : outcome Name :=
  match r with Ok n => Ok n | Err _ => Ok n | Panic => Panic end.

Definition recomputeParametersDigestComponent (i : Interest) : outcome Interest :=
  let n := iname i in
  let ps := map Wire (parameters i) in
  let c := new_component KParametersSha256Digest T.ParametersSha256DigestComponent (parameters_digest (parameters i)) 0 in
  let '(digestIndex, _) := Find T.ParametersSha256DigestComponent n in
  let* n :=
    if negb (digestIndex =? -1) then or_same n (Set_ digestIndex c n)
    else
      let* lastGenericComponent := last_generic (Size n + 2) n (-1) in
      if lastGenericComponent =? -1 then or_same n (Insert 0 c n)
      else if lastGenericComponent =? Z.of_nat (Size n) - 1 then Append (Comp c) n
      else or_same n (Insert (lastGenericComponent + 1) c n) in
  Ok (mkInterest n (canBePrefix i) (mustBeFresh i) (forwardingHint i) (inonce i) (lifetime i) (hopLimit i) ps None).

(** The parameters after an append. *)
Definition appended (b : Block) (ps : list Block) : list Block :=
  (if negb (tlvType b =? T.ApplicationParameters) && (length ps =? 0)%nat
   then ps ++ [NewEmptyBlock T.ApplicationParameters] else ps) ++ [b].

Definition AppendApplicationParameter (b : Block) (i : Interest) : outcome Interest :=
  recomputeParametersDigestComponent (set_parameters (appended b (parameters i)) i).

(** ** Decoding *)

(** The forwarding hint: names, or delegations with names. *)
Definition hint_elem (del : Block) (fh : list Name) : outcome (list Name) :=
  if tlvType del =? T.Name then
    match DecodeName (Some del) with
    | Ok n => Ok (fh ++ [n])
    | Err _ => Err (ErrNew "error decoding ForwardingHint.Name")
    | Panic => Panic
    end
  else if tlvType del =? T.Delegation then
    match DecodeDelegation (Some del) with
    | Ok d => Ok (fh ++ [delname d])
    | Err _ => Err (ErrNew "error decoding ForwardingHint.Delegation")
    | Panic => Panic
    end
  else if IsCritical (tlvType del) then Err ErrUnrecognizedCritical
  else Ok fh.

Definition Interest_elem (elem : Block) (st : Z * bool * Interest) : outcome (Z * bool * Interest) :=
  let '(mostRecentElem, hasParams, i) := st in
  let '(mkInterest na cb mf fh no li hl ps w) := i in
  let t := tlvType elem in
  if t =? T.Name then
    if 1 <=? mostRecentElem then Err (ErrNew "Name is duplicate or out-of-order")
    else let* name := DecodeName (Some elem) in Ok (1, hasParams, mkInterest name cb mf fh no li hl ps w)
  else if t =? T.CanBePrefix then
    if 2 <=? mostRecentElem then Err (ErrNew "CanBePrefix is duplicate or out-of-order")
    else Ok (2, hasParams, mkInterest na true mf fh no li hl ps w)
  else if t =? T.MustBeFresh then
    if 3 <=? mostRecentElem then Err (ErrNew "MustBeFresh is duplicate or out-of-order")
    else Ok (3, hasParams, mkInterest na cb true fh no li hl ps w)
  else if t =? T.ForwardingHint then
    if 4 <=? mostRecentElem then Err (ErrNew "ForwardingHint is duplicate or out-of-order")
    else
      let* (elem, _) := Parse elem in
      let* fh := decode_elems hint_elem (subelements elem) fh in
      Ok (4, hasParams, mkInterest na cb mf fh no li hl ps w)
  else if t =? T.Nonce then
    if 5 <=? mostRecentElem then Err (ErrNew "Nonce is duplicate or out-of-order")
    else if negb (length (value elem) =? 4)%nat then Err (ErrNew "error decoding Nonce")
    else Ok (5, hasParams, mkInterest na cb mf fh (value elem) li hl ps w)
  else if t =? T.InterestLifetime then
    if 6 <=? mostRecentElem then Err (ErrNew "InterestLifetime is duplicate or out-of-order")
    else match DecodeNNIBlock (Some elem) with
         | Ok l => Ok (6, hasParams, mkInterest na cb mf fh no (ms_duration l) hl ps w)
         | _ => Err (ErrNew "error decoding InterestLifetime")
         end
  else if t =? T.HopLimit then
    if 7 <=? mostRecentElem then Err (ErrNew "HopLimit is duplicate or out-of-order")
    else match value elem with
         | [h] => Ok (7, hasParams, mkInterest na cb mf fh no li (Some (b2z h)) ps w)
         | _ => Err (ErrNew "error decoding HopLimit")
         end
  else if t =? T.ApplicationParameters then
    if 8 <=? mostRecentElem then Err (ErrNew "ApplicationParameters is duplicate or out-of-order")
    else Ok (8, true, mkInterest na cb mf fh no li hl (ps ++ [elem]) w)
  else if negb hasParams && IsCritical t then Err ErrUnrecognizedCritical
  else if hasParams then Ok (mostRecentElem, hasParams, mkInterest na cb mf fh no li hl (ps ++ [elem]) w)
  else Ok st.

Definition DecodeInterest (draw : Z) (wire : option Block) : outcome Interest :=
  match wire with
  | None => Err ErrNonExistent
  | Some wire =>
      let* wire := parse_if_empty wire in
      let* (st, i) := decode_elems Interest_elem (subelements wire)
        (0, false, mkInterest NewName false false [] [] (4000 * Millisecond) None [] (Some wire)) in
      let '(_, hasParams) := st in
      let '(mkInterest na cb mf fh no li hl ps w) := i in
      let no := match no with [] => le_put4 draw | _ => no end in
      if (hasParams : bool) then
        match Find T.ParametersSha256DigestComponent na with
        | (_, None) => Err (ErrNew "has ApplicationParameters but missing ParametersSha256DigestComponent")
        | (_, Some paramsDigest) =>
            if ConstantTimeCompare (cvalue paramsDigest) (parameters_digest ps)
            then Ok (mkInterest na cb mf fh no li hl (map Wire ps) w)
            else Err (ErrNew "ParametersSha256DigestComponent did not match hash of application parameters")
        end
      else Ok (mkInterest na cb mf fh no li hl ps w)
  end.

(** ** Encoding *)

(** [Encode]: the wire is set before the fields are looked at. *)
Definition Interest_Encode (i : Interest) : Interest * outcome Block :=
  let '(mkInterest na cb mf fh no li hl ps w) := i in
  match w with
  | Some w => (mkInterest na cb mf fh no li hl ps (Some (Wire w)), Ok (Wire w))
  | None =>
      let w := parent T.Interest [] in
      if (Size na =? 0)%nat then (mkInterest na cb mf fh no li hl ps (Some w), Err (ErrNew "Name cannot be empty"))
      else if negb (length no =? 4)%nat then (mkInterest na cb mf fh no li hl ps (Some w), Err (ErrNew "Nonce must be set to encode"))
      else
        let '(na, nb) := Name_Encode na in
        let hints := Name_Encode <$> fh in
        let w := Wire (parent T.Interest
          (nb
           :: (if cb then [NewEmptyBlock T.CanBePrefix] else [])
           ++ (if mf then [NewEmptyBlock T.MustBeFresh] else [])
           ++ (match fh with [] => [] | _ => [parent T.ForwardingHint hints.*2] end)
           ++ NewBlock T.Nonce no
           :: EncodeNNIBlock T.InterestLifetime (duration_ms li)
           :: opt_block (fun h => NewBlock T.HopLimit [z2b h]) hl
           ++ ps)) in
        (mkInterest na cb mf hints.*1 no li hl (map Wire ps) (Some w), Ok w)
  end.

Fixpoint join (sep : list byte) (l : list (list byte)) : list byte :=
  match l with [] => [] | [x] => x | x :: l => x ++ sep ++ join sep l end.

Definition Interest_String (i : Interest) : list byte :=
  gs "Interest(Name=" ++ (Name_String (iname i)).2
  ++ (if canBePrefix i then gs ", CanBePrefix" else [])
  ++ (if mustBeFresh i then gs ", MustBeFresh" else [])
  ++ (match forwardingHint i with
      | [] => []
      | fh => gs ", ForwardingHint(" ++ join (gs ", ") ((fun n => (Name_String n).2) <$> fh) ++ gs ")"
      end)
  ++ gs ", Nonce=0x" ++ hex_encode (inonce i)
  ++ gs ", Lifetime=" ++ FormatInt (Z.quot (lifetime i) Millisecond) ++ gs "ms"
  ++ from_option (fun h => gs ", HopLimit=" ++ FormatUint h) [] (hopLimit i)
  ++ (match parameters i with [] => [] | _ => gs ", ApplicationParameters" end)
  ++ gs ")".

(** ** Lemmas: round trip *)

(** Types that [DecodeInterest] takes for fields. *)
Definition is_field (t : Z) : bool :=
  bool_decide (t ∈ [T.Name; T.CanBePrefix; T.MustBeFresh; T.ForwardingHint; T.Nonce; T.InterestLifetime; T.HopLimit; T.ApplicationParameters]).

(** Parameters that can be sent: the first one has the type
    ApplicationParameters, the others are not taken for fields. *)
Definition parameters_ok (ps : list Block) : Prop :=
  match ps with
  | [] => True
  | p :: ps => tlvType p = T.ApplicationParameters /\ Forall (fun p => is_field (tlvType p) = false) ps
  end /\ Forall (fun p => coherent p /\ 0 <= tlvType p < 2 ^ 32) ps.

Definition digest_ok (n : Name) (ps : list Block) : Prop :=
  ps <> [] -> exists k c, Find T.ParametersSha256DigestComponent n = (k, Some c) /\ cvalue c = Sum256 (concat (map enc ps)).

(** An Interest without a cached wire whose fields can be sent. *)
Record interest_ok (i : Interest) : Prop := {
  io_wire : iwire i = None;
  io_name : sendable (iname i);
  io_nonempty : components (iname i) <> [];
  io_hint : Forall sendable (forwardingHint i);
  io_nonce : length (inonce i) = 4%nat;
  io_lifetime : whole_ms (lifetime i);
  io_hop : forall h, hopLimit i = Some h -> 0 <= h < 256;
  io_params : parameters_ok (parameters i);
  io_digest : digest_ok (iname i) (parameters i) }.

Definition flag (b : bool) : option unit := if b then Some tt else None.
Definition hint_of (fh : list Name) : option (list Name) := match fh with [] => None | _ => Some fh end.

Definition interest_blocks (i : Interest) : list Block :=
  [name_of (iname i)]
  ++ opt_block (fun _ => NewBlock T.CanBePrefix []) (flag (canBePrefix i))
  ++ opt_block (fun _ => NewBlock T.MustBeFresh []) (flag (mustBeFresh i))
  ++ opt_block (fun fh => parent T.ForwardingHint (map name_of fh)) (hint_of (forwardingHint i))
  ++ opt_block (NewBlock T.Nonce) (Some (inonce i))
  ++ opt_block (fun d => NewBlock T.InterestLifetime (EncodeNNI (duration_ms d))) (Some (lifetime i))
  ++ opt_block (fun h => NewBlock T.HopLimit [z2b h]) (hopLimit i)
  ++ parameters i.
Definition interest_bytes (i : Interest) : list byte := enc (parent T.Interest (interest_blocks i)).

Lemma hints_flat fh : Forall sendable fh ->
  map flat (Name_Encode <$> fh).*2 = map flat (map name_of fh) /\ Forall coherent (Name_Encode <$> fh).*2.
Proof.
  induction 1 as [|n fh Hn Hf [IH1 IH2]]; [by split|]. destruct (Name_Encode_block n Hn) as (_ & Hc & Hfl).
  cbn. split; [|by constructor]. f_equal; [exact Hfl|exact IH1].
Qed.

Lemma interest_types i : interest_ok i -> Forall (fun e => 0 <= tlvType e < 2 ^ 32) (interest_blocks i).
Proof.
  intros Hi. unfold interest_blocks. repeat (apply Forall_app; split).
  8: { destruct (io_params _ Hi) as [_ H]. eapply Forall_impl; [exact H|]. by intros b [_ ?]. }
  all: unfold flag, hint_of.
  - repeat constructor; done.
  - destruct (canBePrefix i); repeat constructor; done.
  - destruct (mustBeFresh i); repeat constructor; done.
  - destruct (forwardingHint i); repeat constructor; done.
  - repeat constructor; done.
  - repeat constructor; done.
  - destruct (hopLimit i); repeat constructor; done.
Qed.

Lemma Interest_Encode_ok i : interest_ok i ->
  exists i' b, Interest_Encode i = (i', Ok b) /\ wire b = interest_bytes i.
Proof.
  intros [Hw Hn Hne Hh Hno Hli _ [_ Hps] _].
  destruct (Name_Encode_block (iname i) Hn) as (_ & Hnc & Hnf). destruct (hints_flat _ Hh) as [Hhf Hhc].
  destruct i as [na cb mf fh no li hl ps w]. cbn [iname canBePrefix mustBeFresh forwardingHint inonce lifetime hopLimit parameters iwire] in *.
  subst w. unfold Interest_Encode. replace (Size na =? 0)%nat with false by (unfold Size; by destruct (components na)).
  rewrite Hno. cbn [negb Nat.eqb]. destruct (Name_Encode na) as [na' nb]. cbn [snd] in *.
  eexists _, _. split; [reflexivity|].
  assert (Hpc : Forall coherent ps) by (eapply Forall_impl; [exact Hps|]; by intros b [? _]).
  rewrite wire_Wire.
  - apply enc_parent_eq. unfold interest_blocks. cbn [iname canBePrefix mustBeFresh forwardingHint inonce lifetime hopLimit parameters].
    rewrite EncodeNNIBlock_new, !map_app. cbn [map opt_block]. rewrite Hnf. f_equal. rewrite !map_app. f_equal.
    { by destruct cb. } f_equal. { by destruct mf. } f_equal.
    { destruct fh as [|f fh]; [done|]. cbn [hint_of opt_block map]. by rewrite (flat_parent_eq _ _ _ Hhf). }
    cbn [map app]. by rewrite map_app.
  - apply coherent_parent. constructor; [done|]. repeat (apply Forall_app; split).
    + destruct cb; repeat constructor.
    + destruct mf; repeat constructor.
    + destruct fh; [constructor|]. constructor; [by apply coherent_parent|constructor].
    + constructor; [apply coherent_new|]. constructor; [rewrite EncodeNNIBlock_new; apply coherent_new|].
      apply Forall_app. split; [|done]. destruct hl; repeat constructor.
Qed.

Lemma hint_elem_name n acc : sendable n -> Z.of_nat (length (enc (name_of n))) < 2 ^ 64 ->
  hint_elem (flat (name_of n)) acc = Ok (acc ++ [read_name n]).
Proof.
  intros (_ & _ & Hd) Hl. unfold hint_elem. change (tlvType (flat (name_of n))) with T.Name.
  change (T.Name =? T.Name) with true. cbv iota. by rewrite DecodeName_flat.
Qed.

Lemma decode_hints fh acc : Forall sendable fh ->
  Forall (fun n => Z.of_nat (length (enc (name_of n))) < 2 ^ 64) fh ->
  decode_elems hint_elem (map flat (map name_of fh)) acc = Ok (acc ++ (read_name <$> fh)).
Proof.
  intros Hf Hl. revert acc. induction Hf as [|n fh Hn Hf IH]; intros acc; [cbn; by rewrite app_nil_r|].
  apply Forall_cons in Hl as [Hln Hl]. cbn [map]. rewrite decode_elems_cons, hint_elem_name by done.
  cbn [outcome_bind]. rewrite IH by done. cbn. by rewrite <- app_assoc.
Qed.

(** The blocks behind the first parameter are parameters. *)
Lemma Interest_elem_other e na cb mf fh no li hl ps w : is_field (tlvType e) = false ->
  Interest_elem e (8, true, mkInterest na cb mf fh no li hl ps w) = Ok (8, true, mkInterest na cb mf fh no li hl (ps ++ [e]) w).
Proof.
  unfold is_field. intros Hf%bool_decide_eq_false. unfold Interest_elem.
  repeat (rewrite (proj2 (Z.eqb_neq (tlvType e) _)) by (intros E; apply Hf; rewrite E; set_solver)). done.
Qed.

Lemma decode_parameters ps na cb mf fh no li hl acc w :
  Forall (fun p => is_field (tlvType p) = false) ps ->
  decode_elems Interest_elem (map flat ps) (8, true, mkInterest na cb mf fh no li hl acc w) =
    Ok (8, true, mkInterest na cb mf fh no li hl (acc ++ map flat ps) w).
Proof.
  intros Hf. revert acc. induction Hf as [|p ps Hp Hf IH]; intros acc; [cbn; by rewrite app_nil_r|].
  cbn [map decode_elems]. rewrite Interest_elem_other by done. cbn [outcome_bind]. rewrite IH. by rewrite <- app_assoc.
Qed.

(** The Interest that is read. *)
Definition read_interest (w : option Block) (i : Interest) : Interest :=
  mkInterest (read_name (iname i)) (canBePrefix i) (mustBeFresh i) (read_name <$> forwardingHint i) (inonce i)
    (lifetime i) (hopLimit i) (map flat (parameters i)) w.

Lemma Find_read n t : Find t (read_name n) = ((Find t n).1, component_DeepCopy <$> (Find t n).2).
Proof.
  unfold Find. cbn [read_name components]. generalize (components n) as cs. intros cs.
  assert (E : list_find (fun c => ctype c = t) (component_DeepCopy <$> cs) =
    (fun p => (p.1, component_DeepCopy p.2)) <$> list_find (fun c => ctype c = t) cs).
  { induction cs as [|[kd ct v r w] cs IH]; [done|]. cbn. destruct (decide (ct = t)) as [Ht|Ht]; [done|].
    rewrite IH. by destruct (list_find _ cs) as [[k x]|]. }
  rewrite E. by destruct (list_find _ cs) as [[k x]|].
Qed.

Lemma parameters_digest_flat ps : parameters_digest (map flat ps) = Sum256 (concat (map enc ps)).
Proof. unfold parameters_digest. f_equal. f_equal. rewrite map_map. apply map_ext. intros p. by rewrite Wire_flat. Qed.

(** From the nonce on. *)
Lemma decode_interest_tail k4 nm cb mf hints no li hl ps w : k4 <= 4 -> length no = 4%nat -> whole_ms li ->
  (forall h, hl = Some h -> 0 <= h < 256) -> parameters_ok ps ->
  exists k, decode_elems Interest_elem
    (map flat (opt_block (NewBlock T.Nonce) (Some no)
      ++ opt_block (fun d => NewBlock T.InterestLifetime (EncodeNNI (duration_ms d))) (Some li)
      ++ opt_block (fun h => NewBlock T.HopLimit [z2b h]) hl ++ ps))
    (k4, false, mkInterest nm cb mf hints [] (4000 * Millisecond) None [] w) =
    Ok (k, match ps with [] => false | _ => true end, mkInterest nm cb mf hints no li hl (map flat ps) w).
Proof.
  intros Hk4 Hno Hli Hhop [Hps _]. set (I0 := mkInterest nm).
  rewrite map_app, decode_elems_app.
  rewrite (decode_opt _ _ _ _ (fun x => (past 5 k4 x, false, I0 cb mf hints (default [] x) (4000 * Millisecond) None [] w))); [|done|].
  2: { intros n' [= <-]. unfold Interest_elem. rewrite flat_new. cbn -[Z.leb Nat.eqb]. rewrite Hno.
       by replace (5 <=? k4) with false by lia. }
  cbn [outcome_bind default past]. rewrite map_app, decode_elems_app.
  rewrite (decode_opt _ _ _ _ (fun x => (past 6 5 x, false, I0 cb mf hints no (default (4000 * Millisecond) x) None [] w))); [|done|].
  2: { intros d [= <-]. unfold Interest_elem. rewrite flat_new. destruct (ms_roundtrip li Hli) as [Hr Hm].
       rewrite DecodeNNIBlock_new by done. by rewrite Hm. }
  cbn [outcome_bind default past]. rewrite map_app, decode_elems_app.
  rewrite (decode_opt _ _ _ _ (fun x => (past 7 6 x, false, I0 cb mf hints no li x [] w))); [|done|].
  2: { intros h Hh'. unfold Interest_elem. rewrite flat_new. cbn -[z2b]. rewrite b2z_z2b, Z.mod_small by auto. done. }
  cbn [outcome_bind]. destruct ps as [|p ps]; [by eexists|]. destruct Hps as [Hpt Hpf]. cbn [map]. rewrite decode_elems_cons.
  assert (E : Interest_elem (flat p) (past 7 6 hl, false, I0 cb mf hints no li hl [] w) =
                Ok (8, true, I0 cb mf hints no li hl [flat p] w)).
  { unfold Interest_elem. change (tlvType (flat p)) with (tlvType p). rewrite Hpt. by destruct hl. }
  rewrite E. cbn [outcome_bind]. unfold I0. rewrite decode_parameters by done. by eexists.
Qed.

Lemma decode_interest_elems i w : interest_ok i -> Z.of_nat (length (interest_bytes i)) < 2 ^ 64 ->
  exists k, decode_elems Interest_elem (map flat (interest_blocks i))
    (0, false, mkInterest NewName false false [] [] (4000 * Millisecond) None [] w) =
    Ok (k, match parameters i with [] => false | _ => true end, read_interest w i).
Proof.
  intros [_ (_ & _ & Hd) _ Hh Hno Hli Hhop Hps _] Hl.
  assert (Hsub : forall b, b ∈ interest_blocks i -> Z.of_nat (length (enc b)) < 2 ^ 64).
  { intros b Hb. exact (enc_sub_bound _ _ _ Hb Hl). }
  assert (Hln : Z.of_nat (length (enc (name_of (iname i)))) < 2 ^ 64) by (apply Hsub; by left).
  assert (Hlh : forall fh, hint_of (forwardingHint i) = Some fh ->
    fh = forwardingHint i /\ Z.of_nat (length (enc (parent T.ForwardingHint (map name_of fh)))) < 2 ^ 64).
  { intros fh E. split; [unfold hint_of in E; destruct (forwardingHint i); congruence|]. apply Hsub.
    unfold interest_blocks. rewrite E. rewrite !elem_of_app. right; right; right; left. by left. }
  clear Hsub Hl. unfold interest_blocks, read_interest.
  destruct i as [na cb mf fh no li hl ps w']. cbn [iname canBePrefix mustBeFresh forwardingHint inonce lifetime hopLimit parameters iwire] in *.
  set (I0 := mkInterest (read_name na)). cbn [app map decode_elems].
  assert (E1 : Interest_elem (flat (name_of na)) (0, false, mkInterest NewName false false [] [] (4000 * Millisecond) None [] w) =
    Ok (1, false, I0 false false [] [] (4000 * Millisecond) None [] w)).
  { unfold Interest_elem. change (tlvType (flat (name_of na))) with T.Name. cbn -[DecodeName flat name_of].
    by rewrite DecodeName_flat. }
  rewrite E1. cbn [outcome_bind]. clear E1.
  rewrite map_app, decode_elems_app.
  rewrite (decode_opt _ _ _ _ (fun x => (past 2 1 x, false, I0 (bool_decide (is_Some x)) false [] [] (4000 * Millisecond) None [] w))); [|done|done].
  assert (Eb : forall b, bool_decide (is_Some (flag b)) = b) by (by intros []). rewrite Eb.
  set (k2 := past 2 1 (flag cb)). assert (Hk2 : 1 <= k2 <= 2) by (by apply past_range). clearbody k2.
  cbn [outcome_bind]. rewrite map_app, decode_elems_app.
  rewrite (decode_opt _ _ _ _ (fun x => (past 3 k2 x, false, I0 cb (bool_decide (is_Some x)) [] [] (4000 * Millisecond) None [] w))); [|done|].
  2: { intros [] _. unfold Interest_elem. rewrite flat_new. cbn -[Z.leb]. by replace (3 <=? k2) with false by lia. }
  rewrite Eb. set (k3 := past 3 k2 (flag mf)). assert (Hk3 : k2 <= k3 <= 3) by (apply past_range; lia). clearbody k3.
  cbn [outcome_bind]. rewrite map_app, decode_elems_app.
  rewrite (decode_opt _ _ _ _ (fun x => (past 4 k3 x, false, I0 cb mf (read_name <$> default [] x) [] (4000 * Millisecond) None [] w))); [|done|].
  2: { intros fh' E. destruct (Hlh fh' E) as [-> Hlf]. unfold Interest_elem.
       change (tlvType (flat (parent T.ForwardingHint _))) with T.ForwardingHint. cbn -[Z.leb Parse flat parent decode_elems].
       replace (4 <=? k3) with false by lia.
       destruct (parent_decodes T.ForwardingHint (map name_of fh) []) as [_ Hp]; [type_range| |done|].
       { apply Forall_map, Forall_true. intros n. type_range. }
       destruct (parse_if_empty_Parse (flat (parent T.ForwardingHint (map name_of fh))) _ eq_refl Hp) as [e Ee].
       rewrite Ee. cbn [outcome_bind subelements]. rewrite decode_hints; [done|done|].
       apply Forall_forall. intros n Hn. apply (enc_sub_bound T.ForwardingHint (map name_of fh)); [|done].
       apply list_elem_of_fmap. by exists n. }
  assert (Ef : default [] (hint_of fh) = fh) by (by destruct fh). rewrite Ef. clear Ef Hlh.
  set (k4 := past 4 k3 (hint_of fh)). assert (Hk4 : k3 <= k4 <= 4) by (apply past_range; lia). clearbody k4.
  cbn [outcome_bind]. apply decode_interest_tail; try done. lia.
Qed.

(** ** Lemmas: the digest component *)

Lemma At_nat n k : At (Z.of_nat k) n = components n !! k.
Proof.
  unfold At. destruct (decide (k < length (components n))%nat) as [H|H].
  - replace (_ || _) with false by lia. replace (Z.of_nat k <? 0) with false by lia. by rewrite Nat2Z.id.
  - replace (_ || _) with true by lia. symmetry. apply lookup_ge_None. lia.
Qed.

Definition generic (c : Component) : Prop := ctype c = T.GenericNameComponent.
#[export] Instance generic_dec c : Decision (generic c).
Proof. unfold generic. apply _. Defined.

Lemma last_generic_step fuel n k c : components n !! k = Some c -> generic c ->
  last_generic (S fuel) n (Z.of_nat k - 1) = last_generic fuel n (Z.of_nat k).
Proof.
  intros Hk Hg. cbn [last_generic]. unfold Size. pose proof (lookup_lt_Some _ _ _ Hk).
  replace (_ <? _) with true by lia. replace (Z.of_nat k - 1 + 1) with (Z.of_nat k) by lia.
  rewrite At_nat, Hk, Hg. done.
Qed.

(** The search ends before the first component that is not generic... *)
Lemma last_generic_found e d n k j c : Forall generic (take j (components n)) ->
  components n !! j = Some c -> ~ generic c -> j = (k + d)%nat ->
  last_generic (S (d + e)) n (Z.of_nat k - 1) = Ok (Z.of_nat j - 1).
Proof.
  intros Ht Hj Hc. revert k. induction d as [|d IH]; intros k ->.
  - cbn [last_generic]. pose proof (lookup_lt_Some _ _ _ Hj). unfold Size. rewrite Nat.add_0_r in *.
    replace (_ <? _) with true by lia. replace (Z.of_nat k - 1 + 1) with (Z.of_nat k) by lia.
    rewrite At_nat, Hj. by rewrite (proj2 (Z.eqb_neq _ _) Hc).
  - pose proof (lookup_lt_Some _ _ _ Hj) as Hlt. destruct (lookup_lt_is_Some_2 (components n) k) as [x Hx]; [lia|].
    assert (Hg : generic x).
    { rewrite Forall_lookup in Ht. apply (Ht k). rewrite lookup_take_lt by lia. done. }
    rewrite (last_generic_step _ _ _ _ Hx Hg).
    replace (Z.of_nat k) with (Z.of_nat (S k) - 1) by lia. apply IH. lia.
Qed.

(** ... and panics when there is none. *)
Lemma last_generic_panic e d n k : Forall generic (components n) -> (k + d)%nat = length (components n) ->
  last_generic (S (d + e)) n (Z.of_nat k - 1) = Panic.
Proof.
  intros Hf. revert k. induction d as [|d IH]; intros k Hk.
  - cbn [last_generic]. unfold Size. replace (_ <? _) with true by lia. replace (Z.of_nat k - 1 + 1) with (Z.of_nat k) by lia.
    rewrite At_nat. by rewrite lookup_ge_None_2 by lia.
  - destruct (lookup_lt_is_Some_2 (components n) k) as [x Hx]; [lia|]. rewrite Forall_lookup in Hf.
    rewrite (last_generic_step _ _ _ _ Hx (Hf _ _ Hx)).
    replace (Z.of_nat k) with (Z.of_nat (S k) - 1) by lia. apply IH. lia.
Qed.

(** ** Properties *)

(** C38: An Interest survives encoding.  For an Interest whose names are not empty
    and can be sent, with a nonce of four bytes, a lifetime of whole
    milliseconds, and parameters (if any) that begin with
    ApplicationParameters and match the digest component of the name,
    [DecodeBlock] and [DecodeInterest] read back every field from the bytes
    [Encode] makes. *)
Theorem interest_roundtrip draw i rest :
  interest_ok i -> Z.of_nat (length (interest_bytes i)) < 2 ^ 64 ->
  exists i1 b b' i2, Interest_Encode i = (i1, Ok b) /\ wire b = interest_bytes i /\
    DecodeBlock (wire b ++ rest) = Ok (b', Z.of_nat (length (wire b))) /\ DecodeInterest draw (Some b') = Ok i2 /\
    components (iname i2) = component_DeepCopy <$> components (iname i) /\
    (canBePrefix i2, mustBeFresh i2) = (canBePrefix i, mustBeFresh i) /\
    components <$> forwardingHint i2 = (fun n => component_DeepCopy <$> components n) <$> forwardingHint i /\
    inonce i2 = inonce i /\ lifetime i2 = lifetime i /\ hopLimit i2 = hopLimit i /\
    parameters i2 = flat <$> parameters i.
Proof.
  intros Hi Hl. destruct (Interest_Encode_ok i Hi) as (i1 & b & He & Hw).
  destruct (parent_decodes T.Interest (interest_blocks i) rest) as [Hdb Hp]; [type_range|by apply interest_types|done|].
  exists i1, b, (flat (parent T.Interest (interest_blocks i))). rewrite Hw.
  set (w := Some (mkBlock T.Interest (body (parent T.Interest (interest_blocks i))) (map flat (interest_blocks i))
                    (enc (parent T.Interest (interest_blocks i))))).
  assert (E : DecodeInterest draw (Some (flat (parent T.Interest (interest_blocks i)))) = Ok (read_interest w i)).
  { unfold DecodeInterest. rewrite Hp. cbn [outcome_bind subelements]. fold w.
    destruct (decode_interest_elems i w Hi Hl) as [k ->]. cbn [outcome_bind read_interest].
    assert (Hn4 : match inonce i with [] => le_put4 draw | _ :: _ => inonce i end = inonce i)
      by (pose proof (io_nonce i Hi); by destruct (inonce i)).
    rewrite Hn4. unfold read_interest. destruct (parameters i) as [|p ps] eqn:Ep; [done|].
    destruct (io_digest i Hi) as (j & c & Hf & Hc); [by rewrite Ep|]. rewrite Find_read, Hf, <- Ep. cbn [fst snd fmap option_fmap option_map].
    rewrite parameters_digest_flat. unfold ConstantTimeCompare. rewrite bool_decide_true by (by destruct c).
    do 2 f_equal. rewrite map_map. apply map_ext. intros x. apply Wire_flat. }
  exists (read_interest w i). split; [done|]. split; [done|]. split; [exact Hdb|]. split; [exact E|].
  cbn [read_interest iname canBePrefix mustBeFresh forwardingHint inonce lifetime hopLimit parameters read_name components].
  split; [done|]. split; [done|]. split; [by rewrite <- list_fmap_compose|done].
Qed.

Lemma Find_first t n j c : Forall (fun x => ctype x <> t) (take j (components n)) -> components n !! j = Some c -> ctype c = t ->
  Find t n = (Z.of_nat j, Some c).
Proof.
  intros Hf Hj Hc. unfold Find. assert (E : list_find (fun c => ctype c = t) (components n) = Some (j, c)).
  { apply list_find_Some. split; [done|]. split; [done|]. intros k y Hk Hlt. rewrite Forall_lookup in Hf.
    apply (Hf k). by rewrite lookup_take_lt. }
  by rewrite E.
Qed.

Lemma Find_none t n : Forall (fun x => ctype x <> t) (components n) -> Find t n = (-1, None).
Proof. intros Hf. unfold Find. rewrite (proj2 (list_find_None _ _)); [done|]. exact Hf. Qed.

(** The components other than the digest. *)
Definition not_digest (c : Component) : Prop := ctype c <> T.ParametersSha256DigestComponent.
#[export] Instance not_digest_dec c : Decision (not_digest c).
Proof. unfold not_digest. apply _. Defined.

Definition digest_component (ps : list Block) : Component :=
  new_component KParametersSha256Digest T.ParametersSha256DigestComponent (parameters_digest ps) 0.

(** Where the digest is put. *)
Lemma recompute_place i : Exists (fun c => ~ generic c) (components (iname i)) ->
  exists i' j c, recomputeParametersDigestComponent i = Ok i' /\ parameters i' = map Wire (parameters i) /\
    Find T.ParametersSha256DigestComponent (iname i') = (j, Some c) /\ cvalue c = parameters_digest (parameters i) /\
    filter not_digest (components (iname i')) = filter not_digest (components (iname i)) /\
    iwire i' = None /\ nwire (iname i') = None.
Proof.
  intros Hex. unfold recomputeParametersDigestComponent. fold (digest_component (parameters i)).
  set (n := iname i) in *. set (c := digest_component (parameters i)).
  assert (Hc : ~ not_digest c) by (unfold not_digest; auto).
  destruct (list_find (fun x => ctype x = T.ParametersSha256DigestComponent) (components n)) as [[j x]|] eqn:E.
  - pose proof E as (Hy & _ & _)%list_find_Some. apply list_find_split in E as (Es & Ht & Hf & Hj).
    rewrite (Find_first _ _ j x) by done. replace (negb (Z.of_nat j =? -1)) with true by lia.
    unfold Set_. replace (_ || _) with false by lia. cbn [or_same outcome_bind]. rewrite Nat2Z.id.
    eexists _, (Z.of_nat j), c. split; [reflexivity|]. cbn [parameters iname iwire nwire]. split; [done|].
    split. { apply (Find_first _ _ j c); cbn [components]; [|by apply list_lookup_insert_eq|done]. by rewrite take_insert_ge by lia. }
    split; [done|]. split; [|done]. cbn [components]. rewrite insert_take_drop by done. rewrite Es at 3.
    rewrite !filter_app, !filter_cons_False; [done|by unfold not_digest; auto|done].
  - apply list_find_None in E. rewrite Find_none by done. cbn [negb Z.eqb].
    apply Exists_exists in Hex as (x & Hx & Hg).
    destruct (list_find_elem_of (fun x => ~ generic x) _ _ Hx Hg) as [[j y] Ej].
    pose proof Ej as (Hy & _ & _)%list_find_Some. apply list_find_split in Ej as (_ & Hng & Hf & Hj).
    replace (Size n + 2)%nat with (S (j + (Size n + 1 - j))) by (unfold Size; lia).
    change (-1) with (Z.of_nat 0 - 1) at 1. rewrite (last_generic_found _ j n 0 j y); [|..|done|done|lia].
    2: { eapply Forall_impl; [exact Hf|]. intros z Hz. by apply dec_stable. }
    cbn [outcome_bind].
    assert (Hins : (if Z.of_nat j - 1 =? -1 then or_same n (Insert 0 c n)
        else if Z.of_nat j - 1 =? Z.of_nat (Size n) - 1 then Append (Comp c) n
        else or_same n (Insert (Z.of_nat j - 1 + 1) c n)) =
        Ok (mkName (take j (components n) ++ c :: drop j (components n)) None [])).
    { unfold Size, Insert. destruct (decide (j = 0%nat)) as [->|Hne].
      - cbn [Z.eqb Z.of_nat]. replace (_ || _) with false by lia. done.
      - replace (Z.of_nat j - 1 =? -1) with false by lia.
        replace (Z.of_nat j - 1 =? Z.of_nat (length (components n)) - 1) with false by lia.
        replace (_ || _) with false by lia. replace (Z.of_nat j - 1 + 1) with (Z.of_nat j) by lia. by rewrite Nat2Z.id. }
    rewrite Hins. cbn [outcome_bind]. eexists _, (Z.of_nat j), c. split; [reflexivity|].
    cbn [parameters iname iwire nwire]. split; [done|]. split; [|split; [done|split; [|done]]].
    + apply (Find_first _ _ j c); cbn [components]; [|apply list_lookup_middle; rewrite length_take; lia|done].
      rewrite take_app_le, take_take, Nat.min_id by (rewrite length_take; lia). by apply Forall_take.
    + cbn [components]. rewrite filter_app, filter_cons_False by done. by rewrite <- filter_app, take_drop.
Qed.

(** Appending application parameters.  When the name has a component that is
    not generic, the parameter is appended (behind an empty
    ApplicationParameters if it is the first and has another type), the name
    gets one digest component with the SHA-256 of all parameters, replaced or
    behind the leading generic components, its other components stay, and the
    stale wires are dropped.  When all components are generic, which is the
    usual case, and when there are none, the call panics. *)
Lemma append_parameter b i :
  (Exists (fun c => ~ generic c) (components (iname i)) ->
   exists i' j c, AppendApplicationParameter b i = Ok i' /\
     parameters i' = map Wire (appended b (parameters i)) /\
     Find T.ParametersSha256DigestComponent (iname i') = (j, Some c) /\
     cvalue c = parameters_digest (appended b (parameters i)) /\
     filter not_digest (components (iname i')) = filter not_digest (components (iname i)) /\
     iwire i' = None /\ nwire (iname i') = None) /\
  (Forall generic (components (iname i)) -> AppendApplicationParameter b i = Panic).
Proof.
  split; [exact (recompute_place (set_parameters (appended b (parameters i)) i))|].
  intros Hf. unfold AppendApplicationParameter, recomputeParametersDigestComponent.
  change (iname (set_parameters (appended b (parameters i)) i)) with (iname i).
  rewrite Find_none by (eapply Forall_impl; [exact Hf|]; intros c -> E; discriminate E). cbn [negb Z.eqb].
  replace (Size (iname i) + 2)%nat with (S (length (components (iname i)) + 1)) by (unfold Size; lia).
  pose proof (last_generic_panic 1 (length (components (iname i))) (iname i) 0 Hf eq_refl) as E.
  change (Z.of_nat 0 - 1) with (-1) in E. by rewrite E.
Qed.

(** A failed [Encode] is not repeated.  For an Interest without a wire and
    with an empty name, or with a nonce that is not four bytes long, [Encode]
    returns an error but leaves an empty block behind as the wire: the next
    call answers the two bytes 05 00, with no error. *)
Lemma failed_encode_sticks i :
  iwire i = None -> components (iname i) = [] \/ length (inonce i) <> 4%nat ->
  exists i1 i2 b, (exists e, Interest_Encode i = (i1, Err e)) /\ Interest_Encode i1 = (i2, Ok b) /\ wire b = [x05; x00] /\
    forall draw, DecodeInterest draw (Some b) = Ok (mkInterest NewName false false [] (le_put4 draw) (4000 * Millisecond) None [] (Some b)).
Proof.
  destruct i as [na cb mf fh no li hl ps w]. cbn [iwire iname inonce]. intros -> H.
  exists (mkInterest na cb mf fh no li hl ps (Some (parent T.Interest []))).
  assert (He : exists e, Interest_Encode (mkInterest na cb mf fh no li hl ps None) =
                 (mkInterest na cb mf fh no li hl ps (Some (parent T.Interest [])), Err e)).
  { unfold Interest_Encode. destruct (Nat.eqb_spec (Size na) 0) as [|Hs]; [by eexists|].
    destruct (Nat.eqb_spec (length no) 4) as [Hl|]; [|by eexists]. destruct H as [H|H]; [|done].
    unfold Size in Hs. by rewrite H in Hs. }
  eexists _, _. split; [exact He|]. split; [reflexivity|]. split; [reflexivity|]. done.
Qed.

(** ** Examples: the Interest of the code's tests *)

Module InterestExamples.

Definition go_ndn : list Component := [NewGenericNameComponent (gs "go"); NewGenericNameComponent (gs "ndn")].
Definition params : list Block :=
  [NewBlock T.ApplicationParameters []; NewBlock 0xAA [xbb; xcc; xdd; xee]; NewBlock 0xBB [x11; x22; x33; x44; x55; x66]].
Definition test_digest : list byte := be_put 32 0x0901A2D04BB88AB81913C232A3EFC89FACF8B32DF20E3D435389F5502725C04F.
Definition name : Name :=
  mkName (go_ndn ++ [new_component KParametersSha256Digest T.ParametersSha256DigestComponent test_digest 0]) None [].
Definition ucla : Name := mkName [NewGenericNameComponent (gs "ucla")] None [].
Definition full : Interest :=
  mkInterest name true true [ucla] [x01; x02; x03; x04] (1000 * Millisecond) (Some 64) params None.

Lemma full_ok : interest_ok full.
Proof.
  split; try done.
  - split; [done|]. split; repeat constructor; by left.
  - repeat constructor; by left.
  - intros h [= <-]. done.
  - split; [split; [done|repeat constructor]|]. repeat constructor; vm_compute; congruence.
  - intros _. eexists 2, _. split; [reflexivity|]. vm_compute. reflexivity.
Qed.

Lemma interest_roundtrip_witness :
  exists i1 b b' i2, Interest_Encode full = (i1, Ok b) /\
    DecodeBlock (wire b ++ [xff]) = Ok (b', 90) /\ DecodeInterest 0 (Some b') = Ok i2 /\ lifetime i2 = 1000 * Millisecond /\
    hopLimit i2 = Some 64 /\ length (parameters i2) = 3%nat.
Proof.
  destruct (interest_roundtrip 0 full [xff] full_ok ltac:(vm_compute; reflexivity))
    as (i1 & b & b' & i2 & He & Hw & Hd & Hi & _ & _ & _ & _ & Hl & Hh & Hp).
  exists i1, b, b', i2. split; [exact He|]. split.
  - rewrite Hd, Hw. vm_compute. reflexivity.
  - split; [exact Hi|]. split; [exact Hl|]. split; [exact Hh|]. by rewrite Hp.
Defined.

Definition simple : Interest := NewInterest 7 (mkName (go_ndn ++ [NewSegmentNameComponent 100]) None []).

Lemma append_parameter_witness :
  (exists i' j c, AppendApplicationParameter (NewBlock 0xAA [x11]) simple = Ok i' /\ length (parameters i') = 2%nat /\
     Find T.ParametersSha256DigestComponent (iname i') = (j, Some c) /\
     cvalue c = parameters_digest [NewEmptyBlock T.ApplicationParameters; NewBlock 0xAA [x11]]) /\
  AppendApplicationParameter (NewBlock 0xAA [x11]) (NewInterest 7 (mkName go_ndn None [])) = Panic.
Proof.
  split.
  - destruct (proj1 (append_parameter (NewBlock 0xAA [x11]) simple)) as (i' & j & c & E & Hp & Hf & Hc & _).
    { apply Exists_exists. exists (NewSegmentNameComponent 100). split; [right; right; by left|discriminate]. }
    exists i', j, c. split; [exact E|]. split; [by rewrite Hp|]. split; [exact Hf|exact Hc].
  - apply (proj2 (append_parameter (NewBlock 0xAA [x11]) (NewInterest 7 (mkName go_ndn None [])))). repeat constructor.
Defined.

Lemma failed_encode_witness :
  exists i1 i2 b, (exists e, Interest_Encode (NewInterest 7 NewName) = (i1, Err e)) /\ Interest_Encode i1 = (i2, Ok b) /\
    wire b = [x05; x00].
Proof.
  destruct (failed_encode_sticks (NewInterest 7 NewName) eq_refl (or_introl eq_refl)) as (i1 & i2 & b & H1 & H2 & H3 & _).
  exists i1, i2, b. split; [exact H1|]. split; [exact H2|exact H3].
Defined.

End InterestExamples.
