(* ===== verification/Lpv2.v ===== *)
(** * NDNLPv2 frames of package lpv2: ndn/lpv2/packet.go, ndn/lpv2/types.go

    Fields may come in any order and more than once; the last one counts, and
    acknowledgements add up.  [DecodePacketNoCopy] has the body of
    [DecodePacket] and differs in the name only. *)
From S2P Require Import Prelude Tlv Block Text Sha256 NdnComponent NdnName NdnCodec NdnMeta NdnData.
Local Open Scope Z_scope.

(** TLV types (types.go). *)
Module L.
Definition Fragment := 0x50.
Definition Sequence := 0x51.
Definition FragIndex := 0x52.
Definition FragCount := 0x53.
Definition PitToken := 0x62.
Definition LpPacket := 0x64.
Definition Nack := 0x0320.
Definition IncomingFaceID := 0x032C.
Definition NextHopFaceID := 0x0330.
Definition CachePolicy := 0x0334.
Definition CachePolicyType := 0x0335.
Definition CongestionMark := 0x0340.
Definition Ack := 0x0344.
Definition TxSequence := 0x0348.
Definition NonDiscovery := 0x034c.
Definition PrefixAnnouncement := 0x0350.
End L.

Definition lp_IsCritical (t : Z) : bool :=
  if (800 <=? t) && (t <=? 959) then Z.land t 3 =? 0 else true.

Record Packet := mkPacket {
  sequence : option Z;
  fragIndex : option Z;
  fragCount : option Z;
  pitToken : list byte;
  nextHopFaceID : option Z;
  incomingFaceID : option Z;
  cachePolicyType : option Z;
  congestionMark : option Z;
  txSequence : option Z;
  acks : list Z;
  nonDiscovery : bool;
  prefixAnnouncement : option Data;
  fragment : list byte;
  lwire : option Block
}.

(** ** Construction and setters

    A setter drops the cached wire; [with_sequence] and so on are the same with
    an optional value. *)

Definition NewPacket (fragment : list byte) : Packet :=
  mkPacket None None None [] None None None None None [] false None fragment None.
Definition NewIDLEPacket : Packet := NewPacket [].

(** Its fragment is the caller's slice; as bytes, it is that of [NewPacket]. *)
Definition NewPacketNoCopy (fragment : list byte) : Packet :=
  mkPacket None None None [] None None None None None [] false None fragment None.

Definition with_sequence (v : option Z) (p : Packet) : Packet :=
  let '(mkPacket se fi fc pt nh ic cp cm tx ak nd pa fr w) := p in mkPacket v fi fc pt nh ic cp cm tx ak nd pa fr None.
Definition with_fragIndex (v : option Z) (p : Packet) : Packet :=
  let '(mkPacket se fi fc pt nh ic cp cm tx ak nd pa fr w) := p in mkPacket se v fc pt nh ic cp cm tx ak nd pa fr None.
Definition with_fragCount (v : option Z) (p : Packet) : Packet :=
  let '(mkPacket se fi fc pt nh ic cp cm tx ak nd pa fr w) := p in mkPacket se fi v pt nh ic cp cm tx ak nd pa fr None.
Definition SetPitToken (v : list byte) (p : Packet) : Packet :=
  let '(mkPacket se fi fc pt nh ic cp cm tx ak nd pa fr w) := p in mkPacket se fi fc v nh ic cp cm tx ak nd pa fr None.
Definition with_nextHopFaceID (v : option Z) (p : Packet) : Packet :=
  let '(mkPacket se fi fc pt nh ic cp cm tx ak nd pa fr w) := p in mkPacket se fi fc pt v ic cp cm tx ak nd pa fr None.
Definition with_incomingFaceID (v : option Z) (p : Packet) : Packet :=
  let '(mkPacket se fi fc pt nh ic cp cm tx ak nd pa fr w) := p in mkPacket se fi fc pt nh v cp cm tx ak nd pa fr None.
Definition with_cachePolicyType (v : option Z) (p : Packet) : Packet :=
  let '(mkPacket se fi fc pt nh ic cp cm tx ak nd pa fr w) := p in mkPacket se fi fc pt nh ic v cm tx ak nd pa fr None.
Definition with_congestionMark (v : option Z) (p : Packet) : Packet :=
  let '(mkPacket se fi fc pt nh ic cp cm tx ak nd pa fr w) := p in mkPacket se fi fc pt nh ic cp v tx ak nd pa fr None.
Definition with_txSequence (v : option Z) (p : Packet) : Packet :=
  let '(mkPacket se fi fc pt nh ic cp cm tx ak nd pa fr w) := p in mkPacket se fi fc pt nh ic cp cm v ak nd pa fr None.
Definition SetSequence (v : Z) : Packet -> Packet := with_sequence (Some v).
Definition SetFragIndex (v : Z) : Packet -> Packet := with_fragIndex (Some v).
Definition SetFragCount (v : Z) : Packet -> Packet := with_fragCount (Some v).
Definition SetNextHopFaceID (v : Z) : Packet -> Packet := with_nextHopFaceID (Some v).
Definition SetIncomingFaceID (v : Z) : Packet -> Packet := with_incomingFaceID (Some v).
Definition SetCachePolicytype (v : Z) : Packet -> Packet := with_cachePolicyType (Some v).
Definition SetCongestionMark (v : Z) : Packet -> Packet := with_congestionMark (Some v).
Definition SetTxSequence (v : Z) : Packet -> Packet := with_txSequence (Some v).
Definition set_acks (v : list Z) (p : Packet) : Packet :=
  let '(mkPacket se fi fc pt nh ic cp cm tx ak nd pa fr w) := p in mkPacket se fi fc pt nh ic cp cm tx v nd pa fr None.
Definition AppendAck (v : Z) (p : Packet) : Packet := set_acks (acks p ++ [v]) p.
Definition ClearAcks (p : Packet) : Packet := set_acks [] p.
Definition SetNonDiscovery (v : bool) (p : Packet) : Packet :=
  let '(mkPacket se fi fc pt nh ic cp cm tx ak nd pa fr w) := p in mkPacket se fi fc pt nh ic cp cm tx ak v pa fr None.
Definition SetPrefixAnnouncement (v : option Data) (p : Packet) : Packet :=
  let '(mkPacket se fi fc pt nh ic cp cm tx ak nd pa fr w) := p in mkPacket se fi fc pt nh ic cp cm tx ak nd v fr None.
Definition SetFragment (v : list byte) (p : Packet) : Packet :=
  let '(mkPacket se fi fc pt nh ic cp cm tx ak nd pa fr w) := p in mkPacket se fi fc pt nh ic cp cm tx ak nd pa v None.
Definition set_lwire (w : option Block) (p : Packet) : Packet :=
  let '(mkPacket se fi fc pt nh ic cp cm tx ak nd pa fr _) := p in mkPacket se fi fc pt nh ic cp cm tx ak nd pa fr w.

(** [IsBare]: the last test is on the field before it, the other way around. *)
Definition is_nil {A} (x : option A) : bool := match x with None => true | Some _ => false end.
Definition IsBare (p : Packet) : bool :=
  is_nil (sequence p) && is_nil (fragIndex p) && is_nil (fragCount p) && (length (pitToken p) =? 0)%nat
  && is_nil (nextHopFaceID p) && is_nil (incomingFaceID p) && is_nil (cachePolicyType p) && is_nil (congestionMark p)
  && is_nil (txSequence p) && (length (acks p) =? 0)%nat && negb (nonDiscovery p)
  && is_nil (prefixAnnouncement p) && negb (is_nil (prefixAnnouncement p)).
Definition IsIdle (p : Packet) : bool := (length (fragment p) =? 0)%nat.

(** ** Decoding *)

(** A number, with the error of its field. *)
Definition nni_field (name : String.string) (elem : Block) (set : option Z -> Packet -> Packet) (p : Packet) : outcome Packet :=
  match DecodeNNIBlock (Some elem) with
  | Ok v => Ok (set_lwire (lwire p) (set (Some v) p))
  | _ => Err (ErrNew ("unable to decode " ++ name))
  end.

Definition parse_field (msg : String.string) (elem : Block) (k : Block -> outcome Packet) : outcome Packet :=
  let* (elem, err) := Parse elem in
  match err with Some _ => Err (ErrNew msg) | None => k elem end.

Definition Packet_elem (elem : Block) (p : Packet) : outcome Packet :=
  let t := tlvType elem in
  if t =? L.Fragment then Ok (set_lwire (lwire p) (SetFragment (value elem) p))
  else if t =? L.Sequence then nni_field "Sequence" elem with_sequence p
  else if t =? L.FragIndex then nni_field "FragIndex" elem with_fragIndex p
  else if t =? L.FragCount then nni_field "FragCount" elem with_fragCount p
  else if t =? L.PitToken then Ok (set_lwire (lwire p) (SetPitToken (value elem) p))
  else if t =? L.IncomingFaceID then nni_field "IncomingFaceID" elem with_incomingFaceID p
  else if t =? L.NextHopFaceID then nni_field "NextHopFaceID" elem with_nextHopFaceID p
  else if t =? L.CachePolicy then
    parse_field "unable to decode CachePolicy" elem (fun elem =>
      match Block.Find elem L.CachePolicyType with
      | None => Err (ErrNew "CachePolicy element does not contain CachePolicyType")
      | Some e => nni_field "CachePolicyType" e with_cachePolicyType p
      end)
  else if t =? L.CongestionMark then nni_field "CongestionMark" elem with_congestionMark p
  else if t =? L.Ack then
    nni_field "Ack" elem (fun v p => set_acks (acks p ++ [default 0 v]) p) p
  else if t =? L.TxSequence then nni_field "TxSequence" elem with_txSequence p
  else if t =? L.NonDiscovery then Ok (set_lwire (lwire p) (SetNonDiscovery true p))
  else if t =? L.PrefixAnnouncement then
    parse_field "unable to parse PrefixAnnouncement" elem (fun elem =>
      match Block.Find elem T.Data with
      | None => Err (ErrNew "PrefixAnnouncement does not contain Data")
      | Some data =>
          match DecodeData (Some data) false with
          | Ok pa => Ok (set_lwire (lwire p) (SetPrefixAnnouncement (Some pa) p))
          | Err _ => Err (ErrNew "unable to decode PrefixAnnouncement")
          | Panic => Panic
          end
      end)
  else if t =? L.Nack then Ok p
  else if lp_IsCritical t then Err ErrUnrecognizedCritical
  else Ok p.

Definition DecodePacket (wire : option Block) : outcome Packet :=
  match wire with
  | None => Err (ErrNew "wire is unset")
  | Some wire =>
      if negb (tlvType wire =? L.LpPacket) then Ok (NewPacket (Block.wire (Wire wire)))
      else
        let* (wire, err) := Parse wire in
        match err with
        | Some _ => Err (ErrNew "unable to decode LpPacket")
        | None => decode_elems Packet_elem (subelements wire) (set_lwire (Some wire) NewIDLEPacket)
        end
  end.

(** [DecodePacketNoCopy] has the body of [DecodePacket], its copies included. *)
Definition DecodePacketNoCopy (wire : option Block) : outcome Packet := DecodePacket wire.

(** ** Encoding *)

Definition nonempty {A} (l : list A) : option (list A) := match l with [] => None | _ => Some l end.
Definition set_if (b : bool) : option unit := if b then Some tt else None.

(** The fields before the prefix announcement. *)
Definition header_blocks (p : Packet) : list Block :=
  opt_block (EncodeNNIBlock L.Sequence) (sequence p)
  ++ opt_block (EncodeNNIBlock L.FragIndex) (fragIndex p)
  ++ opt_block (EncodeNNIBlock L.FragCount) (fragCount p)
  ++ opt_block (NewBlock L.PitToken) (nonempty (pitToken p))
  ++ opt_block (EncodeNNIBlock L.IncomingFaceID) (incomingFaceID p)
  ++ opt_block (EncodeNNIBlock L.NextHopFaceID) (nextHopFaceID p)
  ++ opt_block (fun v => NewBlock L.CachePolicy (Block.wire (Wire (EncodeNNIBlock L.CachePolicyType v)))) (cachePolicyType p)
  ++ opt_block (EncodeNNIBlock L.CongestionMark) (congestionMark p)
  ++ opt_block (EncodeNNIBlock L.TxSequence) (txSequence p)
  ++ map (EncodeNNIBlock L.Ack) (acks p)
  ++ opt_block (fun _ => NewEmptyBlock L.NonDiscovery) (set_if (nonDiscovery p)).

(** [Encode]: when the announcement cannot be encoded, the wire made so far
    stays. *)
Definition Packet_Encode (p : Packet) : Packet * outcome Block :=
  match lwire p with
  | Some w => (set_lwire (Some (Wire w)) p, Ok (Wire w))
  | None =>
      let finish p pas :=
        let w := Wire (parent L.LpPacket (header_blocks p ++ pas ++ opt_block (NewBlock L.Fragment) (nonempty (fragment p)))) in
        (set_lwire (Some w) p, Ok w) in
      match prefixAnnouncement p with
      | None => finish p []
      | Some d =>
          match Data_Encode d with
          | (d, Ok b) => finish (SetPrefixAnnouncement (Some d) p) [NewBlock L.PrefixAnnouncement (Block.wire (Wire b))]
          | (d, Err e) =>
              (set_lwire (Some (parent L.LpPacket (header_blocks p))) (SetPrefixAnnouncement (Some d) p),
               Err (ErrNew "unable to encode PrefixAnnouncement"))
          | (d, Panic) => (p, Panic)
          end
      end
  end.

(** ** Lemmas *)

(** A frame without a cached wire; its numbers are 64-bit. *)
Record lp_ok (p : Packet) : Prop := {
  lo_wire : lwire p = None;
  lo_numbers : Forall field_ok [sequence p; fragIndex p; fragCount p; nextHopFaceID p; incomingFaceID p;
                                cachePolicyType p; congestionMark p; txSequence p];
  lo_acks : Forall in_u64 (acks p) }.

(** What is encoded of the prefix announcement. *)
Definition announcement_blocks (pa : option Data) (pas : list Block) : Prop :=
  match pa with
  | None => pas = []
  | Some d => exists n m s sig, data_ok d n m s /\ Sign (signatureType s) (signed_bytes n m (content d) s) = Ok sig /\
      pas = [NewBlock L.PrefixAnnouncement (data_bytes n m (content d) s sig)]
  end.

Definition lp_blocks (p : Packet) (pas : list Block) : list Block :=
  header_blocks p ++ pas ++ opt_block (NewBlock L.Fragment) (nonempty (fragment p)).

(** The fields that are read back. *)
Definition announcement_read (pa pa' : option Data) : Prop :=
  match pa, pa' with
  | None, None => True
  | Some d, Some d' => forall n m s, data_ok d n m s -> data_read n m (content d) s d'
  | _, _ => False
  end.
Definition frame_read (p q : Packet) : Prop :=
  announcement_read (prefixAnnouncement p) (prefixAnnouncement q) /\
  set_lwire None (SetPrefixAnnouncement None q) = set_lwire None (SetPrefixAnnouncement None p).

Lemma lp_types p pas : announcement_blocks (prefixAnnouncement p) pas ->
  Forall (fun e => 0 <= tlvType e < 2 ^ 32) (lp_blocks p pas).
Proof.
  intros Hpa. unfold lp_blocks, header_blocks. rewrite !Forall_app. repeat split.
  all: match goal with
    | |- context [opt_block (EncodeNNIBlock ?t)] => apply (opt_block_types _ _ t); [type_range|intros; apply nni_type]
    | |- context [opt_block (NewBlock ?t)] => apply (opt_block_types _ _ t); [type_range|done]
    | |- context [L.CachePolicyType] => apply (opt_block_types _ _ L.CachePolicy); [type_range|done]
    | |- context [L.NonDiscovery] => apply (opt_block_types _ _ L.NonDiscovery); [type_range|done]
    | |- _ => idtac
    end.
  - apply Forall_forall. intros e (v & -> & _)%list_elem_of_fmap. rewrite nni_type. type_range.
  - destruct (prefixAnnouncement p) as [d|]; cbn in Hpa; [|by subst].
    destruct Hpa as (n & m & s & sig & _ & _ & ->). repeat constructor; done.
Qed.

(** *** Decoding field by field *)

Lemma decode_nni t name set o s : field_ok o ->
  (forall e, tlvType e = t -> Packet_elem e s = nni_field name e set s) -> set_lwire (lwire s) (set None s) = s ->
  decode_elems Packet_elem (map flat (opt_block (EncodeNNIBlock t) o)) s = Ok (set_lwire (lwire s) (set o s)).
Proof.
  intros Ho He Hn. apply (decode_opt _ _ _ _ (fun o => set_lwire (lwire s) (set o s))); [done|]. intros v ->.
  rewrite EncodeNNIBlock_new, flat_new, He by done. unfold nni_field. by rewrite DecodeNNIBlock_new.
Qed.

Lemma decode_acks l s : Forall in_u64 l ->
  decode_elems Packet_elem (map flat (map (EncodeNNIBlock L.Ack) l)) s = Ok (set_lwire (lwire s) (set_acks (acks s ++ l) s)).
Proof.
  intros H. revert s. induction H as [|v l Hv Hl IH]; intros s.
  - cbn. rewrite app_nil_r. by destruct s.
  - cbn [map]. rewrite decode_elems_cons, EncodeNNIBlock_new, flat_new.
    assert (E : Packet_elem (mkBlock L.Ack (EncodeNNI v) [] (enc (NewBlock L.Ack (EncodeNNI v)))) s =
                Ok (set_lwire (lwire s) (set_acks (acks s ++ [v]) s))).
    { transitivity (nni_field "Ack" (mkBlock L.Ack (EncodeNNI v) [] (enc (NewBlock L.Ack (EncodeNNI v))))
        (fun v p => set_acks (acks p ++ [default 0 v]) p) s); [done|].
      unfold nni_field. rewrite DecodeNNIBlock_new by done. by destruct s. }
    rewrite E. cbn [outcome_bind]. rewrite IH. destruct s. cbn. by rewrite <- app_assoc.
Qed.

Lemma decode_policy o s : field_ok o ->
  Forall (fun b => Z.of_nat (length (enc b)) < 2 ^ 64)
    (opt_block (fun v => NewBlock L.CachePolicy (Block.wire (Wire (EncodeNNIBlock L.CachePolicyType v)))) o) ->
  cachePolicyType s = None ->
  decode_elems Packet_elem (map flat (opt_block (fun v => NewBlock L.CachePolicy (Block.wire (Wire (EncodeNNIBlock L.CachePolicyType v)))) o)) s
    = Ok (set_lwire (lwire s) (with_cachePolicyType o s)).
Proof.
  intros Ho Hl Hs. apply (decode_opt _ _ _ _ (fun o => set_lwire (lwire s) (with_cachePolicyType o s))).
  { destruct s. cbn in *. by subst. }
  intros v ->. cbn in Ho. apply Forall_cons_1 in Hl as [Hl _].
  rewrite EncodeNNIBlock_new in Hl |- *. rewrite wire_Wire in Hl |- * by apply coherent_new.
  rewrite <- enc_flat, flat_nested, enc_flat in Hl. rewrite flat_nested. set (b := flat (parent _ _)).
  transitivity (parse_field "unable to decode CachePolicy" b (fun elem =>
    match Block.Find elem L.CachePolicyType with
    | None => Err (ErrNew "CachePolicy element does not contain CachePolicyType")
    | Some e => nni_field "CachePolicyType" e with_cachePolicyType s
    end)); [done|]. unfold parse_field, b.
  rewrite parent_Parse; [|type_range|apply Forall_cons_2; [type_range|apply Forall_nil_2]|exact Hl].
  cbn [outcome_bind map]. rewrite flat_new.
  change (Block.Find _ L.CachePolicyType) with
    (Some (mkBlock L.CachePolicyType (EncodeNNI v) [] (enc (NewBlock L.CachePolicyType (EncodeNNI v))))).
  cbv iota. unfold nni_field. by rewrite DecodeNNIBlock_new.
Qed.

(** The announcement decodes from its own block, which holds the packet. *)
Lemma decode_announcement pa pas s : announcement_blocks pa pas ->
  Forall (fun b => Z.of_nat (length (enc b)) < 2 ^ 64) pas -> prefixAnnouncement s = None ->
  exists pa', decode_elems Packet_elem (map flat pas) s = Ok (set_lwire (lwire s) (SetPrefixAnnouncement pa' s)) /\
    announcement_read pa pa'.
Proof.
  intros Hpa Hl Hs. unfold announcement_blocks in Hpa. destruct pa as [d|].
  2: { subst. exists None. split; [|done]. destruct s. cbn in *. by subst. }
  destruct Hpa as (n & m & sg & sig & Hok & Hsign & ->). apply Forall_cons_1 in Hl as [Hl _].
  set (db := parent T.Data (data_blocks n m (content d) sg sig)).
  change (data_bytes n m (content d) sg sig) with (enc db) in *.
  rewrite <- (enc_flat (NewBlock _ (enc db))), flat_nested, enc_flat in Hl. cbn [map]. rewrite flat_nested. set (b := flat (parent _ _)).
  assert (Hl2 : Z.of_nat (length (enc db)) < 2 ^ 64) by (eapply enc_sub_bound; [by left|exact Hl]).
  destruct (DecodeData_unchecked n m (content d) sg (do_sendable _ _ _ _ Hok) (do_meta_ok _ _ _ _ Hok)
    (do_sig_ok _ _ _ _ Hok) (do_data _ _ _ _ Hok) sig Hl2) as (d' & Ed & Hr & _).
  exists (Some d'). split.
  - rewrite decode_elems_cons. transitivity (let* s := parse_field "unable to parse PrefixAnnouncement" b (fun elem =>
      match Block.Find elem T.Data with
      | None => Err (ErrNew "PrefixAnnouncement does not contain Data")
      | Some data =>
          match DecodeData (Some data) false with
          | Ok pa => Ok (set_lwire (lwire s) (SetPrefixAnnouncement (Some pa) s))
          | Err _ => Err (ErrNew "unable to decode PrefixAnnouncement")
          | Panic => Panic
          end
      end) in decode_elems Packet_elem [] s); [done|].
    unfold parse_field, b.
    rewrite parent_Parse; [|type_range|apply Forall_cons_2; [type_range|apply Forall_nil_2]|exact Hl].
    cbn [outcome_bind map]. change (Block.Find _ T.Data) with (Some (flat db)). cbv iota. fold db in Ed. by rewrite Ed.
  - intros n' m' s' Hok'. pose proof (do_name _ _ _ _ Hok). pose proof (do_meta _ _ _ _ Hok). pose proof (do_sig _ _ _ _ Hok).
    pose proof (do_name _ _ _ _ Hok'). pose proof (do_meta _ _ _ _ Hok'). pose proof (do_sig _ _ _ _ Hok').
    by simplify_eq.
Qed.

(** A field of bytes, and the flag. *)
Lemma decode_bytes t set l s :
  (forall e, tlvType e = t -> Packet_elem e s = Ok (set_lwire (lwire s) (set (value e) s))) -> set_lwire (lwire s) (set [] s) = s ->
  decode_elems Packet_elem (map flat (opt_block (NewBlock t) (nonempty l))) s = Ok (set_lwire (lwire s) (set l s)).
Proof. intros He Hn. destruct l as [|x l]; cbn; [by rewrite Hn|]. by rewrite He. Qed.

Lemma decode_flag b s : nonDiscovery s = false ->
  decode_elems Packet_elem (map flat (opt_block (fun _ => NewEmptyBlock L.NonDiscovery) (set_if b))) s =
    Ok (set_lwire (lwire s) (SetNonDiscovery b s)).
Proof. intros Hs. destruct b; [done|]. destruct s. cbn in *. by subst. Qed.

Ltac of_type := intros [] E; cbn in E; subst; reflexivity.
Ltac next_field tac := eapply decode_then; [apply tac; first [done | of_type | reflexivity] |]; cbv beta;
  cbn [set_lwire lwire NewIDLEPacket NewPacket with_sequence with_fragIndex with_fragCount SetPitToken with_nextHopFaceID with_incomingFaceID
       with_cachePolicyType with_congestionMark with_txSequence set_acks acks app SetNonDiscovery].

Lemma decode_lp_header p w rest r : lp_ok p ->
  Forall (fun b => Z.of_nat (length (enc b)) < 2 ^ 64) (header_blocks p) ->
  decode_elems Packet_elem (map flat rest)
    (set_lwire (Some w) (SetFragment [] (SetPrefixAnnouncement None p))) = r ->
  decode_elems Packet_elem (map flat (header_blocks p ++ rest)) (set_lwire (Some w) NewIDLEPacket) = r.
Proof.
  intros [_ Hn Ha] Hl Hr. unfold header_blocks in *. rewrite !Forall_app in Hl. destruct Hl as (_ & _ & _ & _ & _ & _ & Hcp & _).
  rewrite !Forall_cons in Hn. destruct Hn as (H1 & H2 & H3 & H4 & H5 & H6 & H7 & H8 & _).
  rewrite <- !app_assoc. destruct p as [se fi fc pt nh ic cp cm tx ak nd pa fr w0].
  cbn [sequence fragIndex fragCount pitToken nextHopFaceID incomingFaceID cachePolicyType congestionMark txSequence acks nonDiscovery prefixAnnouncement fragment] in *.
  next_field (decode_nni L.Sequence "Sequence" with_sequence). next_field (decode_nni L.FragIndex "FragIndex" with_fragIndex).
  next_field (decode_nni L.FragCount "FragCount" with_fragCount). next_field (decode_bytes L.PitToken SetPitToken).
  next_field (decode_nni L.IncomingFaceID "IncomingFaceID" with_incomingFaceID).
  next_field (decode_nni L.NextHopFaceID "NextHopFaceID" with_nextHopFaceID). next_field decode_policy.
  next_field (decode_nni L.CongestionMark "CongestionMark" with_congestionMark).
  next_field (decode_nni L.TxSequence "TxSequence" with_txSequence). next_field decode_acks. next_field decode_flag.
  exact Hr.
Qed.

(** *** Encoding *)

Lemma lp_blocks_coherent p pas : announcement_blocks (prefixAnnouncement p) pas -> Forall coherent (lp_blocks p pas).
Proof.
  intros Hpa.
  unfold lp_blocks, header_blocks. rewrite !Forall_app. repeat split; try (apply opt_block_coherent; intros; first [apply nni_coherent|apply coherent_new]).
  - apply Forall_forall. intros e (v & -> & _)%list_elem_of_fmap. apply nni_coherent.
  - unfold announcement_blocks in Hpa. destruct (prefixAnnouncement p) as [d|]; [|by subst].
    destruct Hpa as (n & m & s & sig & _ & _ & ->). apply Forall_cons_2; [apply coherent_new|apply Forall_nil_2].
Qed.

Lemma Packet_Encode_ok p pas : lwire p = None -> announcement_blocks (prefixAnnouncement p) pas ->
  exists p', Packet_Encode p = (p', Ok (Wire (parent L.LpPacket (lp_blocks p pas)))).
Proof.
  intros Hw Hpa. unfold Packet_Encode, announcement_blocks in *. rewrite Hw.
  destruct (prefixAnnouncement p) as [d|]; [|subst; by eexists].
  destruct Hpa as (n & m & s & sig & Hok & Hsign & ->).
  destruct (Data_Encode_ok d n m s sig Hok Hsign) as (d' & b & Ed & _ & _ & Hco & Hfl & _). rewrite Ed.
  assert (Hb : Block.wire (Wire b) = data_bytes n m (content d) s sig).
  { rewrite wire_Wire by exact Hco. by rewrite enc_of_flat, Hfl. }
  rewrite Hb. destruct p; by eexists.
Qed.

(** ** Properties *)

(** C39: A link-layer frame survives encoding.  For a frame whose numbers are
    64-bit and whose prefix announcement, if any, can be signed, [Encode],
    [DecodeBlock] and [DecodePacket] give back every header field, the
    acknowledgements in their order, the PIT token and the fragment exactly,
    and an announcement as [data_roundtrip] gives back a Data packet: its name,
    MetaInfo, content and signature exactly, its SignatureInfo as [read_sig] says
    (a key locator comes back wrapped in one KeyLocator block more). *)
Theorem lp_roundtrip p pas rest :
  lp_ok p -> announcement_blocks (prefixAnnouncement p) pas ->
  Z.of_nat (length (enc (parent L.LpPacket (lp_blocks p pas)))) < 2 ^ 64 ->
  exists p1 b b' q, Packet_Encode p = (p1, Ok b) /\
    DecodeBlock (wire b ++ rest) = Ok (b', Z.of_nat (length (wire b))) /\
    DecodePacket (Some b') = Ok q /\ frame_read p q.
Proof.
  intros Hok Hpa Hl. destruct (Packet_Encode_ok p pas (lo_wire p Hok) Hpa) as [p1 He].
  pose proof (coherent_parent L.LpPacket _ (lp_blocks_coherent p pas Hpa)) as Hco.
  assert (Hsub : Forall (fun b => Z.of_nat (length (enc b)) < 2 ^ 64) (lp_blocks p pas)).
  { apply Forall_forall. intros b Hb. exact (enc_sub_bound _ _ _ Hb Hl). }
  unfold lp_blocks in Hsub. rewrite !Forall_app in Hsub. destruct Hsub as (Hh & Hp & _).
  destruct (parent_decodes L.LpPacket (lp_blocks p pas) rest) as [Hd _]; [type_range|by apply lp_types|done|].
  pose (w := mkBlock L.LpPacket (body (parent L.LpPacket (lp_blocks p pas))) (map flat (lp_blocks p pas)) (enc (parent L.LpPacket (lp_blocks p pas)))).
  destruct (decode_announcement _ _ (set_lwire (Some w) (SetFragment [] (SetPrefixAnnouncement None p))) Hpa Hp) as (pa' & Epa & Hr);
    [by destruct p|].
  eexists p1, _, _, _. split; [exact He|]. rewrite wire_Wire by done. split; [exact Hd|]. split.
  - unfold DecodePacket. change (negb (tlvType (flat _) =? L.LpPacket)) with false. cbv iota.
    rewrite parent_Parse; [|type_range|by apply lp_types|exact Hl]. cbn [outcome_bind subelements]. fold w.
    unfold lp_blocks. apply decode_lp_header; [done|done|]. rewrite map_app, decode_elems_app, Epa. cbn [outcome_bind].
    apply (decode_bytes L.Fragment SetFragment); [of_type|]. by destruct p.
  - split; by destruct p.
Qed.

(** No frame is ever bare, not even a new one; and after a prefix announcement
    that cannot be encoded the frame keeps a wire without it and without the
    fragment, which the next [Encode] returns as the frame. *)
Lemma lp_hazards p :
  IsBare p = false /\
  (forall p1 e, lwire p = None -> Packet_Encode p = (p1, Err e) ->
     Packet_Encode p1 = (set_lwire (Some (Wire (parent L.LpPacket (header_blocks p)))) p1, Ok (Wire (parent L.LpPacket (header_blocks p))))).
Proof.
  split.
  - unfold IsBare. rewrite <- andb_assoc, andb_negb_r. apply andb_false_r.
  - intros p1 e Hw. unfold Packet_Encode at 1. rewrite Hw. destruct (prefixAnnouncement p) as [d|]; [|done].
    destruct (Data_Encode d) as [d' [b|e'|]]; try done. intros [= <- _]. by destruct p.
Qed.

Module LpExamples.
Definition frame : Packet :=
  mkPacket (Some 1000) (Some 1) (Some 3) [xab; xcd] (Some 258) (Some 65536) (Some 1) (Some 1) (Some 0xffffffffffffffff)
    [7; 300; 70000] true (Some DataExamples.announcement) [x05; x00] None.

Lemma lp_roundtrip_witness :
  exists p1 b b' q, Packet_Encode frame = (p1, Ok b) /\ length (wire b) = 153%nat /\
    DecodeBlock (wire b ++ [xff]) = Ok (b', 153) /\ DecodePacket (Some b') = Ok q /\ frame_read frame q.
Proof.
  assert (Hok : lp_ok frame).
  { split; [done| |]; repeat first [apply Forall_nil_2 | apply Forall_cons_2]; vm_compute; intuition congruence. }
  pose (a := DataExamples.announcement).
  pose (n := default (mkName [] None []) (dname a)). pose (m := default NewMetaInfo (metaInfo a)).
  pose (sig := Sum256 (signed_bytes n m (content a) DataExamples.sig)).
  assert (Ha : data_ok a n m DataExamples.sig).
  { split; [done|done|split; [done|split; repeat constructor]|done| |done|apply DataExamples.sig_sendable|done].
    split; [done| | |done]; intros ? [= <-]; vm_compute; intuition congruence. }
  assert (Hpa : announcement_blocks (prefixAnnouncement frame) [NewBlock L.PrefixAnnouncement (data_bytes n m (content a) DataExamples.sig sig)]).
  { exists n, m, DataExamples.sig, sig. split; [exact Ha|]. split; done. }
  destruct (lp_roundtrip frame _ [xff] Hok Hpa) as (p1 & b & b' & q & He & Hd & Hr); [vm_compute; reflexivity|].
  assert (Hw : length (wire b) = 153%nat).
  { assert (Eb : (Packet_Encode frame).2 = Ok b) by (by rewrite He). vm_compute in Eb. injection Eb as <-. reflexivity. }
  exists p1, b, b', q. rewrite Hw in Hd. destruct Hr. auto 10.
Defined.
End LpExamples.
