(* ===== verification/NdnMgmt.v ===== *)
(** * Management structures of package ndn/mgmt

    Control parameters and responses and face query filters (NdnStatus.v has the
    status datasets).  [Encode] leaves the caches of the names it encodes filled;
    only its block is modelled.  Errors of the decoders are given up to the
    text of the inner error. *)
From S2P Require Import Prelude Tlv Block Text NetAddr Uri NdnComponent NdnName NdnCodec NdnMeta NdnData.
Local Open Scope Z_scope.

(** TLV types (ndn/tlv/types_mgmt.go). *)
Module TM.
Definition ControlParameters := 0x68.
Definition FaceID := 0x69.
Definition URI := 0x72.
Definition LocalURI := 0x81.
Definition Origin := 0x6F.
Definition Cost := 0x6A.
Definition Capacity := 0x83.
Definition Count := 0x84.
Definition BaseCongestionMarkingInterval := 0x87.
Definition DefaultCongestionThreshold := 0x88.
Definition MTU := 0x89.
Definition Flags := 0x6C.
Definition Mask := 0x70.
Definition Strategy := 0x6B.
Definition ExpirationPeriod := 0x6D.
Definition ControlResponse := 0x65.
Definition StatusCode := 0x66.
Definition StatusText := 0x67.
Definition NfdVersion := 0x80.
Definition StartTimestamp := 0x81.
Definition CurrentTimestamp := 0x82.
Definition NNameTreeEntries := 0x83.
Definition NFibEntries := 0x84.
Definition NPitEntries := 0x85.
Definition NMeasurementEntries := 0x86.
Definition NCsEntries := 0x87.
Definition NInInterests := 0x90.
Definition NInData := 0x91.
Definition NInNacks := 0x97.
Definition NOutInterests := 0x92.
Definition NOutData := 0x93.
Definition NOutNacks := 0x98.
Definition NSatisfiedInterests := 0x99.
Definition NUnsatisfiedInterests := 0x9A.
Definition FaceStatus := 0x80.
Definition ChannelStatus := 0x82.
Definition URIScheme := 0x83.
Definition FaceScope := 0x84.
Definition FacePersistency := 0x85.
Definition LinkType := 0x86.
Definition NInBytes := 0x94.
Definition NOutBytes := 0x95.
Definition FaceQueryFilter := 0x96.
Definition FaceEventNotification := 0xC0.
Definition FaceEventKind := 0xC1.
Definition FibEntry := 0x80.
Definition NextHopRecord := 0x81.
Definition CsInfo := 0x80.
Definition NHits := 0x81.
Definition NMisses := 0x82.
Definition StrategyChoice := 0x80.
Definition MeasurementEntry := 0x80.
Definition StrategyInfo := 0x81.
Definition RibEntry := 0x80.
Definition Route := 0x81.
End TM.

(** ** Shared steps of the decoders *)

(** A field that may come once: [if c.X != nil]; [old] is the field tested. *)
Definition once {A B} (dup : String.string) (old : option B) (k : outcome A) : outcome A :=
  match old with Some _ => Err (ErrNew ("duplicate " ++ dup)) | None => k end.

Definition number {A} (what : String.string) (elem : Block) (set : Z -> A) : outcome A :=
  match DecodeNNIBlock (Some elem) with
  | Ok v => Ok (set v)
  | Err _ => Err (ErrNew what)
  | Panic => Panic
  end.

Definition decoded_name {A} (what : String.string) (elem : Block) (set : Name -> A) : outcome A :=
  match DecodeName (Some elem) with
  | Ok n => Ok (set n)
  | Err _ => Err (ErrNew what)
  | Panic => Panic
  end.

Section uris.
Context `{NetEnv}.

(** ** ControlParameters *)

Record ControlParameters := mkCP {
  cpName : option Name;
  cpFaceID : option Z;
  cpURI : option URI;
  cpLocalURI : option URI;
  cpOrigin : option Z;
  cpCost : option Z;
  cpCapacity : option Z;
  cpCount : option Z;
  cpBaseInterval : option Z;
  cpThreshold : option Z;
  cpMTU : option Z;
  cpFlags : option Z;
  cpMask : option Z;
  cpStrategy : option Name;
  cpExpirationPeriod : option Z;
  cpFacePersistency : option Z
}.

Definition MakeControlParameters : ControlParameters := mkCP None None None None None None None None None None None None None None None None.

(** One sub-element.  The test for a second DefaultCongestionThreshold looks at
    the face. *)
Definition CP_elem (elem : Block) (c : ControlParameters) : outcome ControlParameters :=
  let '(mkCP na fi ur lu og co ca cn bi dt mt fl ma st ep fp) := c in
  let t := tlvType elem in
  if t =? T.Name then once "Name" na (decoded_name "unable to decode Name" elem (fun n => mkCP (Some n) fi ur lu og co ca cn bi dt mt fl ma st ep fp))
  else if t =? TM.FaceID then once "FaceId" fi (number "unable to decode FaceId" elem (fun v => mkCP na (Some v) ur lu og co ca cn bi dt mt fl ma st ep fp))
  else if t =? TM.URI then once "Uri" ur (Ok (mkCP na fi (DecodeURIString (value elem)) lu og co ca cn bi dt mt fl ma st ep fp))
  else if t =? TM.LocalURI then once "LocalUri" lu (Ok (mkCP na fi ur (DecodeURIString (value elem)) og co ca cn bi dt mt fl ma st ep fp))
  else if t =? TM.Origin then once "Origin" og (number "unable to decode Origin" elem (fun v => mkCP na fi ur lu (Some v) co ca cn bi dt mt fl ma st ep fp))
  else if t =? TM.Cost then once "Cost" co (number "unable to decode Cost" elem (fun v => mkCP na fi ur lu og (Some v) ca cn bi dt mt fl ma st ep fp))
  else if t =? TM.Capacity then once "FaceId" ca (number "unable to decode Capacity" elem (fun v => mkCP na fi ur lu og co (Some v) cn bi dt mt fl ma st ep fp))
  else if t =? TM.Count then once "Count" cn (number "unable to decode Count" elem (fun v => mkCP na fi ur lu og co ca (Some v) bi dt mt fl ma st ep fp))
  else if t =? TM.BaseCongestionMarkingInterval then once "BaseCongestionMarkingInterval" bi (number "unable to decode BaseCongestionMarkingInterval" elem (fun v => mkCP na fi ur lu og co ca cn (Some v) dt mt fl ma st ep fp))
  else if t =? TM.DefaultCongestionThreshold then once "DefaultCongestionThreshold" fi (number "unable to decode DefaultCongestionThreshold" elem (fun v => mkCP na fi ur lu og co ca cn bi (Some v) mt fl ma st ep fp))
  else if t =? TM.MTU then once "Mtu" mt (number "Unable to decode Mtu" elem (fun v => mkCP na fi ur lu og co ca cn bi dt (Some v) fl ma st ep fp))
  else if t =? TM.Flags then once "Flags" fl (number "unable to decode Flags" elem (fun v => mkCP na fi ur lu og co ca cn bi dt mt (Some v) ma st ep fp))
  else if t =? TM.Mask then once "Mask" ma (number "unable to decode Mask" elem (fun v => mkCP na fi ur lu og co ca cn bi dt mt fl (Some v) st ep fp))
  else if t =? TM.Strategy then once "Strategy" st (
    let* (elem, _) := Parse elem in
    match subelements elem with
    | [n] => decoded_name "unable to decode Strategy" n (fun n => mkCP na fi ur lu og co ca cn bi dt mt fl ma (Some n) ep fp)
    | _ => Err (ErrNew "unable to decode Strategy: Expecting one subelement")
    end)
  else if t =? TM.ExpirationPeriod then once "ExpirationPeriod" ep (number "unable to decode ExpirationPeriod" elem (fun v => mkCP na fi ur lu og co ca cn bi dt mt fl ma st (Some v) fp))
  else if t =? TM.FacePersistency then once "FacePersistency" fp (number "unable to decode FacePersistency" elem (fun v => mkCP na fi ur lu og co ca cn bi dt mt fl ma st ep (Some v)))
  else if IsCritical t then Err ErrUnrecognizedCritical
  else Ok c.

Definition DecodeControlParameters (wire : option Block) : outcome ControlParameters :=
  match wire with
  | None => Err (ErrNew "wire is unset")
  | Some wire =>
      if negb (tlvType wire =? TM.ControlParameters) then Err ErrUnexpected
      else let* (wire, _) := Parse wire in decode_elems CP_elem (subelements wire) MakeControlParameters
  end.

Definition CP_fields (c : ControlParameters) : list Block :=
  opt_block (fun n => (Name_Encode n).2) (cpName c)
  ++ opt_block (EncodeNNIBlock TM.FaceID) (cpFaceID c)
  ++ opt_block (fun u => NewBlock TM.URI (URI_String u)) (cpURI c)
  ++ opt_block (fun u => NewBlock TM.LocalURI (URI_String u)) (cpLocalURI c)
  ++ opt_block (EncodeNNIBlock TM.Origin) (cpOrigin c)
  ++ opt_block (EncodeNNIBlock TM.Cost) (cpCost c)
  ++ opt_block (EncodeNNIBlock TM.Capacity) (cpCapacity c)
  ++ opt_block (EncodeNNIBlock TM.Count) (cpCount c)
  ++ opt_block (EncodeNNIBlock TM.BaseCongestionMarkingInterval) (cpBaseInterval c)
  ++ opt_block (EncodeNNIBlock TM.DefaultCongestionThreshold) (cpThreshold c)
  ++ opt_block (EncodeNNIBlock TM.MTU) (cpMTU c)
  ++ opt_block (EncodeNNIBlock TM.Flags) (cpFlags c)
  ++ opt_block (EncodeNNIBlock TM.Mask) (cpMask c)
  ++ opt_block (fun n => Block.Append (NewEmptyBlock TM.Strategy) (Name_Encode n).2) (cpStrategy c)
  ++ opt_block (EncodeNNIBlock TM.ExpirationPeriod) (cpExpirationPeriod c)
  ++ opt_block (EncodeNNIBlock TM.FacePersistency) (cpFacePersistency c).

(** [Encode]; its error is always nil. *)
Definition CP_Encode (c : ControlParameters) : Block := Encode (parent TM.ControlParameters (CP_fields c)).

(** ** FaceQueryFilter *)

Record FaceQueryFilter := mkFQ {
  fqFaceID : option Z;
  fqURIScheme : option (list byte);
  fqURI : option URI;
  fqLocalURI : option URI;
  fqFaceScope : option Z;
  fqFacePersistency : option Z;
  fqLinkType : option Z
}.

Definition MakeFaceQueryFilter : FaceQueryFilter := mkFQ None None None None None None None.

Definition FQ_elem (elem : Block) (f : FaceQueryFilter) : outcome FaceQueryFilter :=
  let '(mkFQ fi us ur lu sc fp lt) := f in
  let t := tlvType elem in
  if t =? TM.FaceID then once "FaceId" fi (number "unable to decode FaceId" elem (fun v => mkFQ (Some v) us ur lu sc fp lt))
  else if t =? TM.URIScheme then once "UriScheme" us (Ok (mkFQ fi (Some (value elem)) ur lu sc fp lt))
  else if t =? TM.URI then once "Uri" ur (Ok (mkFQ fi us (DecodeURIString (value elem)) lu sc fp lt))
  else if t =? TM.LocalURI then once "LocalUri" lu (Ok (mkFQ fi us ur (DecodeURIString (value elem)) sc fp lt))
  else if t =? TM.FaceScope then once "FaceScope" sc (number "unable to decode FaceScope" elem (fun v => mkFQ fi us ur lu (Some v) fp lt))
  else if t =? TM.FacePersistency then
    once "FacePersistency" fp (number "unable to decode FacePersistency" elem (fun v => mkFQ fi us ur lu sc (Some v) lt))
  else if t =? TM.LinkType then once "LinkType" lt (number "unable to decode LinkType" elem (fun v => mkFQ fi us ur lu sc fp (Some v)))
  else if IsCritical t then Err ErrUnrecognizedCritical
  else Ok f.

Definition DecodeFaceQueryFilter (wire : option Block) : outcome FaceQueryFilter :=
  match wire with
  | None => Err (ErrNew "wire is unset")
  | Some wire =>
      if negb (tlvType wire =? TM.FaceQueryFilter) then Err ErrUnexpected
      else let* (wire, _) := Parse wire in decode_elems FQ_elem (subelements wire) MakeFaceQueryFilter
  end.

Definition DecodeFaceQueryFilterFromEncoded (wire : list byte) : outcome FaceQueryFilter :=
  let* (block, _) := DecodeBlock wire in DecodeFaceQueryFilter (Some block).

Definition FQ_fields (f : FaceQueryFilter) : list Block :=
  opt_block (EncodeNNIBlock TM.FaceID) (fqFaceID f)
  ++ opt_block (NewBlock TM.URIScheme) (fqURIScheme f)
  ++ opt_block (fun u => NewBlock TM.URI (URI_String u)) (fqURI f)
  ++ opt_block (fun u => NewBlock TM.LocalURI (URI_String u)) (fqLocalURI f)
  ++ opt_block (EncodeNNIBlock TM.FaceScope) (fqFaceScope f)
  ++ opt_block (EncodeNNIBlock TM.FacePersistency) (fqFacePersistency f)
  ++ opt_block (EncodeNNIBlock TM.LinkType) (fqLinkType f).

Definition FQ_Encode (f : FaceQueryFilter) : Block := Encode (parent TM.FaceQueryFilter (FQ_fields f)).
End uris.

(** ** ControlResponse *)

Record ControlResponse := mkCR { crStatusCode : Z; crStatusText : list byte; crBody : option Block }.

Definition MakeControlResponse (code : Z) (text : list byte) (body : option Block) : ControlResponse := mkCR code text body.

(** The loop ends at the first block of another type, the body. *)
Fixpoint CR_elems (elems : list Block) (hasStatusCode hasStatusText : bool) (c : ControlResponse) : outcome (bool * bool * ControlResponse) :=
  match elems with
  | [] => Ok (hasStatusCode, hasStatusText, c)
  | elem :: elems =>
      let '(mkCR code text body) := c in
      if tlvType elem =? TM.StatusCode then
        if hasStatusCode then Err (ErrNew "duplicate StatusCode")
        else let* c := number "unable to decode StatusCode" elem (fun v => mkCR v text body) in CR_elems elems true hasStatusText c
      else if tlvType elem =? TM.StatusText then
        if hasStatusText then Err (ErrNew "duplicate StatusText")
        else CR_elems elems hasStatusCode true (mkCR code (value elem) body)
      else Ok (hasStatusCode, hasStatusText, mkCR code text (Some elem))
  end.

(** The wire is not tested: a nil one panics, and any type will do. *)
Definition DecodeControlResponse (wire : option Block) : outcome ControlResponse :=
  match wire with
  | None => Panic
  | Some wire =>
      let* (wire, _) := Parse wire in
      let* (found, c) := CR_elems (subelements wire) false false (mkCR 0 [] None) in
      let '(hasStatusCode, hasStatusText) := found in
      if negb hasStatusCode then Err (ErrNew "missing StatusCode")
      else if negb hasStatusText then Err (ErrNew "missing StatusText")
      else Ok c
  end.

Definition CR_fields (c : ControlResponse) : list Block :=
  EncodeNNIBlock TM.StatusCode (crStatusCode c) :: NewBlock TM.StatusText (crStatusText c) :: option_list (crBody c).
Definition CR_Encode (c : ControlResponse) : Block := Encode (parent TM.ControlResponse (CR_fields c)).


(** ** Lemmas *)

Lemma decode_number {S} (step : Block -> S -> outcome S) t what (upd : option Z -> S) o :
  field_ok o -> (forall e, tlvType e = t -> step e (upd None) = number what e (fun v => upd (Some v))) ->
  decode_elems step (map flat (opt_block (EncodeNNIBlock t) o)) (upd None) = Ok (upd o).
Proof.
  intros Ho He. apply decode_opt; [done|]. intros v ->. rewrite EncodeNNIBlock_new, flat_new, He by done.
  unfold number. by rewrite DecodeNNIBlock_new.
Qed.

Lemma decode_value {S A} (step : Block -> S -> outcome S) t (f : A -> list byte) (upd : option A -> S) o :
  (forall e a, o = Some a -> tlvType e = t -> value e = f a -> step e (upd None) = Ok (upd (Some a))) ->
  decode_elems step (map flat (opt_block (fun a => NewBlock t (f a)) o)) (upd None) = Ok (upd o).
Proof. intros He. apply decode_opt; [done|]. intros a ->. rewrite flat_new. by eapply He. Qed.

Ltac of_type := intros [] E; cbn in E; subst; reflexivity.
Ltac next_field tac := eapply decode_then; [apply tac; first [done | of_type] |].

Section uris.
Context `{NetEnv}.

(** A URI that can be sent: its text gives it back, as that of a canonical URI
    does (Uri.v). *)
Definition uri_ok (o : option URI) : Prop := match o with Some u => DecodeURIString (URI_String u) = Some u | None => True end.
Definition name_ok (o : option Name) : Prop := match o with Some n => sendable n | None => True end.

Lemma decode_uri {S} (step : Block -> S -> outcome S) t (upd : option URI -> S) o : uri_ok o ->
  (forall e, tlvType e = t -> step e (upd None) = Ok (upd (DecodeURIString (value e)))) ->
  decode_elems step (map flat (opt_block (fun u => NewBlock t (URI_String u)) o)) (upd None) = Ok (upd o).
Proof. intros Ho He. apply decode_value. intros e u -> Ht Hv. rewrite He, Hv by done. cbn in Ho. by rewrite Ho. Qed.

(** *** Control parameters *)

Record cp_ok (c : ControlParameters) : Prop := {
  cpo_numbers : Forall field_ok [cpFaceID c; cpOrigin c; cpCost c; cpCapacity c; cpCount c; cpBaseInterval c; cpThreshold c;
                                 cpMTU c; cpFlags c; cpMask c; cpExpirationPeriod c; cpFacePersistency c];
  cpo_name : name_ok (cpName c);
  cpo_strategy : name_ok (cpStrategy c);
  cpo_uri : uri_ok (cpURI c);
  cpo_local : uri_ok (cpLocalURI c) }.

(** What is read back: names with filled caches, and all other fields as they
    are. *)
Definition cp_read (c : ControlParameters) : ControlParameters :=
  let '(mkCP na fi ur lu og co ca cn bi dt mt fl ma st ep fp) := c in
  mkCP (read_name <$> na) fi ur lu og co ca cn bi dt mt fl ma (read_name <$> st) ep fp.

Lemma name_block_facts n : sendable n ->
  coherent (Name_Encode n).2 /\ flat (Name_Encode n).2 = flat (name_of n) /\ tlvType (Name_Encode n).2 = T.Name.
Proof.
  intros Hn. destruct (Name_Encode_block n Hn) as (Hb & Hc & Hf). split; [done|]. split; [done|].
  change (tlvType (Name_Encode n).2) with (tlvType (flat (Name_Encode n).2)). by rewrite Hf.
Qed.

Lemma CP_fields_types c : cp_ok c -> Forall (fun e => 0 <= tlvType e < 2 ^ 32) (CP_fields c).
Proof.
  intros [_ Hn Hs _ _]. unfold CP_fields. rewrite !Forall_app. repeat split.
  all: match goal with
    | |- context [opt_block (EncodeNNIBlock ?t)] => apply (opt_block_types _ _ t); [type_range|intros; apply nni_type]
    | |- context [TM.URI] => apply (opt_block_types _ _ TM.URI); [type_range|done]
    | |- context [TM.LocalURI] => apply (opt_block_types _ _ TM.LocalURI); [type_range|done]
    | |- context [TM.Strategy] => apply (opt_block_types _ _ TM.Strategy); [type_range|done]
    | |- _ => idtac
    end.
  destruct (cpName c) as [n|]; [|done]. apply Forall_cons_2; [|done].
  destruct (name_block_facts n Hn) as (_ & _ & ->). type_range.
Qed.

Lemma CP_fields_coherent c : cp_ok c -> Forall coherent (CP_fields c).
Proof.
  intros [_ Hn Hs _ _]. unfold CP_fields. rewrite !Forall_app. repeat split.
  all: try (apply opt_block_coherent; intros; first [apply nni_coherent|apply coherent_new]).
  - destruct (cpName c) as [n|]; [|done]. apply Forall_cons_2; [|done]. by destruct (name_block_facts n Hn).
  - destruct (cpStrategy c) as [n|]; [|done]. apply Forall_cons_2; [|done]. apply (coherent_parent TM.Strategy [_]).
    apply Forall_cons_2; [|done]. by destruct (name_block_facts n Hs).
Qed.

(** The two names. *)
Lemma decode_cp_name o : name_ok o ->
  Forall (fun b => Z.of_nat (length (enc b)) < 2 ^ 64) (opt_block (fun n => (Name_Encode n).2) o) ->
  decode_elems CP_elem (map flat (opt_block (fun n => (Name_Encode n).2) o)) MakeControlParameters =
    Ok (mkCP (read_name <$> o) None None None None None None None None None None None None None None None).
Proof.
  intros Ho Hl. apply (decode_opt _ _ _ _ (fun o => mkCP (read_name <$> o) None None None None None None None None None None None None None None None)); [done|].
  intros n ->. apply Forall_cons_1 in Hl as [Hl _]. destruct (name_block_facts n Ho) as (_ & Hf & _).
  rewrite <- enc_flat, Hf, enc_flat in Hl. rewrite Hf. destruct Ho as (_ & _ & Hd).
  transitivity (decoded_name "unable to decode Name" (flat (name_of n)) (fun n => mkCP (Some n) None None None None None None None None None None None None None None None)); [done|].
  unfold decoded_name. by rewrite DecodeName_flat.
Qed.

Lemma decode_cp_strategy na fi ur lu og co ca cn bi dt mt fl ma o : name_ok o ->
  Forall (fun b => Z.of_nat (length (enc b)) < 2 ^ 64)
    (opt_block (fun n => Block.Append (NewEmptyBlock TM.Strategy) (Name_Encode n).2) o) ->
  decode_elems CP_elem (map flat (opt_block (fun n => Block.Append (NewEmptyBlock TM.Strategy) (Name_Encode n).2) o))
    (mkCP na fi ur lu og co ca cn bi dt mt fl ma None None None) = Ok (mkCP na fi ur lu og co ca cn bi dt mt fl ma (read_name <$> o) None None).
Proof.
  intros Ho Hl. apply (decode_opt _ _ _ _ (fun o => mkCP na fi ur lu og co ca cn bi dt mt fl ma (read_name <$> o) None None)); [done|].
  intros n ->. apply Forall_cons_1 in Hl as [Hl _]. destruct (name_block_facts n Ho) as (_ & Hf & _).
  change (Block.Append (NewEmptyBlock TM.Strategy) (Name_Encode n).2) with (parent TM.Strategy [(Name_Encode n).2]) in *.
  assert (Hp : flat (parent TM.Strategy [(Name_Encode n).2]) = flat (parent TM.Strategy [name_of n])) by (apply flat_parent_eq; cbn [map]; by rewrite Hf).
  rewrite <- enc_flat, Hp, enc_flat in Hl. rewrite Hp. destruct Ho as (_ & _ & Hd).
  pose proof (enc_sub_bound TM.Strategy [name_of n] (name_of n) ltac:(by left) Hl) as Hl2.
  transitivity (let* (elem, _) := Parse (flat (parent TM.Strategy [name_of n])) in
    match subelements elem with
    | [n] => decoded_name "unable to decode Strategy" n (fun n => mkCP na fi ur lu og co ca cn bi dt mt fl ma (Some n) None None)
    | _ => Err (ErrNew "unable to decode Strategy: Expecting one subelement")
    end); [done|].
  rewrite parent_Parse; [|type_range|apply Forall_cons_2; [type_range|done]|exact Hl]. cbn [outcome_bind map subelements].
  unfold decoded_name. by rewrite DecodeName_flat.
Qed.

(** Before the congestion threshold, and from there on. *)
Definition CP_rest (c : ControlParameters) : list Block :=
  opt_block (EncodeNNIBlock TM.DefaultCongestionThreshold) (cpThreshold c)
  ++ opt_block (EncodeNNIBlock TM.MTU) (cpMTU c)
  ++ opt_block (EncodeNNIBlock TM.Flags) (cpFlags c)
  ++ opt_block (EncodeNNIBlock TM.Mask) (cpMask c)
  ++ opt_block (fun n => Block.Append (NewEmptyBlock TM.Strategy) (Name_Encode n).2) (cpStrategy c)
  ++ opt_block (EncodeNNIBlock TM.ExpirationPeriod) (cpExpirationPeriod c)
  ++ opt_block (EncodeNNIBlock TM.FacePersistency) (cpFacePersistency c).

Definition cp_before (c : ControlParameters) : ControlParameters :=
  let '(mkCP na fi ur lu og co ca cn bi dt mt fl ma st ep fp) := c in mkCP (read_name <$> na) fi ur lu og co ca cn bi None None None None None None None.

Lemma decode_cp_first c r : cp_ok c -> Forall (fun b => Z.of_nat (length (enc b)) < 2 ^ 64) (CP_fields c) ->
  decode_elems CP_elem (map flat (CP_rest c)) (cp_before c) = r ->
  decode_elems CP_elem (map flat (CP_fields c)) MakeControlParameters = r.
Proof.
  intros [Hn Hna Hst Hu Hlu] Hl Hr. rewrite !Forall_cons in Hn. unfold CP_fields in *. rewrite !Forall_app in Hl.
  destruct c as [na fi ur lu og co ca cn bi dt mt fl ma st ep fp].
  cbn [cpName cpFaceID cpURI cpLocalURI cpOrigin cpCost cpCapacity cpCount cpBaseInterval cpThreshold cpMTU cpFlags cpMask cpStrategy cpExpirationPeriod cpFacePersistency] in *.
  destruct Hn as (N1 & N2 & N3 & N4 & N5 & N6 & N7 & N8 & N9 & N10 & N11 & N12 & _). destruct Hl as (Hl1 & _).
  eapply decode_then; [exact (decode_cp_name _ Hna Hl1)|]. set (n := read_name <$> na) in *.
  next_field (decode_number CP_elem TM.FaceID "unable to decode FaceId" (fun o => mkCP n o None None None None None None None None None None None None None None)).
  next_field (decode_uri CP_elem TM.URI (fun o => mkCP n fi o None None None None None None None None None None None None None)).
  next_field (decode_uri CP_elem TM.LocalURI (fun o => mkCP n fi ur o None None None None None None None None None None None None)).
  next_field (decode_number CP_elem TM.Origin "unable to decode Origin" (fun o => mkCP n fi ur lu o None None None None None None None None None None None)).
  next_field (decode_number CP_elem TM.Cost "unable to decode Cost" (fun o => mkCP n fi ur lu og o None None None None None None None None None None)).
  next_field (decode_number CP_elem TM.Capacity "unable to decode Capacity" (fun o => mkCP n fi ur lu og co o None None None None None None None None None)).
  next_field (decode_number CP_elem TM.Count "unable to decode Count" (fun o => mkCP n fi ur lu og co ca o None None None None None None None None)).
  next_field (decode_number CP_elem TM.BaseCongestionMarkingInterval "unable to decode BaseCongestionMarkingInterval" (fun o => mkCP n fi ur lu og co ca cn o None None None None None None None)).
  exact Hr.
Qed.

Lemma decode_cp_rest c : cp_ok c -> Forall (fun b => Z.of_nat (length (enc b)) < 2 ^ 64) (CP_rest c) ->
  cpFaceID c = None \/ cpThreshold c = None ->
  decode_elems CP_elem (map flat (CP_rest c)) (cp_before c) = Ok (cp_read c).
Proof.
  intros [Hn Hna Hst Hu Hlu] Hl Hft. rewrite !Forall_cons in Hn. unfold CP_rest in *. rewrite !Forall_app in Hl.
  destruct c as [na fi ur lu og co ca cn bi dt mt fl ma st ep fp]. unfold cp_before, cp_read.
  cbn [cpName cpFaceID cpURI cpLocalURI cpOrigin cpCost cpCapacity cpCount cpBaseInterval cpThreshold cpMTU cpFlags cpMask cpStrategy cpExpirationPeriod cpFacePersistency] in *.
  destruct Hn as (N1 & N2 & N3 & N4 & N5 & N6 & N7 & N8 & N9 & N10 & N11 & N12 & _). destruct Hl as (_ & _ & _ & _ & Hl1 & _).
  set (n := read_name <$> na) in *. set (s := read_name <$> st).
  eapply decode_then.
  { instantiate (1 := mkCP n fi ur lu og co ca cn bi dt None None None None None None).
    destruct dt as [t|]; [|done]. destruct Hft as [->|]; [|done].
    apply (decode_number CP_elem TM.DefaultCongestionThreshold "unable to decode DefaultCongestionThreshold"
      (fun o => mkCP n None ur lu og co ca cn bi o None None None None None None)); [done|of_type]. }
  next_field (decode_number CP_elem TM.MTU "Unable to decode Mtu" (fun o => mkCP n fi ur lu og co ca cn bi dt o None None None None None)).
  next_field (decode_number CP_elem TM.Flags "unable to decode Flags" (fun o => mkCP n fi ur lu og co ca cn bi dt mt o None None None None)).
  next_field (decode_number CP_elem TM.Mask "unable to decode Mask" (fun o => mkCP n fi ur lu og co ca cn bi dt mt fl o None None None)).
  eapply decode_then; [apply decode_cp_strategy; [exact Hst|exact Hl1]|].
  next_field (decode_number CP_elem TM.ExpirationPeriod "unable to decode ExpirationPeriod" (fun o => mkCP n fi ur lu og co ca cn bi dt mt fl ma s o None)).
  apply (decode_number CP_elem TM.FacePersistency "unable to decode FacePersistency" (fun o => mkCP n fi ur lu og co ca cn bi dt mt fl ma s ep o)); [done|of_type].
Qed.

Lemma decode_cp_threshold c f t : cpFaceID c = Some f -> cpThreshold c = Some t ->
  decode_elems CP_elem (map flat (CP_rest c)) (cp_before c) = Err (ErrNew "duplicate DefaultCongestionThreshold").
Proof.
  intros Hf Ht. unfold CP_rest. rewrite Ht, map_app, decode_elems_app. cbn [opt_block map]. rewrite decode_elems_cons, EncodeNNIBlock_new.
  destruct c. cbn in Hf. subst. done.
Qed.

(** *** Query filters *)

Record fq_ok (f : FaceQueryFilter) : Prop := {
  fqo_numbers : Forall field_ok [fqFaceID f; fqFaceScope f; fqFacePersistency f; fqLinkType f];
  fqo_uri : uri_ok (fqURI f);
  fqo_local : uri_ok (fqLocalURI f) }.

Lemma FQ_fields_ok f :
  Forall (fun e => 0 <= tlvType e < 2 ^ 32) (FQ_fields f) /\ Forall coherent (FQ_fields f).
Proof.
  unfold FQ_fields. rewrite !Forall_app. repeat split.
  all: try (apply opt_block_coherent; intros; first [apply nni_coherent|apply coherent_new]).
  all: match goal with
    | |- context [opt_block (EncodeNNIBlock ?t)] => apply (opt_block_types _ _ t); [type_range|intros; apply nni_type]
    | |- context [TM.URIScheme] => apply (opt_block_types _ _ TM.URIScheme); [type_range|done]
    | |- context [TM.URI] => apply (opt_block_types _ _ TM.URI); [type_range|done]
    | |- context [TM.LocalURI] => apply (opt_block_types _ _ TM.LocalURI); [type_range|done]
    end.
Qed.

Lemma decode_fq f : fq_ok f -> decode_elems FQ_elem (map flat (FQ_fields f)) MakeFaceQueryFilter = Ok f.
Proof.
  intros [Hn Hu Hl]. rewrite !Forall_cons in Hn. destruct Hn as (N1 & N2 & N3 & N4 & _). unfold FQ_fields.
  destruct f as [fi us ur lu sc fp lt]. cbn [fqFaceID fqURIScheme fqURI fqLocalURI fqFaceScope fqFacePersistency fqLinkType] in *.
  next_field (decode_number FQ_elem TM.FaceID "unable to decode FaceId" (fun o => mkFQ o None None None None None None)).
  eapply decode_then.
  { apply (decode_value FQ_elem TM.URIScheme (fun s => s) (fun o => mkFQ fi o None None None None None)).
    intros [] a _ E1 E2. cbn in E1, E2. by subst. }
  next_field (decode_uri FQ_elem TM.URI (fun o => mkFQ fi us o None None None None)).
  next_field (decode_uri FQ_elem TM.LocalURI (fun o => mkFQ fi us ur o None None None)).
  next_field (decode_number FQ_elem TM.FaceScope "unable to decode FaceScope" (fun o => mkFQ fi us ur lu o None None)).
  next_field (decode_number FQ_elem TM.FacePersistency "unable to decode FacePersistency" (fun o => mkFQ fi us ur lu sc o None)).
  apply (decode_number FQ_elem TM.LinkType "unable to decode LinkType" (fun o => mkFQ fi us ur lu sc fp o)); [done|of_type].
Qed.

(** ** Properties *)

(** Control parameters survive encoding, but for one pair of fields.  When
    names, URIs and numbers can be sent, the block [Encode] makes goes over
    the wire and [DecodeControlParameters] reads back all sixteen fields,
    unless both a FaceId and a DefaultCongestionThreshold are set: these the
    decoder refuses as a duplicate, wherever they came from. *)
Lemma control_parameters_roundtrip c rest :
  cp_ok c -> Z.of_nat (length (enc (parent TM.ControlParameters (CP_fields c)))) < 2 ^ 64 ->
  let w := wire (Wire (CP_Encode c)) in
  exists b, DecodeBlock (w ++ rest) = Ok (b, Z.of_nat (length w)) /\
    DecodeControlParameters (Some b) =
      match cpFaceID c, cpThreshold c with
      | Some _, Some _ => Err (ErrNew "duplicate DefaultCongestionThreshold")
      | _, _ => Ok (cp_read c)
      end.
Proof.
  intros Hok Hl w. pose proof (CP_fields_types c Hok) as Ht. pose proof (CP_fields_coherent c Hok) as Hco.
  destruct (encoded_decodes TM.ControlParameters (CP_fields c) rest ltac:(type_range) Ht Hco Hl) as [Hd Hp].
  eexists. split; [exact Hd|]. unfold DecodeControlParameters.
  change (negb (tlvType (flat _) =? TM.ControlParameters)) with false. cbv iota. rewrite Hp. cbn [outcome_bind subelements].
  assert (Hsub : Forall (fun b => Z.of_nat (length (enc b)) < 2 ^ 64) (CP_fields c)).
  { apply Forall_forall. intros b Hb. exact (enc_sub_bound _ _ _ Hb Hl). }
  assert (Hrest : Forall (fun b => Z.of_nat (length (enc b)) < 2 ^ 64) (CP_rest c)).
  { unfold CP_fields in Hsub. rewrite !Forall_app in Hsub. unfold CP_rest. rewrite !Forall_app. by intuition. }
  apply decode_cp_first; [done|done|].
  destruct (cpFaceID c) as [f|] eqn:Ef; [destruct (cpThreshold c) as [t|] eqn:Et|].
  - by apply (decode_cp_threshold c f t).
  - apply decode_cp_rest; auto.
  - apply decode_cp_rest; auto.
Qed.

(** Query filters and responses survive encoding: the bytes of an encoded
    filter decode to the filter, and those of a response to its status code,
    text and body, whatever comes behind the body. *)
Lemma filter_response_roundtrip f c rest :
  fq_ok f -> Z.of_nat (length (enc (parent TM.FaceQueryFilter (FQ_fields f)))) < 2 ^ 64 ->
  in_u64 (crStatusCode c) ->
  (forall b, crBody c = Some b -> coherent b /\ 0 <= tlvType b < 2 ^ 32 /\ tlvType b <> TM.StatusCode /\ tlvType b <> TM.StatusText) ->
  Z.of_nat (length (enc (parent TM.ControlResponse (CR_fields c)))) < 2 ^ 64 ->
  DecodeFaceQueryFilterFromEncoded (wire (Wire (FQ_Encode f)) ++ rest) = Ok f /\
  let w := wire (Wire (CR_Encode c)) in
  exists b, DecodeBlock (w ++ rest) = Ok (b, Z.of_nat (length w)) /\
    DecodeControlResponse (Some b) = Ok (mkCR (crStatusCode c) (crStatusText c) (flat <$> crBody c)).
Proof.
  intros Hok Hl Hn Hb Hlr. split.
  - destruct (FQ_fields_ok f) as [Ht Hco].
    destruct (encoded_decodes TM.FaceQueryFilter (FQ_fields f) rest ltac:(type_range) Ht Hco Hl) as [Hd Hp].
    unfold DecodeFaceQueryFilterFromEncoded, FQ_Encode. rewrite Hd. cbn [outcome_bind]. unfold DecodeFaceQueryFilter.
    change (negb (tlvType (flat _) =? TM.FaceQueryFilter)) with false. cbv iota. rewrite Hp. cbn [outcome_bind subelements].
    by apply decode_fq.
  - assert (Hf : Forall (fun e => 0 <= tlvType e < 2 ^ 32) (CR_fields c) /\ Forall coherent (CR_fields c)).
    { unfold CR_fields. destruct (crBody c) as [b|]; cbn [option_list]; [destruct (Hb b eq_refl) as (? & ? & _)|];
        split; repeat first [apply Forall_nil_2 | apply Forall_cons_2]; auto using nni_coherent, coherent_new;
        rewrite ?nni_type; type_range. }
    destruct Hf as [Ht Hco].
    destruct (encoded_decodes TM.ControlResponse (CR_fields c) rest ltac:(type_range) Ht Hco Hlr) as [Hd Hp].
    eexists. split; [exact Hd|]. unfold DecodeControlResponse. rewrite Hp. cbn [outcome_bind subelements].
    unfold CR_fields. cbn [map]. rewrite EncodeNNIBlock_new, !flat_new. cbn [CR_elems tlvType value].
    change (TM.StatusCode =? TM.StatusCode) with true. cbv iota. unfold number. rewrite DecodeNNIBlock_new by done.
    cbn [outcome_bind]. destruct (crBody c) as [b|]; [|done]. destruct (Hb b eq_refl) as (_ & _ & H1 & H2).
    change (TM.StatusText =? TM.StatusCode) with false. change (TM.StatusText =? TM.StatusText) with true. cbv iota.
    change (map flat (option_list (Some b))) with [flat b]. cbn [CR_elems]. change (tlvType (flat b)) with (tlvType b).
    rewrite (proj2 (Z.eqb_neq _ _) H1), (proj2 (Z.eqb_neq _ _) H2). done.
Qed.
End uris.

Module MgmtStructExamples.
#[local] Instance no_net : NetEnv := {|
  LookupHost := fun _ => None; os_Stat := fun _ => NotExist; windows := false; url_Parse := fun _ => None;
  ResolveTCPAddr := fun _ => None |}.

Definition uri : URI := mkURI devURI (gs "dev") (gs "eth0") 0.
Definition params (threshold : option Z) : ControlParameters :=
  mkCP (Some DataExamples.name) (Some 258) (Some uri) None (Some 255) (Some 10) None None (Some 100000000) threshold (Some 8800)
    (Some 3) (Some 7) (Some DataExamples.name) (Some 3600000) (Some 2).

Lemma uri_sendable : uri_ok (Some uri).
Proof. reflexivity. Qed.

Lemma params_ok threshold : field_ok threshold -> cp_ok (params threshold).
Proof.
  intros Ht. split; [|exact DataExamples.name_sendable|exact DataExamples.name_sendable|exact uri_sendable|done].
  repeat first [apply Forall_nil_2 | apply Forall_cons_2]; first [exact Ht | vm_compute; intuition congruence].
Qed.

Lemma control_parameters_roundtrip_witness :
  (exists b, DecodeBlock (wire (Wire (CP_Encode (params None))) ++ [xff]) = Ok (b, 85) /\
     DecodeControlParameters (Some b) = Ok (cp_read (params None))) /\
  (exists b, DecodeBlock (wire (Wire (CP_Encode (params (Some 65536)))) ++ [xff]) = Ok (b, 91) /\
     DecodeControlParameters (Some b) = Err (ErrNew "duplicate DefaultCongestionThreshold")).
Proof.
  assert (H1 : Z.of_nat (length (enc (parent TM.ControlParameters (CP_fields (params None))))) < 2 ^ 64) by (vm_compute; reflexivity).
  assert (H2 : Z.of_nat (length (enc (parent TM.ControlParameters (CP_fields (params (Some 65536)))))) < 2 ^ 64) by (vm_compute; reflexivity).
  assert (Hr : field_ok (Some 65536)) by (vm_compute; intuition congruence).
  split.
  - destruct (control_parameters_roundtrip (params None) [xff] (params_ok None I) H1) as (b & Hb & Hd). exists b. split; [exact Hb|exact Hd].
  - destruct (control_parameters_roundtrip (params (Some 65536)) [xff] (params_ok (Some 65536) Hr) H2) as (b & Hb & Hd).
    exists b. split; [exact Hb|exact Hd].
Defined.

Lemma filter_response_roundtrip_witness :
  let f := mkFQ (Some 300) (Some (gs "udp4")) (Some uri) None (Some 1) None (Some 0) in
  let c := mkCR 200 (gs "OK") (Some (NewBlock TM.ControlParameters [x69; x01; x05])) in
  DecodeFaceQueryFilterFromEncoded (wire (Wire (FQ_Encode f)) ++ [xff]) = Ok f /\
  exists b, DecodeBlock (wire (Wire (CR_Encode c)) ++ [xff]) = Ok (b, 14) /\
    DecodeControlResponse (Some b) = Ok (mkCR 200 (gs "OK") (flat <$> crBody c)).
Proof.
  intros f c. refine (filter_response_roundtrip f c [xff] _ _ _ _ _).
  - split; [|exact uri_sendable|done]. repeat first [apply Forall_nil_2 | apply Forall_cons_2]; vm_compute; intuition congruence.
  - vm_compute. reflexivity.
  - vm_compute. intuition congruence.
  - intros b [= <-]. split; [apply coherent_new|]. vm_compute. intuition congruence.
  - vm_compute. reflexivity.
Defined.
End MgmtStructExamples.
