(* ===== verification/NdnStatus.v ===== *)
(** * Status datasets of package ndn/mgmt

    The entries of the datasets management publishes, which are only encoded,
    and the segments a dataset is cut into. *)
From S2P Require Import Prelude Tlv Block Text NetAddr Uri NdnComponent NdnName NdnCodec NdnMeta NdnData NdnMgmt.
Local Open Scope Z_scope.

(** ** Entries *)

Section uris.
Context `{NetEnv}.

Definition uri_block (t : Z) (u : URI) : Block := NewBlock t (URI_String u).

Record ChannelStatus := mkChannel { chLocalURI : URI }.
Definition MakeChannelStatus (localURI : option URI) : outcome ChannelStatus :=
  match localURI with Some u => Ok (mkChannel u) | None => Panic end.
Definition Channel_Encode (c : ChannelStatus) : Block := Encode (parent TM.ChannelStatus [uri_block TM.LocalURI (chLocalURI c)]).

Record FaceStatus := mkFace {
  fsFaceID : Z;
  fsURI : option URI;
  fsLocalURI : option URI;
  fsExpirationPeriod : option Z;
  fsFaceScope : Z;
  fsFacePersistency : Z;
  fsLinkType : Z;
  fsBaseCongestionMarkingInterval : option Z;
  fsDefaultCongestionThreshold : option Z;
  fsMTU : option Z;
  fsNInInterests : Z;
  fsNInData : Z;
  fsNInNacks : Z;
  fsNOutInterests : Z;
  fsNOutData : Z;
  fsNOutNacks : Z;
  fsNInBytes : Z;
  fsNOutBytes : Z;
  fsFlags : Z
}.

Definition MakeFaceStatus : FaceStatus := mkFace 0 None None None 0 0 0 None None None 0 0 0 0 0 0 0 0 0.

Definition face_blocks (f : FaceStatus) (uri localURI : URI) : list Block :=
  [EncodeNNIBlock TM.FaceID (fsFaceID f); uri_block TM.URI uri; uri_block TM.LocalURI localURI]
  ++ opt_block (EncodeNNIBlock TM.ExpirationPeriod) (fsExpirationPeriod f)
  ++ [EncodeNNIBlock TM.FaceScope (fsFaceScope f); EncodeNNIBlock TM.FacePersistency (fsFacePersistency f);
      EncodeNNIBlock TM.LinkType (fsLinkType f)]
  ++ opt_block (EncodeNNIBlock TM.BaseCongestionMarkingInterval) (fsBaseCongestionMarkingInterval f)
  ++ opt_block (EncodeNNIBlock TM.DefaultCongestionThreshold) (fsDefaultCongestionThreshold f)
  ++ opt_block (EncodeNNIBlock TM.MTU) (fsMTU f)
  ++ [EncodeNNIBlock TM.NInInterests (fsNInInterests f);
      EncodeNNIBlock TM.NInData (fsNInData f);
      EncodeNNIBlock TM.NInNacks (fsNInNacks f);
      EncodeNNIBlock TM.NOutInterests (fsNOutInterests f);
      EncodeNNIBlock TM.NOutData (fsNOutData f);
      EncodeNNIBlock TM.NOutNacks (fsNOutNacks f);
      EncodeNNIBlock TM.NInBytes (fsNInBytes f);
      EncodeNNIBlock TM.NOutBytes (fsNOutBytes f);
      EncodeNNIBlock TM.Flags (fsFlags f)].

Definition Face_Encode (f : FaceStatus) : outcome Block :=
  match fsURI f, fsLocalURI f with
  | None, _ => Err (ErrNew "URI is required, but unset")
  | Some _, None => Err (ErrNew "LocalUri is required, but unset")
  | Some u, Some l => Ok (Encode (parent TM.FaceStatus (face_blocks f u l)))
  end.
End uris.

Record NextHopRecord := mkHop { nhFaceID : Z; nhCost : Z }.
Record FibEntry := mkFib { feName : Name; feNexthops : list NextHopRecord }.
Definition MakeFibEntry (name : option Name) : outcome FibEntry :=
  match name with Some n => Ok (mkFib n []) | None => Panic end.
Definition hop_block (r : NextHopRecord) : Block :=
  parent TM.NextHopRecord [EncodeNNIBlock TM.FaceID (nhFaceID r); EncodeNNIBlock TM.Cost (nhCost r)].
Definition Fib_Encode (f : FibEntry) : Block :=
  Encode (parent TM.FibEntry ((Name_Encode (feName f)).2 :: map hop_block (feNexthops f))).

Record GeneralStatus := mkGeneral {
  gsNfdVersion : list byte;
  gsStartTimestamp : Z;
  gsCurrentTimestamp : Z;
  gsNNameTreeEntries : Z;
  gsNFibEntries : Z;
  gsNPitEntries : Z;
  gsNMeasurementEntries : Z;
  gsNCsEntries : Z;
  gsNInInterests : Z;
  gsNInData : Z;
  gsNInNacks : Z;
  gsNOutInterests : Z;
  gsNOutData : Z;
  gsNOutNacks : Z;
  gsNSatisfiedInterests : Z;
  gsNUnsatisfiedInterests : Z
}.
Definition MakeGeneralStatus : GeneralStatus := mkGeneral [] 0 0 0 0 0 0 0 0 0 0 0 0 0 0 0.
(** The block has the type of a packet's content. *)
Definition General_Encode (g : GeneralStatus) : Block :=
  Encode (parent T.Content
    [NewBlock TM.NfdVersion (gsNfdVersion g);
     EncodeNNIBlock TM.StartTimestamp (gsStartTimestamp g);
     EncodeNNIBlock TM.CurrentTimestamp (gsCurrentTimestamp g);
     EncodeNNIBlock TM.NNameTreeEntries (gsNNameTreeEntries g);
     EncodeNNIBlock TM.NFibEntries (gsNFibEntries g);
     EncodeNNIBlock TM.NPitEntries (gsNPitEntries g);
     EncodeNNIBlock TM.NMeasurementEntries (gsNMeasurementEntries g);
     EncodeNNIBlock TM.NCsEntries (gsNCsEntries g);
     EncodeNNIBlock TM.NInInterests (gsNInInterests g);
     EncodeNNIBlock TM.NInData (gsNInData g);
     EncodeNNIBlock TM.NInNacks (gsNInNacks g);
     EncodeNNIBlock TM.NOutInterests (gsNOutInterests g);
     EncodeNNIBlock TM.NOutData (gsNOutData g);
     EncodeNNIBlock TM.NOutNacks (gsNOutNacks g);
     EncodeNNIBlock TM.NSatisfiedInterests (gsNSatisfiedInterests g);
     EncodeNNIBlock TM.NUnsatisfiedInterests (gsNUnsatisfiedInterests g)]).

(** The expiration period is written as a second face. *)
Record Route := mkRoute { roFaceID : Z; roOrigin : Z; roCost : Z; roFlags : Z; roExpirationPeriod : option Z }.
Record RibEntry := mkRib { reName : Name; reRoutes : list Route }.
Definition MakeRibEntry (name : option Name) : outcome RibEntry :=
  match name with Some n => Ok (mkRib n []) | None => Panic end.
Definition route_block (r : Route) : Block :=
  parent TM.Route
    ([EncodeNNIBlock TM.FaceID (roFaceID r); EncodeNNIBlock TM.Origin (roOrigin r); EncodeNNIBlock TM.Cost (roCost r);
      EncodeNNIBlock TM.Flags (roFlags r)]
     ++ opt_block (fun d => EncodeNNIBlock TM.FaceID (duration_ms d)) (roExpirationPeriod r)).
Definition Rib_Encode (f : RibEntry) : Block :=
  Encode (parent TM.RibEntry ((Name_Encode (reName f)).2 :: map route_block (reRoutes f))).

Definition CsFlagEnableAdmit : Z := 1.
Definition CsFlagEnableServe : Z := 2.
Record CsStatus := mkCs { csCapacity : Z; csFlags : Z; csNCsEntries : Z; csNHits : Z; csNMisses : Z }.
(** [Flags] is an [int]. *)
Definition Cs_Encode (s : CsStatus) : Block :=
  Encode (parent TM.CsInfo
    [EncodeNNIBlock TM.Capacity (csCapacity s); EncodeNNIBlock TM.Flags (u64 (csFlags s));
     EncodeNNIBlock TM.NCsEntries (csNCsEntries s); EncodeNNIBlock TM.NHits (csNHits s); EncodeNNIBlock TM.NMisses (csNMisses s)]).

Record StrategyChoice := mkChoice { scName : option Name; scStrategy : option Name }.
Definition MakeStrategyChoice (name strategy : option Name) : StrategyChoice := mkChoice name strategy.
Definition MakeStrategyChoiceList : list StrategyChoice := [].
Fixpoint Choices_Encode (s : list StrategyChoice) : outcome (list Block) :=
  match s with
  | [] => Ok []
  | c :: s =>
      match scName c, scStrategy c with
      | Some n, Some st =>
          let wire := parent TM.StrategyChoice [(Name_Encode n).2; parent TM.Strategy [(Name_Encode st).2]] in
          let* encoded := Choices_Encode s in Ok (Encode wire :: encoded)
      | _, _ => Panic
      end
  end.

(** ** Segments of a dataset *)

Definition segment_name (name : Name) (version segment : Z) : outcome Name :=
  let* n := Append (Comp (NewVersionNameComponent version)) (DeepCopy name) in
  Append (Comp (NewSegmentNameComponent segment)) n.

Definition segment_data (name : Name) (version segment lastSegment : Z) (content : list byte) : outcome Data :=
  let* segmentName := segment_name name version segment in
  match NewData (Some segmentName) content with
  | None => Panic
  | Some data =>
      let metaInfo := SetFinalBlockID (Comp (NewSegmentNameComponent lastSegment))
                        (SetFreshnessPeriod (1000 * Millisecond) NewMetaInfo) in
      Ok (SetMetaInfo (Some metaInfo) data)
  end.

(** The content of a segment: [segment < segment-1] never holds. *)
Definition segment_content (dataset : list byte) (segment : Z) : outcome (list byte) :=
  if segment <? segment - 1 then go_slice dataset (8000 * segment) (8000 * (segment + 1))
  else go_slice dataset (8000 * segment) (Z.of_nat (length dataset)).

Fixpoint segments_from (n : nat) (name : Name) (version segment nSegments : Z) (dataset : list byte) : outcome (list Data) :=
  match n with
  | O => Ok []
  | S n =>
      let* content := segment_content dataset segment in
      let* data := segment_data name version segment (nSegments - 1) content in
      let* l := segments_from n name version (segment + 1) nSegments dataset in
      Ok (data :: l)
  end.

(** The quotient is computed with floating-point numbers, exactly for lengths
    below 2^53. *)
Definition MakeStatusDataset (name : Name) (version : Z) (dataset : list byte) : outcome (list Data) :=
  let nSegments := (Z.of_nat (length dataset) + 7999) / 8000 in
  if nSegments =? 0 then
    let* data := segment_data name version 0 0 [] in Ok [data]
  else segments_from (Z.to_nat nSegments) name version 0 nSegments dataset.

(** ** Lemmas *)

(** What a reader finds in a block of numbers: their types and values. *)
Definition numbers (b : Block) : outcome (list (Z * Z)) :=
  let* (b, _) := Parse b in
  foldr (fun e l => let* v := DecodeNNIBlock (Some e) in let* l := l in Ok ((tlvType e, v) :: l)) (Ok []) (subelements b).

Definition number_blocks (l : list (Z * Z)) : list Block := map (fun '(t, v) => EncodeNNIBlock t v) l.
Definition sendable_number (x : Z * Z) : Prop := 0 <= x.1 < 2 ^ 32 /\ in_u64 x.2.

Lemma number_blocks_ok l : Forall sendable_number l ->
  Forall (fun e => 0 <= tlvType e < 2 ^ 32) (number_blocks l) /\ Forall coherent (number_blocks l).
Proof.
  intros Hl. unfold number_blocks. split; apply Forall_map; (eapply Forall_impl; [exact Hl|]); intros [t v] [Ht Hv].
  - by rewrite nni_type.
  - apply nni_coherent.
Qed.

Lemma numbers_flat t l : 0 <= t < 2 ^ 32 -> Forall sendable_number l ->
  Z.of_nat (length (enc (parent t (number_blocks l)))) < 2 ^ 64 ->
  numbers (flat (parent t (number_blocks l))) = Ok l.
Proof.
  intros Ht Hl Hlen. destruct (number_blocks_ok l Hl) as [Hty _]. unfold numbers. rewrite parent_Parse by done.
  cbn [outcome_bind subelements]. clear Hlen Hty. induction Hl as [|[k v] l [_ Hv] Hl IH]; [done|].
  cbn [number_blocks map foldr]. rewrite EncodeNNIBlock_new at 1. rewrite flat_new, DecodeNNIBlock_new by done. cbn [outcome_bind].
  change (map _ l) with (number_blocks l). rewrite IH. cbn [outcome_bind]. do 3 f_equal.
  change (tlvType (flat (EncodeNNIBlock k v)) = k). apply nni_type.
Qed.

(** The numbers of a route, a next hop. *)
Definition route_numbers (r : Route) : list (Z * Z) :=
  [(TM.FaceID, roFaceID r); (TM.Origin, roOrigin r); (TM.Cost, roCost r); (TM.Flags, roFlags r)]
  ++ option_list ((fun d => (TM.FaceID, duration_ms d)) <$> roExpirationPeriod r).
Definition hop_numbers (r : NextHopRecord) : list (Z * Z) := [(TM.FaceID, nhFaceID r); (TM.Cost, nhCost r)].

Lemma route_block_eq r : route_block r = parent TM.Route (number_blocks (route_numbers r)).
Proof. unfold route_block, route_numbers. by destruct (roExpirationPeriod r). Qed.

Definition route_ok (r : Route) : Prop :=
  in_u64 (roFaceID r) /\ in_u64 (roOrigin r) /\ in_u64 (roCost r) /\ in_u64 (roFlags r).
Definition hop_ok (r : NextHopRecord) : Prop := in_u64 (nhFaceID r) /\ in_u64 (nhCost r).

Lemma route_sendable r : route_ok r -> Forall sendable_number (route_numbers r).
Proof.
  intros (H1 & H2 & H3 & H4). unfold route_numbers. apply Forall_app. split.
  - repeat first [apply Forall_nil_2 | apply Forall_cons_2]; (split; [type_range|done]).
  - destruct (roExpirationPeriod r) as [d|]; [|apply Forall_nil_2]. apply Forall_cons_2; [|apply Forall_nil_2].
    split; [type_range|]. apply u64_range.
Qed.

Lemma hop_sendable r : hop_ok r -> Forall sendable_number (hop_numbers r).
Proof. intros (H1 & H2). repeat first [apply Forall_nil_2 | apply Forall_cons_2]; (split; [type_range|done]). Qed.

(** An entry: a name and records of numbers. *)
Lemma entry_read {R} t rt (n : Name) (rs : list R) (nums : R -> list (Z * Z)) rest :
  0 <= t < 2 ^ 32 -> 0 <= rt < 2 ^ 32 -> sendable n -> Forall (fun r => Forall sendable_number (nums r)) rs ->
  let subs := (Name_Encode n).2 :: map (fun r => parent rt (number_blocks (nums r))) rs in
  Z.of_nat (length (enc (parent t subs))) < 2 ^ 64 ->
  let w := wire (Wire (Encode (parent t subs))) in
  exists b p, DecodeBlock (w ++ rest) = Ok (b, Z.of_nat (length w)) /\ Parse b = Ok (p, None) /\
    exists nb rbs, subelements p = nb :: rbs /\ DecodeName (Some nb) = Ok (read_name n) /\
      map numbers rbs = map (fun r => Ok (nums r)) rs.
Proof.
  intros Ht Hrt Hn Hrs subs Hl w. destruct (name_block_facts n Hn) as (Hc & Hf & Hty).
  assert (Hsub : Forall (fun e => 0 <= tlvType e < 2 ^ 32) subs).
  { apply Forall_cons_2; [rewrite Hty; type_range|]. apply Forall_map, Forall_true. done. }
  assert (Hco : Forall coherent subs).
  { apply Forall_cons_2; [done|]. apply Forall_map. eapply Forall_impl; [exact Hrs|]. intros r Hr.
    apply coherent_parent. by destruct (number_blocks_ok _ Hr). }
  destruct (encoded_decodes t subs rest Ht Hsub Hco Hl) as [Hd Hp].
  eexists _, _. split; [exact Hd|]. split; [exact Hp|].
  exists (flat (Name_Encode n).2), (map flat (map (fun r => parent rt (number_blocks (nums r))) rs)). split; [reflexivity|].
  assert (Hls : forall b, b ∈ subs -> Z.of_nat (length (enc b)) < 2 ^ 64) by (intros b Hb; exact (enc_sub_bound _ _ _ Hb Hl)).
  split.
  - rewrite Hf. apply DecodeName_flat; [by destruct Hn as (_ & _ & ?)|].
    rewrite <- enc_flat, <- Hf, enc_flat. apply Hls. by left.
  - rewrite !map_map. apply list_fmap_ext. intros i r Hr%list_elem_of_lookup_2. rewrite Forall_forall in Hrs.
    apply numbers_flat; [done|by apply Hrs|]. apply Hls. right. apply list_elem_of_fmap. by exists r.
Qed.

(** *** Segments *)

Lemma segment_name_ok n v k : exists n', segment_name n v k = Ok n' /\
  components n' = (component_DeepCopy <$> components n) ++ [NewVersionNameComponent v; NewSegmentNameComponent k].
Proof. unfold segment_name, Append. cbn. eexists. split; [reflexivity|]. cbn. by rewrite <- app_assoc. Qed.

(** A segment of a dataset: its name, content and MetaInfo. *)
Definition is_segment (n : Name) (v k last : Z) (c : list byte) (d : Data) : Prop :=
  (exists n', dname d = Some n' /\
     components n' = (component_DeepCopy <$> components n) ++ [NewVersionNameComponent v; NewSegmentNameComponent k]) /\
  content d = c /\ metaInfo d = Some (mkMetaInfo None (Some (1000 * Millisecond)) (Comp (NewSegmentNameComponent last)) None) /\
  dwire d = None.

Lemma segment_data_ok n v k last c : exists d, segment_data n v k last c = Ok d /\ is_segment n v k last c d.
Proof.
  destruct (segment_name_ok n v k) as (n' & E & Hn). unfold segment_data. rewrite E. cbn [outcome_bind NewData].
  eexists. split; [reflexivity|]. split; [by exists n'|done].
Qed.

Lemma segment_content_ok ds k : 0 <= k -> 8000 * k <= Z.of_nat (length ds) ->
  segment_content ds k = Ok (drop (Z.to_nat (8000 * k)) ds).
Proof.
  intros Hk Hl. unfold segment_content. replace (k <? k - 1) with false by lia.
  unfold go_slice. rewrite bool_decide_true by lia. f_equal. apply take_ge. rewrite length_drop. lia.
Qed.

Lemma segments_from_ok m n v k nseg ds : 0 <= k ->
  (m = 0%nat \/ 8000 * (k + Z.of_nat m - 1) <= Z.of_nat (length ds)) ->
  exists l, segments_from m n v k nseg ds = Ok l /\ length l = m /\
    forall i d, l !! i = Some d ->
      is_segment n v (k + Z.of_nat i) (nseg - 1) (drop (Z.to_nat (8000 * (k + Z.of_nat i))) ds) d.
Proof.
  revert k. induction m as [|m IH]; intros k Hk Hm; [by exists []|].
  destruct (IH (k + 1)) as (l & E & Hl & Hd); [lia|lia|].
  destruct (segment_data_ok n v k (nseg - 1) (drop (Z.to_nat (8000 * k)) ds)) as (d & Ed & Hsd).
  exists (d :: l). cbn [segments_from]. rewrite segment_content_ok by lia. cbn [outcome_bind]. rewrite Ed. cbn [outcome_bind].
  rewrite E. split; [done|]. split; [cbn; lia|]. intros [|i] d'; cbn [lookup list_lookup].
  - intros [= <-]. by rewrite Z.add_0_r.
  - intros Hi. specialize (Hd i d' Hi). by replace (k + Z.of_nat (S i)) with (k + 1 + Z.of_nat i) by lia.
Qed.

(** ** Properties *)

(** The entries of the FIB and RIB datasets.  The bytes of an entry with a
    name that can be sent decode to a block with the name and one block per
    record, in order, holding the record's numbers under their types: face and
    cost of a next hop; face, origin, cost and flags of a route.  The
    expiration period of a route follows under the type of a face, so no
    reader finds it as such. *)
Lemma table_entries_read (f : FibEntry) (r : RibEntry) rest :
  sendable (feName f) -> Forall hop_ok (feNexthops f) ->
  Z.of_nat (length (enc (parent TM.FibEntry ((Name_Encode (feName f)).2 :: map hop_block (feNexthops f))))) < 2 ^ 64 ->
  sendable (reName r) -> Forall route_ok (reRoutes r) ->
  Z.of_nat (length (enc (parent TM.RibEntry ((Name_Encode (reName r)).2 :: map route_block (reRoutes r))))) < 2 ^ 64 ->
  let reads w n nums := exists b p, DecodeBlock (w ++ rest) = Ok (b, Z.of_nat (length w)) /\ Parse b = Ok (p, None) /\
    exists nb rbs, subelements p = nb :: rbs /\ DecodeName (Some nb) = Ok (read_name n) /\ map numbers rbs = map Ok nums in
  reads (wire (Wire (Fib_Encode f))) (feName f)
    (map (fun h => [(TM.FaceID, nhFaceID h); (TM.Cost, nhCost h)]) (feNexthops f)) /\
  reads (wire (Wire (Rib_Encode r))) (reName r)
    (map (fun x => [(TM.FaceID, roFaceID x); (TM.Origin, roOrigin x); (TM.Cost, roCost x); (TM.Flags, roFlags x)]
                   ++ option_list ((fun d => (TM.FaceID, duration_ms d)) <$> roExpirationPeriod x)) (reRoutes r)).
Proof.
  intros Hn Hh Hl Hrn Hr Hrl reads. unfold reads. rewrite !map_map. split.
  - apply (entry_read TM.FibEntry TM.NextHopRecord (feName f) (feNexthops f) hop_numbers rest); [type_range|type_range|done| |done].
    eapply Forall_impl; [exact Hh|]. exact hop_sendable.
  - rewrite (map_ext _ _ route_block_eq) in Hrl. unfold Rib_Encode. rewrite (map_ext _ _ route_block_eq).
    apply (entry_read TM.RibEntry TM.Route (reName r) (reRoutes r) route_numbers rest); [type_range|type_range|done| |done].
    eapply Forall_impl; [exact Hr|]. exact route_sendable.
Qed.

(** The segments of a dataset.  There is one per 8000 bytes, and one for an
    empty dataset; they are named by the version and their number, fresh for a
    second, with the number of the last as FinalBlockId.  But each holds the
    dataset from its own position up to the end, so that the segments put
    together are the dataset only if it fits into one. *)
Lemma dataset_segments n v ds : exists l,
  MakeStatusDataset n v ds = Ok l /\
  Z.of_nat (length l) = Z.max 1 ((Z.of_nat (length ds) + 7999) / 8000) /\
  (forall i d, l !! i = Some d ->
     is_segment n v (Z.of_nat i) (Z.of_nat (length l) - 1) (drop (Z.to_nat (8000 * Z.of_nat i)) ds) d) /\
  (concat (map content l) = ds <-> Z.of_nat (length ds) <= 8000).
Proof.
  set (nseg := (Z.of_nat (length ds) + 7999) / 8000).
  assert (Hn : 8000 * nseg <= Z.of_nat (length ds) + 7999 < 8000 * (nseg + 1)).
  { pose proof (Z.div_mod (Z.of_nat (length ds) + 7999) 8000 ltac:(lia)).
    pose proof (Z.mod_pos_bound (Z.of_nat (length ds) + 7999) 8000 ltac:(lia)). fold nseg in H. lia. }
  unfold MakeStatusDataset. fold nseg. destruct (Z.eqb_spec nseg 0) as [H0|H0].
  - destruct (segment_data_ok n v 0 0 []) as (d & Ed & Hd). rewrite Ed. exists [d]. split; [done|].
    assert (ds = []) as -> by (apply length_zero_iff_nil; lia). split; [cbn; lia|]. split.
    + intros [|i] d' [= <-]. by rewrite drop_nil.
    + destruct Hd as (_ & Hc & _). cbn. rewrite Hc. split; [lia|done].
  - destruct (segments_from_ok (Z.to_nat nseg) n v 0 nseg ds ltac:(lia) ltac:(lia)) as (l & E & Hl & Hd).
    exists l. rewrite E. split; [done|]. split; [lia|]. split.
    + intros i d Hi. specialize (Hd i d Hi). rewrite Z.add_0_l in Hd. by replace (Z.of_nat (length l)) with nseg by lia.
    + destruct l as [|d0 l]; [cbn in Hl; lia|]. destruct (Hd 0%nat d0 eq_refl) as (_ & Hc & _).
      change (drop _ ds) with ds in Hc. cbn [map concat]. rewrite Hc. split.
      * intros Hcat. assert (Hr : length (concat (map content l)) = 0%nat).
        { apply (f_equal length) in Hcat. rewrite length_app in Hcat. lia. }
        destruct l as [|d1 l]; [cbn in Hl; lia|]. destruct (Hd 1%nat d1 eq_refl) as (_ & Hc1 & _).
        cbn [map concat] in Hr. rewrite length_app, Hc1, length_drop in Hr. lia.
      * intros Hle. assert (l = []) as -> by (apply length_zero_iff_nil; cbn in Hl; lia). cbn. apply app_nil_r.
Qed.

Module StatusExamples.
Definition fib : FibEntry := mkFib DataExamples.name [mkHop 258 10; mkHop 3 0].
Definition rib : RibEntry := mkRib DataExamples.name [mkRoute 258 255 10 3 (Some (60000 * Millisecond)); mkRoute 3 0 0 0 None].

Lemma table_entries_read_witness :
  exists b p nb rbs, DecodeBlock (wire (Wire (Rib_Encode rib)) ++ [xff]) = Ok (b, 52) /\ Parse b = Ok (p, None) /\
    subelements p = nb :: rbs /\ DecodeName (Some nb) = Ok (read_name DataExamples.name) /\
    map numbers rbs = [Ok [(105, 258); (111, 255); (106, 10); (108, 3); (105, 60000)]; Ok [(105, 3); (111, 0); (106, 0); (108, 0)]].
Proof.
  assert (Hh : Forall hop_ok (feNexthops fib)).
  { repeat first [apply Forall_nil_2 | apply Forall_cons_2]; vm_compute; intuition congruence. }
  assert (Hr : Forall route_ok (reRoutes rib)).
  { repeat first [apply Forall_nil_2 | apply Forall_cons_2]; vm_compute; intuition congruence. }
  destruct (table_entries_read fib rib [xff] DataExamples.name_sendable Hh ltac:(vm_compute; reflexivity)
    DataExamples.name_sendable Hr ltac:(vm_compute; reflexivity)) as (_ & b & p & Hb & Hp & nb & rbs & Hs & Hd & Hm).
  exists b, p, nb, rbs. split; [exact Hb|]. split; [exact Hp|]. split; [exact Hs|]. split; [exact Hd|]. exact Hm.
Defined.
End StatusExamples.
