(* ===== verification/Shutdown.v ===== *)
(** * Closing a face: the goroutines of face/ndnlp-link-service.go,
    face/link-service.go and the transports' changeState

    Closing a face is not one operation but a conversation of goroutines over
    unbuffered channels: whoever closes the transport ([changeState]), the receive
    loop of the transport ([runReceive]), whose read fails then, the send loop of
    the link service ([runSend]), the goroutines that send single packets
    ([sendPacket]), the goroutine of the face ([Run]), its worker bees, and those
    who wait for the face to quit.  A state holds where each of them is; a move
    lets one goroutine take its next step, or two meet at an unbuffered channel. *)
From S2P Require Import Prelude.
From stdpp Require Import relations.
From S2P Require Import Packet Fw Text NetAddr Uri Transport Sockets.

(** ** Where the goroutines are *)

(** A call [changeState(Down)]: before the test of the state, the assignment, the
    token for [hasQuit], the closing of the connection, [tellTransportQuit],
    [FaceTable.Remove]; returned at the test; returned at the end.  Such calls are
    made by [Close], by a goroutine whose write fails, by the expiration handler,
    and by the receive loop, which is [InRead] until its read fails. *)
Inductive closer := InRead | AtCheck | AtSet | AtQuit | AtConn | AtTell | AtRemove | Skipped | Finished.

(** [runSend]: in its select; in [changeState], because the write of an idle
    acknowledgement failed; telling [hasImplQuit]; returned. *)
Inductive send_loop := Selecting | Acking (c : closer) | TellingImpl | LoopReturned.

(** [NDNLPLinkService.Run], after it started the others. *)
Inductive run_state := WaitingImpl | TellingQuit | RunReturned.

#[export] Instance closer_eq_dec : EqDecision closer.
Proof. solve_decision. Defined.
#[export] Instance send_loop_eq_dec : EqDecision send_loop.
Proof. solve_decision. Defined.
#[export] Instance run_state_eq_dec : EqDecision run_state.
Proof. solve_decision. Defined.

(** A face that is being closed.  [tokens] are those in the buffer of [hasQuit]
    (capacity 2), which no socket transport ever takes out; [hung_up] is whether
    reads fail although the connection was not closed here (the peer has closed
    it); [removals] counts the calls of [FaceTable.Remove]; [packets] are in the
    send queue, [failing_acks] is how many idle acknowledgements are still to fail;
    [senders] have not tested the state of the transport yet, [sent] found it up,
    [stopped] found it down and are telling [hasImplQuit]; [bees] and [waiters]
    receive from [HasQuit]. *)
Record ClosingFace := mkClosing {
  st : State; tokens : nat; hung_up : bool; conn_closed : bool; removals : nat;
  closers : list closer; loop : send_loop;
  packets : nat; failing_acks : nat; senders : nat; sent : nat; stopped : nat;
  runner : run_state; bees : nat; waiters : nat }.

(** A face on transport [t], whose receive loop reads, with [n] other goroutines
    about to close it, [q] packets to send, [a] acknowledgements that will fail, and
    [w] goroutines that wait for it to quit; [h] as [hung_up]. *)
Definition workers : nat := 16.
Definition closing (t : FaceTransport) (h : bool) (n q a w : nat) : ClosingFace :=
  mkClosing (state (tbase t)) 0 h (closed t) 0 (InRead :: replicate n AtCheck) Selecting q a 0 0 0 WaitingImpl workers w.

(** The transports whose receive loop closes the face when a read fails, and ends.
    That of a permanent UDP or TCP face dials again ([onTransportFailure]), and that
    of a multicast UDP face listens again: they are in Stop.v, with the transports
    that read from no socket.  (After a failed read the loop of a TCP transport
    calls [changeState] twice; the second call returns at the test.) *)
Definition ends_on_error (t : FaceTransport) : bool :=
  match kind t with
  | UnixStream | WebSocket => true
  | UnicastUDP | UnicastTCP => negb (persistency (tbase t) =? PersistencyPermanent)%Z
  | MulticastUDP | MulticastEthernet | NullKind | InternalKind => false
  end.

Lemma ends_on_error_socket t : ends_on_error t = true -> has_socket t.
Proof. unfold ends_on_error, has_socket. by destruct (kind t). Qed.

(** ** Steps *)

Definition on_transport (st' : State) (k : nat) (c : bool) (r : nat) (s : ClosingFace) : ClosingFace :=
  mkClosing st' k (hung_up s) c r (closers s) (loop s) (packets s) (failing_acks s) (senders s) (sent s) (stopped s) (runner s) (bees s) (waiters s).
Definition with_closers (l : list closer) (s : ClosingFace) : ClosingFace :=
  mkClosing (st s) (tokens s) (hung_up s) (conn_closed s) (removals s) l (loop s) (packets s) (failing_acks s) (senders s) (sent s) (stopped s)
    (runner s) (bees s) (waiters s).
Definition with_loop (l : send_loop) (s : ClosingFace) : ClosingFace :=
  mkClosing (st s) (tokens s) (hung_up s) (conn_closed s) (removals s) (closers s) l (packets s) (failing_acks s) (senders s) (sent s) (stopped s)
    (runner s) (bees s) (waiters s).
Definition with_packets (q a n k d : nat) (s : ClosingFace) : ClosingFace :=
  mkClosing (st s) (tokens s) (hung_up s) (conn_closed s) (removals s) (closers s) (loop s) q a n k d (runner s) (bees s) (waiters s).
Definition with_runner (r : run_state) (b w : nat) (s : ClosingFace) : ClosingFace :=
  mkClosing (st s) (tokens s) (hung_up s) (conn_closed s) (removals s) (closers s) (loop s) (packets s) (failing_acks s) (senders s) (sent s)
    (stopped s) r b w.

(** The next step of [changeState(Down)]; [None] when it blocks or has returned. *)
Definition close_step (c : closer) (s : ClosingFace) : option (closer * ClosingFace) :=
  match c with
  | InRead => if conn_closed s || hung_up s then Some (AtCheck, s) else None
  | AtCheck => Some (if decide (st s = Down) then Skipped else AtSet, s)
  | AtSet => Some (AtQuit, on_transport Down (tokens s) (conn_closed s) (removals s) s)
  | AtQuit => if tokens s <? 2 then Some (AtConn, on_transport (st s) (S (tokens s)) (conn_closed s) (removals s) s) else None
  | AtConn => Some (AtTell, on_transport (st s) (tokens s) true (removals s) s)
  | AtTell => if decide (loop s = Selecting) then Some (AtRemove, with_loop TellingImpl s) else None
  | AtRemove => Some (Finished, on_transport (st s) (tokens s) (conn_closed s) (S (removals s)) s)
  | Skipped | Finished => None
  end.

Inductive move :=
| MClose (i : nat)      (** a closing goroutine goes on *)
| MAckFails             (** the send loop writes an idle acknowledgement, and the write fails *)
| MAckClose             (** the send loop goes on closing the transport *)
| MTake                 (** the send loop takes a packet and starts a goroutine for it *)
| MSend                 (** [sendPacket] tests the state of the transport *)
| MImplLoop             (** [Run] hears from the send loop *)
| MImplSender           (** [Run] hears from a [sendPacket] *)
| MQuitBee              (** [Run] tells a worker bee *)
| MQuitWaiter.          (** [Run] tells a goroutine that waits for the face *)

Definition ended (c : closer) : bool := match c with Skipped | Finished => true | _ => false end.

Definition exec (m : move) (s : ClosingFace) : option ClosingFace :=
  match m with
  | MClose i => c ← closers s !! i; '(c', s') ← close_step c s; Some (with_closers (<[i := c']> (closers s)) s')
  | MAckFails =>
      match loop s, failing_acks s with
      | Selecting, S a => Some (with_loop (Acking AtCheck) (with_packets (packets s) a (senders s) (sent s) (stopped s) s))
      | _, _ => None
      end
  | MAckClose =>
      match loop s with
      | Acking c => '(c', s') ← close_step c s; Some (with_loop (if ended c' then Selecting else Acking c') s')
      | _ => None
      end
  | MTake =>
      match loop s, packets s with
      | Selecting, S q => Some (with_packets q (failing_acks s) (S (senders s)) (sent s) (stopped s) s)
      | _, _ => None
      end
  | MSend =>
      match senders s with
      | S n => Some (if decide (st s = Up) then with_packets (packets s) (failing_acks s) n (S (sent s)) (stopped s) s
                     else with_packets (packets s) (failing_acks s) n (sent s) (S (stopped s)) s)
      | O => None
      end
  | MImplLoop =>
      match loop s, runner s with
      | TellingImpl, WaitingImpl => Some (with_loop LoopReturned (with_runner TellingQuit (bees s) (waiters s) s))
      | _, _ => None
      end
  | MImplSender =>
      match stopped s, runner s with
      | S d, WaitingImpl =>
          Some (with_runner TellingQuit (bees s) (waiters s) (with_packets (packets s) (failing_acks s) (senders s) (sent s) d s))
      | _, _ => None
      end
  | MQuitBee =>
      match runner s, bees s with TellingQuit, S b => Some (with_runner RunReturned b (waiters s) s) | _, _ => None end
  | MQuitWaiter =>
      match runner s, waiters s with TellingQuit, S w => Some (with_runner RunReturned (bees s) w s) | _, _ => None end
  end.

Definition step (s s' : ClosingFace) : Prop := exists m, exec m s = Some s'.

Fixpoint run (ms : list move) (s : ClosingFace) : option ClosingFace :=
  match ms with [] => Some s | m :: ms => s' ← exec m s; run ms s' end.

Lemma run_steps ms s s' : run ms s = Some s' -> rtc step s s'.
Proof.
  revert s. induction ms as [|m ms IH]; intros s Hr; [by simplify_eq/=; constructor|].
  cbn [run] in Hr. destruct (exec m s) as [s1|] eqn:E; [|done]. eapply rtc_l; [by exists m|by apply IH].
Qed.

(** ** Counting the closing goroutines *)

(** The sum of [f] over all calls of [changeState], that of the send loop
    included. *)
Definition total (f : closer -> nat) (s : ClosingFace) : nat :=
  sum_list_with f (closers s) + match loop s with Acking c => f c | _ => 0 end.

Definition set_down (c : closer) : nat := match c with AtQuit | AtConn | AtTell | AtRemove | Finished => 1 | _ => 0 end.
Definition has_token (c : closer) : nat := match c with AtConn | AtTell | AtRemove | Finished => 1 | _ => 0 end.
Definition has_closed (c : closer) : nat := match c with AtTell | AtRemove | Finished => 1 | _ => 0 end.
Definition has_told (c : closer) : nat := match c with AtRemove | Finished => 1 | _ => 0 end.
Definition has_removed (c : closer) : nat := match c with Finished => 1 | _ => 0 end.
Definition is_telling (c : closer) : nat := match c with AtTell => 1 | _ => 0 end.
Definition is_reading (c : closer) : nat := match c with InRead => 1 | _ => 0 end.
Definition is_waiting_token (c : closer) : nat := match c with AtQuit => 1 | _ => 0 end.

Definition loop_told (l : send_loop) : nat := match l with TellingImpl | LoopReturned => 1 | _ => 0 end.
Definition loop_returned (l : send_loop) : nat := match l with LoopReturned => 1 | _ => 0 end.
Definition impl_heard (r : run_state) : nat := match r with WaitingImpl => 0 | _ => 1 end.
Definition run_returned (r : run_state) : nat := match r with RunReturned => 1 | _ => 0 end.

Lemma sum_insert {A} (f : A -> nat) l i c c' : l !! i = Some c ->
  sum_list_with f (<[i := c']> l) + f c = sum_list_with f l + f c'.
Proof.
  revert i. induction l as [|x l IH]; intros [|i] Hi; simplify_eq/=; [lia|]. specialize (IH i Hi). lia.
Qed.

Lemma sum_zero (f : closer -> nat) l : sum_list_with f l = 0 -> Forall (fun c => f c = 0) l.
Proof. induction l as [|x l IH]; intros Hs; simpl in Hs; constructor; [lia|apply IH; lia]. Qed.

Lemma sum_pos (f : closer -> nat) l c : c ∈ l -> f c <= sum_list_with f l.
Proof. apply sum_list_with_in. Qed.

Lemma sum_replicate (f : closer -> nat) n c : sum_list_with f (replicate n c) = n * f c.
Proof. induction n as [|n IH]; cbn; [done|]. rewrite IH. lia. Qed.

(** A step of [changeState] in one of the two places. *)
Record close_move (c c' : closer) (s s' : ClosingFace) : Prop := {
  cm_step : exists s1, close_step c s = Some (c', s1) /\ st s' = st s1 /\ tokens s' = tokens s1 /\ hung_up s' = hung_up s /\ conn_closed s' = conn_closed s1 /\
    removals s' = removals s1 /\ packets s' = packets s1 /\ failing_acks s' = failing_acks s1 /\ senders s' = senders s1 /\
    sent s' = sent s1 /\ stopped s' = stopped s1 /\ runner s' = runner s1 /\ bees s' = bees s1 /\ waiters s' = waiters s1;
  cm_total : forall f, f Skipped = 0 -> total f s' + f c = total f s + f c';
  cm_length : length (closers s') = length (closers s);
  cm_skipped : Skipped ∈ closers s' -> Skipped ∈ closers s \/ c' = Skipped;
  cm_loop : (c <> AtTell /\ loop s' = loop s) \/ (c = AtTell /\ loop s = Selecting /\ loop s' = TellingImpl) \/
            (loop s = Acking c /\ c <> AtTell /\ loop s' = (if ended c' then Selecting else Acking c')) }.

Lemma close_step_keeps c s c' s' : close_step c s = Some (c', s') ->
  hung_up s' = hung_up s /\ closers s' = closers s /\ packets s' = packets s /\ failing_acks s' = failing_acks s /\ senders s' = senders s /\
  sent s' = sent s /\ stopped s' = stopped s /\ runner s' = runner s /\ bees s' = bees s /\ waiters s' = waiters s /\
  ((c <> AtTell /\ loop s' = loop s) \/ (c = AtTell /\ loop s = Selecting /\ loop s' = TellingImpl)).
Proof.
  destruct c; cbn [close_step]; intros Hc; simplify_eq/=; repeat case_match; simplify_eq/=; auto 20.
Qed.

Lemma MClose_move i s s' : exec (MClose i) s = Some s' -> exists c c', closers s !! i = Some c /\ close_move c c' s s'.
Proof.
  cbn [exec]. destruct (closers s !! i) as [c|] eqn:Hi; [|done]. cbn [mbind option_bind].
  destruct (close_step c s) as [[c' s1]|] eqn:Hc; [|done]. cbn. intros Hs. simplify_eq. exists c, c'. split; [done|].
  destruct (close_step_keeps _ _ _ _ Hc) as (? & Hcl & ? & ? & ? & ? & ? & ? & ? & ? & Hl).
  assert (Hlt : i < length (closers s)) by (by apply lookup_lt_Some in Hi).
  split.
  - exists s1. repeat split; done.
  - intros f Hf. unfold total. cbn. pose proof (sum_insert f (closers s) i c c' Hi).
    destruct Hl as [(_ & ->)|(-> & -> & ->)]; lia.
  - cbn. by rewrite length_insert.
  - cbn. intros (j & Hj)%list_elem_of_lookup. destruct (decide (j = i)) as [->|Hne].
    + rewrite list_lookup_insert_eq in Hj by done. simplify_eq. auto.
    + rewrite list_lookup_insert_ne in Hj by done. left. by eapply list_elem_of_lookup_2.
  - cbn. tauto.
Qed.

Lemma MAckClose_move s s' : loop s <> Acking AtRemove -> exec MAckClose s = Some s' -> exists c c', loop s = Acking c /\ close_move c c' s s'.
Proof.
  intros Hr. cbn [exec]. destruct (loop s) as [|c| |] eqn:El; try done.
  destruct (close_step c s) as [[c' s1]|] eqn:Hc; [|done]. cbn. intros Hs. simplify_eq. exists c, c'. split; [done|].
  destruct (close_step_keeps _ _ _ _ Hc) as (? & Hcl & ? & ? & ? & ? & ? & ? & ? & ? & Hl).
  assert (Hne : c <> AtTell) by (intros ->; cbn in Hc; rewrite El in Hc; done).
  assert (Hfin : c' <> Finished) by (intros ->; destruct c; cbn in Hc; repeat case_match; by simplify_eq).
  split; cbn.
  - exists s1. repeat split; done.
  - intros f Hf. unfold total. cbn. rewrite Hcl, El. destruct c'; cbn; try done; rewrite ?Hf; lia.
  - by rewrite Hcl.
  - rewrite Hcl. auto.
  - rewrite El. auto 6.
Qed.

(** ** The invariant *)

Record inv (h : bool) (n q a w : nat) (s : ClosingFace) : Prop := {
  i_down : (st s = Up /\ total set_down s = 0) \/ (st s = Down /\ 0 < total set_down s);
  i_tokens : tokens s = total has_token s /\ tokens s <= 2;
  i_conn : conn_closed s = true <-> 0 < total has_closed s;
  i_told : total has_told s = loop_told (loop s);
  i_removed : removals s = total has_removed s;
  i_skipped : Skipped ∈ closers s -> st s = Down;
  i_packets : packets s + senders s + sent s + stopped s + impl_heard (runner s) = q + loop_returned (loop s);
  i_returned : loop_returned (loop s) <= impl_heard (runner s);
  i_bees : bees s + waiters s + run_returned (runner s) = workers + w;
  i_hung : hung_up s = h;
  i_reading : total is_reading s <= 1;
  i_length : length (closers s) = S n;
  i_acks : a = 0 -> failing_acks s = 0 /\ forall c, loop s <> Acking c }.

Lemma closing_inv t h n q a w : state (tbase t) = Up -> closed t = false -> inv h n q a w (closing t h n q a w).
Proof.
  intros Hu Hc. unfold closing. split; unfold total; cbn; rewrite ?sum_replicate, ?length_replicate; cbn; try lia.
  - left. split; [done|lia].
  - rewrite Hc. split; [done|lia].
  - intros [?|[? _]%elem_of_replicate]%elem_of_cons; done.
  - done.
  - auto.
Qed.

Lemma close_move_inv h n q a w c c' s s' : inv h n q a w s -> close_move c c' s s' -> inv h n q a w s'.
Proof.
  intros [Hd Ht Hc Ho Hr Hs Hp Hre Hb Hh Hrd Hl Ha] [(s1 & Hcs & E1 & E2 & E0 & E3 & E4 & E5 & E6 & E7 & E8 & E9 & E10 & E11 & E12) Htot Hlen Hsk Hlo].
  pose proof (Htot set_down eq_refl) as T1. pose proof (Htot has_token eq_refl) as T2.
  pose proof (Htot has_closed eq_refl) as T3. pose proof (Htot has_told eq_refl) as T4. pose proof (Htot has_removed eq_refl) as T5.
  pose proof (Htot is_reading eq_refl) as T6.
  assert (Hlt : loop_told (loop s') = loop_told (loop s) + is_telling c /\
                loop_returned (loop s') = loop_returned (loop s) /\ (a = 0 -> forall c, loop s' <> Acking c)).
  { destruct Hlo as [(Hne & Hlo)|[(-> & Hlo & Hlo')|(Hlo & Hne & Hlo')]]; rewrite ?Hlo, ?Hlo'; cbn.
    - split; [destruct c; cbn; by rewrite ?Nat.add_0_r|]. split; [done|]. intros Ha0. apply (Ha Ha0).
    - done.
    - split; [destruct c, (ended c'); done|]. split; [by destruct (ended c')|]. intros Ha0.
      by destruct (Ha Ha0) as [_ Hno], (Hno c). }
  destruct Hlt as (Hlt & Hlr & Hla).
  destruct c; cbn [close_step] in Hcs; repeat case_match; simplify_eq/=.
  all: split; rewrite ?E1, ?E2, ?E3, ?E4, ?E5, ?E6, ?E7, ?E8, ?E9, ?E10, ?E11, ?E12, ?Hlr; try lia.
  all: try (intros Ha0; split; [apply (Ha Ha0)|by apply Hla]).
  all: try (intros Hin; destruct (Hsk Hin) as [?|?]; [by apply Hs|done]).
  all: try (rewrite Hc; lia).
  all: try exact Hb; try done; try congruence.
  all: first [right; split; [done|lia] | destruct Hd as [[? ?]|[? ?]]; [left|right]; split; [done|lia|done|lia]
             | match goal with H : (_ <? _) = true |- _ => apply Nat.ltb_lt in H end; lia].
Qed.

(** The packets, the goroutine of the face and those who wait. *)
Lemma exec_inv h n q a w m s s' : inv h n q a w s -> exec m s = Some s' -> inv h n q a w s'.
Proof.
  intros Hi He. destruct m as [i| | | | | | | |].
  1: { apply MClose_move in He as (c & c' & _ & Hm). by eapply close_move_inv. }
  2: { assert (Hne : loop s <> Acking AtRemove).
    { intros El. pose proof (i_told _ _ _ _ _ _ Hi) as Ho. unfold total in Ho. rewrite El in Ho. cbn in Ho. lia. }
    apply (MAckClose_move _ _ Hne) in He as (c & c' & _ & Hm). by eapply close_move_inv. }
  all: destruct Hi as [Hd Ht Hc Ho Hr Hs Hp Hre Hb Hh Hrd Hl Ha]; cbn [exec] in He; repeat case_match; simplify_eq.
  all: split; unfold total in *; cbn in *.
  all: repeat match goal with E : loop _ = _ |- _ => rewrite ?E in *; clear E end; cbn in *; auto; try lia.
  all: intros Ha0; split; [apply (Ha Ha0)|done].
Qed.

Lemma reachable_inv h n q a w s s' : inv h n q a w s -> rtc step s s' -> inv h n q a w s'.
Proof. intros Hi Hr. induction Hr as [s|s s1 s2 [m Hm] _ IH]; [done|]. apply IH. by eapply exec_inv. Qed.

(** ** Every step is progress *)

Definition steps_left (c : closer) : nat :=
  match c with InRead => 7 | AtCheck => 6 | AtSet => 5 | AtQuit => 4 | AtConn => 3 | AtTell => 2 | AtRemove => 1 | Skipped | Finished => 0 end.
Definition work (s : ClosingFace) : nat :=
  sum_list_with steps_left (closers s)
  + match loop s with Selecting => 2 | Acking c => 3 + steps_left c | TellingImpl => 1 | LoopReturned => 0 end
  + 3 * packets s + 8 * failing_acks s + 2 * senders s + stopped s
  + match runner s with WaitingImpl => 2 | TellingQuit => 1 | RunReturned => 0 end.

Lemma close_step_left c s c' s' : close_step c s = Some (c', s') -> steps_left c' < steps_left c.
Proof. destruct c; cbn [close_step]; intros Hc; repeat case_match; simplify_eq/=; lia. Qed.

Lemma exec_work m s s' : exec m s = Some s' -> work s' < work s.
Proof.
  destruct m; intros He.
  1: { cbn [exec] in He. destruct (closers s !! i) as [c|] eqn:Hi; [|done]. cbn [mbind option_bind] in He.
    destruct (close_step c s) as [[c' s1]|] eqn:Hc; [|done]. cbn in He. simplify_eq.
    destruct (close_step_keeps _ _ _ _ Hc) as (_ & _ & E1 & E2 & E3 & _ & E5 & E6 & _ & _ & Hl).
    pose proof (close_step_left _ _ _ _ Hc). pose proof (sum_insert steps_left _ _ c c' Hi).
    unfold work. cbn. rewrite E1, E2, E3, E5, E6. destruct Hl as [[_ ->]|(-> & -> & ->)]; lia. }
  2: { cbn [exec] in He. destruct (loop s) as [|c| |] eqn:El; try done. destruct (close_step c s) as [[c' s1]|] eqn:Hc; [|done].
    cbn in He. simplify_eq. destruct (close_step_keeps _ _ _ _ Hc) as (_ & E0 & E1 & E2 & E3 & _ & E5 & E6 & _ & _ & Hl).
    pose proof (close_step_left _ _ _ _ Hc). unfold work. cbn. rewrite E0, E1, E2, E3, E5, E6, El.
    destruct (ended c'); lia. }
  all: cbn [exec] in He; repeat case_match; simplify_eq; unfold work; cbn.
  all: repeat match goal with
    | E : loop _ = _ |- _ => rewrite ?E; clear E | E : packets _ = _ |- _ => rewrite ?E; clear E
    | E : failing_acks _ = _ |- _ => rewrite ?E; clear E | E : senders _ = _ |- _ => rewrite ?E; clear E
    | E : stopped _ = _ |- _ => rewrite ?E; clear E | E : runner _ = _ |- _ => rewrite ?E; clear E
    end; cbn; lia.
Qed.

(** A measure that every step decreases bounds the number of steps. *)
Lemma nsteps_measure {A} (R : relation A) (f : A -> nat) k x y :
  (forall x y, R x y -> f y < f x) -> nsteps R k x y -> k + f y <= f x.
Proof. intros Hf. induction 1 as [x|k x x1 x2 Hx _ IH]; [lia|]. apply Hf in Hx. lia. Qed.

Lemma nsteps_work k s s' : nsteps step k s s' -> k + work s' <= work s.
Proof. apply nsteps_measure. intros x y [m Hm]. by apply exec_work in Hm. Qed.

(** The moves that can be possible. *)
Definition moves (s : ClosingFace) : list move :=
  [MAckFails; MAckClose; MTake; MSend; MImplLoop; MImplSender; MQuitBee; MQuitWaiter] ++ (MClose <$> seq 0 (length (closers s))).

Lemma exec_moves m s s' : exec m s = Some s' -> m ∈ moves s.
Proof.
  intros He. unfold moves. destruct m as [i| | | | | | | |]; try (apply elem_of_app; left; set_solver).
  apply elem_of_app. right. apply list_elem_of_fmap. exists i. split; [done|]. apply elem_of_seq.
  cbn [exec] in He. destruct (closers s !! i) eqn:Hi; [|done]. apply lookup_lt_Some in Hi. lia.
Qed.

Lemma red_moves s : red step s <-> Exists (fun m => is_Some (exec m s)) (moves s).
Proof.
  rewrite Exists_exists. split.
  - intros (s' & m & Hm). exists m. split; [by eapply exec_moves|by eexists].
  - intros (m & _ & s' & Hs). by exists s', m.
Qed.

#[export] Instance red_dec s : Decision (red step s).
Proof. destruct (decide (Exists (fun m => is_Some (exec m s)) (moves s))) as [E|E]; [left|right]; by rewrite red_moves. Defined.

Lemma nf_exec s m : nf step s -> exec m s = None.
Proof. intros Hn. destruct (exec m s) as [s'|] eqn:E; [|done]. destruct Hn. by exists s', m. Qed.

(** Closing a face takes finitely many steps: however the goroutines are
    scheduled, a run from [s] has at most [work s] steps, and every run can be
    continued to a state where no goroutine can go on. *)
Lemma close_terminates s :
  (forall k s', nsteps step k s s' -> k <= work s) /\
  (forall s', rtc step s s' -> exists s2, rtc step s' s2 /\ nf step s2).
Proof.
  split; [intros k s' Hk; pose proof (nsteps_work _ _ _ Hk); lia|]. intros s' _.
  induction s' as [s' IH] using (induction_ltof1 _ work). destruct (decide (red step s')) as [(s1 & m & Hm)|Hn].
  - destruct (IH s1) as (s2 & Hr & Hn2); [by apply (exec_work m)|]. exists s2. split; [|done]. eapply rtc_l; [by exists m|done].
  - by exists s'.
Qed.

(** ** Where closing ends *)

(** Such a call has returned, or waits for what nobody will give it. *)
Definition is_stopped (c : closer) : Prop := match c with AtQuit | AtTell | Skipped | Finished => True | _ => False end.

Lemma is_stopped_cases c : is_stopped c -> c = AtQuit \/ c = AtTell \/ c = Skipped \/ c = Finished.
Proof. destruct c; cbn; tauto. Qed.

Lemma nf_closers s : nf step s ->
  Forall (fun c => (c <> InRead -> is_stopped c) /\ (c = InRead -> conn_closed s = false /\ hung_up s = false) /\
                   (c = AtQuit -> 2 <= tokens s) /\ (c = AtTell -> loop s <> Selecting)) (closers s).
Proof.
  intros Hn. apply Forall_lookup_2. intros i c Hi. pose proof (nf_exec s (MClose i) Hn) as He. cbn [exec] in He. rewrite Hi in He.
  cbn [mbind option_bind] in He.
  unfold is_stopped. destruct c; cbn [close_step] in He; try done; split_and!; try done; intros _.
  - destruct (conn_closed s), (hung_up s); done.
  - destruct (tokens s <? 2) eqn:E; [done|]. by apply Nat.ltb_ge in E.
  - by destruct (decide (loop s = Selecting)).
Qed.

(** Once the connection is closed, or the peer has closed it, the receive loop has
    ended or waits like the others. *)
Lemma nf_stopped s : nf step s -> conn_closed s = true \/ hung_up s = true -> Forall is_stopped (closers s).
Proof.
  intros Hn Hc. eapply Forall_impl; [by apply nf_closers|]. intros c (Hs & Hr & _). apply Hs. intros ->. destruct (Hr eq_refl).
  destruct Hc; congruence.
Qed.

Lemma telling_in l : 0 < sum_list_with is_telling l -> AtTell ∈ l.
Proof. induction l as [|c l IH]; cbn; [lia|]. destruct c; cbn; intros ?; first [by left | right; apply IH; lia]. Qed.

(** Where the calls stand when nothing goes on: all past the test but one of
    those that wait, or have removed the face, have put their token. *)
Lemma nf_counts s : nf step s -> (forall c, loop s <> Acking c) ->
  total set_down s = total is_waiting_token s + total is_telling s + total has_removed s /\
  total has_token s = total is_telling s + total has_removed s /\ total has_closed s = total has_token s /\
  total has_told s = total has_removed s /\ (0 < total is_waiting_token s -> 2 <= tokens s) /\
  (0 < total is_telling s -> loop s <> Selecting).
Proof.
  intros Hn Ha. pose proof (nf_closers s Hn) as Hc. unfold total.
  assert (E : forall f : closer -> nat, match loop s with Acking c => f c | _ => 0 end = 0).
  { intros f. destruct (loop s) as [|c| |]; [done|by destruct (Ha c)|done|done]. }
  rewrite !E, !Nat.add_0_r. clear Hn Ha E. induction Hc as [|c l (Hs & _ & Hq & Ht) _ IH]; cbn; [repeat split; lia|].
  destruct IH as (I1 & I2 & I3 & I4 & I5 & I6).
  destruct c; try (by destruct Hs); cbn; repeat split; try lia; intros ?; auto with lia.
Qed.

Lemma nf_bees s : nf step s -> runner s = TellingQuit -> bees s = 0 /\ waiters s = 0.
Proof.
  intros Hn Hr. pose proof (nf_exec s MQuitBee Hn) as Hb. pose proof (nf_exec s MQuitWaiter Hn) as Hw. cbn in Hb, Hw.
  rewrite Hr in Hb, Hw. destruct (bees s), (waiters s); done.
Qed.

Lemma nf_runner s : nf step s -> runner s = WaitingImpl -> loop s <> TellingImpl /\ stopped s = 0.
Proof.
  intros Hn Hr. pose proof (nf_exec s MImplLoop Hn) as Hi. pose proof (nf_exec s MImplSender Hn) as Hs. cbn in Hi, Hs.
  rewrite Hr in Hi, Hs. destruct (loop s), (stopped s); done.
Qed.

Lemma nf_senders s : nf step s -> senders s = 0.
Proof. intros Hn. pose proof (nf_exec s MSend Hn) as Hs. cbn in Hs. by destruct (senders s). Qed.

(** When somebody closes the face, or the peer has hung up, then some call has
    passed the test when nothing goes on any more. *)
Lemma nf_down h n q a w s : 0 < n \/ h = true -> inv h n q a w s -> nf step s -> (forall c, loop s <> Acking c) -> 0 < total set_down s.
Proof.
  intros Hn [Hd Ht Hc Ho Hr Hs Hp Hre Hb Hh Hrd Hl Ha] Hf Hna. pose proof (nf_closers s Hf) as Hcl.
  destruct Hd as [[Hu H0]|[_ ?]]; [exfalso|done]. unfold total in H0, Hrd. apply Nat.eq_add_0 in H0 as [H0 _]. apply sum_zero in H0.
  assert (Hin : Forall (fun c => c = InRead) (closers s)).
  { apply Forall_lookup_2. intros i c Hi. pose proof (Forall_lookup_1 _ _ _ _ H0 Hi) as Hz.
    destruct (Forall_lookup_1 _ _ _ _ Hcl Hi) as (Hst & _). destruct c; try done; try (by destruct Hst).
    rewrite Hs in Hu; [done|]. by eapply list_elem_of_lookup_2. }
  assert (Hlen : sum_list_with is_reading (closers s) = length (closers s)).
  { clear - Hin. induction Hin as [|c l -> _ IH]; cbn; [done|]. by rewrite IH. }
  destruct Hn as [Hn|Hn]; [lia|]. destruct (closers s) as [|c l]; [cbn in Hl; lia|].
  apply Forall_cons_1 in Hin as [-> _]. apply Forall_cons_1 in Hcl as [(_ & Hin & _) _]. destruct (Hin eq_refl). congruence.
Qed.

(** With no acknowledgement to write, the send loop has been told when nothing goes
    on any more. *)
Lemma nf_loop h n q w s : 0 < n \/ h = true -> inv h n q 0 w s -> nf step s -> loop_told (loop s) = 1.
Proof.
  intros Hn Hi Hf. pose proof Hi as [Hd Ht Hc Ho Hr Hs Hp Hre Hb Hh Hrd Hl Ha]. destruct (Ha eq_refl) as [_ Hna].
  pose proof (nf_counts s Hf Hna) as (C1 & C2 & C3 & C4 & C5 & C6).
  pose proof (nf_down h n q 0 w s Hn Hi Hf Hna) as Hpos.
  destruct (loop s) as [|c| |] eqn:El; cbn in Ho; [|by destruct (Hna c)|done|done].
  destruct Ht as [Ht _]. destruct (decide (0 < total is_telling s)) as [Hte|]; [by destruct (C6 Hte)|].
  assert (0 < total is_waiting_token s) as Hw by lia. specialize (C5 Hw). lia.
Qed.

(** C26: Closing a face whose receive loop ends when a read fails (a Unix stream or web
    socket face, or a UDP or TCP face that is not permanent), by [n] goroutines at
    once, by a peer that hangs up, or by both.  The send loop has no idle
    acknowledgement to write (the reliability feature is off).  However the receive
    loop, the closing goroutines, the send loop, the senders of [q] packets and the
    goroutine of the face are scheduled, the transport goes down, its connection is
    closed, and the face is removed from the table exactly once, as by the one call
    of [changeState] of the sequential model.  But where nothing goes on any more,
    goroutines are left behind: of the receive loop and the closing goroutines
    exactly one has come through; each other one returned at the test of the state,
    or waits for the send loop, which has ended, or for room in [hasQuit].  Of the
    worker bees and those who wait for the face to quit exactly one is told.  And of
    the send loop and the senders that found the transport down, all but one wait
    for ever.

    ([FaceTable.Remove] is one step here: the face of management, to which it sends
    an event, lives and takes it.  Stop.v has the case that it does not.) *)
Theorem close_outcome t h n q w s :
  state (tbase t) = Up -> ends_on_error t = true -> closed t = false -> 0 < n \/ h = true ->
  rtc step (closing t h n q 0 w) s -> nf step s ->
  let '(t', removed) := changeState Down t in
  st s = state (tbase t') /\ conn_closed s = closed t' /\ removals s = Nat.b2n removed /\
  length (closers s) = S n /\ Forall is_stopped (closers s) /\ sum_list_with has_removed (closers s) = 1 /\
  sum_list_with is_telling (closers s) <= 1 /\ (AtQuit ∈ closers s -> AtTell ∈ closers s) /\
  runner s = RunReturned /\ bees s + waiters s + 1 = workers + w /\
  (loop s = TellingImpl \/ loop s = LoopReturned) /\
  senders s = 0 /\ packets s + sent s + stopped s + (1 - loop_returned (loop s)) = q.
Proof.
  intros Hu He Hcl Hn Hrun Hf. rewrite changeState_socket by (by apply ends_on_error_socket). unfold socket_changeState.
  rewrite Hu. rewrite decide_False by done. rewrite decide_False by done.
  cbn [tbase closed state set_state].
  pose proof (reachable_inv h n q 0 w _ _ (closing_inv t h n q 0 w Hu Hcl) Hrun) as Hi.
  pose proof (nf_loop h n q w s Hn Hi Hf) as Hlo.
  destruct Hi as [Hd Ht Hc Ho Hr Hs Hp Hre Hb Hh Hrd Hl Ha]. destruct (Ha eq_refl) as [_ Hna].
  pose proof (nf_counts s Hf Hna) as (C1 & C2 & C3 & C4 & C5 & C6).
  assert (E : forall f : closer -> nat, total f s = sum_list_with f (closers s)).
  { intros f. unfold total. destruct (loop s) as [|c| |]; [lia|by destruct (Hna c)|lia|lia]. }
  assert (Hrun' : impl_heard (runner s) = 1).
  { destruct (runner s) eqn:Er; [|done|done]. destruct (nf_runner s Hf Er) as [Hnt _]. destruct (loop s); cbn in Hlo, Hre; [lia|lia|done|lia]. }
  assert (Hret : runner s = RunReturned).
  { destruct (runner s) eqn:Er; [done| |done]. destruct (nf_bees s Hf Er) as [E1 E2]. cbn in Hb. rewrite E1, E2 in Hb. unfold workers in Hb. lia. }
  rewrite Hret in Hb, Hp. cbn in Hb, Hp.
  rewrite Hlo in Ho. rewrite <- E, <- E. assert (Hclosed : conn_closed s = true) by (apply Hc; lia).
  split; [destruct Hd as [[_ ?]|[? _]]; [lia|done]|]. split; [done|]. split; [cbn; lia|]. split; [done|].
  split; [by apply nf_stopped; [|left]|]. split; [lia|]. split; [lia|].
  split.
  { intros Hin. apply (sum_pos is_waiting_token) in Hin. rewrite <- E in Hin. cbn in Hin. apply telling_in. rewrite <- E. lia. }
  split; [done|]. split; [unfold workers; lia|]. split; [destruct (loop s); auto; done|].
  split; [by apply nf_senders|]. rewrite (nf_senders s Hf) in Hp. destruct (loop s); cbn in *; lia.
Qed.

(** ** The write of an acknowledgement fails *)

(** The send loop is in [changeState], past the test. *)
Definition stuck_loop (l : send_loop) : Prop :=
  match l with Acking c => match c with AtSet | AtQuit | AtConn | AtTell => True | _ => False end | _ => False end.

Lemma exec_stuck_loop m s s' : stuck_loop (loop s) -> exec m s = Some s' -> stuck_loop (loop s').
Proof.
  intros Hl He. destruct (loop s) as [|c| |] eqn:El; try done. destruct m; cbn [exec] in He.
  1: { destruct (closers s !! i) as [d|]; [|done]. cbn [mbind option_bind] in He.
    destruct (close_step d s) as [[d' s1]|] eqn:Hd; [|done]. cbn in He. simplify_eq. change (stuck_loop (loop s1)).
    destruct (close_step_keeps _ _ _ _ Hd) as (_ & _ & _ & _ & _ & _ & _ & _ & _ & _ & [[_ E]|(_ & E & _)]); [|congruence].
    by rewrite E, El. }
  2: { rewrite El in He. destruct (close_step c s) as [[c' s1]|] eqn:Hc; [|done]. cbn in He. simplify_eq. cbn.
    destruct c; cbn [close_step] in Hc; try done; repeat case_match; simplify_eq/=; congruence || done. }
  all: repeat case_match; simplify_eq/=; try congruence; by rewrite El.
Qed.

(** When the write of an idle acknowledgement fails, the send loop closes the
    transport itself, and then waits for itself to receive from [hasTransportQuit].
    From there on the face is never removed from the table, whatever else closes
    it: no call of [changeState] comes through, and where nothing goes on any more
    the transport is down and every closing goroutine that passed the test waits
    for ever. *)
Lemma ack_failure_blocks t h n q a w s s' :
  state (tbase t) = Up -> closed t = false -> rtc step (closing t h n q a w) s -> stuck_loop (loop s) -> rtc step s s' ->
  removals s' = 0 /\ stuck_loop (loop s') /\ Forall (fun c => c <> AtRemove /\ c <> Finished) (closers s') /\
  (nf step s' -> st s' = Down /\ Forall (fun c => c = InRead \/ c = AtQuit \/ c = AtTell \/ c = Skipped) (closers s') /\
                 (loop s' = Acking AtQuit \/ loop s' = Acking AtTell)).
Proof.
  intros Hu Hcl Hrun Hl Hrun'.
  assert (Hi : inv h n q a w s') by (eapply reachable_inv; [|exact Hrun']; eapply reachable_inv; [by apply closing_inv|done]).
  assert (Hl' : stuck_loop (loop s')).
  { clear Hrun Hi. induction Hrun' as [s|s s1 s2 [m Hm] _ IH]; [done|]. apply IH. by eapply exec_stuck_loop. }
  destruct Hi as [Hd Ht Hc Ho Hr Hs Hp Hre Hb Hlen Ha].
  assert (Hz : sum_list_with has_told (closers s') = 0).
  { unfold total in Ho. destruct (loop s'); try done. cbn in Ho. lia. }
  apply sum_zero in Hz. 
  assert (Hno : Forall (fun c => c <> AtRemove /\ c <> Finished) (closers s')).
  { eapply Forall_impl; [exact Hz|]. intros c Hc0. by destruct c. }
  split.
  { rewrite Hr. unfold total in *. destruct (loop s') as [|c| |]; try done.
    assert (sum_list_with has_removed (closers s') <= sum_list_with has_told (closers s')).
    { clear. induction (closers s') as [|d l IH]; cbn; [done|]. destruct d; cbn; lia. }
    destruct c; cbn in *; try done; lia. }
  split; [done|]. split; [done|]. intros Hn.
  assert (Hloop : loop s' = Acking AtQuit \/ loop s' = Acking AtTell).
  { pose proof (nf_exec s' MAckClose Hn) as He. cbn [exec] in He. destruct (loop s') as [|c| |]; try done.
    destruct c; cbn in He; try done; auto. }
  split; [|split; [|done]].
  - destruct Hd as [[_ Hd]|[? _]]; [|done]. exfalso. unfold total in Hd. destruct Hloop as [E|E]; rewrite E in Hd; cbn in Hd; lia.
  - apply Forall_lookup_2. intros i c Hc'. pose proof (Forall_lookup_1 _ _ _ _ Hno Hc') as [_ Hf].
    pose proof (Forall_lookup_1 _ _ _ _ (nf_closers s' Hn) Hc') as [Hst _]. destruct (decide (c = InRead)) as [|Hne]; [by left|].
    apply Hst, is_stopped_cases in Hne. tauto.
Qed.

Module ShutdownExamples.
(** A Unix stream transport that is up. *)
Definition transport : FaceTransport := (changeState Up (mkFT UnixStream (makeTransportBase
  (mkURI fdURI (gs "fd") (gs "5") 0) (mkURI unixURI (gs "unix") (gs "/run/nfd.sock") 0) PersistencyPersistent Local PointToPoint MaxNDNPacketSize)
  false)).1.

(** Two goroutines pass the test before either sets the state; a packet is taken
    up in between; when the first has closed the connection, the receive loop's
    read fails, and it returns at the test.  The second closing goroutine, the send
    loop, 15 worker bees and whoever waits for the face are left. *)
Definition race : list move :=
  [MClose 1; MClose 2; MClose 1; MClose 2; MTake; MSend; MClose 1; MClose 1; MClose 2; MClose 2; MClose 1; MClose 1; MClose 0; MClose 0;
   MImplSender; MQuitBee].
Definition after_race : ClosingFace :=
  mkClosing Down 2 false true 1 [Skipped; Finished; AtTell] TellingImpl 0 0 0 0 0 RunReturned 15 1.

Lemma race_runs : run race (closing transport false 2 1 0 1) = Some after_race.
Proof. reflexivity. Qed.
Lemma race_ends : nf step after_race.
Proof. apply (bool_decide_eq_false_1 (red step after_race)). vm_compute. reflexivity. Qed.

Lemma close_outcome_witness :
  rtc step (closing transport false 2 1 0 1) after_race /\ nf step after_race /\
  removals after_race = 1 /\ sum_list_with is_telling (closers after_race) <= 1 /\ bees after_race + waiters after_race + 1 = 17.
Proof.
  pose proof (run_steps _ _ _ race_runs) as Hrun.
  destruct (close_outcome transport false 2 1 1 after_race eq_refl eq_refl eq_refl (or_introl (Nat.lt_0_succ 1)) Hrun race_ends)
    as (_ & _ & Hr & _ & _ & _ & Ht & _ & _ & Hb & _).
  split; [exact Hrun|]. split; [exact race_ends|]. split; [exact Hr|]. split; [exact Ht|exact Hb].
Defined.

(** A peer that hangs up is enough: the receive loop alone closes the face. *)
Definition hang_up : list move := replicate 7 (MClose 0) ++ [MImplLoop; MQuitBee].
Lemma hang_up_runs :
  run hang_up (closing transport true 0 0 0 0) = Some (mkClosing Down 1 true true 1 [Finished] LoopReturned 0 0 0 0 0 RunReturned 15 0).
Proof. reflexivity. Qed.

(** A reliable face whose peer has gone: an idle acknowledgement cannot be
    written; then management closes the face. *)
Definition self_close : list move := [MAckFails; MAckClose; MAckClose; MAckClose; MAckClose].
Definition after_self_close : ClosingFace :=
  mkClosing Down 1 false true 0 [InRead; AtCheck] (Acking AtTell) 0 0 0 0 0 WaitingImpl 16 0.

Lemma self_close_runs : run self_close (closing transport false 1 0 1 0) = Some after_self_close.
Proof. reflexivity. Qed.

Lemma ack_failure_witness :
  exists s', rtc step after_self_close s' /\ nf step s' /\ closers s' = [Skipped; Skipped] /\ removals s' = 0 /\ st s' = Down.
Proof.
  assert (Hrun : run [MClose 0; MClose 0; MClose 1] after_self_close =
    Some (mkClosing Down 1 false true 0 [Skipped; Skipped] (Acking AtTell) 0 0 0 0 0 WaitingImpl 16 0)) by reflexivity.
  apply run_steps in Hrun. eexists. split; [exact Hrun|].
  destruct (ack_failure_blocks transport false 1 0 1 0 _ _ eq_refl eq_refl (run_steps _ _ _ self_close_runs) I Hrun) as (Hr & _ & _ & Hn).
  assert (Hnf : nf step (mkClosing Down 1 false true 0 [Skipped; Skipped] (Acking AtTell) 0 0 0 0 0 WaitingImpl 16 0)).
  { apply (bool_decide_eq_false_1 (red step _)). vm_compute. reflexivity. }
  destruct (Hn Hnf) as (Hd & _ & _). split; [exact Hnf|]. split; [reflexivity|]. split; [exact Hr|exact Hd].
Defined.
End ShutdownExamples.
