(* ===== verification/Listeners.v ===== *)
(** * The listeners: face/udp-listener.go, face/tcp-listener.go,
    face/unix-stream-listener.go, face/web-socket-listener.go

    Each listener waits for remote endpoints and makes a face for every one:
    transport, NDNLPv2 link service, an entry of the face table.  What the
    operating system hands out (datagrams, accepted connections, errors) is a
    list of events.  The UDP listener also passes the datagram on: the goroutine
    of the new face copies it out of the listener's buffer, into which the
    listener meanwhile reads the next one. *)
From S2P Require Import Prelude Enc FibSpec Rib.
From S2P Require Import Packet Fw Text NetAddr Uri Transport Sockets LinkService Faces.
Local Open Scope Z_scope.

(** ** Construction *)

Section make.
Context `{NetEnv}.

(** The local URI of the listener, canonized. *)
Record UDPListener := mkUDPListener { ul_localURI : URI }.
Record TCPListener := mkTCPListener { tl_localURI : URI }.
Record UnixStreamListener := mkUnixListener { xl_localURI : URI; xl_nextFD : Z }.

Definition MakeUDPListener (localURI : URI) : option UDPListener :=
  let u := (Canonize localURI).1 in
  if negb (IsCanonical u) || negb (scheme_in u "udp4" "udp6") then None else Some (mkUDPListener u).
Definition MakeTCPListener (localURI : URI) : option TCPListener :=
  let u := (Canonize localURI).1 in
  if negb (IsCanonical u) || negb (scheme_in u "tcp4" "tcp6") then None else Some (mkTCPListener u).
Definition MakeUnixStreamListener (localURI : URI) : option UnixStreamListener :=
  let u := (Canonize localURI).1 in
  if negb (IsCanonical u) || negb (bool_decide (scheme u = gs "unix")) then None else Some (mkUnixListener u 1).

(** The address a UDP or TCP listener listens on; [v4] is its IPv4 scheme. *)
Definition listen_address (v4 : String.string) (u : URI) : list byte :=
  if bool_decide (scheme u = gs v4) then PathHost u ++ gs ":" ++ FormatUint (port u)
  else gs "[" ++ path u ++ gs "]:" ++ FormatUint (port u).

(** Web sockets. *)
Record WebSocketListenerConfig := mkWSConfig {
  wsBind : list byte; wsPort : Z; wsTLSEnabled : bool; wsTLSCert : list byte; wsTLSKey : list byte }.

(** Scheme and host of [cfg.URL()], and its text. *)
Definition cfg_URL (cfg : WebSocketListenerConfig) : list byte * list byte :=
  (gs (if wsTLSEnabled cfg then "wss" else "ws"), JoinHostPort (wsBind cfg) (FormatUint (wsPort cfg))).

(** [NewWebSocketListener]: the local URI, [None] when the key pair cannot be
    loaded; [URL.Hostname] and [URL.Port] take the host apart again. *)
Definition NewWebSocketListener (key_pair : list byte -> list byte -> bool) (cfg : WebSocketListenerConfig) : option URI :=
  let '(scheme, _) := cfg_URL cfg in
  if wsTLSEnabled cfg && negb (key_pair (wsTLSCert cfg) (wsTLSKey cfg)) then None
  else Some (MakeWebSocketServerFaceURI (mkURL scheme false [] [] [] (wsBind cfg) (FormatUint (wsPort cfg)))).
End make.

(** ** Accepting *)

Section accept.
Context `{NetEnv} `{EncOps} {F : Type} `{FibStrategy F}.
Context (udpLifetime tcpLifetime UDPUnicastPort : Z).
Context (dial : list byte -> list byte -> option Z -> option (list byte)).

(** A link service on a new transport, put into the table. *)
Definition add_transport (t : FaceTransport) (w : FaceWorld F) : option (FaceWorld F) :=
  add_link (new_face t (Some MakeNDNLPLinkServiceOptions)) w.

(** What [Accept] returned: a remote address at a time, or an error. *)
Inductive accepted := AcceptError | AcceptedFrom (now : Z) (remoteAddr : list byte).

(** The loop of [TCPListener.Run] over what is accepted.  A nil transport with a
    nil error (a remote URI that is not canonical) is dereferenced by
    [MakeNDNLPLinkService].  [Err] does not occur: [None] of [Add] is a loop that
    does not end. *)
Fixpoint tcp_accept (l : TCPListener) (evs : list accepted) (w : FaceWorld F) : outcome (option (FaceWorld F)) :=
  match evs with
  | [] => Ok (Some w)
  | AcceptError :: evs => tcp_accept l evs w
  | AcceptedFrom now remoteAddr :: evs =>
      match AcceptUnicastTCPTransport tcpLifetime now remoteAddr (tl_localURI l) PersistencyPersistent with
      | Ok (Some t) => match add_transport t w with Some w => tcp_accept l evs w | None => Ok None end
      | Ok None | Panic => Panic
      | Err _ => tcp_accept l evs w
      end
  end.

(** [TCPListener.Run]: nothing more happens when it cannot listen. *)
Definition tcp_Run (listen : list byte -> list byte -> bool) (l : TCPListener) (evs : list accepted) (w : FaceWorld F)
    : outcome (option (FaceWorld F)) :=
  if listen (scheme (tl_localURI l)) (listen_address "tcp4" (tl_localURI l)) then tcp_accept l evs w else Ok (Some w).

(** [UnixStreamListener.Run]; an error ends it, which the boolean says. *)
Fixpoint unix_accept (l : UnixStreamListener) (evs : list accepted) (w : FaceWorld F)
    : option (UnixStreamListener * FaceWorld F * bool) :=
  match evs with
  | [] => Some (l, w, false)
  | AcceptError :: _ => Some (l, w, true)
  | AcceptedFrom _ _ :: evs =>
      let remoteURI := MakeFDFaceURI (xl_nextFD l) in
      let l := mkUnixListener (xl_localURI l) (i64 (xl_nextFD l + 1)) in
      if negb (IsCanonical remoteURI) then unix_accept l evs w
      else match MakeUnixStreamTransport remoteURI (xl_localURI l) with
           | None => unix_accept l evs w
           | Some t => match add_transport t w with Some w => unix_accept l evs w | None => None end
           end
  end.

(** [handler] of the web socket listener, for a request that is upgraded or
    not. *)
Definition ws_handler (localURI : URI) (upgraded : option (list byte)) (w : FaceWorld F) : option (FaceWorld F) :=
  match upgraded with
  | None => Some w
  | Some remoteAddr => add_transport (NewWebSocketTransport remoteAddr localURI) w
  end.

(** [UDPListener.Run].  [recvBuf] is its buffer; [starting] are the goroutines of
    new faces that have not copied their frame out of the buffer yet, a link
    service and the length of its frame; [copied] is what they handed to their
    link services. *)
Record UDPRun := mkUDPRun {
  recvBuf : list byte;
  starting : list (nat * nat);
  copied : list (nat * list byte);
  table : FaceWorld F;
  reading : bool }.

Inductive udp_event :=
| Datagram (now : Z) (bs : list byte) (remoteAddr : list byte)   (** [ReadFrom] returns a datagram *)
| ReadFails                                                       (** [ReadFrom] returns an error *)
| StartFace (i : nat).                                            (** a goroutine runs [Run(recvBuf[:readSize])] *)

(** [ReadFrom] writes what fits. *)
Definition fill (bs buf : list byte) : list byte := take (length buf) bs ++ drop (length bs) buf.

Definition udp_step (l : UDPListener) (ev : udp_event) (r : UDPRun) : option UDPRun :=
  match ev with
  | Datagram now bs remoteAddr =>
      if reading r then
        let buf := fill bs (recvBuf r) in
        let readSize := length (take (length (recvBuf r)) bs) in
        match accept_datagram udpLifetime UDPUnicastPort dial now remoteAddr (ul_localURI l) with
        | None => Some (mkUDPRun buf (starting r) (copied r) (table r) true)
        | Some t =>
            w ← add_transport t (table r);
            Some (mkUDPRun buf (starting r ++ [(fresh (dom (links (table r))), readSize)]) (copied r) w true)
        end
      else None
  | ReadFails => if reading r then Some (mkUDPRun (recvBuf r) (starting r) (copied r) (table r) false) else None
  | StartFace i =>
      '(p, n) ← starting r !! i;
      Some (mkUDPRun (recvBuf r) (delete i (starting r)) (copied r ++ [(p, take n (recvBuf r))]) (table r) (reading r))
  end.

Fixpoint udp_run (l : UDPListener) (evs : list udp_event) (r : UDPRun) : option UDPRun :=
  match evs with [] => Some r | ev :: evs => r ← udp_step l ev r; udp_run l evs r end.

Definition udp_start (w : FaceWorld F) : UDPRun := mkUDPRun (replicate (Z.to_nat MaxNDNPacketSize) x00) [] [] w true.
Definition udp_Run (listen : list byte -> list byte -> bool) (l : UDPListener) (evs : list udp_event) (w : FaceWorld F) : option UDPRun :=
  if listen (scheme (ul_localURI l)) (listen_address "udp4" (ul_localURI l)) then udp_run l evs (udp_start w)
  else Some (mkUDPRun (recvBuf (udp_start w)) [] [] w false).
End accept.
Arguments mkUDPRun {F}. Arguments recvBuf {F}. Arguments starting {F}. Arguments copied {F}. Arguments table {F}.
Arguments reading {F}. Arguments UDPRun F : clear implicits.

(** ** Lemmas *)

Section fill.

Lemma length_fill bs buf : length (fill bs buf) = length buf.
Proof. unfold fill. rewrite length_app, length_take, length_drop. lia. Qed.

Lemma take_fill n bs buf : (n <= length buf)%nat -> take n (fill bs buf) = fill bs (take n buf).
Proof.
  intros Hn. unfold fill. rewrite length_take, Nat.min_l by done. rewrite take_app, take_take, length_take.
  f_equal; [f_equal; lia|]. rewrite skipn_firstn_comm. f_equal. destruct (decide (length bs <= length buf)%nat).
  - rewrite Nat.min_r by lia. done.
  - rewrite Nat.min_l by lia. lia.
Qed.

(** A frame over which other datagrams have been read. *)
Definition overwritten (frame : list byte) (ds : list (list byte)) : list byte := foldl (fun f d => fill d f) frame ds.

Lemma overwritten_snoc frame ds d : overwritten frame (ds ++ [d]) = fill d (overwritten frame ds).
Proof. unfold overwritten. by rewrite foldl_app. Qed.

(** The bytes that are read along a list of events. *)
Definition datagrams (evs : list udp_event) : list (list byte) :=
  omap (fun ev => match ev with Datagram _ bs _ => Some bs | _ => None end) evs.
End fill.

(** ** Addresses of remote endpoints *)

Lemma SplitHostPort_Join host p : z2b 91 ∉ host -> z2b 93 ∉ host -> Forall (fun b => is_digit b = true) p ->
  SplitHostPort (JoinHostPort host p) = Some (host, p).
Proof.
  intros H1 H2 Hp. assert (Hno : forall c, is_digit c = false -> c ∉ p).
  { intros c Hc Hin. rewrite Forall_forall in Hp. by rewrite Hp in Hc. }
  assert (Hf : forall c s, c ∉ s -> contains c s = false) by (intros c s Hc; unfold contains; by apply bool_decide_false).
  unfold JoinHostPort. destruct (contains (z2b 58) host) eqn:Ec.
  - set (s := [z2b 91] ++ host ++ [z2b 93; z2b 58] ++ p).
    assert (E1 : cut_last (z2b 58) s = Some (z2b 91 :: host ++ [z2b 93], p)).
    { replace s with ((z2b 91 :: host ++ [z2b 93]) ++ z2b 58 :: p) by (unfold s; cbn [app]; by rewrite <- app_assoc).
      apply cut_last_app. by apply Hno. }
    unfold SplitHostPort. rewrite E1. unfold s. cbn [app]. rewrite decide_True by done.
    rewrite cut_app by done. rewrite decide_True by done. cbn [drop]. rewrite drop_0.
    rewrite !Hf; [done| |].
    + rewrite elem_of_cons. intros [E|Hin]; [by vm_compute in E|]. by apply (Hno (z2b 93) eq_refl).
    + rewrite elem_of_app, !elem_of_cons. intros [?|[E|[E|Hin]]]; [done|by vm_compute in E|by vm_compute in E|]. by apply (Hno (z2b 91) eq_refl).
  - assert (E1 : cut_last (z2b 58) (host ++ [z2b 58] ++ p) = Some (host, p)) by (apply cut_last_app; by apply Hno).
    assert (Hc : forall c, c ∉ host -> is_digit c = false -> c <> z2b 58 -> contains c (host ++ [z2b 58] ++ p) = false).
    { intros c Ha Hd Hne. apply Hf. rewrite !elem_of_app, list_elem_of_singleton. intros [?|[?|?]]; [done|done|]. by apply (Hno c Hd). }
    pose proof (Hc (z2b 91) H1 eq_refl ltac:(by intros E; vm_compute in E)) as C1.
    pose proof (Hc (z2b 93) H2 eq_refl ltac:(by intros E; vm_compute in E)) as C2.
    unfold SplitHostPort. rewrite E1, C1, C2, Ec. cbn [orb].
    destruct (host ++ [z2b 58] ++ p) as [|b inner] eqn:E; [by destruct host|].
    rewrite decide_False; [done|]. intros ->. apply (Hf (z2b 91)) in H1. unfold contains in C1. apply bool_decide_eq_false in C1. apply C1. by left.
Qed.

(** Where the listeners listen: at the address and port of their URI; the zone of
    an IPv4 address is dropped. *)
Lemma listen_address_join ty v4 ip t v : (ty = udpURI /\ v4 = "udp4"%string) \/ (ty = tcpURI /\ v4 = "tcp4"%string) ->
  is_ip ip -> zone_ok t ->
  listen_address v4 (ip_uri ty ip t v) =
    JoinHostPort (IP_String ip ++ match To4 ip with Some _ => [] | None => t end) (FormatUint v).
Proof.
  intros Hty Hip Ht. unfold listen_address, JoinHostPort. destruct (IP_String_text ip Hip) as (Hhost & Hcol & _).
  assert (Hs : bool_decide (scheme (ip_uri ty ip t v) = gs v4) = bool_decide (is_Some (To4 ip))).
  { cbn [ip_uri scheme]. unfold ip_scheme. destruct Hty as [[-> ->]|[-> ->]]; (destruct (To4 ip) as [x|];
      [rewrite (bool_decide_true (is_Some _)) by (by exists x)|rewrite (bool_decide_false (is_Some _)) by (by intros [? ?])]); reflexivity. }
  rewrite Hs. destruct (To4 ip) as [x|] eqn:E4; cbn [port ip_uri path].
  - rewrite bool_decide_true by (by exists x). rewrite (PathHost_eq _ (IP_String ip) t); [|done|by apply no_percent|done].
    by rewrite app_nil_r, Hcol.
  - rewrite bool_decide_false by (by intros [? ?]).
    assert (Hc : contains (z2b 58) (IP_String ip ++ t) = true).
    { unfold contains in *. rewrite (bool_decide_true (None = None)) in Hcol by done. apply bool_decide_eq_true in Hcol.
      apply bool_decide_true, elem_of_app. by left. }
    rewrite Hc. by rewrite <- !app_assoc.
Qed.

(** An address as the kernel reports it: an IP address, perhaps with a zone, and
    a port. *)
Record kernel_address (addr : list byte) (ip : IP) (zone : list byte) (v : Z) : Prop := {
  ka_ip : is_ip ip; ka_zone : forallb name_char zone = true; ka_port : 0 < v < 65536;
  ka_text : addr = JoinHostPort (IP_String ip ++ zone_text zone) (FormatUint v) }.

Lemma remote_uri_kernel `{NetEnv} udp addr ip zone v : kernel_address addr ip zone v ->
  remote_uri udp addr = Some (ip_uri (if udp then udpURI else tcpURI) ip (zone_text zone) v).
Proof.
  intros [Hip Hz Hv ->]. unfold remote_uri. destruct (IP_String_text ip Hip) as (Hhost & _ & Hbr).
  destruct (zone_chars zone Hz) as (Zp & Zc & Zb). destruct (FormatUint_spec v ltac:(lia)) as (Hne & Hd & Hp).
  assert (Z91 : z2b 91 ∉ zone).
  { rewrite forallb_forall in Hz. intros Hin%list_elem_of_In. apply Hz in Hin. discriminate. }
  assert (Hnb : forall c, c ∈ brackets -> c <> percent -> c ∉ zone -> c ∉ IP_String ip ++ zone_text zone).
  { intros c Hc Hcp Hcz. rewrite elem_of_app. intros [Hin|Hin]; [rewrite Forall_forall in Hbr; by apply (Hbr _ Hin)|].
    unfold zone_text in Hin. case_bool_decide; [by apply elem_of_nil in Hin|]. by apply elem_of_cons in Hin as [->|?]. }
  rewrite SplitHostPort_Join; [|apply Hnb; [by left|done|done]|apply Hnb; [right; by left|done|done]|done].
  cbn [mbind option_bind]. assert (El : lenient_port (FormatUint v) = v).
  { unfold lenient_port. rewrite Hp. destruct (FormatUint v); [done|]. lia. }
  rewrite El. set (ty := if udp then udpURI else tcpURI).
  assert (Hty : ip_type ty) by (destruct udp; [by left|by right]).
  assert (Hzo : zone_ok (zone_text zone)) by by apply zone_text_ok.
  assert (Em : (if udp then MakeUDPFaceURI else MakeTCPFaceURI) 4 (IP_String ip ++ zone_text zone) v = ip_uri ty ip (zone_text zone) v).
  { assert (Hc : forall sc, Canonize (mkURI ty sc (IP_String ip ++ zone_text zone) v) = (ip_uri ty ip (zone_text zone) v, true)).
    { intros sc. rewrite Canonize_ip by done. rewrite (path_parts_eq _ (IP_String ip) (zone_text zone)); [|done|by apply no_percent|done].
      cbn [fst snd]. by rewrite resolve_print. }
    unfold MakeUDPFaceURI, MakeTCPFaceURI. destruct udp; by rewrite Hc. }
  rewrite Em. by rewrite Canonize_ip_uri.
Qed.

Section laws.
Context `{NetEnv} `{EncLaws} {F : Type} `{FibStrategyLaws F}.
Context (udpLifetime tcpLifetime UDPUnicastPort : Z).
Context (dial : list byte -> list byte -> option Z -> option (list byte)).
Implicit Types (w : FaceWorld F).

Lemma next_id_free fuel used next id next' : next_id fuel used next = Some (id, next') -> used !! id = None.
Proof.
  revert next. induction fuel as [|fuel IH]; intros next; cbn [next_id]; [done|].
  destruct (used !! next) eqn:E; [apply IH|by intros [= <- _]].
Qed.

Lemma add_link_effect f w w' : add_link f w = Some w' -> exists new,
  links w' = <[fresh (dom (links w)) := lf_SetFaceID new f]> (links w) /\ Faces w' = <[new := fresh (dom (links w))]> (Faces w) /\
  Faces w !! new = None.
Proof.
  unfold add_link, Add. destruct (next_id _ _ _) as [[new next]|] eqn:E; [|done]. apply next_id_free in E.
  intros [= <-]. exists new. cbn. by rewrite alter_insert_eq.
Qed.

(** A face of the table: its transport is up and has the given remote URI. *)
Definition has_face (p : nat) (remote : URI) w : Prop :=
  exists id f, Faces w !! id = Some p /\ links w !! p = Some f /\ lf_remoteURI f = remote /\ state (tbase (lf_transport f)) = Up.

Lemma add_transport_face t w w' : add_transport t w = Some w' -> state (tbase t) = Up ->
  has_face (fresh (dom (links w))) (remoteURI (tbase t)) w' /\ (forall p u, has_face p u w -> has_face p u w').
Proof.
  intros Ha Hu. apply add_link_effect in Ha as (new & Hl & Hf & Hfree). split.
  - exists new, (lf_SetFaceID new (new_face t (Some MakeNDNLPLinkServiceOptions))). rewrite Hl, Hf, !lookup_insert_eq. done.
  - intros p u (id & f & Hi & Hp & Hr & Hs). exists id, f. rewrite Hl, Hf. rewrite !lookup_insert_ne; [done|..]; [|congruence].
    intros <-. assert (Hn : fresh (dom (links w)) ∉ dom (links w)) by apply is_fresh. apply Hn, elem_of_dom. by exists f.
Qed.

Lemma MakeUnicastUDP_facts now remote local p t :
  MakeUnicastUDPTransport udpLifetime UDPUnicastPort dial now remote (Some local) p = Some t ->
  state (tbase t) = Up /\ remoteURI (tbase t) = remote /\ localURI (tbase t) = local /\ kind t = UnicastUDP.
Proof.
  unfold MakeUnicastUDPTransport. goal_if E; [done|]. destruct (dial _ _ _) as [addr|]; [|done]. cbn. intros [= <-].
  solve_change.
Qed.

Lemma accept_datagram_facts now addr local t :
  accept_datagram udpLifetime UDPUnicastPort dial now addr local = Some t ->
  state (tbase t) = Up /\ remote_uri true addr = Some (remoteURI (tbase t)) /\ localURI (tbase t) = local.
Proof.
  unfold accept_datagram. destruct (remote_uri true addr) as [u|]; [|done]. cbn. destruct (negb (IsCanonical u)); [done|].
  intros Hm. apply MakeUnicastUDP_facts in Hm as (Hs & -> & Hl & _). done.
Qed.

(** ** The UDP listener *)

#[local] Abbreviation step := (udp_step udpLifetime UDPUnicastPort dial).
#[local] Abbreviation run := (udp_run udpLifetime UDPUnicastPort dial).

Lemma udp_run_app l evs1 evs2 (r : UDPRun F) : run l (evs1 ++ evs2) r = (run l evs1 r ≫= run l evs2).
Proof. revert r. induction evs1 as [|ev evs1 IH]; intros r; cbn; [done|]. destruct (step l ev r); cbn; auto. Qed.

(** Where the frame of a new face comes from: [p] was made for the sender of a
    datagram, over whose bytes those of the datagrams since then were read. *)
Definition comes_from (p : nat) (frame : list byte) w (evs0 : list udp_event) (ev : udp_event) (evs1 : list udp_event) : Prop :=
  exists now bs addr remote, ev = Datagram now bs addr /\ remote_uri true addr = Some remote /\ has_face p remote w /\
    frame = overwritten (take (Z.to_nat MaxNDNPacketSize) bs) (datagrams evs1).

Record udp_inv (evs : list udp_event) (r : UDPRun F) : Prop := {
  ui_buf : length (recvBuf r) = Z.to_nat MaxNDNPacketSize;
  ui_starting : forall p n, (p, n) ∈ starting r -> (n <= length (recvBuf r))%nat /\
    exists evs0 ev evs1, evs = evs0 ++ ev :: evs1 /\ comes_from p (take n (recvBuf r)) (table r) evs0 ev evs1;
  ui_copied : forall p frame, (p, frame) ∈ copied r ->
    exists evs0 ev evs1 k evs2, evs = evs0 ++ ev :: evs1 ++ StartFace k :: evs2 /\ comes_from p frame (table r) evs0 ev evs1 }.

Lemma comes_from_mono p frame w w' evs0 ev evs1 : (forall q u, has_face q u w -> has_face q u w') ->
  comes_from p frame w evs0 ev evs1 -> comes_from p frame w' evs0 ev evs1.
Proof. intros Hm (now & bs & addr & u & ? & ? & ? & ?). exists now, bs, addr, u. auto. Qed.

Lemma comes_from_datagram p n buf w evs0 ev evs1 now bs addr : (n <= length buf)%nat ->
  comes_from p (take n buf) w evs0 ev evs1 -> comes_from p (take n (fill bs buf)) w evs0 ev (evs1 ++ [Datagram now bs addr]).
Proof.
  intros Hn (now' & bs' & addr' & u & ? & ? & ? & E). exists now', bs', addr', u. split_and!; try done.
  unfold datagrams. rewrite omap_app. cbn. by rewrite overwritten_snoc, take_fill, E.
Qed.

Lemma comes_from_quiet p frame w evs0 ev evs1 x : datagrams [x] = [] ->
  comes_from p frame w evs0 ev evs1 -> comes_from p frame w evs0 ev (evs1 ++ [x]).
Proof.
  intros Hx (now & bs & addr & u & ? & ? & ? & ->). exists now, bs, addr, u. split_and!; try done.
  unfold datagrams in *. by rewrite omap_app, Hx, app_nil_r.
Qed.

Lemma delete_elem {A} (i : nat) (x : A) (l : list A) : x ∈ delete i l -> x ∈ l.
Proof.
  revert i. induction l as [|y l IH]; intros [|i]; cbn; [done|done|by right|].
  intros [->|Hx]%elem_of_cons; [by left|right; by eapply IH].
Qed.

Lemma udp_step_inv l ev evs r r' : udp_inv evs r -> step l ev r = Some r' -> udp_inv (evs ++ [ev]) r'.
Proof.
  intros [Hb Hs Hc] Hst. destruct ev as [now bs addr| |i]; cbn [udp_step] in Hst.
  - destruct (reading r); [|done].
    assert (Hkeep : forall w', (forall q u, has_face q u (table r) -> has_face q u w') ->
      (forall p n, (p, n) ∈ starting r -> (n <= length (fill bs (recvBuf r)))%nat /\
        exists evs0 ev evs1, evs ++ [Datagram now bs addr] = evs0 ++ ev :: evs1 /\ comes_from p (take n (fill bs (recvBuf r))) w' evs0 ev evs1) /\
      (forall p frame, (p, frame) ∈ copied r -> exists evs0 ev evs1 k evs2,
        evs ++ [Datagram now bs addr] = evs0 ++ ev :: evs1 ++ StartFace k :: evs2 /\ comes_from p frame w' evs0 ev evs1)).
    { intros w' Hm. split.
      - intros p n Hp. destruct (Hs p n Hp) as (Hn & evs0 & ev & evs1 & -> & Hf). rewrite length_fill. split; [done|].
        exists evs0, ev, (evs1 ++ [Datagram now bs addr]). split; [by rewrite <- app_assoc|]. apply comes_from_datagram; [done|].
        by eapply comes_from_mono.
      - intros p frame Hp. destruct (Hc p frame Hp) as (evs0 & ev & evs1 & k & evs2 & -> & Hf).
        exists evs0, ev, evs1, k, (evs2 ++ [Datagram now bs addr]). split; [|by eapply comes_from_mono].
        rewrite <- !app_assoc. cbn. by rewrite <- app_assoc. }
    destruct (accept_datagram _ _ _ _ _ _) as [t|] eqn:Ea.
    + apply accept_datagram_facts in Ea as (Hu & Hr & _). destruct (add_transport t (table r)) as [w'|] eqn:Et; [|done].
      cbn in Hst. simplify_eq. destruct (add_transport_face t (table r) w' Et Hu) as [Hnew Hm]. destruct (Hkeep w' Hm) as [K1 K2].
      split; cbn; [by rewrite length_fill| |done]. intros p n [Hp|Hp]%elem_of_app; [by apply K1|].
      apply list_elem_of_singleton in Hp. simplify_eq. rewrite length_fill, length_take. split; [lia|].
      exists evs, (Datagram now bs addr), []. split; [done|]. exists now, bs, addr, (remoteURI (tbase t)). split_and!; try done.
      unfold overwritten, datagrams, fill. cbn [omap list_omap foldl]. rewrite <- Hb.
      rewrite take_app_le by (rewrite length_take; lia). rewrite take_take.
      destruct (decide (length (recvBuf r) <= length bs)%nat); [f_equal; lia|by rewrite !take_ge by lia].
    + simplify_eq. destruct (Hkeep (table r) ltac:(done)) as [K1 K2]. split; cbn; [by rewrite length_fill|done|done].
  - destruct (reading r); [|done]. simplify_eq. split; cbn; [done| |].
    + intros p n Hp. destruct (Hs p n Hp) as (Hn & evs0 & ev & evs1 & -> & Hf). split; [done|].
      exists evs0, ev, (evs1 ++ [ReadFails]). split; [by rewrite <- app_assoc|]. by apply comes_from_quiet.
    + intros p frame Hp. destruct (Hc p frame Hp) as (evs0 & ev & evs1 & k & evs2 & -> & Hf).
      exists evs0, ev, evs1, k, (evs2 ++ [ReadFails]). split; [|done]. by rewrite <- !app_assoc; cbn; rewrite <- app_assoc.
  - destruct (starting r !! i) as [[p n]|] eqn:Hi; [|done]. cbn in Hst. simplify_eq. split; cbn; [done| |].
    + intros q m Hq. apply delete_elem in Hq. destruct (Hs q m Hq) as (Hn & evs0 & ev & evs1 & -> & Hf). split; [done|].
      exists evs0, ev, (evs1 ++ [StartFace i]). split; [by rewrite <- app_assoc|]. by apply comes_from_quiet.
    + intros q frame [Hq|Hq]%elem_of_app.
      * destruct (Hc q frame Hq) as (evs0 & ev & evs1 & k & evs2 & -> & Hf). exists evs0, ev, evs1, k, (evs2 ++ [StartFace i]).
        split; [|done]. by rewrite <- !app_assoc; cbn; rewrite <- app_assoc.
      * apply list_elem_of_singleton in Hq. simplify_eq. apply list_elem_of_lookup_2 in Hi.
        destruct (Hs p n Hi) as (_ & evs0 & ev & evs1 & -> & Hf). exists evs0, ev, evs1, i, []. split; [|done].
        by rewrite <- app_assoc.
Qed.

Lemma udp_run_inv l evs w r : run l evs (udp_start w) = Some r -> udp_inv evs r.
Proof.
  revert r. induction evs as [|ev evs IH] using rev_ind; intros r Hr.
  - cbn in Hr. injection Hr as <-. split; cbn [recvBuf starting copied udp_start]; [apply length_replicate|..]; intros ? ? []%elem_of_nil.
  - rewrite udp_run_app in Hr. destruct (run l evs (udp_start w)) as [r1|]; [|done]. cbn in Hr.
    destruct (step l ev r1) as [r2|] eqn:E; [|done]. cbn in Hr. simplify_eq. eapply udp_step_inv; [by apply IH|done].
Qed.

(** The table grows by one face per accepted datagram. *)
Lemma udp_step_table D l ev r r' : table_ok D (table r) -> Z.of_nat (size (Faces (table r))) < 2 ^ 64 -> step l ev r = Some r' ->
  table_ok D (table r') /\ (size (Faces (table r')) <= S (size (Faces (table r))))%nat /\
  Faces (table r) ⊆ Faces (table r').
Proof.
  intros Ht Hs Hst. destruct ev as [now bs addr| |i]; cbn [udp_step] in Hst.
  - destruct (reading r); [|done]. destruct (accept_datagram _ _ _ _ _ _) as [t|]; [|simplify_eq; cbn; split_and!; [done|lia|done]].
    destruct (add_link_ok D (table r) (new_face t (Some MakeNDNLPLinkServiceOptions)) Ht Hs)
      as (w' & new & E & Ht' & _ & Hfree & _ & _ & Hf & _).
    unfold add_transport in Hst. rewrite E in Hst. cbn in Hst. simplify_eq. cbn. split; [done|]. rewrite Hf. split.
    + by rewrite map_size_insert_None.
    + by apply insert_subseteq.
  - destruct (reading r); [|done]. simplify_eq. cbn. split_and!; [done|lia|done].
  - destruct (starting r !! i) as [[p n]|]; [|done]. cbn in Hst. simplify_eq. cbn. split_and!; [done|lia|done].
Qed.

Lemma udp_run_table D l evs : forall r r', table_ok D (table r) ->
  Z.of_nat (size (Faces (table r))) + Z.of_nat (length evs) < 2 ^ 64 -> run l evs r = Some r' ->
  table_ok D (table r') /\ Faces (table r) ⊆ Faces (table r').
Proof.
  induction evs as [|ev evs IH]; intros r r' Ht Hs Hr; cbn [udp_run] in Hr; [by simplify_eq|].
  destruct (step l ev r) as [r1|] eqn:E; [|done]. cbn in Hr, Hs.
  destruct (udp_step_table D l ev r r1 Ht ltac:(lia) E) as (Ht1 & Hs1 & Hsub).
  destruct (IH r1 r' Ht1 ltac:(lia) Hr) as [? ?]. split; [done|]. by etrans.
Qed.

(** The UDP listener.  Whatever datagrams arrive, and however the goroutines of
    the new faces are scheduled, the listener keeps the face table consistent
    and every face that was in it, and each frame handed to a new face comes from
    the datagram that face was made for: its link service is in the table, up,
    under the sender's URI.  But the frame is copied out of the listener's buffer
    only when the new face starts: it is the datagram if none was read meanwhile;
    otherwise it is overwritten by those that were, and the face takes the
    beginning of another endpoint's packet when the last one was as long. *)
Lemma udp_listener_frames D listen l evs w r :
  table_ok D w -> Z.of_nat (size (Faces w)) + Z.of_nat (length evs) < 2 ^ 64 ->
  udp_Run udpLifetime UDPUnicastPort dial listen l evs w = Some r ->
  table_ok D (table r) /\ Faces w ⊆ Faces (table r) /\
  forall p frame, (p, frame) ∈ copied r -> exists evs0 now bs addr evs1 k evs2 remote,
    evs = evs0 ++ Datagram now bs addr :: evs1 ++ StartFace k :: evs2 /\
    remote_uri true addr = Some remote /\ has_face p remote (table r) /\
    let sent := take (Z.to_nat MaxNDNPacketSize) bs in
    frame = overwritten sent (datagrams evs1) /\
    (datagrams evs1 = [] -> frame = sent) /\
    (forall ds d, datagrams evs1 = ds ++ [d] -> (length sent <= length d)%nat -> frame = take (length sent) d).
Proof.
  intros Ht Hs Hr. unfold udp_Run in Hr. destruct (listen _ _).
  2: { injection Hr as <-. split_and!; try done. intros ? ? []%elem_of_nil. }
  destruct (udp_run_table D l evs (udp_start w) r Ht Hs Hr) as [Ht' Hsub]. split; [done|]. split; [done|].
  intros p frame Hp. destruct (ui_copied _ _ (udp_run_inv _ _ _ _ Hr) p frame Hp)
    as (evs0 & ev & evs1 & k & evs2 & -> & now & bs & addr & remote & -> & Hrem & Hf & ->).
  exists evs0, now, bs, addr, evs1, k, evs2, remote. split; [done|]. split; [done|]. split; [done|]. cbv zeta.
  split; [done|]. split; [by intros ->|]. intros ds d -> Hl. rewrite overwritten_snoc. unfold fill.
  assert (Hlen : forall ds f, length (overwritten f ds) = length f).
  { intros ds'. induction ds' as [|x ds' IH] using rev_ind; intros f; [done|]. by rewrite overwritten_snoc, length_fill. }
  rewrite Hlen, drop_ge by (by rewrite Hlen). apply app_nil_r.
Qed.

(** ** Accepted connections *)

Lemma add_transport_ok D t w : table_ok D w -> Z.of_nat (size (Faces w)) < 2 ^ 64 -> state (tbase t) = Up ->
  exists w', add_transport t w = Some w' /\ table_ok D w' /\ size (Faces w') = S (size (Faces w)) /\
    has_face (fresh (dom (links w))) (remoteURI (tbase t)) w' /\ (forall p u, has_face p u w -> has_face p u w').
Proof.
  intros Ht Hs Hu.
  destruct (add_link_ok D w (new_face t (Some MakeNDNLPLinkServiceOptions)) Ht Hs) as (w' & new & E & Ht' & _ & Hfree & _ & _ & Hf & _).
  exists w'. split; [exact E|]. split; [done|]. split; [by rewrite Hf, map_size_insert_None|]. by apply add_transport_face.
Qed.

Lemma accept_kernel now addr ip zone v local : kernel_address addr ip zone v ->
  exists t, AcceptUnicastTCPTransport tcpLifetime now addr local PersistencyPersistent = Ok (Some t) /\
    state (tbase t) = Up /\ remote_uri false addr = Some (remoteURI (tbase t)).
Proof.
  intros Hk. pose proof (remote_uri_kernel false addr ip zone v Hk) as Hr. destruct Hk as [Hip Hz Hv _].
  unfold AcceptUnicastTCPTransport. rewrite Hr.
  assert (Hc : IsCanonical (ip_uri tcpURI ip (zone_text zone) v) = true).
  { rewrite IsCanonical_ip_uri; [lia|by right|done|]. apply zone_text_ok. by destruct (zone_chars zone Hz). }
  cbn [negb]. rewrite Hc. cbn [negb]. eexists. split; [done|]. solve_change.
Qed.

Lemma tcp_accept_ok D l evs : forall w, table_ok D w -> Z.of_nat (size (Faces w)) + Z.of_nat (length evs) < 2 ^ 64 ->
  (forall now addr, AcceptedFrom now addr ∈ evs -> exists ip zone v, kernel_address addr ip zone v) ->
  exists w', tcp_accept tcpLifetime l evs w = Ok (Some w') /\ table_ok D w' /\
    (forall p u, has_face p u w -> has_face p u w') /\
    (forall now addr, AcceptedFrom now addr ∈ evs -> exists p u, remote_uri false addr = Some u /\ has_face p u w').
Proof.
  induction evs as [|[|now addr] evs IH]; intros w Ht Hs Hk; cbn [tcp_accept].
  - exists w. split_and!; try done. by intros ? ? ?%elem_of_nil.
  - destruct (IH w Ht) as (w' & E & Ht' & Hm & Ha); [cbn in Hs; lia|intros; eapply Hk; right; done|].
    exists w'. split_and!; try done. intros now addr [?|?]%elem_of_cons; [done|eauto].
  - destruct (Hk now addr ltac:(by left)) as (ip & zone & v & Hka).
    destruct (accept_kernel now addr ip zone v (tl_localURI l) Hka) as (t & Et & Hu & Hr). rewrite Et.
    destruct (add_transport_ok D t w Ht ltac:(cbn in Hs; lia) Hu) as (w1 & E1 & Ht1 & Hs1 & Hnew & Hm1). rewrite E1.
    destruct (IH w1 Ht1) as (w' & E & Ht' & Hm & Ha); [cbn in Hs; lia|intros; eapply Hk; right; done|].
    exists w'. split_and!; try done; [by auto|]. intros now' addr' [Hx|?]%elem_of_cons; [|eauto].
    simplify_eq. exists (fresh (dom (links w))), (remoteURI (tbase t)). auto.
Qed.

Lemma FD_canonical fd : 0 <= fd < 2 ^ 63 -> IsCanonical (MakeFDFaceURI fd) = true /\ scheme (MakeFDFaceURI fd) = gs "fd".
Proof.
  intros Hfd. unfold MakeFDFaceURI. replace (fd <? 0) with false by lia. cbn [Canonize uriType fst]. split; [|done].
  unfold IsCanonical. cbn [uriType scheme path port]. destruct (FormatUint_spec fd ltac:(lia)) as (Hne & Hd & Hp).
  unfold Atoi. destruct (FormatUint fd) as [|b r] eqn:E; [done|]. apply Forall_cons_1 in Hd as [Hb _].
  rewrite decide_False by (intros ->; discriminate). rewrite decide_False by (intros ->; discriminate). rewrite Hp.
  cbn [mbind option_bind]. replace (fd <? 2 ^ 63) with true by lia. replace (0 <=? fd) with true by lia. done.
Qed.

Lemma unix_accept_ok D l conns evs : forall w fd, table_ok D w -> Z.of_nat (size (Faces w)) + Z.of_nat (length conns) < 2 ^ 64 ->
  IsCanonical (xl_localURI l) = true -> scheme (xl_localURI l) = gs "unix" ->
  xl_nextFD l = fd -> 0 <= fd -> fd + Z.of_nat (length conns) < 2 ^ 63 -> Forall (fun c => c <> AcceptError) conns ->
  exists w', unix_accept l (conns ++ AcceptError :: evs) w =
      Some (mkUnixListener (xl_localURI l) (fd + Z.of_nat (length conns)), w', true) /\ table_ok D w' /\
    (forall p u, has_face p u w -> has_face p u w') /\
    (forall i, (i < length conns)%nat -> exists p, has_face p (MakeFDFaceURI (fd + Z.of_nat i)) w').
Proof.
  revert l. induction conns as [|[|now addr] conns IH]; intros l w fd Ht Hs Hc Hsc Hfd Hfd0 Hb Hall.
  - exists w. cbn. rewrite Z.add_0_r, <- Hfd. destruct l. split_and!; try done. intros i Hi. cbn in Hi. lia.
  - by apply Forall_cons_1 in Hall as [? _].
  - apply Forall_cons_1 in Hall as [_ Hall]. cbn [length] in Hs, Hb. cbn [app unix_accept].
    destruct (FD_canonical fd ltac:(lia)) as [F1 F2]. rewrite Hfd, F1. cbn [negb xl_localURI].
    assert (Hmk : exists t, MakeUnixStreamTransport (MakeFDFaceURI fd) (xl_localURI l) = Some t /\ state (tbase t) = Up /\
                    remoteURI (tbase t) = MakeFDFaceURI fd).
    { unfold MakeUnixStreamTransport. rewrite F1, F2, Hc, Hsc. rewrite !bool_decide_true by done. cbn [negb orb].
      eexists. split; [done|]. solve_change. }
    destruct Hmk as (t & Et & Hu & Hr). rewrite Et.
    destruct (add_transport_ok D t w Ht ltac:(lia) Hu) as (w1 & E1 & Ht1 & Hs1 & Hnew & Hm1). rewrite E1.
    assert (Hi : i64 (fd + 1) = fd + 1) by (apply i64_small; lia). rewrite Hi.
    destruct (IH (mkUnixListener (xl_localURI l) (fd + 1)) w1 (fd + 1) Ht1 ltac:(lia) Hc Hsc eq_refl ltac:(lia) ltac:(lia) Hall)
      as (w' & E & Ht' & Hm & Hf).
    exists w'. rewrite E. cbn [xl_localURI]. split; [do 4 f_equal; cbn [length]; lia|]. split; [done|]. split; [by auto|].
    intros [|i] Hlt; [|destruct (Hf i) as (p & Hp); [cbn in Hlt; lia|]; exists p; by replace (fd + Z.of_nat (S i)) with (fd + 1 + Z.of_nat i) by lia].
    rewrite Z.add_0_r. exists (fresh (dom (links w))). apply Hm. by rewrite <- Hr.
Qed.

(** Accepted connections become faces.  The TCP listener never panics and
    makes a face for every connection whose address is one the kernel reports,
    whatever errors come in between, if it can listen at all; the Unix listener makes one for every
    connection until the first error, which ends it, under consecutive file
    descriptor URIs.  Both keep the face table consistent. *)
Lemma accepted_connections D listen lt u lu evs conns rest w :
  table_ok D w -> Z.of_nat (size (Faces w)) + Z.of_nat (length evs) < 2 ^ 64 ->
  Z.of_nat (size (Faces w)) + Z.of_nat (length conns) < 2 ^ 62 ->
  (forall now addr, AcceptedFrom now addr ∈ evs -> exists ip zone v, kernel_address addr ip zone v) ->
  MakeUnixStreamListener u = Some lu -> Forall (fun c => c <> AcceptError) conns ->
  (exists w', tcp_Run tcpLifetime listen lt evs w = Ok (Some w') /\ table_ok D w' /\
    if listen (scheme (tl_localURI lt)) (listen_address "tcp4" (tl_localURI lt))
    then forall now addr, AcceptedFrom now addr ∈ evs -> exists p remote, remote_uri false addr = Some remote /\ has_face p remote w'
    else w' = w) /\
  (exists w', unix_accept lu (conns ++ AcceptError :: rest) w =
      Some (mkUnixListener (xl_localURI lu) (1 + Z.of_nat (length conns)), w', true) /\ table_ok D w' /\
    forall i, (i < length conns)%nat -> exists p, has_face p (MakeFDFaceURI (1 + Z.of_nat i)) w').
Proof.
  intros Ht Hs Hs' Hk Hu Hc. split.
  - unfold tcp_Run. destruct (listen _ _); [|by exists w].
    destruct (tcp_accept_ok D lt evs w Ht Hs Hk) as (w' & E & Ht' & _ & Ha). by exists w'.
  - unfold MakeUnixStreamListener in Hu. destruct (IsCanonical (Canonize u).1) eqn:E1; [|done].
    destruct (bool_decide (scheme (Canonize u).1 = gs "unix")) eqn:E2; [|done]. apply bool_decide_eq_true in E2.
    cbn in Hu. injection Hu as <-.
    destruct (unix_accept_ok D (mkUnixListener (Canonize u).1 1) conns rest w 1 Ht ltac:(lia) E1 E2 eq_refl ltac:(lia) ltac:(lia) Hc)
      as (w' & E & Ht' & _ & Hf). by exists w'.
Qed.
End laws.

From S2P Require Import FibTree.

Module ListenersExamples.
#[local] Existing Instance UriExamples.ex_env.
#[local] Existing Instance ref_ops.
#[local] Existing Instance ref_laws.
Import FacesExamples.

Definition dial (network address : list byte) (localPort : option Z) : option (list byte) := Some (gs "127.0.0.1:6363").
Definition udp : UDPListener := mkUDPListener (mkURI udpURI (gs "udp4") (gs "127.0.0.1") 6363).

(** The datagrams of two endpoints arrive before the face of the first starts. *)
Definition early (bs : list byte) : list udp_event :=
  [Datagram 5 [x01; x02; x03] (gs "127.0.0.1:4000"); Datagram 6 bs (gs "127.0.0.1:4001"); StartFace 0; StartFace 0].
Definition result (bs : list byte) : option (UDPRun FibStrategyTree) :=
  udp_Run 600 6363 dial (fun _ _ => true) udp (early bs) ex_world.

Lemma frames_of : (fun r => (copied r).*2) <$> result [x0a; x0b; x0c; x0d] = Some [[x0a; x0b; x0c]; [x0a; x0b; x0c; x0d]].
Proof. vm_compute. reflexivity. Qed.

Lemma udp_listener_witness :
  exists r, result [x0a; x0b; x0c; x0d] = Some r /\ table_ok (fun _ => False) (table r) /\
    (copied r).*2 = [[x0a; x0b; x0c]; [x0a; x0b; x0c; x0d]].
Proof.
  destruct (result [x0a; x0b; x0c; x0d]) as [r|] eqn:E; [|pose proof frames_of as Hf; rewrite E in Hf; discriminate].
  exists r. split; [reflexivity|]. split.
  - exact (proj1 (udp_listener_frames 600 6363 dial (fun _ => False) (fun _ _ => true) udp (early [x0a; x0b; x0c; x0d]) ex_world r
      ex_world_ok ltac:(vm_compute; reflexivity) E)).
  - pose proof frames_of as Hf. rewrite E in Hf. cbn in Hf. by injection Hf.
Defined.

Definition unix_uri : URI := mkURI unixURI (gs "unix") (gs "run/nfd.sock") 0.
Definition tcp_events : list accepted := [AcceptedFrom 5 (gs "127.0.0.1:4000"); AcceptError; AcceptedFrom 6 (gs "[::1]:80")].

Lemma tcp_addresses now addr : AcceptedFrom now addr ∈ tcp_events -> exists ip zone v, kernel_address addr ip zone v.
Proof.
  unfold tcp_events. rewrite !elem_of_cons. intros [E|[E|[E|[]%elem_of_nil]]]; [|discriminate|]; injection E as -> ->.
  - exists (from_v4 (127, 0, 0, 1)), [], 4000. split; [split; [reflexivity|repeat constructor; lia]|reflexivity|lia|vm_compute; reflexivity].
  - exists v6_loopback, [], 80. split; [split; [reflexivity|repeat constructor; lia]|reflexivity|lia|vm_compute; reflexivity].
Qed.

Lemma accepted_connections_witness :
  (exists w', tcp_Run 600 (fun _ _ => true) (mkTCPListener (mkURI tcpURI (gs "tcp4") (gs "127.0.0.1") 6363)) tcp_events ex_world = Ok (Some w') /\
    table_ok (fun _ => False) w') /\
  exists w' lu, MakeUnixStreamListener unix_uri = Some lu /\
    unix_accept lu ([AcceptedFrom 5 []; AcceptedFrom 6 []] ++ AcceptError :: []) ex_world = Some (mkUnixListener (xl_localURI lu) 3, w', true) /\
    exists p, has_face p (MakeFDFaceURI 2) w'.
Proof.
  assert (Hc : Forall (fun c => c <> AcceptError) [AcceptedFrom 5 []; AcceptedFrom 6 []]) by (repeat constructor; discriminate).
  destruct (accepted_connections 600 (fun _ => False) (fun _ _ => true) (mkTCPListener (mkURI tcpURI (gs "tcp4") (gs "127.0.0.1") 6363)) unix_uri
    (mkUnixListener unix_uri 1) tcp_events [AcceptedFrom 5 []; AcceptedFrom 6 []] [] ex_world ex_world_ok
    ltac:(vm_compute; reflexivity) ltac:(vm_compute; reflexivity) tcp_addresses ltac:(vm_compute; reflexivity) Hc)
    as ((w1 & E1 & Ht1 & _) & (w2 & E2 & _ & Hf)).
  split; [exists w1; split; [exact E1|exact Ht1]|].
  exists w2, (mkUnixListener unix_uri 1). split; [vm_compute; reflexivity|]. split; [exact E2|].
  apply (Hf 1%nat). cbn. lia.
Defined.
End ListenersExamples.
