(* ===== verification/Executor.v ===== *)
(** * Starting and stopping the daemon: executor/yanfd.go

    [Start] puts faces into the table and starts listeners, interface by
    interface; [Stop] closes every face of the table and waits for those that are
    still in it.  Profiling, logging, the starting of threads and the
    configuration file are left out: what [Start] reads from the configuration and
    asks the operating system are arguments. *)
From S2P Require Import Prelude Enc FibSpec Rib.
From S2P Require Import Packet Fw Text NetAddr Uri Transport Sockets LinkService Faces Listeners.
Local Open Scope Z_scope.

(** ** Data *)

(** An address of a network interface, and an interface: its name, whether it is
    up and does multicast, and its addresses ([None] when they cannot be read). *)
Record Iface := mkIface { if_name : list byte; if_up : bool; if_multicast : bool; if_addrs : option (list IP) }.

(** The configuration as [Start] reads it. *)
Record StartConfig := mkStart {
  ethEnabled : bool; tcpEnabled : bool; unixEnabled : bool; wsEnabled : bool;
  cfgUDPUnicastPort : Z; cfgUDPMulticastPort : Z; cfgTCPUnicastPort : Z;
  cfgEthernetMulticast : list byte; cfg_udp4Multicast : list byte; cfg_udp6Multicast : list byte;
  cfgUnixSocketPath : list byte; cfgWebSocket : WebSocketListenerConfig }.

(** What the operating system says: whether an interface's Ethernet handle can be
    activated, the interface of an address, whether the sockets for multicast can
    be made, and whether a key pair can be loaded. *)
Record StartEnv := mkEnv {
  env_activated : list byte -> bool;
  env_ifname : list byte -> option (list byte);
  env_connected : URI -> bool;
  env_key_pair : list byte -> list byte -> bool }.

Section start.
Context `{NetEnv} `{EncOps} {F : Type} `{FibStrategy F}.
Context (cfg : StartConfig) (env : StartEnv).

(** The daemon after (a part of) [Start]: the table, the count of faces and
    listeners, and the listeners. *)
Record YaNFD := mkYaNFD {
  y_faces : FaceWorld F; faceCnt : Z;
  udpListeners : list UDPListener; tcpListeners : list TCPListener;
  unixListener : option UnixStreamListener; wsListener : option URI }.

(** A face of its own: [FaceTable.Add] of a link service on a transport.  [Err]
    is also the loop of [Add] that does not end. *)
Definition add_started (f : LinkFace) (y : YaNFD) : outcome YaNFD :=
  match add_link f (y_faces y) with
  | Some w => Ok (mkYaNFD w (faceCnt y + 1) (udpListeners y) (tcpListeners y) (unixListener y) (wsListener y))
  | None => Err (ErrNew "no free FaceID")
  end.
Definition ndnlp (t : FaceTransport) : LinkFace := new_face t (Some MakeNDNLPLinkServiceOptions).

Definition start_udp (uri : URI) (y : YaNFD) : option YaNFD :=
  l ← MakeUDPListener uri;
  Some (mkYaNFD (y_faces y) (faceCnt y + 1) (udpListeners y ++ [l]) (tcpListeners y) (unixListener y) (wsListener y)).
Definition start_tcp (uri : URI) (y : YaNFD) : option YaNFD :=
  l ← MakeTCPListener uri;
  Some (mkYaNFD (y_faces y) (faceCnt y + 1) (udpListeners y) (tcpListeners y ++ [l]) (unixListener y) (wsListener y)).

(** One address of an interface: a multicast face unless it is a loopback
    address, then listeners; the first that cannot be made ends the round. *)
Definition start_addr (name : list byte) (ip : IP) (y : YaNFD) : outcome YaNFD :=
  let '(ipVersion, path) :=
    match To4 ip with Some _ => (4, IP_String ip) | None => (6, IP_String ip ++ gs "%" ++ name) end in
  let listeners y :=
    match start_udp (MakeUDPFaceURI ipVersion path (cfgUDPUnicastPort cfg)) y with
    | None => Ok y
    | Some y =>
        if tcpEnabled cfg then
          Ok (default y (start_tcp (MakeTCPFaceURI ipVersion path (cfgTCPUnicastPort cfg)) y))
        else Ok y
    end in
  if IsLoopback ip then listeners y
  else
    let local := MakeUDPFaceURI ipVersion path (cfgUDPMulticastPort cfg) in
    match MakeMulticastUDPTransport (cfg_udp4Multicast cfg) (cfg_udp6Multicast cfg) (cfgUDPMulticastPort cfg)
            (env_ifname env path) (env_connected env local) local with
    | Ok t => let* y := add_started (ndnlp t) y in listeners y
    | Err _ => Ok y
    | Panic => Panic
    end.

Fixpoint start_addrs (name : list byte) (ips : list IP) (y : YaNFD) : outcome YaNFD :=
  match ips with [] => Ok y | ip :: ips => let* y := start_addr name ip y in start_addrs name ips y end.

(** One interface.  [LogFatal] ends the process, [Err]. *)
Definition start_iface (i : Iface) (y : YaNFD) : outcome YaNFD :=
  if negb (if_up i) then Ok y
  else
    let* y := (if ethEnabled cfg && if_multicast i then
                 match MakeMulticastEthernetTransport (env_activated env (if_name i))
                         (default MakeNullFaceURI (DecodeURIString (gs "ether://[" ++ cfgEthernetMulticast cfg ++ gs "]")))
                         (MakeDevFaceURI (if_name i)) with
                 | Some t => add_started (ndnlp t) y
                 | None => Ok y
                 end
               else Ok y) in
    match if_addrs i with
    | None => Err (ErrNew "Unable to access addresses")
    | Some ips => start_addrs (if_name i) ips y
    end.

Fixpoint start_ifaces (ifs : list Iface) (y : YaNFD) : outcome YaNFD :=
  match ifs with [] => Ok y | i :: ifs => let* y := start_iface i y in start_ifaces ifs y end.

Definition start_unix (y : YaNFD) : YaNFD :=
  if unixEnabled cfg then
    match MakeUnixStreamListener (MakeUnixFaceURI (cfgUnixSocketPath cfg)) with
    | Some l => mkYaNFD (y_faces y) (faceCnt y + 1) (udpListeners y) (tcpListeners y) (Some l) (wsListener y)
    | None => y
    end
  else y.
Definition start_ws (y : YaNFD) : YaNFD :=
  if wsEnabled cfg then
    match NewWebSocketListener (env_key_pair env) (cfgWebSocket cfg) with
    | Some u => mkYaNFD (y_faces y) (faceCnt y + 1) (udpListeners y) (tcpListeners y) (unixListener y) (Some u)
    | None => y
    end
  else y.

(** [Start], after the FIB has been created: the null face, the interfaces
    ([None] when they cannot be read), the Unix and web socket listeners.  The
    null face is not counted. *)
Definition Start (ifaces : option (list Iface)) (w : FaceWorld F) : outcome YaNFD :=
  match add_link (new_face MakeNullTransport None) w with
  | None => Err (ErrNew "no free FaceID")
  | Some w =>
      match ifaces with
      | None => Err (ErrNew "Unable to access network interfaces")
      | Some ifs =>
          let* y := start_ifaces ifs (mkYaNFD w 0 [] [] None None) in
          let y := start_ws (start_unix y) in
          if faceCnt y <=? 0 then Err (ErrNew "No face or listener is successfully created. Quit.") else Ok y
      end
  end.
End start.
Arguments mkYaNFD {F}. Arguments y_faces {F}. Arguments faceCnt {F}. Arguments udpListeners {F}. Arguments tcpListeners {F}.
Arguments unixListener {F}. Arguments wsListener {F}. Arguments YaNFD F : clear implicits.

(** ** Stop *)

Section stop.
Context `{NetEnv} `{EncOps} {F : Type} `{FibStrategy F}.

(** [Close] of a face: its transport goes down, and takes the face out of the
    table, under the identifier the transport knows, if it was not down. *)
Definition close_face (w : FaceWorld F) (id : Z) : FaceWorld F :=
  match Faces w !! id with
  | None => w
  | Some p =>
      match links w !! p with
      | None => w
      | Some f =>
          let '(t, removed) := changeState Down (lf_transport f) in
          let w := mkFaceWorld (<[p := lf_on_transport (fun _ => t) f]> (links w)) (Faces w) (nextFaceID w) (FaceDispatch w)
                     (events w) (w_rib w) in
          if removed then Remove (t_faceID (tbase t)) w else w
      end
  end.

(** The two loops of [Stop] over the faces: all are closed, in some order; the
    result is the table, and the faces whose [HasQuit] is waited for. *)
Definition stop_faces (order : list Z) (w : FaceWorld F) : FaceWorld F * list Z :=
  let w := foldl close_face w order in (w, (map_to_list (Faces w)).*1).
End stop.

(** ** Start *)

Section start_laws.
Context `{NetEnv} `{EncLaws} {F : Type} `{FibStrategyLaws F}.
Context (cfg : StartConfig) (env : StartEnv).
Implicit Types (w : FaceWorld F) (y : YaNFD F).

(** The faces of the table are up, and their transports know their identifiers. *)
Definition all_up w : Prop := forall id p f, Faces w !! id = Some p -> links w !! p = Some f ->
  t_faceID (tbase (lf_transport f)) = id /\ state (tbase (lf_transport f)) = Up.

Definition option_count {A} (o : option A) : nat := match o with Some _ => 1 | None => 0 end.

(** The daemon while it starts, from a table with [k] faces: all is consistent,
    and [faceCnt] counts faces and listeners. *)
Record starting_ok D (k : nat) y : Prop := {
  so_table : table_ok D (y_faces y);
  so_up : all_up (y_faces y);
  so_count : faceCnt y + Z.of_nat k = Z.of_nat (size (Faces (y_faces y)) + length (udpListeners y) + length (tcpListeners y));
  so_later : unixListener y = None /\ wsListener y = None }.

Lemma add_link_up D w f : table_ok D w -> Z.of_nat (size (Faces w)) < 2 ^ 64 -> all_up w -> state (tbase (lf_transport f)) = Up ->
  exists w', add_link f w = Some w' /\ table_ok D w' /\ all_up w' /\ size (Faces w') = S (size (Faces w)).
Proof.
  intros Ht Hs Hall Hu. destruct (add_link_ok D w f Ht Hs) as (w' & new & E & Ht' & Hp & Hfree & _ & _ & Hf & Hl & _).
  exists w'. split; [done|]. split; [done|]. split; [|by rewrite Hf, map_size_insert_None].
  intros id p g Hi Hg. rewrite Hf in Hi. rewrite Hl in Hg. apply lookup_insert_Some in Hi as [[<- <-]|[Hne Hi]].
  - rewrite lookup_insert_eq in Hg. by injection Hg as <-.
  - rewrite lookup_insert_ne in Hg; [by apply (Hall id p g)|]. intros <-. destruct (tab_ids D w Ht _ _ Hi) as (g' & Hg' & _). congruence.
Qed.

Lemma add_started_ok D k y f : starting_ok D k y -> Z.of_nat (size (Faces (y_faces y))) < 2 ^ 64 -> state (tbase (lf_transport f)) = Up ->
  exists y', add_started f y = Ok y' /\ starting_ok D k y' /\ size (Faces (y_faces y')) = S (size (Faces (y_faces y))).
Proof.
  intros [Ht Hu Hc Hn] Hs Hf. destruct (add_link_up D _ f Ht Hs Hu Hf) as (w' & E & Ht' & Hu' & Hsz).
  unfold add_started. rewrite E. eexists. split; [done|]. split; [|done]. split; cbn; [done|done| |done]. rewrite Hsz. lia.
Qed.

(** What is started leaves the table, or grows it by one. *)
Definition started D (k n : nat) (x : outcome (YaNFD F)) y : Prop :=
  exists y', x = Ok y' /\ starting_ok D k y' /\ (size (Faces (y_faces y')) <= n + size (Faces (y_faces y)))%nat.

Lemma listeners_ok D k y uri1 uri2 (tcp : bool) : starting_ok D k y ->
  started D k 0 (match start_udp uri1 y with
                 | None => Ok y
                 | Some y => if tcp then Ok (default y (start_tcp uri2 y)) else Ok y
                 end) y.
Proof.
  intros Hok. assert (Hself : started D k 0 (Ok y) y) by (exists y; auto with lia). destruct Hok as [Ht Hu Hc Hn].
  unfold start_udp. destruct (MakeUDPListener uri1) as [l|]; [|done]. cbn [mbind option_bind].
  set (y1 := mkYaNFD _ _ _ _ _ _).
  assert (Hok1 : starting_ok D k y1) by (split; cbn; [done|done|rewrite length_app; cbn; lia|done]).
  destruct tcp; [|by exists y1]. unfold start_tcp. destruct (MakeTCPListener uri2) as [l2|]; [|by exists y1].
  cbn [mbind option_bind default from_option id]. eexists. split; [done|]. split; [|done].
  destruct Hok1 as [? ? Hc1 ?]. split; cbn in *; [done|done| |done]. rewrite !length_app in *. cbn in *. lia.
Qed.

(** A multicast face whose address no interface has. *)
Definition ip_path (name : list byte) (ip : IP) : list byte :=
  match To4 ip with Some _ => IP_String ip | None => IP_String ip ++ gs "%" ++ name end.
Definition lost_interface (name : list byte) (ip : IP) : Prop := IsLoopback ip = false /\ env_ifname env (ip_path name ip) = None.

Lemma MulticastUDP_outcome m4 m6 p ifname connected local :
  match MakeMulticastUDPTransport m4 m6 p ifname connected local with
  | Ok t => state (tbase t) = Up
  | Err _ => True
  | Panic => ifname = None
  end.
Proof.
  unfold MakeMulticastUDPTransport. goal_if E; [done|].
  destruct (bool_decide (scheme (Canonize local).1 = gs "udp4")) eqn:E4.
  - cbn. destruct connected; [|done]. solve_change.
  - destruct ifname as [name|]; cbn; [|done]. destruct connected; [|done]. solve_change.
Qed.

(** The outcome of a part of [Start] from [y] that adds at most [n] faces: it
    panics only for an address of [lost], and ends the process only by [fatal]. *)
Definition part D (k n : nat) (lost fatal : Prop) (x : outcome (YaNFD F)) y : Prop :=
  match x with
  | Ok y' => starting_ok D k y' /\ (size (Faces (y_faces y')) <= n + size (Faces (y_faces y)))%nat
  | Err _ => fatal
  | Panic => lost
  end.

Lemma part_bind D k n m l1 f1 l2 f2 x g y : part D k n l1 f1 x y ->
  (forall y', starting_ok D k y' -> (size (Faces (y_faces y')) <= n + size (Faces (y_faces y)))%nat -> part D k m l2 f2 (g y') y') ->
  part D k (n + m) (l1 \/ l2) (f1 \/ f2) (outcome_bind g x) y.
Proof.
  intros Hx Hg. destruct x as [y1|e|]; cbn in *; [|by left|by left]. destruct Hx as [Hok Hs]. specialize (Hg y1 Hok Hs).
  destruct (g y1) as [y2|e|]; cbn in *; [|by right|by right]. destruct Hg as [Hok2 Hs2]. split; [done|]. lia.
Qed.

Lemma part_weaken D k n n' (l l' f f' : Prop) x y : part D k n l f x y -> (n <= n')%nat -> (l -> l') -> (f -> f') -> part D k n' l' f' x y.
Proof. destruct x; cbn; intros Hp ? ? ?; auto. destruct Hp. split; [done|lia]. Qed.

Lemma part_same D k n l f y : starting_ok D k y -> part D k n l f (Ok y) y.
Proof. intros Hok. split; [done|lia]. Qed.

Lemma part_add D k l f y t : starting_ok D k y -> Z.of_nat (size (Faces (y_faces y))) < 2 ^ 64 -> state (tbase t) = Up ->
  part D k 1 l f (add_started (ndnlp t) y) y.
Proof. intros Hok Hs Hu. destruct (add_started_ok D k y (ndnlp t) Hok Hs Hu) as (y' & -> & Hok' & Hs'). split; [done|lia]. Qed.

Lemma start_addr_part D k name ip y : starting_ok D k y -> Z.of_nat (size (Faces (y_faces y))) < 2 ^ 64 ->
  part D k 1 (lost_interface name ip) False (start_addr cfg env name ip y) y.
Proof.
  intros Hok Hs. unfold start_addr.
  assert (Ep : (match To4 ip with Some _ => (4, IP_String ip) | None => (6, IP_String ip ++ gs "%" ++ name) end).2 = ip_path name ip)
    by (unfold ip_path; by destruct (To4 ip)).
  destruct (match To4 ip with Some _ => _ | None => _ end) as [v path]. cbn in Ep. subst path. cbv zeta.
  assert (Hl : forall y0, starting_ok D k y0 -> forall l f, part D k 0 l f
    (match start_udp (MakeUDPFaceURI v (ip_path name ip) (cfgUDPUnicastPort cfg)) y0 with
     | None => Ok y0
     | Some y => if tcpEnabled cfg then Ok (default y (start_tcp (MakeTCPFaceURI v (ip_path name ip) (cfgTCPUnicastPort cfg)) y)) else Ok y
     end) y0).
  { intros y0 H0' l f. destruct (listeners_ok D k y0 (MakeUDPFaceURI v (ip_path name ip) (cfgUDPUnicastPort cfg))
      (MakeTCPFaceURI v (ip_path name ip) (cfgTCPUnicastPort cfg)) (tcpEnabled cfg) H0') as (y' & -> & Hok' & Hs'). done. }
  destruct (IsLoopback ip) eqn:El.
  - eapply part_weaken; [by apply (Hl y Hok False False)|lia|done|done].
  - match goal with |- context [MakeMulticastUDPTransport ?a ?b ?c ?d ?e ?g] => pose proof (MulticastUDP_outcome a b c d e g) as Hm;
      destruct (MakeMulticastUDPTransport a b c d e g) as [t|e'|] end.
    + eapply part_weaken; [apply (part_bind D k 1 0 False False False False); [by apply part_add|by intros; apply Hl]|lia|tauto|tauto].
    + by apply part_same.
    + cbn. by split.
Qed.

Lemma start_addrs_part D k name ips : forall y, starting_ok D k y ->
  Z.of_nat (size (Faces (y_faces y))) + Z.of_nat (length ips) < 2 ^ 64 ->
  part D k (length ips) (Exists (lost_interface name) ips) False (start_addrs cfg env name ips y) y.
Proof.
  induction ips as [|ip ips IH]; intros y Hok Hs; cbn [start_addrs length]; [by apply part_same|]. cbn [length] in Hs.
  eapply part_weaken; [apply (part_bind D k 1 (length ips) (lost_interface name ip) False (Exists (lost_interface name) ips) False);
    [apply start_addr_part; [done|lia]|intros y' Hok' Hs'; apply IH; [done|lia]]|lia| |tauto].
  intros [?|?]; [by left|by right].
Qed.

(** How many faces an interface can give; what makes [Start] panic or give up
    over it. *)
Definition room (i : Iface) : nat := 1 + length (default [] (if_addrs i)).
Definition lost (i : Iface) : Prop := if_up i = true /\ Exists (lost_interface (if_name i)) (default [] (if_addrs i)).
Definition unreadable (i : Iface) : Prop := if_up i = true /\ if_addrs i = None.

Lemma start_iface_part D k i y : starting_ok D k y -> Z.of_nat (size (Faces (y_faces y))) + Z.of_nat (room i) < 2 ^ 64 ->
  part D k (room i) (lost i) (unreadable i) (start_iface cfg env i y) y.
Proof.
  intros Hok Hs. unfold start_iface, room, lost, unreadable in *. destruct (if_up i); cbn [negb]; [|by apply part_same].
  eapply part_weaken; [apply (part_bind D k 1 (length (default [] (if_addrs i))) False False
    (Exists (lost_interface (if_name i)) (default [] (if_addrs i))) (if_addrs i = None))|lia|tauto|tauto].
  - destruct (ethEnabled cfg && if_multicast i); [|by apply part_same].
    destruct (MakeMulticastEthernetTransport _ _ _) as [t|] eqn:E; [|by apply part_same]. apply part_add; [done|lia|].
    unfold MakeMulticastEthernetTransport in E. repeat case_match; try done. injection E as <-.
    solve_change.
  - intros y' Hok' Hs'. destruct (if_addrs i) as [ips|]; cbn in *; [|done].
    eapply part_weaken; [apply start_addrs_part; [done|lia]|lia|done|done].
Qed.

Lemma start_ifaces_part D k ifs : forall y, starting_ok D k y ->
  Z.of_nat (size (Faces (y_faces y))) + Z.of_nat (sum_list_with room ifs) < 2 ^ 64 ->
  part D k (sum_list_with room ifs) (Exists lost ifs) (Exists unreadable ifs) (start_ifaces cfg env ifs y) y.
Proof.
  induction ifs as [|i ifs IH]; intros y Hok Hs; cbn [start_ifaces sum_list_with]; [by apply part_same|].
  change (sum_list_with room (i :: ifs)) with (room i + sum_list_with room ifs)%nat in *.
  eapply part_weaken; [apply (part_bind D k (room i) (sum_list_with room ifs) (lost i) (unreadable i) (Exists lost ifs) (Exists unreadable ifs));
    [apply start_iface_part; [done|lia]|intros y' Hok' Hs'; apply IH; [done|lia]]|lia| |].
  all: intros [?|?]; [by left|by right].
Qed.

(** Starting.  From a consistent table whose faces are up, [Start] ends with
    one: every face is up and known to its transport, and at least one face or
    listener has been made; [faceCnt] counts the faces but the null face, and the
    listeners.  It ends the process only when the interfaces or the addresses of
    one that is up cannot be read, or nothing could be made; and it panics only for
    an address other than a loopback one whose interface is not found. *)
Lemma start_outcome D ifaces w :
  table_ok D w -> all_up w -> Z.of_nat (size (Faces w)) + 1 + Z.of_nat (sum_list_with room (default [] ifaces)) < 2 ^ 64 ->
  match Start cfg env ifaces w with
  | Ok y => table_ok D (y_faces y) /\ all_up (y_faces y) /\ 0 < faceCnt y /\
      faceCnt y = Z.of_nat (size (Faces (y_faces y))) - Z.of_nat (size (Faces w)) - 1
        + Z.of_nat (length (udpListeners y) + length (tcpListeners y) + option_count (unixListener y) + option_count (wsListener y))
  | Err e => ifaces = None \/ Exists unreadable (default [] ifaces) \/
      e = ErrNew "No face or listener is successfully created. Quit."
  | Panic => Exists lost (default [] ifaces)
  end.
Proof.
  intros Ht Hu Hs. unfold Start.
  destruct (add_link_up D w (new_face MakeNullTransport None) Ht ltac:(lia) Hu eq_refl) as (w1 & -> & Ht1 & Hu1 & Hs1).
  destruct ifaces as [ifs|]; [|by left]. cbn [default from_option id] in Hs |- *.
  assert (Hok : starting_ok D (S (size (Faces w))) (mkYaNFD w1 0 [] [] None None)) by (split; cbn; [done|done|lia|done]).
  pose proof (start_ifaces_part D _ ifs _ Hok ltac:(cbn; lia)) as Hp.
  destruct (start_ifaces cfg env ifs (mkYaNFD w1 0 [] [] None None)) as [y|e|]; cbn [outcome_bind]; [|by right; left|exact Hp].
  destruct Hp as [[Hty Huy Hcy [Hn1 Hn2]] _]. cbn in Hcy.
  set (y2 := start_ws cfg env (start_unix cfg y)).
  assert (Hy2 : y_faces y2 = y_faces y /\ faceCnt y2 = faceCnt y + Z.of_nat (option_count (unixListener y2) + option_count (wsListener y2)) /\
                udpListeners y2 = udpListeners y /\ tcpListeners y2 = tcpListeners y).
  { unfold y2, start_ws, start_unix. repeat case_match; cbn; rewrite ?Hn1, ?Hn2; cbn; split_and!; done || lia. }
  destruct Hy2 as (E1 & E2 & E3 & E4). destruct (Z.leb_spec (faceCnt y2) 0); [by right; right|].
  rewrite E1, E3, E4. split; [done|]. split; [done|]. split; [done|]. lia.
Qed.
End start_laws.

(** ** Stop *)

Section stop_laws.
Context `{NetEnv} `{EncLaws} {F : Type} `{FibStrategyLaws F}.
Implicit Types (w : FaceWorld F).

(** Transports know their identifiers. *)
Definition knows w : Prop := forall id p f, Faces w !! id = Some p -> links w !! p = Some f -> t_faceID (tbase (lf_transport f)) = id.

(** The transport of a face is down. *)
Definition is_down w (id : Z) : Prop :=
  exists p f, Faces w !! id = Some p /\ links w !! p = Some f /\ state (tbase (lf_transport f)) = Down.

#[local] Instance is_down_dec w id : Decision (is_down w id).
Proof.
  destruct (Faces w !! id) as [p|] eqn:E1; [|right; by intros (? & ? & ? & _); congruence].
  destruct (links w !! p) as [f|] eqn:E2; [|right; intros (? & ? & ? & ? & _); congruence].
  destruct (decide (state (tbase (lf_transport f)) = Down)); [left; by exists p, f|right].
  intros (? & ? & ? & ? & ?). congruence.
Defined.

Lemma relink_ok D w p f t : table_ok D w -> links w !! p = Some f ->
  table_ok D (mkFaceWorld (<[p := lf_on_transport (fun _ => t) f]> (links w)) (Faces w) (nextFaceID w) (FaceDispatch w) (events w) (w_rib w)).
Proof.
  intros [Hd Hn Hids Hr Hf] Hp. split; cbn; try done. intros i q Hi. destruct (Hids i q Hi) as (g & Hg & Hgi).
  destruct (decide (q = p)) as [->|Hne].
  - rewrite lookup_insert_eq. eexists. split; [done|]. cbn. congruence.
  - rewrite lookup_insert_ne by done. by exists g.
Qed.

(** One face is closed: it leaves the table unless it was down, and its
    transport is down; nothing else changes. *)
Record closed_face D w id w' : Prop := {
  cf_table : table_ok D w';
  cf_knows : knows w';
  cf_faces : forall i, Faces w' !! i = if decide (i = id /\ ~ is_down w id) then None else Faces w !! i;
  cf_links : forall i p f, Faces w !! i = Some p -> links w !! p = Some f ->
    exists f', links w' !! p = Some f' /\ (i = id -> state (tbase (lf_transport f')) = Down) /\ (i <> id -> f' = f);
  cf_rest : forall p, (forall i, Faces w !! i <> Some p) -> links w' !! p = links w !! p }.

Lemma close_face_ok D w id : table_ok D w -> knows w ->
  closed_face D w id (close_face w id).
Proof.
  intros Ht Hk. unfold close_face. destruct (Faces w !! id) as [p|] eqn:Ei.
  2: { split; [done|done| | |done].
    - intros i. case_decide as Hd; [|done]. by destruct Hd as [-> _].
    - intros i p f Hi Hf. exists f. split; [done|]. split; [intros ->; congruence|done]. }
  destruct (tab_ids D w Ht id p Ei) as (f & Hf & _). rewrite Hf.
  assert (Hother : forall i q, Faces w !! i = Some q -> i <> id -> q <> p).
  { intros i q Hi Hne ->. apply Hne. by eapply tab_inj. }
  destruct (changeState_cases Down (lf_transport f)) as [c ->]. destruct (decide (state (tbase (lf_transport f)) = Down)) as [Hd|Hd].
  - assert (Hsame : <[p := lf_on_transport (fun _ => lf_transport f) f]> (links w) = links w) by (apply insert_id; rewrite Hf; by destruct f).
    rewrite Hsame. replace (mkFaceWorld _ _ _ _ _ _) with w by by destruct w. split; [done|done| | |done].
    + intros i. case_decide as Hi; [|done]. destruct Hi as [_ []]. by exists p, f.
    + intros i q g Hi Hg. exists g. split; [done|]. split; [|done]. intros ->. by simplify_eq.
  - rewrite bool_decide_false by done. cbn [negb]. set (t := mkFT _ _ _).
    assert (Hid : t_faceID (tbase t) = id) by (unfold t; cbn; by apply (Hk id p f)).
    set (w1 := mkFaceWorld _ _ _ _ _ _). pose proof (relink_ok D w p f t Ht Hf) as Ht1. fold w1 in Ht1.
    cbn [fst snd]. rewrite Hid. destruct (Remove_ok D w1 id Ht1) as (Ht2 & Hf2 & Hl2 & _).
    split; [done| | | |].
    + intros i q g Hi Hg. rewrite Hf2 in Hi. rewrite Hl2 in Hg. apply lookup_delete_Some in Hi as [Hne Hi]. cbn in Hi, Hg.
      rewrite lookup_insert_ne in Hg by (intros <-; by apply (Hother i p Hi)). by apply (Hk i q g).
    + intros i. rewrite Hf2. cbn [Faces w1]. case_decide as Hc.
      * destruct Hc as [-> _]. apply lookup_delete_eq.
      * apply lookup_delete_ne. intros <-. apply Hc. split; [done|]. intros (q & g & Hq & Hg & Hs). congruence.
    + intros i q g Hi Hg. rewrite Hl2. cbn [links w1]. destruct (decide (i = id)) as [->|Hne].
      * simplify_eq. rewrite lookup_insert_eq. eexists. split; [done|]. split; [done|done].
      * rewrite lookup_insert_ne by (intros <-; by apply (Hother i p Hi)). exists g. done.
    + intros q Hq. rewrite Hl2. cbn [links w1]. apply lookup_insert_ne. intros <-. by apply (Hq id).
Qed.

Lemma close_face_down D w id w' i : closed_face D w id w' -> table_ok D w -> i <> id -> is_down w' i <-> is_down w i.
Proof.
  intros [_ _ Hf Hl _] Ht Hne. specialize (Hf i). rewrite decide_False in Hf by tauto. unfold is_down. split.
  - intros (p & f & Hi & Hp & Hs). rewrite Hf in Hi. destruct (tab_ids D w Ht i p Hi) as (g & Hg & _).
    destruct (Hl i p g Hi Hg) as (f' & Hf' & _ & Hsame). rewrite Hsame in Hf' by done. exists p, g. split_and!; try done. congruence.
  - intros (p & f & Hi & Hp & Hs). destruct (Hl i p f Hi Hp) as (f' & Hf' & _ & Hsame). rewrite Hsame in Hf' by done.
    exists p, f. by rewrite Hf.
Qed.

Lemma close_faces_ok D order : forall w, NoDup order -> table_ok D w -> knows w ->
  let w' := foldl close_face w order in
  table_ok D w' /\ (forall i, Faces w' !! i = if decide (i ∈ order /\ ~ is_down w i) then None else Faces w !! i) /\
  (forall i p f, Faces w !! i = Some p -> links w !! p = Some f ->
     exists f', links w' !! p = Some f' /\ (i ∈ order -> state (tbase (lf_transport f')) = Down) /\ (i ∉ order -> f' = f)) /\
  (forall p, (forall i, Faces w !! i <> Some p) -> links w' !! p = links w !! p).
Proof.
  induction order as [|id order IH]; intros w Hnd Ht Hk; cbn [foldl].
  - split; [done|]. split.
    + intros i. rewrite decide_False; [done|]. by intros [?%elem_of_nil _].
    + split; [|done]. intros i p f Hi Hf. exists f. split; [done|]. split; [by intros ?%elem_of_nil|done].
  - apply NoDup_cons in Hnd as [Hni Hnd]. pose proof (close_face_ok D w id Ht Hk) as Hc.
    destruct (IH (close_face w id) Hnd (cf_table _ _ _ _ Hc) (cf_knows _ _ _ _ Hc)) as (Ht' & Hf' & Hl' & Hr').
    split; [done|]. split.
    + intros i. rewrite Hf'. rewrite (cf_faces _ _ _ _ Hc). destruct (decide (i = id)) as [->|Hne].
      * rewrite decide_False by tauto. destruct (decide (is_down w id)).
        -- by rewrite !decide_False by tauto.
        -- rewrite !decide_True; [done|split; [by left|done]|done].
      * rewrite (decide_False (P := i = id /\ _)) by tauto. apply decide_ext. rewrite elem_of_cons.
        rewrite (close_face_down D w id _ i Hc Ht Hne). tauto.
    + assert (Hgone : forall p, (forall i, Faces w !! i <> Some p) -> forall i, Faces (close_face w id) !! i <> Some p).
      { intros p Hp i. rewrite (cf_faces _ _ _ _ Hc). case_decide; [done|apply Hp]. }
      split; [|intros p Hp; rewrite Hr' by (by apply Hgone); by apply (cf_rest _ _ _ _ Hc)].
      intros i p f Hi Hf. destruct (cf_links _ _ _ _ Hc i p f Hi Hf) as (f1 & Hf1 & Hd1 & Hs1). setoid_rewrite elem_of_cons.
      pose proof (cf_faces _ _ _ _ Hc i) as Hi1. destruct (decide (i = id /\ ~ is_down w id)) as [[-> Hnd']|Hd].
      * exists f1. split; [|by split; [auto|intros []; left]]. rewrite Hr'; [done|]. intros j Hj. rewrite (cf_faces _ _ _ _ Hc) in Hj.
        case_decide as Hjd; [done|]. apply Hjd. split; [exact (tab_inj D w j id p Ht Hj Hi)|done].
      * rewrite Hi in Hi1. destruct (Hl' i p f1 Hi1 Hf1) as (f2 & Hf2 & Hd2 & Hs2). exists f2. split; [done|]. split.
        -- intros [->|?]; [|by auto]. rewrite Hs2 by done. by apply Hd1.
        -- intros Hno. rewrite Hs2 by tauto. apply Hs1. tauto.
Qed.

(** Stopping.  [Stop] brings every transport of the table down, in whatever
    order the map is walked, and then waits for exactly those faces whose
    transport was down before: closing a face that is up takes it out of the
    table, so that after a [Stop] of faces that are all up, as [Start] leaves
    them, the table is empty and no face is waited for, although its goroutines
    still run. *)
Lemma stop_waits D w order :
  table_ok D w -> knows w -> order ≡ₚ (map_to_list (Faces w)).*1 ->
  let '(w', waits) := stop_faces order w in
  table_ok D w' /\
  (forall id p f, Faces w !! id = Some p -> links w !! p = Some f ->
     exists f', links w' !! p = Some f' /\ state (tbase (lf_transport f')) = Down) /\
  (forall id, id ∈ waits <-> is_down w id) /\
  (all_up w -> Faces w' = ∅ /\ waits = []).
Proof.
  intros Ht Hk Hord. unfold stop_faces.
  assert (Hin : forall id, id ∈ order <-> is_Some (Faces w !! id)).
  { intros id. rewrite Hord, list_elem_of_fmap. split.
    - intros ((i & p) & -> & Hp). apply elem_of_map_to_list in Hp. by exists p.
    - intros [p Hp]. exists (id, p). split; [done|]. by apply elem_of_map_to_list. }
  assert (Hnd : NoDup order) by (rewrite Hord; apply NoDup_fst_map_to_list).
  destruct (close_faces_ok D order w Hnd Ht Hk) as (Ht' & Hf & Hl & _). set (w' := foldl close_face w order) in *.
  assert (Hw : forall id, id ∈ (map_to_list (Faces w')).*1 <-> is_down w id).
  { intros id. rewrite list_elem_of_fmap. split.
    - intros ((i & p) & -> & Hp). apply elem_of_map_to_list in Hp. cbn. rewrite Hf in Hp. case_decide as Hd; [done|].
      destruct (decide (is_down w i)); [done|]. exfalso. apply Hd. split; [|done]. apply Hin. by exists p.
    - intros Hd. pose proof Hd as (p & f & Hp & _). exists (id, p). split; [done|]. apply elem_of_map_to_list.
      rewrite Hf. rewrite decide_False by tauto. done. }
  split; [done|]. split.
  { intros id p f Hp Hlf. destruct (Hl id p f Hp Hlf) as (f' & Hf' & Hd & _). exists f'. split; [done|]. apply Hd, Hin. by exists p. }
  split; [done|]. intros Hup.
  assert (Hno : forall id, ~ is_down w id).
  { intros id (p & f & Hp & Hlf & Hs). destruct (Hup id p f Hp Hlf) as [_ Hu]. congruence. }
  split.
  - apply map_eq. intros id. rewrite Hf, lookup_empty. case_decide as Hd; [done|].
    destruct (Faces w !! id) as [p|] eqn:E; [|done]. exfalso. apply Hd. split; [apply Hin; by exists p|done].
  - destruct (map_to_list (Faces w')).*1 as [|id l] eqn:E; [done|]. exfalso. apply (Hno id), Hw. by left.
Qed.
End stop_laws.

From S2P Require Import FibTree.

Module ExecutorExamples.
#[local] Existing Instance UriExamples.ex_env.
#[local] Existing Instance ref_ops.
#[local] Existing Instance ref_laws.
Import FacesExamples.

Definition cfg : StartConfig :=
  mkStart true true true true 6363 56363 6363 (gs "01:00:5e:00:17:aa") (gs "224.0.23.170") (gs "ff02::114") (gs "run/nfd.sock")
    (mkWSConfig [] 9696 false [] []).
Definition env : StartEnv := mkEnv (fun _ => true) (fun _ => Some (gs "eth0")) (fun _ => true) (fun _ _ => true).
Definition ifaces : list Iface :=
  [mkIface (gs "lo") true false (Some [from_v4 (127, 0, 0, 1)]); mkIface (gs "eth0") true true (Some [from_v4 (192, 168, 1, 5)]);
   mkIface (gs "eth1") false true None].

(** A loopback and an Ethernet interface: the null face, two multicast faces, two
    UDP, two TCP listeners, one Unix and one web socket listener. *)
Lemma start_witness :
  exists y, Start cfg env (Some ifaces) ex_world = Ok y /\ table_ok (fun _ => False) (y_faces y) /\
    faceCnt y = 8 /\ size (Faces (y_faces y)) = 4%nat.
Proof.
  assert (Hup : all_up ex_world).
  { intros id p f Hi Hf. cbn in Hi. apply lookup_singleton_Some in Hi as [<- <-]. vm_compute in Hf. by injection Hf as <-. }
  pose proof (start_outcome cfg env (fun _ => False) (Some ifaces) ex_world ex_world_ok Hup ltac:(vm_compute; reflexivity)) as Hs.
  assert (E : (fun y => (faceCnt y, size (Faces (y_faces y)))) <$> (match Start cfg env (Some ifaces) ex_world with Ok y => Some y | _ => None end)
              = Some (8, 4%nat)) by (vm_compute; reflexivity).
  destruct (Start cfg env (Some ifaces) ex_world) as [y|e|]; [|discriminate|discriminate].
  destruct Hs as (Ht & _). exists y. cbn in E. injection E as E1 E2. split; [reflexivity|]. split; [exact Ht|]. split; [exact E1|exact E2].
Defined.

Lemma stop_witness :
  let '(w', waits) := stop_faces [1] ex_world in Faces w' = ∅ /\ waits = [].
Proof.
  assert (Hone : forall id p f, Faces ex_world !! id = Some p -> links ex_world !! p = Some f -> id = 1 /\ f = lf_SetFaceID 1 ex_face).
  { intros id p f Hi Hf. cbn in Hi. apply lookup_singleton_Some in Hi as [<- <-]. vm_compute in Hf. by injection Hf as <-. }
  assert (Hk : knows ex_world) by (intros id p f Hi Hf; by destruct (Hone id p f Hi Hf) as [-> ->]).
  assert (Hup : all_up ex_world) by (intros id p f Hi Hf; by destruct (Hone id p f Hi Hf) as [-> ->]).
  pose proof (stop_waits (fun _ => False) ex_world [1] ex_world_ok Hk ltac:(vm_compute; reflexivity)) as Hs.
  destruct (stop_faces [1] ex_world) as [w' waits]. apply Hs. exact Hup.
Defined.
End ExecutorExamples.
