(* ===== verification/StopModel.v ===== *)
(** * Stopping the daemon: the goroutines of YaNFD.Stop in executor/yanfd.go

    [Stop] walks over the listeners, the faces and the forwarding threads, and
    waits for some of them on the way.  Executor.v has what it does to the face
    table, Shutdown.v one NDNLP face that is closed by many goroutines; here all
    of the daemon's parts run next to [Stop]: the Unix and TCP listeners, for
    every face the calls of [changeState], its link service, the goroutines that
    send its packets and its receive loops, the face of management with the queue
    of frames management sends into it, and the forwarding threads.  A state holds
    where each of them is; a move lets one take its next step, or two meet at an
    unbuffered channel.

    A receive loop whose read fails does what the transport's does: it closes the
    face and ends, or dials again (a permanent UDP or TCP face, by
    [onTransportFailure]), or listens again (a multicast UDP face).  Not modelled:
    web socket and UDP listeners, which [Stop] does not wait for, new faces, and
    faces that expire while [Stop] runs. *)
From S2P Require Import Prelude.
From stdpp Require Import relations.
From S2P Require Import Packet Fw Text NetAddr Uri Transport Sockets Shutdown.

(** ** Faces *)

(** What a call [changeState(Down)] still has to do. *)
Inductive action := TestState | SetDown | PutHasQuit | PutShouldQuit | CloseConn | TellService | RemoveFace.

(** [changeState] of each transport. *)
Definition udp_script : list action := [TestState; SetDown; PutHasQuit; CloseConn; TellService; RemoveFace].
Definition tcp_script : list action := [TestState; SetDown; PutHasQuit; CloseConn; TellService; RemoveFace].
Definition multicast_udp_script : list action := [TestState; SetDown; PutHasQuit; CloseConn; TellService; RemoveFace].
Definition ethernet_script : list action := [TestState; SetDown; PutShouldQuit; TellService; RemoveFace; PutHasQuit].
Definition unix_script : list action := [TestState; SetDown; PutHasQuit; CloseConn; TellService; RemoveFace].
Definition web_socket_script : list action := [TestState; SetDown; PutHasQuit; CloseConn; TellService; RemoveFace].
Definition internal_script : list action := [TestState; SetDown; PutHasQuit; PutHasQuit; TellService; RemoveFace].
Definition null_script : list action := [TestState; SetDown; TellService; RemoveFace].

Definition close_script (k : TransportKind) : list action :=
  match k with
  | UnicastUDP => udp_script | UnicastTCP => tcp_script | MulticastUDP => multicast_udp_script | MulticastEthernet => ethernet_script
  | UnixStream => unix_script | WebSocket => web_socket_script | InternalKind => internal_script | NullKind => null_script
  end.

(** [runReceive]: reading from a connection, which is still open or not ([lost]);
    about to open a new one after a failed read; waiting for captured packets or
    [shouldQuit] (Ethernet); waiting for frames of the component or [hasQuit] (the
    face of management); returned. *)
Inductive receive_loop := Reading (lost : bool) | Reopening | Capturing | Draining | LoopEnded.

Definition first_loop (k : TransportKind) : receive_loop :=
  match k with NullKind => LoopEnded | InternalKind => Draining | MulticastEthernet => Capturing | _ => Reading false end.

(** What a failed read or write does: call [changeState(Down)]; dial the remote
    again ([onTransportFailure] of a permanent face), which fails with a panic;
    listen to the group again; nothing. *)
Inductive failure := Closes | Redials | Relistens | Ignores.

Definition on_failure (t : FaceTransport) : failure :=
  match kind t with
  | UnixStream | WebSocket => Closes
  | UnicastUDP | UnicastTCP => if (persistency (tbase t) =? PersistencyPermanent)%Z then Redials else Closes
  | MulticastUDP => Relistens
  | MulticastEthernet | NullKind | InternalKind => Ignores
  end.

#[export] Instance failure_eq_dec : EqDecision failure.
Proof. solve_decision. Defined.

(** The goroutine that hears [hasTransportQuit], the send loop of an
    [NDNLPLinkService]: in its select; it has heard and tells [hasImplQuit];
    returned.  Of a [NullLinkService] it is [Run] itself. *)
Inductive service_state := Listens | TellsImpl | ServiceEnded.

#[export] Instance service_state_eq_dec : EqDecision service_state.
Proof. solve_decision. Defined.

(** The receive loops of a face (a failed write of a permanent one starts
    another); [quitTokens] are in the buffer of [hasQuit] (capacity 2),
    [shouldTokens] in that of [shouldQuit] (capacity 1); [component] is whether
    management still receives from its face. *)
Record Loops := mkLoops { readers : list receive_loop; quitTokens : nat; shouldTokens : nat; component : bool }.

(** The link service: its send loop; [Run]; the worker bees that receive from
    [HasQuit]; [outgoing] packets for which [sendPacket] has not tested the state
    of the transport, those that are being written, and those that found it down
    and tell [hasImplQuit]. *)
Record LinkSide := mkLink {
  service : service_state; runner : run_state; idleBees : nat; outgoing : nat; writing : nat; refused : nat }.

(** A face and its goroutines.  [closed] of the transport is whether the
    connection it writes to is closed; [calls] are the calls of [changeState] that
    were made; [hangups] is whether the peer may close the connection, [dials]
    whether the remote can be dialled again. *)
Record OpenFace := mkOpenFace {
  of_transport : FaceTransport; listed : bool; calls : list (list action);
  loops : Loops; link : LinkSide; hangups : bool; dials : bool }.

(** A face on transport [t] with [n] packets to send.  A [NullLinkService] has no
    worker bees, and sends nothing. *)
Definition service_bees (k : TransportKind) : nat := match k with NullKind => 0 | _ => workers end.
Definition open_face (t : FaceTransport) (n : nat) (hang dial : bool) : OpenFace :=
  mkOpenFace t true [] (mkLoops [first_loop (kind t)] 0 0 (bool_decide (kind t = InternalKind)))
    (mkLink Listens WaitingImpl (service_bees (kind t)) n 0 0) hang dial.

Definition with_transport (t : FaceTransport) (f : OpenFace) : OpenFace :=
  mkOpenFace t (listed f) (calls f) (loops f) (link f) (hangups f) (dials f).
Definition with_calls (l : list (list action)) (f : OpenFace) : OpenFace :=
  mkOpenFace (of_transport f) (listed f) l (loops f) (link f) (hangups f) (dials f).
Definition with_loops (l : Loops) (f : OpenFace) : OpenFace :=
  mkOpenFace (of_transport f) (listed f) (calls f) l (link f) (hangups f) (dials f).
Definition with_link (l : LinkSide) (f : OpenFace) : OpenFace :=
  mkOpenFace (of_transport f) (listed f) (calls f) (loops f) l (hangups f) (dials f).
Definition unlisted (f : OpenFace) : OpenFace :=
  mkOpenFace (of_transport f) false (calls f) (loops f) (link f) (hangups f) (dials f).

Definition with_readers (l : list receive_loop) (f : OpenFace) : OpenFace :=
  with_loops (mkLoops l (quitTokens (loops f)) (shouldTokens (loops f)) (component (loops f))) f.
Definition with_tokens (q s : nat) (f : OpenFace) : OpenFace :=
  with_loops (mkLoops (readers (loops f)) q s (component (loops f))) f.
Definition with_service (s : service_state) (r : run_state) (b : nat) (f : OpenFace) : OpenFace :=
  with_link (mkLink s r b (outgoing (link f)) (writing (link f)) (refused (link f))) f.
Definition with_packets (o w n : nat) (f : OpenFace) : OpenFace :=
  with_link (mkLink (service (link f)) (runner (link f)) (idleBees (link f)) o w n) f.
Definition with_closed (c : bool) (f : OpenFace) : OpenFace :=
  with_transport (mkFT (kind (of_transport f)) (tbase (of_transport f)) c) f.

Definition of_kind (f : OpenFace) : TransportKind := kind (of_transport f).
Definition of_state (f : OpenFace) : State := state (tbase (of_transport f)).

(** [Close], a failing read or write: a new call of [changeState]. *)
Definition start_close (f : OpenFace) : OpenFace := with_calls (calls f ++ [close_script (of_kind f)]) f.

(** Closing the connection makes every read from it fail.  (A loop that still
    reads from a connection that was replaced is taken to be among them.) *)
Definition lose (r : receive_loop) : receive_loop := match r with Reading _ => Reading true | r => r end.
Definition close_connection (f : OpenFace) : OpenFace := with_closed true (with_readers (lose <$> readers (loops f)) f).

(** The link service hears [hasTransportQuit]. *)
Definition hear (f : OpenFace) : OpenFace :=
  match of_kind f with
  | NullKind => with_service ServiceEnded TellingQuit (idleBees (link f)) f
  | _ => with_service TellsImpl (runner (link f)) (idleBees (link f)) f
  end.

(** The face of management: [frames] are in its [sendQueue], [nextEvent] is
    [faceEventsNextId]. *)
Record Outbox := mkOutbox { frames : nat; nextEvent : nat }.

Section faces.
(** The capacity of the queues of a face, [faceQueueSize]. *)
Context (faceQueueSize : nat).

(** A frame is put into that queue, if it has room. *)
Definition put_frame (o : Outbox) : option Outbox :=
  if frames o <? faceQueueSize then Some (mkOutbox (S (frames o)) (nextEvent o)) else None.

(** [EmitFaceEvent]: the event is sent to management's face, unless it is one of
    the first, which [GetFaceEvent] does not find. *)
Definition emit_event (o : Outbox) : option Outbox :=
  if nextEvent o <? 99 then Some (mkOutbox (frames o) (S (nextEvent o))) else put_frame (mkOutbox (frames o) (S (nextEvent o))).

(** One action of a call; the boolean says whether the call goes on.  [None]
    when it blocks.  [FaceTable.Remove] is one step, under the mutex of the table. *)
Definition act (a : action) (o : Outbox) (f : OpenFace) : option (bool * Outbox * OpenFace) :=
  let t := of_transport f in let l := loops f in
  match a with
  | TestState => Some (negb (bool_decide (of_state f = Down)), o, f)
  | SetDown => Some (true, o, with_transport (on_base (set_state Down) t) f)
  | PutHasQuit => if quitTokens l <? 2 then Some (true, o, with_tokens (S (quitTokens l)) (shouldTokens l) f) else None
  | PutShouldQuit => if shouldTokens l <? 1 then Some (true, o, with_tokens (quitTokens l) (S (shouldTokens l)) f) else None
  | CloseConn => Some (true, o, close_connection f)
  | TellService => if decide (service (link f) = Listens) then Some (true, o, hear f) else None
  | RemoveFace => o' ← emit_event o; Some (true, o', unlisted f)
  end.

Inductive face_move :=
| FCall (j : nat)        (** the [j]th call of [changeState] goes on *)
| FImplLoop              (** [Run] hears from the send loop *)
| FImplSender            (** [Run] hears from a [sendPacket] *)
| FBee                   (** [Run] tells a worker bee *)
| FSend                  (** [sendPacket] tests the state of the transport *)
| FWrite                 (** a frame is written *)
| FWriteFails            (** the write of a frame fails *)
| FReadFails (k : nat)   (** the read of loop [k] fails, and it closes the face *)
| FReadEof (k : nat)     (** a TCP loop reads the end, and closes the face *)
| FReadAgain (k : nat)   (** the read of loop [k] fails, and it closes the connection it reads from *)
| FRedial (k : nat)      (** loop [k] dials again *)
| FListen (k : nat) (ok : bool)   (** loop [k] listens again, which fails or not *)
| FCapture (k : nat)     (** an Ethernet loop takes the token of [shouldQuit] *)
| FDrain (k : nat)       (** the loop of management's face takes a frame *)
| FQuitLoop (k : nat)    (** that loop takes a token of [hasQuit] *)
| FQuitComponent.        (** management takes a token of [hasQuit] *)

(** [Some None]: the process stops, because a dialled connection is nil. *)
Definition face_exec (m : face_move) (o : Outbox) (f : OpenFace) : option (option (Outbox * OpenFace)) :=
  let l := loops f in let k := link f in let rs := readers l in
  let go f' := Some (Some (o, f')) in
  match m with
  | FCall j =>
      match calls f !! j with
      | Some (a :: c) => '(on, o', f') ← act a o f; Some (Some (o', with_calls (<[j := if on : bool then c else []]> (calls f')) f'))
      | _ => None
      end
  | FImplLoop =>
      match service k, runner k with TellsImpl, WaitingImpl => go (with_service ServiceEnded TellingQuit (idleBees k) f) | _, _ => None end
  | FImplSender =>
      match refused k, runner k with
      | S n, WaitingImpl => go (with_service (service k) TellingQuit (idleBees k) (with_packets (outgoing k) (writing k) n f))
      | _, _ => None
      end
  | FBee => match runner k, idleBees k with TellingQuit, S b => go (with_service (service k) RunReturned b f) | _, _ => None end
  | FSend =>
      match outgoing k with
      | S n => if decide (of_kind f = NullKind) then None
               else if decide (of_state f = Up) then go (with_packets n (S (writing k)) (refused k) f)
               else go (with_packets n (writing k) (S (refused k)) f)
      | O => None
      end
  | FWrite => match writing k with S n => go (with_packets (outgoing k) n (refused k) f) | O => None end
  | FWriteFails =>
      match writing k with
      | S n =>
          if closed (of_transport f) || hangups f then
            let f' := with_packets (outgoing k) n (refused k) f in
            match on_failure (of_transport f) with
            | Closes => go (start_close f')
            | Redials => if dials f then go (with_closed false (with_readers ((lose <$> rs) ++ [Reading false]) f')) else Some None
            | Relistens => if dials f then go (with_closed false f') else Some None
            | Ignores => None
            end
          else None
      | O => None
      end
  | FReadFails j =>
      match rs !! j, on_failure (of_transport f) with
      | Some (Reading lost), Closes => if lost || hangups f then go (start_close (with_readers (<[j := LoopEnded]> rs) f)) else None
      | _, _ => None
      end
  | FReadEof j =>
      match rs !! j, of_kind f with
      | Some (Reading _), UnicastTCP => if hangups f then go (start_close (with_readers (<[j := LoopEnded]> rs) f)) else None
      | _, _ => None
      end
  | FReadAgain j =>
      match rs !! j, on_failure (of_transport f) with
      | Some (Reading lost), Redials =>
          if lost || hangups f then go (with_closed true (with_readers (<[j := Reopening]> (lose <$> rs)) f)) else None
      | Some (Reading lost), Relistens => if lost || hangups f then go (with_readers (<[j := Reopening]> rs) f) else None
      | _, _ => None
      end
  | FRedial j =>
      match rs !! j, on_failure (of_transport f) with
      | Some Reopening, Redials => if dials f then go (with_closed false (with_readers (<[j := Reading false]> rs) f)) else Some None
      | _, _ => None
      end
  | FListen j ok =>
      match rs !! j, on_failure (of_transport f) with
      | Some Reopening, Relistens => go (with_readers (<[j := Reading (negb ok)]> rs) f)
      | _, _ => None
      end
  | FCapture j =>
      match rs !! j, shouldTokens l with
      | Some Capturing, S n => go (with_loops (mkLoops (<[j := LoopEnded]> rs) (quitTokens l) n (component l)) f)
      | _, _ => None
      end
  | FDrain j =>
      match rs !! j, frames o with Some Draining, S n => Some (Some (mkOutbox n (nextEvent o), f)) | _, _ => None end
  | FQuitLoop j =>
      match rs !! j, quitTokens l with
      | Some Draining, S n => go (with_loops (mkLoops (<[j := LoopEnded]> rs) n (shouldTokens l) (component l)) f)
      | _, _ => None
      end
  | FQuitComponent =>
      match quitTokens l with
      | S n => if component l then go (with_loops (mkLoops rs n (shouldTokens l) false) f) else None
      | O => None
      end
  end.
End faces.

(** The moves by which a receive loop opens its connection again. *)
Definition reopens (m : face_move) : bool := match m with FReadAgain _ | FRedial _ | FListen _ _ => true | _ => false end.

(** ** Forwarding threads *)

(** [Thread.Run]: testing [core.ShouldQuit]; in its select; sending to [HasQuit];
    returned. *)
Inductive thread_at := Testing | Selecting | TellsHasQuit | ThreadReturned.
#[export] Instance thread_at_eq_dec : EqDecision thread_at.
Proof. solve_decision. Defined.

(** [queued] counts what its other channels will deliver (packets, ticks, timer
    updates), [toldToQuit] the tokens in [shouldQuit] (capacity 1), [late] the
    events it handled after [core.ShouldQuit] was set. *)
Record RunningThread := mkRunning { at_ : thread_at; queued : nat; toldToQuit : nat; late : nat }.

Inductive thread_move := TTest | THandle | TToken.

Definition thread_exec (quit : bool) (m : thread_move) (t : RunningThread) : option RunningThread :=
  match m, at_ t with
  | TTest, Testing => Some (mkRunning (if quit then TellsHasQuit else Selecting) (queued t) (toldToQuit t) (late t))
  | THandle, Selecting =>
      match queued t with S q => Some (mkRunning Testing q (toldToQuit t) (late t + Nat.b2n quit)) | O => None end
  | TToken, Selecting => match toldToQuit t with S k => Some (mkRunning Testing (queued t) k (late t)) | O => None end
  | _, _ => None
  end.

(** [TellToQuit]: it waits for room in [shouldQuit]. *)
Definition TellToQuit (t : RunningThread) : option RunningThread :=
  if toldToQuit t <? 1 then Some (mkRunning (at_ t) (queued t) (S (toldToQuit t)) (late t)) else None.

(** ** Listeners *)

(** [UnixStreamListener.Run]: before [net.Listen] has returned; accepting; its
    connection is closed; its token is in [HasQuit]; the token is taken. *)
Inductive unix_at := NotListening | Accepting | ConnClosed | ListenerQuit | ListenerTaken.

(** [TCPListener.Run]: testing [core.ShouldQuit]; about to call [l.conn.Accept];
    in that call; returned.  [tcp_conn] is whether [l.conn] is set. *)
Inductive tcp_at := TcpTest | TcpCall | TcpAccept | TcpReturned.
Record TcpLoop := mkTcpLoop { tcp_where : tcp_at; tcp_conn : bool }.

(** [Close] of the listeners.  That of the Unix listener closes its connection,
    which is nil until it listens: [None]. *)
Definition unix_Close (u : unix_at) : option unix_at :=
  match u with NotListening => None | Accepting => Some ConnClosed | u => Some u end.
Definition tcp_Close (l : TcpLoop) : TcpLoop := mkTcpLoop (tcp_where l) false.

(** The next step of a TCP listener nobody connects to: [None] when it waits or
    has returned, [Some None] when it calls [Accept] on nil. *)
Definition tcp_exec (quit : bool) (l : TcpLoop) : option (option TcpLoop) :=
  match tcp_where l with
  | TcpTest => Some (Some (mkTcpLoop (if quit then TcpReturned else TcpCall) (tcp_conn l)))
  | TcpCall => Some (if tcp_conn l then Some (mkTcpLoop TcpAccept true) else None)
  | TcpAccept => if tcp_conn l then None else Some (Some (mkTcpLoop TcpTest false))
  | TcpReturned => None
  end.

(** ** Stop *)

(** Where [Stop] is; a list is what is left of a walk.  [ClosingAt i j l]: in
    [Close] of face [i], the call [j] of its [changeState]; [WaitingAt i l]: receiving from [HasQuit] of face [i]. *)
Inductive stop_at :=
| SetFlag | CloseUnix | WaitUnix | CloseWeb | CloseTCP (l : list nat)
| CloseFaces (l : list nat) | ClosingAt (i j : nat) (l : list nat)
| WaitFaces (l : list nat) | WaitingAt (i : nat) (l : list nat)
| TellThreads (l : list nat) | WaitThreads (l : list nat)
| StopReturned | Crashed.

Definition is_crashed (p : stop_at) : bool := match p with Crashed => true | _ => false end.

(** [replies] is how many frames management will still send itself. *)
Record Daemon := mkDaemon {
  pc : stop_at; ShouldQuit : bool;
  unix : option unix_at; tcps : list TcpLoop; open_faces : list OpenFace; threads : list RunningThread;
  outbox : Outbox; replies : nat }.

Definition goto (p : stop_at) (d : Daemon) : Daemon :=
  mkDaemon p (ShouldQuit d) (unix d) (tcps d) (open_faces d) (threads d) (outbox d) (replies d).
Definition on_unix (u : unix_at) (d : Daemon) : Daemon :=
  mkDaemon (pc d) (ShouldQuit d) (Some u) (tcps d) (open_faces d) (threads d) (outbox d) (replies d).
Definition on_tcp (i : nat) (l : TcpLoop) (d : Daemon) : Daemon :=
  mkDaemon (pc d) (ShouldQuit d) (unix d) (<[i := l]> (tcps d)) (open_faces d) (threads d) (outbox d) (replies d).
Definition on_face (i : nat) (f : OpenFace) (d : Daemon) : Daemon :=
  mkDaemon (pc d) (ShouldQuit d) (unix d) (tcps d) (<[i := f]> (open_faces d)) (threads d) (outbox d) (replies d).
Definition on_thread (i : nat) (t : RunningThread) (d : Daemon) : Daemon :=
  mkDaemon (pc d) (ShouldQuit d) (unix d) (tcps d) (open_faces d) (<[i := t]> (threads d)) (outbox d) (replies d).
Definition on_outbox (o : Outbox) (n : nat) (d : Daemon) : Daemon :=
  mkDaemon (pc d) (ShouldQuit d) (unix d) (tcps d) (open_faces d) (threads d) o n.

Section stop.
(** The capacity of the queues of a face; the orders in which the maps of faces and
    threads are walked, both times. *)
Context (faceQueueSize : nat).
Context (closing_order waiting_order telling_order joining_order : list nat).

(** The next step of [Stop]; [None] when it blocks or has returned. *)
Definition stop_exec (d : Daemon) : option Daemon :=
  match pc d with
  | SetFlag => Some (mkDaemon CloseUnix true (unix d) (tcps d) (open_faces d) (threads d) (outbox d) (replies d))
  | CloseUnix =>
      match unix d with
      | None => Some (goto CloseWeb d)
      | Some u => Some (match unix_Close u with Some u' => goto WaitUnix (on_unix u' d) | None => goto Crashed d end)
      end
  | WaitUnix => match unix d with Some ListenerQuit => Some (goto CloseWeb (on_unix ListenerTaken d)) | _ => None end
  | CloseWeb => Some (goto (CloseTCP (seq 0 (length (tcps d)))) d)
  | CloseTCP [] => Some (goto (CloseFaces closing_order) d)
  | CloseTCP (i :: l) =>
      Some (goto (CloseTCP l) (match tcps d !! i with Some t => on_tcp i (tcp_Close t) d | None => d end))
  | CloseFaces [] => Some (goto (WaitFaces waiting_order) d)
  | CloseFaces (i :: l) =>
      match open_faces d !! i with
      | Some f => if listed f then Some (goto (ClosingAt i (length (calls f)) l) (on_face i (start_close f) d)) else Some (goto (CloseFaces l) d)
      | None => Some (goto (CloseFaces l) d)
      end
  | ClosingAt i j l =>
      f ← open_faces d !! i;
      match calls f !! j with Some [] => Some (goto (CloseFaces l) d) | _ => None end
  | WaitFaces [] => Some (goto (TellThreads telling_order) d)
  | WaitFaces (i :: l) =>
      match open_faces d !! i with
      | Some f => Some (goto (if listed f then WaitingAt i l else WaitFaces l) d)
      | None => Some (goto (WaitFaces l) d)
      end
  | WaitingAt i l =>
      f ← open_faces d !! i;
      match runner (link f) with
      | TellingQuit => Some (goto (WaitFaces l) (on_face i (with_service (service (link f)) RunReturned (idleBees (link f)) f) d))
      | _ => None
      end
  | TellThreads [] => Some (goto (WaitThreads joining_order) d)
  | TellThreads (i :: l) =>
      match threads d !! i with
      | Some t => t' ← TellToQuit t; Some (goto (TellThreads l) (on_thread i t' d))
      | None => Some (goto (TellThreads l) d)
      end
  | WaitThreads [] => Some (goto StopReturned d)
  | WaitThreads (i :: l) =>
      match threads d !! i with
      | Some t =>
          if decide (at_ t = TellsHasQuit) then
            Some (goto (WaitThreads l) (on_thread i (mkRunning ThreadReturned (queued t) (toldToQuit t) (late t)) d))
          else None
      | None => Some (goto (WaitThreads l) d)
      end
  | StopReturned | Crashed => None
  end.

Inductive daemon_move :=
| MStop | MUnix | MTcp (i : nat) | MFace (i : nat) (m : face_move) | MThread (i : nat) (m : thread_move)
| MReply.   (** management puts a frame into its queue *)

(** A daemon that has crashed does nothing more. *)
Definition daemon_exec (m : daemon_move) (d : Daemon) : option Daemon :=
  if is_crashed (pc d) then None
  else
    match m with
    | MStop => stop_exec d
    | MUnix =>
        match unix d with
        | Some NotListening => Some (on_unix Accepting d)
        | Some ConnClosed => Some (on_unix ListenerQuit d)
        | _ => None
        end
    | MTcp i =>
        l ← tcps d !! i; r ← tcp_exec (ShouldQuit d) l;
        Some (match r with Some l' => on_tcp i l' d | None => goto Crashed d end)
    | MFace i m =>
        f ← open_faces d !! i; r ← face_exec faceQueueSize m (outbox d) f;
        Some (match r with Some (o, f') => on_outbox o (replies d) (on_face i f' d) | None => goto Crashed d end)
    | MThread i m => t ← threads d !! i; t' ← thread_exec (ShouldQuit d) m t; Some (on_thread i t' d)
    | MReply => match replies d with S n => o ← put_frame faceQueueSize (outbox d); Some (on_outbox o n d) | O => None end
    end.

Definition daemon_step (d d' : Daemon) : Prop := exists m, daemon_exec m d = Some d'.

Fixpoint daemon_run (ms : list daemon_move) (d : Daemon) : option Daemon :=
  match ms with [] => Some d | m :: ms => d' ← daemon_exec m d; daemon_run ms d' end.
End stop.

(** The moves by which a receive loop opens its connection again. *)
Definition opens_again (m : daemon_move) : bool := match m with MFace _ m => reopens m | _ => false end.

