(* ===== verification/StopFace.v ===== *)
(** * Stopping the daemon: one face

    The invariant [face_inv] of a face that only [Stop] closes (StopModel.v), which
    every move of its goroutines preserves; that its [changeState] is never held up
    while there is room for the event, and how it leaves the face; the number of
    moves a face has left; what of a face never changes, for the hazards; and the
    same for threads and listeners. *)
From S2P Require Import Prelude.
From stdpp Require Import relations.
From S2P Require Import Packet Fw Text NetAddr Uri Transport Sockets Shutdown StopModel.

(** ** One face *)

(** How often an action is still to be done. *)
Definition same (a b : action) : bool :=
  match a, b with
  | TestState, TestState | SetDown, SetDown | PutHasQuit, PutHasQuit | PutShouldQuit, PutShouldQuit
  | CloseConn, CloseConn | TellService, TellService | RemoveFace, RemoveFace => true
  | _, _ => false
  end.
Fixpoint owed (a : action) (c : list action) : nat :=
  match c with [] => 0 | b :: c => Nat.b2n (same a b) + owed a c end.

(** What is left of the first call, which is the one of [Stop]. *)
Definition first_call (f : OpenFace) : list action := default (close_script (of_kind f)) (calls f !! 0).

(** A transport over a connection, and one that opens it again. *)
Definition reads_connection (k : TransportKind) : bool := match first_loop k with Reading _ => true | _ => false end.
Definition reopening (t : FaceTransport) : bool := match on_failure t with Redials | Relistens => true | _ => false end.

(** The face of transport [t] that nobody but [Stop] closes. *)
Record face_inv (t : FaceTransport) (f : OpenFace) : Prop := {
  fi_stage : exists n, first_call f = drop n (close_script (kind t));
  fi_kind : of_kind f = kind t;
  fi_base : tbase (of_transport f) = if owed SetDown (first_call f) =? 0 then set_state Down (tbase t) else tbase t;
  fi_closed : reopening t = false -> closed (of_transport f) = reads_connection (kind t) && (owed CloseConn (first_call f) =? 0);
  fi_lost : reopening t = false -> Reading true ∈ readers (loops f) -> reads_connection (kind t) = true /\ owed CloseConn (first_call f) = 0;
  fi_listed : listed f = negb (owed RemoveFace (first_call f) =? 0);
  fi_quit : quitTokens (loops f) + owed PutHasQuit (first_call f) <= 2;
  fi_should : shouldTokens (loops f) + owed PutShouldQuit (first_call f) <= 1;
  fi_service : service (link f) = Listens <-> owed TellService (first_call f) <> 0;
  fi_quiet : hangups f = false /\ (reopening t = true -> dials f = true);
  fi_late : calls f <> [] -> Forall (fun l => (l = [] \/ l = close_script (kind t)) /\ owed SetDown (first_call f) = 0) (tail (calls f)) }.

(** The order of the actions. *)
Lemma script_order k n : let c := drop n (close_script k) in
  owed SetDown c <= 1 /\ owed TellService c <= 1 /\ owed RemoveFace c <= 1 /\ owed CloseConn c <= 1 /\
  owed PutHasQuit c <= 2 /\ owed PutShouldQuit c <= 1 /\ length c <= 6 /\
  (owed CloseConn c = 0 -> reads_connection k = true -> owed SetDown c = 0) /\
  (forall l, c = TestState :: l -> owed SetDown c = 1).
Proof.
  destruct k; do 7 (destruct n as [|n]; [cbn; repeat split; try lia; try discriminate; intros; simplify_eq/=; lia|]).
  all: destruct n; cbn; repeat split; lia || discriminate.
Qed.

Lemma script_all k : let c := close_script k in
  owed SetDown c = 1 /\ owed TellService c = 1 /\ owed RemoveFace c = 1 /\ (reads_connection k = true -> owed CloseConn c = 1) /\ c <> [].
Proof. by destruct k. Qed.

Lemma open_face_inv t n dial : state (tbase t) = Up -> closed t = false -> (reopening t = true -> dial = true) ->
  face_inv t (open_face t n false dial).
Proof.
  intros Hu Hc Hd. pose proof (script_all (kind t)) as (E1 & E2 & E3 & E4 & _).
  pose proof (script_order (kind t) 0) as (_ & _ & _ & _ & O5 & O6 & _). cbn in O5, O6.
  assert (Hf : first_call (open_face t n false dial) = close_script (kind t)) by done.
  split; rewrite ?Hf; cbn [calls open_face of_transport loops link listed readers quitTokens shouldTokens service hangups dials].
  all: try done; try lia.
  - by exists 0.
  - by rewrite E1.
  - intros _. rewrite Hc. destruct (reads_connection (kind t)); [|done]. by rewrite E4.
  - intros _ Hr%list_elem_of_singleton. by destruct (kind t).
  - by rewrite E3.
  - by rewrite E2.
Qed.

(** [hear] only moves the link service on. *)
Lemma hear_spec f : exists l, hear f = with_link l f /\ service l <> Listens /\ outgoing l = outgoing (link f) /\
  writing l = writing (link f) /\ refused l = refused (link f) /\ (runner l = runner (link f) \/ runner l = TellingQuit).
Proof. unfold hear, with_service. destruct (of_kind f); (eexists; split; [done|]); cbn; auto 10. Qed.

(** What a call leaves alone. *)
Lemma act_keeps q a o f go o' f' : act q a o f = Some (go, o', f') ->
  calls f' = calls f /\ of_kind f' = of_kind f /\ hangups f' = hangups f /\ dials f' = dials f.
Proof.
  destruct a; cbn [act]; intros Ha; repeat case_match; simplify_eq; try done.
  - by destruct (hear_spec f) as (l & -> & _).
  - destruct (emit_event q o) as [o1|]; [|done]. cbn in Ha. by simplify_eq.
Qed.

Lemma act_cases q a o f go o' f' : act q a o f = Some (go, o', f') ->
  match a with
  | TestState => go = negb (bool_decide (of_state f = Down)) /\ o' = o /\ f' = f
  | SetDown => go = true /\ o' = o /\ f' = with_transport (on_base (set_state Down) (of_transport f)) f
  | PutHasQuit => quitTokens (loops f) < 2 /\ go = true /\ o' = o /\ f' = with_tokens (S (quitTokens (loops f))) (shouldTokens (loops f)) f
  | PutShouldQuit => shouldTokens (loops f) < 1 /\ go = true /\ o' = o /\ f' = with_tokens (quitTokens (loops f)) (S (shouldTokens (loops f))) f
  | CloseConn => go = true /\ o' = o /\ f' = close_connection f
  | TellService => service (link f) = Listens /\ go = true /\ o' = o /\ f' = hear f
  | RemoveFace => emit_event q o = Some o' /\ go = true /\ f' = unlisted f
  end.
Proof.
  destruct a; cbn [act]; intros Ha; repeat case_match; simplify_eq; rewrite ?Nat.ltb_lt in *; auto.
  destruct (emit_event q o) as [o1|]; [|done]. cbn in Ha. by simplify_eq.
Qed.

Lemma emit_event_frames q o o' : emit_event q o = Some o' -> frames o' <= S (frames o).
Proof. unfold emit_event, put_frame. intros He. repeat case_match; simplify_eq/=; lia. Qed.

(** No call that takes the [CloseConn] action is of a transport without
    connection. *)
Lemma script_conn k n l : CloseConn :: l = drop n (close_script k) -> reads_connection k = true.
Proof. destruct k; do 7 (destruct n as [|n]; [cbn; congruence|]); by destruct n. Qed.

Lemma drop_next {A} n (l : list A) a c : drop n l = a :: c -> drop (S n) l = c.
Proof. intros Hn. change (S n) with (1 + n). by rewrite Nat.add_comm, <- drop_drop, Hn. Qed.

(** A step of the first call. *)
Lemma first_act q t o f a l go o' f' : state (tbase t) = Up -> face_inv t f -> calls f !! 0 = Some (a :: l) -> act q a o f = Some (go, o', f') ->
  face_inv t (with_calls (<[0 := if go : bool then l else []]> (calls f')) f') /\
  first_call (with_calls (<[0 := if go : bool then l else []]> (calls f')) f') = l.
Proof.
  intros Hu [[n Hn] Hk Hb Hc Hlo Hl Hq Hs Hv Hh Hla] H0 Ha.
  assert (Hfc : first_call f = a :: l) by (unfold first_call; by rewrite H0).
  rewrite Hfc in *.
  pose proof (script_order (kind t) n) as (O1 & O2 & O3 & O4 & O5 & O6 & _ & O7 & O8). rewrite <- Hn in O1, O2, O3, O4, O5, O6, O7, O8.
  destruct (act_keeps _ _ _ _ _ _ _ Ha) as (Kc & Kk & Kh & Kd). apply act_cases in Ha.
  assert (Hgo : go = true).
  { destruct a; try tauto. destruct Ha as [-> _]. unfold of_state. rewrite Hb, (O8 l eq_refl). cbn. by rewrite Hu. }
  subst go. destruct (calls f) as [|c0 late'] eqn:Ec; [done|]. cbn in H0. simplify_eq. rewrite Kc. cbn [insert list_insert] in *.
  assert (Hfc' : first_call (with_calls (l :: late') f') = l) by done. split; [|done].
  specialize (Hla ltac:(discriminate)).
  assert (Hz : forall b, owed b (a :: l) <= 1 -> a = b -> owed b l = 0) by (by intros [] Hb1 ->; cbn in Hb1; lia).
  split; rewrite ?Hfc'; [by exists (S n); symmetry; apply (drop_next n _ a)|exact (eq_trans Kk Hk)|..].
  8: { cbn. by rewrite Kh, Kd. }
  8: { intros _. eapply Forall_impl; [exact Hla|]. intros c [Hc1 Hc2]. split; [done|]. cbn in Hc2. lia. }
  all: destruct a; destruct_and?; subst f'; cbn in Hb, Hc, Hlo, Hl, Hq, Hs, Hv |- *; try done; try lia.
  all: try (destruct (hear_spec f) as (lk & -> & Hne & _); cbn; done).
  - by rewrite (Hz SetDown), Hb by done.
  - intros Hr. rewrite (Hz CloseConn), (script_conn (kind t) n l) by done. done.
  - intros _ _. rewrite (Hz CloseConn), (script_conn (kind t) n l) by done. done.
  - by rewrite (Hz RemoveFace) by done.
  - rewrite (Hz TellService) by done. destruct (hear_spec f) as (lk & -> & Hne & _). cbn. split; [done|lia].
Qed.

(** Changes of the link service, of the loops, of later calls. *)
Lemma face_inv_link t f l : face_inv t f -> (service l = Listens <-> service (link f) = Listens) -> face_inv t (with_link l f).
Proof. intros [Hst Hk Hb Hc Hlo Hl Hq Hs Hv Hh Hla] Hi. split; try done. cbn. by rewrite Hi. Qed.

Lemma face_inv_loops t f l : face_inv t f ->
  (reopening t = false -> Reading true ∈ readers l -> Reading true ∈ readers (loops f)) ->
  quitTokens l <= quitTokens (loops f) -> shouldTokens l <= shouldTokens (loops f) -> face_inv t (with_loops l f).
Proof.
  intros [Hst Hk Hb Hc Hlo Hl Hq Hs Hv Hh Hla] Hr H1 H2. split; try done.
  - intros Hre Hin. by apply Hlo, Hr.
  - change (quitTokens l + owed PutHasQuit (first_call f) <= 2). lia.
  - change (shouldTokens l + owed PutShouldQuit (first_call f) <= 1). lia.
Qed.

Lemma face_inv_closed t f c : reopening t = true -> face_inv t f -> face_inv t (with_closed c f).
Proof. intros Hr [Hst Hk Hb Hc Hlo Hl Hq Hs Hv Hh Hla]. split; try done. intros ?. congruence. Qed.

Lemma face_inv_calls t f c0 late' late'' : face_inv t f -> calls f = c0 :: late' ->
  Forall (fun l => (l = [] \/ l = close_script (kind t)) /\ owed SetDown (first_call f) = 0) late'' ->
  face_inv t (with_calls (c0 :: late'') f).
Proof.
  intros [Hst Hk Hb Hc Hlo Hl Hq Hs Hv Hh Hla] Hf Hlate.
  assert (E : first_call (with_calls (c0 :: late'') f) = first_call f) by (unfold first_call; by rewrite Hf).
  split; rewrite ?E; done.
Qed.

(** The first call has closed the connection. *)
Definition conn_done (t : FaceTransport) (f : OpenFace) : Prop := reads_connection (kind t) = true /\ owed CloseConn (first_call f) = 0.

Lemma conn_done_down t f : face_inv t f -> conn_done t f -> calls f <> [] /\ owed SetDown (first_call f) = 0.
Proof.
  intros [[n Hn] Hk _ _ _ _ _ _ _ _ _] [Hr Ho]. split.
  - intros Hc. unfold first_call in Ho. rewrite Hc in Ho. cbn in Ho. rewrite Hk in Ho.
    pose proof (script_all (kind t)) as (_ & _ & _ & E & _). rewrite E in Ho; done.
  - pose proof (script_order (kind t) n) as (_ & _ & _ & _ & _ & _ & _ & O7 & _). rewrite <- Hn in O7. by apply O7.
Qed.

Lemma late_call_inv t f : face_inv t f -> conn_done t f ->
  face_inv t (start_close f) /\ first_call (start_close f) = first_call f /\ (calls f <> [] /\ calls (start_close f) <> []).
Proof.
  intros Hf Hd. destruct (conn_done_down t f Hf Hd) as [Hne H0]. destruct (calls f) as [|c0 late'] eqn:Ec; [done|].
  unfold start_close. rewrite Ec. split; [|split; [unfold first_call; cbn; by rewrite Ec|split; discriminate]].
  apply (face_inv_calls t f c0 late'); [done|done|]. apply Forall_app. split.
  - pose proof (fi_late t f Hf) as Hla. rewrite Ec in Hla. by apply Hla.
  - constructor; [|done]. split; [right; by rewrite (fi_kind t f Hf)|done].
Qed.

Lemma face_on_failure t f : face_inv t f -> on_failure (of_transport f) = on_failure t.
Proof.
  intros [_ Hk Hb _ _ _ _ _ _ _ _]. unfold on_failure. unfold of_kind in Hk. rewrite Hk, Hb. by case_match.
Qed.

(** How a face move leaves the face: the invariant, whether calls were made and the
    first has returned, and the room that is kept for the event. *)
Record face_next (t : FaceTransport) (o : Outbox) (f : OpenFace) (o' : Outbox) (f' : OpenFace) : Prop := {
  fn_inv : face_inv t f';
  fn_calls : calls f = [] <-> calls f' = [];
  fn_returned : calls f !! 0 = Some [] -> calls f' !! 0 = Some [];
  fn_room : frames o' + owed RemoveFace (first_call f') <= frames o + owed RemoveFace (first_call f) }.

Lemma face_next_quiet t o f f' : face_inv t f' -> calls f' = calls f -> of_kind f' = of_kind f -> face_next t o f o f'.
Proof.
  intros Hi Hc Hk. assert (E : first_call f' = first_call f) by (unfold first_call; by rewrite Hc, Hk).
  split; rewrite ?E, ?Hc; done.
Qed.

Lemma face_next_late t o f f' : face_inv t f' -> conn_done t f' -> calls f' = calls f -> of_kind f' = of_kind f -> face_next t o f o (start_close f').
Proof.
  intros Hi Hd Hc Hk. assert (E : first_call f' = first_call f) by (unfold first_call; by rewrite Hc, Hk).
  destruct (late_call_inv t f' Hi Hd) as (H1 & H2 & H3 & H4).
  split; rewrite ?H2, ?E, ?Hc in *; [done|done| |done]. unfold start_close. cbn. rewrite Hc. by destruct (calls f).
Qed.

(** A call goes on. *)
Lemma call_next q t j o f o' f' : state (tbase t) = Up -> face_inv t f -> face_exec q (FCall j) o f = Some (Some (o', f')) ->
  face_next t o f o' f'.
Proof.
  intros Hu Hf He. pose proof Hf as [Hst Hk Hb Hc Hlo Hl Hq Hs Hv Hh Hla]. cbn [face_exec] in He.
  destruct (calls f !! j) as [[|a l]|] eqn:Hj; try done. destruct (act q a o f) as [[[go o1] f1]|] eqn:Ha; [|done].
  cbn [mbind option_bind] in He. simplify_eq. destruct (act_keeps _ _ _ _ _ _ _ Ha) as (Kc & _).
  assert (Hne : calls f <> []) by (by destruct (calls f)). destruct j as [|j].
  - destruct (first_act _ _ _ _ _ _ _ _ _ Hu Hf Hj Ha) as [Hi Hfc].
    assert (Hfo : first_call f = a :: l) by (unfold first_call; by rewrite Hj). split; rewrite ?Hfc; [done| |congruence|].
    + cbn. rewrite Kc. split; [done|]. by destruct (calls f).
    + rewrite Hfo. apply act_cases in Ha. destruct a; destruct_and?; subst; cbn; try lia.
      match goal with E : emit_event _ _ = _ |- _ => apply emit_event_frames in E; lia end.
  - destruct (calls f) as [|c0 late'] eqn:Ec; [done|]. specialize (Hla Hne). cbn in Hj.
    destruct (Forall_lookup_1 _ _ _ _ Hla Hj) as [[|Hs0] Hd]; [done|].
    assert (a = TestState) as -> by (destruct (kind t); vm_compute in Hs0; congruence).
    apply act_cases in Ha as (-> & -> & ->). unfold of_state. rewrite Hb, Hd. cbn [Nat.eqb set_state state]. rewrite bool_decide_true, Ec by done.
    cbn [negb insert list_insert].
    assert (E : forall x, first_call (with_calls (c0 :: x) f) = first_call f) by (intros x; unfold first_call; by rewrite Ec).
    split; rewrite ?E; [|by rewrite Ec|by rewrite Ec|done].
    apply (face_inv_calls t f c0 late'); [done|done|]. apply Forall_insert; [done|]. split; [by left|done].
Qed.

Lemma lost_insert (j : nat) (r : receive_loop) (rs : list receive_loop) : r <> Reading true -> Reading true ∈ <[j := r]> rs -> Reading true ∈ rs.
Proof.
  intros Hr (k & Hk)%list_elem_of_lookup. apply list_lookup_insert_Some in Hk as [(_ & -> & _)|[_ Hk]]; [done|].
  by eapply list_elem_of_lookup_2.
Qed.

(** What a move leaves of a face in [face_inv]: the process goes on, with
    [face_next]. *)
Definition face_ok (q : nat) (t : FaceTransport) (m : face_move) (o : Outbox) (f : OpenFace) : Prop :=
  forall r, face_exec q m o f = Some r -> exists o' f', r = Some (o', f') /\ face_next t o f o' f'.

Section moves.
Context (q : nat) (t : FaceTransport) (o : Outbox) (f : OpenFace) (Hf : face_inv t f).

Lemma quiet_ok f' : face_inv t f' -> calls f' = calls f -> of_kind f' = of_kind f ->
  exists o1 f1, Some (o, f') = Some (o1, f1) /\ face_next t o f o1 f1.
Proof. intros Hi Hc Hk. exists o, f'. split; [done|]. by apply face_next_quiet. Qed.

Lemma failure_reopens c : on_failure (of_transport f) = c -> (c = Redials \/ c = Relistens) -> reopening t = true.
Proof. rewrite (face_on_failure t f Hf). unfold reopening. by intros -> [-> | ->]. Qed.
Lemma failure_closes : on_failure (of_transport f) = Closes -> reopening t = false.
Proof. rewrite (face_on_failure t f Hf). unfold reopening. by intros ->. Qed.

(** The goroutines of the link service. *)
Lemma link_ok m : m = FImplLoop \/ m = FImplSender \/ m = FBee \/ m = FSend \/ m = FWrite -> face_ok q t m o f.
Proof.
  intros Hm r He. destruct_or?; subst m; cbn [face_exec] in He.
  - destruct (service (link f)) eqn:Es, (runner (link f)); simplify_eq. apply quiet_ok; [|done|done]. apply face_inv_link; [done|]. cbn. by rewrite Es.
  - destruct (refused (link f)), (runner (link f)); simplify_eq. apply quiet_ok; [|done|done].
    apply face_inv_link; [by apply face_inv_link|done].
  - destruct (runner (link f)), (idleBees (link f)); simplify_eq. apply quiet_ok; [|done|done]. by apply face_inv_link.
  - destruct (outgoing (link f)); [done|]. repeat case_decide; simplify_eq; (apply quiet_ok; [by apply face_inv_link|done|done]).
  - destruct (writing (link f)); simplify_eq. apply quiet_ok; [by apply face_inv_link|done|done].
Qed.

(** A failed write: only the connection [Stop] has closed fails, so that a call of
    [changeState] comes after its own. *)
Lemma write_fails_ok : face_ok q t FWriteFails o f.
Proof.
  intros r He. pose proof (fi_quiet t f Hf) as [Hh Hdi]. cbn [face_exec] in He. destruct (writing (link f)) as [|n]; [done|].
  rewrite Hh, orb_false_r in He. destruct (closed (of_transport f)) eqn:Ec; [|done]. cbn zeta in He.
  assert (Hp : face_inv t (with_packets (outgoing (link f)) n (refused (link f)) f)) by (by apply face_inv_link).
  destruct (on_failure (of_transport f)) eqn:Er; [| | |done].
  - simplify_eq. eexists _, _. split; [done|]. apply face_next_late; [done| |done|done].
    pose proof (fi_closed t f Hf (failure_closes Er)) as Hc. rewrite Ec in Hc. symmetry in Hc. by apply andb_true_iff in Hc as [? ?%Nat.eqb_eq].
  - pose proof (failure_reopens _ Er ltac:(auto)) as Hr. rewrite Hdi in He by done. simplify_eq. apply quiet_ok; [|done|done].
    apply face_inv_closed; [done|]. apply face_inv_loops; cbn; [done|congruence|done|done].
  - pose proof (failure_reopens _ Er ltac:(auto)) as Hr. rewrite Hdi in He by done. simplify_eq. apply quiet_ok; [|done|done].
    by apply face_inv_closed.
Qed.

(** A failed read of a loop that closes the face. *)
Lemma read_fails_ok m j : m = FReadFails j \/ m = FReadEof j -> face_ok q t m o f.
Proof.
  intros Hm r He. pose proof (fi_quiet t f Hf) as [Hh _]. destruct Hm as [-> | ->]; cbn [face_exec] in He; rewrite Hh in He;
    destruct (readers (loops f) !! j) as [[lost| | | |]|] eqn:Hj; try done; [|by destruct (of_kind f)].
  destruct (on_failure (of_transport f)) eqn:Er; try done. rewrite orb_false_r in He. destruct lost; [|done]. simplify_eq.
  eexists _, _. split; [done|]. apply face_next_late; [|apply (fi_lost t f Hf (failure_closes Er)); by eapply list_elem_of_lookup_2|done|done].
  apply face_inv_loops; cbn; [done|intros _; by apply lost_insert|done|done].
Qed.

(** A loop that opens its connection again. *)
Lemma reopen_ok m : reopens m = true -> face_ok q t m o f.
Proof.
  intros Hm r He. pose proof (fi_quiet t f Hf) as [_ Hdi]. destruct m as [ | | | | | | | | |j|j|j ok| | | |]; try done; cbn [face_exec] in He;
    destruct (readers (loops f) !! j) as [[lost| | | |]|] eqn:Hj; try done; destruct (on_failure (of_transport f)) eqn:Er; try done;
    pose proof (failure_reopens _ Er ltac:(auto)) as Hr.
  - destruct (lost || hangups f); [|done]. simplify_eq. apply quiet_ok; [|done|done].
    apply face_inv_closed; [done|]. apply face_inv_loops; cbn; [done|congruence|done|done].
  - destruct (lost || hangups f); [|done]. simplify_eq. apply quiet_ok; [|done|done]. apply face_inv_loops; cbn; [done|congruence|done|done].
  - rewrite Hdi in He by done. simplify_eq. apply quiet_ok; [|done|done].
    apply face_inv_closed; [done|]. apply face_inv_loops; cbn; [done|congruence|done|done].
  - simplify_eq. apply quiet_ok; [|done|done]. apply face_inv_loops; cbn; [done|congruence|done|done].
Qed.

(** The loops that wait for tokens, and management. *)
Lemma token_ok m j : m = FCapture j \/ m = FDrain j \/ m = FQuitLoop j \/ m = FQuitComponent -> face_ok q t m o f.
Proof.
  intros Hm r He. destruct_or?; subst m; cbn [face_exec] in He;
    try (destruct (readers (loops f) !! j) as [[lost| | | |]|] eqn:Hj; try done; []).
  - destruct (shouldTokens (loops f)) as [|n] eqn:Es; [done|]. simplify_eq. apply quiet_ok; [|done|done].
    apply face_inv_loops; cbn; [done|intros _; by apply lost_insert|done|lia].
  - destruct (frames o) as [|n] eqn:Es; [done|]. simplify_eq. eexists _, _. split; [done|]. split; try done. cbn. lia.
  - destruct (quitTokens (loops f)) as [|n] eqn:Es; [done|]. simplify_eq. apply quiet_ok; [|done|done].
    apply face_inv_loops; cbn; [done|intros _; by apply lost_insert|lia|done].
  - destruct (quitTokens (loops f)) as [|n] eqn:Es; [done|]. destruct (component (loops f)); [|done]. simplify_eq.
    apply quiet_ok; [|done|done]. apply face_inv_loops; cbn; [done|done|lia|done].
Qed.
End moves.

(** No move of a face that only [Stop] closes stops the process. *)
Lemma face_exec_inv q t m o f r : state (tbase t) = Up -> face_inv t f -> face_exec q m o f = Some r ->
  exists o' f', r = Some (o', f') /\ face_next t o f o' f'.
Proof.
  intros Hu Hf. revert r. change (face_ok q t m o f). destruct m as [j| | | | | | |j|j|j|j|j ok|j|j|j|].
  1: { intros r He. destruct r as [[o' f']|]; [exists o', f'; split; [done|by eapply call_next]|].
    cbn [face_exec] in He. destruct (calls f !! j) as [[|a l]|]; try done. by destruct (act q a o f) as [[[go o1] f1]|]. }
  1-5: apply link_ok; auto.
  - by apply write_fails_ok.
  - apply (read_fails_ok q t o f Hf _ j). auto.
  - apply (read_fails_ok q t o f Hf _ j). auto.
  - by apply reopen_ok.
  - by apply reopen_ok.
  - by apply reopen_ok.
  - apply (token_ok q t o f Hf _ j). auto.
  - apply (token_ok q t o f Hf _ j). auto.
  - apply (token_ok q t o f Hf _ j). auto.
  - apply (token_ok q t o f Hf _ 0). auto.
Qed.

Lemma start_close_inv t f : face_inv t f -> calls f = [] ->
  face_inv t (start_close f) /\ is_Some (calls (start_close f) !! 0) /\ first_call (start_close f) = first_call f.
Proof.
  intros [Hst Hk Hb Hc Hlo Hl Hq Hs Hv Hh Hla] Hn.
  assert (E : first_call (start_close f) = first_call f) by (unfold first_call, start_close; cbn; by rewrite Hn).
  split; [|split; [cbn; by rewrite Hn|done]].
  split; rewrite ?E; try done. intros _. unfold start_close. cbn. by rewrite Hn.
Qed.

Lemma open_listed t f : face_inv t f -> calls f = [] -> listed f = true.
Proof.
  intros [_ Hk _ _ _ Hl _ _ _ _ _] Hn. rewrite Hl. unfold first_call. rewrite Hn. cbn.
  pose proof (script_all (of_kind f)) as (_ & _ & E3 & _). by rewrite E3.
Qed.

(** The call of [Stop] is never held up while there is room for the event, and when
    it has returned the face is out of the table, its transport as [changeState]
    leaves it. *)
Lemma close_unblocked q t o f a l : face_inv t f -> calls f !! 0 = Some (a :: l) ->
  frames o + owed RemoveFace (first_call f) <= q -> is_Some (face_exec q (FCall 0) o f).
Proof.
  intros [Hst Hk Hb Hc Hlo Hl Hq Hs Hv Hh Hla] H0 Hroom. cbn [face_exec]. rewrite H0.
  assert (Hfc : first_call f = a :: l) by (unfold first_call; by rewrite H0). rewrite Hfc in *.
  assert (is_Some (act q a o f)) as [[[go o'] f'] ->]; [|by eexists].
  destruct a; cbn [act owed same Nat.b2n] in *; try by eexists.
  - goal_if E; [by eexists|]. apply Nat.ltb_ge in E. lia.
  - goal_if E; [by eexists|]. apply Nat.ltb_ge in E. lia.
  - rewrite decide_True by (apply Hv; lia). by eexists.
  - unfold emit_event, put_frame. cbn [frames nextEvent]. rewrite (proj2 (Nat.ltb_lt (frames o) q)) by lia. goal_if E; by eexists.
Qed.

Lemma reads_socket t : on_failure t = Closes -> has_socket t.
Proof. unfold on_failure, has_socket. by destruct (kind t). Qed.

Lemma close_returned t f : state (tbase t) = Up -> closed t = false -> face_inv t f -> calls f !! 0 = Some [] ->
  of_state f = Down /\ listed f = negb (changeState Down t).2 /\ service (link f) <> Listens /\
  tbase (of_transport f) = set_state Down (tbase t) /\
  (reopening t = false -> kind t <> InternalKind -> of_transport f = (changeState Down t).1).
Proof.
  intros Hu Hcl [Hst Hk Hb Hc Hlo Hl Hq Hs Hv Hh Hla] H0.
  assert (Hfc : first_call f = []) by (unfold first_call; by rewrite H0). rewrite Hfc in *. cbn in *.
  assert (E2 : (changeState Down t).2 = true).
  { destruct (changeState_cases Down t) as [c ->]. by rewrite decide_False by congruence. }
  split; [unfold of_state; by rewrite Hb|]. split; [by rewrite Hl, E2|]. split; [by intros ?%Hv|]. split; [done|]. intros Hr Hi.
  specialize (Hc Hr). rewrite andb_true_r in Hc.
  unfold of_kind in Hk. destruct (of_transport f) as [k b c], t as [k0 b0 c0]. cbn in *. subst.
  destruct k0; try done; cbn; unfold socket_changeState, ethernet_changeState, null_changeState; cbn;
    by rewrite decide_False by congruence.
Qed.

(** *** Progress of a face *)

Definition service_work (v : service_state) : nat := match v with Listens => 2 | TellsImpl => 1 | ServiceEnded => 0 end.
Definition run_work (r : run_state) : nat := match r with WaitingImpl => 2 | TellingQuit => 1 | RunReturned => 0 end.
Definition loop_work (r : receive_loop) : nat :=
  match r with Reading _ | Reopening => 13 | Capturing | Draining => 1 | LoopEnded => 0 end.
Definition link_work (l : LinkSide) : nat :=
  service_work (service l) + run_work (runner l) + 15 * outgoing l + 14 * writing l + refused l.
Definition loops_work (l : Loops) : nat := sum_list_with loop_work (readers l) + Nat.b2n (component l).
Definition call_work (c : list action) : nat := 2 * length c.
Definition face_work (f : OpenFace) : nat := sum_list_with call_work (calls f) + loops_work (loops f) + link_work (link f).

Lemma script_length k : length (close_script k) <= 6.
Proof. destruct k; cbn; lia. Qed.

Lemma start_close_work f : face_work (start_close f) <= face_work f + 12.
Proof.
  unfold face_work, start_close. cbn [calls loops link with_calls]. rewrite sum_list_with_app. cbn. unfold call_work.
  pose proof (script_length (of_kind f)). lia.
Qed.

Lemma lose_work rs : sum_list_with loop_work (lose <$> rs) = sum_list_with loop_work rs.
Proof. induction rs as [|r rs IH]; [done|]. cbn in *. rewrite IH. by destruct r. Qed.

(** The work of a face counts an event that [FaceTable.Remove] puts out. *)
Lemma act_work q a o f go o' f' : act q a o f = Some (go, o', f') ->
  frames o' + loops_work (loops f') + link_work (link f') <= S (frames o + loops_work (loops f) + link_work (link f)).
Proof.
  intros Ha. apply act_cases in Ha. destruct a; destruct_and?; subst; try (unfold loops_work; cbn; lia).
  - unfold loops_work. cbn [close_connection with_closed with_transport with_readers with_loops loops readers component link].
    rewrite lose_work. lia.
  - unfold hear, link_work. destruct (of_kind f); cbn; match goal with E : service (link f) = _ |- _ => rewrite E end; cbn;
      destruct (runner (link f)); cbn; lia.
  - match goal with E : emit_event _ _ = _ |- _ => apply emit_event_frames in E end. cbn. lia.
Qed.

Lemma readers_work f j r r' q s b : readers (loops f) !! j = Some r -> Nat.b2n b <= Nat.b2n (component (loops f)) ->
  face_work (with_loops (mkLoops (<[j := r']> (readers (loops f))) q s b) f) + loop_work r <= face_work f + loop_work r'.
Proof.
  intros Hj Hb. pose proof (sum_insert loop_work _ _ _ r' Hj). unfold face_work, loops_work.
  cbn [with_loops loops readers component link calls]. lia.
Qed.

Lemma lose_lookup (rs : list receive_loop) (j : nat) (b : bool) : rs !! j = Some (Reading b) -> (lose <$> rs) !! j = Some (Reading true).
Proof. intros Hj. by rewrite list_lookup_fmap, Hj. Qed.

Lemma call_exec_work q j o f o' f' : face_exec q (FCall j) o f = Some (Some (o', f')) -> frames o' + face_work f' < frames o + face_work f.
Proof.
  cbn [face_exec]. intros He. destruct (calls f !! j) as [[|a l]|] eqn:Hj; try done. destruct (act q a o f) as [[[go o1] f1]|] eqn:Ha; [|done].
    cbn [mbind option_bind] in He. simplify_eq. destruct (act_keeps _ _ _ _ _ _ _ Ha) as (Kc & _). apply act_work in Ha.
    pose proof (sum_insert call_work _ _ _ (if go then l else []) Hj) as Hs. unfold face_work. cbn [calls loops link with_calls]. rewrite Kc.
    assert (call_work (if go then l else []) <= call_work l) by (destruct go; unfold call_work; cbn; lia).
    unfold call_work in Hs at 2. cbn in Hs. unfold call_work in H. lia.
Qed.

Lemma write_fails_work q o f o' f' : face_exec q FWriteFails o f = Some (Some (o', f')) -> frames o' + face_work f' < frames o + face_work f.
Proof.
  cbn [face_exec]. intros He. destruct (writing (link f)) as [|n] eqn:Ew; [done|]. destruct (_ || _); [|done]. cbn zeta in He.
  set (f1 := with_packets (outgoing (link f)) n (refused (link f)) f) in He.
  assert (H1 : face_work f1 + 14 = face_work f) by (unfold face_work, link_work; cbn; rewrite Ew; lia).
  destruct (on_failure (of_transport f)); [|destruct (dials f); [|done]..|done]; simplify_eq.
  - pose proof (start_close_work f1). lia.
  - assert (face_work (with_closed false (with_readers ((lose <$> readers (loops f)) ++ [Reading false]) f1)) = face_work f1 + 13); [|lia].
    unfold face_work, loops_work. cbn [with_closed with_transport with_readers with_loops loops readers component link calls].
    rewrite sum_list_with_app, lose_work. cbn. lia.
  - change (face_work (with_closed false f1)) with (face_work f1). lia.
Qed.

Lemma reopen_work q m o f o' f' : reopens m = true -> face_exec q m o f = Some (Some (o', f')) ->
  frames o' + face_work f' <= frames o + face_work f.
Proof.
  destruct m as [ | | | | | | | | |j|j|j ok| | | |]; cbn [face_exec reopens]; intros Hm He; try done.
  - destruct (readers (loops f) !! j) as [[lost| | | |]|] eqn:Hj; try done.
    pose proof (readers_work f j _ Reopening (quitTokens (loops f)) (shouldTokens (loops f)) (component (loops f)) Hj (le_n _)) as Hs.
    destruct (on_failure (of_transport f)); try done; (destruct (_ || _); [|done]); simplify_eq.
    + pose proof (sum_insert loop_work _ _ _ Reopening (lose_lookup _ _ _ Hj)) as Hs'. rewrite lose_work in Hs'.
      unfold face_work, loops_work. cbn [with_closed with_transport with_readers with_loops loops readers component link calls].
      cbn [loop_work] in Hs'. lia.
    + cbn [loop_work] in Hs. unfold with_readers. lia.
  - destruct (readers (loops f) !! j) as [[lost| | | |]|] eqn:Hj; try done.
    pose proof (readers_work f j _ (Reading false) (quitTokens (loops f)) (shouldTokens (loops f)) (component (loops f)) Hj (le_n _)) as Hs.
    destruct (on_failure (of_transport f)); try done. destruct (dials f); [|done]. simplify_eq.
    cbn [loop_work] in Hs. change (face_work (with_closed false ?g)) with (face_work g). unfold with_readers. lia.
  - destruct (readers (loops f) !! j) as [[lost| | | |]|] eqn:Hj; try done.
    pose proof (readers_work f j _ (Reading (negb ok)) (quitTokens (loops f)) (shouldTokens (loops f)) (component (loops f)) Hj (le_n _)) as Hs.
    destruct (on_failure (of_transport f)); try done. simplify_eq. cbn [loop_work] in Hs. unfold with_readers. lia.
Qed.

Lemma face_exec_less q m o f o' f' : reopens m = false -> face_exec q m o f = Some (Some (o', f')) ->
  frames o' + face_work f' < frames o + face_work f.
Proof.
  destruct m as [j| | | | | | |j|j|j|j|j ok|j|j|j|]; cbn [reopens]; intros Hm; try done; [apply call_exec_work|..|];
    try apply write_fails_work; cbn [face_exec]; intros He.
  - unfold face_work, link_work. destruct (service (link f)) eqn:E1, (runner (link f)) eqn:E2; simplify_eq. cbn. rewrite ?E1, ?E2. cbn. lia.
  - unfold face_work, link_work. destruct (refused (link f)) eqn:E1, (runner (link f)) eqn:E2; simplify_eq. cbn. rewrite ?E1, ?E2. cbn. lia.
  - unfold face_work, link_work. destruct (runner (link f)) eqn:E1, (idleBees (link f)) eqn:E2; simplify_eq. cbn. rewrite ?E1, ?E2. cbn. lia.
  - unfold face_work, link_work. destruct (outgoing (link f)) eqn:E1; [done|]. repeat case_decide; simplify_eq; cbn; rewrite ?E1; lia.
  - unfold face_work, link_work. destruct (writing (link f)) eqn:E1; simplify_eq. cbn. rewrite ?E1. lia.
  - destruct (readers (loops f) !! j) as [[lost| | | |]|] eqn:Hj; try done. destruct (on_failure (of_transport f)); try done.
    destruct (_ || _); [|done]. simplify_eq. pose proof (start_close_work (with_readers (<[j := LoopEnded]> (readers (loops f))) f)).
    pose proof (readers_work f j _ LoopEnded (quitTokens (loops f)) (shouldTokens (loops f)) (component (loops f)) Hj (le_n _)) as Hs.
    cbn [loop_work] in Hs. unfold with_readers in *. lia.
  - destruct (readers (loops f) !! j) as [[lost| | | |]|] eqn:Hj; try done. destruct (of_kind f); try done.
    destruct (hangups f); [|done]. simplify_eq. pose proof (start_close_work (with_readers (<[j := LoopEnded]> (readers (loops f))) f)).
    pose proof (readers_work f j _ LoopEnded (quitTokens (loops f)) (shouldTokens (loops f)) (component (loops f)) Hj (le_n _)) as Hs.
    cbn [loop_work] in Hs. unfold with_readers in *. lia.
  - destruct (readers (loops f) !! j) as [[lost| | | |]|] eqn:Hj; try done. destruct (shouldTokens (loops f)) as [|n]; simplify_eq.
    pose proof (readers_work f j _ LoopEnded (quitTokens (loops f)) n (component (loops f)) Hj (le_n _)) as Hs.
    cbn [loop_work] in Hs. lia.
  - destruct (readers (loops f) !! j) as [[lost| | | |]|] eqn:Hj; try done. destruct (frames o) as [|n]; simplify_eq. cbn. lia.
  - destruct (readers (loops f) !! j) as [[lost| | | |]|] eqn:Hj; try done. destruct (quitTokens (loops f)) as [|n]; simplify_eq.
    pose proof (readers_work f j _ LoopEnded n (shouldTokens (loops f)) (component (loops f)) Hj (le_n _)) as Hs.
    cbn [loop_work] in Hs. lia.
  - destruct (quitTokens (loops f)) as [|n]; [done|]. destruct (component (loops f)) eqn:Ec; [|done]. simplify_eq.
    unfold face_work, loops_work. cbn. rewrite Ec. cbn. lia.
Qed.

Lemma face_exec_work q m o f o' f' : face_exec q m o f = Some (Some (o', f')) ->
  (reopens m = false -> frames o' + face_work f' < frames o + face_work f) /\ frames o' + face_work f' <= frames o + face_work f.
Proof.
  intros He. destruct (reopens m) eqn:Em.
  - split; [done|]. by eapply reopen_work.
  - assert (frames o' + face_work f' < frames o + face_work f) by (by eapply face_exec_less). split; [done|lia].
Qed.

(** *** What a face cannot undo *)

(** The event of [FaceTable.Remove] is held up by a full queue. *)
Lemma emit_event_full q o : 99 <= nextEvent o -> q <= frames o -> emit_event q o = None.
Proof.
  intros Hn Hq. unfold emit_event, put_frame. cbn [frames nextEvent].
  by rewrite (proj2 (Nat.ltb_ge (nextEvent o) 99)), (proj2 (Nat.ltb_ge (frames o) q)).
Qed.

(** What stays as it is, whatever a face does. *)
Record face_stays (q : nat) (o : Outbox) (f : OpenFace) (o' : Outbox) (f' : OpenFace) : Prop := {
  fs_kind : of_kind f' = of_kind f;
  fs_told : service (link f) <> Listens -> service (link f') <> Listens;
  fs_run : of_kind f <> NullKind -> runner (link f) = RunReturned -> runner (link f') = RunReturned;
  fs_drain : Draining ∈ readers (loops f') -> Draining ∈ readers (loops f);
  fs_full : 99 <= nextEvent o -> q <= frames o -> Draining ∉ readers (loops f) -> o' = o;
  fs_telling : service (link f) <> Listens -> forall j l, calls f !! j = Some (TellService :: l) -> calls f' !! j = Some (TellService :: l);
  fs_removing : 99 <= nextEvent o -> q <= frames o -> forall j l, calls f !! j = Some (RemoveFace :: l) -> calls f' !! j = Some (RemoveFace :: l) }.

Lemma call_stays q j o f o' f' : face_exec q (FCall j) o f = Some (Some (o', f')) -> face_stays q o f o' f'.
Proof.
  cbn [face_exec]. intros He. destruct (calls f !! j) as [[|a l]|] eqn:Hj; try done.
  destruct (act q a o f) as [[[go o1] f1]|] eqn:Ha; [|done]. cbn [mbind option_bind] in He. simplify_eq.
  destruct (act_keeps _ _ _ _ _ _ _ Ha) as (Kc & Kk & _). apply act_cases in Ha.
  assert (Hother : forall b, a <> b -> forall k c, calls f !! k = Some (b :: c) ->
    calls (with_calls (<[j := if go : bool then l else []]> (calls f1)) f1) !! k = Some (b :: c)).
  { intros b Hb k c Hk. cbn. rewrite Kc. rewrite list_lookup_insert_ne; [done|]. intros ->. congruence. }
  split; try done.
  - destruct a; destruct_and?; by subst.
  - intros Hk Hr. destruct a; destruct_and?; subst; try done. unfold hear. cbn. by destruct (of_kind f).
  - destruct a; destruct_and?; subst; try done.
    + cbn. intros (r & Hr & Hin)%list_elem_of_fmap. by destruct r.
    + by destruct (hear_spec f) as (lk & -> & _).
  - intros Hn Hq _. destruct a; destruct_and?; try done. rewrite emit_event_full in * by done. done.
  - intros Hs. apply Hother. intros ->. by destruct Ha as [? _].
  - intros Hn Hq. apply Hother. intros ->. destruct Ha as [Ha _]. by rewrite emit_event_full in Ha.
Qed.

Lemma in_insert (x r : receive_loop) (j : nat) (rs : list receive_loop) : r <> x -> x ∈ <[j := r]> rs -> x ∈ rs.
Proof.
  intros Hr (k & Hk)%list_elem_of_lookup. apply list_lookup_insert_Some in Hk as [(_ & -> & _)|[_ Hk]]; [done|].
  by eapply list_elem_of_lookup_2.
Qed.
Lemma in_lose (rs : list receive_loop) : Draining ∈ lose <$> rs -> Draining ∈ rs.
Proof. intros (r & Hr & Hin)%list_elem_of_fmap. by destruct r. Qed.

Lemma face_exec_stays q m o f o' f' : face_exec q m o f = Some (Some (o', f')) -> face_stays q o f o' f'.
Proof.
  destruct m as [j| | | | | | |j|j|j|j|j ok|j|j|j|]; [apply call_stays|..]; intros He; cbn [face_exec] in He; repeat case_match; simplify_eq.
  all: split; cbn; try done; try congruence; try (intros; by apply lookup_app_l_Some).
  all: try (intros ?%in_insert; done).
  - intros [?%in_lose|Hin%list_elem_of_singleton]%elem_of_app; done.
  - intros ?%in_insert; [by apply in_lose|done].
  - intros _ _ Hd. destruct Hd. by eapply list_elem_of_lookup_2.
Qed.

Lemma lookup_insert_cases {A} (l : list A) (i k : nat) x y : l !! i = Some x -> <[i := y]> l !! k = l !! k \/ (k = i /\ <[i := y]> l !! k = Some y).
Proof.
  intros Hi. destruct (decide (k = i)) as [->|Hne]; [right|left; by rewrite list_lookup_insert_ne].
  split; [done|]. rewrite list_lookup_insert_eq; [done|]. by apply lookup_lt_Some in Hi.
Qed.

(** ** Threads and listeners *)

(** A thread at most one event late; [told]: [Stop] has sent it its token;
    [joined]: [Stop] has received from its [HasQuit]. *)
Record thread_inv (quit told joined : bool) (t : RunningThread) : Prop := {
  ti_late : late t <= match at_ t with Selecting => 0 | _ => Nat.b2n quit end;
  ti_quit : quit = false -> at_ t <> TellsHasQuit;
  ti_token : if told then at_ t = Selecting -> toldToQuit t = 1 else toldToQuit t = 0;
  ti_joined : at_ t = ThreadReturned <-> joined = true }.

Lemma thread_exec_inv quit told joined m t t' : (told = true -> quit = true) -> thread_inv quit told joined t ->
  thread_exec quit m t = Some t' -> thread_inv quit told joined t'.
Proof.
  intros Htq [Hl Hq Ht Hj] He. destruct t as [a q k l]. cbn in *.
  assert (joined = false -> forall x, x <> ThreadReturned -> x = ThreadReturned <-> joined = true) as Hno by (intros -> x Hx; done).
  destruct joined; [destruct Hj as [_ Hj]; specialize (Hj eq_refl); subst a; by destruct m|]. specialize (Hno eq_refl).
  destruct m, a; cbn in He; try done.
  - simplify_eq. split; cbn; [by destruct quit; cbn in *|by intros ->| |by apply Hno; destruct quit].
    destruct told; [|done]. by rewrite Htq.
  - destruct q; [done|]. simplify_eq. split; cbn; [lia|done| |done]. by destruct told.
  - destruct k; [done|]. simplify_eq. split; cbn; [lia|done| |done]. by destruct told.
Qed.

Definition thread_work (t : RunningThread) : nat :=
  2 * (queued t + toldToQuit t) + match at_ t with Testing => 4 | Selecting => 3 | TellsHasQuit => 1 | ThreadReturned => 0 end.

Lemma thread_exec_work quit m t t' : thread_exec quit m t = Some t' -> thread_work t' < thread_work t.
Proof.
  destruct t as [a q k l]. unfold thread_work. destruct m, a; cbn; intros He; try done.
  - simplify_eq. cbn. destruct quit; lia.
  - destruct q; [done|]. simplify_eq. cbn. lia.
  - destruct k; [done|]. simplify_eq. cbn. lia.
Qed.

Lemma TellToQuit_work t t' : TellToQuit t = Some t' -> thread_work t' = thread_work t + 2.
Proof. unfold TellToQuit. destruct (toldToQuit t <? 1); [|done]. intros [= <-]. unfold thread_work. cbn. lia. Qed.

(** A TCP listener that waits for connections, or has ended. *)
Definition tcp_inv (quit : bool) (l : TcpLoop) : Prop :=
  match tcp_where l with TcpTest => quit = true | TcpCall => False | TcpAccept => tcp_conn l = false -> quit = true | TcpReturned => True end.
Definition tcp_work (l : TcpLoop) : nat :=
  match tcp_where l, tcp_conn l with
  | TcpTest, true => 6 | TcpCall, true => 5 | TcpAccept, _ => 4 | TcpTest, false => 3 | TcpCall, false => 2 | TcpReturned, _ => 0 end.

Lemma tcp_exec_inv quit l r : tcp_inv quit l -> tcp_exec quit l = Some r ->
  exists l', r = Some l' /\ tcp_inv quit l'.
Proof.
  destruct l as [[] c]; unfold tcp_inv; cbn; intros Hi He; try done.
  - subst quit. simplify_eq. by eexists.
  - destruct c; [done|]. simplify_eq. eexists. split; [done|]. by apply Hi.
Qed.

Lemma tcp_exec_work quit l l' : tcp_exec quit l = Some (Some l') -> tcp_work l' < tcp_work l.
Proof. destruct l as [[] []]; cbn; intros He; simplify_eq; try done; destruct quit; cbn; lia. Qed.
Lemma tcp_close_work l : tcp_work (tcp_Close l) <= tcp_work l.
Proof. destruct l as [[] []]; cbn; lia. Qed.

Definition unix_work (u : option unix_at) : nat :=
  match u with Some NotListening => 3 | Some Accepting => 2 | Some ConnClosed => 2 | Some ListenerQuit => 1 | _ => 0 end.
