(* ===== verification/Stop.v ===== *)
(** * Stopping the daemon: what Stop does (executor/yanfd.go)

    On the model of StopModel.v: the moves a daemon has left ([daemon_work]), the
    invariant of a daemon that runs when [Stop] is called ([settled],
    [daemon_inv]), that [Stop] returns and how it leaves faces and threads
    ([stop_returns]), and what can stop the process or keep [Stop] waiting for ever
    ([stop_hazards]). *)
From S2P Require Import Prelude.
From stdpp Require Import relations.
From S2P Require Import Packet Fw Text NetAddr Uri Transport Sockets Shutdown StopModel StopFace.

(** ** The whole daemon *)

Section daemon.
Context (faceQueueSize : nat).
Context (closing_order waiting_order telling_order joining_order : list nat).
Abbreviation exec := (daemon_exec faceQueueSize closing_order waiting_order telling_order joining_order).
Abbreviation step := (daemon_step faceQueueSize closing_order waiting_order telling_order joining_order).

(** *** Work *)

Definition tell_work : nat := 5 + length joining_order.
Definition wait_work : nat := tell_work + 4 * length telling_order + 1.
Definition close_work : nat := wait_work + 2 * length waiting_order + 1.
Definition tcp_phase : nat := close_work + 16 * length closing_order + 1.
Definition stop_work (n : nat) (p : stop_at) : nat :=
  match p with
  | SetFlag => tcp_phase + n + 4 | CloseUnix => tcp_phase + n + 3 | WaitUnix => tcp_phase + n + 2 | CloseWeb => tcp_phase + n + 1
  | CloseTCP l => tcp_phase + length l
  | CloseFaces l => close_work + 16 * length l | ClosingAt _ _ l => close_work + 16 * length l + 2
  | WaitFaces l => wait_work + 2 * length l | WaitingAt _ l => wait_work + 2 * length l + 1
  | TellThreads l => tell_work + 4 * length l
  | WaitThreads l => 2 + length l
  | StopReturned => 1 | Crashed => 0
  end.

(** The most steps the daemon can still take. *)
Definition daemon_work (d : Daemon) : nat :=
  stop_work (length (tcps d)) (pc d) + unix_work (unix d) + sum_list_with tcp_work (tcps d) + sum_list_with face_work (open_faces d)
  + sum_list_with thread_work (threads d) + frames (outbox d) + 2 * replies d.

Lemma stop_exec_work d d' : stop_exec closing_order waiting_order telling_order joining_order d = Some d' -> daemon_work d' < daemon_work d.
Proof.
  destruct d as [p b u ts fs rs o n]. unfold daemon_work, stop_exec. cbn [pc unix tcps open_faces threads].
  destruct p; intros He.
  - simplify_eq. cbn. lia.
  - destruct u as [[]|]; simplify_eq/=; cbn; unfold tcp_phase, close_work, wait_work, tell_work; lia.
  - destruct u as [[]|]; simplify_eq; cbn; lia.
  - simplify_eq. cbn. rewrite length_seq. lia.
  - destruct l as [|i l]; [simplify_eq; cbn; unfold tcp_phase; lia|].
    destruct (ts !! i) as [t|] eqn:Hi; simplify_eq; cbn; [|lia]. rewrite ?length_insert.
    pose proof (sum_insert tcp_work _ _ _ (tcp_Close t) Hi). pose proof (tcp_close_work t). lia.
  - destruct l as [|i l]; [simplify_eq; cbn; unfold close_work; lia|].
    destruct (fs !! i) as [f|] eqn:Hi; [|simplify_eq; cbn; lia]. destruct (listed f); [|simplify_eq; cbn; lia]. simplify_eq. cbn.
    pose proof (sum_insert face_work _ _ _ (start_close f) Hi). pose proof (start_close_work f). lia.
  - destruct (fs !! i) as [f|] eqn:Hi; [|done]. cbn in He. destruct (calls f !! j) as [[|]|]; simplify_eq. cbn. lia.
  - destruct l as [|i l]; [simplify_eq; cbn; unfold wait_work; lia|].
    destruct (fs !! i) as [f|] eqn:Hi; [|simplify_eq; cbn; lia]. destruct (listed f); simplify_eq; cbn; lia.
  - destruct (fs !! i) as [f|] eqn:Hi; [|done]. cbn in He. destruct (runner (link f)) eqn:Es; simplify_eq. cbn.
    pose proof (sum_insert face_work _ _ _ (with_service (service (link f)) RunReturned (idleBees (link f)) f) Hi) as Hs.
    assert (face_work (with_service (service (link f)) RunReturned (idleBees (link f)) f) + 1 = face_work f)
      by (unfold face_work, link_work; cbn; rewrite Es; cbn; lia). lia.
  - destruct l as [|i l]; [simplify_eq; cbn; unfold tell_work; lia|].
    destruct (rs !! i) as [t|] eqn:Hi; [|simplify_eq; cbn; lia]. destruct (TellToQuit t) as [t'|] eqn:Ek; [|done]. cbn in He. simplify_eq. cbn.
    pose proof (sum_insert thread_work _ _ _ t' Hi). apply TellToQuit_work in Ek. lia.
  - destruct l as [|i l]; [simplify_eq; cbn; lia|].
    destruct (rs !! i) as [t|] eqn:Hi; [|simplify_eq; cbn; lia]. case_decide as Ea; [|done]. simplify_eq. cbn.
    pose proof (sum_insert thread_work _ _ _ (mkRunning ThreadReturned (queued t) (toldToQuit t) (late t)) Hi) as Hs. unfold thread_work at 2 4 in Hs. cbn in Hs. rewrite Ea in Hs. lia.
  - done.
  - done.
Qed.

Lemma crash_work d : is_crashed (pc d) = false -> daemon_work (goto Crashed d) < daemon_work d.
Proof. intros Hp. unfold daemon_work. destruct (pc d); cbn; unfold close_work, wait_work, tell_work, tcp_phase; done || lia. Qed.

Lemma daemon_exec_work m d d' : exec m d = Some d' ->
  (opens_again m = false -> daemon_work d' < daemon_work d) /\ daemon_work d' <= daemon_work d.
Proof.
  assert (Hlt : daemon_work d' < daemon_work d -> (opens_again m = false -> daemon_work d' < daemon_work d) /\ daemon_work d' <= daemon_work d)
    by (split; [done|lia]).
  unfold daemon_exec. destruct (is_crashed (pc d)) eqn:Ep; [done|]. destruct m as [| |i|i m|i m|]; intros He.
  - apply Hlt. by apply stop_exec_work.
  - apply Hlt. unfold daemon_work. destruct (unix d) as [[]|]; simplify_eq; cbn; lia.
  - apply Hlt. destruct (tcps d !! i) as [l|] eqn:Hi; [|done]. cbn [mbind option_bind] in He.
    destruct (tcp_exec (ShouldQuit d) l) as [[l'|]|] eqn:Hl; [| |done]; cbn in He; simplify_eq; [|by apply crash_work].
    unfold daemon_work; cbn. rewrite ?length_insert. pose proof (sum_insert tcp_work _ _ _ l' Hi). apply tcp_exec_work in Hl. lia.
  - destruct (open_faces d !! i) as [f|] eqn:Hi; [|done]. cbn [mbind option_bind] in He.
    destruct (face_exec faceQueueSize m (outbox d) f) as [[[o f']|]|] eqn:Hf; cbn in He; simplify_eq; [|apply Hlt; by apply crash_work].
    unfold daemon_work. cbn. pose proof (sum_insert face_work _ _ _ f' Hi). apply face_exec_work in Hf as [Hf1 Hf2].
    split; [intros Hr; specialize (Hf1 Hr); lia|lia].
  - apply Hlt. destruct (threads d !! i) as [t|] eqn:Hi; [|done]. cbn [mbind option_bind] in He.
    destruct (thread_exec (ShouldQuit d) m t) as [t'|] eqn:Ht; [|done]. cbn in He. simplify_eq. unfold daemon_work. cbn.
    pose proof (sum_insert thread_work _ _ _ t' Hi). apply thread_exec_work in Ht. lia.
  - apply Hlt. unfold daemon_work. destruct (replies d) as [|n] eqn:En; [done|]. unfold put_frame in He. destruct (_ <? _); [|done].
    cbn in He. simplify_eq. cbn. rewrite ?En. lia.
Qed.

(** However long a run is, the moves that do not open a connection again are no
    more than [daemon_work]. *)
Lemma daemon_run_work ms d d' : daemon_run faceQueueSize closing_order waiting_order telling_order joining_order ms d = Some d' ->
  length (filter (fun m => opens_again m = false) ms) + daemon_work d' <= daemon_work d.
Proof.
  revert d. induction ms as [|m ms IH]; intros d Hr; cbn [daemon_run] in Hr; [by simplify_eq|].
  destruct (exec m d) as [d1|] eqn:He; [|done]. cbn [mbind option_bind] in Hr. specialize (IH d1 Hr).
  apply daemon_exec_work in He as [H1 H2]. rewrite filter_cons. case_decide as Eo; cbn; [specialize (H1 Eo); lia|lia].
Qed.

(** *** The invariant *)

(** Which faces [Stop] has not begun to close, which it is closing, and which
    threads it has not told and not waited for, at [p]. *)
Definition to_close (p : stop_at) : list nat :=
  match p with
  | SetFlag | CloseUnix | WaitUnix | CloseWeb | CloseTCP _ => closing_order
  | CloseFaces l | ClosingAt _ _ l => l
  | _ => []
  end.
Definition closing_now (p : stop_at) : list nat := match p with ClosingAt i _ _ => [i] | _ => [] end.
Definition to_tell (p : stop_at) : list nat :=
  match p with TellThreads l => l | WaitThreads _ | StopReturned | Crashed => [] | _ => telling_order end.
Definition to_join (p : stop_at) : list nat :=
  match p with WaitThreads l => l | StopReturned | Crashed => [] | _ => joining_order end.
Definition flag_set (p : stop_at) : bool := match p with SetFlag => false | _ => true end.

(** Where [Stop] can be, and the Unix listener with it. *)
Definition stop_ok (p : stop_at) (u : option unix_at) : Prop :=
  match p with
  | SetFlag | CloseUnix => u = None \/ u = Some Accepting \/ u = Some ListenerQuit
  | WaitUnix => u = Some ConnClosed \/ u = Some ListenerQuit
  | ClosingAt _ j _ => j = 0
  | WaitingAt _ _ | Crashed => False
  | _ => True
  end.

(** The faces on the transports [ts] and the threads, numbered below [n]. *)
Record daemon_inv (ts : list FaceTransport) (n : nat) (d : Daemon) : Prop := {
  di_flag : ShouldQuit d = flag_set (pc d);
  di_stop : stop_ok (pc d) (unix d);
  di_tcps : Forall (tcp_inv (ShouldQuit d)) (tcps d);
  di_number : length (open_faces d) = length ts;
  di_faces : forall i t f, ts !! i = Some t -> open_faces d !! i = Some f ->
    face_inv t f /\ (i ∈ to_close (pc d) -> calls f = []) /\ (i ∈ closing_now (pc d) -> calls f <> []) /\
    (i ∉ to_close (pc d) ++ closing_now (pc d) -> calls f !! 0 = Some []);
  di_room : frames (outbox d) + replies d + sum_list_with (fun f => owed RemoveFace (first_call f)) (open_faces d) <= faceQueueSize;
  di_now : forall i, i ∈ closing_now (pc d) -> i < length ts;
  di_told : forall i, i < n -> i ∉ to_tell (pc d) -> ShouldQuit d = true;
  di_threads : length (threads d) = n /\
    forall i t, threads d !! i = Some t -> thread_inv (ShouldQuit d) (bool_decide (i ∉ to_tell (pc d))) (bool_decide (i ∉ to_join (pc d))) t;
  di_orders : NoDup (to_close (pc d) ++ closing_now (pc d)) /\ NoDup (to_tell (pc d)) /\ NoDup (to_join (pc d)) }.

(** A daemon that runs: its listeners wait for connections or have ended, its
    faces are up and nobody else closes them, no peer hangs up, the faces that dial
    again can, its threads work; and the queue of management's face has room for
    what management sends and for an event of every face. *)
Record settled (ts : list FaceTransport) (d : Daemon) : Prop := {
  s_begin : pc d = SetFlag /\ ShouldQuit d = false;
  s_unix : unix d = None \/ unix d = Some Accepting \/ unix d = Some ListenerQuit;
  s_tcps : Forall (fun l => (tcp_where l = TcpAccept /\ tcp_conn l = true) \/ tcp_where l = TcpReturned) (tcps d);
  s_faces : Forall2 (fun t f => exists n dial, f = open_face t n false dial /\ (reopening t = true -> dial = true)) ts (open_faces d);
  s_room : frames (outbox d) + replies d + length ts <= faceQueueSize;
  s_up : Forall (fun t => state (tbase t) = Up /\ closed t = false) ts;
  s_threads : Forall (fun t => (at_ t = Testing \/ at_ t = Selecting) /\ toldToQuit t = 0 /\ late t = 0) (threads d) }.

(** The walks reach every face and every thread. *)
Definition walks (ts : list FaceTransport) (d : Daemon) : Prop :=
  closing_order ≡ₚ seq 0 (length ts) /\ telling_order ≡ₚ seq 0 (length (threads d)) /\ joining_order ≡ₚ seq 0 (length (threads d)).

Lemma walk_in l n i : l ≡ₚ seq 0 n -> i < n -> i ∈ l.
Proof. intros -> Hi. apply elem_of_seq. lia. Qed.

Lemma settled_inv ts d : settled ts d -> walks ts d -> daemon_inv ts (length (threads d)) d.
Proof.
  intros [[Hp Hq] Hu Ht Hf Hro Hup Hr] (W1 & W2 & W3). split; rewrite ?Hp, ?Hq; cbn [to_close closing_now to_tell to_join flag_set stop_ok].
  - done.
  - done.
  - eapply Forall_impl; [exact Ht|]. intros l [[E1 E2]|E]; unfold tcp_inv; [by rewrite E1, E2|by rewrite E].
  - by rewrite (Forall2_length _ _ _ Hf).
  - intros i t f Hi Hfi. destruct (Forall2_lookup_lr _ _ _ _ _ _ Hf Hi Hfi) as (k & dial & -> & Hd).
    destruct (Forall_lookup_1 _ _ _ _ Hup Hi). split; [by apply open_face_inv|]. split; [done|]. split; [by intros ?%not_elem_of_nil|].
    intros Hn. destruct Hn. apply elem_of_app. left. apply (walk_in _ _ _ W1). by apply lookup_lt_Some in Hi.
  - assert (sum_list_with (fun f => owed RemoveFace (first_call f)) (open_faces d) = length ts); [|lia].
    clear - Hf. induction Hf as [|t f l fs (k & dial & -> & _) _ IH]; [done|]. cbn [sum_list_with length]. rewrite IH.
    pose proof (script_all (kind t)) as (_ & _ & E & _). change (first_call _) with (close_script (kind t)). by rewrite E.
  - by intros i ?%not_elem_of_nil.
  - intros i Hi Hn. destruct Hn. by apply (walk_in _ _ _ W2).
  - split; [done|]. intros i t Hi. destruct (Forall_lookup_1 _ _ _ _ Hr Hi) as (Ha & Hk & Hl). pose proof (lookup_lt_Some _ _ _ Hi).
    rewrite !bool_decide_eq_false_2 by (intros Hn; apply Hn; by eapply walk_in).
    split; cbn; [rewrite Hl; destruct Ha as [-> | ->]; lia|intros _; by destruct Ha as [-> | ->]|done|by destruct Ha as [-> | ->]].
  - rewrite app_nil_r, W1, W2, W3. auto using NoDup_seq.
Qed.

Lemma stop_ok_unix p u u' : stop_ok p (Some u) -> (u = NotListening /\ u' = Accepting) \/ (u = ConnClosed /\ u' = ListenerQuit) ->
  stop_ok p (Some u').
Proof. intros Hs [[-> ->]|[-> ->]]; destruct p; cbn in *; try done; destruct_or?; try done; auto. Qed.

(** The moves of the other goroutines. *)
Lemma others_inv ts n m d d' : Forall (fun t => state (tbase t) = Up) ts -> daemon_inv ts n d -> m <> MStop -> exec m d = Some d' ->
  daemon_inv ts n d'.
Proof.
  intros Hup [Hq Hs Ht Hn Hf Hro Hnow Htq [Hr1 Hr] Ho] Hm He. unfold daemon_exec in He. destruct (is_crashed (pc d)); [done|].
  destruct m as [| |i|i m|i m|]; [done|..].
  - destruct d as [p b u l fs rs o r]. cbn in *. destruct u as [[]|]; simplify_eq; split; cbn; try done; (eapply stop_ok_unix; [exact Hs|auto]).
  - destruct (tcps d !! i) as [l|] eqn:Hi; [|done]. cbn [mbind option_bind] in He.
    destruct (tcp_exec (ShouldQuit d) l) as [r|] eqn:Hl; [|done]. cbn in He.
    destruct (tcp_exec_inv _ _ _ (Forall_lookup_1 _ _ _ _ Ht Hi) Hl) as (l' & -> & Hl'). simplify_eq.
    split; cbn; try done. by apply Forall_insert.
  - destruct (open_faces d !! i) as [f|] eqn:Hi; [|done]. cbn [mbind option_bind] in He.
    destruct (face_exec faceQueueSize m (outbox d) f) as [r|] eqn:Hfe; [|done]. cbn in He.
    assert (is_Some (ts !! i)) as [t Hti] by (apply lookup_lt_is_Some; rewrite <- Hn; by apply lookup_lt_Some in Hi).
    destruct (Hf i t f Hti Hi) as (Hi1 & Hi2 & Hi3 & Hi4).
    destruct (face_exec_inv _ t m _ f r (Forall_lookup_1 _ _ _ _ Hup Hti) Hi1 Hfe) as (o & f' & -> & [N1 N2 N3 N4]). simplify_eq.
    split; cbn; try done; [by rewrite length_insert| |].
    + intros j t' g Hj Hg. destruct (decide (i = j)) as [<-|Hne].
      * rewrite list_lookup_insert_eq in Hg by (by apply lookup_lt_Some in Hi). simplify_eq. split; [done|]. rewrite <- N2. auto.
      * rewrite list_lookup_insert_ne in Hg by done. by apply (Hf j).
    + pose proof (sum_insert (fun f => owed RemoveFace (first_call f)) _ _ _ f' Hi). cbn beta in *. lia.
  - destruct (threads d !! i) as [t|] eqn:Hi; [|done]. cbn [mbind option_bind] in He.
    destruct (thread_exec (ShouldQuit d) m t) as [t'|] eqn:Hte; [|done]. cbn in He. simplify_eq.
    split; cbn; try done. split; [by rewrite length_insert|]. intros j r Hj. destruct (decide (i = j)) as [<-|Hne].
    + rewrite list_lookup_insert_eq in Hj by (by apply lookup_lt_Some in Hi). simplify_eq.
      eapply thread_exec_inv; [|by apply Hr|done]. rewrite bool_decide_eq_true. apply Htq. by apply lookup_lt_Some in Hi.
    + rewrite list_lookup_insert_ne in Hj by done. by apply (Hr j).
  - destruct (replies d) as [|r] eqn:Er; [done|]. unfold put_frame in He. destruct (_ <? _); [|done]. cbn in He. simplify_eq.
    split; cbn; try done. lia.
Qed.

(** A step of [Stop] that leaves the faces and threads to do, and the listeners. *)
Lemma goto_inv ts n d p u : daemon_inv ts n d -> to_close p = to_close (pc d) -> closing_now p = closing_now (pc d) ->
  to_tell p = to_tell (pc d) -> to_join p = to_join (pc d) -> flag_set p = flag_set (pc d) -> stop_ok p u ->
  daemon_inv ts n (mkDaemon p (ShouldQuit d) u (tcps d) (open_faces d) (threads d) (outbox d) (replies d)).
Proof.
  intros [Hq Hs Ht Hn Hf Hro Hnow Htq Hr Ho] E1 E2 E3 E4 E5 Hs'. split; cbn; rewrite ?E1, ?E2, ?E3, ?E4, ?E5; done.
Qed.

Lemma flag_inv ts n u l fs rs o k : daemon_inv ts n (mkDaemon SetFlag false u l fs rs o k) -> daemon_inv ts n (mkDaemon CloseUnix true u l fs rs o k).
Proof.
  intros [Hq Hs Ht Hn Hf Hro Hnow Htq [Hr1 Hr] Ho]. split; try done.
  - eapply Forall_impl; [exact Ht|]. cbn. unfold tcp_inv. intros x Hx. by destruct (tcp_where x).
  - split; [done|]. intros i t Hit. destruct (Hr i t Hit) as [T1 T2 T3 T4]. cbn in *.
    split; cbn; [destruct (at_ t); lia|done|exact T3|exact T4].
Qed.

(** The walk over the TCP listeners. *)
Lemma tcp_close_inv ts n i t d : daemon_inv ts n d -> ShouldQuit d = true -> tcps d !! i = Some t ->
  daemon_inv ts n (on_tcp i (tcp_Close t) d).
Proof.
  intros [Hq Hs Ht Hn Hf Hro Hnow Htq Hr Ho] Hq0 Hi. split; try done. cbn. apply Forall_insert; [done|].
  pose proof (Forall_lookup_1 _ _ _ _ Ht Hi) as Hti. unfold tcp_inv in *. cbn. by destruct (tcp_where t).
Qed.

(** The next face of the walk is closed already, or its closing begins. *)
Lemma begin_close_inv ts n i l d f : daemon_inv ts n d -> pc d = CloseFaces (i :: l) -> open_faces d !! i = Some f ->
  calls f = [] /\ listed f = true /\ daemon_inv ts n (goto (ClosingAt i 0 l) (on_face i (start_close f) d)).
Proof.
  intros [Hq Hs Ht Hn Hf Hro Hnow Htq Hr (O1 & O2 & O3)] Hp Hi. rewrite Hp in *. cbn in *. rewrite app_nil_r in O1.
  assert (is_Some (ts !! i)) as [t Hti] by (apply lookup_lt_is_Some; rewrite <- Hn; by apply lookup_lt_Some in Hi).
  destruct (Hf i t f Hti Hi) as (Hi1 & Hi2 & _). specialize (Hi2 ltac:(by left)). split; [done|].
  split; [by eapply open_listed|].
  destruct (start_close_inv t f Hi1 Hi2) as (Hs1 & [c Hs2] & Hs3). apply NoDup_cons in O1 as [On O1].
  split; cbn; try done.
  - by rewrite length_insert.
  - intros j t' g Hj Hg. destruct (decide (i = j)) as [<-|Hne].
    + rewrite list_lookup_insert_eq in Hg by (by apply lookup_lt_Some in Hi). simplify_eq. split; [done|]. split; [done|].
      split; [by destruct (calls (start_close f))|]. intros Hno. destruct Hno. apply elem_of_app. right. by left.
    + rewrite list_lookup_insert_ne in Hg by done. destruct (Hf j t' g Hj Hg) as (G1 & G2 & _ & G4).
      split; [done|]. split; [intros; apply G2; by right|]. split; [by intros ->%list_elem_of_singleton|].
      intros Hno. apply G4. set_solver.
  - pose proof (sum_insert (fun f => owed RemoveFace (first_call f)) _ _ _ (start_close f) Hi) as Hsum. cbn beta in Hsum.
    rewrite Hs3 in Hsum. lia.
  - intros j ->%list_elem_of_singleton. by apply lookup_lt_Some in Hti.
  - split; [|done]. apply NoDup_app. split; [done|]. split; [set_solver|by apply NoDup_singleton].
Qed.

Lemma end_close_inv ts n i l d f : daemon_inv ts n d -> pc d = ClosingAt i 0 l -> open_faces d !! i = Some f -> calls f !! 0 = Some [] ->
  daemon_inv ts n (goto (CloseFaces l) d).
Proof.
  intros [Hq Hs Ht Hn Hf Hro Hnow Htq Hr (O1 & O2 & O3)] Hp Hi H0. rewrite Hp in *. cbn in *. split; cbn; try done.
  - intros j t g Hj Hg. destruct (Hf j t g Hj Hg) as (G1 & G2 & G3 & G4). split; [done|]. split; [done|]. split; [by intros ?%not_elem_of_nil|].
    rewrite app_nil_r. intros Hno. destruct (decide (i = j)) as [<-|Hne]; [by simplify_eq|]. apply G4. set_solver.
  - by intros j ?%not_elem_of_nil.
  - split; [|done]. rewrite app_nil_r. by apply NoDup_app in O1 as [? _].
Qed.

Lemma skip_close_inv ts n i l d : daemon_inv ts n d -> pc d = CloseFaces (i :: l) -> open_faces d !! i = None ->
  daemon_inv ts n (goto (CloseFaces l) d).
Proof.
  intros [Hq Hs Ht Hn Hf Hro Hnow Htq Hr (O1 & O2 & O3)] Hp Hi. rewrite Hp in *. cbn in *. rewrite app_nil_r in O1. apply NoDup_cons in O1 as [_ O1].
  split; cbn; try done.
  - intros j t g Hj Hg. destruct (Hf j t g Hj Hg) as (G1 & G2 & G3 & G4). split; [done|]. split; [intros; apply G2; by right|]. split; [done|].
    rewrite !app_nil_r in *. intros Hno. apply G4. intros [->|?]%elem_of_cons; [congruence|done].
  - by rewrite app_nil_r.
Qed.

(** Once the faces are closed, none is left in the table. *)
Lemma closed_unlisted ts n i d f : Forall (fun t => state (tbase t) = Up /\ closed t = false) ts -> daemon_inv ts n d ->
  to_close (pc d) = [] -> closing_now (pc d) = [] -> open_faces d !! i = Some f -> listed f = false.
Proof.
  intros Hup [Hq Hs Ht Hn Hf Hro Hnow Htq Hr Ho] E1 E2 Hi.
  assert (is_Some (ts !! i)) as [t Hti] by (apply lookup_lt_is_Some; rewrite <- Hn; by apply lookup_lt_Some in Hi).
  destruct (Hf i t f Hti Hi) as (Hi1 & _ & _ & Hi4). rewrite E1, E2 in Hi4.
  destruct (Forall_lookup_1 _ _ _ _ Hup Hti) as [Hu Hc]. destruct (close_returned t f Hu Hc Hi1) as (_ & -> & _ & _).
  { apply Hi4. apply not_elem_of_nil. }
  destruct (changeState_cases Down t) as [c ->]. by rewrite decide_False by congruence.
Qed.

Lemma not_in_rest (i j : nat) l : i <> j -> bool_decide (j ∉ l) = bool_decide (j ∉ i :: l).
Proof. intros Hne. apply bool_decide_ext. rewrite not_elem_of_cons. split; [done|by intros [_ ?]]. Qed.

(** A thread is told, and waited for. *)
Lemma tell_inv ts n i l d t : daemon_inv ts n d -> pc d = TellThreads (i :: l) -> threads d !! i = Some t ->
  exists t', TellToQuit t = Some t' /\ daemon_inv ts n (goto (TellThreads l) (on_thread i t' d)).
Proof.
  intros [Hq Hs Ht Hn Hf Hro Hnow Htq [Hr1 Hr] (O1 & O2 & O3)] Hp Hi. rewrite Hp in *. cbn in *.
  destruct (Hr i t Hi) as [T1 T2 T3 T4]. rewrite bool_decide_eq_false_2 in T3 by (intros Hno; apply Hno; by left).
  apply NoDup_cons in O2 as [On O2]. unfold TellToQuit. rewrite T3. eexists. split; [done|].
  split; cbn; try done. split; [by rewrite length_insert|].
  intros j t' Hj. destruct (decide (i = j)) as [<-|Hne].
  - rewrite list_lookup_insert_eq in Hj by (by apply lookup_lt_Some in Hi). simplify_eq. split; cbn; [done|done| |done].
    by rewrite bool_decide_eq_true_2.
  - rewrite list_lookup_insert_ne in Hj by done. pose proof (Hr j t' Hj) as Hj'.
    by rewrite (not_in_rest i j l).
Qed.

Lemma join_inv ts n i l d t : daemon_inv ts n d -> pc d = WaitThreads (i :: l) -> threads d !! i = Some t -> at_ t = TellsHasQuit ->
  daemon_inv ts n (goto (WaitThreads l) (on_thread i (mkRunning ThreadReturned (queued t) (toldToQuit t) (late t)) d)).
Proof.
  intros [Hq Hs Ht Hn Hf Hro Hnow Htq [Hr1 Hr] (O1 & O2 & O3)] Hp Hi Ha. rewrite Hp in *. cbn in *.
  destruct (Hr i t Hi) as [T1 T2 T3 T4]. rewrite Ha in *.
  apply NoDup_cons in O3 as [On O3]. split; cbn; try done. split; [by rewrite length_insert|].
  intros j t' Hj. destruct (decide (i = j)) as [<-|Hne].
  - rewrite list_lookup_insert_eq in Hj by (by apply lookup_lt_Some in Hi). simplify_eq.
    split; cbn; [done|done|by destruct (bool_decide _)|by rewrite bool_decide_eq_true_2].
  - rewrite list_lookup_insert_ne in Hj by done. pose proof (Hr j t' Hj) as Hj'.
    by rewrite (not_in_rest i j l).
Qed.

Lemma skip_thread_inv ts n i l d p' : daemon_inv ts n d -> threads d !! i = None ->
  (pc d = TellThreads (i :: l) /\ p' = TellThreads l) \/ (pc d = WaitThreads (i :: l) /\ p' = WaitThreads l) ->
  daemon_inv ts n (goto p' d).
Proof.
  intros [Hq Hs Ht Hn Hf Hro Hnow Htq [Hr1 Hr] (O1 & O2 & O3)] Hi [[Hp ->]|[Hp ->]]; rewrite Hp in *; cbn in *.
  all: split; cbn; try done; try (split; [done|]; intros j t' Hj; pose proof (Hr j t' Hj) as Hj';
    rewrite (bool_decide_ext (j ∉ l) (j ∉ i :: l)); [done|]; rewrite elem_of_cons; naive_solver).
  all: split_and!; try done; by apply NoDup_cons in O2 as [_ ?] || by apply NoDup_cons in O3 as [_ ?].
Qed.

Definition up (ts : list FaceTransport) : Prop := Forall (fun t => state (tbase t) = Up /\ closed t = false) ts.

Lemma stop_inv ts n d d' : up ts -> daemon_inv ts n d ->
  stop_exec closing_order waiting_order telling_order joining_order d = Some d' -> daemon_inv ts n d'.
Proof.
  intros Hup Hi He. pose proof Hi as [Hq Hs _ _ _ _ _ _ _ _]. destruct d as [p b u l fs rs o r]. unfold stop_exec in He.
  cbn [pc ShouldQuit unix tcps open_faces threads] in *.
  destruct p as [ | | | |l1|l1|i j l1|l1|i l1|l1|l1| | ]; cbn [flag_set stop_ok] in *; subst b.
  - simplify_eq. by apply flag_inv.
  - destruct u as [[]|]; simplify_eq/=; destruct_or?; try done; apply (goto_inv ts n _ _ _ Hi); cbn; auto.
  - destruct u as [[]|]; simplify_eq. by apply (goto_inv ts n _ _ _ Hi).
  - simplify_eq. by apply (goto_inv ts n _ _ _ Hi).
  - destruct l1 as [|i l1]; simplify_eq; [by apply (goto_inv ts n _ _ _ Hi)|].
    destruct (l !! i) as [t|] eqn:Ei; [|by apply (goto_inv ts n _ _ _ Hi)].
    pose proof (tcp_close_inv ts n i t _ Hi eq_refl Ei) as Hi'. by apply (goto_inv ts n _ _ _ Hi').
  - destruct l1 as [|i l1]; [simplify_eq; by apply (goto_inv ts n _ _ _ Hi)|].
    destruct (fs !! i) as [f|] eqn:Ei; [|simplify_eq; by apply (skip_close_inv ts n i l1 _ Hi)].
    destruct (begin_close_inv ts n i l1 _ f Hi eq_refl Ei) as (Hc & Hl & Hi'). rewrite Hl in He. simplify_eq. by rewrite Hc.
  - destruct (fs !! i) as [f|] eqn:Ei; [|done]. subst j. cbn [mbind option_bind] in He.
    destruct (calls f !! 0) as [[|]|] eqn:E0; simplify_eq. by apply (end_close_inv ts n i l1 _ f Hi).
  - destruct l1 as [|i l1]; [simplify_eq; by apply (goto_inv ts n _ _ _ Hi)|].
    destruct (fs !! i) as [f|] eqn:Ei; [|simplify_eq; by apply (goto_inv ts n _ _ _ Hi)].
    rewrite (closed_unlisted ts n i _ f Hup Hi eq_refl eq_refl Ei) in He. simplify_eq. by apply (goto_inv ts n _ _ _ Hi).
  - done.
  - destruct l1 as [|i l1]; [simplify_eq; by apply (goto_inv ts n _ _ _ Hi)|].
    destruct (rs !! i) as [t|] eqn:Ei; [|simplify_eq; apply (skip_thread_inv ts n i l1 _ _ Hi Ei); auto].
    destruct (tell_inv ts n i l1 _ t Hi eq_refl Ei) as (t' & Ht & Hi'). rewrite Ht in He. cbn in He. by simplify_eq.
  - destruct l1 as [|i l1]; [simplify_eq; by apply (goto_inv ts n _ _ _ Hi)|].
    destruct (rs !! i) as [t|] eqn:Ei; [|simplify_eq; apply (skip_thread_inv ts n i l1 _ _ Hi Ei); auto].
    case_decide as Ha; [|done]. simplify_eq. by apply (join_inv ts n i l1 _ t Hi).
  - done.
  - done.
Qed.

Lemma reachable_daemon ts n d d' : up ts -> daemon_inv ts n d -> rtc step d d' -> daemon_inv ts n d'.
Proof.
  intros Hup Hi Hr. induction Hr as [d|d d1 d2 [m Hm] _ IH]; [done|]. apply IH.
  destruct m as [| |i|i m|i m|]; [unfold daemon_exec in Hm; destruct (is_crashed (pc d)); [done|]; by eapply stop_inv|..].
  all: eapply others_inv; [|exact Hi| |exact Hm]; [eapply Forall_impl; [exact Hup|by intros ? [? _]]|done].
Qed.

(** *** Progress *)

(** A step of some goroutine. *)
Definition goes_on (d : Daemon) : Prop := exists m d', opens_again m = false /\ exec m d = Some d'.
Lemma move_step m d : opens_again m = false -> is_Some (exec m d) -> goes_on d.
Proof. intros Hm [d' Hd]. by exists m, d'. Qed.

(** Until [Stop] has returned, it or a goroutine it waits for can go on. *)
Lemma stop_progress ts n d : up ts -> daemon_inv ts n d -> pc d = StopReturned \/ goes_on d.
Proof.
  intros Hup Hi. pose proof Hi as [Hq Hs Ht Hn Hf Hro Hnow Htq [Hr1 Hr] Ho].
  destruct d as [p b u l fs rs o r]. cbn [pc ShouldQuit unix tcps open_faces threads] in *.
  destruct p as [ | | | |l1|l1|i j l1|l1|i l1|l1|l1| | ]; cbn [flag_set stop_ok] in *; subst b; try done; try (by left); right.
  all: try (apply (move_step MStop); [done|by eexists]).
  - apply (move_step MStop); [done|]. unfold daemon_exec, stop_exec. cbn. destruct u as [[]|]; by eexists.
  - destruct Hs as [-> | ->]; [apply (move_step MUnix)|apply (move_step MStop)]; [done|by eexists|done|by eexists].
  - apply (move_step MStop); [done|]. unfold daemon_exec, stop_exec. cbn. destruct l1; by eexists.
  - apply (move_step MStop); [done|]. unfold daemon_exec, stop_exec. cbn. destruct l1 as [|i l1]; [by eexists|].
    destruct (fs !! i) as [f|]; [destruct (listed f)|]; by eexists.
  - subst j. assert (Hlt : i < length ts) by (apply Hnow; by left).
    destruct (fs !! i) as [f|] eqn:Ei; [|apply lookup_ge_None_1 in Ei; lia].
    assert (is_Some (ts !! i)) as [t Hti] by (by apply lookup_lt_is_Some).
    destruct (Hf i t f Hti Ei) as (Hi1 & _ & Hi3 & _). specialize (Hi3 ltac:(by left)).
    destruct (calls f !! 0) as [[|a l']|] eqn:E0; [| |by destruct (calls f)].
    + apply (move_step MStop); [done|]. unfold daemon_exec, stop_exec. cbn. rewrite Ei. cbn. rewrite E0. by eexists.
    + apply (move_step (MFace i (FCall 0))); [done|]. unfold daemon_exec. cbn [is_crashed pc open_faces]. rewrite Ei. cbn [mbind option_bind outbox].
      destruct (close_unblocked faceQueueSize t o f a l' Hi1 E0) as [f' ->]; [|by eexists].
      pose proof (sum_list_with_in f (fun f => owed RemoveFace (first_call f)) fs (list_elem_of_lookup_2 _ _ _ Ei)). cbn in *. lia.
  - apply (move_step MStop); [done|]. unfold daemon_exec, stop_exec. cbn. destruct l1 as [|i l1]; [by eexists|].
    destruct (fs !! i) as [f|]; by eexists.
  - apply (move_step MStop); [done|]. unfold daemon_exec, stop_exec. cbn. destruct l1 as [|i l1]; [by eexists|].
    destruct (rs !! i) as [t|] eqn:Ei; [|by eexists].
    destruct (tell_inv ts n i l1 _ t Hi eq_refl Ei) as (t' & -> & _). by eexists.
  - destruct l1 as [|i l1]; [apply (move_step MStop); [done|by eexists]|].
    destruct (rs !! i) as [t|] eqn:Ei; [|apply (move_step MStop); [done|]; unfold daemon_exec, stop_exec; cbn; rewrite Ei; by eexists].
    destruct (Hr i t Ei) as [T1 T2 T3 T4]. cbn in *. rewrite bool_decide_eq_true_2 in T3 by apply not_elem_of_nil.
    rewrite bool_decide_eq_false_2 in T4 by (intros Hno; apply Hno; by left).
    destruct (at_ t) eqn:Ea; [| | |by destruct T4 as [T4 _]; specialize (T4 eq_refl)].
    + apply (move_step (MThread i TTest)); [done|]. unfold daemon_exec. cbn. rewrite Ei. cbn. rewrite Ea. by eexists.
    + apply (move_step (MThread i TToken)); [done|]. unfold daemon_exec. cbn. rewrite Ei. cbn. rewrite Ea, T3 by done. by eexists.
    + apply (move_step MStop); [done|]. unfold daemon_exec, stop_exec. cbn. rewrite Ei, Ea. by eexists.
Qed.

(** C24: [Stop] of a daemon that runs ends, whatever the order in which the maps are
    walked and however the goroutines are scheduled: a run has at most [daemon_work]
    moves, not counting those by which a receive loop opens its connection again
    (which a multicast UDP face goes on doing when it is closed), and in every state
    reached before [Stop] has returned a goroutine can make one of the counted
    moves, so that the process neither stops nor hangs.  When [Stop] has returned,
    every face is down and out of the table and its link service was told, its
    transport is as one [changeState(Down)] leaves it (except that a permanent UDP
    or TCP face and a multicast UDP face have opened their connection again), and
    every forwarding thread has returned, having handled at most one event after
    the flag was set.

    Of the daemon it is supposed ([settled]) that its listeners wait for connections
    or have ended, that nobody connects, that nothing but [Stop] closes a face (no
    peer hangs up, none expires, management destroys none), that permanent and
    multicast UDP faces can dial again, and that the send queue of management's face
    has room for what management sends and for one event of every face. *)
Theorem stop_returns ts d : settled ts d -> walks ts d ->
  (forall ms d', daemon_run faceQueueSize closing_order waiting_order telling_order joining_order ms d = Some d' ->
     length (filter (fun m => opens_again m = false) ms) <= daemon_work d) /\
  forall d', rtc step d d' ->
    (pc d' = StopReturned \/ exists m d'', opens_again m = false /\ exec m d' = Some d'') /\
    (pc d' = StopReturned ->
       (forall i t, ts !! i = Some t -> exists f, open_faces d' !! i = Some f /\ of_state f = Down /\
          listed f = negb (changeState Down t).2 /\ service (link f) <> Listens /\
          tbase (of_transport f) = set_state Down (tbase t) /\
          (reopening t = false -> kind t <> InternalKind -> of_transport f = (changeState Down t).1)) /\
       length (threads d') = length (threads d) /\ Forall (fun r => at_ r = ThreadReturned /\ late r <= 1) (threads d')).
Proof.
  intros Hs Hw. assert (Hup : up ts) by apply Hs. split.
  { intros ms d' Hr. apply daemon_run_work in Hr. lia. }
  intros d' Hr. pose proof (reachable_daemon ts _ d d' Hup (settled_inv ts d Hs Hw) Hr) as Hi.
  split; [by eapply stop_progress|]. intros Hp. destruct Hi as [Hq Hs' Ht Hn Hf Hro Hnow Htq [Hr1 Hr2] Ho]. rewrite Hp in *.
  split; [|split; [done|]].
  - intros i t Hi. assert (is_Some (open_faces d' !! i)) as [f Hf'] by (apply lookup_lt_is_Some; rewrite Hn; by apply lookup_lt_Some in Hi).
    exists f. split; [done|]. destruct (Hf i t f Hi Hf') as (Hi1 & _ & _ & Hi4).
    destruct (Forall_lookup_1 _ _ _ _ Hup Hi) as [Hu Hc]. apply close_returned; [done|done|done|]. apply Hi4, not_elem_of_nil.
  - apply Forall_lookup_2. intros i r Hir. destruct (Hr2 i r Hir) as [T1 _ _ T4]. cbn in *.
    assert (Ha : at_ r = ThreadReturned) by (apply T4, bool_decide_eq_true_2, not_elem_of_nil). rewrite Ha in T1. cbn in T1. rewrite Hq in T1. done.
Qed.

(** *** Where [Stop] crashes or hangs *)

(** The queue of management's face is full, and nobody takes frames out of it. *)
Definition clogged (d : Daemon) : Prop :=
  99 <= nextEvent (outbox d) /\ faceQueueSize <= frames (outbox d) /\
  forall i f, open_faces d !! i = Some f -> Draining ∉ readers (loops f).

(** [Stop] waits in a call of [changeState], for the send loop or for room in that
    queue, or for a face, that nobody will ever answer. *)
Definition hangs (d : Daemon) : Prop :=
  match pc d with
  | ClosingAt i j _ => exists f a l, open_faces d !! i = Some f /\ calls f !! j = Some (a :: l) /\
      ((a = TellService /\ service (link f) <> Listens) \/ (a = RemoveFace /\ clogged d))
  | WaitingAt i _ => exists f, open_faces d !! i = Some f /\ of_kind f <> NullKind /\ runner (link f) = RunReturned
  | _ => False
  end.

(** Once [Stop] hangs, it hangs for ever, unless something else stops the
    process. *)
Lemma face_move_hangs d i m f o f' : hangs d -> open_faces d !! i = Some f -> face_exec faceQueueSize m (outbox d) f = Some (Some (o, f')) ->
  hangs (on_outbox o (replies d) (on_face i f' d)).
Proof.
  intros Hh Hi He. pose proof (face_exec_stays _ _ _ _ _ _ He) as [S1 S2 S3 S4 S5 S6 S7].
  assert (Hcl : clogged d -> clogged (on_outbox o (replies d) (on_face i f' d))).
  { intros (Hn & Hq & Hd). pose proof (Hd i f Hi) as Hdi. pose proof (S5 Hn Hq Hdi) as ->. split; [done|]. split; [done|].
    intros k g Hk. cbn in Hk. destruct (lookup_insert_cases _ _ k _ f' Hi) as [E|[-> E]]; rewrite E in Hk; [by apply (Hd k)|].
    simplify_eq. intros Hin. by apply Hdi, S4. }
  unfold hangs in *. cbn [on_outbox on_face pc open_faces]. destruct (pc d) as [ | | | | | |k j l|  |k l| | | | ]; try done.
  - destruct Hh as (g & a & c & Hg & Hj & Hh). destruct (lookup_insert_cases _ _ k _ f' Hi) as [E|[-> E]]; rewrite E.
    { exists g, a, c. split; [done|]. split; [done|]. destruct Hh as [?|[? ?]]; auto. }
    simplify_eq. exists f', a, c. split; [done|]. destruct Hh as [[-> Hs]|[-> Hc]].
    + split; [by apply S6|]. left. auto.
    + split; [|right; auto]. destruct Hc as (Hn & Hq & _). by apply S7.
  - destruct Hh as (g & Hg & Hk & Hr). destruct (lookup_insert_cases _ _ k _ f' Hi) as [E|[-> E]]; rewrite E; [by exists g|].
    simplify_eq. exists f'. rewrite S1. auto.
Qed.

Lemma stop_hangs d : hangs d -> stop_exec closing_order waiting_order telling_order joining_order d = None.
Proof.
  unfold hangs, stop_exec. destruct (pc d) as [ | | | | | |k j l|  |k l| | | | ]; try done.
  - intros (g & a & c & Hg & Hj & _). rewrite Hg. cbn [mbind option_bind]. by rewrite Hj.
  - intros (g & Hg & _ & Hr). rewrite Hg. cbn [mbind option_bind]. by rewrite Hr.
Qed.

Lemma hangs_step m d d' : hangs d -> exec m d = Some d' -> hangs d' \/ pc d' = Crashed.
Proof.
  intros Hh Hm. unfold daemon_exec in Hm. destruct (is_crashed (pc d)) eqn:Ec; [done|]. destruct m as [| |i|i m|i m|].
  - by rewrite stop_hangs in Hm.
  - left. destruct (unix d) as [[]|]; by simplify_eq.
  - destruct (tcps d !! i) as [l|]; [|done]. cbn [mbind option_bind] in Hm. destruct (tcp_exec _ l) as [[l'|]|]; cbn in Hm; simplify_eq; [by left|by right].
  - destruct (open_faces d !! i) as [g|] eqn:Hg; [|done]. cbn [mbind option_bind] in Hm.
    destruct (face_exec faceQueueSize m (outbox d) g) as [[[o g']|]|] eqn:He; cbn in Hm; simplify_eq; [left|by right]. by eapply face_move_hangs.
  - left. destruct (threads d !! i) as [t|]; [|done]. cbn [mbind option_bind] in Hm. destruct (thread_exec _ m t); cbn in Hm; by simplify_eq.
  - left. destruct (replies d) as [|n]; [done|]. unfold put_frame in Hm. destruct (_ <? _) eqn:El; [|done]. cbn in Hm. simplify_eq.
    unfold hangs in *. cbn [on_outbox pc open_faces]. destruct (pc d) as [ | | | | | |k j l|  |k l| | | | ]; try done.
    destruct Hh as (g & a & c & Hg & Hj & [Hh|[_ (_ & Hq & _)]]); [by exists g, a, c; auto|]. apply Nat.ltb_lt in El. lia.
Qed.

Lemma hangs_no_return d d' : hangs d -> rtc step d d' -> pc d' <> StopReturned.
Proof.
  intros Hh Hr. assert (hangs d' \/ pc d' = Crashed) as [Hh'|Hc]; [|intros Hp; unfold hangs in Hh'; by rewrite Hp in Hh'|congruence].
  induction Hr as [d|d d1 d2 [m Hm] Hr IH]; [by left|]. destruct (hangs_step m d d1 Hh Hm) as [?|Hc]; [by apply IH|right].
  destruct Hr as [d1|d1 d3 d2 [m' Hm'] _]; [done|]. unfold daemon_exec in Hm'. by rewrite Hc in Hm'.
Qed.

(** Moves of one face. *)
Fixpoint face_run (ms : list face_move) (o : Outbox) (f : OpenFace) : option (Outbox * OpenFace) :=
  match ms with
  | [] => Some (o, f)
  | m :: ms => match face_exec faceQueueSize m o f with Some (Some (o', f')) => face_run ms o' f' | _ => None end
  end.

Lemma face_run_steps ms i d f o' f' : is_crashed (pc d) = false -> open_faces d !! i = Some f -> face_run ms (outbox d) f = Some (o', f') ->
  rtc step d (on_outbox o' (replies d) (on_face i f' d)).
Proof.
  revert d f. induction ms as [|m ms IH]; intros d f Hp Hi Hr; cbn [face_run] in Hr.
  - simplify_eq. destruct d as [p b u ts fs rs o n]. unfold on_face, on_outbox. cbn in *. rewrite list_insert_id by done. constructor.
  - destruct (face_exec faceQueueSize m (outbox d) f) as [[[o1 f1]|]|] eqn:He; try done. eapply rtc_l.
    + exists (MFace i m). unfold daemon_exec. rewrite Hp, Hi. cbn [mbind option_bind]. by rewrite He.
    + assert (Hlt : i < length (open_faces d)) by (by apply lookup_lt_Some in Hi).
      set (d1 := on_outbox o1 (replies d) (on_face i f1 d)).
      assert (E : on_outbox o' (replies d) (on_face i f' d) = on_outbox o' (replies d1) (on_face i f' d1))
        by (unfold d1, on_face, on_outbox; cbn; by rewrite list_insert_insert_eq).
      change (rtc step d1 (on_outbox o' (replies d) (on_face i f' d))). rewrite E. apply (IH d1 f1); [done| |done].
      cbn. by rewrite list_lookup_insert_eq.
Qed.

(** [Stop] takes up the next face of the walk. *)
Lemma close_face_step d i l f : pc d = CloseFaces (i :: l) -> open_faces d !! i = Some f -> listed f = true ->
  step d (goto (ClosingAt i (length (calls f)) l) (on_face i (start_close f) d)).
Proof. intros Hp Hi Hl. exists MStop. unfold daemon_exec, stop_exec. by rewrite Hp, Hi, Hl. Qed.

(** A face that is as [open_face] makes it, when the call of [Stop] has come to its
    [n]th action. *)
Lemma close_face_run d i l t n h dial ms o' f' : pc d = CloseFaces (i :: l) -> open_faces d !! i = Some (open_face t n h dial) ->
  face_run ms (outbox d) (start_close (open_face t n h dial)) = Some (o', f') ->
  rtc step d (on_outbox o' (replies d) (on_face i f' (goto (ClosingAt i 0 l) d))).
Proof.
  intros Hp Hi Hr. assert (Hlt : i < length (open_faces d)) by (by apply lookup_lt_Some in Hi).
  eapply rtc_l; [by apply (close_face_step d i l _ Hp Hi)|].
  set (d1 := goto (ClosingAt i (length (calls (open_face t n h dial))) l) (on_face i (start_close (open_face t n h dial)) d)).
  assert (E : on_outbox o' (replies d) (on_face i f' (goto (ClosingAt i 0 l) d)) = on_outbox o' (replies d1) (on_face i f' d1))
    by (unfold d1, on_face, on_outbox, goto; cbn; by rewrite list_insert_insert_eq).
  rewrite E. apply (face_run_steps ms i d1 (start_close (open_face t n h dial))); [done| |done]. cbn. by rewrite list_lookup_insert_eq.
Qed.

(** The peer hangs up when [Stop] has just called [Close]: both calls of
    [changeState] pass the test, the receive loop's comes first. *)
Definition hang_up_race : list face_move :=
  [FReadFails 0; FCall 1; FCall 0; FCall 1; FCall 1; FCall 1; FCall 1; FCall 0; FCall 0; FCall 0].

Lemma hang_up_run o t n dial : state (tbase t) = Up -> on_failure t = Closes ->
  exists f l, face_run hang_up_race o (start_close (open_face t n true dial)) = Some (o, f) /\
    calls f !! 0 = Some (TellService :: l) /\ service (link f) <> Listens.
Proof.
  intros Hu Hf. unfold hang_up_race. cbn [face_run face_exec start_close open_face with_calls loops readers of_transport]. rewrite Hf.
  unfold on_failure in Hf. destruct t as [k b c]. destruct b as [x1 x2 x3 x4 x5 x6 x7 x8 st0 x9 x10]. cbn [state tbase] in Hu. subst st0.
  destruct k; try discriminate Hf; (eexists _, [RemoveFace]; split; [vm_compute; reflexivity|]; split; [reflexivity|discriminate]).
Qed.

(** The call of [Stop] up to [FaceTable.Remove]. *)
Lemma remove_run o t n h dial : state (tbase t) = Up -> kind t <> InternalKind ->
  exists ms f l, face_run ms o (start_close (open_face t n h dial)) = Some (o, f) /\ calls f !! 0 = Some (RemoveFace :: l) /\
    Draining ∉ readers (loops f).
Proof.
  intros Hu Hk. exists (replicate (match kind t with NullKind => 3 | MulticastEthernet => 4 | _ => 5 end) (FCall 0)).
  destruct t as [k b c]. destruct b as [x1 x2 x3 x4 x5 x6 x7 x8 st0 x9 x10]. cbn [state tbase kind] in *. subst st0.
  destruct k; try done; eexists _, _; (split; [vm_compute; reflexivity|]); (split; [reflexivity|]); by intros ?%list_elem_of_singleton.
Qed.

(** The call of [Stop] up to the closing of the connection, after which the read of
    a permanent face fails. *)
Lemma conn_closed_run o t n h dial : state (tbase t) = Up -> on_failure t = Redials ->
  exists f, face_run [FCall 0; FCall 0; FCall 0; FCall 0] o (start_close (open_face t n h dial)) = Some (o, f) /\
    readers (loops f) = [Reading true] /\ kind (of_transport f) = kind t /\ tbase (of_transport f) = set_state Down (tbase t) /\ dials f = dial.
Proof.
  intros Hu Hf. destruct t as [k b c]. destruct b as [x1 x2 x3 x4 x5 x6 x7 x8 st0 x9 x10]. cbn [state tbase] in Hu. subst st0.
  destruct k; try discriminate Hf; eexists; (split; [vm_compute; reflexivity|]); done.
Qed.

Lemma face_run_snoc ms m o f o1 f1 o2 f2 : face_run ms o f = Some (o1, f1) -> face_exec faceQueueSize m o1 f1 = Some (Some (o2, f2)) ->
  face_run (ms ++ [m]) o f = Some (o2, f2).
Proof.
  revert o f. induction ms as [|m' ms IH]; intros o f; cbn [face_run app]; [by intros [= -> ->] ->|].
  destruct (face_exec faceQueueSize m' o f) as [[[o' f']|]|]; try done. apply IH.
Qed.

Lemma redial_run o t n h dial : state (tbase t) = Up -> on_failure t = Redials ->
  exists ms f, face_run ms o (start_close (open_face t n h dial)) = Some (o, f) /\
    readers (loops f) = [Reopening] /\ on_failure (of_transport f) = Redials /\ dials f = dial.
Proof.
  intros Hu Hf. destruct (conn_closed_run o t n h dial Hu Hf) as (f & Hr & Hrd & Hk & Hb & Hd).
  assert (Hof : on_failure (of_transport f) = Redials) by (rewrite <- Hf; unfold on_failure; rewrite Hk, Hb; by destruct (kind t)).
  eexists _, _. split; [eapply (face_run_snoc _ (FReadAgain 0)); [exact Hr|]|].
  - cbn. rewrite Hrd, Hof. reflexivity.
  - split; [reflexivity|]. split; [|done]. rewrite <- Hof. unfold on_failure. cbn. by destruct (kind (of_transport f)).
Qed.

(** C25: What keeps [Stop] from ending.  The process stops if the goroutine of the Unix
    listener has not called [net.Listen] yet; if a TCP listener tested the flag
    before it was set and calls [Accept] when its connection has been taken away;
    and if a permanent UDP or TCP face, whose connection [Stop] has closed, cannot
    dial again.  [Stop] can wait for ever in [changeState] if the peer of a face
    that is not permanent hangs up while [Stop] closes it; for a face that was being
    closed already and is still in the table, as a worker bee can take the message
    [Stop] then waits for; and it waits for ever in [FaceTable.Remove] when the send
    queue of management's face is full and its receive loop has ended (and enough
    events were emitted before for this one to be sent). *)
Theorem stop_hazards d i l :
  (pc d = CloseUnix -> unix d = Some NotListening -> exists d', rtc step d d' /\ pc d' = Crashed) /\
  (forall c, pc d = CloseTCP (i :: l) -> tcps d !! i = Some (mkTcpLoop TcpCall c) -> exists d', rtc step d d' /\ pc d' = Crashed) /\
  (forall t n h, pc d = CloseFaces (i :: l) -> open_faces d !! i = Some (open_face t n h false) -> state (tbase t) = Up ->
     on_failure t = Redials -> exists d', rtc step d d' /\ pc d' = Crashed) /\
  (forall t n dial, pc d = CloseFaces (i :: l) -> open_faces d !! i = Some (open_face t n true dial) -> state (tbase t) = Up ->
     on_failure t = Closes ->
     exists d', rtc step d d' /\ forall d'', rtc step d' d'' -> pc d'' <> StopReturned) /\
  (forall f, pc d = WaitFaces (i :: l) -> open_faces d !! i = Some f -> listed f = true -> of_kind f <> NullKind ->
     runner (link f) = TellingQuit -> 0 < idleBees (link f) ->
     exists d', rtc step d d' /\ forall d'', rtc step d' d'' -> pc d'' <> StopReturned) /\
  (forall t n h dial, pc d = CloseFaces (i :: l) -> open_faces d !! i = Some (open_face t n h dial) -> state (tbase t) = Up -> clogged d ->
     exists d', rtc step d d' /\ forall d'', rtc step d' d'' -> pc d'' <> StopReturned).
Proof.
  split_and!.
  - intros Hp Hu. exists (goto Crashed d). split; [|done]. apply rtc_once. exists MStop. unfold daemon_exec, stop_exec. by rewrite Hp, Hu.
  - intros c Hp Hi. exists (goto Crashed (goto (CloseTCP l) (on_tcp i (mkTcpLoop TcpCall false) d))). split; [|done].
    eapply rtc_l; [exists MStop; unfold daemon_exec, stop_exec; by rewrite Hp, Hi|]. apply rtc_once. exists (MTcp i).
    unfold daemon_exec. cbn. rewrite list_lookup_insert_eq by (by apply lookup_lt_Some in Hi). done.
  - intros t n h Hp Hi Hu Hf. destruct (redial_run (outbox d) t n h false Hu Hf) as (ms & f & Hr & Hrd & Hof & Hd).
    pose proof (close_face_run d i l t n h false _ _ f Hp Hi Hr) as Hrun. eexists. split; [eapply rtc_r; [exact Hrun|]|].
    + exists (MFace i (FRedial 0)). unfold daemon_exec. cbn. rewrite list_lookup_insert_eq by (by apply lookup_lt_Some in Hi).
      cbn. rewrite Hrd, Hof, Hd. reflexivity.
    + done.
  - intros t n dial Hp Hi Hu Hf. destruct (hang_up_run (outbox d) t n dial Hu Hf) as (f & l' & Hr & H0 & Hs).
    eexists. split; [by apply (close_face_run d i l t n true dial _ _ f Hp Hi Hr)|]. intros d''. apply hangs_no_return.
    unfold hangs. cbn. exists f, TellService, l'. rewrite list_lookup_insert_eq by (by apply lookup_lt_Some in Hi). auto.
  - intros f Hp Hi Hl Hk Hs Hb. destruct (idleBees (link f)) as [|b] eqn:Eb; [lia|].
    exists (on_outbox (outbox d) (replies d) (on_face i (with_service (service (link f)) RunReturned b f) (goto (WaitingAt i l) d))). split.
    + eapply rtc_l; [exists MStop; unfold daemon_exec, stop_exec; by rewrite Hp, Hi, Hl|].
      apply (face_run_steps [FBee] i (goto (WaitingAt i l) d) f); [done|done|]. cbn. by rewrite Hs, Eb.
    + intros d''. apply hangs_no_return. unfold hangs. cbn. eexists. rewrite list_lookup_insert_eq by (by apply lookup_lt_Some in Hi). done.
  - intros t n h dial Hp Hi Hu (Hn & Hq & Hd). destruct (remove_run (outbox d) t n h dial Hu) as (ms & f & l' & Hr & H0 & Hdr).
    { intros Hk. apply (Hd i _ Hi). cbn. rewrite Hk. by left. }
    eexists. split; [by apply (close_face_run d i l t n h dial _ _ f Hp Hi Hr)|]. intros d''. apply hangs_no_return.
    unfold hangs. cbn. exists f, RemoveFace, l'. rewrite list_lookup_insert_eq by (by apply lookup_lt_Some in Hi).
    split; [done|]. split; [done|]. right. split; [done|]. split; [done|]. split; [done|]. intros j g Hg. cbn in Hg.
    destruct (lookup_insert_cases _ _ j _ f Hi) as [E|[-> E]]; rewrite E in Hg; [by apply (Hd j)|by simplify_eq].
Qed.
End daemon.

Module StopExamples.
(** A Unix stream face with a packet to send, the null face, the face of management,
    an Ethernet face, a multicast UDP face and a permanent UDP face; a Unix
    listener, a TCP listener and two threads. *)
Definition transport_of (k : TransportKind) : FaceTransport := mkFT k (tbase ShutdownExamples.transport) false.
Definition permanent_of (k : TransportKind) : FaceTransport :=
  mkFT k (set_persistency PersistencyPermanent (tbase ShutdownExamples.transport)) false.
Definition transports : list FaceTransport :=
  [transport_of UnixStream; transport_of NullKind; transport_of InternalKind; transport_of MulticastEthernet; transport_of MulticastUDP;
   permanent_of UnicastUDP].
Definition daemon : Daemon :=
  mkDaemon SetFlag false (Some Accepting) [mkTcpLoop TcpAccept true] ((fun t => open_face t 1 false true) <$> transports)
    [mkRunning Selecting 2 0 0; mkRunning Testing 0 0 0] (mkOutbox 3 200) 2.

(** [Stop] of this daemon, by one of the possible orders of its goroutines. *)
Definition close_moves (i n : nat) : list daemon_move := MStop :: replicate n (MFace i (FCall 0)) ++ [MStop].
Definition stop_moves : list daemon_move :=
  [MStop; MStop; MUnix; MStop; MStop; MThread 0 THandle; MStop; MTcp 0; MStop; MReply; MFace 2 (FDrain 0); MFace 0 FSend]
  ++ close_moves 3 6 ++ [MFace 3 (FCapture 0)] ++ close_moves 0 6
  ++ [MFace 0 FWriteFails; MFace 0 (FReadFails 0); MFace 0 (FCall 1); MFace 0 (FCall 2); MFace 0 FImplLoop; MFace 0 FBee]
  ++ close_moves 4 6 ++ [MFace 4 (FReadAgain 0); MFace 4 (FListen 0 false); MFace 4 (FReadAgain 0); MFace 4 (FListen 0 true)]
  ++ close_moves 1 4 ++ close_moves 2 6 ++ [MFace 2 (FQuitLoop 0); MFace 2 FQuitComponent; MReply]
  ++ close_moves 5 6 ++ [MFace 5 (FReadAgain 0); MFace 5 (FRedial 0); MFace 5 FSend]
  ++ replicate 11 MStop ++ [MThread 0 TTest; MThread 1 TTest] ++ replicate 3 MStop.

Definition queue_size : nat := 16.
Definition stopped_daemon : option Daemon :=
  daemon_run queue_size [3; 0; 4; 1; 2; 5] [0; 1; 2; 3; 4; 5] [1; 0] [0; 1] stop_moves daemon.

Lemma daemon_run_steps q c w t j ms d d' : daemon_run q c w t j ms d = Some d' -> rtc (daemon_step q c w t j) d d'.
Proof.
  revert d. induction ms as [|m ms IH]; intros d Hr; cbn [daemon_run] in Hr; [by simplify_eq; constructor|].
  destruct (daemon_exec q c w t j m d) as [d1|] eqn:E; [|done]. eapply rtc_l; [by exists m|by apply IH].
Qed.

Lemma daemon_settled : settled queue_size transports daemon.
Proof.
  split.
  - done.
  - by right; left.
  - constructor; [by left|constructor].
  - unfold daemon. cbn [open_faces]. apply Forall2_fmap_r, Forall2_same_length_lookup_2; [done|]. intros i x y Hx Hy. simplify_eq.
    by exists 1, true.
  - vm_compute. lia.
  - vm_compute. repeat constructor.
  - repeat (constructor; [cbn; auto|]); constructor.
Qed.

Lemma daemon_walks : walks [3; 0; 4; 1; 2; 5] [1; 0] [0; 1] transports daemon.
Proof. split_and!; vm_compute; solve_Permutation. Qed.
Lemma stopped_reached d' : stopped_daemon = Some d' ->
  rtc (daemon_step queue_size [3; 0; 4; 1; 2; 5] [0; 1; 2; 3; 4; 5] [1; 0] [0; 1]) daemon d'.
Proof. unfold stopped_daemon. apply daemon_run_steps. Qed.
Lemma stopped_returned : pc <$> stopped_daemon = Some StopReturned.
Proof. vm_compute. reflexivity. Qed.

Lemma stop_returns_witness :
  exists d', stopped_daemon = Some d' /\ pc d' = StopReturned /\ length (threads d') = 2 /\
    Forall (fun r => at_ r = ThreadReturned /\ late r <= 1) (threads d').
Proof.
  pose proof stopped_returned as Hp. pose proof stopped_reached as Hr. destruct stopped_daemon as [d'|]; [|discriminate].
  exists d'. split; [reflexivity|]. injection Hp as Hp. specialize (Hr d' eq_refl).
  destruct (stop_returns queue_size [3; 0; 4; 1; 2; 5] [0; 1; 2; 3; 4; 5] [1; 0] [0; 1] transports daemon daemon_settled daemon_walks) as [_ Hs].
  destruct (Hs d' Hr) as [_ Hf]. destruct (Hf Hp) as (_ & Hl & Ht). split; [exact Hp|]. split; [exact Hl|exact Ht].
Defined.

(** The Unix face of that daemon, when its peer may hang up. *)
Definition hanging : Daemon :=
  mkDaemon (CloseFaces [0]) true None [] [open_face (transport_of UnixStream) 0 true true] [] (mkOutbox 0 200) 0.

Lemma stop_hazards_witness :
  exists d', rtc (daemon_step queue_size [0] [0] [] []) hanging d' /\
    forall d'', rtc (daemon_step queue_size [0] [0] [] []) d' d'' -> pc d'' <> StopReturned.
Proof.
  destruct (stop_hazards queue_size [0] [0] [] [] hanging 0 []) as (_ & _ & _ & Hh & _).
  apply (Hh (transport_of UnixStream) 0 true); vm_compute; reflexivity.
Defined.

(** A permanent UDP face that cannot dial again stops the process. *)
Definition permanent : Daemon :=
  mkDaemon (CloseFaces [0]) true None [] [open_face (permanent_of UnicastUDP) 0 false false] [] (mkOutbox 0 200) 0.
Definition redial_moves : list daemon_move := MStop :: replicate 4 (MFace 0 (FCall 0)) ++ [MFace 0 (FReadAgain 0); MFace 0 (FRedial 0)].
Lemma permanent_crashes : pc <$> daemon_run queue_size [0] [0] [] [] redial_moves permanent = Some Crashed.
Proof. vm_compute. reflexivity. Qed.

(** The queue of management's face is full, its loop has ended: the call of [Stop]
    stays before [FaceTable.Remove]. *)
Definition clogged_daemon : Daemon :=
  mkDaemon (CloseFaces [0]) true None [] [open_face (transport_of UnixStream) 0 false true] [] (mkOutbox 16 200) 0.
Lemma clogged_blocks :
  ((fun d => calls <$> open_faces d !! 0) <$> daemon_run queue_size [0] [0] [] [] (MStop :: replicate 5 (MFace 0 (FCall 0))) clogged_daemon)
    = Some (Some [[RemoveFace]]) /\
  daemon_run queue_size [0] [0] [] [] (MStop :: replicate 6 (MFace 0 (FCall 0))) clogged_daemon = None.
Proof. split; vm_compute; reflexivity. Qed.
End StopExamples.
