(* ===== verification/Configure.v ===== *)
(** * Configuration and the start of the threads: core/config.go, face/init.go,
    fw/init.go, table/init.go, mgmt/init.go, executor/yanfd.go

    [Configure] of each package reads its settings from the TOML tree, with a
    default for each; the daemon then makes its FIB, queues and forwarding
    threads of them.  The TOML library is a parameter: [Get] and [GetArray] are
    the lookups of a dotted key.  [Err] is the end of the process by
    [LogFatal]. *)
From S2P Require Import Prelude Enc FibSpec FibEquiv Rib.
From S2P Require Import DeadNonce Packet Fw Text NetAddr Uri Transport Sockets LinkService Faces Listeners Executor.
Local Open Scope Z_scope.

(** ** core/config.go *)

(** A value of the tree: the types the code asks for, or another (a float, a
    date, a table, an array of other things). *)
Inductive toml := TomlBool (b : bool) | TomlInt (v : Z) | TomlString (s : list byte) | TomlStrings (l : list (list byte)) | TomlOther.

Definition tree : Type := String.string -> option toml.

Section config.
Context (Get GetArray : tree).

Definition GetConfigBoolDefault (key : String.string) (def : bool) : bool :=
  match Get key with Some (TomlBool val) => val | _ => def end.
Definition GetConfigIntDefault (key : String.string) (def : Z) : Z :=
  match Get key with Some (TomlInt val) => if (- 2 ^ 31 <=? val) && (val <=? 2 ^ 31 - 1) then val else def | _ => def end.
Definition GetConfigStringDefault (key : String.string) (def : list byte) : list byte :=
  match Get key with Some (TomlString val) => val | _ => def end.
Definition GetConfigUint16Default (key : String.string) (def : Z) : Z :=
  match Get key with Some (TomlInt val) => if (0 <? val) && (val <=? 65535) then val else def | _ => def end.
(** [None] is nil. *)
Definition GetConfigArrayString (key : String.string) : option (list (list byte)) :=
  match GetArray key with Some (TomlStrings val) => Some val | _ => None end.
End config.

(** [filepath.Clean], [Join] and [Dir] (Unix), which work on the text alone: the
    elements between the slashes, innermost first; [..] takes the one before it
    away, and stays at the beginning of a relative path. *)
Definition slash : byte := x2f.
Definition clean_step (rooted : bool) (acc : list (list byte)) (e : list byte) : list (list byte) :=
  if bool_decide (e = []) || bool_decide (e = gs ".") then acc
  else if bool_decide (e = gs "..") then
    match acc with
    | e' :: acc' => if bool_decide (e' = gs "..") then e :: acc else acc'
    | [] => if rooted then [] else [e]
    end
  else e :: acc.
Definition IsAbs (path : list byte) : bool := bool_decide (head path = Some slash).
Definition join_slash (es : list (list byte)) : list byte := drop 1 (concat (map (cons slash) es)).
Definition Clean (path : list byte) : list byte :=
  let rooted := IsAbs path in
  let body := join_slash (rev (foldl (clean_step rooted) [] (split_at slash path))) in
  if rooted then slash :: body else if bool_decide (body = []) then gs "." else body.
Definition Join (dir target : list byte) : list byte :=
  match dir, target with
  | [], [] => []
  | [], t => Clean t
  | d, [] => Clean d
  | d, t => Clean (d ++ slash :: t)
  end.
Definition Dir (file : list byte) : list byte :=
  let es := split_at slash file in Clean (concat (map (fun e => e ++ [slash]) (take (length es - 1) es))).

Definition ResolveConfigFileRelPath (configFileDir target : list byte) : list byte :=
  if IsAbs target then target else Join configFileDir target.

(** ** The settings of the packages *)

Record FaceSettings := mkFaceSettings {
  s_faceQueueSize : Z; s_congestionMarking : bool; s_face_lockThreads : bool; s_ndnEtherType : Z;
  s_EthernetMulticastAddress : list byte; s_UDPUnicastPort : Z; s_TCPUnicastPort : Z; s_UDPMulticastPort : Z;
  s_udp4MulticastAddress : list byte; s_udp6MulticastAddress : list byte;
  s_udpLifetime : Z; s_tcpLifetime : Z; s_UnixSocketPath : list byte }.
Record FwSettings := mkFwSettings { s_fwQueueSize : Z; s_NumFwThreads : Z; s_fw_lockThreads : bool }.
Record TableSettings := mkTableSettings {
  s_tableQueueSize : Z; s_csCapacity : Z; s_csAdmit : bool; s_csServe : bool; s_csReplacementPolicy : String.string;
  s_deadNonceListLifetime : Z; s_regions : list Name }.

(** What [Start] reads: algorithm and depth of the FIB, what there is to start. *)
Record StartSettings := mkStartSettings { s_fibTableAlgorithm : list byte; s_m : Z; s_start : StartConfig }.

Record Settings := mkSettings {
  face_settings : FaceSettings; fw_settings : FwSettings; table_settings : TableSettings; s_allow_localhop : bool }.

(** [time.Second] and [time.Millisecond], in nanoseconds. *)
Definition Second : Z := 1000000000.
Definition Millisecond : Z := 1000000.

Section configure.
Context `{EncOps} (Get GetArray : tree).
(** [os.ExpandEnv], and go-ndn's parser of names. *)
Context (ExpandEnv : list byte -> list byte) (NameFromStr : list byte -> option Name).

Definition face_Configure : FaceSettings := {|
  s_faceQueueSize := GetConfigIntDefault Get "faces.queue_size" 1024;
  s_congestionMarking := GetConfigBoolDefault Get "faces.congestion_marking" true;
  s_face_lockThreads := GetConfigBoolDefault Get "faces.lock_threads_to_cores" false;
  s_ndnEtherType := GetConfigIntDefault Get "faces.ethernet.ethertype" 0x8624;
  s_EthernetMulticastAddress := GetConfigStringDefault Get "faces.ethernet.multicast_address" (gs "01:00:5e:00:17:aa");
  s_UDPUnicastPort := GetConfigUint16Default Get "faces.udp.port_unicast" 6363;
  s_TCPUnicastPort := GetConfigUint16Default Get "faces.tcp.port_unicast" 6363;
  s_UDPMulticastPort := GetConfigUint16Default Get "faces.udp.port_multicast" 56363;
  s_udp4MulticastAddress := GetConfigStringDefault Get "faces.udp.multicast_address_ipv4" (gs "224.0.23.170");
  s_udp6MulticastAddress := GetConfigStringDefault Get "faces.udp.multicast_address_ipv6" (gs "ff02::114");
  s_udpLifetime := i64 (GetConfigUint16Default Get "faces.udp.lifetime" 600 * Second);
  s_tcpLifetime := i64 (GetConfigUint16Default Get "faces.tcp.lifetime" 600 * Second);
  s_UnixSocketPath := ExpandEnv (GetConfigStringDefault Get "faces.unix.socket_path" (gs "/run/nfd/nfd.sock")) |}.

Definition fw_Configure : FwSettings := {|
  s_fwQueueSize := GetConfigIntDefault Get "fw.queue_size" 1024;
  s_NumFwThreads := GetConfigIntDefault Get "fw.threads" 8;
  s_fw_lockThreads := GetConfigBoolDefault Get "fw.lock_threads_to_cores" false |}.

(** The regions are added one by one; a name that does not parse ends the
    process. *)
Fixpoint add_regions (names : list (list byte)) (regions : list Name) : outcome (list Name) :=
  match names with
  | [] => Ok regions
  | region :: names =>
      match NameFromStr region with
      | Some name => add_regions names (DeadNonce.Add regions name)
      | None => Err (ErrNew "Could not add name to table")
      end
  end.

(** Every replacement policy is taken for LRU. *)
Definition replacement_policy (name : list byte) : String.string :=
  if bool_decide (name = gs "lru") then "lru"%string else "lru"%string.

Definition table_Configure : outcome TableSettings :=
  let* regions := add_regions (default [] (GetConfigArrayString GetArray "tables.network_region.regions")) [] in
  Ok {| s_tableQueueSize := GetConfigIntDefault Get "tables.queue_size" 1024;
        s_csCapacity := GetConfigUint16Default Get "tables.content_store.capacity" 1024;
        s_csAdmit := GetConfigBoolDefault Get "tables.content_store.admit" true;
        s_csServe := GetConfigBoolDefault Get "tables.content_store.serve" true;
        s_csReplacementPolicy := replacement_policy (GetConfigStringDefault Get "tables.content_store.replacement_policy" (gs "lru"));
        s_deadNonceListLifetime := i64 (GetConfigIntDefault Get "tables.dead_nonce_list.lifetime" 6000 * Millisecond);
        s_regions := regions |}.

Definition mgmt_Configure : bool := GetConfigBoolDefault Get "mgmt.allow_localhop" false.

(** [NewYaNFD]: the settings of all packages. *)
Definition configure_all : outcome Settings :=
  let face := face_Configure in
  let fw := fw_Configure in
  let* table := table_Configure in
  Ok (mkSettings face fw table mgmt_Configure).

(** The switches of the command line that disable transports. *)
Context (DisableEthernet DisableUnix : bool) (configFileDir : list byte).

Definition start_settings (f : FaceSettings) : StartSettings := {|
  s_fibTableAlgorithm := GetConfigStringDefault Get "tables.fib.algorithm" (gs "nametree");
  s_m := GetConfigUint16Default Get "tables.fib.hashtable.m" 5;
  s_start := {|
    ethEnabled := GetConfigBoolDefault Get "faces.ethernet.enabled" true && negb DisableEthernet;
    tcpEnabled := GetConfigBoolDefault Get "faces.tcp.enabled" true;
    unixEnabled := GetConfigBoolDefault Get "faces.unix.enabled" true && negb DisableUnix;
    wsEnabled := GetConfigBoolDefault Get "faces.websocket.enabled" true;
    cfgUDPUnicastPort := s_UDPUnicastPort f; cfgUDPMulticastPort := s_UDPMulticastPort f; cfgTCPUnicastPort := s_TCPUnicastPort f;
    cfgEthernetMulticast := s_EthernetMulticastAddress f; cfg_udp4Multicast := s_udp4MulticastAddress f;
    cfg_udp6Multicast := s_udp6MulticastAddress f; cfgUnixSocketPath := s_UnixSocketPath f;
    cfgWebSocket := {|
      wsBind := GetConfigStringDefault Get "faces.websocket.bind" [];
      wsPort := GetConfigUint16Default Get "faces.websocket.port" 9696;
      wsTLSEnabled := GetConfigBoolDefault Get "faces.websocket.tls_enabled" false;
      wsTLSCert := ResolveConfigFileRelPath configFileDir (GetConfigStringDefault Get "faces.websocket.tls_cert" []);
      wsTLSKey := ResolveConfigFileRelPath configFileDir (GetConfigStringDefault Get "faces.websocket.tls_key" []) |} |} |}.

(** ** The tables and threads [Start] makes *)

Definition MaxFwThreads : Z := 32.

(** [make(chan T, n)] panics when [n] is negative. *)
Definition make_queue (n : Z) : outcome nat := if n <? 0 then Panic else Ok (Z.to_nat n).

(** The daemon before its interfaces are looked at: FIB, size of the faces'
    queues, forwarding threads and what they read of the settings. *)
Record Booted := mkBooted { b_fib : fib_table; b_faceQueue : nat; b_threads : list Thread; b_config : Config; b_start : StartConfig }.

Definition boot_threads (s : Settings) (queue : nat) : list Thread * Config :=
  ((fun i => NewThread (Z.of_nat i)) <$> seq 0 (Z.to_nat (s_NumFwThreads (fw_settings s))),
   mkConfig (s_csAdmit (table_settings s)) (s_csServe (table_settings s)) (s_csCapacity (table_settings s))
     (s_deadNonceListLifetime (table_settings s)) queue).

(** [NewYaNFD] and [Start] up to the interfaces: the FIB; the null face and its
    queue; then the number of threads is checked, and each makes its queues. *)
Definition boot : outcome Booted :=
  let* s := configure_all in
  let st := start_settings (face_settings s) in
  match CreateFIBTable (Stdlib.Strings.String.string_of_list_byte (s_fibTableAlgorithm st)) (s_m st)
          (NameFromStr (gs "/localhost/nfd/strategy/best-route/v=1")) with
  | None => Err (ErrNew "Unrecognized FIB table algorithm specified")
  | Some fib =>
      let* faceQueue := make_queue (s_faceQueueSize (face_settings s)) in
      let n := s_NumFwThreads (fw_settings s) in
      if (n <? 1) || (MaxFwThreads <? n) then Err (ErrNew "Number of forwarding threads must be in range [1, 32]")
      else
        let* queue := make_queue (s_fwQueueSize (fw_settings s)) in
        let '(threads, config) := boot_threads s queue in
        Ok (mkBooted fib faceQueue threads config (s_start st))
  end.
End configure.

(** ** Types of the settings *)

Inductive setting_type := TyBool | TyInt | TyUint16 | TyString | TyStrings.

(** Every key the code reads, with the type it reads it at. *)
Definition schema : list (String.string * setting_type) := [
  ("faces.queue_size"%string, TyInt); ("faces.congestion_marking"%string, TyBool); ("faces.lock_threads_to_cores"%string, TyBool);
  ("faces.ethernet.enabled"%string, TyBool); ("faces.ethernet.ethertype"%string, TyInt); ("faces.ethernet.multicast_address"%string, TyString);
  ("faces.udp.port_unicast"%string, TyUint16); ("faces.udp.port_multicast"%string, TyUint16);
  ("faces.udp.multicast_address_ipv4"%string, TyString); ("faces.udp.multicast_address_ipv6"%string, TyString);
  ("faces.udp.lifetime"%string, TyUint16); ("faces.tcp.enabled"%string, TyBool); ("faces.tcp.port_unicast"%string, TyUint16);
  ("faces.tcp.lifetime"%string, TyUint16); ("faces.unix.enabled"%string, TyBool); ("faces.unix.socket_path"%string, TyString);
  ("faces.websocket.enabled"%string, TyBool); ("faces.websocket.bind"%string, TyString); ("faces.websocket.port"%string, TyUint16);
  ("faces.websocket.tls_enabled"%string, TyBool); ("faces.websocket.tls_cert"%string, TyString); ("faces.websocket.tls_key"%string, TyString);
  ("fw.queue_size"%string, TyInt); ("fw.threads"%string, TyInt); ("fw.lock_threads_to_cores"%string, TyBool);
  ("mgmt.allow_localhop"%string, TyBool); ("tables.queue_size"%string, TyInt);
  ("tables.content_store.capacity"%string, TyUint16); ("tables.content_store.admit"%string, TyBool);
  ("tables.content_store.serve"%string, TyBool); ("tables.content_store.replacement_policy"%string, TyString);
  ("tables.dead_nonce_list.lifetime"%string, TyInt); ("tables.network_region.regions"%string, TyStrings);
  ("tables.fib.algorithm"%string, TyString); ("tables.fib.hashtable.m"%string, TyUint16)].

Definition type_of (key : String.string) : option setting_type :=
  snd <$> find (fun '(k, _) => String.eqb k key) schema.

Definition has_type (ty : setting_type) (v : toml) : bool :=
  match ty, v with
  | TyBool, TomlBool _ | TyString, TomlString _ | TyStrings, TomlStrings _ => true
  | TyInt, TomlInt v => (- 2 ^ 31 <=? v) && (v <=? 2 ^ 31 - 1)
  | TyUint16, TomlInt v => (0 <? v) && (v <=? 65535)
  | _, _ => false
  end.

(** The tree without the keys that are not read and the values of another type
    or out of range. *)
Definition well_typed (g : tree) : tree := fun key =>
  ty ← type_of key; v ← g key; if has_type ty v then Some v else None.

Section typed.
Context (g : tree) (key : String.string).

Lemma bool_typed def : type_of key = Some TyBool -> GetConfigBoolDefault (well_typed g) key def = GetConfigBoolDefault g key def.
Proof. intros E. unfold GetConfigBoolDefault, well_typed. rewrite E. cbn. by destruct (g key) as [[]|]. Qed.
Lemma int_typed def : type_of key = Some TyInt -> GetConfigIntDefault (well_typed g) key def = GetConfigIntDefault g key def.
Proof.
  intros E. unfold GetConfigIntDefault, well_typed. rewrite E. cbn [mbind option_bind].
  destruct (g key) as [[]|]; try done. cbn [mbind option_bind has_type]. destruct (_ && _) eqn:Ev; [by rewrite Ev|done].
Qed.
Lemma string_typed def : type_of key = Some TyString -> GetConfigStringDefault (well_typed g) key def = GetConfigStringDefault g key def.
Proof. intros E. unfold GetConfigStringDefault, well_typed. rewrite E. cbn. by destruct (g key) as [[]|]. Qed.
Lemma uint16_typed def : type_of key = Some TyUint16 -> GetConfigUint16Default (well_typed g) key def = GetConfigUint16Default g key def.
Proof.
  intros E. unfold GetConfigUint16Default, well_typed. rewrite E. cbn [mbind option_bind].
  destruct (g key) as [[]|]; try done. cbn [mbind option_bind has_type]. destruct (_ && _) eqn:Ev; [by rewrite Ev|done].
Qed.
Lemma strings_typed : type_of key = Some TyStrings -> GetConfigArrayString (well_typed g) key = GetConfigArrayString g key.
Proof. intros E. unfold GetConfigArrayString, well_typed. rewrite E. cbn. by destruct (g key) as [[]|]. Qed.

Lemma int_range def : - 2 ^ 31 <= def < 2 ^ 31 -> - 2 ^ 31 <= GetConfigIntDefault g key def < 2 ^ 31.
Proof. intros Hd. unfold GetConfigIntDefault. destruct (g key) as [[]|]; try done. destruct (_ && _) eqn:E; [lia|done]. Qed.
Lemma uint16_range def : 0 < def < 2 ^ 16 -> 0 < GetConfigUint16Default g key def < 2 ^ 16.
Proof. intros Hd. unfold GetConfigUint16Default. destruct (g key) as [[]|]; try done. destruct (_ && _) eqn:E; [lia|done]. Qed.
End typed.

#[local] Ltac typed := repeat (rewrite bool_typed by reflexivity); repeat (rewrite int_typed by reflexivity);
  repeat (rewrite string_typed by reflexivity); repeat (rewrite uint16_typed by reflexivity); repeat (rewrite strings_typed by reflexivity).

Section laws.
Context `{EncLaws} (Get GetArray : tree) (ExpandEnv : list byte -> list byte) (NameFromStr : list byte -> option Name).
Context (DisableEthernet DisableUnix : bool) (configFileDir : list byte).

Lemma face_typed : face_Configure (well_typed Get) ExpandEnv = face_Configure Get ExpandEnv.
Proof. unfold face_Configure. by typed. Qed.
Lemma fw_typed : fw_Configure (well_typed Get) = fw_Configure Get.
Proof. unfold fw_Configure. by typed. Qed.
Lemma table_typed : table_Configure (well_typed Get) (well_typed GetArray) NameFromStr = table_Configure Get GetArray NameFromStr.
Proof. unfold table_Configure. by typed. Qed.
Lemma configure_typed : configure_all (well_typed Get) (well_typed GetArray) ExpandEnv NameFromStr = configure_all Get GetArray ExpandEnv NameFromStr.
Proof. unfold configure_all, mgmt_Configure. rewrite face_typed, fw_typed, table_typed. by typed. Qed.
Lemma start_typed f : start_settings (well_typed Get) DisableEthernet DisableUnix configFileDir f =
  start_settings Get DisableEthernet DisableUnix configFileDir f.
Proof. unfold start_settings. by typed. Qed.

Lemma add_regions_spec names : forall regions, NoDup regions ->
  match add_regions NameFromStr names regions with
  | Ok rs => NoDup rs /\ exists parsed, NameFromStr <$> names = Some <$> parsed /\ (forall n, n ∈ rs <-> n ∈ regions \/ n ∈ parsed)
  | Err _ => exists name, name ∈ names /\ NameFromStr name = None
  | Panic => False
  end.
Proof.
  induction names as [|name names IH]; intros regions Hnd; cbn [add_regions].
  - split; [done|]. exists []. split; [done|]. intros n. rewrite elem_of_nil. tauto.
  - destruct (NameFromStr name) as [n|] eqn:E; [|exists name; split; [by left|done]].
    assert (Hin : existsb (fun region => Name_Equal region n) regions = bool_decide (n ∈ regions)).
    { apply eq_true_iff_eq. rewrite existsb_exists, bool_decide_eq_true. setoid_rewrite Name_Equal_spec. setoid_rewrite bool_decide_eq_true.
      split; [intros (x & Hx & ->); by apply list_elem_of_In|intros Hn; exists n; split; [by apply list_elem_of_In|done]]. }
    unfold DeadNonce.Add. rewrite Hin. goal_if Hdec.
    + specialize (IH regions Hnd). destruct (add_regions _ names regions) as [rs|e|]; [|by destruct IH as (x & ? & ?); exists x; split; [by right|]|done].
      destruct IH as (Hrs & parsed & Ep & Hm). apply bool_decide_eq_true in Hdec. split; [done|]. exists (n :: parsed). cbn.
      rewrite E, Ep. split; [done|]. intros m. rewrite Hm, elem_of_cons. split; [tauto|intros [?|[->|?]]; tauto].
    + apply bool_decide_eq_false in Hdec. assert (Hnd' : NoDup (regions ++ [n])).
      { apply NoDup_app. split_and!; [done| |apply NoDup_singleton]. intros x Hx ->%list_elem_of_singleton. done. }
      specialize (IH _ Hnd'). destruct (add_regions _ names _) as [rs|e|]; [|by destruct IH as (x & ? & ?); exists x; split; [by right|]|done].
      destruct IH as (Hrs & parsed & Ep & Hm). split; [done|]. exists (n :: parsed). cbn. rewrite E, Ep. split; [done|].
      intros m. rewrite Hm, elem_of_app, list_elem_of_singleton, elem_of_cons. tauto.
Qed.

(** The ranges of the settings. *)
Definition int32 (v : Z) : Prop := - 2 ^ 31 <= v < 2 ^ 31.
Definition port_number (v : Z) : Prop := 0 < v < 2 ^ 16.
Definition face_in_range (f : FaceSettings) : Prop :=
  int32 (s_faceQueueSize f) /\ int32 (s_ndnEtherType f) /\
  port_number (s_UDPUnicastPort f) /\ port_number (s_TCPUnicastPort f) /\ port_number (s_UDPMulticastPort f) /\
  Second <= s_udpLifetime f <= 65535 * Second /\ Second <= s_tcpLifetime f <= 65535 * Second.
Definition table_in_range (t : TableSettings) : Prop :=
  int32 (s_tableQueueSize t) /\ 0 < s_csCapacity t < 2 ^ 16 /\ s_csReplacementPolicy t = "lru"%string /\
  (exists ms, int32 ms /\ s_deadNonceListLifetime t = ms * Millisecond) /\ NoDup (s_regions t).

Lemma face_range : face_in_range (face_Configure Get ExpandEnv).
Proof.
  pose proof (uint16_range Get "faces.udp.lifetime" 600 ltac:(lia)). pose proof (uint16_range Get "faces.tcp.lifetime" 600 ltac:(lia)).
  unfold face_in_range, int32, port_number, Second. cbn [face_Configure s_faceQueueSize s_ndnEtherType s_UDPUnicastPort s_TCPUnicastPort
    s_UDPMulticastPort s_udpLifetime s_tcpLifetime]. unfold Second. rewrite !i64_small by lia.
  split_and!; try lia; (apply int_range || apply uint16_range); lia.
Qed.

Lemma table_range t : table_Configure Get GetArray NameFromStr = Ok t -> table_in_range t.
Proof.
  unfold table_Configure. pose proof (add_regions_spec (default [] (GetConfigArrayString GetArray "tables.network_region.regions")) [] (NoDup_nil_2)) as Hr.
  destruct (add_regions _ _ _) as [rs|e|]; cbn [outcome_bind]; [|done|done]. intros [= <-].
  pose proof (int_range Get "tables.dead_nonce_list.lifetime" 6000 ltac:(lia)) as Hd.
  unfold table_in_range. cbn. split_and!; [apply int_range; lia|apply uint16_range; lia|apply uint16_range; lia| | |apply Hr].
  - unfold replacement_policy. by case_bool_decide.
  - eexists. split; [exact Hd|]. unfold Millisecond. rewrite i64_small; [done|lia].
Qed.

(** C28: the configuration is read at its types.  A value of another type than the
    code asks for, or out of the range of its setting, and every key that is not
    in the schema, is as if it were not there, for the settings of all packages,
    what is started, and whether the daemon comes up.  Whatever the file holds,
    the settings are in range: ports, capacities and lifetimes are positive and
    fit 16 bits, no product overflows, the policy is LRU, regions are distinct. *)
Theorem settings_typed :
  configure_all (well_typed Get) (well_typed GetArray) ExpandEnv NameFromStr = configure_all Get GetArray ExpandEnv NameFromStr /\
  boot (well_typed Get) (well_typed GetArray) ExpandEnv NameFromStr DisableEthernet DisableUnix configFileDir =
    boot Get GetArray ExpandEnv NameFromStr DisableEthernet DisableUnix configFileDir /\
  match configure_all Get GetArray ExpandEnv NameFromStr with
  | Ok s => face_in_range (face_settings s) /\ int32 (s_fwQueueSize (fw_settings s)) /\ int32 (s_NumFwThreads (fw_settings s)) /\
      table_in_range (table_settings s) /\
      port_number (s_m (start_settings Get DisableEthernet DisableUnix configFileDir (face_settings s))) /\
      port_number (wsPort (cfgWebSocket (s_start (start_settings Get DisableEthernet DisableUnix configFileDir (face_settings s)))))
  | Err _ => exists name, name ∈ default [] (GetConfigArrayString GetArray "tables.network_region.regions") /\ NameFromStr name = None
  | Panic => False
  end.
Proof.
  split; [apply configure_typed|]. split.
  - unfold boot. rewrite configure_typed. destruct (configure_all _ _ _ _) as [s| |]; [|done|done]. cbn [outcome_bind]. by rewrite start_typed.
  - unfold configure_all. destruct (table_Configure Get GetArray NameFromStr) as [t|e|] eqn:Et; cbn [outcome_bind].
    + split_and!; [apply face_range|apply int_range; lia|apply int_range; lia|apply (table_range t Et)|apply uint16_range; lia|apply uint16_range; lia].
    + revert Et. unfold table_Configure. pose proof (add_regions_spec (default [] (GetConfigArrayString GetArray "tables.network_region.regions")) [] (NoDup_nil_2)) as Hr.
      destruct (add_regions _ _ _) as [rs|e'|]; cbn [outcome_bind]; [done|by intros _|done].
    + revert Et. unfold table_Configure. pose proof (add_regions_spec (default [] (GetConfigArrayString GetArray "tables.network_region.regions")) [] (NoDup_nil_2)) as Hr.
      destruct (add_regions _ _ _) as [rs|e'|]; cbn [outcome_bind]; [done|done|done].
Qed.

(** The settings that decide whether the daemon comes up. *)
Definition regions_parse : Prop :=
  Forall (fun r => is_Some (NameFromStr r)) (default [] (GetConfigArrayString GetArray "tables.network_region.regions")).
Definition known_algorithm : Prop :=
  GetConfigStringDefault Get "tables.fib.algorithm" (gs "nametree") ∈ [gs "hashtable"; gs "nametree"].
Definition face_queue : Z := GetConfigIntDefault Get "faces.queue_size" 1024.
Definition thread_queue : Z := GetConfigIntDefault Get "fw.queue_size" 1024.
Definition thread_number : Z := GetConfigIntDefault Get "fw.threads" 8.

Lemma create_fib alg m base :
  match CreateFIBTable (Stdlib.Strings.String.string_of_list_byte alg) m base with
  | Some _ => alg ∈ [gs "hashtable"; gs "nametree"]
  | None => alg ∉ [gs "hashtable"; gs "nametree"]
  end.
Proof.
  assert (Hinj : forall t, Stdlib.Strings.String.string_of_list_byte alg = t <-> alg = gs t).
  { intros t. unfold gs. split; [intros <-; symmetry; apply Stdlib.Strings.String.list_byte_of_string_of_list_byte|
      intros ->; apply Stdlib.Strings.String.string_of_list_byte_of_string]. }
  unfold CreateFIBTable. case_decide as E1; [apply Hinj in E1 as ->; by left|].
  case_decide as E2; [apply Hinj in E2 as ->; by right; left|]. rewrite !not_elem_of_cons. rewrite Hinj in E1, E2.
  split_and!; [done|done|apply not_elem_of_nil].
Qed.

Lemma regions_parse_spec rs e : 
  (add_regions NameFromStr (default [] (GetConfigArrayString GetArray "tables.network_region.regions")) [] = Ok rs -> regions_parse) /\
  (add_regions NameFromStr (default [] (GetConfigArrayString GetArray "tables.network_region.regions")) [] = Err e -> ~ regions_parse) /\
  add_regions NameFromStr (default [] (GetConfigArrayString GetArray "tables.network_region.regions")) [] <> Panic.
Proof.
  unfold regions_parse. set (names := default [] _). pose proof (add_regions_spec names [] (NoDup_nil_2)) as Hr.
  destruct (add_regions NameFromStr names []) as [rs'|e'|]; split_and!; try done.
  - intros _. destruct Hr as (_ & parsed & Ep & _). apply Forall_lookup_2. intros i x Hx.
    pose proof (f_equal (fun l => l !! i) Ep) as Hi. rewrite !list_lookup_fmap, Hx in Hi. cbn in Hi.
    destruct (parsed !! i); [|done]. injection Hi as ->. by eexists.
  - intros _ Hall. destruct Hr as (x & Hx & Hn). rewrite Forall_forall in Hall. destruct (Hall x Hx) as [? ?]. congruence.
Qed.

Lemma boot_thread (s : Settings) queue name : 1 <= s_NumFwThreads (fw_settings s) ->
  let threads := (boot_threads s queue).1 in
  Z.of_nat (length threads) = s_NumFwThreads (fw_settings s) /\
  exists t th, HashNameToFwThread (Z.of_nat (length threads)) name = Ok t /\ 0 <= t /\ threads !! Z.to_nat t = Some th /\ threadID th = t.
Proof.
  intros Hn. cbn. rewrite length_fmap, length_seq, Z2Nat.id by lia. split; [done|].
  assert (Ht : forall t, 0 <= t < s_NumFwThreads (fw_settings s) ->
    ((fun i => NewThread (Z.of_nat i)) <$> seq 0 (Z.to_nat (s_NumFwThreads (fw_settings s)))) !! Z.to_nat t = Some (NewThread t)).
  { intros t Ht. rewrite list_lookup_fmap, lookup_seq_lt by lia. cbn. by rewrite Z2Nat.id by lia. }
  unfold HashNameToFwThread. destruct (is_localhost name).
  - exists 0, (NewThread 0). split_and!; [done|lia|apply (Ht 0); lia|done].
  - replace (_ =? 0) with false by lia. pose proof (Z.mod_pos_bound (Name_Hash name) (s_NumFwThreads (fw_settings s)) ltac:(lia)) as Hm.
    eexists _, (NewThread _). split_and!; [done|lia|apply Ht; lia|done].
Qed.

(** C29: which configurations the daemon comes up with.  It ends with an error
    when a region is no name, the FIB algorithm is not known, or the number of
    threads is out of range, and crashes when the size of a queue is negative,
    the faces' queue before the number of threads is looked at.  Otherwise there
    are as many threads as configured, every name is dispatched to one of them,
    and they have the configured Content Store and dead nonce list. *)
Theorem boot_outcome :
  match boot Get GetArray ExpandEnv NameFromStr DisableEthernet DisableUnix configFileDir with
  | Ok b => regions_parse /\ known_algorithm /\ 0 <= face_queue /\ 1 <= thread_number <= MaxFwThreads /\ 0 <= thread_queue /\
      b_faceQueue b = Z.to_nat face_queue /\ fwQueueSize (b_config b) = Z.to_nat thread_queue /\
      0 < csCapacity (b_config b) < 2 ^ 16 /\ Z.of_nat (length (b_threads b)) = thread_number /\
      forall name, exists t th, HashNameToFwThread (Z.of_nat (length (b_threads b))) name = Ok t /\
        b_threads b !! Z.to_nat t = Some th /\ threadID th = t
  | Err _ => ~ regions_parse \/ ~ known_algorithm \/ 0 <= face_queue /\ ~ 1 <= thread_number <= MaxFwThreads
  | Panic => regions_parse /\ known_algorithm /\ (face_queue < 0 \/ 1 <= thread_number <= MaxFwThreads /\ thread_queue < 0)
  end.
Proof.
  unfold boot, configure_all, table_Configure. destruct (add_regions _ _ _) as [rs|e|] eqn:Er; cbn [outcome_bind].
  2: { left. by eapply (regions_parse_spec [] e). }
  2: { by destruct (regions_parse_spec [] (ErrNew "")) as (_ & _ & []). }
  assert (Hrs : regions_parse) by (by eapply (regions_parse_spec rs (ErrNew ""))). cbn [start_settings s_fibTableAlgorithm].
  pose proof (create_fib (GetConfigStringDefault Get "tables.fib.algorithm" (gs "nametree"))) as Hfib.
  match goal with |- context [CreateFIBTable ?a ?m ?b] => specialize (Hfib m b); destruct (CreateFIBTable a m b) as [fib|] end; [|by right; left].
  fold known_algorithm in Hfib. cbn [face_settings fw_settings face_Configure fw_Configure s_faceQueueSize s_NumFwThreads s_fwQueueSize].
  fold face_queue thread_number thread_queue. unfold make_queue. destruct (Z.ltb_spec face_queue 0) as [Hq|Hq]; cbn [outcome_bind]; [auto|].
  goal_if En; [right; right; split; [done|]; lia|]. assert (Hn : 1 <= thread_number <= MaxFwThreads) by lia.
  destruct (Z.ltb_spec thread_queue 0) as [Hfq|Hfq]; cbn [outcome_bind]; [auto|].
  match goal with |- context [boot_threads ?s ?q] => pose proof (boot_thread s q) as Ht; destruct (boot_threads s q) as [threads config] eqn:Eb end.
  cbn [fst fw_settings s_NumFwThreads fw_Configure] in Ht. fold thread_number in Ht. unfold boot_threads in Eb. injection Eb as _ <-.
  cbn [b_faceQueue b_threads b_config fwQueueSize csCapacity s_csCapacity table_settings].
  split_and!; try done; try lia; [apply uint16_range; lia|apply uint16_range; lia|apply (Ht []); lia|].
  intros name. destruct (Ht name) as (_ & t & th & E & _ & Hl & Hid); [lia|]. by exists t, th.
Qed.

End laws.

(** ** The sample configuration *)

Module ConfigureExamples.
#[local] Existing Instance ref_ops.
#[local] Existing Instance ref_laws.

(** yanfd.toml.sample. *)
Definition sample_values : list (String.string * toml) := [
  ("core.log_level"%string, TomlString (gs "INFO"));
  ("faces.queue_size"%string, TomlInt 1024); ("faces.congestion_marking"%string, TomlBool true);
  ("faces.lock_threads_to_cores"%string, TomlBool false); ("faces.ethernet.enabled"%string, TomlBool true);
  ("faces.ethernet.ethertype"%string, TomlInt 0x8624);
  ("faces.ethernet.multicast_address"%string, TomlString (gs "01:00:5e:00:17:aa"));
  ("faces.udp.port_unicast"%string, TomlInt 6363); ("faces.udp.port_multicast"%string, TomlInt 56363);
  ("faces.udp.multicast_address_ipv4"%string, TomlString (gs "224.0.23.170"));
  ("faces.udp.multicast_address_ipv6"%string, TomlString (gs "ff02::114")); ("faces.udp.lifetime"%string, TomlInt 600);
  ("faces.tcp.enabled"%string, TomlBool true); ("faces.tcp.port_unicast"%string, TomlInt 6363);
  ("faces.tcp.lifetime"%string, TomlInt 600); ("faces.unix.enabled"%string, TomlBool true);
  ("faces.unix.socket_path"%string, TomlString (gs "/run/nfd/nfd.sock")); ("faces.websocket.enabled"%string, TomlBool true);
  ("faces.websocket.bind"%string, TomlString []); ("faces.websocket.port"%string, TomlInt 9696);
  ("faces.websocket.tls_enabled"%string, TomlBool false); ("faces.websocket.tls_cert"%string, TomlString []);
  ("faces.websocket.tls_key"%string, TomlString []); ("fw.threads"%string, TomlInt 8); ("fw.queue_size"%string, TomlInt 1024);
  ("fw.lock_threads_to_cores"%string, TomlBool false); ("mgmt.allow_localhop"%string, TomlBool false);
  ("tables.queue_size"%string, TomlInt 1024); ("tables.content_store.capacity"%string, TomlInt 1024);
  ("tables.content_store.admit"%string, TomlBool true); ("tables.content_store.serve"%string, TomlBool true);
  ("tables.content_store.replacement_policy"%string, TomlString (gs "lru"));
  ("tables.dead_nonce_list.lifetime"%string, TomlInt 6000); ("tables.network_region.regions"%string, TomlStrings []);
  ("tables.rib.auto_prefix_propagation"%string, TomlBool false); ("tables.fib.algorithm"%string, TomlString (gs "nametree"));
  ("tables.fib.hashtable.m"%string, TomlInt 5)].
Definition of_list (l : list (String.string * toml)) : tree := fun key => snd <$> find (fun '(k, _) => String.eqb k key) l.
Definition sample : tree := of_list sample_values.

(** Names of generic components. *)
Definition NameFromStr (s : list byte) : option Name :=
  match split_at slash s with [] :: cs => Some (map (mkComponent 8) cs) | _ => None end.

(** The sample holds the defaults. *)
Example sample_is_default :
  configure_all sample sample id NameFromStr = configure_all (fun _ => None) (fun _ => None) id NameFromStr /\
  start_settings sample false false (gs "/etc/ndn") = start_settings (fun _ => None) false false (gs "/etc/ndn").
Proof. split; reflexivity. Qed.

Definition boot_with (over : list (String.string * toml)) : outcome Booted :=
  boot (of_list (over ++ sample_values)) (of_list (over ++ sample_values)) id NameFromStr false false (gs "/etc/ndn").

Lemma boot_witness : exists b, boot_with [] = Ok b /\ Z.of_nat (length (b_threads b)) = 8 /\
  exists t th, HashNameToFwThread 8 [gc "a"] = Ok t /\ b_threads b !! Z.to_nat t = Some th /\ threadID th = t.
Proof.
  pose proof (boot_outcome (of_list sample_values) (of_list sample_values) id NameFromStr false false (gs "/etc/ndn")) as Hb.
  change (boot (of_list sample_values) (of_list sample_values) id NameFromStr false false (gs "/etc/ndn")) with (boot_with []) in Hb.
  destruct (boot_with []) as [b| |] eqn:E; [|exfalso; vm_compute in E; discriminate..].
  destruct Hb as (_ & _ & _ & _ & _ & _ & _ & _ & Hn & Hd). change (thread_number (of_list sample_values)) with 8 in Hn.
  exists b. split; [reflexivity|]. split; [exact Hn|]. rewrite Hn in Hd. apply (Hd [gc "a"]).
Defined.

(** A port that is no port, and a number of threads that is text. *)
Lemma settings_typed_witness :
  let g := of_list (("faces.udp.port_unicast"%string, TomlInt 70000) :: ("fw.threads"%string, TomlString (gs "4")) :: sample_values) in
  exists s, configure_all (well_typed g) (well_typed g) id NameFromStr = Ok s /\ face_in_range (face_settings s) /\ s_UDPUnicastPort (face_settings s) = 6363 /\ s_NumFwThreads (fw_settings s) = 8.
Proof.
  intros g. destruct (settings_typed g g id NameFromStr false false (gs "/etc/ndn")) as (E & _ & H).
  destruct (configure_all g g id NameFromStr) as [s| |] eqn:Es; [|exfalso; vm_compute in Es; discriminate..].
  exists s. split; [exact E|]. split; [apply H|]. vm_compute in Es. injection Es as <-. split; reflexivity.
Defined.

(** What does not come up. *)
Example boot_fails :
  boot_with [("faces.queue_size"%string, TomlInt (-1))] = Panic /\ boot_with [("fw.queue_size"%string, TomlInt (-1))] = Panic /\
  (exists e, boot_with [("fw.threads"%string, TomlInt 0)] = Err e) /\
  (exists b, boot_with [("fw.threads"%string, TomlString (gs "4"))] = Ok b /\ length (b_threads b) = 8%nat).
Proof. split; [reflexivity|]. split; [reflexivity|]. split; eexists; [reflexivity|]. split; reflexivity. Qed.
End ConfigureExamples.
